(* ===== verification/_CoqProject ===== *)
-Q . S2P
Prelude.v
RWLock.v
UInt256.v
Stream.v
Prog.v
Cache.v
Destination.v
Transaction.v
Block.v
Base.v
TxPool.v
TxPoolSync.v
Base25519.v
SC25519.v
Prime25519.v
FP25519.v
FPInverse.v
Edwards.v
Order25519.v
Ed25519.v
Subgroup.v
Crypto.v
MultiSign.v
Tables.v
Lagrange.v
Interpolation.v
MPBox.v
MPVSS.v
MPVSSOk.v
Delegate.v
DelegateOk.v
Schedule.v
Template.v
Profile.v
BlockIndex.v
Core.v
Dispatcher.v
UnspentDB.v
BlockView.v
Chain.v
BlockFork.v
BlockTree.v
Circular.v
TimeSeries.v
CTSDB.v
BlockStore.v
BlockDB.v
BlockBase.v
WorldLine.v
Agreement.v
Ledger.v
BaseInv.v
BaseView.v
BaseAdd.v
BaseCommit.v
BlockVerify.v
Accept.v
BaseFork.v
Origin.v
World.v
Money.v
Node.v
