(* ===== verification/Prelude.v ===== *)
(** * Verification of the Multiverse wallet core

    The program is a node of a block chain with many forks.  Blocks and
    transactions arrive from peers; the dispatcher hands transactions to the
    pool and blocks to the world line; both ask the core protocol whether they
    are valid; the block base keeps the index of all blocks, the best chain of
    every fork and the outputs not yet spent.  A destination is a public key or a
    template, a small script with a signature rule; multi-signatures are made
    over the Ed25519 curve.  The delegates of the chain agree on a random number
    for every height by a verifiable secret sharing, whose proof a block carries.

    ** Files and what they model

    - [Prelude]: machine integers as [Z] with their wrap-around, little-endian
      digits, and the list and bit lemmas the other files share.
    - [RWLock] (walleve/rwlock.h): the lock every store uses, and any number of
      threads interleaved on it.
    - [UInt256] (crypto/uint256.h): [base_uint] over its 32-bit limbs.
    - [Stream] (walleve/stream): serialization as codecs, a [save] and a [load]
      with the law that loading gives back what was saved; the data streams.
    - [Destination], [Transaction], [Block], [BlockIndex], [Profile] (src/common,
      walleve/compacttv.h): the data of the chain with its operations, hashes and
      byte forms.
    - [Base] (src/error.h, param.h, mvbase.h): error codes, parameters and the
      interfaces ([ICoreProtocol], [IWorldLine]) between components.
    - [TxPool], [TxPoolSync] (src/txpool.h, txpool.cpp): the pool of transactions
      and its synchronisation with new and removed blocks.
    - [Base25519], [SC25519] (crypto/curve25519): the 256-bit arithmetic and the
      scalars modulo the group order.  [FP25519], [FPInverse] (fp25519.cpp): the
      field of the curve; [Ed25519] (ed25519.cpp, ed25519.h): its points.
    - [Prime25519], [Edwards], [Order25519], [Subgroup]: the mathematics the curve
      rests on.  The two primes are certified by Pocklington's criterion, the
      affine points form a group, the base point has the prime order [L], and the
      points of [Ed25519] stand for its multiples.
    - [Crypto] (crypto/crypto.cpp): the multi-signatures over the interface
      [IEdwards] of the curve; [MultiSign]: the instance of [Ed25519].
    - [Tables] (the tables of sc25519.cpp and mpinterpolation.cpp), [Interpolation]
      (mpvss/mpinterpolation.cpp) with [Lagrange], the mathematics of it; [MPBox]
      (mpvss/mpbox.cpp): a delegate's polynomial, its commitments and signatures;
      [MPVSS], [MPVSSOk] (mpvss/mpvss.cpp): the secret sharing and its theorems.
    - [Delegate] (src/delegate): the vote of the delegates for a height, its
      messages as bytes, the proof in a block and the votes of all heights;
      [DelegateOk]: its theorems.
    - [Schedule] (src/schedule.cpp): which peer is asked for which block or
      transaction, what has arrived and what waits for another.
    - [Template] (common/template, destination.cpp): the template classes.
    - [Core] (src/core.cpp): the rules of the chain.
    - [Dispatcher] (src/dispatcher.cpp): a transaction from arrival to the pool,
      with [Core] as the pool's core protocol.
    - [UnspentDB] (storage/unspentdb.cpp): the databases of unspent outputs with
      their write caches, alone and with concurrent readers, updates and flushes.
    - [BlockView] (class CBlockView of storage/blockbase.cpp): the changes a branch
      makes to the unspent outputs.
    - [Chain], [BlockFork] (storage/blockbase.h, blockbase.cpp, src/worldline.cpp):
      the index of blocks, branches, locators, inventories, and the next pointers
      of a fork's best chain.
    - [Circular], [TimeSeries] (walleve/stream/circular.cpp, storage/timeseries.h):
      the block files with their circular cache.
    - [CTSDB] (storage/ctsdb.h, txindexdb.cpp): the chunked database and the index
      of transactions.
    - [Prog]: programs over a state that can fail, throw or be undefined, the
      monad the files below are written in.  [Cache] (walleve/cache.h).
    - [BlockDB] (storage/blockdb.cpp, forkdb.cpp, blockindexdb.cpp, delegatedb.cpp,
      common/forkcontext.h): the tables and the facade over all databases.
    - [BlockBase] (class CBlockBase of storage/blockbase.cpp): index, forks, block
      files and databases together, every operation that changes them.
    - [WorldLine] (src/worldline.cpp): verification and acceptance of blocks.
    - [Agreement]: the proof of [Delegate] as the one the world line asks for.
    - [BlockTree], [BlockStore], [Ledger], [BaseInv]: the invariant of the block
      base.  The index is a tree of chains to the genesis block, every block and
      every transaction of it can be read where the index says, the unspent outputs
      of a fork are those of replaying its best chain.
    - [BaseView], [BaseAdd], [BaseCommit], [BlockVerify]: what the views, the adding
      of a block, the commit and the verification do under the invariant.
    - [Accept], [BaseFork], [Origin]: acceptance of a block as a whole, opening of a
      fork by its origin and of the first one by the genesis block.
    - [World], [Money], [Node]: the states a node reaches from its genesis block, the
      tree of ledgers they stand for, the money supply they record, and the main
      theorems with an example on the genesis block of the main network.

    Within a file a [Module] stands for a class; its state is the record with the
    class's name, a method is the definition with the method's name, a loop is a
    [Fixpoint] or a fold named after it.  A method that returns [bool] and fills
    references returns a pair or an option; one that can throw or read outside
    its data returns an [outcome].

    ** What the theorems show

    - The chain: in the states a node reaches by blocks that are regular if they
      pass the checks (see below), the unspent outputs of a fork are those of
      replaying its chain and its last block is the best ([unspent_is_replay]); what accepting a block or a fork and starting from the
      genesis block do ([AddNewBlock_spec], [AddNewOrigin_spec], [Initiate_spec]);
      the state stays well formed ([world_wellformed]).
    - Money: no two pooled transactions spend one output ([pool_no_double_spend]);
      a reorganisation of the chain is the replay of the new branch, in the view
      and after its commit ([reorg_replays]); in the same states the recorded money
      supply is the sum of the unspent outputs, apart from what isolated forks left
      behind ([money_conserved]); what the node accepts is valid, unspent
      and authorised ([AddNewTx_accepts], [VerifyTransaction_spec],
      [ValidateTransaction_spec], [ValidateBlock_spec]).
    - The pool: what pushing, popping, invalidating and synchronising do and that
      they end ([Push_spec], [InvalidateSpent_descendants],
      [SynchronizeWorldLine_confirms], [SynchronizeWorldLine_total]).
    - Consensus: targets, proofs of work, ballots and slots
      ([GetProofOfWorkTarget_spec], [VerifyProofOfWork_spec],
      [GetDelegatedBallot_spec], [delegated_slots]), Merkle trees.
    - The curve: scalars, field elements and points compute in the integers modulo
      the group order, in the field and in the group of the curve ([sc_refines],
      [field_refines], [point_group], [ScalarMult_repeats],
      [Generate_homomorphism]); packed points are read back ([pack_roundtrip]).
    - The delegates: what an honest delegate sets up, distributes and publishes is
      enrolled, accepted and collected by the others ([setup_enrolls],
      [distribute_message_accepted], [publish_message_collected]); enough shares
      give the secret, whichever they are ([interpolation_recovers],
      [reconstruct_secrets]), so nodes agree ([agreement_common]); the proof in a
      block is accepted with the same agreement ([proof_verifies],
      [made_block_agreement]); what a rollback keeps ([rollback_votes]).
    - Downloads: the schedule stays consistent and asks one peer for an inventory
      ([schedule_consistent]), in the order of its list ([ScheduleKnownInv_spec]);
      what a peer leaves behind is asked of others ([RemovePeer_reassigns]); an
      invalid object goes with its descendants ([Invalidate_spec]).
    - Signatures: multi-signatures are complete ([multisign_verifies]),
      templates accept what they build and exactly what fulfils their condition,
      which for a delegate template is not the owner's signature
      ([template_spend_condition]).
    - Storage and concurrency: the lock excludes and does not lose wake-ups, the
      cached databases are one map per fork, reads are linearizable; the block
      files return what was written ([timeseries_refines]),
      the transaction index is a map through failing and concurrent flushes
      ([txindex_refines], [cts_refines]); the next
      pointers follow the best chain ([UpdateLast_links]).
    - Numbers and bytes: [base_uint] computes modulo its width, everything
      serialized loads back.

    A theorem about a deviation (a lock order that can block, an output marked
    wrongly after a reorganisation, a check that is missing) states exactly what
    the code does; it stands beside the component it concerns.

    ** Bounds, fuel and parameters

    Loops that are not structural carry fuel that is proved to be enough:
    [InvalidateSpent] gets twice the number of pooled transactions and one,
    [BuildMerkleTree] the length of its list, [RemoveBranch] the number of orphans, [VerifyTxSignature] the number of
    template levels the data can hold, [FP25519.Inverse] two rounds for each of
    the 256 bits of its numbers, [Reduce] and [Range] one more round than their
    arguments can need.  The set-up of a delegate draws random numbers until none
    is zero; its fuel counts the rounds, and [setup_loop_spec] says which ends it.  Integers have the width of their C++ type
    where the code can overflow them.  Code outside the repository is a parameter
    with its documented behaviour as hypotheses: the hash functions, the Ed25519
    verification of libsodium, base64 of boost, the key-value store.  The theorems
    about the chain speak of a disk that does not fail and of blocks that are regular
    if they pass the checks: younger than the origin of their fork, with a mint
    transaction new to their branch, and origins of the type [BLOCK_ORIGIN].  The
    code relies on these three and checks none of them (see the findings);
    [Accept.regular] and [Origin.origin_regular] state them, [World.reached] has
    them as conditions.  What fails a check can be any block.
    [Naming] states that the ids of the transactions that occur determine them.

    ** Not modelled

    Sockets, sessions, RPC and JSON, configuration, threads and timers, the
    console, and the bundled leveldb and snappy are I/O or third-party code.  The
    parallel loops of mpvss.cpp (parallel.h) are modelled in the order of their
    data, since their bodies share nothing.  Not modelled: the consistency check of
    the block base, the wallet, and the block makers apart from their proof. *)

From stdpp Require Export prelude.
From stdpp Require Export gmap list_numbers sorting.
From Stdlib Require Export ZArith Lia.

#[global] Open Scope Z_scope.

(** ** Machine integers

    An unsigned [w]-bit integer is the [Z] in [0 .. 2^w - 1]; the C++
    conversions and the wrap-around of unsigned arithmetic are [wrap]. *)

Definition wrap (w z : Z) : Z := z mod 2 ^ w.

Definition swrap (w z : Z) : Z := (z + 2 ^ (w - 1)) mod 2 ^ w - 2 ^ (w - 1).

Definition is_uint (w z : Z) : Prop := 0 <= z < 2 ^ w.

Notation u8 := (wrap 8).
Notation u16 := (wrap 16).
Notation u32 := (wrap 32).
Notation u64 := (wrap 64).
Notation i32 := (swrap 32).
Notation i64 := (swrap 64).

#[export] Instance is_uint_dec w z : Decision (is_uint w z).
Proof. unfold is_uint. apply _. Defined.

(** ** Little-endian digits

    [le_split w n z] is the list of the [n] lowest [w]-bit digits of [z], the
    least significant first; [le_combine w] is the number such a list stands
    for.  With [w = 8] they are the bytes of an object in memory on the
    little-endian machines the program targets, with [w = 32] the limbs of
    [base_uint]. *)

Fixpoint le_split (w : Z) (n : nat) (z : Z) : list Z :=
  match n with
  | O => []
  | S n => z mod 2 ^ w :: le_split w n (z / 2 ^ w)
  end.

Fixpoint le_combine (w : Z) (l : list Z) : Z :=
  match l with
  | [] => 0
  | x :: l => x + 2 ^ w * le_combine w l
  end.

(** ** Tactics *)

Create HintDb mv discriminated.

Ltac destruct_and_all :=
  repeat match goal with
  | H : _ /\ _ |- _ => destruct H
  | H : exists _, _ |- _ => destruct H
  end.

(** Case analysis on the scrutinee of the first [match] of the goal or of a
    hypothesis, with its equation. *)
Ltac case_match_eqn :=
  match goal with
  | |- context [match ?x with _ => _ end] => destruct x eqn:?
  | H : context [match ?x with _ => _ end] |- _ => destruct x eqn:?
  end.

Ltac bool_to_prop :=
  repeat match goal with
  | H : (_ && _)%bool = true |- _ => apply andb_true_iff in H as [? ?]
  | H : (_ || _)%bool = false |- _ => apply orb_false_iff in H as [? ?]
  | H : negb _ = true |- _ => apply negb_true_iff in H
  | H : negb _ = false |- _ => apply negb_false_iff in H
  | H : (_ <? _) = true |- _ => apply Z.ltb_lt in H
  | H : (_ <? _) = false |- _ => apply Z.ltb_ge in H
  | H : (_ <=? _) = true |- _ => apply Z.leb_le in H
  | H : (_ <=? _) = false |- _ => apply Z.leb_gt in H
  | H : (_ =? _) = true |- _ => apply Z.eqb_eq in H
  | H : (_ =? _) = false |- _ => apply Z.eqb_neq in H
  | H : bool_decide _ = true |- _ => apply bool_decide_eq_true_1 in H
  | H : bool_decide _ = false |- _ => apply bool_decide_eq_false_1 in H
  end.

(** ** Machine integer lemmas *)

Lemma wrap_range w z : 0 <= w -> is_uint w (wrap w z).
Proof. intros. apply Z.mod_pos_bound. lia. Qed.

Lemma wrap_small w z : is_uint w z -> wrap w z = z.
Proof. apply Z.mod_small. Qed.

Lemma wrap_wrap w z : wrap w (wrap w z) = wrap w z.
Proof. apply Zmod_mod. Qed.

Lemma wrap_add_l w a b : wrap w (wrap w a + b) = wrap w (a + b).
Proof. apply Zplus_mod_idemp_l. Qed.

Lemma wrap_add_r w a b : wrap w (a + wrap w b) = wrap w (a + b).
Proof. apply Zplus_mod_idemp_r. Qed.

Lemma is_uint_mono w w' z : 0 <= w <= w' -> is_uint w z -> is_uint w' z.
Proof.
  intros ? [? ?]. split; [done|].
  apply Z.lt_le_trans with (2 ^ w); [done|]. apply Z.pow_le_mono_r; lia.
Qed.

Lemma swrap_small w z : 0 < w -> - 2 ^ (w - 1) <= z < 2 ^ (w - 1) -> swrap w z = z.
Proof.
  intros Hw Hz. unfold swrap. rewrite Z.mod_small; [lia|].
  replace (2 ^ w) with (2 * 2 ^ (w - 1)); [lia|].
  rewrite <- Z.pow_succ_r by lia. f_equal. lia.
Qed.

#[export] Hint Resolve wrap_range wrap_small : mv.

(** Numbers that are the same [int64] *)
Definition eqm64 (a b : Z) : Prop := i64 a = i64 b.

#[export] Instance eqm64_equiv : Equivalence eqm64.
Proof. split; [done|by intros a b|intros a b c; unfold eqm64; congruence]. Qed.

Lemma eqm64_mod a b : eqm64 a b <-> a mod 2 ^ 64 = b mod 2 ^ 64.
Proof.
  unfold eqm64, swrap. set (h := 2 ^ (64 - 1)). set (M := 2 ^ 64). split; intros E.
  - assert (E' : (a + h) mod M = (b + h) mod M) by lia. replace a with (a + h - h) by lia. replace b with (b + h - h) by lia.
    by rewrite Zminus_mod, E', <- Zminus_mod.
  - by rewrite Zplus_mod, E, <- Zplus_mod.
Qed.

#[export] Instance eqm64_add : Proper (eqm64 ==> eqm64 ==> eqm64) Z.add.
Proof. intros a b E c d E'. apply eqm64_mod in E, E'. apply eqm64_mod. by rewrite Zplus_mod, E, E', <- Zplus_mod. Qed.

#[export] Instance eqm64_sub : Proper (eqm64 ==> eqm64 ==> eqm64) Z.sub.
Proof. intros a b E c d E'. apply eqm64_mod in E, E'. apply eqm64_mod. by rewrite Zminus_mod, E, E', <- Zminus_mod. Qed.

Lemma eqm64_wrap a : eqm64 (i64 a) a.
Proof.
  apply eqm64_mod. unfold swrap. rewrite Zminus_mod, Zmod_mod, <- Zminus_mod. f_equal. lia.
Qed.

(** ** Little-endian lemmas *)

Lemma length_le_split w n z : length (le_split w n z) = n.
Proof. revert z. induction n; simpl; auto. Qed.

Lemma le_split_range w n z :
  0 <= w -> Forall (is_uint w) (le_split w n z).
Proof.
  intros. revert z. induction n; simpl; constructor; auto.
  apply (wrap_range w z). done.
Qed.

Lemma le_combine_range w l :
  0 <= w -> Forall (is_uint w) l -> is_uint (w * Z.of_nat (length l)) (le_combine w l).
Proof.
  intros Hw. induction 1 as [|x l Hx Hl IH]; simpl.
  - rewrite Z.mul_0_r. done.
  - unfold is_uint in *. rewrite Nat2Z.inj_succ, Z.mul_succ_r, Z.pow_add_r by lia. nia.
Qed.

Lemma le_split_combine w l :
  0 <= w -> Forall (is_uint w) l -> le_split w (length l) (le_combine w l) = l.
Proof.
  intros Hw. induction 1 as [|x l Hx Hl IH]; simpl; [done|].
  unfold is_uint in Hx. rewrite (Z.mul_comm (2 ^ w)), Z.mod_add, Z.div_add by lia.
  rewrite Z.mod_small, Z.div_small, Z.add_0_l, IH by done. done.
Qed.

Lemma le_combine_split w n z :
  0 <= w -> le_combine w (le_split w n z) = z mod 2 ^ (w * Z.of_nat n).
Proof.
  intros Hw. revert z. induction n as [|n IH]; intros z; cbn [le_split le_combine].
  - rewrite Z.mul_0_r, Z.mod_1_r. done.
  - rewrite IH, Nat2Z.inj_succ, Z.mul_succ_r, Z.add_comm, (Z.add_comm _ w), Z.pow_add_r by lia.
    rewrite Z.rem_mul_r by lia. lia.
Qed.

Lemma le_combine_app w l1 l2 :
  0 <= w ->
  le_combine w (l1 ++ l2) = le_combine w l1 + 2 ^ (w * Z.of_nat (length l1)) * le_combine w l2.
Proof.
  intros Hw. induction l1 as [|x l1 IH]; cbn [app le_combine length].
  - rewrite Z.mul_0_r. lia.
  - rewrite IH, Nat2Z.inj_succ, Z.mul_succ_r, Z.pow_add_r by lia. ring.
Qed.

Lemma le_combine_inj w l1 l2 :
  0 <= w -> length l1 = length l2 -> Forall (is_uint w) l1 -> Forall (is_uint w) l2 ->
  le_combine w l1 = le_combine w l2 -> l1 = l2.
Proof.
  intros Hw Hlen H1 H2 E.
  rewrite <- (le_split_combine w l1), <- (le_split_combine w l2) by done. by rewrite Hlen, E.
Qed.

Lemma le_combine_replicate_0 w n : le_combine w (replicate n 0) = 0.
Proof. induction n as [|n IH]; simpl; [done|]. rewrite IH. lia. Qed.

(** One word of a carry chain: the word, and the carry into the rest *)
Lemma carry_step w n x rest :
  0 <= w -> 0 <= n ->
  (x + 2 ^ w * rest) mod 2 ^ (w + n) = x mod 2 ^ w + 2 ^ w * ((x / 2 ^ w + rest) mod 2 ^ n).
Proof.
  intros Hw Hn. rewrite Z.pow_add_r, Z.rem_mul_r by lia.
  rewrite (Z.mul_comm (2 ^ w) rest), Z.mod_add, Z.div_add by lia. done.
Qed.

Lemma mod_mul_mod a b c : 0 < b -> 0 < c -> (a mod (b * c)) mod b = a mod b.
Proof.
  intros Hb Hc. rewrite Z.rem_mul_r by lia.
  rewrite Z.mul_comm, Z_mod_plus_full. apply Z.mod_mod. lia.
Qed.

(** ** Lists *)

Lemma two_step_ind {A} (P : list A -> Prop) :
  P [] -> (forall x, P [x]) -> (forall x y l, P l -> P (x :: y :: l)) -> forall l, P l.
Proof.
  intros H0 H1 H2 l. cut (P l /\ forall x, P (x :: l)); [tauto|].
  induction l as [|y l [IH1 IH2]]; auto.
Qed.

Lemma elem_of_rev {A} (x : A) (l : list A) : x ∈ rev l <-> x ∈ l.
Proof. rewrite !list_elem_of_In. symmetry. apply in_rev. Qed.

Lemma StronglySorted_map {A B} (f : A -> B) (R : relation A) (S : relation B) l :
  (forall a b, a ∈ l -> b ∈ l -> R a b -> S (f a) (f b)) ->
  StronglySorted R l -> StronglySorted S (map f l).
Proof.
  intros Hf. induction 1 as [|a l Hs IH Ha]; simpl; constructor.
  - apply IH. intros x y Hx Hy. apply Hf; by right.
  - apply Forall_map. rewrite Forall_forall in Ha |- *. intros b Hb.
    apply Hf; [by left|by right|by apply Ha].
Qed.

(** A prefix of a list sorted by a key holds all elements below one of its
    own. *)
Lemma sorted_prefix_closed {A} (key : A -> Z) l k x y :
  StronglySorted (fun a b => key a < key b) l ->
  x ∈ take k l -> y ∈ l -> key y < key x -> y ∈ take k l.
Proof.
  intros Hs Hx Hy Hlt. rewrite <- (take_drop k l) in Hs, Hy.
  apply elem_of_app in Hy as [Hy|Hy]; [done|].
  pose proof (StronglySorted_app_1_elem_of _ _ _ _ _ Hs Hx Hy). simpl in *. lia.
Qed.

(** A loop whose body can fail: an invariant [I], a preorder [R] the body
    follows, and a fact [Q] it establishes for its element and that [R]
    keeps. *)
Lemma foldl_option_inv {S A} (step : S -> A -> option S)
    (I : S -> Prop) (R : S -> S -> Prop) (Q : A -> S -> Prop) (l : list A) (s : S) :
  (forall s, R s s) -> (forall s1 s2 s3, R s1 s2 -> R s2 s3 -> R s1 s3) ->
  (forall a s s', Q a s -> R s s' -> Q a s') ->
  (forall s a, a ∈ l -> I s -> exists s', step s a = Some s' /\ I s' /\ R s s' /\ Q a s') ->
  I s ->
  exists s', foldl (fun s a => s ≫= fun s => step s a) (Some s) l = Some s' /\
    I s' /\ R s s' /\ forall a, a ∈ l -> Q a s'.
Proof.
  intros Hrefl Htrans HQ. revert s. induction l as [|a l IH]; intros s Hstep Hs; simpl.
  - exists s. split_and!; auto. intros a Ha. by apply elem_of_nil in Ha.
  - destruct (Hstep s a) as (s1 & E1 & I1 & R1 & Q1); [by left|done|]. simpl. rewrite E1.
    destruct (IH s1) as (s2 & E2 & I2 & R2 & Q2); [|done|].
    { intros s' a' Ha'. apply Hstep. by right. }
    exists s2. split_and!; eauto. intros a' Ha'. apply elem_of_cons in Ha' as [->|Ha']; eauto.
Qed.

(** ** Maps and lists of changes *)

Lemma lookup_writes {K V} `{Countable K} (l : list (K * V)) (m : gmap K V) k :
  NoDup l.*1 ->
  foldl (fun m e => <[e.1 := e.2]> m) m l !! k =
  match (list_to_map l : gmap K V) !! k with Some v => Some v | None => m !! k end.
Proof.
  revert m. induction l as [|[k' v'] l IH]; intros m Hnd; cbn [foldl list_to_map foldr].
  - by rewrite lookup_empty.
  - apply NoDup_cons in Hnd as [Hk Hnd]. rewrite IH by done. cbn in *.
    destruct (decide (k' = k)) as [->|Hne].
    + by rewrite lookup_insert_eq, (not_elem_of_list_to_map_1 l), lookup_insert_eq.
    + by rewrite !lookup_insert_ne by done.
Qed.

Lemma lookup_erases {K V} `{Countable K} (l : list K) (m : gmap K V) k :
  foldl (fun m k => delete k m) m l !! k = if decide (k ∈ l) then None else m !! k.
Proof.
  revert m. induction l as [|k' l IH]; intros m; cbn [foldl].
  - by rewrite decide_False by apply not_elem_of_nil.
  - rewrite IH. destruct (decide (k = k')) as [->|Hne].
    + rewrite lookup_delete_eq, (decide_True (P := k' ∈ k' :: l)) by left. by case_decide.
    + rewrite lookup_delete_ne by done. apply decide_ext. set_solver.
Qed.

Lemma NoDup_fst_filter {A B} (f : A * B -> bool) (l : list (A * B)) :
  NoDup l.*1 -> NoDup (List.filter f l).*1.
Proof.
  induction l as [|[a b] l IH]; cbn; [done|]. intros [Ha Hnd]%NoDup_cons.
  destruct (f (a, b)); cbn; [|auto]. constructor; [|auto].
  intros ([a' b'] & -> & H)%list_elem_of_fmap. apply Ha. apply list_elem_of_In in H.
  apply filter_In in H as [H _]. apply list_elem_of_fmap. exists (a', b'). by rewrite list_elem_of_In.
Qed.

Lemma elem_of_List_filter {A} (f : A -> bool) (l : list A) x : x ∈ List.filter f l <-> x ∈ l /\ f x = true.
Proof. rewrite !list_elem_of_In. apply filter_In. Qed.

(** ** Bits *)

Lemma testbit_cons w x y n :
  0 <= w -> is_uint w x -> 0 <= n ->
  Z.testbit (x + 2 ^ w * y) n = if n <? w then Z.testbit x n else Z.testbit y (n - w).
Proof.
  intros Hw Hx Hn. unfold is_uint in Hx. destruct (Z.ltb_spec n w).
  - rewrite <- (Z.mod_pow2_bits_low (x + _) w n) by lia.
    rewrite (Z.mul_comm _ y), Z.mod_add, Z.mod_small by lia. done.
  - replace n with (n - w + w) at 1 by lia. rewrite <- Z.div_pow2_bits by lia.
    rewrite (Z.mul_comm _ y), Z.div_add, Z.div_small by lia. done.
Qed.

Lemma is_uint_testbit w x :
  0 <= w -> is_uint w x -> forall n, w <= n -> Z.testbit x n = false.
Proof.
  intros Hw [Hx0 Hx] n Hn. destruct (decide (x = 0)) as [->|]; [by rewrite Z.bits_0|].
  apply Z.bits_above_log2; [lia|]. apply Z.log2_lt_pow2; [lia|].
  apply Z.lt_le_trans with (2 ^ w); [lia|]. apply Z.pow_le_mono_r; lia.
Qed.

Lemma lor_shiftl w x y :
  0 <= w -> is_uint w x -> Z.lor x (Z.shiftl y w) = x + 2 ^ w * y.
Proof.
  intros Hw Hx. apply Z.bits_inj'. intros n Hn.
  rewrite Z.lor_spec, testbit_cons, Z.shiftl_spec by done. destruct (Z.ltb_spec n w).
  - rewrite (Z.testbit_neg_r y), orb_false_r by lia. done.
  - rewrite (is_uint_testbit w x) by (done || lia). done.
Qed.

Lemma testbit_is_uint w x :
  0 <= w -> (forall n, w <= n -> Z.testbit x n = false) -> is_uint w x.
Proof.
  intros Hw Hx. cut (x mod 2 ^ w = x); [intros <-; apply Z.mod_pos_bound; lia|].
  apply Z.bits_inj'. intros n Hn. destruct (Z.lt_ge_cases n w).
  - by rewrite Z.mod_pow2_bits_low.
  - rewrite Z.mod_pow2_bits_high by lia. by rewrite Hx.
Qed.

#[export] Hint Resolve le_split_range le_combine_range : mv.
#[export] Hint Rewrite length_le_split : mv.
