(* ===== verification/RWLock.v ===== *)
(** * The read/write lock (src/walleve/walleve/rwlock.h)

    [CWalleveRWAccess] is a lock with three modes: any number of readers, one
    upgradable holder beside the readers, and one exclusive holder, which is a
    writer or the upgradable holder after [UpgradeToWriteLock].  The four fields
    are guarded by a mutex, and the waiting threads sleep on three condition
    variables.  An operation is modelled by the functions it runs under the
    mutex; [step] interleaves them over any number of threads, with the
    sleeping and waking of the waiters and the notification as a step of its
    own, because the source notifies after it has released the mutex.

    [mutual_exclusion] is the safety of the lock, [no_lost_wakeup] says that
    the waiters are never all left asleep. *)

From S2P Require Import Prelude.

Record CWalleveRWAccess : Type := mkRW {
  nRead : Z;
  nWrite : Z;
  fExclusive : bool;
  fUpgraded : bool;
}.

Module RWAccess.

(** ** The operations under the mutex *)

Definition init : CWalleveRWAccess := mkRW 0 0 false false.

(** The condition variable notified after the mutex is released:
    [condRead.notify_all], [condWrite.notify_one], [condUpgrade.notify_one] *)
Inductive notice : Type := NotifyRead | NotifyWrite | NotifyUpgrade.

(** One evaluation of the loop of [ReadLock]; [None]: the thread waits *)
Definition ReadLock (a : CWalleveRWAccess) : option CWalleveRWAccess :=
  if negb (nWrite a =? 0) || fUpgraded a then None
  else Some (mkRW (nRead a + 1) (nWrite a) (fExclusive a) (fUpgraded a)).

Definition ReadTryLock (a : CWalleveRWAccess) : bool * CWalleveRWAccess :=
  if negb (nWrite a =? 0) || fUpgraded a then (false, a)
  else (true, mkRW (nRead a + 1) (nWrite a) (fExclusive a) (fUpgraded a)).

Definition ReadUnlock (a : CWalleveRWAccess) : CWalleveRWAccess * option notice :=
  let nRead' := nRead a - 1 in
  let fNotifyWrite := (nRead' =? 0) && negb (nWrite a =? 0) in
  let fNotifyUpgrade := (nRead' =? 0) && fExclusive a in
  (mkRW nRead' (nWrite a) (fExclusive a) (fUpgraded a),
   if fNotifyUpgrade then Some NotifyUpgrade
   else if fNotifyWrite then Some NotifyWrite else None).

(** [++nWrite], then one evaluation of the loop *)
Definition WriteLock_begin (a : CWalleveRWAccess) : CWalleveRWAccess :=
  mkRW (nRead a) (nWrite a + 1) (fExclusive a) (fUpgraded a).

Definition WriteLock (a : CWalleveRWAccess) : option CWalleveRWAccess :=
  if negb (nRead a =? 0) || fExclusive a then None
  else Some (mkRW (nRead a) (nWrite a) true (fUpgraded a)).

Definition WriteUnlock (a : CWalleveRWAccess) : CWalleveRWAccess * option notice :=
  let nWrite' := nWrite a - 1 in
  (mkRW (nRead a) nWrite' false (fUpgraded a),
   Some (if negb (nWrite' =? 0) then NotifyWrite else NotifyRead)).

Definition UpgradeLock (a : CWalleveRWAccess) : option CWalleveRWAccess :=
  if fExclusive a then None
  else Some (mkRW (nRead a) (nWrite a) true (fUpgraded a)).

(** [fUpgraded = true], then one evaluation of the loop *)
Definition UpgradeToWriteLock_begin (a : CWalleveRWAccess) : CWalleveRWAccess :=
  mkRW (nRead a) (nWrite a) (fExclusive a) true.

Definition UpgradeToWriteLock (a : CWalleveRWAccess) : option CWalleveRWAccess :=
  if negb (nRead a =? 0) then None else Some a.

Definition UpgradeUnlock (a : CWalleveRWAccess) : CWalleveRWAccess * option notice :=
  let fNotifyWrite :=
    if fUpgraded a then negb (nWrite a =? 0)
    else negb (nWrite a =? 0) && (nRead a =? 0) in
  (mkRW (nRead a) (nWrite a) false false,
   Some (if fNotifyWrite then NotifyWrite else NotifyRead)).

(** ** The threads *)

(** Where a thread stands with the lock.  The boolean of a waiting phase is
    true while the thread sleeps on its condition variable, false once it has
    been woken and is about to evaluate the condition again. *)
Inductive phase : Type :=
  | Idle
  | WaitRead (asleep : bool)
  | Reading
  | WaitWrite (asleep : bool)
  | Writing
  | WaitUpgrade (asleep : bool)
  | Upgradable
  | WaitToWrite (asleep : bool)
  | Upgraded
  | Notifying (n : notice).

#[export] Instance notice_eq_dec : EqDecision notice.
Proof. solve_decision. Defined.

#[export] Instance phase_eq_dec : EqDecision phase.
Proof. solve_decision. Defined.

Definition after (n : option notice) : phase :=
  match n with Some n => Notifying n | None => Idle end.

(** [UpgradeLock] waits on [condRead] too. *)
Definition wake_read (p : phase) : phase :=
  match p with
  | WaitRead _ => WaitRead false
  | WaitUpgrade _ => WaitUpgrade false
  | p => p
  end.

Definition wake (p : phase) : phase :=
  match p with
  | WaitRead _ => WaitRead false
  | WaitWrite _ => WaitWrite false
  | WaitUpgrade _ => WaitUpgrade false
  | WaitToWrite _ => WaitToWrite false
  | p => p
  end.

Definition asleep (p : phase) : bool :=
  match p with
  | WaitRead b | WaitWrite b | WaitUpgrade b | WaitToWrite b => b
  | _ => false
  end.

Definition enter (r : option CWalleveRWAccess) (a : CWalleveRWAccess) (held wait : phase)
    : CWalleveRWAccess * phase :=
  match r with Some a' => (a', held) | None => (a, wait) end.

(** What one thread may do when it gets the mutex: the new lock state and the
    thread's next phase. *)
Inductive act : CWalleveRWAccess -> phase -> CWalleveRWAccess -> phase -> Prop :=
  | act_ReadLock a p a' p' :
      p = Idle \/ p = WaitRead false ->
      enter (ReadLock a) a Reading (WaitRead true) = (a', p') -> act a p a' p'
  | act_ReadTryLock a a' b :
      ReadTryLock a = (b, a') -> act a Idle a' (if b then Reading else Idle)
  | act_ReadUnlock a a' n :
      ReadUnlock a = (a', n) -> act a Reading a' (after n)
  | act_WriteLock a a' p' :
      enter (WriteLock (WriteLock_begin a)) (WriteLock_begin a) Writing (WaitWrite true) = (a', p') ->
      act a Idle a' p'
  | act_WriteLock_again a a' p' :
      enter (WriteLock a) a Writing (WaitWrite true) = (a', p') -> act a (WaitWrite false) a' p'
  | act_WriteUnlock a a' n :
      WriteUnlock a = (a', n) -> act a Writing a' (after n)
  | act_UpgradeLock a p a' p' :
      p = Idle \/ p = WaitUpgrade false ->
      enter (UpgradeLock a) a Upgradable (WaitUpgrade true) = (a', p') -> act a p a' p'
  | act_UpgradeToWriteLock a a' p' :
      enter (UpgradeToWriteLock (UpgradeToWriteLock_begin a)) (UpgradeToWriteLock_begin a)
        Upgraded (WaitToWrite true) = (a', p') ->
      act a Upgradable a' p'
  | act_UpgradeToWriteLock_again a a' p' :
      enter (UpgradeToWriteLock a) a Upgraded (WaitToWrite true) = (a', p') ->
      act a (WaitToWrite false) a' p'
  | act_UpgradeUnlock a p a' n :
      p = Upgradable \/ p = Upgraded ->
      UpgradeUnlock a = (a', n) -> act a p a' (after n)
  | act_spurious a p : asleep p = true -> act a p a (wake p).

(** The waiters of the condition variable of a notice *)
Definition waiter (n : notice) : phase :=
  match n with
  | NotifyRead => WaitRead true
  | NotifyWrite => WaitWrite true
  | NotifyUpgrade => WaitToWrite true
  end.

Inductive step : CWalleveRWAccess * list phase -> CWalleveRWAccess * list phase -> Prop :=
  | step_act a ts i p a' p' :
      ts !! i = Some p -> act a p a' p' -> step (a, ts) (a', <[i := p']> ts)
  | step_notify_all a ts i :
      ts !! i = Some (Notifying NotifyRead) ->
      step (a, ts) (a, map wake_read (<[i := Idle]> ts))
  | step_notify_one a ts i j n :
      n <> NotifyRead ->
      ts !! i = Some (Notifying n) -> ts !! j = Some (waiter n) ->
      step (a, ts) (a, <[j := wake (waiter n)]> (<[i := Idle]> ts))
  | step_notify_none a ts i n :
      n <> NotifyRead ->
      ts !! i = Some (Notifying n) -> (forall j, ts !! j <> Some (waiter n)) ->
      step (a, ts) (a, <[i := Idle]> ts).

(** [n] threads that have not used the lock yet *)
Definition start (n : nat) : CWalleveRWAccess * list phase := (init, replicate n Idle).

Definition reachable (n : nat) (s : CWalleveRWAccess * list phase) : Prop := rtc step (start n) s.

(** ** Specification *)

Definition holds (p : phase) : bool :=
  match p with Reading | Writing | Upgradable | WaitToWrite _ | Upgraded => true | _ => false end.

Definition exclusive (p : phase) : bool :=
  match p with Writing | Upgraded => true | _ => false end.

(** ** Counting the threads in a phase *)

Definition tag (p : phase) : Z :=
  match p with
  | Idle => 0
  | WaitRead b => 1 + Z.b2z b
  | Reading => 3
  | WaitWrite b => 4 + Z.b2z b
  | Writing => 6
  | WaitUpgrade b => 7 + Z.b2z b
  | Upgradable => 9
  | WaitToWrite b => 10 + Z.b2z b
  | Upgraded => 12
  | Notifying NotifyRead => 13
  | Notifying NotifyWrite => 14
  | Notifying NotifyUpgrade => 15
  end.

Definition ind (p q : phase) : Z := if tag p =? tag q then 1 else 0.

Fixpoint count (p : phase) (ts : list phase) : Z :=
  match ts with
  | [] => 0
  | q :: ts => ind p q + count p ts
  end.

Record lock_inv (s : CWalleveRWAccess * list phase) : Prop := {
  inv_read : nRead s.1 = count Reading s.2;
  inv_write : nWrite s.1 = count (WaitWrite true) s.2 + count (WaitWrite false) s.2 + count Writing s.2;
  inv_excl : Z.b2z (fExclusive s.1) =
    count Writing s.2 + count Upgradable s.2 + count (WaitToWrite true) s.2 +
    count (WaitToWrite false) s.2 + count Upgraded s.2;
  inv_upgr : Z.b2z (fUpgraded s.1) =
    count (WaitToWrite true) s.2 + count (WaitToWrite false) s.2 + count Upgraded s.2;
  inv_alone : 0 < count Writing s.2 + count Upgraded s.2 -> count Reading s.2 = 0;
  inv_wake_towrite : 0 < count (WaitToWrite true) s.2 ->
    0 < count Reading s.2 + count (Notifying NotifyUpgrade) s.2;
  inv_wake_write : 0 < count (WaitWrite true) s.2 ->
    0 < count Reading s.2 + Z.b2z (fExclusive s.1) + count (Notifying NotifyWrite) s.2 +
        count (WaitWrite false) s.2;
  inv_wake_read : 0 < count (WaitRead true) s.2 ->
    0 < nWrite s.1 + Z.b2z (fUpgraded s.1) + count (Notifying NotifyRead) s.2;
  inv_wake_upgrade : 0 < count (WaitUpgrade true) s.2 ->
    0 < nWrite s.1 + Z.b2z (fExclusive s.1) + count (Notifying NotifyRead) s.2;
}.

(** ** Lemmas *)

Lemma tag_inj p q : tag p = tag q -> p = q.
Proof.
  destruct p as [|[]| |[]| |[]| |[]| |[]], q as [|[]| |[]| |[]| |[]| |[]]; cbn; (done || lia).
Qed.

Lemma ind_nonneg p q : 0 <= ind p q.
Proof. unfold ind. case_match; lia. Qed.

Lemma ind_refl p : ind p p = 1.
Proof. unfold ind. by rewrite Z.eqb_refl. Qed.

Lemma count_nonneg p ts : 0 <= count p ts.
Proof. induction ts as [|q ts IH]; cbn; [lia|]. pose proof (ind_nonneg p q). lia. Qed.

Lemma count_lookup p ts i : ts !! i = Some p -> 1 <= count p ts.
Proof.
  revert i. induction ts as [|q ts IH]; intros [|i] E; simplify_eq/=.
  - pose proof (count_nonneg p ts). unfold ind. rewrite Z.eqb_refl. lia.
  - specialize (IH i E). unfold ind. case_match; lia.
Qed.

Lemma count_absent p ts : (forall j, ts !! j <> Some p) -> count p ts = 0.
Proof.
  induction ts as [|q ts IH]; intros H; cbn; [done|].
  rewrite IH by (intros j; apply (H (S j))). unfold ind.
  destruct (Z.eqb_spec (tag p) (tag q)) as [E|]; [|done].
  apply tag_inj in E as ->. by destruct (H 0%nat).
Qed.

Lemma count_insert p q r ts i :
  ts !! i = Some q -> count p (<[i := r]> ts) = count p ts - ind p q + ind p r.
Proof.
  revert i. induction ts as [|x ts IH]; intros [|i] E; simplify_eq/=; [lia|].
  rewrite (IH i E). lia.
Qed.

Lemma count_distinct p q ts i j :
  i <> j -> ts !! i = Some p -> ts !! j = Some q -> 1 + ind p q <= count p ts.
Proof.
  revert i j. induction ts as [|x ts IH]; intros [|i] [|j] Hij Hi Hj; simplify_eq/=; try done.
  - enough (ind p q <= count p ts) by (rewrite ind_refl; lia).
    unfold ind. pose proof (count_nonneg p ts).
    destruct (Z.eqb_spec (tag p) (tag q)) as [E|]; [|lia].
    apply tag_inj in E as <-. pose proof (count_lookup p ts j Hj). lia.
  - pose proof (count_lookup p ts i Hi). lia.
  - specialize (IH i j ltac:(congruence) Hi Hj). pose proof (ind_nonneg p x). lia.
Qed.

(** The indicators of concrete phases, evaluated *)
Ltac calc_ind :=
  repeat match goal with
  | |- context [ind ?p ?q] => let v := eval vm_compute in (ind p q) in change (ind p q) with v
  end.

Lemma count_map_wake_read p ts :
  count p (map wake_read ts) =
  match p with
  | WaitRead true | WaitUpgrade true => 0
  | WaitRead false => count (WaitRead true) ts + count (WaitRead false) ts
  | WaitUpgrade false => count (WaitUpgrade true) ts + count (WaitUpgrade false) ts
  | p => count p ts
  end.
Proof.
  induction ts as [|q ts IH]; cbn [map count].
  - by destruct p as [|[]| |[]| |[]| |[]| |[]].
  - rewrite IH. clear IH.
    destruct p as [|[]| |[]| |[]| |[]| |[]], q as [|[]| |[]| |[]| |[]| |[]];
      cbn [wake_read]; calc_ind; lia.
Qed.

(** All the counts of a goal after the thread [i] went from [p] to [q], with
    the facts that [lia] needs on the counts before. *)
Ltac count_phases ts :=
  repeat match goal with
  | |- context [count ?p ts] =>
      lazymatch goal with _ : 0 <= count p ts |- _ => fail | _ => pose proof (count_nonneg p ts) end
  | _ : context [count ?p ts] |- _ =>
      lazymatch goal with _ : 0 <= count p ts |- _ => fail | _ => pose proof (count_nonneg p ts) end
  end.

Lemma act_inv a ts i p a' p' :
  lock_inv (a, ts) -> ts !! i = Some p -> act a p a' p' -> lock_inv (a', <[i := p']> ts).
Proof.
  intros [I1 I2 I3 I4 I5 I6 I7 I8 I9] Hi Ha.
  pose proof (count_lookup p ts i Hi) as Hc. cbn [fst snd] in *.
  destruct a as [r w e u]. cbn [nRead nWrite fExclusive fUpgraded] in *.
  inversion Ha; clear Ha; subst;
    repeat match goal with H : _ \/ _ |- _ => destruct H; subst end.
  all: try match goal with E : (if ?b then _ else _) = _ |- _ => destruct b eqn:? end.
  all: unfold enter, ReadLock, ReadTryLock, ReadUnlock, WriteLock, WriteLock_begin, WriteUnlock, UpgradeLock,
    UpgradeToWriteLock, UpgradeToWriteLock_begin, UpgradeUnlock in *; cbn [nRead nWrite fExclusive fUpgraded] in *.
  all: repeat case_match; simplify_eq.
  all: try (destruct p as [|[]| |[]| |[]| |[]| |]; try discriminate); cbn [wake after] in *.
  all: split; cbn [fst snd nRead nWrite fExclusive fUpgraded];
    rewrite ?(count_insert _ _ _ ts i Hi); calc_ind; count_phases ts;
    repeat match goal with b : bool |- _ => destruct b end; cbn [Z.b2z negb orb andb] in *;
    bool_to_prop; try discriminate; lia.
Qed.

Lemma notify_all_inv a ts i :
  lock_inv (a, ts) -> ts !! i = Some (Notifying NotifyRead) ->
  lock_inv (a, map wake_read (<[i := Idle]> ts)).
Proof.
  intros [I1 I2 I3 I4 I5 I6 I7 I8 I9] Hi. cbn [fst snd] in *.
  split; cbn [fst snd]; rewrite !count_map_wake_read, ?(count_insert _ _ _ ts i Hi); calc_ind; lia.
Qed.

(** A notified waiter, or none: the waiters of [n] all sleep or none is left. *)
Lemma notify_one_inv a ts i j n :
  n <> NotifyRead -> lock_inv (a, ts) ->
  ts !! i = Some (Notifying n) -> ts !! j = Some (waiter n) ->
  lock_inv (a, <[j := wake (waiter n)]> (<[i := Idle]> ts)).
Proof.
  intros Hn [I1 I2 I3 I4 I5 I6 I7 I8 I9] Hi Hj. cbn [fst snd] in *.
  assert (i <> j) as Hij by (intros ->; rewrite Hi in Hj; by destruct n).
  assert (Hj' : <[i := Idle]> ts !! j = Some (waiter n)) by by rewrite list_lookup_insert_ne.
  pose proof (count_lookup _ _ _ Hj) as Hc.
  destruct n; [done| |]; cbn [waiter wake] in *.
  all: split; cbn [fst snd];
    rewrite !(count_insert _ _ _ _ j Hj'), !(count_insert _ _ _ ts i Hi); calc_ind;
    count_phases ts; destruct a as [? ? [] []]; cbn [fst snd fExclusive fUpgraded Z.b2z] in *; lia.
Qed.

Lemma notify_none_inv a ts i n :
  n <> NotifyRead -> lock_inv (a, ts) ->
  ts !! i = Some (Notifying n) -> (forall j, ts !! j <> Some (waiter n)) ->
  lock_inv (a, <[i := Idle]> ts).
Proof.
  intros Hn [I1 I2 I3 I4 I5 I6 I7 I8 I9] Hi Hj%count_absent. cbn [fst snd] in *.
  destruct n; [done| |]; cbn [waiter] in *.
  all: split; cbn [fst snd]; rewrite ?(count_insert _ _ _ ts i Hi); calc_ind; lia.
Qed.

Lemma step_inv s s' : lock_inv s -> step s s' -> lock_inv s'.
Proof.
  intros Hs Hstep. destruct Hstep.
  - by eapply act_inv.
  - by apply notify_all_inv.
  - by apply notify_one_inv.
  - by eapply notify_none_inv.
Qed.

Lemma count_replicate_Idle p n : p <> Idle -> count p (replicate n Idle) = 0.
Proof.
  intros Hp. apply count_absent. intros j [-> _]%lookup_replicate. done.
Qed.

Lemma reachable_inv n s : reachable n s -> lock_inv s.
Proof.
  revert s. apply (rtc_ind_r (R := step)); [|by eauto using step_inv].
  split; cbn; rewrite !count_replicate_Idle by done; done || lia.
Qed.

(** C10: mutual exclusion of [CWalleveRWAccess]: for any number of threads and
    any interleaving of their lock operations, wake-ups and notifications, while
    one thread is exclusive (a writer, or an upgraded holder) no other thread
    holds the lock in any mode, and there is never more than one upgradable
    holder, pending or granted. *)
Theorem mutual_exclusion (n : nat) (a : CWalleveRWAccess) (ts : list phase) (i j : nat) (p q : phase)
    (Hs : reachable n (a, ts)) (Hij : i <> j) (Hi : ts !! i = Some p) (Hj : ts !! j = Some q) :
  (exclusive p = true -> holds q = false) /\
  (holds p = true -> p <> Reading -> holds q = true -> q = Reading).
Proof.
  apply reachable_inv in Hs as [I1 I2 I3 I4 I5 I6 I7 I8 I9]. cbn [fst snd] in *.
  pose proof (count_distinct _ _ _ _ _ Hij Hi Hj) as H1.
  pose proof (count_lookup _ _ _ Hi) as H2. pose proof (count_lookup _ _ _ Hj) as H3.
  pose proof (count_nonneg Writing ts). pose proof (count_nonneg Upgradable ts).
  pose proof (count_nonneg (WaitToWrite true) ts). pose proof (count_nonneg (WaitToWrite false) ts).
  pose proof (count_nonneg Upgraded ts). pose proof (count_nonneg Reading ts).
  assert (Z.b2z (fExclusive a) <= 1) by (destruct (fExclusive a); cbn; lia).
  destruct p as [| | | | | | |[]| |], q as [| | | | | | |[]| |]; cbn [exclusive holds];
    split; intros; try done; exfalso; revert H1; calc_ind; lia.
Qed.

(** C39: no lost wake-up: in no reachable state is some thread asleep in a lock
    operation while every other thread is idle or asleep too.  So whenever
    nobody holds the lock and nobody is between a release and its notification,
    a waiting thread is awake and evaluates its condition again. *)
Theorem no_lost_wakeup (n : nat) (a : CWalleveRWAccess) (ts : list phase) (i : nat) (p : phase)
    (Hs : reachable n (a, ts)) (Hi : ts !! i = Some p) (Hp : asleep p = true) :
  exists (j : nat) (q : phase), ts !! j = Some q /\ q <> Idle /\ asleep q = false.
Proof.
  apply reachable_inv in Hs as [I1 I2 I3 I4 I5 I6 I7 I8 I9]. cbn [fst snd] in *.
  destruct (decide (Exists (fun q => q <> Idle /\ asleep q = false) ts)) as [He|He].
  { apply Exists_exists in He as (q & [j Hj]%list_elem_of_lookup & Hq). by exists j, q. }
  exfalso. rewrite <- Forall_Exists_neg in He. rewrite Forall_lookup in He.
  assert (Hz : forall q, q <> Idle -> asleep q = false -> count q ts = 0).
  { intros q H1 H2. apply count_absent. intros j Hj. by apply (He j q Hj). }
  rewrite !(Hz Reading), !(Hz Writing), !(Hz Upgradable), !(Hz Upgraded), !(Hz (WaitWrite false)),
    !(Hz (WaitToWrite false)), !(Hz (Notifying NotifyUpgrade)), !(Hz (Notifying NotifyWrite)),
    !(Hz (Notifying NotifyRead)) in * by done.
  pose proof (count_lookup _ _ _ Hi) as Hc. pose proof (count_nonneg (WaitToWrite true) ts).
  pose proof (count_nonneg (WaitWrite true) ts).
  destruct p as [|[]| |[]| |[]| |[]| |]; try done; destruct a as [? ? [] []];
    cbn [nRead nWrite fExclusive fUpgraded Z.b2z] in *; lia.
Qed.

(** Two threads: the first takes the lock in a mode, the second waits. *)
Lemma sample_writer_waits : reachable 2 (mkRW 0 1 true false, [Writing; WaitRead true]).
Proof.
  apply rtc_l with (mkRW 0 1 true false, [Writing; Idle]); [|apply rtc_once].
  - apply (step_act init [Idle; Idle] 0 Idle); [done|by apply act_WriteLock].
  - apply (step_act (mkRW 0 1 true false) [Writing; Idle] 1 Idle); [done|].
    apply act_ReadLock; [by left|done].
Defined.

Lemma mutual_exclusion_witness :
  (exclusive Writing = true -> holds (WaitRead true) = false) /\
  (holds Writing = true -> Writing <> Reading -> holds (WaitRead true) = true -> WaitRead true = Reading).
Proof.
  apply (mutual_exclusion 2 _ _ 0 1 _ _ sample_writer_waits); [lia|reflexivity|reflexivity].
Defined.

Lemma no_lost_wakeup_witness :
  exists (j : nat) (q : phase), [Writing; WaitRead true] !! j = Some q /\ q <> Idle /\ asleep q = false.
Proof.
  apply (no_lost_wakeup 2 _ _ 1 (WaitRead true) sample_writer_waits); reflexivity.
Defined.

End RWAccess.
