(* ===== verification/UInt256.v ===== *)
(** * Fixed-width integers (src/crypto/uint256.h)

    [base_uint<BITS>] is an array [pn] of [WIDTH = BITS/32] limbs of 32 bits,
    the least significant first.  It is modelled as the list of its limbs, and
    every operator as the loop over the limbs the source has.  [val] is the
    number an array stands for; the refinement theorems at the end show that
    the limb loops compute the arithmetic modulo [2^BITS], the order and the
    bit operations of that number, so that the other files of the development
    take a [uint256] for a [Z]. *)

From S2P Require Import Prelude.

Module base_uint.

(** ** Data *)

Notation limbs := (list Z).

Definition wf (WIDTH : nat) (pn : limbs) : Prop :=
  length pn = WIDTH /\ Forall (is_uint 32) pn.

Definition val (pn : limbs) : Z := le_combine 32 pn.

(** The same memory seen as bytes ([begin()] .. [end()]). *)
Definition bytes (pn : limbs) : list Z := flat_map (le_split 8 4) pn.

Fixpoint of_bytes (WIDTH : nat) (bs : list Z) : limbs :=
  match WIDTH with
  | O => []
  | S n => le_combine 8 (take 4 bs) :: of_bytes n (drop 4 bs)
  end.

(** An array stands for a number: the relation of the refinement theorems. *)
Definition repr (WIDTH : nat) (pn : limbs) (z : Z) : Prop := wf WIDTH pn /\ val pn = z.

(** ** Operators *)

Definition op_not (pn : limbs) : bool := forallb (fun x => x =? 0) pn.

Definition op_compl (pn : limbs) : limbs := map (fun x => u32 (Z.lnot x)) pn.

(** [while (++pn[i] == 0 && i < WIDTH-1) i++;] *)
Fixpoint op_incr (pn : limbs) : limbs :=
  match pn with
  | [] => []
  | x :: l => let x' := u32 (x + 1) in if x' =? 0 then x' :: op_incr l else x' :: l
  end.

(** [while (--pn[i] == -1 && i < WIDTH-1) i++;]: [-1] is converted to the
    unsigned type of [pn[i]]. *)
Fixpoint op_decr (pn : limbs) : limbs :=
  match pn with
  | [] => []
  | x :: l => let x' := u32 (x - 1) in if x' =? u32 (-1) then x' :: op_decr l else x' :: l
  end.

Definition op_neg (pn : limbs) : limbs := op_incr (op_compl pn).

Definition assign64 (WIDTH : nat) (b : Z) : limbs :=
  u32 b :: u32 (Z.shiftr b 32) :: replicate (WIDTH - 2) 0.

Definition xor_assign (a b : limbs) : limbs := zip_with Z.lxor a b.

Definition and_assign (a b : limbs) : limbs := zip_with Z.land a b.

Definition or_assign (a b : limbs) : limbs := zip_with Z.lor a b.

Definition xor_assign64 (a : limbs) (b : Z) : limbs :=
  alter (fun x => Z.lxor x (u32 (Z.shiftr b 32))) 1%nat (alter (fun x => Z.lxor x (u32 b)) 0%nat a).

Definition or_assign64 (a : limbs) (b : Z) : limbs :=
  alter (fun x => Z.lor x (u32 (Z.shiftr b 32))) 1%nat (alter (fun x => Z.lor x (u32 b)) 0%nat a).

(** One iteration of the loop of [operator<<=]; [a] is the copy of the
    operand, [k] and [s] the quotient and remainder of the shift by 32. *)
Definition shl_step (WIDTH : nat) (a : limbs) (k : nat) (s : Z) (pn : limbs) (i : nat) : limbs :=
  let pn1 :=
    if bool_decide (i + k + 1 < WIDTH)%nat && negb (s =? 0)
    then alter (fun x => Z.lor x (Z.shiftr (a !!! i) (32 - s))) (i + k + 1)%nat pn else pn in
  if bool_decide (i + k < WIDTH)%nat
  then alter (fun x => Z.lor x (u32 (Z.shiftl (a !!! i) s))) (i + k)%nat pn1 else pn1.

Definition shl_assign (WIDTH : nat) (a : limbs) (shift : Z) : limbs :=
  foldl (shl_step WIDTH a (Z.to_nat (shift / 32)) (shift mod 32)) (replicate WIDTH 0) (seq 0 WIDTH).

(** One iteration of the loop of [operator>>=]. *)
Definition shr_step (a : limbs) (k : nat) (s : Z) (pn : limbs) (i : nat) : limbs :=
  let pn1 :=
    if bool_decide (k + 1 <= i)%nat && negb (s =? 0)
    then alter (fun x => Z.lor x (u32 (Z.shiftl (a !!! i) (32 - s)))) (i - k - 1)%nat pn else pn in
  if bool_decide (k <= i)%nat
  then alter (fun x => Z.lor x (Z.shiftr (a !!! i) s)) (i - k)%nat pn1 else pn1.

Definition shr_assign (WIDTH : nat) (a : limbs) (shift : Z) : limbs :=
  foldl (shr_step a (Z.to_nat (shift / 32)) (shift mod 32)) (replicate WIDTH 0) (seq 0 WIDTH).

(** The carry loop of [operator+=]. *)
Fixpoint add_carry (carry : Z) (a b : limbs) : limbs :=
  match a, b with
  | x :: a, y :: b =>
      let n := u64 (carry + x + y) in
      Z.land n 0xffffffff :: add_carry (Z.shiftr n 32) a b
  | _, _ => a
  end.

Definition add_assign (a b : limbs) : limbs := add_carry 0 a b.

Definition sub_assign (a b : limbs) : limbs := add_assign a (op_neg b).

Definition add_assign64 (a : limbs) (b : Z) : limbs := add_assign a (assign64 (length a) b).

Definition sub_assign64 (a : limbs) (b : Z) : limbs :=
  add_assign a (op_neg (assign64 (length a) b)).

(** The comparison loops run from the most significant limb; [last] is what
    they return when every limb is equal. *)
Fixpoint cmp_loop (last : bool) (a b : limbs) : bool :=
  match a, b with
  | x :: a, y :: b => if x <? y then true else if y <? x then false else cmp_loop last a b
  | _, _ => last
  end.

Definition op_lt (a b : limbs) : bool := cmp_loop false (rev a) (rev b).

Definition op_le (a b : limbs) : bool := cmp_loop true (rev a) (rev b).

Definition op_gt (a b : limbs) : bool := cmp_loop false (rev b) (rev a).

Definition op_ge (a b : limbs) : bool := cmp_loop true (rev b) (rev a).

Fixpoint op_eq (a b : limbs) : bool :=
  match a, b with
  | x :: a, y :: b => if x =? y then op_eq a b else false
  | _, _ => true
  end.

Definition op_eq64 (a : limbs) (b : Z) : bool :=
  if negb (a !!! 0%nat =? u32 b) then false
  else if negb (a !!! 1%nat =? u32 (Z.shiftr b 32)) then false
  else forallb (fun x => x =? 0) (drop 2 a).

Definition op_ne (a b : limbs) : bool := negb (op_eq a b).

Definition Get64 (a : limbs) (n : nat) : Z :=
  Z.lor (a !!! (2 * n)%nat) (Z.shiftl (a !!! (2 * n + 1)%nat) 32).

Definition Get32 (a : limbs) (n : nat) : Z := a !!! n.

(** ** Hexadecimal text: characters are their codes *)

Definition hex_char (d : Z) : Z := if d <? 10 then 48 + d else 87 + d.

(** [sprintf("%02x")] of a byte *)
Definition hex_byte (b : Z) : list Z := [hex_char (b / 16); hex_char (b mod 16)].

Definition GetHex (pn : limbs) : list Z := flat_map hex_byte (rev (bytes pn)).

Definition isspace (c : Z) : bool := (c =? 32) || ((9 <=? c) && (c <=? 13)).

(** The table [phexdigit]. *)
Definition phexdigit (c : Z) : Z :=
  if (48 <=? c) && (c <=? 57) then c - 48
  else if (65 <=? c) && (c <=? 70) then c - 55
  else if (97 <=? c) && (c <=? 102) then c - 87
  else 0.

Fixpoint take_while (p : Z -> bool) (l : list Z) : list Z :=
  match l with
  | [] => []
  | c :: l => if p c then c :: take_while p l else []
  end.

Fixpoint drop_while (p : Z -> bool) (l : list Z) : list Z :=
  match l with
  | [] => []
  | c :: l => if p c then drop_while p l else c :: l
  end.

Definition skip0x (psz : list Z) : list Z :=
  match psz with
  | 48 :: 120 :: l => l
  | 48 :: 88 :: l => l
  | _ => psz
  end.

Definition is_hex (c : Z) : bool := negb (phexdigit c =? 0) || (c =? 48).

(** The loop that fills the bytes from the last digit to the first. *)
Fixpoint fill_hex (n : nat) (ds : list Z) : list Z :=
  match n, ds with
  | O, _ => []
  | S n, [] => replicate (S n) 0
  | S n, [d] => phexdigit d :: replicate n 0
  | S n, d :: d' :: ds => u8 (Z.lor (phexdigit d) (Z.shiftl (phexdigit d') 4)) :: fill_hex n ds
  end.

(** [SetHex] on the characters before the terminating NUL; it returns the new
    value and the number of characters read. *)
Definition SetHex (WIDTH : nat) (psz : list Z) : limbs * nat :=
  let pbegin := skip0x (drop_while isspace psz) in
  let digits := take_while is_hex pbegin in
  let len := (length psz - length pbegin + length digits)%nat in
  (of_bytes WIDTH (fill_hex (WIDTH * 4) (rev digits)), len).

(** ** Conversions between widths *)

(** [uint256(const uint32 h, const base_uint224& l)] *)
Definition uint256_of_224 (h : Z) (l : limbs) : limbs := take 7 l ++ [h].

(** [uint224(const uint256& b)] *)
Definition uint224_of_256 (b : limbs) : limbs := take 7 b.

(** [uint256(const uint64 b[4])] *)
Definition uint256_of_64x4 (b : list Z) : limbs :=
  flat_map (fun x => [u32 x; u32 (Z.shiftr x 32)]) (take 4 b).

(** [uint256(const std::vector<unsigned char>& vch)] *)
Definition of_vch (WIDTH : nat) (vch : list Z) : limbs :=
  if bool_decide (length vch = WIDTH * 4)%nat then of_bytes WIDTH vch else replicate WIDTH 0.

(** ** Arithmetic lemmas *)

Lemma mod_cons B C x y :
  0 < B -> 0 < C -> (x + B * y) mod (B * C) = x mod B + B * ((x / B + y) mod C).
Proof.
  intros. rewrite Z.rem_mul_r by lia.
  rewrite (Z.mul_comm B y), Z.mod_add, Z.div_add by lia. done.
Qed.

Lemma pow_limbs (x : Z) (l : limbs) :
  2 ^ (32 * Z.of_nat (length (x :: l))) = 2 ^ 32 * 2 ^ (32 * Z.of_nat (length l)).
Proof. simpl length. rewrite Nat2Z.inj_succ, Z.mul_succ_r, Z.add_comm, Z.pow_add_r by lia. done. Qed.

Lemma val_range W pn : wf W pn -> is_uint (32 * Z.of_nat W) (val pn).
Proof. intros [<- Hpn]. apply le_combine_range; done. Qed.

Lemma val_inj W a b : wf W a -> wf W b -> val a = val b -> a = b.
Proof. intros [Ha Fa] [Hb Fb]. apply le_combine_inj; [done|congruence|done|done]. Qed.

Lemma wf_cons x l W : wf W (x :: l) -> is_uint 32 x /\ wf (W - 1) l /\ W = S (W - 1).
Proof.
  intros [Hl Hf]. inversion Hf; subst. simpl. split; [done|]. rewrite Nat.sub_0_r. done.
Qed.

Lemma val_cons_mod x (h : Z) (l : limbs) z :
  (x + 2 ^ 32 * z) mod 2 ^ (32 * Z.of_nat (length (h :: l))) =
  x mod 2 ^ 32 + 2 ^ 32 * ((x / 2 ^ 32 + z) mod 2 ^ (32 * Z.of_nat (length l))).
Proof. rewrite pow_limbs. apply mod_cons; lia. Qed.

Lemma add_carry_val c a b :
  0 <= c <= 1 -> length a = length b -> Forall (is_uint 32) a -> Forall (is_uint 32) b ->
  val (add_carry c a b) = (c + val a + val b) mod 2 ^ (32 * Z.of_nat (length a)).
Proof.
  intros Hc Hlen Ha. revert c b Hc Hlen.
  induction Ha as [|x a Hx Ha IH]; intros c [|y b] Hc Hlen Hb; try done.
  - simpl. rewrite Z.mod_1_r. done.
  - inversion Hb; subst. unfold is_uint in *. unfold val in *. cbn [add_carry le_combine].
    assert (Hn : u64 (c + x + y) = c + x + y) by (apply wrap_small; unfold is_uint; lia).
    rewrite Hn. change 0xffffffff with (Z.ones 32). rewrite Z.land_ones, Z.shiftr_div_pow2 by lia.
    rewrite IH; [|split; [apply Z.div_pos|apply Z.lt_succ_r, Z.div_lt_upper_bound]; lia|by injection Hlen|done].
    replace (c + (x + 2 ^ 32 * le_combine 32 a) + (y + 2 ^ 32 * le_combine 32 b))
      with (c + x + y + 2 ^ 32 * (le_combine 32 a + le_combine 32 b)) by ring.
    rewrite val_cons_mod. rewrite Z.add_assoc. done.
Qed.

Lemma add_carry_wf W c a b :
  0 <= c -> wf W a -> length b = W -> Forall (is_uint 32) b -> wf W (add_carry c a b).
Proof.
  intros Hc [Hl Ha] Hb Fb. revert W c b Hc Hl Hb Fb.
  induction Ha as [|x a Hx Ha IH]; intros W c [|y b] Hc Hl Hb Fb; simpl in *; subst; try done.
  inversion Fb; subst.
  destruct (IH (length a) (Z.shiftr (u64 (c + x + y)) 32) b) as [IHl IHf];
    [apply Z.shiftr_nonneg, (wrap_range 64); lia|done|lia|done|].
  split; simpl; [by rewrite IHl|]. constructor; [|done].
  change 0xffffffff with (Z.ones 32). rewrite Z.land_ones by lia.
  apply Z.mod_pos_bound. lia.
Qed.

Lemma op_incr_val pn :
  Forall (is_uint 32) pn ->
  val (op_incr pn) = (val pn + 1) mod 2 ^ (32 * Z.of_nat (length pn)).
Proof.
  unfold val. induction 1 as [|x l Hx Hl IH]; [done|]. cbn [op_incr le_combine].
  replace (x + _ + 1) with (x + 1 + 2 ^ 32 * le_combine 32 l) by ring.
  pose proof (le_combine_range 32 l ltac:(lia) Hl) as Hr.
  rewrite val_cons_mod. unfold wrap. unfold is_uint in *.
  assert (x = 2 ^ 32 - 1 \/ x + 1 < 2 ^ 32) as [->|Hs] by lia.
  - change ((2 ^ 32 - 1 + 1) mod 2 ^ 32) with 0. change ((2 ^ 32 - 1 + 1) / 2 ^ 32) with 1.
    rewrite Z.eqb_refl. cbn [le_combine]. rewrite IH, (Z.add_comm 1). done.
  - rewrite (Z.mod_small (x + 1)), (Z.div_small (x + 1)), Z.add_0_l, (Z.mod_small (le_combine 32 l)) by lia.
    destruct (Z.eqb_spec (x + 1) 0); [lia|]. done.
Qed.

Lemma op_decr_val pn :
  Forall (is_uint 32) pn ->
  val (op_decr pn) = (val pn - 1) mod 2 ^ (32 * Z.of_nat (length pn)).
Proof.
  unfold val. induction 1 as [|x l Hx Hl IH]; [done|]. cbn [op_decr le_combine].
  replace (x + _ - 1) with (x - 1 + 2 ^ 32 * le_combine 32 l) by ring.
  pose proof (le_combine_range 32 l ltac:(lia) Hl) as Hr.
  rewrite val_cons_mod. unfold wrap. unfold is_uint in *.
  assert (x = 0 \/ 0 <= x - 1) as [->|Hs] by lia.
  - change ((0 - 1) mod 2 ^ 32) with (2 ^ 32 - 1). change ((-1) mod 2 ^ 32) with (2 ^ 32 - 1).
    change ((0 - 1) / 2 ^ 32) with (-1).
    rewrite Z.eqb_refl. cbn [le_combine]. rewrite IH, (Z.add_comm (-1)). done.
  - rewrite (Z.mod_small (x - 1)), (Z.div_small (x - 1)), Z.add_0_l, (Z.mod_small (le_combine 32 l)) by lia.
    change ((-1) mod 2 ^ 32) with (2 ^ 32 - 1).
    destruct (Z.eqb_spec (x - 1) (2 ^ 32 - 1)); [lia|]. done.
Qed.

Lemma op_incr_wf W pn : wf W pn -> wf W (op_incr pn).
Proof.
  intros [Hl Hf]. revert W Hl. induction Hf as [|x l Hx Hf IH]; intros W Hl; [done|].
  simpl in *. destruct (IH _ eq_refl). case_match; split; simpl; try lia;
  constructor; try done; apply (wrap_range 32); lia.
Qed.

Lemma op_decr_wf W pn : wf W pn -> wf W (op_decr pn).
Proof.
  intros [Hl Hf]. revert W Hl. induction Hf as [|x l Hx Hf IH]; intros W Hl; [done|].
  simpl in *. destruct (IH _ eq_refl). case_match; split; simpl; try lia;
  constructor; try done; apply (wrap_range 32); lia.
Qed.

Lemma op_compl_wf W pn : wf W pn -> wf W (op_compl pn).
Proof.
  intros [Hl _]. split; unfold op_compl; [by rewrite length_map|].
  apply Forall_map, Forall_true. intros. apply (wrap_range 32). lia.
Qed.

Lemma op_compl_val pn :
  Forall (is_uint 32) pn -> val (op_compl pn) = 2 ^ (32 * Z.of_nat (length pn)) - 1 - val pn.
Proof.
  unfold val. induction 1 as [|x l Hx Hl IH]; [done|].
  rewrite pow_limbs. cbn [op_compl map le_combine]. fold (op_compl l). rewrite IH.
  unfold is_uint in Hx. unfold wrap, Z.lnot.
  replace (Z.pred (- x)) with (2 ^ 32 - 1 - x + (-1) * 2 ^ 32) by lia.
  rewrite Z.mod_add, Z.mod_small by lia. lia.
Qed.

Lemma op_neg_wf W pn : wf W pn -> wf W (op_neg pn).
Proof. intros. by apply op_incr_wf, op_compl_wf. Qed.

Lemma op_neg_val W pn : wf W pn -> val (op_neg pn) = (- val pn) mod 2 ^ (32 * Z.of_nat W).
Proof.
  intros Hwf. destruct (op_compl_wf _ _ Hwf) as [Hl Hf]. destruct Hwf as [<- Hpn].
  unfold op_neg. rewrite op_incr_val by done. rewrite Hl, op_compl_val by done.
  rewrite <- (Z.mod_add (- val pn) 1) by lia. f_equal. lia.
Qed.

Lemma assign64_wf W b : (2 <= W)%nat -> wf W (assign64 W b).
Proof.
  intros. split; unfold assign64.
  - simpl. rewrite length_replicate. lia.
  - repeat constructor; try (apply (wrap_range 32); lia).
    apply Forall_replicate. split; lia.
Qed.

Lemma assign64_val W b : is_uint 64 b -> val (assign64 W b) = b.
Proof.
  intros Hb. unfold val, assign64. cbn [le_combine]. rewrite le_combine_replicate_0.
  unfold wrap. rewrite Z.shiftr_div_pow2 by lia. unfold is_uint in *.
  rewrite (Z.mod_small (b / _)); [|split; [apply Z.div_pos|apply Z.div_lt_upper_bound]; lia].
  pose proof (Z.div_mod b (2 ^ 32)). lia.
Qed.

(** ** Bit-level lemmas *)

(** A bitwise operation of two limb arrays is that operation of the numbers. *)
Section bitwise.
Context (f : Z -> Z -> Z) (g : bool -> bool -> bool).
Hypothesis f_spec : forall a b n, Z.testbit (f a b) n = g (Z.testbit a n) (Z.testbit b n).
Hypothesis g_false : g false false = false.

Lemma bitwise_is_uint w a b : 0 <= w -> is_uint w a -> is_uint w b -> is_uint w (f a b).
Proof.
  intros Hw Ha Hb. apply testbit_is_uint; [done|]. intros n Hn.
  rewrite f_spec, !(is_uint_testbit w); done.
Qed.

Lemma bitwise_wf W a b : wf W a -> wf W b -> wf W (zip_with f a b).
Proof.
  intros [Ha Fa] [Hb Fb]. split; [rewrite length_zip_with; lia|].
  clear Ha Hb. revert b Fb. induction Fa; intros [|y b] Fb; simpl; try constructor; inversion Fb; subst.
  - by apply bitwise_is_uint.
  - auto.
Qed.

Lemma bitwise_val a b :
  length a = length b -> Forall (is_uint 32) a -> Forall (is_uint 32) b ->
  val (zip_with f a b) = f (val a) (val b).
Proof.
  intros Hl Fa. revert b Hl. unfold val.
  induction Fa as [|x a Hx Fa IH]; intros [|y b] Hl Fb; try done.
  - simpl. symmetry. apply Z.bits_inj'. intros n _. rewrite f_spec, Z.bits_0. done.
  - inversion Fb; subst. cbn [zip_with le_combine]. rewrite IH; [|by injection Hl|done].
    apply Z.bits_inj'. intros n Hn. rewrite f_spec.
    rewrite !testbit_cons; try done; [|by apply bitwise_is_uint].
    destruct (n <? 32); by rewrite f_spec.
Qed.
End bitwise.

(** [pn[j] |= y] *)
Lemma alter_lor_wf W pn j y :
  is_uint 32 y -> wf W pn -> wf W (alter (fun x => Z.lor x y) j pn).
Proof.
  intros Hy [Hl Hf]. split; [by rewrite length_alter|].
  apply Forall_alter; [done|]. intros x _ Hx.
  apply (bitwise_is_uint Z.lor orb); try done. apply Z.lor_spec.
Qed.

Lemma alter_lor_val pn j y :
  is_uint 32 y -> Forall (is_uint 32) pn -> (j < length pn)%nat ->
  val (alter (fun x => Z.lor x y) j pn) = Z.lor (val pn) (Z.shiftl y (32 * Z.of_nat j)).
Proof.
  intros Hy Hf. unfold val. revert j. induction Hf as [|x l Hx Hf IH]; intros j Hj; simpl in *; [lia|].
  apply Z.bits_inj'. intros n Hn.
  destruct j as [|j]; cbn [alter list_alter le_combine].
  - rewrite Z.mul_0_r, Z.shiftl_0_r, Z.lor_spec, !testbit_cons, Z.lor_spec; try done;
      [|apply (bitwise_is_uint Z.lor orb); try done; apply Z.lor_spec].
    destruct (Z.ltb_spec n 32); [done|]. rewrite (is_uint_testbit 32 y), orb_false_r; done.
  - rewrite IH, Z.lor_spec, !testbit_cons, Z.shiftl_spec by (done || lia).
    rewrite Nat2Z.inj_succ. destruct (Z.ltb_spec n 32).
    + rewrite (Z.testbit_neg_r y), orb_false_r by lia. done.
    + rewrite Z.lor_spec, Z.shiftl_spec by lia. do 2 f_equal. lia.
Qed.

(** ** Shifts *)

Definition trunc (W : nat) (z : Z) : Z := z mod 2 ^ (32 * Z.of_nat W).

Lemma trunc_spec W z n :
  0 <= n -> Z.testbit (trunc W z) n = (n <? 32 * Z.of_nat W) && Z.testbit z n.
Proof.
  intros. unfold trunc. destruct (Z.ltb_spec n (32 * Z.of_nat W)).
  - by rewrite Z.mod_pow2_bits_low.
  - by rewrite Z.mod_pow2_bits_high by lia.
Qed.

Lemma trunc_lor W a b : trunc W (Z.lor a b) = Z.lor (trunc W a) (trunc W b).
Proof.
  apply Z.bits_inj'. intros n Hn. rewrite !Z.lor_spec, !trunc_spec, !Z.lor_spec by done.
  by rewrite andb_orb_distrib_r.
Qed.

Lemma lookup_total_uint a i : Forall (is_uint 32) a -> is_uint 32 (a !!! i).
Proof.
  intros Ha. rewrite list_lookup_total_alt. destruct (a !! i) eqn:E; simpl.
  - by apply (Forall_lookup_1 _ _ _ _ Ha E).
  - split; simpl; lia.
Qed.

Lemma val_take_S a n :
  Forall (is_uint 32) a -> (n < length a)%nat ->
  val (take (S n) a) = Z.lor (val (take n a)) (Z.shiftl (a !!! n) (32 * Z.of_nat n)).
Proof.
  intros Ha Hn. destruct (lookup_lt_is_Some_2 a n Hn) as [x Hx].
  rewrite (take_S_r _ _ _ Hx), (list_lookup_total_correct _ _ _ Hx). unfold val.
  rewrite le_combine_app, length_take_le by lia. cbn [le_combine]. rewrite Z.mul_0_r, Z.add_0_r.
  pose proof (le_combine_range 32 (take n a) ltac:(lia) ltac:(by apply Forall_take)) as Hr.
  rewrite length_take_le in Hr by lia.
  symmetry. apply lor_shiftl; [lia|done].
Qed.

Lemma shiftr_is_uint x m : is_uint 32 x -> 0 <= m -> is_uint 32 (Z.shiftr x m).
Proof.
  intros Hx Hm. apply testbit_is_uint; [lia|]. intros n Hn.
  rewrite Z.shiftr_spec by lia. apply (is_uint_testbit 32); [lia|done|lia].
Qed.

Lemma shl_step_wf W a k s pn i :
  Forall (is_uint 32) a -> 0 <= s < 32 -> wf W pn -> wf W (shl_step W a k s pn i).
Proof.
  intros Ha Hs Hpn. unfold shl_step.
  assert (is_uint 32 (Z.shiftr (a !!! i) (32 - s)))
    by (apply shiftr_is_uint; [by apply lookup_total_uint|lia]).
  assert (is_uint 32 (u32 (Z.shiftl (a !!! i) s))) by (apply wrap_range; lia).
  repeat case_match; auto using alter_lor_wf.
Qed.

Lemma shr_step_wf W a k s pn i :
  Forall (is_uint 32) a -> 0 <= s < 32 -> wf W pn -> wf W (shr_step a k s pn i).
Proof.
  intros Ha Hs Hpn. unfold shr_step.
  assert (is_uint 32 (Z.shiftr (a !!! i) s))
    by (apply shiftr_is_uint; [by apply lookup_total_uint|lia]).
  assert (is_uint 32 (u32 (Z.shiftl (a !!! i) (32 - s)))) by (apply wrap_range; lia).
  repeat case_match; auto using alter_lor_wf.
Qed.

(** [if (j < WIDTH) pn[j] |= y;] *)
Lemma guarded_lor_val W pn j y :
  is_uint 32 y -> wf W pn ->
  val (if bool_decide (j < W)%nat then alter (fun x => Z.lor x y) j pn else pn) =
  Z.lor (val pn) (trunc W (Z.shiftl y (32 * Z.of_nat j))).
Proof.
  intros Hy [Hl Hf]. case_bool_decide.
  - rewrite alter_lor_val by (done || lia). f_equal. symmetry. apply Z.mod_small.
    rewrite Z.shiftl_mul_pow2 by lia. unfold is_uint in Hy.
    split; [lia|]. apply Z.lt_le_trans with (2 ^ 32 * 2 ^ (32 * Z.of_nat j)); [nia|].
    rewrite <- Z.pow_add_r by lia. apply Z.pow_le_mono_r; lia.
  - replace (trunc W _) with 0; [by rewrite Z.lor_0_r|].
    symmetry. apply Z.bits_inj'. intros n Hn. rewrite trunc_spec, Z.bits_0, Z.shiftl_spec by done.
    destruct (Z.ltb_spec n (32 * Z.of_nat W)); [|done]. simpl. apply Z.testbit_neg_r. lia.
Qed.

Lemma guarded_lor_wf (b : bool) W pn j y :
  is_uint 32 y -> wf W pn -> wf W (if b then alter (fun x => Z.lor x y) j pn else pn).
Proof. intros. destruct b; auto using alter_lor_wf. Qed.

Lemma split_shl x s :
  is_uint 32 x -> 0 <= s < 32 ->
  Z.lor (Z.shiftl (Z.shiftr x (32 - s)) 32) (u32 (Z.shiftl x s)) = Z.shiftl x s.
Proof.
  intros Hx Hs. apply Z.bits_inj'. intros n Hn. unfold wrap. rewrite Z.lor_spec, !Z.shiftl_spec by lia.
  destruct (Z.lt_ge_cases n 32).
  - rewrite Z.testbit_neg_r, Z.mod_pow2_bits_low, Z.shiftl_spec by lia. done.
  - rewrite Z.mod_pow2_bits_high, Z.shiftr_spec, orb_false_r by lia. f_equal. lia.
Qed.

(** A step of [<<=] adds the bits of [a[i]] at their new place, except those
    that fall off the array. *)
Lemma shl_step_val W a k s pn i :
  Forall (is_uint 32) a -> 0 <= s < 32 -> wf W pn ->
  val (shl_step W a k s pn i) =
  Z.lor (val pn) (trunc W (Z.shiftl (Z.shiftl (a !!! i) (32 * Z.of_nat i)) (32 * Z.of_nat k + s))).
Proof.
  intros Ha Hs Hpn. pose proof (lookup_total_uint a i Ha) as Hx. unfold shl_step.
  set (x := a !!! i) in *.
  assert (Hhi : is_uint 32 (Z.shiftr x (32 - s))) by (apply shiftr_is_uint; [done|lia]).
  assert (Hlo : is_uint 32 (u32 (Z.shiftl x s))) by (apply wrap_range; lia).
  cbv zeta. rewrite guarded_lor_val by (done || by apply guarded_lor_wf).
  assert (Hv1 : val (if bool_decide (i + k + 1 < W)%nat && negb (s =? 0)
      then alter (fun y => Z.lor y (Z.shiftr x (32 - s))) (i + k + 1)%nat pn else pn) =
    Z.lor (val pn) (trunc W (Z.shiftl (Z.shiftr x (32 - s)) (32 * Z.of_nat (i + k + 1))))).
  { destruct (Z.eqb_spec s 0) as [->|]; simpl.
    - rewrite andb_false_r, (Z.shiftr_div_pow2 x), (Z.div_small x), Z.shiftl_0_l by (done || lia).
      unfold trunc. rewrite Z.mod_0_l, Z.lor_0_r by lia. done.
    - rewrite andb_true_r. by apply guarded_lor_val. }
  rewrite Hv1, <- Z.lor_assoc, <- trunc_lor. do 2 f_equal.
  replace (32 * Z.of_nat (i + k + 1)) with (32 + 32 * Z.of_nat (i + k)) by lia.
  rewrite <- Z.shiftl_shiftl, <- Z.shiftl_lor, split_shl by (done || lia).
  rewrite !Z.shiftl_shiftl by lia. f_equal. lia.
Qed.

Lemma shr_step_val W a k s pn i :
  Forall (is_uint 32) a -> 0 <= s < 32 -> wf W pn -> (i < W)%nat ->
  val (shr_step a k s pn i) =
  Z.lor (val pn) (Z.shiftr (Z.shiftl (a !!! i) (32 * Z.of_nat i)) (32 * Z.of_nat k + s)).
Proof.
  intros Ha Hs [Hl Hf] Hi. pose proof (lookup_total_uint a i Ha) as Hx. unfold shr_step.
  set (x := a !!! i) in *.
  assert (Hhi : is_uint 32 (Z.shiftr x s)) by (apply shiftr_is_uint; [done|lia]).
  assert (Hlo : is_uint 32 (u32 (Z.shiftl x (32 - s)))) by (apply wrap_range; lia).
  cbv zeta. case_bool_decide.
  - rewrite alter_lor_val;
      [|done|by case_match; [apply (alter_lor_wf W)|]|case_match; rewrite ?length_alter; lia].
    destruct (bool_decide (k + 1 <= i)%nat && negb (s =? 0)) eqn:E; bool_to_prop.
    + rewrite alter_lor_val, <- Z.lor_assoc by (done || lia). f_equal.
      replace (32 * Z.of_nat (i - k)) with (32 + 32 * Z.of_nat (i - k - 1)) by lia.
      rewrite <- Z.shiftl_shiftl, <- Z.shiftl_lor, Z.lor_comm by lia.
      replace s with (32 - (32 - s)) at 1 by lia. rewrite split_shl, Z.shiftl_shiftl by (done || lia).
      rewrite Z.shiftr_shiftl_l by lia. f_equal. lia.
    + f_equal. apply andb_false_iff in E as [E|E]; bool_to_prop.
      * replace i with k by lia. rewrite Nat.sub_diag, Z.shiftl_0_r, <- Z.shiftr_shiftr by lia.
        rewrite Z.shiftr_shiftl_l, Z.sub_diag, Z.shiftl_0_r by lia. done.
      * subst s. rewrite Z.shiftr_0_r, Z.shiftr_shiftl_l by lia. f_equal. lia.
  - rewrite bool_decide_eq_false_2 by lia. simpl.
    replace (Z.shiftr _ _) with 0; [by rewrite Z.lor_0_r|]. symmetry.
    apply Z.bits_inj'. intros n Hn. rewrite Z.bits_0, Z.shiftr_spec, Z.shiftl_spec by lia.
    apply (is_uint_testbit 32); [lia|done|lia].
Qed.

Lemma shift_quot_rem shift :
  0 <= shift -> 32 * Z.of_nat (Z.to_nat (shift / 32)) + shift mod 32 = shift.
Proof.
  intros. rewrite Z2Nat.id by (apply Z.div_pos; lia). symmetry. apply Z.div_mod. lia.
Qed.

Lemma replicate_0_wf W : wf W (replicate W 0).
Proof. split; [apply length_replicate|]. apply Forall_replicate. split; lia. Qed.

(** The state of the two shift loops after [n] iterations. *)
Lemma shl_loop W a shift n :
  wf W a -> 0 <= shift -> (n <= W)%nat ->
  let pn := foldl (shl_step W a (Z.to_nat (shift / 32)) (shift mod 32)) (replicate W 0) (seq 0 n) in
  wf W pn /\ val pn = trunc W (Z.shiftl (val (take n a)) shift).
Proof.
  intros [Hl Hf] Hs. pose proof (Z.mod_pos_bound shift 32). induction n as [|n IH]; intros Hn.
  - simpl. split; [apply replicate_0_wf|]. unfold val. rewrite le_combine_replicate_0, Z.shiftl_0_l.
    unfold trunc. by rewrite Z.mod_0_l by lia.
  - rewrite seq_S, foldl_app. simpl in *. destruct IH as [IHw IHv]; [lia|].
    split; [apply shl_step_wf; (done || lia)|].
    rewrite (shl_step_val W) by (done || lia).
    rewrite IHv, val_take_S, Z.shiftl_lor, trunc_lor, shift_quot_rem by (done || lia). done.
Qed.

Lemma shr_loop W a shift n :
  wf W a -> 0 <= shift -> (n <= W)%nat ->
  let pn := foldl (shr_step a (Z.to_nat (shift / 32)) (shift mod 32)) (replicate W 0) (seq 0 n) in
  wf W pn /\ val pn = Z.shiftr (val (take n a)) shift.
Proof.
  intros [Hl Hf] Hs. pose proof (Z.mod_pos_bound shift 32). induction n as [|n IH]; intros Hn.
  - simpl. split; [apply replicate_0_wf|]. unfold val. by rewrite le_combine_replicate_0, Z.shiftr_0_l.
  - rewrite seq_S, foldl_app. simpl in *. destruct IH as [IHw IHv]; [lia|].
    split; [apply shr_step_wf; (done || lia)|].
    rewrite (shr_step_val W) by (done || lia).
    rewrite IHv, val_take_S, Z.shiftr_lor, shift_quot_rem by (done || lia). done.
Qed.

(** ** Order *)

Lemma val_snoc (a : limbs) x : val (a ++ [x]) = val a + 2 ^ (32 * Z.of_nat (length a)) * x.
Proof. unfold val. rewrite le_combine_app by lia. cbn [le_combine]. ring. Qed.

Lemma cmp_loop_val l a b :
  length a = length b -> Forall (is_uint 32) a -> Forall (is_uint 32) b ->
  cmp_loop l (rev a) (rev b) =
  if val a <? val b then true else if val b <? val a then false else l.
Proof.
  revert b. induction a as [|x a IH] using rev_ind; intros b Hl Ha Hb.
  - destruct b; done.
  - destruct b as [|y b _] using rev_ind; rewrite !length_app in Hl; simpl in Hl; [lia|].
    apply Forall_app in Ha as [Ha Hx], Hb as [Hb Hy].
    apply Forall_singleton in Hx, Hy. assert (Hl' : length a = length b) by lia.
    rewrite !rev_unit, !val_snoc. simpl. rewrite (IH b), Hl' by done.
    pose proof (le_combine_range 32 a ltac:(lia) Ha) as Ra.
    pose proof (le_combine_range 32 b ltac:(lia) Hb) as Rb.
    rewrite Hl' in Ra. unfold val, is_uint in *.
    set (B := 2 ^ (32 * Z.of_nat (length b))) in *.
    destruct (Z.ltb_spec x y); [destruct (Z.ltb_spec (le_combine 32 a + B * x) (le_combine 32 b + B * y)); [done|nia]|].
    destruct (Z.ltb_spec y x).
    + destruct (Z.ltb_spec (le_combine 32 a + B * x) (le_combine 32 b + B * y)); [nia|].
      destruct (Z.ltb_spec (le_combine 32 b + B * y) (le_combine 32 a + B * x)); [done|nia].
    + assert (x = y) as -> by lia.
      destruct (Z.ltb_spec (le_combine 32 a) (le_combine 32 b)),
        (Z.ltb_spec (le_combine 32 a + B * y) (le_combine 32 b + B * y)); try lia;
      destruct (Z.ltb_spec (le_combine 32 b) (le_combine 32 a)),
        (Z.ltb_spec (le_combine 32 b + B * y) (le_combine 32 a + B * y)); (done || lia).
Qed.

Lemma op_eq_spec a b : length a = length b -> op_eq a b = bool_decide (a = b).
Proof.
  revert b. induction a as [|x a IH]; intros [|y b] Hl; simpl in *; try done.
  rewrite IH by lia. destruct (Z.eqb_spec x y); repeat case_bool_decide; congruence.
Qed.

(** ** Bytes and hexadecimal text *)

Lemma length_bytes pn : length (bytes pn) = (length pn * 4)%nat.
Proof.
  unfold bytes. induction pn as [|x pn IH]; [done|]. cbn [flat_map].
  rewrite length_app, IH, length_le_split. simpl. lia.
Qed.

Lemma bytes_range pn : Forall (is_uint 8) (bytes pn).
Proof.
  unfold bytes. induction pn as [|x l IH]; [constructor|]. cbn [flat_map].
  apply Forall_app. split; [apply le_split_range; lia|done].
Qed.

Lemma of_bytes_bytes pn : Forall (is_uint 32) pn -> of_bytes (length pn) (bytes pn) = pn.
Proof.
  unfold bytes. induction 1 as [|x l Hx Hl IH]; [done|]. cbn [length of_bytes flat_map].
  rewrite take_app_length', drop_app_length' by (by rewrite length_le_split).
  rewrite le_combine_split, IH by lia. f_equal. by apply Z.mod_small.
Qed.

Lemma of_bytes_wf W bs : length bs = (W * 4)%nat -> Forall (is_uint 8) bs -> wf W (of_bytes W bs).
Proof.
  revert bs. induction W as [|W IH]; intros bs Hl Hf; [done|].
  destruct (IH (drop 4 bs)) as [IHl IHf]; [rewrite length_drop; lia|by apply Forall_drop|].
  split; simpl; [by rewrite IHl|]. constructor; [|done].
  pose proof (le_combine_range 8 (take 4 bs) ltac:(lia) ltac:(by apply Forall_take)) as Hr.
  by rewrite length_take_le in Hr by lia.
Qed.

Lemma bytes_of_bytes W bs :
  length bs = (W * 4)%nat -> Forall (is_uint 8) bs -> bytes (of_bytes W bs) = bs.
Proof.
  unfold bytes. revert bs. induction W as [|W IH]; intros bs Hl Hf; cbn [of_bytes flat_map].
  - by destruct bs.
  - rewrite IH; [|rewrite length_drop; lia|by apply Forall_drop].
    rewrite <- (take_drop 4 bs) at 3. f_equal.
    rewrite <- (le_split_combine 8 (take 4 bs)) at 2 by (lia || by apply Forall_take).
    rewrite length_take_le by lia. done.
Qed.

Lemma hex_char_spec d :
  0 <= d < 16 ->
  phexdigit (hex_char d) = d /\ is_hex (hex_char d) = true /\
  isspace (hex_char d) = false /\ hex_char d <> 120 /\ hex_char d <> 88.
Proof.
  intros Hd. assert (Hall : forallb (fun d => (phexdigit (hex_char d) =? d) && is_hex (hex_char d)
    && negb (isspace (hex_char d)) && negb (hex_char d =? 120) && negb (hex_char d =? 88)) (seqZ 0 16) = true)
    by (vm_compute; reflexivity).
  rewrite forallb_forall in Hall. specialize (Hall d).
  rewrite <- list_elem_of_In, elem_of_seqZ in Hall. specialize (Hall Hd). bool_to_prop. done.
Qed.

Definition hex_text (l : list Z) : Prop := Forall (fun c => exists d, 0 <= d < 16 /\ c = hex_char d) l.

Lemma hex_text_bytes bs : Forall (is_uint 8) bs -> hex_text (flat_map hex_byte bs).
Proof.
  unfold is_uint. induction 1 as [|b l Hb Hl IH]; simpl; [constructor|].
  constructor; [|constructor; [|done]]; eexists; (split; [|reflexivity]).
  - split; [apply Z.div_pos; lia|apply Z.div_lt_upper_bound; lia].
  - apply Z.mod_pos_bound. lia.
Qed.

Lemma take_while_hex l : hex_text l -> take_while is_hex l = l.
Proof.
  induction 1 as [|c l (d & Hd & ->) Hl IH]; [done|]. simpl.
  destruct (hex_char_spec d Hd) as (_ & -> & _). by rewrite IH.
Qed.

Lemma hex_text_no_prefix l : hex_text l -> skip0x (drop_while isspace l) = l.
Proof.
  intros H. destruct H as [|c l (d & Hd & ->) Hl]; [done|]. cbn [drop_while].
  destruct (hex_char_spec d Hd) as (_ & _ & -> & _).
  destruct Hl as [|c l (d' & Hd' & ->) Hl]; unfold skip0x.
  - by repeat case_match.
  - destruct (hex_char_spec d' Hd') as (_ & _ & _ & H1 & H2). by repeat case_match.
Qed.

Lemma fill_hex_bytes bs :
  Forall (is_uint 8) bs -> fill_hex (length bs) (rev (flat_map hex_byte (rev bs))) = bs.
Proof.
  induction 1 as [|b l Hb Hl IH]; [done|].
  cbn [rev]. rewrite flat_map_app, rev_app_distr.
  cbn [flat_map hex_byte rev app fill_hex length]. rewrite IH. f_equal. unfold is_uint in Hb.
  assert (H1 : 0 <= b / 16 < 16) by (split; [apply Z.div_pos; lia|apply Z.div_lt_upper_bound; lia]).
  assert (H2 : 0 <= b mod 16 < 16) by (apply Z.mod_pos_bound; lia).
  destruct (hex_char_spec _ H1) as (-> & _). destruct (hex_char_spec _ H2) as (-> & _).
  rewrite lor_shiftl by (unfold is_uint; lia).
  change (2 ^ 4) with 16. pose proof (Z.div_mod b 16). rewrite wrap_small; unfold is_uint; lia.
Qed.

(** ** Refinement of the arithmetic of [Z] *)

Definition bits (WIDTH : nat) : Z := 32 * Z.of_nat WIDTH.

Lemma add_repr W a b x y :
  repr W a x -> repr W b y -> repr W (add_assign a b) (wrap (bits W) (x + y)).
Proof.
  intros [[Hl Ha] <-] [[Hl' Hb] <-]. split; [by apply add_carry_wf|].
  unfold add_assign. rewrite add_carry_val by (done || lia). by rewrite Hl.
Qed.

Lemma neg_repr W a x : repr W a x -> repr W (op_neg a) (wrap (bits W) (- x)).
Proof. intros [Ha <-]. split; [by apply op_neg_wf|by apply op_neg_val]. Qed.

Lemma assign64_repr W c : (2 <= W)%nat -> is_uint 64 c -> repr W (assign64 W c) c.
Proof. intros. split; [by apply assign64_wf|by apply assign64_val]. Qed.

(** C40: the limb loops of [+=], [-=], their [uint64] versions, [++], [--],
    unary [-] and [~] compute addition, subtraction, negation and complement
    modulo 2^BITS of the number the array stands for, for every width of at
    least two limbs, and leave an array of WIDTH 32-bit limbs. *)
Theorem arith_refines (W : nat) (a b : list Z) (x y c : Z) :
  (2 <= W)%nat -> repr W a x -> repr W b y -> is_uint 64 c ->
  repr W (add_assign a b) (wrap (bits W) (x + y)) /\
  repr W (sub_assign a b) (wrap (bits W) (x - y)) /\
  repr W (add_assign64 a c) (wrap (bits W) (x + c)) /\
  repr W (sub_assign64 a c) (wrap (bits W) (x - c)) /\
  repr W (op_incr a) (wrap (bits W) (x + 1)) /\
  repr W (op_decr a) (wrap (bits W) (x - 1)) /\
  repr W (op_neg a) (wrap (bits W) (- x)) /\
  repr W (op_compl a) (2 ^ bits W - 1 - x).
Proof.
  intros HW Ha Hb Hc. pose proof Ha as [[Hl Hf] Hv].
  assert (Hsub : forall b y, repr W b y -> repr W (add_assign a (op_neg b)) (wrap (bits W) (x - y))).
  { intros b' y' Hb'. replace (x - y') with (x + - y') by lia. rewrite <- wrap_add_r.
    by apply add_repr, neg_repr. }
  unfold sub_assign, add_assign64, sub_assign64. rewrite Hl.
  refine (conj _ (conj _ (conj _ (conj _ (conj _ (conj _ (conj _ _))))))); auto using add_repr, neg_repr.
  - apply add_repr; [done|]. by apply assign64_repr.
  - apply Hsub. by apply assign64_repr.
  - split; [by apply op_incr_wf|]. rewrite op_incr_val by done. by rewrite Hv, Hl.
  - split; [by apply op_decr_wf|]. rewrite op_decr_val by done. by rewrite Hv, Hl.
  - split; [by apply op_compl_wf|]. rewrite op_compl_val by done. by rewrite Hv, Hl.
Qed.

Lemma arith_refines_witness :
  repr 2 (sub_assign [0; 1] [1; 0]) 0xffffffff.
Proof.
  destruct (arith_refines 2 [0; 1] [1; 0] (2 ^ 32) 1 7) as (_ & H & _); [lia| | | |exact H];
    repeat split; repeat constructor; lia.
Defined.

(** [<<=] and [>>=] by any number of bits compute the shifts of the
    number, the left one truncated to BITS: no bit is lost at a limb boundary
    and a shift by BITS or more gives zero. *)
Theorem shift_refines (W : nat) (a : list Z) (x shift : Z) :
  repr W a x -> 0 <= shift ->
  repr W (shl_assign W a shift) (wrap (bits W) (Z.shiftl x shift)) /\
  repr W (shr_assign W a shift) (Z.shiftr x shift).
Proof.
  intros [Ha <-] Hs.
  destruct (shl_loop W a shift W Ha Hs (Nat.le_refl _)) as [Hw Hv].
  destruct (shr_loop W a shift W Ha Hs (Nat.le_refl _)) as [Hw' Hv'].
  destruct Ha as [Hl Hf]. rewrite take_ge in Hv, Hv' by lia. done.
Qed.

Lemma shift_refines_witness :
  repr 3 (shl_assign 3 [0xc0000001; 5; 0x80000000] 33) (wrap 96 (Z.shiftl (0xc0000001 + 2 ^ 32 * (5 + 2 ^ 32 * 0x80000000)) 33)).
Proof.
  apply (shift_refines 3 [0xc0000001; 5; 0x80000000] (0xc0000001 + 2 ^ 32 * (5 + 2 ^ 32 * 0x80000000)) 33); [|lia].
  repeat split; repeat constructor; lia.
Defined.

(** the comparison operators, which scan the limbs from the most
    significant one, decide the order of the numbers, and [==] decides their
    equality. *)
Theorem order_refines (W : nat) (a b : list Z) (x y : Z) :
  repr W a x -> repr W b y ->
  op_lt a b = (x <? y) /\ op_le a b = (x <=? y) /\
  op_gt a b = (y <? x) /\ op_ge a b = (y <=? x) /\
  op_eq a b = (x =? y) /\ op_ne a b = negb (x =? y).
Proof.
  intros [[Hl Ha] Hx] [[Hl' Hb] Hy]. unfold op_lt, op_le, op_gt, op_ge, op_ne.
  rewrite op_eq_spec, !cmp_loop_val, Hx, Hy by (done || lia).
  assert (bool_decide (a = b) = (x =? y)) as ->.
  { case_bool_decide as E; [rewrite <- Hx, <- Hy, E; by rewrite Z.eqb_refl|].
    symmetry. apply Z.eqb_neq. intros Heq. apply E, (val_inj W); unfold wf; (done || congruence). }
  destruct (Z.ltb_spec x y), (Z.ltb_spec y x), (Z.leb_spec x y), (Z.leb_spec y x); (lia || done).
Qed.

Lemma order_refines_witness : op_lt [5; 1] [4; 2] = true.
Proof.
  destruct (order_refines 2 [5; 1] [4; 2] (5 + 2 ^ 32) (4 + 2 * 2 ^ 32)) as [H _];
    [repeat split; repeat constructor; lia..|exact H].
Defined.

(** bitwise [^=], [&=] and [|=] on the limbs are the bitwise operations
    on the numbers. *)
Theorem bitwise_refines (W : nat) (a b : list Z) (x y : Z) :
  repr W a x -> repr W b y ->
  repr W (xor_assign a b) (Z.lxor x y) /\
  repr W (and_assign a b) (Z.land x y) /\
  repr W (or_assign a b) (Z.lor x y).
Proof.
  intros [Ha <-] [Hb <-]. pose proof Ha as [Hl Fa]. pose proof Hb as [Hl' Fb].
  assert (length a = length b) by lia.
  split_and!; split;
    first [eapply bitwise_wf; eauto using Z.lxor_spec, Z.land_spec, Z.lor_spec
          |eapply bitwise_val; eauto using Z.lxor_spec, Z.land_spec, Z.lor_spec].
Qed.

Lemma bitwise_refines_witness : repr 2 (xor_assign [5; 1] [4; 2]) (1 + 3 * 2 ^ 32).
Proof.
  apply (bitwise_refines 2 [5; 1] [4; 2] (5 + 2 ^ 32) (4 + 2 * 2 ^ 32));
    repeat split; repeat constructor; lia.
Defined.

(** reading back the text [GetHex] prints gives the same number, and
    [SetHex] reports that it read all its 8*WIDTH characters. *)
Theorem SetHex_GetHex (W : nat) (pn : list Z) :
  wf W pn -> SetHex W (GetHex pn) = (pn, (8 * W)%nat).
Proof.
  intros [Hl Hf]. pose proof (bytes_range pn) as Hb. pose proof (length_bytes pn) as Hlb.
  assert (Ht : hex_text (GetHex pn)) by (apply hex_text_bytes, Forall_rev, Hb).
  unfold SetHex. rewrite hex_text_no_prefix, take_while_hex by done. unfold GetHex. rewrite <- Hl, <- Hlb.
  rewrite fill_hex_bytes, of_bytes_bytes by done. f_equal.
  rewrite Nat.sub_diag, (flat_map_constant_length (c := 2%nat)), length_rev, Hlb by done. lia.
Qed.

Lemma SetHex_GetHex_witness : SetHex 2 (GetHex [0xdeadbeef; 0x12]) = ([0xdeadbeef; 0x12], 16%nat).
Proof. apply (SetHex_GetHex 2). repeat split; repeat constructor; lia. Defined.

(** [uint256(h, l)] puts the 32-bit [h] above the 224-bit [l]; [uint224]
    of the result gives [l] back, so a transaction id carries its time stamp
    in the top limb and the truncated hash below it. *)
Theorem uint256_of_224_repr (h x : Z) (l : list Z) :
  is_uint 32 h -> repr 7 l x ->
  repr 8 (uint256_of_224 h l) (x + 2 ^ 224 * h) /\
  uint224_of_256 (uint256_of_224 h l) = l /\ Get32 (uint256_of_224 h l) 7 = h.
Proof.
  intros Hh [[Hl Hf] Hv]. unfold uint256_of_224, uint224_of_256, Get32. rewrite take_ge by lia. repeat split.
  - rewrite length_app, Hl. done.
  - apply Forall_app. auto.
  - rewrite val_snoc, Hv, Hl. done.
  - by apply take_app_length'.
  - rewrite lookup_total_app_r, Hl by lia. done.
Qed.

Lemma uint256_of_224_repr_witness :
  Get32 (uint256_of_224 9 [1; 2; 3; 4; 5; 6; 7]) 7 = 9.
Proof.
  apply (uint256_of_224_repr 9 (val [1; 2; 3; 4; 5; 6; 7]) [1; 2; 3; 4; 5; 6; 7]).
  - split; lia.
  - repeat split; repeat constructor; lia.
Defined.

End base_uint.
