(* ===== verification/Stream.v ===== *)
(** * Serialization (src/walleve/walleve/stream/stream.h, stream.cpp, datastream.h)

    [CWalleveStream] saves an object, loads it and computes its serialized
    size with one template method [Serialize] that is specialised by type.  A
    specialisation is a [codec]: the bytes saved, the loader and the size.  The
    combinators follow the specialisations of the source (fundamental types,
    [CVarInt], [std::string], vectors, pairs, maps), and an object's
    [WalleveSerialize], which serializes its fields one after the other, is a
    product of the codecs of its fields.  [CodecOk] is the contract every codec
    of the development satisfies: what was saved loads back, whatever follows
    it in the stream, and the computed size is the number of bytes saved.

    A loader returns [None] when a read goes past the end of the stream (the
    fail bit of the iostream); the value the object has then is not modelled.

    [CWalleveODataStream] / [CWalleveIDataStream] are the raw streams of the
    template data: sizes are 8-byte integers and a read past the end throws. *)

From S2P Require Import Prelude.

(** ** Codecs *)

Record codec (A : Type) : Type := Codec {
  save : A -> list Z;
  load : list Z -> option (A * list Z);
  ser_size : A -> Z;
  valid : A -> Prop;
}.
Arguments Codec {A}.
Arguments save {A}.
Arguments load {A}.
Arguments ser_size {A}.
Arguments valid {A}.

Class CodecOk {A : Type} (c : codec A) : Prop := {
  load_save : forall a rest, valid c a -> load c (save c a ++ rest) = Some (a, rest);
  size_save : forall a, valid c a -> ser_size c a = Z.of_nat (length (save c a));
  save_bytes : forall a, valid c a -> Forall (is_uint 8) (save c a);
}.

Module CWalleveStream.

(** [ios.read(s,n)] *)
Definition Read (n : nat) (s : list Z) : option (list Z * list Z) :=
  if (length s <? n)%nat then None else Some (take n s, drop n s).

(** [Serialize] of a fundamental type of [n] bytes: its memory. *)
Definition uint_codec (n : nat) : codec Z := {|
  save z := le_split 8 n z;
  load s := '(bs, s) ← Read n s; Some (le_combine 8 bs, s);
  ser_size _ := Z.of_nat n;
  valid z := is_uint (8 * Z.of_nat n) z;
|}.

(** A signed fundamental type: the two's complement memory. *)
Definition sint_codec (n : nat) : codec Z := {|
  save z := le_split 8 n z;
  load s := '(bs, s) ← Read n s; Some (swrap (8 * Z.of_nat n) (le_combine 8 bs), s);
  ser_size _ := Z.of_nat n;
  valid z := - 2 ^ (8 * Z.of_nat n - 1) <= z < 2 ^ (8 * Z.of_nat n - 1);
|}.

(** [CBinary]: a memory block of known length. *)
Definition CBinary_codec (nLength : nat) : codec (list Z) := {|
  save b := b;
  load s := Read nLength s;
  ser_size _ := Z.of_nat nLength;
  valid b := length b = nLength /\ Forall (is_uint 8) b;
|}.

(** *** CVarInt *)

Definition CVarInt_save (nValue : Z) : list Z :=
  if nValue <? 0xFD then le_split 8 1 nValue
  else if nValue <=? 0xFFFF then le_split 8 (1 + 2) (u64 (Z.lor (Z.shiftl nValue 8) 0xFD))
  else if nValue <=? 0xFFFFFFFF then le_split 8 (1 + 4) (u64 (Z.lor (Z.shiftl nValue 8) 0xFE))
  else le_split 8 1 0xFF ++ le_split 8 8 nValue.

Definition CVarInt_load (s : list Z) : option (Z * list Z) :=
  '(bs, s) ← Read 1 s;
  let nValue := le_combine 8 bs in
  if 0xFD <=? nValue then
    '(bs, s) ← Read (Z.to_nat (Z.shiftl 2 (nValue - 0xFD))) s;
    Some (le_combine 8 bs, s)
  else Some (nValue, s).

Definition CVarInt_size (nValue : Z) : Z :=
  if nValue <? 0xFD then 1
  else if nValue <=? 0xFFFF then 1 + 2
  else if nValue <=? 0xFFFFFFFF then 1 + 4
  else 1 + 8.

Definition CVarInt : codec Z := {|
  save := CVarInt_save;
  load := CVarInt_load;
  ser_size := CVarInt_size;
  valid z := is_uint 64 z;
|}.

(** *** Strings and vectors *)

(** [std::string], and a vector of bytes: one block after the size. *)
Definition string_codec : codec (list Z) := {|
  save t := save CVarInt (Z.of_nat (length t)) ++ t;
  load s := '(n, s) ← load CVarInt s; Read (Z.to_nat n) s;
  ser_size t := ser_size CVarInt (Z.of_nat (length t)) + Z.of_nat (length t);
  valid t := is_uint 64 (Z.of_nat (length t)) /\ Forall (is_uint 8) t;
|}.

Fixpoint load_n {A} (c : codec A) (n : nat) (s : list Z) : option (list A * list Z) :=
  match n with
  | O => Some ([], s)
  | S n => '(a, s) ← load c s; '(l, s) ← load_n c n s; Some (a :: l, s)
  end.

Definition vector_codec {A} (c : codec A) : codec (list A) := {|
  save t := save CVarInt (Z.of_nat (length t)) ++ flat_map (save c) t;
  load s := '(n, s) ← load CVarInt s; load_n c (Z.to_nat n) s;
  ser_size t := ser_size CVarInt (Z.of_nat (length t)) + foldr (fun a n => ser_size c a + n) 0 t;
  valid t := is_uint 64 (Z.of_nat (length t)) /\ Forall (valid c) t;
|}.

(** [std::pair], and the fields of an object serialized in sequence *)
Definition pair_codec {A B} (ca : codec A) (cb : codec B) : codec (A * B) := {|
  save t := save ca t.1 ++ save cb t.2;
  load s := '(a, s) ← load ca s; '(b, s) ← load cb s; Some ((a, b), s);
  ser_size t := ser_size ca t.1 + ser_size cb t.2;
  valid t := valid ca t.1 /\ valid cb t.2;
|}.

(** An object is the tuple of its serialized fields. *)
Definition object_codec {A B} (fields : A -> B) (object : B -> A) (c : codec B) : codec A := {|
  save a := save c (fields a);
  load s := '(b, s) ← load c s; Some (object b, s);
  ser_size a := ser_size c (fields a);
  valid a := valid c (fields a) /\ object (fields a) = a;
|}.

(** [std::multimap] is the sequence of its entries in key order. *)
Definition multimap_codec {K V} (ck : codec K) (cv : codec V) : codec (list (K * V)) :=
  vector_codec (pair_codec ck cv).

(** [std::map]: the entries are saved in key order, [t.insert(item)] on load
    keeps the first entry of a key. *)
Section map.
Context {K V : Type} `{Countable K} (lt : relation K) `{!RelDecision lt}.

Definition key_le : relation (K * V) := fun a b => lt a.1 b.1 \/ a.1 = b.1.

#[export] Instance key_le_dec : RelDecision key_le.
Proof. intros a b. unfold key_le. apply _. Defined.

Definition map_entries (m : gmap K V) : list (K * V) := merge_sort key_le (map_to_list m).

Definition map_insert_new (m : gmap K V) (kv : K * V) : gmap K V :=
  match m !! kv.1 with Some _ => m | None => <[kv.1 := kv.2]> m end.

Definition map_codec (ck : codec K) (cv : codec V) : codec (gmap K V) := {|
  save m := save (vector_codec (pair_codec ck cv)) (map_entries m);
  load s := '(l, s) ← load (vector_codec (pair_codec ck cv)) s; Some (foldl map_insert_new ∅ l, s);
  ser_size m := ser_size (vector_codec (pair_codec ck cv)) (map_entries m);
  valid m := valid (vector_codec (pair_codec ck cv)) (map_entries m);
|}.
End map.

End CWalleveStream.

Notation "c1 ** c2" := (CWalleveStream.pair_codec c1 c2) (at level 40, left associativity).

(** ** Contracts *)

Module CWalleveStreamOk.
Import CWalleveStream.

Lemma Read_app n l rest : length l = n -> Read n (l ++ rest) = Some (l, rest).
Proof.
  intros <-. unfold Read. rewrite length_app.
  rewrite (proj2 (Nat.ltb_ge _ _)) by lia. by rewrite take_app_length, drop_app_length.
Qed.

#[export] Instance uint_codec_ok n : CodecOk (uint_codec n).
Proof.
  split; simpl.
  - intros z rest Hz. rewrite Read_app by apply length_le_split. simpl.
    rewrite le_combine_split, Z.mod_small by (done || lia). done.
  - intros. by rewrite length_le_split.
  - intros. apply le_split_range. lia.
Qed.

Lemma swrap_mod w z : 0 < w -> - 2 ^ (w - 1) <= z < 2 ^ (w - 1) -> swrap w (z mod 2 ^ w) = z.
Proof.
  intros. rewrite <- (swrap_small w z) at 2 by done. unfold swrap. by rewrite Zplus_mod_idemp_l.
Qed.

#[export] Instance sint_codec_ok n : CodecOk (sint_codec (S n)).
Proof.
  split; cbn [save load ser_size valid sint_codec].
  - intros z rest Hz. rewrite Read_app by apply length_le_split. cbn [mbind option_bind].
    rewrite le_combine_split, swrap_mod by (done || lia). done.
  - intros. by rewrite length_le_split.
  - intros. apply le_split_range. lia.
Qed.

#[export] Instance CBinary_codec_ok n : CodecOk (CBinary_codec n).
Proof.
  split; simpl.
  - intros b rest [Hl _]. by apply Read_app.
  - intros b [Hl _]. by rewrite Hl.
  - by intros b [_ Hb].
Qed.

(** The first byte of the 3- and 5-byte forms is the marker, the others the
    value. *)
Lemma varint_marker n v m :
  0 <= m < 256 -> 0 <= v -> (S n <= 8)%nat -> is_uint (8 * Z.of_nat n) v ->
  le_split 8 (S n) (u64 (Z.lor (Z.shiftl v 8) m)) = m :: le_split 8 n v.
Proof.
  intros Hm Hv Hn Hr. cbn [le_split].
  assert (E : Z.lor (Z.shiftl v 8) m = m + 2 ^ 8 * v).
  { rewrite Z.lor_comm. by apply lor_shiftl. }
  rewrite E. rewrite wrap_small.
  - rewrite Z.mul_comm, Z.mod_add, Z.div_add by lia.
    rewrite Z.mod_small, Z.div_small, Z.add_0_l by lia. done.
  - unfold is_uint in *. assert (2 ^ (8 * Z.of_nat n) <= 2 ^ 56) by (apply Z.pow_le_mono_r; lia). lia.
Qed.

Lemma CVarInt_bytes (v : Z) :
  is_uint 64 v ->
  CVarInt_save v =
    if v <? 0xFD then [v]
    else if v <=? 0xFFFF then 0xFD :: le_split 8 2 v
    else if v <=? 0xFFFFFFFF then 0xFE :: le_split 8 4 v
    else 0xFF :: le_split 8 8 v.
Proof.
  intros Hv. unfold CVarInt_save, is_uint in *.
  destruct (Z.ltb_spec v 0xFD); [cbn [le_split]; rewrite Z.mod_small by lia; done|].
  destruct (Z.leb_spec v 0xFFFF); [by rewrite (varint_marker 2) by (unfold is_uint; lia)|].
  destruct (Z.leb_spec v 0xFFFFFFFF); [by rewrite (varint_marker 4) by (unfold is_uint; lia)|].
  done.
Qed.

#[export] Instance CVarInt_ok : CodecOk CVarInt.
Proof.
  split; simpl; unfold CVarInt_size.
  - intros v rest Hv. rewrite CVarInt_bytes by done. unfold CVarInt_load, is_uint in *.
    assert (Hlong : forall m n, (n <= 8)%nat -> 0xFD <= m < 256 -> Z.shiftl 2 (m - 0xFD) = Z.of_nat n ->
      v < 2 ^ (8 * Z.of_nat n) ->
      CVarInt_load ((m :: le_split 8 n v) ++ rest) = Some (v, rest)).
    { intros m n Hn Hm Es Hr. unfold CVarInt_load.
      change ((m :: le_split 8 n v) ++ rest) with ([m] ++ (le_split 8 n v ++ rest)).
      rewrite (Read_app 1 [m]) by done. simpl. rewrite Z.add_0_r.
      rewrite (proj2 (Z.leb_le _ _)) by lia. rewrite Es, Nat2Z.id, Read_app by apply length_le_split.
      simpl. by rewrite le_combine_split, Z.mod_small by lia. }
    destruct (Z.ltb_spec v 0xFD).
    { rewrite (Read_app 1 [v]) by done. simpl. rewrite Z.add_0_r, (proj2 (Z.leb_gt _ _)) by lia. done. }
    destruct (Z.leb_spec v 0xFFFF); [by apply (Hlong _ 2%nat); (done || lia)|].
    destruct (Z.leb_spec v 0xFFFFFFFF); [by apply (Hlong _ 4%nat); (done || lia)|].
    apply (Hlong _ 8%nat); (done || lia).
  - intros v Hv. rewrite CVarInt_bytes by done. repeat case_match; done.
  - intros v Hv. rewrite CVarInt_bytes by done. unfold is_uint in *. repeat case_match; bool_to_prop;
      repeat constructor; try (lia || (unfold is_uint; lia)); apply Z.mod_pos_bound; lia.
Qed.

#[export] Instance string_codec_ok : CodecOk string_codec.
Proof.
  split; cbn [save load ser_size valid string_codec].
  - intros t rest [Hl _]. rewrite <- app_assoc, load_save by done. cbn [mbind option_bind].
    rewrite Nat2Z.id. by apply Read_app.
  - intros t [Hl _]. rewrite length_app, Nat2Z.inj_add, size_save by done. done.
  - intros t [Hl Ht]. apply Forall_app. split; [by apply save_bytes|done].
Qed.

Lemma load_n_save {A} (c : codec A) `{!CodecOk c} l rest :
  Forall (valid c) l -> load_n c (length l) (flat_map (save c) l ++ rest) = Some (l, rest).
Proof.
  induction 1 as [|a l Ha Hl IH]; [done|]. cbn [length load_n flat_map].
  rewrite <- app_assoc, load_save by done. cbn [mbind option_bind]. by rewrite IH.
Qed.

#[export] Instance vector_codec_ok {A} (c : codec A) `{!CodecOk c} : CodecOk (vector_codec c).
Proof.
  split; cbn [save load ser_size valid vector_codec].
  - intros t rest [Hl Ht]. rewrite <- app_assoc, load_save by done. cbn [mbind option_bind].
    rewrite Nat2Z.id. by apply load_n_save.
  - intros t [Hl Ht]. rewrite length_app, Nat2Z.inj_add, size_save by done. f_equal. clear Hl.
    induction Ht as [|a l Ha Ht IH]; [done|]. cbn [foldr flat_map].
    rewrite length_app, Nat2Z.inj_add, IH, size_save by done. done.
  - intros t [Hl Ht]. apply Forall_app. split; [by apply save_bytes|]. clear Hl.
    induction Ht; simpl; [constructor|]. apply Forall_app. split; [by apply save_bytes|done].
Qed.

#[export] Instance pair_codec_ok {A B} (ca : codec A) (cb : codec B) `{!CodecOk ca, !CodecOk cb} :
  CodecOk (pair_codec ca cb).
Proof.
  split; cbn [save load ser_size valid pair_codec].
  - intros [a b] rest [Ha Hb]. simpl in *. rewrite <- app_assoc, load_save by done.
    cbn [mbind option_bind]. by rewrite load_save by done.
  - intros [a b] [Ha Hb]. simpl in *. rewrite length_app, Nat2Z.inj_add, !size_save by done. done.
  - intros [a b] [Ha Hb]. apply Forall_app. split; by apply save_bytes.
Qed.

#[export] Instance object_codec_ok {A B} (f : A -> B) g (c : codec B) `{!CodecOk c} :
  CodecOk (object_codec f g c).
Proof.
  split; cbn [save load ser_size valid object_codec].
  - intros a rest [Ha E]. rewrite load_save by done. cbn [mbind option_bind]. by rewrite E.
  - intros a [Ha _]. by apply size_save.
  - intros a [Ha _]. by apply save_bytes.
Qed.

Section map.
Context {K V : Type} `{Countable K} (lt : relation K) `{!RelDecision lt}.

Lemma map_insert_new_all (l : list (K * V)) (m : gmap K V) :
  NoDup l.*1 -> (forall k, k ∈ l.*1 -> m !! k = None) ->
  foldl map_insert_new m l = list_to_map l ∪ m.
Proof.
  revert m. induction l as [|[k v] l IH]; intros m Hnd Hm; simpl.
  - by rewrite (left_id_L ∅ (∪)).
  - inversion Hnd as [|? ? Hk Hnd']; subst. unfold map_insert_new at 2. simpl.
    rewrite Hm by (simpl; left). rewrite IH; [|done|].
    + rewrite <- insert_union_r; [by rewrite insert_union_l|]. by apply not_elem_of_list_to_map_1.
    + intros k' Hk'. rewrite lookup_insert_ne by (intros ->; done). apply Hm. by right.
Qed.

Lemma map_entries_load (m : gmap K V) : foldl map_insert_new ∅ (map_entries lt m) = m.
Proof.
  pose proof (merge_sort_Permutation (key_le lt) (map_to_list m)) as Hp.
  rewrite map_insert_new_all; unfold map_entries.
  - rewrite (right_id_L ∅ (∪)).
    rewrite <- (list_to_map_to_list m) at 2. symmetry.
    apply list_to_map_proper; [apply NoDup_fst_map_to_list|by symmetry].
  - rewrite Hp. apply NoDup_fst_map_to_list.
  - intros. apply lookup_empty.
Qed.

Lemma map_entries_Permutation (m : gmap K V) : map_entries lt m ≡ₚ map_to_list m.
Proof. apply merge_sort_Permutation. Qed.

Lemma elem_of_map_entries (m : gmap K V) k v : (k, v) ∈ map_entries lt m <-> m !! k = Some v.
Proof. rewrite map_entries_Permutation. apply elem_of_map_to_list. Qed.

Lemma NoDup_map_entries (m : gmap K V) : NoDup (map_entries lt m).*1.
Proof. rewrite map_entries_Permutation. apply NoDup_fst_map_to_list. Qed.

#[export] Instance map_codec_ok (ck : codec K) (cv : codec V) `{!CodecOk ck, !CodecOk cv} :
  CodecOk (map_codec lt ck cv).
Proof.
  split; unfold map_codec; cbn [save load ser_size valid].
  - intros m rest Hm. rewrite (load_save (c := vector_codec _)) by done. cbn [mbind option_bind].
    by rewrite map_entries_load.
  - intros m Hm. by apply size_save.
  - intros m Hm. by apply save_bytes.
Qed.
End map.

(** The entries of a map with integer keys come in increasing key order. *)
Lemma map_entries_sorted {V} (m : gmap Z V) :
  StronglySorted (fun a b => a.1 < b.1) (map_entries Z.lt m).
Proof.
  assert (Hs : StronglySorted (key_le Z.lt (V := V)) (map_entries Z.lt m)).
  { apply Sorted_StronglySorted; [intros a b c; unfold key_le; lia|].
    apply Sorted_merge_sort. intros a b. unfold key_le. lia. }
  pose proof (NoDup_map_entries Z.lt m) as Hnd.
  induction Hs as [|a l Hs IH Ha]; constructor.
  - apply IH. by inversion Hnd.
  - rewrite Forall_forall in Ha |- *. intros b Hb. destruct (Ha b Hb) as [|E]; [done|].
    inversion Hnd as [|? ? Hn _]; subst. exfalso. apply Hn. rewrite E. by apply list_elem_of_fmap_2.
Qed.

Lemma pair_valid {A B} (ca : codec A) (cb : codec B) a b :
  valid ca a -> valid cb b -> valid (pair_codec ca cb) (a, b).
Proof. by split. Qed.

End CWalleveStreamOk.

Export CWalleveStreamOk.

(** ** Raw data streams *)

Inductive exn : Type := range_error | runtime_error | bad_get | out_of_range.

(** What a reader of [CWalleveIDataStream] does: it returns, it throws, or it
    reads outside the vector, which the language leaves undefined. *)
Inductive outcome (A : Type) : Type :=
  | Return (a : A)
  | Throw (e : exn)
  | Undefined.
Arguments Return {A}.
Arguments Throw {A}.
Arguments Undefined {A}.

#[export] Instance outcome_bind : MBind outcome := fun A B f o =>
  match o with Return a => f a | Throw e => Throw e | Undefined => Undefined end.

#[export] Instance outcome_ret : MRet outcome := fun A a => Return a.

Module DataStream.

(** A pair of [operator<<] and [operator>>]; the reader sees the bytes after
    [nPosition]. *)
Record dcodec (A : Type) : Type := DCodec {
  put : A -> list Z;
  get : list Z -> outcome (A * list Z);
  dvalid : A -> Prop;
}.
Arguments DCodec {A}.
Arguments put {A}.
Arguments get {A}.
Arguments dvalid {A}.

Definition Pop (n : nat) (s : list Z) : outcome (list Z * list Z) :=
  if (length s <? n)%nat then Throw range_error else Return (take n s, drop n s).

Definition d_uint (n : nat) : dcodec Z := {|
  put z := le_split 8 n z;
  get s := '(bs, s) ← Pop n s; Return (le_combine 8 bs, s);
  dvalid z := is_uint (8 * Z.of_nat n) z;
|}.

(** [Push(pn,sizeof(pn))] / [Pop(pn,sizeof(pn))] of a [base_uint] *)
Definition d_block (n : nat) : dcodec (list Z) := {|
  put b := b;
  get s := Pop n s;
  dvalid b := length b = n /\ Forall (is_uint 8) b;
|}.

Definition d_pair {A B} (ca : dcodec A) (cb : dcodec B) : dcodec (A * B) := {|
  put t := put ca t.1 ++ put cb t.2;
  get s := '(a, s) ← get ca s; '(b, s) ← get cb s; Return ((a, b), s);
  dvalid t := dvalid ca t.1 /\ dvalid cb t.2;
|}.

(** A vector of bytes: [data.assign] copies [size] elements from
    [&vch[nPosition]] without a bounds check. *)
Definition d_bytes : dcodec (list Z) := {|
  put t := put (d_uint 8) (Z.of_nat (length t)) ++ t;
  get s :=
    '(size, s) ← get (d_uint 8) s;
    if Z.of_nat (length s) <? size then Undefined
    else Return (take (Z.to_nat size) s, drop (Z.to_nat size) s);
  dvalid t := is_uint 64 (Z.of_nat (length t)) /\ Forall (is_uint 8) t;
|}.

Fixpoint get_n {A} (c : dcodec A) (n : nat) (s : list Z) : outcome (list A * list Z) :=
  match n with
  | O => Return ([], s)
  | S n => '(a, s) ← get c s; '(l, s) ← get_n c n s; Return (a :: l, s)
  end.

Definition d_vector {A} (c : dcodec A) : dcodec (list A) := {|
  put t := put (d_uint 8) (Z.of_nat (length t)) ++ flat_map (put c) t;
  get s := '(size, s) ← get (d_uint 8) s; get_n c (Z.to_nat size) s;
  dvalid t := is_uint 64 (Z.of_nat (length t)) /\ Forall (dvalid c) t;
|}.

Section map.
Context {K V : Type} `{Countable K} (lt : relation K) `{!RelDecision lt}.

(** The loop of [operator>>] on a map: a repeated key throws. *)
Fixpoint get_entries (ck : dcodec K) (cv : dcodec V) (n : nat) (data : gmap K V) (s : list Z)
    : outcome (gmap K V * list Z) :=
  match n with
  | O => Return (data, s)
  | S n =>
      '(k, s) ← get ck s; '(v, s) ← get cv s;
      match data !! k with
      | Some _ => Throw runtime_error
      | None => get_entries ck cv n (<[k := v]> data) s
      end
  end.

(** [w] is the width in bytes of the [size_type] of the map: eight for the
    standard allocator. *)
Definition d_map (w : nat) (ck : dcodec K) (cv : dcodec V) : dcodec (gmap K V) := {|
  put m := put (d_uint w) (Z.of_nat (size m)) ++
           flat_map (put (d_pair ck cv)) (CWalleveStream.map_entries lt m);
  get s := '(n, s) ← get (d_uint w) s; get_entries ck cv (Z.to_nat n) ∅ s;
  dvalid m := is_uint (8 * Z.of_nat w) (Z.of_nat (size m)) /\ map_Forall (fun k v => dvalid ck k /\ dvalid cv v) m;
|}.
End map.

Class DCodecOk {A} (c : dcodec A) : Prop := {
  get_put : forall a rest, dvalid c a -> get c (put c a ++ rest) = Return (a, rest);
}.

Lemma Pop_app n l rest : length l = n -> Pop n (l ++ rest) = Return (l, rest).
Proof.
  intros <-. unfold Pop. rewrite length_app.
  rewrite (proj2 (Nat.ltb_ge _ _)) by lia. by rewrite take_app_length, drop_app_length.
Qed.

#[export] Instance d_uint_ok n : DCodecOk (d_uint n).
Proof.
  split. cbn [put get dvalid d_uint]. intros z rest Hz. rewrite Pop_app by apply length_le_split. simpl.
  by rewrite le_combine_split, Z.mod_small by (done || lia).
Qed.

#[export] Instance d_block_ok n : DCodecOk (d_block n).
Proof. split. simpl. intros b rest [Hl _]. by apply Pop_app. Qed.

#[export] Instance d_pair_ok {A B} (ca : dcodec A) (cb : dcodec B) `{!DCodecOk ca, !DCodecOk cb} :
  DCodecOk (d_pair ca cb).
Proof.
  split. cbn [put get dvalid d_pair]. intros [a b] rest [Ha Hb]. simpl in *.
  rewrite <- app_assoc, get_put by done. cbn [mbind outcome_bind]. by rewrite get_put by done.
Qed.

#[export] Instance d_bytes_ok : DCodecOk d_bytes.
Proof.
  split. unfold d_bytes. cbn [put get dvalid]. intros t rest [Hl _].
  rewrite <- app_assoc, (get_put (c := d_uint 8)) by done. cbn [mbind outcome_bind].
  rewrite length_app, (proj2 (Z.ltb_ge _ _)), Nat2Z.id by lia.
  by rewrite take_app_length, drop_app_length.
Qed.

#[export] Instance d_vector_ok {A} (c : dcodec A) `{!DCodecOk c} : DCodecOk (d_vector c).
Proof.
  split. unfold d_vector. cbn [put get dvalid]. intros t rest [Hl Ht].
  rewrite <- app_assoc, (get_put (c := d_uint 8)) by done. cbn [mbind outcome_bind].
  rewrite Nat2Z.id. clear Hl. induction Ht as [|a l Ha Ht IH]; [done|]. cbn [length get_n flat_map].
  rewrite <- app_assoc, get_put by done. cbn [mbind outcome_bind]. by rewrite IH.
Qed.

Section map_ok.
Context {K V : Type} `{Countable K} (lt : relation K) `{!RelDecision lt}.
Context (ck : dcodec K) (cv : dcodec V) `{!DCodecOk ck, !DCodecOk cv}.

Lemma get_entries_put (l : list (K * V)) (m : gmap K V) rest :
  NoDup l.*1 -> (forall k, k ∈ l.*1 -> m !! k = None) ->
  Forall (dvalid (d_pair ck cv)) l ->
  get_entries ck cv (length l) m (flat_map (put (d_pair ck cv)) l ++ rest) =
  Return (foldl CWalleveStream.map_insert_new m l, rest).
Proof.
  revert m. induction l as [|[k v] l IH]; intros m Hnd Hm Hv; [done|].
  inversion Hnd as [|? ? Hk Hnd']; inversion Hv as [|? ? [Hvk Hvv] Hv']; subst.
  cbn [length get_entries flat_map put d_pair fst snd]. simpl in Hvk, Hvv.
  rewrite <- !app_assoc, get_put by done. cbn [mbind outcome_bind].
  rewrite get_put by done. cbn [mbind outcome_bind foldl].
  unfold CWalleveStream.map_insert_new at 2. simpl.
  rewrite Hm by (simpl; left). apply IH; [done| |done].
  intros k' Hk'. rewrite lookup_insert_ne by (intros ->; done). apply Hm. by right.
Qed.

#[export] Instance d_map_ok w : DCodecOk (d_map lt w ck cv).
Proof.
  split. unfold d_map. cbn [put get dvalid]. intros m rest [Hl Hm].
  rewrite <- app_assoc, (get_put (c := d_uint w)) by done. cbn [mbind outcome_bind]. rewrite Nat2Z.id.
  pose proof (merge_sort_Permutation (CWalleveStream.key_le lt) (map_to_list m)) as Hp.
  replace (size m) with (length (CWalleveStream.map_entries lt m));
    [|unfold CWalleveStream.map_entries; rewrite Hp; apply length_map_to_list].
  rewrite get_entries_put.
  - by rewrite (CWalleveStreamOk.map_entries_load lt).
  - unfold CWalleveStream.map_entries. rewrite Hp. apply NoDup_fst_map_to_list.
  - intros. apply lookup_empty.
  - unfold CWalleveStream.map_entries. rewrite Hp.
    eapply Forall_impl; [apply map_Forall_to_list, Hm|]. by intros [k v].
Qed.
End map_ok.

(** Readers that check their bounds: whatever the bytes are, they return a
    value and the rest of the stream or throw; they read as many bytes as the
    value is written with, and values read from bytes are valid. *)
Class DCodecGet {A} (c : dcodec A) : Prop := {
  get_read : forall s, match get c s with
    | Return (a, rest) => length s = (length (put c a) + length rest)%nat /\
        (Forall (is_uint 8) s -> dvalid c a /\ Forall (is_uint 8) rest)
    | Throw _ => True
    | Undefined => False
    end;
}.

Lemma Pop_cases n s :
  (length s < n)%nat /\ Pop n s = Throw range_error \/
  (n <= length s)%nat /\ Pop n s = Return (take n s, drop n s).
Proof. unfold Pop. destruct (Nat.ltb_spec (length s) n); [left|right]; split; done || lia. Qed.

#[export] Instance d_uint_get n : DCodecGet (d_uint n).
Proof.
  split. intros s. cbn [get put dvalid d_uint].
  destruct (Pop_cases n s) as [[_ ->]|[Hn ->]]; cbn [mbind outcome_bind]; [done|].
  rewrite length_le_split, length_drop. split; [lia|]. intros Hs. split; [|by apply Forall_drop].
  pose proof (le_combine_range 8 (take n s) ltac:(lia) (Forall_take _ n _ Hs)) as Hr.
  by rewrite length_take_le in Hr.
Qed.

#[export] Instance d_pair_get {A B} (ca : dcodec A) (cb : dcodec B) `{!DCodecGet ca, !DCodecGet cb} :
  DCodecGet (d_pair ca cb).
Proof.
  split. intros s. cbn [get put dvalid d_pair]. pose proof (get_read (c := ca) s) as Ha.
  destruct (get ca s) as [[a s1]| |]; cbn [mbind outcome_bind]; [|done|done]. destruct Ha as [Hla Hva].
  pose proof (get_read (c := cb) s1) as Hb.
  destruct (get cb s1) as [[b s2]| |]; cbn [mbind outcome_bind]; [|done|done]. destruct Hb as [Hlb Hvb].
  cbn [fst snd]. rewrite length_app. split; [lia|]. naive_solver.
Qed.

Section map_get.
Context {K V : Type} `{Countable K} (lt : relation K) `{!RelDecision lt}.
Context (ck : dcodec K) (cv : dcodec V) `{!DCodecGet ck, !DCodecGet cv}.

Lemma length_flat_map_perm {A B} (f : A -> list B) l1 l2 :
  l1 ≡ₚ l2 -> length (flat_map f l1) = length (flat_map f l2).
Proof. induction 1; simpl; rewrite ?length_app; lia. Qed.

Lemma get_entries_read n (m : gmap K V) s :
  match get_entries ck cv n m s with
  | Return (m', rest) => size m' = (size m + n)%nat /\
      (length (flat_map (put (d_pair ck cv)) (map_to_list m)) + length s =
       length (flat_map (put (d_pair ck cv)) (map_to_list m')) + length rest)%nat /\
      (Forall (is_uint 8) s -> map_Forall (fun k v => dvalid ck k /\ dvalid cv v) m ->
       map_Forall (fun k v => dvalid ck k /\ dvalid cv v) m' /\ Forall (is_uint 8) rest)
  | Throw _ => True
  | Undefined => False
  end.
Proof.
  revert m s. induction n as [|n IH]; intros m s; cbn [get_entries]; [split_and!; naive_solver lia|].
  pose proof (get_read (c := ck) s) as Ha.
  destruct (get ck s) as [[k s1]| |]; cbn [mbind outcome_bind]; [|done|done]. destruct Ha as [Hlk Hvk].
  pose proof (get_read (c := cv) s1) as Hb.
  destruct (get cv s1) as [[v s2]| |]; cbn [mbind outcome_bind]; [|done|done]. destruct Hb as [Hlv Hvv].
  destruct (m !! k) eqn:Em; [done|]. specialize (IH (<[k := v]> m) s2).
  destruct (get_entries ck cv n _ s2) as [[m' rest]| |]; [|done|done]. destruct IH as (IHs & IHl & IHv).
  rewrite map_size_insert_None in IHs by done.
  rewrite (length_flat_map_perm _ _ _ (map_to_list_insert m k v Em)) in IHl.
  cbn [flat_map put d_pair fst snd] in IHl. rewrite !length_app in IHl. split; [lia|].
  cbn [put d_pair]. split; [lia|].
  intros Hs Hm. destruct (Hvk Hs) as [Hk Hs1]. destruct (Hvv Hs1) as [Hv Hs2].
  apply IHv; [done|]. by apply map_Forall_insert_2.
Qed.

#[export] Instance d_map_get w : DCodecGet (d_map lt w ck cv).
Proof.
  split. intros s. unfold d_map. cbn [get put dvalid]. pose proof (get_read (c := d_uint w) s) as Hn.
  destruct (get (d_uint w) s) as [[n s1]| |]; cbn [mbind outcome_bind]; [|done|done]. destruct Hn as [Hln Hvn].
  pose proof (get_entries_read (Z.to_nat n) ∅ s1) as He.
  destruct (get_entries ck cv (Z.to_nat n) ∅ s1) as [[m rest]| |]; [|done|done].
  destruct He as (Hsz & Hl & Hv). rewrite map_size_empty in Hsz. rewrite map_to_list_empty in Hl. simpl in Hl.
  cbn [put d_uint] in *. rewrite length_le_split in Hln. rewrite length_app, length_le_split.
  rewrite (length_flat_map_perm _ _ _ (CWalleveStreamOk.map_entries_Permutation lt m)).
  cbn [put d_pair]. split; [lia|].
  intros Hs. destruct (Hvn Hs) as [Hn Hs1]. destruct (Hv Hs1) as [Hm Hr]; [done|].
  split; [|done]. split; [|done]. cbn [dvalid d_uint] in Hn. unfold is_uint in *. lia.
Qed.
End map_get.

Lemma get_n_read {A} (c : dcodec A) `{!DCodecGet c} n s :
  match get_n c n s with
  | Return (l, rest) => length l = n /\ length s = (length (flat_map (put c) l) + length rest)%nat /\
      (Forall (is_uint 8) s -> Forall (dvalid c) l /\ Forall (is_uint 8) rest)
  | Throw _ => True
  | Undefined => False
  end.
Proof.
  revert s. induction n as [|n IH]; intros s; cbn [get_n]; [by split_and!|].
  pose proof (get_read (c := c) s) as Ha.
  destruct (get c s) as [[a s1]| |]; cbn [mbind outcome_bind]; [|done|done]. destruct Ha as [Hla Hva].
  specialize (IH s1). destruct (get_n c n s1) as [[l s2]| |]; cbn [mbind outcome_bind]; [|done|done].
  destruct IH as (Hn & Hl & Hv). cbn [length flat_map]. rewrite length_app. split; [lia|]. split; [lia|]. naive_solver.
Qed.

#[export] Instance d_vector_get {A} (c : dcodec A) `{!DCodecGet c} : DCodecGet (d_vector c).
Proof.
  split. intros s. unfold d_vector. cbn [get put dvalid]. pose proof (get_read (c := d_uint 8) s) as Hn.
  destruct (get (d_uint 8) s) as [[n s1]| |]; cbn [mbind outcome_bind]; [|done|done]. destruct Hn as [Hln Hvn].
  pose proof (get_n_read c (Z.to_nat n) s1) as Hl.
  destruct (get_n c (Z.to_nat n) s1) as [[l rest]| |]; [|done|done]. destruct Hl as (El & Hl & Hv).
  cbn [put d_uint] in *. rewrite length_le_split in Hln. rewrite length_app, length_le_split. split; [lia|].
  intros Hs. destruct (Hvn Hs) as [Hn Hs1]. destruct (Hv Hs1) as [Hm Hr]. split; [|done]. split; [|done].
  cbn [dvalid d_uint] in Hn. unfold is_uint in *. lia.
Qed.

(** on a vector of bytes whose announced size exceeds the bytes that are
    left, [operator>>] of [CWalleveIDataStream] does not throw as every other
    reader does: it copies from outside the vector. *)
Theorem d_bytes_overread (size : Z) (s : list Z) :
  is_uint 64 size -> Z.of_nat (length s) < size ->
  get d_bytes (put (d_uint 8) size ++ s) = Undefined /\
  get (d_block (Z.to_nat size)) s = Throw range_error.
Proof.
  intros Hs Hlt. split; unfold d_bytes, d_block; cbn [get].
  - rewrite (get_put (c := d_uint 8)) by done. cbn [mbind outcome_bind].
    by rewrite (proj2 (Z.ltb_lt _ _)) by done.
  - unfold Pop. rewrite (proj2 (Nat.ltb_lt _ _)) by lia. done.
Qed.

Lemma d_bytes_overread_witness : get d_bytes [5; 0; 0; 0; 0; 0; 0; 0; 1; 2] = Undefined.
Proof. apply (d_bytes_overread 5 [1; 2]); [split; lia|simpl; lia]. Defined.

End DataStream.

Module StreamTheorems.
Import CWalleveStream CWalleveStreamOk.

(** a [CVarInt] of any 64-bit value loads back from the 1, 3, 5 or 9
    bytes it saves, whatever follows them in the stream, and [GetSerializeSize]
    is the number of bytes saved. *)
Theorem CVarInt_roundtrip (v : Z) (rest : list Z) :
  is_uint 64 v ->
  load CVarInt (save CVarInt v ++ rest) = Some (v, rest) /\
  ser_size CVarInt v = Z.of_nat (length (save CVarInt v)) /\
  Forall (is_uint 8) (save CVarInt v).
Proof. intros Hv. split_and!; [by apply load_save|by apply size_save|by apply save_bytes]. Qed.

Lemma CVarInt_roundtrip_witness :
  load CVarInt (save CVarInt 70000 ++ [1; 2]) = Some (70000, [1; 2]).
Proof. apply (CVarInt_roundtrip 70000 [1; 2]). split; lia. Defined.

(** a [std::map] of valid keys and values loads back as the same map,
    whatever follows it in the stream: the entries are saved in key order after
    their number, and no entry is lost to [insert]. *)
Theorem map_roundtrip {K V : Type} `{Countable K} (lt : relation K) `{!RelDecision lt}
    (ck : codec K) (cv : codec V) (m : gmap K V) (rest : list Z) :
  CodecOk ck -> CodecOk cv -> valid (map_codec lt ck cv) m ->
  load (map_codec lt ck cv) (save (map_codec lt ck cv) m ++ rest) = Some (m, rest) /\
  ser_size (map_codec lt ck cv) m = Z.of_nat (length (save (map_codec lt ck cv) m)).
Proof. intros ?? Hm. split; [by apply load_save|by apply size_save]. Qed.

Lemma map_roundtrip_witness :
  let c := map_codec Z.lt (uint_codec 1) string_codec in
  let m : gmap Z (list Z) := <[3 := [65]]> (<[1 := [66; 67]]> ∅) in
  save c m = [2; 1; 2; 66; 67; 3; 1; 65] /\ load c (save c m ++ [9]) = Some (m, [9]).
Proof.
  split; [vm_compute; reflexivity|].
  apply map_roundtrip; [apply _|apply _|]. split.
  - by apply (bool_decide_unpack _).
  - apply (bool_decide_unpack _). vm_compute. done.
Defined.

End StreamTheorems.
