(* ===== verification/Prog.v ===== *)
(** * Programs on a state that return a value or an error

    The methods of the storage and of the world line change the object they
    belong to and end with a value or with an error code ([false], for most of
    them).  [prog] is the type of such a method: it may also throw, or be
    undefined.  The rules below run a program step by step ([bind_ok],
    [bind_err]), and [keeps] says that whatever a program returns, its states
    are related; it composes when the relation is a preorder. *)

From S2P Require Import Prelude Stream.

Definition prog (S E A : Type) : Type := S -> outcome (S * (E + A)).

Section prog.
Context {S E : Type}.

#[global] Instance prog_ret : MRet (prog S E) := fun A a s => Return (s, inr a).

#[global] Instance prog_bind : MBind (prog S E) := fun A B f m s =>
  match m s with
  | Return (s, inr a) => f a s
  | Return (s, inl e) => Return (s, inl e)
  | Throw x => Throw x
  | Undefined => Undefined
  end.

(** [return] of an error *)
Definition fail {A : Type} (e : E) : prog S E A := fun s => Return (s, inl e).

(** A value read from the state, and an assignment *)
Definition gets {A : Type} (f : S -> A) : prog S E A := fun s => Return (s, inr (f s)).

Definition puts (f : S -> S) : prog S E unit := fun s => Return (f s, inr tt).

(** A call that does not touch the state *)
Definition call {A : Type} (o : outcome A) : prog S E A := fun s =>
  match o with Return a => Return (s, inr a) | Throw x => Throw x | Undefined => Undefined end.

(** [if (!b) return e;] *)
Definition check (b : bool) (e : E) : prog S E unit := if b then mret tt else fail e.

(** A pointer that must lead to something *)
Definition deref {A : Type} (o : option A) : prog S E A :=
  fun s => match o with Some a => Return (s, inr a) | None => Undefined end.

(** The value of an option, or the return of an error *)
Definition found {A : Type} (o : option A) (e : E) : prog S E A :=
  match o with Some a => mret a | None => fail e end.
End prog.

(** [if (!m) return e;] for a call that can fail *)
Definition or_fail {S E E' A : Type} (m : prog S E' A) (e : E) : prog S E A := fun s =>
  match m s with
  | Return (s, inr a) => Return (s, inr a)
  | Return (s, inl _) => Return (s, inl e)
  | Throw x => Throw x
  | Undefined => Undefined
  end.

(** ** Running a program *)

Section run.
Context {S E : Type}.

Lemma bind_ok {A B : Type} (m : prog S E A) (f : A -> prog S E B) s s' a :
  m s = Return (s', inr a) -> (m ≫= f) s = f a s'.
Proof. intros H. unfold mbind, prog_bind. by rewrite H. Qed.

Lemma bind_err {A B : Type} (m : prog S E A) (f : A -> prog S E B) s s' e :
  m s = Return (s', inl e) -> (m ≫= f) s = Return (s', inl e).
Proof. intros H. unfold mbind, prog_bind. by rewrite H. Qed.

Lemma bind_stuck {A B : Type} (m : prog S E A) (f : A -> prog S E B) s :
  m s = Undefined -> (m ≫= f) s = Undefined.
Proof. intros H. unfold mbind, prog_bind. by rewrite H. Qed.

Lemma bind_throw {A B : Type} (m : prog S E A) (f : A -> prog S E B) s x :
  m s = Throw x -> (m ≫= f) s = Throw x.
Proof. intros H. unfold mbind, prog_bind. by rewrite H. Qed.

Lemma bind_gets {A B : Type} (g : S -> A) (f : A -> prog S E B) s : (gets g ≫= f) s = f (g s) s.
Proof. done. Qed.

Lemma bind_ret {A B : Type} (a : A) (f : A -> prog S E B) s : (mret a ≫= f) s = f a s.
Proof. done. Qed.

Lemma or_fail_ok {E' A : Type} (m : prog S E' A) (e : E) s s' a :
  m s = Return (s', inr a) -> or_fail m e s = Return (s', inr a).
Proof. intros H. unfold or_fail. by rewrite H. Qed.

Lemma or_fail_err {E' A : Type} (m : prog S E' A) (e : E) s s' x :
  m s = Return (s', inl x) -> or_fail m e s = Return (s', inl e).
Proof. intros H. unfold or_fail. by rewrite H. Qed.
End run.

(** ** What a program keeps *)

(** Whatever the program returns from the state [s], its last state is related to
    [s]. *)
Definition keeps {S E A : Type} (R : S -> S -> Prop) (s : S) (m : prog S E A) : Prop :=
  forall s' r, m s = Return (s', r) -> R s s'.

Section keeps.
Context {S : Type} (R : S -> S -> Prop) `{!PreOrder R} (s : S).

Lemma keeps_ret {E A : Type} (a : A) : keeps R s (mret a : prog S E A).
Proof. intros s' r [= <- <-]. done. Qed.

Lemma keeps_fail {E A : Type} (e : E) : keeps R s (fail e : prog S E A).
Proof. intros s' r [= <- <-]. done. Qed.

Lemma keeps_gets {E A : Type} (f : S -> A) : keeps R s (gets f : prog S E A).
Proof. intros s' r [= <- <-]. done. Qed.

Lemma keeps_call {E A : Type} (o : outcome A) : keeps R s (call o : prog S E A).
Proof. intros s' r. unfold call. destruct o; [|done..]. by intros [= <- <-]. Qed.

Lemma keeps_check {E : Type} b (e : E) : keeps R s (check b e : prog S E unit).
Proof. destruct b; [apply keeps_ret|apply keeps_fail]. Qed.

Lemma keeps_deref {E A : Type} (o : option A) : keeps R s (deref o : prog S E A).
Proof. intros s' r. unfold deref. destruct o; [|done]. by intros [= <- <-]. Qed.

Lemma keeps_found {E A : Type} (o : option A) (e : E) : keeps R s (found o e : prog S E A).
Proof. destruct o; [apply keeps_ret|apply keeps_fail]. Qed.

Lemma keeps_run {E A : Type} (m : prog S E A) s' r : m s = Return (s', r) -> R s s' -> keeps R s m.
Proof. intros H HR s1 r1 H1. rewrite H in H1. by injection H1 as <- <-. Qed.

(** The rest of a program runs in a state related to the first. *)
Lemma keeps_bind {E A B : Type} (m : prog S E A) (f : A -> prog S E B) :
  keeps R s m -> (forall s' a, m s = Return (s', inr a) -> R s s' -> keeps R s' (f a)) -> keeps R s (m ≫= f).
Proof.
  intros Hm Hf s' r. unfold mbind, prog_bind. destruct (m s) as [[s1 [e|a]]| |] eqn:E1; try done.
  - intros [= <- <-]. by eapply Hm.
  - intros H. pose proof (Hm _ _ E1) as HR. etrans; [done|]. by eapply Hf.
Qed.

Lemma keeps_or_fail {E E' A : Type} (m : prog S E' A) (e : E) : keeps R s m -> keeps R s (or_fail m e).
Proof.
  intros Hm s' r. unfold or_fail. destruct (m s) as [[s1 [x|a]]| |] eqn:E1; try done; intros [= <- <-]; by eapply Hm.
Qed.
End keeps.

Create HintDb keeps.
#[export] Hint Resolve keeps_ret keeps_fail keeps_gets keeps_call keeps_check keeps_deref keeps_found keeps_or_fail : keeps.
