(* ===== verification/Cache.v ===== *)
(** * The bounded cache (src/walleve/walleve/cache.h)

    [CWalleveCache] keeps the values of the keys added last, at most [nMaxCount]
    of them.  The container has two views of its entries, ordered by key and in
    the order of insertion; the model is the list in the order of insertion.  A
    key added again keeps its place, so that the cache drops the key that was
    first added the longest ago.

    [coherent c m] says that what the cache answers is what the map [m] holds;
    it is what the users of a cache keep. *)

From S2P Require Import Prelude.

Record CWalleveCache (K V : Type) : Type := mkCache { ch_cntrCache : list (K * V); ch_nMaxCount : nat }.

Arguments mkCache {K V}.
Arguments ch_cntrCache {K V}.
Arguments ch_nMaxCount {K V}.

Module Cache.

Section cache.
Context {K V : Type} `{Countable K}.

Definition init (nMaxCount : nat) : CWalleveCache K V := mkCache [] nMaxCount.

(** [cntrCache.find(key)] *)
Definition find (l : list (K * V)) (key : K) : option V :=
  snd <$> List.find (fun e => bool_decide (e.1 = key)) l.

Definition Exists (c : CWalleveCache K V) (key : K) : bool := bool_decide (is_Some (find (ch_cntrCache c) key)).

Definition Retrieve (c : CWalleveCache K V) (key : K) : option V := find (ch_cntrCache c) key.

(** [cntrCache.insert], which does nothing when the key is there, and the
    assignment of the value then *)
Definition insert (l : list (K * V)) (key : K) (value : V) : list (K * V) :=
  if bool_decide (is_Some (find l key)) then
    map (fun e => if bool_decide (e.1 = key) then (e.1, value) else e) l
  else l ++ [(key, value)].

Definition AddNew (c : CWalleveCache K V) (key : K) (value : V) : CWalleveCache K V :=
  let l := insert (ch_cntrCache c) key value in
  mkCache (if negb (ch_nMaxCount c =? 0)%nat && (ch_nMaxCount c <? length l)%nat then tail l else l) (ch_nMaxCount c).

Definition Remove (c : CWalleveCache K V) (key : K) : CWalleveCache K V :=
  mkCache (List.filter (fun e => negb (bool_decide (e.1 = key))) (ch_cntrCache c)) (ch_nMaxCount c).

Definition Clear (c : CWalleveCache K V) : CWalleveCache K V := mkCache [] (ch_nMaxCount c).

(** ** Specification *)

Record cache_ok (c : CWalleveCache K V) : Prop := {
  co_keys : NoDup (ch_cntrCache c).*1;
  co_size : ch_nMaxCount c <> 0%nat -> (length (ch_cntrCache c) <= ch_nMaxCount c)%nat;
}.

Definition coherent (c : CWalleveCache K V) (m : gmap K V) : Prop :=
  forall key value, Retrieve c key = Some value -> m !! key = Some value.

Lemma find_app l l' key : find (l ++ l') key = match find l key with Some v => Some v | None => find l' key end.
Proof.
  induction l as [|[k v] l IH]; [done|]. unfold find in *. cbn. case_bool_decide; [done|]. exact IH.
Qed.

Definition replace (key : K) (value : V) (l : list (K * V)) : list (K * V) :=
  map (fun e => if bool_decide (e.1 = key) then (e.1, value) else e) l.

Lemma find_cons k v l key : find ((k, v) :: l) key = if decide (k = key) then Some v else find l key.
Proof. unfold find. cbn. case_bool_decide; case_decide; done. Qed.

Lemma find_replace l key value key' :
  find (replace key value l) key' = if decide (key = key') then const value <$> find l key' else find l key'.
Proof.
  induction l as [|[k v] l IH]; [by case_decide|]. cbn [replace map]. fold (replace key value l). cbn [fst].
  case_bool_decide as E; [subst k|]; rewrite !find_cons, IH; repeat case_decide; subst; done.
Qed.

Lemma find_insert l key value key' :
  find (insert l key value) key' = if decide (key = key') then Some value else find l key'.
Proof.
  unfold insert. destruct (find l key) as [v|] eqn:E.
  - rewrite bool_decide_true by eauto. change (map _ l) with (replace key value l). rewrite find_replace.
    case_decide; [|done]. subst. by rewrite E.
  - rewrite bool_decide_false by (by intros []). rewrite find_app, find_cons.
    case_decide; [subst; by rewrite E|]. by destruct (find l key').
Qed.

Lemma find_elem l key : is_Some (find l key) <-> key ∈ l.*1.
Proof.
  unfold find. induction l as [|[k v] l IH]; cbn.
  - split; [by intros []|by intros ?%elem_of_nil].
  - rewrite elem_of_cons. case_bool_decide as E; subst; cbn; [naive_solver|].
    rewrite IH. naive_solver.
Qed.

Lemma insert_keys l key value :
  (insert l key value).*1 = if bool_decide (key ∈ l.*1) then l.*1 else l.*1 ++ [key].
Proof.
  unfold insert. rewrite (bool_decide_ext _ _ (find_elem l key)). case_bool_decide; [|by rewrite fmap_app].
  clear. induction l as [|[k v] l IH]; [done|]. cbn. rewrite <- IH. by case_bool_decide.
Qed.

Lemma find_tail l key v : NoDup l.*1 -> find (tail l) key = Some v -> find l key = Some v.
Proof.
  destruct l as [|[k w] l]; [done|]. cbn [fmap list_fmap tail]. intros [Hk _]%NoDup_cons Hf.
  rewrite find_cons. case_decide; [|done]. subst. destruct Hk. apply find_elem. by exists v.
Qed.

Lemma insert_ok l key value : NoDup l.*1 -> NoDup (insert l key value).*1.
Proof.
  intros Hnd. rewrite insert_keys. case_bool_decide as E; [done|]. apply NoDup_app.
  split; [done|]. split; [|apply NoDup_singleton]. by intros k Hk ->%list_elem_of_singleton.
Qed.

Lemma length_insert l key value :
  length (insert l key value) = if bool_decide (key ∈ l.*1) then length l else S (length l).
Proof.
  rewrite <- (length_fmap fst (insert _ _ _)), insert_keys. case_bool_decide; rewrite ?length_app, length_fmap; cbn; lia.
Qed.

(** Dropping the oldest key does not drop the one just added. *)
Lemma AddNew_hit c key value : cache_ok c -> Retrieve (AddNew c key value) key = Some value.
Proof.
  intros [Hk Hs]. unfold Retrieve, AddNew. cbn [ch_cntrCache].
  destruct (_ && _) eqn:E; [|by rewrite find_insert, decide_True]. apply andb_true_iff in E as [E1%negb_true_iff%Nat.eqb_neq E2%Nat.ltb_lt].
  specialize (Hs E1). rewrite length_insert in E2. pose proof (find_insert (ch_cntrCache c) key value key) as Hf.
  rewrite decide_True in Hf by done. unfold insert in *.
  rewrite (bool_decide_ext _ _ (find_elem _ key)) in *. destruct (bool_decide _); [lia|].
  destruct (ch_cntrCache c) as [|[k v] l] eqn:El; cbn [length tail app] in *; [lia|].
  rewrite find_cons in Hf. case_decide; [|done]. subst.
  rewrite find_app, find_cons, decide_True by done.
  destruct (find l key) eqn:Ef; [|done]. cbn in Hk. apply NoDup_cons in Hk as [[] _]. apply find_elem. by eexists.
Qed.

Lemma AddNew_coherent c m key value :
  cache_ok c -> coherent c m -> cache_ok (AddNew c key value) /\ coherent (AddNew c key value) (<[key := value]> m).
Proof.
  intros [Hk Hs] Hm. pose proof (insert_ok _ key value Hk) as Hi. split.
  - unfold AddNew. split; cbn.
    + case_match; [|done]. destruct (insert _ _ _); [done|]. by apply NoDup_cons in Hi as [_ Hi].
    + intros Hn. specialize (Hs Hn). pose proof (length_insert (ch_cntrCache c) key value) as Hl.
      destruct (negb _ && _) eqn:E.
      * destruct (insert _ _ _); cbn in *; [lia|]. case_bool_decide; lia.
      * apply andb_false_iff in E as [E%negb_false_iff%Nat.eqb_eq|E%Nat.ltb_ge]; [done|lia].
  - intros k v Hr. rewrite lookup_insert.
    assert (Hf : find (insert (ch_cntrCache c) key value) k = Some v).
    { unfold Retrieve, AddNew in Hr. cbn in Hr. case_match; [|done]. by apply find_tail. }
    rewrite find_insert in Hf. case_decide; [done|]. by apply Hm.
Qed.

Lemma Remove_coherent c m key :
  cache_ok c -> coherent c m -> cache_ok (Remove c key) /\ coherent (Remove c key) (delete key m).
Proof.
  intros [Hk Hs] Hm. split.
  - split; cbn; [by apply NoDup_fst_filter|].
    intros Hn. specialize (Hs Hn). etransitivity; [apply List.filter_length_le|done].
  - intros k v Hr. unfold Retrieve, Remove in Hr. cbn in Hr.
    assert (Hf : find (ch_cntrCache c) k = Some v /\ k <> key).
    { clear -Hr. induction (ch_cntrCache c) as [|[k' v'] l IH]; [done|]. cbn in Hr.
      destruct (bool_decide (k' = key)) eqn:E; cbn in Hr; bool_to_prop.
      - destruct (IH Hr) as [Hf Hn]. rewrite find_cons, decide_False by congruence. done.
      - rewrite find_cons in *. case_decide; [by simplify_eq|]. by apply IH. }
    destruct Hf as [Hf Hn]. rewrite lookup_delete_ne by done. by apply Hm.
Qed.

(** A bounded cache returns what was added last for a key until it drops the
    key, and never anything else: it stays within its bound, an added key is
    there, and a cache that agreed with a map agrees with the map changed in the
    same way. *)
Theorem cache_refines (c : CWalleveCache K V) (m : gmap K V) (Hok : cache_ok c) (Hm : coherent c m) :
  (forall key value, cache_ok (AddNew c key value) /\ coherent (AddNew c key value) (<[key := value]> m) /\
     Retrieve (AddNew c key value) key = Some value) /\
  (forall key, cache_ok (Remove c key) /\ coherent (Remove c key) (delete key m)) /\
  cache_ok (Clear c) /\ coherent (Clear c) ∅.
Proof.
  split; [|split; [|split]].
  - intros key value. destruct (AddNew_coherent c m key value Hok Hm). split; [done|]. split; [done|]. by apply AddNew_hit.
  - intros key. by apply Remove_coherent.
  - split; cbn; [constructor|lia].
  - by intros k v.
Qed.

End cache.

Lemma cache_refines_witness :
  let c := AddNew (AddNew (AddNew (init 2) 1 10) 2 20) 3 30 in
  Retrieve c 1 = None /\ Retrieve c 2 = Some 20 /\ Retrieve c 3 = Some 30 /\
  coherent (Remove c 2) (delete 2 (<[3 := 30]> (<[2 := 20]> (<[1 := 10]> ∅)))).
Proof.
  assert (H0 : cache_ok (init 2 : CWalleveCache Z Z) /\ coherent (init 2 : CWalleveCache Z Z) ∅).
  { split; [split; cbn; [constructor|lia]|]. by intros k v. }
  destruct H0 as [Ho Hc]. split; [vm_compute; reflexivity|]. split; [vm_compute; reflexivity|].
  split; [vm_compute; reflexivity|]. cbv zeta.
  destruct (proj1 (cache_refines _ _ Ho Hc) 1 10) as (Ho1 & Hc1 & _).
  destruct (proj1 (cache_refines _ _ Ho1 Hc1) 2 20) as (Ho2 & Hc2 & _).
  destruct (proj1 (cache_refines _ _ Ho2 Hc2) 3 30) as (Ho3 & Hc3 & _).
  exact (proj2 (proj1 (proj2 (cache_refines _ _ Ho3 Hc3)) 2)).
Defined.

End Cache.
