(* ===== verification/Destination.v ===== *)
(** * Destinations and their text form
    (src/common/destination.h, destination.cpp, template/templateid.cpp,
    src/walleve/walleve/util.h)

    A destination is a public key or a template id under a one-byte prefix.
    A [uint256] is the number it stands for (see UInt256.v); its memory is
    [le_split 8 32].  A text is the list of its character codes. *)

From S2P Require Import Prelude Stream.

(** ** Hexadecimal text of util.h *)

Module util.

Definition hexc (d : Z) : Z := if d <? 10 then 48 + d else 87 + d.

(** [ToHexString]: the source converts 64 bytes at a time. *)
Fixpoint ToHexString (p : list Z) : list Z :=
  match p with
  | [] => []
  | c :: p => hexc (Z.shiftr c 4) :: hexc (Z.land c 15) :: ToHexString p
  end.

Definition CharToHex (c : Z) : Z :=
  if (48 <=? c) && (c <=? 57) then c - 48
  else if (97 <=? c) && (c <=? 102) then c - 97 + 10
  else if (65 <=? c) && (c <=? 70) then c - 65 + 10
  else -1.

(** [ParseHexString(psz)]: the bytes read before the end or the first pair
    that is not hexadecimal; past the last character [*psz] is the NUL. *)
Fixpoint ParseHexString (psz : list Z) : list Z :=
  match psz with
  | [] => []
  | [c] => []
  | c :: c' :: psz =>
      let h := CharToHex c in
      let l := CharToHex c' in
      if (c =? 0) || (h <? 0) || (l <? 0) then []
      else u8 (Z.lor (Z.shiftl h 4) l) :: ParseHexString psz
  end.

(** [ParseHexString(psz,p,n)]: the same into a buffer of [n] bytes; the
    result is the new buffer and the number of bytes written. *)
Definition ParseHexInto (psz : list Z) (p : list Z) : list Z * nat :=
  let bs := take (length p) (ParseHexString psz) in
  (bs ++ drop (length bs) p, length bs).

Lemma hexc_spec d : 0 <= d < 16 -> CharToHex (hexc d) = d /\ hexc d <> 0.
Proof.
  intros Hd.
  assert (Hall : forallb (fun d => (CharToHex (hexc d) =? d) && negb (hexc d =? 0)) (seqZ 0 16) = true)
    by (vm_compute; reflexivity).
  rewrite forallb_forall in Hall. specialize (Hall d).
  rewrite <- list_elem_of_In, elem_of_seqZ in Hall. specialize (Hall Hd). bool_to_prop. done.
Qed.

Lemma length_ToHexString p : length (ToHexString p) = (2 * length p)%nat.
Proof. induction p; simpl; lia. Qed.

Lemma ParseHex_ToHex p : Forall (is_uint 8) p -> ParseHexString (ToHexString p) = p.
Proof.
  induction 1 as [|c p Hc Hp IH]; [done|]. cbn [ToHexString ParseHexString].
  unfold is_uint in Hc. change 15 with (Z.ones 4).
  rewrite Z.land_ones, Z.shiftr_div_pow2 by lia. change (2 ^ 4) with 16.
  assert (H1 : 0 <= c / 16 < 16) by (split; [apply Z.div_pos; lia|apply Z.div_lt_upper_bound; lia]).
  assert (H2 : 0 <= c mod 16 < 16) by (apply Z.mod_pos_bound; lia).
  destruct (hexc_spec _ H1) as [-> Hn]. destruct (hexc_spec _ H2) as [-> _].
  rewrite (proj2 (Z.eqb_neq _ _) Hn), !(proj2 (Z.ltb_ge _ _)) by lia. cbn [orb].
  rewrite IH. f_equal. rewrite Z.lor_comm, lor_shiftl by (unfold is_uint; lia).
  change (2 ^ 4) with 16. pose proof (Z.div_mod c 16). rewrite wrap_small; unfold is_uint; lia.
Qed.

End util.

(** ** Template ids: hash of the template data above the template type *)

Definition CTemplateId (type hash : Z) : Z := Z.lor (wrap 256 (Z.shiftl hash 16)) type.

Definition CTemplateId_GetType (tid : Z) : Z := Z.land (u32 tid) 0xFFFF.

(** ** Destinations *)

Record CDestination : Type := mkDest { prefix : Z; data : Z }.

#[export] Instance CDestination_eq_dec : EqDecision CDestination.
Proof. solve_decision. Defined.

#[export] Instance CDestination_countable : Countable CDestination.
Proof.
  refine (inj_countable' (fun d => (prefix d, data d)) (fun p => mkDest p.1 p.2) _).
  by intros [].
Defined.

#[export] Instance CDestination_inhabited : Inhabited CDestination := populate (mkDest 0 0).

Module Destination.
Import util.

Definition PREFIX_NULL : Z := 0x00.
Definition PREFIX_PUBKEY : Z := 0x01.
Definition PREFIX_TEMPLATE : Z := 0x02.
Definition PREFIX_MAX : Z := 0x03.
Definition DESTINATION_SIZE : Z := 33.

Definition SetNull : CDestination := mkDest PREFIX_NULL 0.

Definition IsNull (d : CDestination) : bool := prefix d =? PREFIX_NULL.

Definition IsPubKey (d : CDestination) : bool := prefix d =? PREFIX_PUBKEY.

Definition IsTemplate (d : CDestination) : bool := prefix d =? PREFIX_TEMPLATE.

Definition of_pubkey (pubkey : Z) : CDestination := mkDest PREFIX_PUBKEY pubkey.

Definition of_templateid (tid : Z) : CDestination := mkDest PREFIX_TEMPLATE tid.

Definition GetPubKey (d : CDestination) : Z := if IsPubKey d then data d else 0.

Definition GetTemplateId (d : CDestination) : Z := if IsTemplate d then data d else 0.

(** [operator<] *)
Definition dest_lt (a b : CDestination) : Prop :=
  prefix a < prefix b \/ (prefix a = prefix b /\ data a < data b).

#[export] Instance dest_lt_dec : RelDecision dest_lt.
Proof. intros a b. unfold dest_lt. apply _. Defined.

Definition ToString (d : CDestination) : list Z :=
  (48 + prefix d) :: ToHexString (le_split 8 32 (data d)).

(** [ParseString] changes the object also when it fails: the prefix is set and
    the bytes before the first bad digit are overwritten. *)
Definition ParseString (d : CDestination) (str : list Z) : bool * CDestination :=
  match str with
  | [] => (false, d)
  | c :: psz =>
      if negb (Z.of_nat (length str) =? DESTINATION_SIZE * 2 - 1) || (c <? 48) || (48 + PREFIX_MAX <=? c)
      then (false, d)
      else
        let '(bs, n) := ParseHexInto psz (le_split 8 32 (data d)) in
        ((n =? 32)%nat, mkDest (c - 48) (le_combine 8 bs))
  end.

(** [WalleveSerialize] *)
Definition dest_codec : codec CDestination :=
  CWalleveStream.object_codec (fun d => (prefix d, data d)) (fun p => mkDest p.1 p.2)
    (CWalleveStream.uint_codec 1 ** CWalleveStream.uint_codec 32).

(** [ToDataStream] / [FromDataStream] *)
Definition dest_dcodec : DataStream.dcodec (Z * Z) :=
  DataStream.d_pair (DataStream.d_uint 1) (DataStream.d_uint 32).

#[global] Instance dest_dcodec_ok : DataStream.DCodecOk dest_dcodec.
Proof. unfold dest_dcodec. apply DataStream.d_pair_ok; apply DataStream.d_uint_ok. Qed.

#[global] Instance dest_dcodec_get : DataStream.DCodecGet dest_dcodec.
Proof. unfold dest_dcodec. apply DataStream.d_pair_get; apply DataStream.d_uint_get. Qed.

Definition dest_wf (d : CDestination) : Prop := is_uint 8 (prefix d) /\ is_uint 256 (data d).

#[export] Instance dest_codec_ok : CodecOk dest_codec.
Proof. unfold dest_codec. apply _. Qed.

Lemma dest_valid d : dest_wf d -> valid dest_codec d.
Proof. intros [Hp Hd]. by destruct d. Qed.

Lemma dest_lt_strict : StrictOrder dest_lt.
Proof. split; [intros x|intros x y z]; unfold dest_lt, complement; lia. Qed.

(** the text of a destination with one of the three prefixes parses back
    to it, whatever object it is parsed into. *)
Theorem ParseString_ToString (d old : CDestination) :
  0 <= prefix d < PREFIX_MAX -> is_uint 256 (data d) ->
  ParseString old (ToString d) = (true, d).
Proof.
  intros Hp Hd. unfold ParseString, ToString, PREFIX_MAX, DESTINATION_SIZE in *.
  cbn [length]. rewrite length_ToHexString, length_le_split.
  rewrite (proj2 (Z.ltb_ge _ _)), (proj2 (Z.leb_gt _ _)) by lia. cbn [orb negb Z.eqb].
  unfold ParseHexInto. rewrite ParseHex_ToHex by (apply le_split_range; lia).
  rewrite length_le_split, take_ge, drop_ge, app_nil_r by (rewrite ?length_le_split; lia).
  rewrite length_le_split, le_combine_split, Z.mod_small by (done || lia).
  destruct d as [p dt]. simpl in *. do 2 f_equal. lia.
Qed.

Lemma ParseString_ToString_witness :
  ParseString SetNull (ToString (mkDest 2 (2 ^ 255 + 77))) = (true, mkDest 2 (2 ^ 255 + 77)).
Proof. apply ParseString_ToString; [unfold PREFIX_MAX; simpl; lia|split; simpl; lia]. Defined.

(** The id of a template carries its type: [GetType] of the id built from
    a type and a hash gives the 16-bit type back, whatever the hash. *)
Lemma CTemplateId_type (type hash : Z) :
  is_uint 16 type -> CTemplateId_GetType (CTemplateId type hash) = type.
Proof.
  intros Ht. unfold CTemplateId_GetType, CTemplateId, wrap. change 0xFFFF with (Z.ones 16).
  apply Z.bits_inj'. intros n Hn. rewrite Z.land_spec, Z.testbit_ones by lia.
  rewrite (proj2 (Z.leb_le 0 n)) by lia. cbn [andb]. destruct (Z.ltb_spec n 16).
  - rewrite Z.mod_pow2_bits_low, Z.lor_spec, Z.mod_pow2_bits_low, Z.shiftl_spec, (Z.testbit_neg_r hash) by lia.
    simpl. by rewrite andb_true_r.
  - rewrite andb_false_r. symmetry. by apply (is_uint_testbit 16).
Qed.

End Destination.
