(* ===== verification/Transaction.v ===== *)
(** * Transactions (src/common/transaction.h)

    The transaction data of the program with its serialization, the change and
    lock-time accessors, and the outputs a transaction creates.  Hashing is a
    parameter: [CryptoHash] stands for the blake2b hash of libsodium. *)

From S2P Require Import Prelude Stream Destination.

Import CWalleveStream.

(** ** Data *)

Record CTxOutPoint : Type := mkOutPoint { op_hash : Z; op_n : Z }.

#[export] Instance CTxOutPoint_eq_dec : EqDecision CTxOutPoint.
Proof. solve_decision. Defined.

#[export] Instance CTxOutPoint_countable : Countable CTxOutPoint.
Proof.
  refine (inj_countable' (fun o => (op_hash o, op_n o)) (fun p => mkOutPoint p.1 p.2) _).
  by intros [].
Defined.

(** [CTxIn] has the single field [prevout]. *)
Record CTxIn : Type := mkTxIn { prevout : CTxOutPoint }.

#[export] Instance CTxIn_eq_dec : EqDecision CTxIn.
Proof. solve_decision. Defined.

Record CTransaction : Type := mkTx {
  tx_nVersion : Z;
  tx_nType : Z;
  tx_nTimeStamp : Z;
  tx_nLockUntil : Z;
  tx_hashAnchor : Z;
  tx_vInput : list CTxIn;
  tx_sendTo : CDestination;
  tx_nAmount : Z;
  tx_nTxFee : Z;
  tx_vchData : list Z;
  tx_vchSig : list Z;
}.

#[export] Instance CTransaction_eq_dec : EqDecision CTransaction.
Proof. solve_decision. Defined.

Record CTxOutput : Type := mkTxOutput {
  out_destTo : CDestination;
  out_nAmount : Z;
  out_nTxTime : Z;
  out_nLockUntil : Z;
}.

#[export] Instance CTxOutput_eq_dec : EqDecision CTxOutput.
Proof. solve_decision. Defined.

(** [CTxUnspent] is a [CTxOutPoint] with its output. *)
Record CTxUnspent : Type := mkTxUnspent { uns_out : CTxOutPoint; uns_output : CTxOutput }.

#[export] Instance CTxUnspent_eq_dec : EqDecision CTxUnspent.
Proof. solve_decision. Defined.

Record CAssembledTx : Type := mkAssembledTx {
  asm_tx : CTransaction;
  asm_destIn : CDestination;
  asm_nValueIn : Z;
  asm_nBlockHeight : Z;
}.

Record CTxInContxt : Type := mkTxInContxt {
  inc_nAmount : Z;
  inc_nTxTime : Z;
  inc_nLockUntil : Z;
}.

Record CTxContxt : Type := mkTxContxt {
  ctx_destIn : CDestination;
  ctx_vin : list CTxInContxt;
}.

Record CTxIndex : Type := mkTxIndex {
  txi_nBlockHeight : Z;
  txi_nFile : Z;
  txi_nOffset : Z;
}.

#[export] Instance CTxIndex_eq_dec : EqDecision CTxIndex.
Proof. solve_decision. Defined.

Module Tx.

(** ** CTxOutPoint *)

Definition outpoint_null : CTxOutPoint := mkOutPoint 0 (u8 (-1)).

Definition outpoint_IsNull (o : CTxOutPoint) : bool := (op_hash o =? 0) && (op_n o =? u8 (-1)).

(** [operator<] *)
Definition outpoint_lt (a b : CTxOutPoint) : Prop :=
  op_hash a < op_hash b \/ (op_hash a = op_hash b /\ op_n a < op_n b).

#[export] Instance outpoint_lt_dec : RelDecision outpoint_lt.
Proof. intros a b. unfold outpoint_lt. apply _. Defined.

(** ** CTransaction *)

Definition TX_TOKEN : Z := 0x0000.
Definition TX_CERT : Z := 0xff00.
Definition TX_GENESIS : Z := 0x0100.
Definition TX_STAKE : Z := 0x0200.
Definition TX_WORK : Z := 0x0300.

Definition SetNull : CTransaction :=
  mkTx 1 0 0 0 0 [] Destination.SetNull 0 0 [] [].

Definition IsNull (tx : CTransaction) : bool :=
  (match tx_vInput tx with [] => true | _ => false end) && Destination.IsNull (tx_sendTo tx).

Definition IsMintTx (tx : CTransaction) : bool :=
  (tx_nType tx =? TX_GENESIS) || (tx_nType tx =? TX_STAKE) || (tx_nType tx =? TX_WORK).

(** [nValueIn - nAmount - nTxFee] on 64-bit signed integers *)
Definition GetChange (tx : CTransaction) (nValueIn : Z) : Z :=
  i64 (nValueIn - tx_nAmount tx - tx_nTxFee tx).

Definition GetLockUntil (tx : CTransaction) (n : Z) : Z :=
  if n =? Z.shiftr (tx_nLockUntil tx) 31 then Z.land (tx_nLockUntil tx) 0x7FFFFFFF else 0.

Definition SetLockUntil (tx : CTransaction) (nHeight n : Z) : bool * CTransaction :=
  if negb (Z.shiftr nHeight 31 =? 0) then (false, tx)
  else (true,
    mkTx (tx_nVersion tx) (tx_nType tx) (tx_nTimeStamp tx)
      (Z.lor (u32 (Z.shiftl n 31)) nHeight)
      (tx_hashAnchor tx) (tx_vInput tx) (tx_sendTo tx) (tx_nAmount tx) (tx_nTxFee tx)
      (tx_vchData tx) (tx_vchSig tx)).

(** ** CTxOutput *)

Definition output_null : CTxOutput := mkTxOutput Destination.SetNull 0 0 0.

(** [CTxOutput(const CTransaction& tx)] *)
Definition output_of_tx (tx : CTransaction) : CTxOutput :=
  mkTxOutput (tx_sendTo tx) (tx_nAmount tx) (tx_nTimeStamp tx) (tx_nLockUntil tx).

(** [CTxOutput(const CTransaction& tx, const CDestination& destToIn, int64 nValueIn)] *)
Definition output_change (tx : CTransaction) (destToIn : CDestination) (nValueIn : Z) : CTxOutput :=
  mkTxOutput destToIn (GetChange tx nValueIn) (tx_nTimeStamp tx) 0.

Definition output_IsNull (o : CTxOutput) : bool :=
  Destination.IsNull (out_destTo o) || (out_nAmount o <=? 0).

(** The [int32] height is converted to the unsigned type of the mask. *)
Definition output_IsLocked (o : CTxOutput) (nBlockHeight : Z) : bool :=
  u32 nBlockHeight <? Z.land (out_nLockUntil o) 0x7FFFFFFF.

Definition unspent_IsNull (u : CTxUnspent) : bool :=
  outpoint_IsNull (uns_out u) || output_IsNull (uns_output u).

(** ** CAssembledTx *)

Definition asm_GetChange (a : CAssembledTx) : Z :=
  i64 (asm_nValueIn a - tx_nAmount (asm_tx a) - tx_nTxFee (asm_tx a)).

Definition asm_GetOutput (a : CAssembledTx) (n : Z) : CTxOutput :=
  if n =? 0 then
    mkTxOutput (tx_sendTo (asm_tx a)) (tx_nAmount (asm_tx a)) (tx_nTimeStamp (asm_tx a))
      (GetLockUntil (asm_tx a) 0)
  else if n =? 1 then
    mkTxOutput (asm_destIn a) (asm_GetChange a) (tx_nTimeStamp (asm_tx a)) (GetLockUntil (asm_tx a) 1)
  else output_null.

(** ** Contexts *)

Definition incontxt_of_output (o : CTxOutput) : CTxInContxt :=
  mkTxInContxt (out_nAmount o) (out_nTxTime o) (out_nLockUntil o).

Definition incontxt_IsLocked (c : CTxInContxt) (nBlockHeight : Z) : bool :=
  u32 nBlockHeight <? Z.land (inc_nLockUntil c) 0x7FFFFFFF.

(** [GetValueIn]: the 64-bit sum of the amounts. *)
Definition contxt_GetValueIn (c : CTxContxt) : Z :=
  foldl (fun nValueIn i => i64 (nValueIn + inc_nAmount i)) 0 (ctx_vin c).

(** ** Serialization: the fields in the order of [WalleveSerialize] *)

Definition outpoint_codec : codec CTxOutPoint :=
  object_codec (fun o => (op_hash o, op_n o)) (fun p => mkOutPoint p.1 p.2)
    (uint_codec 32 ** uint_codec 1).

Definition txin_codec : codec CTxIn := object_codec prevout mkTxIn outpoint_codec.

(** The fields hashed by [GetSignatureHash]: all but the signature. *)
Definition tx_body_codec :=
  uint_codec 2 ** uint_codec 2 ** uint_codec 4 ** uint_codec 4 ** uint_codec 32 **
  vector_codec txin_codec ** Destination.dest_codec ** sint_codec 8 ** sint_codec 8 ** string_codec.

Definition tx_body (tx : CTransaction) :=
  (tx_nVersion tx, tx_nType tx, tx_nTimeStamp tx, tx_nLockUntil tx, tx_hashAnchor tx,
   tx_vInput tx, tx_sendTo tx, tx_nAmount tx, tx_nTxFee tx, tx_vchData tx).

Definition tx_codec : codec CTransaction :=
  object_codec (fun tx => (tx_body tx, tx_vchSig tx))
    (fun '(v, ty, ts, lk, ha, vin, to, am, fee, dt, sg) => mkTx v ty ts lk ha vin to am fee dt sg)
    (tx_body_codec ** string_codec).

Definition output_codec : codec CTxOutput :=
  object_codec (fun o => (out_destTo o, out_nAmount o, out_nTxTime o, out_nLockUntil o))
    (fun '(d, a, t, l) => mkTxOutput d a t l)
    (Destination.dest_codec ** sint_codec 8 ** uint_codec 4 ** uint_codec 4).

Definition asm_codec : codec CAssembledTx :=
  object_codec (fun a => (asm_tx a, asm_destIn a, asm_nValueIn a, asm_nBlockHeight a))
    (fun '(t, d, v, h) => mkAssembledTx t d v h)
    (tx_codec ** Destination.dest_codec ** sint_codec 8 ** sint_codec 4).

Definition incontxt_codec : codec CTxInContxt :=
  object_codec (fun c => (inc_nAmount c, inc_nTxTime c, inc_nLockUntil c))
    (fun '(a, t, l) => mkTxInContxt a t l)
    (sint_codec 8 ** uint_codec 4 ** uint_codec 4).

Definition contxt_codec : codec CTxContxt :=
  object_codec (fun c => (ctx_destIn c, ctx_vin c)) (fun p => mkTxContxt p.1 p.2)
    (Destination.dest_codec ** vector_codec incontxt_codec).

(** ** Hashes *)

Section hash.
Context (CryptoHash : list Z -> Z).

(** [uint256(nTimeStamp,uint224(hash))] *)
Definition GetHash (tx : CTransaction) : Z :=
  CryptoHash (save tx_codec tx) mod 2 ^ 224 + 2 ^ 224 * tx_nTimeStamp tx.

Definition GetSignatureHash (tx : CTransaction) : Z :=
  CryptoHash (save tx_body_codec (tx_body tx)).
End hash.

(** [CTxId::GetTxTime] / [GetTxHash] *)
Definition txid_GetTxTime (txid : Z) : Z := u32 (Z.shiftr txid 224).

Definition txid_GetTxHash (txid : Z) : Z := wrap 224 txid.

(** ** Lemmas *)

#[export] Instance outpoint_codec_ok : CodecOk outpoint_codec.
Proof. unfold outpoint_codec. apply _. Qed.

#[export] Instance txin_codec_ok : CodecOk txin_codec.
Proof. unfold txin_codec. apply _. Qed.

#[export] Instance tx_codec_ok : CodecOk tx_codec.
Proof. unfold tx_codec, tx_body_codec. apply _. Qed.

#[export] Instance output_codec_ok : CodecOk output_codec.
Proof. unfold output_codec. apply _. Qed.

#[export] Instance asm_codec_ok : CodecOk asm_codec.
Proof. unfold asm_codec. apply _. Qed.

#[export] Instance incontxt_codec_ok : CodecOk incontxt_codec.
Proof. unfold incontxt_codec. apply _. Qed.

#[export] Instance contxt_codec_ok : CodecOk contxt_codec.
Proof. unfold contxt_codec. apply _. Qed.

(** The ranges the C++ field types give. *)
Record tx_wf (tx : CTransaction) : Prop := {
  wf_nVersion : is_uint 16 (tx_nVersion tx);
  wf_nType : is_uint 16 (tx_nType tx);
  wf_nTimeStamp : is_uint 32 (tx_nTimeStamp tx);
  wf_nLockUntil : is_uint 32 (tx_nLockUntil tx);
  wf_hashAnchor : is_uint 256 (tx_hashAnchor tx);
  wf_vInput : is_uint 64 (Z.of_nat (length (tx_vInput tx))) /\
    Forall (fun i => is_uint 256 (op_hash (prevout i)) /\ is_uint 8 (op_n (prevout i))) (tx_vInput tx);
  wf_sendTo : Destination.dest_wf (tx_sendTo tx);
  wf_nAmount : - 2 ^ 63 <= tx_nAmount tx < 2 ^ 63;
  wf_nTxFee : - 2 ^ 63 <= tx_nTxFee tx < 2 ^ 63;
  wf_vchData : is_uint 64 (Z.of_nat (length (tx_vchData tx))) /\ Forall (is_uint 8) (tx_vchData tx);
  wf_vchSig : is_uint 64 (Z.of_nat (length (tx_vchSig tx))) /\ Forall (is_uint 8) (tx_vchSig tx);
}.

Lemma txin_valid i :
  is_uint 256 (op_hash (prevout i)) /\ is_uint 8 (op_n (prevout i)) -> valid txin_codec i.
Proof. destruct i as [[h n]]. intros [Hh Hn]. done. Qed.

Lemma tx_valid tx : tx_wf tx -> valid tx_codec tx.
Proof.
  intros [H1 H2 H3 H4 H5 [H6 H6'] H7 H8 H9 H10 H11].
  assert (Forall (valid txin_codec) (tx_vInput tx))
    by (eapply Forall_impl; [exact H6'|]; intros i; apply txin_valid).
  assert (valid Destination.dest_codec (tx_sendTo tx)) by by apply Destination.dest_valid.
  split; [|by destruct tx]. repeat apply pair_valid; first [assumption | by split].
Qed.

(** a transaction whose fields are in the ranges of their C++ types
    loads back from the bytes it saves, whatever follows them, and its
    serialized size is the number of those bytes. *)
Theorem tx_roundtrip (tx : CTransaction) (rest : list Z) :
  tx_wf tx ->
  load tx_codec (save tx_codec tx ++ rest) = Some (tx, rest) /\
  ser_size tx_codec tx = Z.of_nat (length (save tx_codec tx)).
Proof. intros Hwf. apply tx_valid in Hwf. split; [by apply load_save|by apply size_save]. Qed.

Definition sample_tx : CTransaction :=
  mkTx 1 0 1546300800 0x80000064 12345 [mkTxIn (mkOutPoint (2 ^ 255) 1)] (mkDest 1 99) 1000000 100 [7] [1; 2; 3].

Lemma sample_tx_wf : tx_wf sample_tx.
Proof. split; repeat first [split | constructor]; simpl; lia. Qed.

Lemma tx_roundtrip_witness :
  load tx_codec (save tx_codec sample_tx ++ [9]) = Some (sample_tx, [9]).
Proof. apply tx_roundtrip. apply sample_tx_wf. Defined.

(** [SetLockUntil] with a non-negative height and an output index 0 or 1
    stores a 32-bit word from which [GetLockUntil] gives the height back for
    that output and no lock for the other one; a negative height is refused
    and leaves the transaction as it was. *)
Theorem lock_until_roundtrip (tx : CTransaction) (nHeight n : Z) :
  - 2 ^ 31 <= nHeight < 2 ^ 31 -> 0 <= n <= 1 ->
  let '(ok, tx') := SetLockUntil tx nHeight n in
  (0 <= nHeight ->
     ok = true /\ is_uint 32 (tx_nLockUntil tx') /\
     GetLockUntil tx' n = nHeight /\ GetLockUntil tx' (1 - n) = 0) /\
  (nHeight < 0 -> ok = false /\ tx' = tx).
Proof.
  intros Hh Hn. unfold SetLockUntil.
  rewrite Z.shiftr_div_pow2 by lia.
  destruct (Z.eqb_spec (nHeight / 2 ^ 31) 0) as [E|E]; simpl.
  - split; [|intros; assert (nHeight / 2 ^ 31 < 0) by (apply Z.div_lt_upper_bound; lia); lia].
    intros Hpos. unfold GetLockUntil. simpl.
    assert (Hw : Z.lor (u32 (Z.shiftl n 31)) nHeight = nHeight + 2 ^ 31 * n).
    { rewrite wrap_small by (rewrite Z.shiftl_mul_pow2 by lia; unfold is_uint; lia).
      rewrite Z.lor_comm. apply lor_shiftl; [lia|split; lia]. }
    rewrite Hw. change 0x7FFFFFFF with (Z.ones 31). rewrite Z.land_ones, Z.shiftr_div_pow2 by lia.
    rewrite (Z.mul_comm _ n), Z.div_add, Z.mod_add, E, Z.mod_small by lia.
    rewrite Z.add_0_l, Z.eqb_refl, (proj2 (Z.eqb_neq _ _)) by lia.
    unfold is_uint. split_and!; lia.
  - split; [|done]. intros. rewrite Z.div_small in E by lia. done.
Qed.

Lemma lock_until_roundtrip_witness :
  GetLockUntil (SetLockUntil sample_tx 4711 1).2 1 = 4711.
Proof.
  destruct (lock_until_roundtrip sample_tx 4711 1) as [H _]; [lia|lia|].
  apply H. lia.
Defined.

(** for a lock on the change (output 1), the output a block view creates
    for the recipient ([CTxOutput(tx)] copies the raw word, and [IsLocked]
    masks the selector bit) is locked until that height, and the change output
    is not locked at all; the wallet's view of the same transaction
    ([CAssembledTx::GetOutput]) has it the other way round. *)
Theorem change_lock_misplaced (tx : CTransaction) (destIn : CDestination) (nValueIn nHeight h : Z) :
  0 <= nHeight < 2 ^ 31 -> 0 <= h < nHeight ->
  let tx' := (SetLockUntil tx nHeight 1).2 in
  let a := mkAssembledTx tx' destIn nValueIn 0 in
  output_IsLocked (output_of_tx tx') h = true /\
  output_IsLocked (output_change tx' destIn nValueIn) h = false /\
  output_IsLocked (asm_GetOutput a 0) h = false /\
  output_IsLocked (asm_GetOutput a 1) h = true.
Proof.
  intros Hh Hlt. unfold SetLockUntil.
  rewrite Z.shiftr_div_pow2, Z.div_small by lia. cbn [Z.eqb negb snd].
  unfold output_IsLocked, output_of_tx, output_change, asm_GetOutput, GetLockUntil.
  cbn [out_nLockUntil tx_nLockUntil asm_tx Z.eqb].
  assert (Hw : Z.lor (u32 (Z.shiftl 1 31)) nHeight = nHeight + 2 ^ 31 * 1).
  { rewrite Z.lor_comm. change (u32 (Z.shiftl 1 31)) with (Z.shiftl 1 31).
    apply lor_shiftl; [lia|split; lia]. }
  rewrite Hw. change 0x7FFFFFFF with (Z.ones 31). rewrite !Z.land_ones, Z.shiftr_div_pow2 by lia.
  rewrite (Z.mul_comm _ 1), Z.div_add, Z.mod_add, Z.div_small, (Z.mod_small nHeight) by lia.
  change (0 + 1) with 1. cbn [Z.eqb Pos.eqb]. rewrite (Z.mod_small nHeight), Z.mod_0_l by lia.
  rewrite (wrap_small 32 h) by (unfold is_uint; lia).
  split_and!; [apply Z.ltb_lt|apply Z.ltb_ge|apply Z.ltb_ge|apply Z.ltb_lt]; lia.
Qed.

Lemma change_lock_misplaced_witness :
  output_IsLocked (output_of_tx (SetLockUntil sample_tx 500 1).2) 499 = true.
Proof.
  destruct (change_lock_misplaced sample_tx (mkDest 1 5) 2000000 500 499) as [H _]; [lia|lia|exact H].
Defined.

(** the id of a transaction is a 256-bit number whose top limb is the
    time stamp, which [CTxId::GetTxTime] reads back, and whose lower 224 bits
    are those of the hash of the serialized transaction. *)
Theorem txid_time (CryptoHash : list Z -> Z) (tx : CTransaction) :
  is_uint 32 (tx_nTimeStamp tx) ->
  is_uint 256 (GetHash CryptoHash tx) /\
  txid_GetTxTime (GetHash CryptoHash tx) = tx_nTimeStamp tx /\
  txid_GetTxHash (GetHash CryptoHash tx) = wrap 224 (CryptoHash (save tx_codec tx)).
Proof.
  intros Ht. unfold GetHash, txid_GetTxTime, txid_GetTxHash, wrap.
  set (h := CryptoHash _ mod _). assert (Hh : 0 <= h < 2 ^ 224) by (apply Z.mod_pos_bound; lia).
  rewrite Z.shiftr_div_pow2, (Z.mul_comm _ (tx_nTimeStamp tx)), Z.div_add, Z.mod_add by lia.
  unfold is_uint in *. rewrite Z.div_small, Z.add_0_l, !Z.mod_small by lia. split_and!; lia.
Qed.

Lemma txid_time_witness : txid_GetTxTime (GetHash (fun _ => 2 ^ 256 - 1) sample_tx) = 1546300800.
Proof. apply (txid_time (fun _ => 2 ^ 256 - 1) sample_tx). split; simpl; lia. Defined.

End Tx.
