(* ===== verification/Block.v ===== *)
(** * Blocks (src/common/block.h, proof.h)

    Block data and serialization, the Merkle tree over the transactions, the
    accessors of the block header and the proofs stored in [vchProof].
    [CryptoHash] (blake2b of libsodium) is a parameter. *)

From S2P Require Import Prelude Stream Destination Transaction.

Import CWalleveStream.

Record CBlock : Type := mkBlock {
  b_nVersion : Z;
  b_nType : Z;
  b_nTimeStamp : Z;
  b_hashPrev : Z;
  b_hashMerkle : Z;
  b_vchProof : list Z;
  b_txMint : CTransaction;
  b_vtx : list CTransaction;
  b_vchSig : list Z;
}.

#[export] Instance CBlock_eq_dec : EqDecision CBlock.
Proof. solve_decision. Defined.

(** [CBlockEx] *)
Record CBlockEx : Type := mkBlockEx { bex_block : CBlock; bex_vTxContxt : list CTxContxt }.

Module Block.

Definition BLOCK_GENESIS : Z := 0xffff.
Definition BLOCK_ORIGIN : Z := 0xff00.
Definition BLOCK_PRIMARY : Z := 0x0001.
Definition BLOCK_SUBSIDIARY : Z := 0x0002.
Definition BLOCK_EXTENDED : Z := 0x0004.
Definition BLOCK_VACANT : Z := 0x0008.

Definition SetNull : CBlock := mkBlock 1 0 0 0 0 [] Tx.SetNull [] [].

Definition IsNull (b : CBlock) : bool :=
  (b_nType b =? 0) || (b_nTimeStamp b =? 0) || Tx.IsNull (b_txMint b).

(** The type tests of [CBlock] and of [CBlockIndex]. *)
Definition type_IsOrigin (nType : Z) : bool := negb (Z.shiftr nType 15 =? 0).

Definition type_IsPrimary (nType : Z) : bool := negb (Z.land nType 1 =? 0).

Definition type_IsExtended (nType : Z) : bool := nType =? BLOCK_EXTENDED.

Definition type_IsVacant (nType : Z) : bool := nType =? BLOCK_VACANT.

Definition IsOrigin (b : CBlock) : bool := type_IsOrigin (b_nType b).

Definition IsPrimary (b : CBlock) : bool := type_IsPrimary (b_nType b).

Definition IsExtended (b : CBlock) : bool := type_IsExtended (b_nType b).

Definition IsVacant (b : CBlock) : bool := type_IsVacant (b_nType b).

Definition IsProofOfWork (b : CBlock) : bool := tx_nType (b_txMint b) =? Tx.TX_WORK.

Definition proof_empty (b : CBlock) : bool := match b_vchProof b with [] => true | _ => false end.

(** [hashPrev.Get64(idx & 3)] when there is no proof *)
Definition GetBlockBeacon (b : CBlock) (idx : Z) : Z :=
  if proof_empty b then u64 (Z.shiftr (b_hashPrev b) (64 * Z.land idx 3)) else 0.

Definition GetBlockTrust (b : CBlock) : Z :=
  if IsVacant b then 0
  else if proof_empty b then 1
  else if IsProofOfWork b then 1
  else b_vchProof b !!! 0%nat.

Definition GetBlockMintOf (b : CBlock) (nValueIn : Z) : Z :=
  i64 (tx_nAmount (b_txMint b) - nValueIn).

(** The fees are summed in an [int64]. *)
Definition GetBlockMint (b : CBlock) : Z :=
  GetBlockMintOf b (foldl (fun nTotalTxFee tx => i64 (nTotalTxFee + tx_nTxFee tx)) 0 (b_vtx b)).

(** ** Serialization *)

Definition header_codec :=
  uint_codec 2 ** uint_codec 2 ** uint_codec 4 ** uint_codec 32 ** uint_codec 32 ** string_codec.

Definition header (b : CBlock) :=
  (b_nVersion b, b_nType b, b_nTimeStamp b, b_hashPrev b, b_hashMerkle b, b_vchProof b).

Definition block_codec : codec CBlock :=
  object_codec (fun b => (header b, b_txMint b, b_vtx b, b_vchSig b))
    (fun '(v, ty, ts, hp, hm, pf, mint, vtx, sg) => mkBlock v ty ts hp hm pf mint vtx sg)
    (header_codec ** Tx.tx_codec ** vector_codec Tx.tx_codec ** string_codec).

Definition blockex_codec : codec CBlockEx :=
  object_codec (fun b => (bex_block b, bex_vTxContxt b)) (fun p => mkBlockEx p.1 p.2)
    (block_codec ** vector_codec Tx.contxt_codec).

(** [CBlockLocator] *)
Definition locator_codec : codec (list Z) := vector_codec (uint_codec 32).

Definition GetTxSerializedOffset (b : CBlock) : Z :=
  2 + 2 + 4 + 32 + 32 + ser_size string_codec (b_vchProof b).

Definition GetSerializedProofOfWorkData (b : CBlock) : list Z :=
  save (uint_codec 2 ** uint_codec 2 ** uint_codec 4 ** uint_codec 32 ** string_codec)
    (b_nVersion b, b_nType b, b_nTimeStamp b, b_hashPrev b, b_vchProof b).

Section hash.
Context (CryptoHash : list Z -> Z).

Definition GetHash (b : CBlock) : Z :=
  CryptoHash (save (header_codec ** Tx.tx_codec) (header b, b_txMint b)).

(** [CryptoHash(h1,h2)] hashes the concatenation of the two memories. *)
Definition CryptoHash2 (h1 h2 : Z) : Z := CryptoHash (le_split 8 32 h1 ++ le_split 8 32 h2).

(** ** Merkle tree *)

(** The inner loop from index [i], for [n] more iterations. *)
Fixpoint merkle_row (n : nat) (tree : list Z) (j nSize i : nat) : list Z :=
  match n with
  | O => tree
  | S n =>
      if (i <? nSize)%nat then
        let i2 := Nat.min (i + 1) (nSize - 1) in
        merkle_row n (tree ++ [CryptoHash2 (tree !!! (j + i)%nat) (tree !!! (j + i2)%nat)]) j nSize (i + 2)
      else tree
  end.

(** The outer loop; [nSize] iterations of it and of the inner loop are more
    than enough. *)
Fixpoint merkle_loop (fuel : nat) (tree : list Z) (j nSize : nat) : option (list Z) :=
  if (nSize <=? 1)%nat then Some tree
  else match fuel with
  | O => None
  | S fuel => merkle_loop fuel (merkle_row nSize tree j nSize 0) (j + nSize) ((nSize + 1) / 2)
  end.

Definition BuildMerkleTree (txids : list Z) : option (list Z) :=
  merkle_loop (length txids) txids 0 (length txids).

Definition merkle_back (tree : list Z) : Z :=
  match last tree with Some h => h | None => 0 end.

Definition CalcMerkleTreeRoot (b : CBlock) : option Z :=
  tree ← BuildMerkleTree (map (Tx.GetHash CryptoHash) (b_vtx b)); Some (merkle_back tree).

(** *** Reference definition: layers of pairs *)

Fixpoint merkle_layer (l : list Z) : list Z :=
  match l with
  | [] => []
  | [x] => [CryptoHash2 x x]
  | x :: y :: l => CryptoHash2 x y :: merkle_layer l
  end.

Inductive merkle_root : list Z -> Z -> Prop :=
  | root_nil : merkle_root [] 0
  | root_single x : merkle_root [x] x
  | root_layer l r : (2 <= length l)%nat -> merkle_root (merkle_layer l) r -> merkle_root l r.
End hash.

(** ** Proofs *)

(** [CProofOfSecretShare], [CProofOfPiggyback] and [CProofOfHashWork] as the
    fields their [ToStream] writes. *)
Definition secret_share_dcodec := DataStream.d_pair (DataStream.d_uint 1) (DataStream.d_uint 32).

Definition piggyback_dcodec := DataStream.d_pair secret_share_dcodec (DataStream.d_uint 32).

Definition hashwork_dcodec :=
  DataStream.d_pair (DataStream.d_pair (DataStream.d_pair secret_share_dcodec (DataStream.d_uint 1))
    (DataStream.d_uint 1)) (DataStream.d_uint 32).

Definition PROOFHASHWORK_SIZE : nat := 34.

(** [CProofOfHashWorkCompact::Load]: algorithm, bits and nonce from the last
    34 bytes; [None] when the vector is shorter. *)
Definition compact_Load (vchProof : list Z) : option (Z * Z * Z) :=
  if (length vchProof <? PROOFHASHWORK_SIZE)%nat then None
  else
    let p := drop (length vchProof - PROOFHASHWORK_SIZE) vchProof in
    Some (p !!! 0%nat, p !!! 1%nat, le_combine 8 (drop 2 p)).

Definition compact_Save (proof : Z * Z * Z) (vchProof : list Z) : option (list Z) :=
  if (length vchProof <? PROOFHASHWORK_SIZE)%nat then None
  else
    let '(nAlgo, nBits, nNonce) := proof in
    Some (take (length vchProof - PROOFHASHWORK_SIZE) vchProof ++ nAlgo :: nBits :: le_split 8 32 nNonce).

(** ** Lemmas *)

#[export] Instance block_codec_ok : CodecOk block_codec.
Proof. unfold block_codec, header_codec. apply _. Qed.

#[export] Instance blockex_codec_ok : CodecOk blockex_codec.
Proof. unfold blockex_codec. apply _. Qed.

Lemma layer_length H l : length (merkle_layer H l) = ((length l + 1) / 2)%nat.
Proof.
  induction l as [|x|x y l IH] using two_step_ind; [done|done|].
  cbn [merkle_layer length]. rewrite IH.
  replace (S (S (length l)) + 1)%nat with (length l + 1 + 1 * 2)%nat by lia.
  rewrite Nat.div_add by lia. lia.
Qed.

Lemma half_lt n : (2 <= n -> (n + 1) / 2 < n)%nat.
Proof. intros. apply Nat.Div0.div_lt_upper_bound. lia. Qed.

Lemma half_pos n : (2 <= n -> 1 <= (n + 1) / 2)%nat.
Proof. intros. apply Nat.div_le_lower_bound; lia. Qed.

Lemma lookup_total_row (pre l acc : list Z) i :
  (i < length l)%nat -> (pre ++ l ++ acc) !!! (length pre + i)%nat = l !!! i.
Proof.
  intros. rewrite lookup_total_app_r by lia.
  replace (length pre + i - length pre)%nat with i by lia. by rewrite lookup_total_app_l.
Qed.

Lemma drop_lookup_total (l : list Z) i : (i < length l)%nat -> drop i l = l !!! i :: drop (S i) l.
Proof.
  intros Hi. destruct (lookup_lt_is_Some_2 l i Hi) as [x Hx].
  rewrite (drop_S _ _ _ Hx). by rewrite (list_lookup_total_correct _ _ _ Hx).
Qed.

(** The inner loop appends the layer above the current one. *)
Lemma merkle_row_layer H n pre l acc i :
  (length l <= i + 2 * n)%nat ->
  merkle_row H n (pre ++ l ++ acc) (length pre) (length l) i =
  pre ++ l ++ acc ++ merkle_layer H (drop i l).
Proof.
  revert i acc. induction n as [|n IH]; intros i acc Hn; cbn [merkle_row].
  - rewrite drop_ge by lia. by rewrite app_nil_r.
  - destruct (Nat.ltb_spec i (length l)); [|rewrite drop_ge by lia; by rewrite app_nil_r].
    cbv zeta. rewrite !lookup_total_row, <- !app_assoc, IH, <- app_assoc by lia. cbn [app].
    rewrite (drop_lookup_total l i) by done. do 3 f_equal.
    destruct (Nat.lt_ge_cases (S i) (length l)).
    + rewrite Nat.min_l, (drop_lookup_total l (S i)) by lia. rewrite !Nat.add_1_r.
      replace (i + 2)%nat with (S (S i)) by lia. done.
    + rewrite (Nat.min_r (i + 1)) by lia. replace (length l - 1)%nat with i by lia.
      rewrite !drop_ge by lia. done.
Qed.

Lemma merkle_loop_root H fuel pre l :
  (length l <= fuel)%nat -> l <> [] ->
  exists above, merkle_loop H fuel (pre ++ l) (length pre) (length l) = Some (pre ++ l ++ above) /\
    merkle_root H l (merkle_back (l ++ above)).
Proof.
  revert pre l. induction fuel as [|fuel IH]; intros pre l Hf Hl; [destruct l; simpl in *; [done|lia]|].
  cbn [merkle_loop]. destruct (Nat.leb_spec (length l) 1).
  - exists []. rewrite app_nil_r. split; [done|].
    destruct l as [|x [|y l]]; simpl in *; try lia; [done|apply root_single].
  - assert (E : pre ++ l = pre ++ l ++ []) by by rewrite app_nil_r.
    rewrite E, merkle_row_layer, drop_0 by lia. rewrite app_nil_l, app_assoc, <- length_app.
    pose proof (half_lt (length l)). pose proof (half_pos (length l)).
    rewrite <- (layer_length H) in *.
    assert (Hne : merkle_layer H l <> []) by (intros E'; rewrite E' in *; simpl in *; lia).
    destruct (IH (pre ++ l) (merkle_layer H l)) as (above & -> & Hr); [lia|done|].
    exists (merkle_layer H l ++ above). rewrite <- app_assoc. split; [done|].
    apply root_layer; [lia|]. unfold merkle_back in *. rewrite last_app.
    destruct (last (merkle_layer H l ++ above)) eqn:El; [done|].
    apply last_None, app_eq_nil in El as [El _]. done.
Qed.

(** The messages hashed to build the tree of a list. *)
Definition node_message (x y : Z) : list Z := le_split 8 32 x ++ le_split 8 32 y.

Fixpoint layer_messages (l : list Z) : list (list Z) :=
  match l with
  | [] => []
  | [x] => [node_message x x]
  | x :: y :: l => node_message x y :: layer_messages l
  end.

Inductive hashed_in (H : list Z -> Z) : list Z -> list Z -> Prop :=
  | hashed_here l m : (2 <= length l)%nat -> m ∈ layer_messages l -> hashed_in H l m
  | hashed_above l m : (2 <= length l)%nat -> hashed_in H (merkle_layer H l) m -> hashed_in H l m.

Lemma node_message_inj x y x' y' :
  is_uint 256 x -> is_uint 256 y -> is_uint 256 x' -> is_uint 256 y' ->
  node_message x y = node_message x' y' -> x = x' /\ y = y'.
Proof.
  intros Hx Hy Hx' Hy' E. unfold node_message in E.
  assert (Hinj : forall a b, is_uint 256 a -> is_uint 256 b -> le_split 8 32 a = le_split 8 32 b -> a = b).
  { intros a b Ha Hb Eab. apply (f_equal (le_combine 8)) in Eab.
    rewrite !le_combine_split, !Z.mod_small in Eab by (done || lia). done. }
  apply app_inj_1 in E as [E1 E2]; [|by rewrite !length_le_split]. auto.
Qed.

Lemma layer_inj H l1 l2 :
  length l1 = length l2 -> Forall (is_uint 256) l1 -> Forall (is_uint 256) l2 ->
  (forall m1 m2, m1 ∈ layer_messages l1 -> m2 ∈ layer_messages l2 -> H m1 = H m2 -> m1 = m2) ->
  merkle_layer H l1 = merkle_layer H l2 -> l1 = l2.
Proof.
  revert l2. induction l1 as [|x|x y l1 IH] using two_step_ind; intros [|x' [|y' l2]] Hl F1 F2 Hc E;
    try done; repeat match goal with F : Forall _ (_ :: _) |- _ => inversion F; clear F; subst end.
  - injection E as E. apply Hc in E; [|by left..]. by apply node_message_inj in E as [-> _].
  - injection E as E El. apply Hc in E; [|by left..]. apply node_message_inj in E as [-> ->]; try done.
    do 2 f_equal. apply IH; try done; [simpl in Hl; lia|]. intros m1 m2 Hm1 Hm2. apply Hc; by right.
Qed.

Lemma layer_range H l : (forall m, is_uint 256 (H m)) -> Forall (is_uint 256) (merkle_layer H l).
Proof.
  intros Hr. induction l as [|x|x y l IH] using two_step_ind; simpl; repeat constructor; auto; apply Hr.
Qed.

Lemma BuildMerkleTree_tree H txids :
  exists tree, BuildMerkleTree H txids = Some tree /\ take (length txids) tree = txids /\
    merkle_root H txids (merkle_back tree).
Proof.
  destruct txids as [|x l]; [exists []; split_and!; [done..|constructor]|].
  destruct (merkle_loop_root H (length (x :: l)) [] (x :: l)) as (above & E & Hr); [done..|].
  exists ((x :: l) ++ above). split_and!; [exact E|apply take_app_length|done].
Qed.

Lemma merkle_root_unique H l r1 r2 : merkle_root H l r1 -> merkle_root H l r2 -> r1 = r2.
Proof.
  intros H1. revert r2. induction H1 as [|x|l r Hl Hr IH]; intros r2 H2; inversion H2; subst; simpl in *; try done; try lia.
  by apply IH.
Qed.

(** [BuildMerkleTree] terminates on every list of transaction ids and the
    last node of the array it fills is the root of the tree: pairs hashed
    layer by layer, an odd last node paired with itself, the id itself for a
    single transaction and zero for none. *)
Theorem BuildMerkleTree_root (CryptoHash : list Z -> Z) (txids : list Z) :
  exists tree, BuildMerkleTree CryptoHash txids = Some tree /\
    take (length txids) tree = txids /\
    merkle_root CryptoHash txids (merkle_back tree).
Proof. apply BuildMerkleTree_tree. Qed.

(** the Merkle root binds the transaction list: if the hash has no
    collision among the messages hashed for two trees of the same number of
    transactions, equal roots mean equal lists of transaction ids. *)
Theorem merkle_root_binding (CryptoHash : list Z -> Z) (l1 l2 : list Z) (r : Z) :
  (forall m, is_uint 256 (CryptoHash m)) ->
  (forall m1 m2, hashed_in CryptoHash l1 m1 -> hashed_in CryptoHash l2 m2 ->
     CryptoHash m1 = CryptoHash m2 -> m1 = m2) ->
  length l1 = length l2 -> Forall (is_uint 256) l1 -> Forall (is_uint 256) l2 ->
  merkle_root CryptoHash l1 r -> merkle_root CryptoHash l2 r -> l1 = l2.
Proof.
  intros Hr Hc Hl F1 F2 R1. revert l2 Hc Hl F2. induction R1 as [|x|l1 r Hlen R1 IH];
    intros l2 Hc Hl F2 R2; inversion R2; subst; simpl in *; try done; try lia.
  apply (layer_inj CryptoHash); try done.
  { intros m1 m2 H1 H2. apply Hc; by apply hashed_here. }
  apply IH; try done; [by apply layer_range| |by rewrite !layer_length, Hl|by apply layer_range].
  intros m1 m2 H1 H2. apply Hc; by apply hashed_above.
Qed.

Lemma merkle_root_binding_witness :
  [1; 2] = [1; 2] /\ merkle_root (fun m => wrap 256 (le_combine 8 m)) [1; 2] 1.
Proof.
  assert (R : merkle_root (fun m => wrap 256 (le_combine 8 m)) [1; 2] 1)
    by (apply root_layer; [simpl; lia|apply root_single]).
  split; [|exact R].
  apply (merkle_root_binding (fun m => wrap 256 (le_combine 8 m)) [1; 2] [1; 2] 1); try done.
  - intros m. apply wrap_range. lia.
  - assert (Hm : forall m, hashed_in (fun m => wrap 256 (le_combine 8 m)) [1; 2] m -> m = node_message 1 2).
    { intros m Hm. inversion Hm; subst; [by apply list_elem_of_singleton|].
      match goal with Hx : hashed_in _ _ m |- _ => inversion Hx; subst; simpl in *; lia end. }
    intros m1 m2 H1 H2 _. by rewrite (Hm m1), (Hm m2).
  - repeat constructor; lia.
  - repeat constructor; lia.
Defined.

(** the number of transactions is not bound by the root: repeating the
    last transaction of an odd layer gives the same root, so a block body with
    a duplicated transaction has the Merkle root of the body without it. *)
Theorem merkle_root_duplicate (CryptoHash : list Z -> Z) (a b c r : Z) :
  merkle_root CryptoHash [a; b; c] r <-> merkle_root CryptoHash [a; b; c; c] r.
Proof.
  split; intros R; inversion R; subst; apply root_layer; simpl in *; (lia || done).
Qed.

(** a block loads back from the bytes it saves, and the bytes at
    [GetTxSerializedOffset] are those of the mint transaction, so that the
    transaction index can read a transaction out of the block file. *)
Theorem block_roundtrip (b : CBlock) (rest : list Z) :
  valid block_codec b ->
  load block_codec (save block_codec b ++ rest) = Some (b, rest) /\
  ser_size block_codec b = Z.of_nat (length (save block_codec b)) /\
  exists tail, load Tx.tx_codec (drop (Z.to_nat (GetTxSerializedOffset b)) (save block_codec b ++ rest)) =
    Some (b_txMint b, tail).
Proof.
  intros Hb. split_and!; [by apply load_save|by apply size_save|].
  destruct Hb as [[[[Hh Hm] _] _] _]. cbn [fst snd] in Hh, Hm.
  assert (Hlen : GetTxSerializedOffset b = Z.of_nat (length (save header_codec (header b)))).
  { rewrite <- size_save by done. done. }
  rewrite Hlen, Nat2Z.id. cbn [save block_codec object_codec pair_codec fst snd].
  rewrite <- !app_assoc, drop_app_length. eexists. by apply load_save.
Qed.

Definition sample_block : CBlock :=
  mkBlock 1 1 1546300800 5 6 [3; 4] Tx.sample_tx [Tx.sample_tx] [8; 9].

Lemma block_roundtrip_witness :
  load block_codec (save block_codec sample_block ++ [7]) = Some (sample_block, [7]).
Proof.
  apply (block_roundtrip sample_block [7]). pose proof (Tx.tx_valid _ Tx.sample_tx_wf) as Ht.
  split; [|done]. repeat apply pair_valid; try exact Ht;
    try (apply (bool_decide_unpack _); vm_compute; exact I).
Defined.

Lemma compact_Load_app pre algo bits nonce :
  is_uint 256 nonce ->
  compact_Load (pre ++ algo :: bits :: le_split 8 32 nonce) = Some (algo, bits, nonce).
Proof.
  intros Hn. unfold compact_Load, PROOFHASHWORK_SIZE.
  rewrite length_app. cbn [length]. rewrite length_le_split.
  rewrite (proj2 (Nat.ltb_ge _ _)), drop_app_length' by lia.
  change (drop 2 (algo :: bits :: le_split 8 32 nonce)) with (le_split 8 32 nonce).
  by rewrite le_combine_split, Z.mod_small by (done || lia).
Qed.

Lemma compact_Save_app pre old proof :
  length old = PROOFHASHWORK_SIZE ->
  compact_Save proof (pre ++ old) =
  let '(nAlgo, nBits, nNonce) := proof in Some (pre ++ nAlgo :: nBits :: le_split 8 32 nNonce).
Proof.
  intros Hl. unfold compact_Save. rewrite length_app, Hl, (proj2 (Nat.ltb_ge _ _)) by lia.
  by rewrite take_app_length' by lia.
Qed.

Lemma hashwork_put w agr algo bits nonce :
  is_uint 8 algo -> is_uint 8 bits ->
  DataStream.put hashwork_dcodec (w, agr, algo, bits, nonce) =
  DataStream.put secret_share_dcodec (w, agr) ++ algo :: bits :: le_split 8 32 nonce.
Proof.
  intros Ha Hb. unfold hashwork_dcodec.
  cbn [DataStream.put DataStream.d_pair DataStream.d_uint fst snd].
  assert (H1 : forall x, is_uint 8 x -> le_split 8 1 x = [x])
    by (intros x Hx; cbn [le_split]; by rewrite Z.mod_small).
  rewrite (H1 algo), (H1 bits), <- !app_assoc by done. done.
Qed.

#[export] Instance hashwork_dcodec_ok : DataStream.DCodecOk hashwork_dcodec.
Proof. unfold hashwork_dcodec, secret_share_dcodec. repeat apply DataStream.d_pair_ok; apply DataStream.d_uint_ok. Qed.

(** the work proof of a block, saved as a [CProofOfHashWork], is found
    again by [CProofOfHashWorkCompact], which reads the algorithm, the bits and
    the nonce from the end of the vector; saving a compact proof over it
    changes those three fields and keeps the bytes before them. *)
Theorem compact_proof (w agr algo bits nonce algo' bits' nonce' : Z) :
  is_uint 8 w -> is_uint 256 agr -> is_uint 8 algo -> is_uint 8 bits -> is_uint 256 nonce ->
  is_uint 8 algo' -> is_uint 8 bits' -> is_uint 256 nonce' ->
  let vch := DataStream.put hashwork_dcodec (w, agr, algo, bits, nonce) in
  compact_Load vch = Some (algo, bits, nonce) /\
  exists vch', compact_Save (algo', bits', nonce') vch = Some vch' /\
    compact_Load vch' = Some (algo', bits', nonce') /\
    DataStream.get hashwork_dcodec vch' = Return (w, agr, algo', bits', nonce', []).
Proof.
  intros Hw Hg Ha Hb Hn Ha' Hb' Hn' vch. unfold vch. rewrite hashwork_put by done.
  split; [by apply compact_Load_app|].
  rewrite compact_Save_app by (cbn [length]; by rewrite length_le_split).
  eexists. split; [reflexivity|]. split; [by apply compact_Load_app|].
  rewrite <- hashwork_put by done. rewrite <- (app_nil_r (DataStream.put _ _)).
  apply DataStream.get_put. done.
Qed.

Lemma compact_proof_witness :
  compact_Load (DataStream.put hashwork_dcodec (1, 2, 1, 24, 2 ^ 200)) = Some (1, 24, 2 ^ 200).
Proof. apply (compact_proof 1 2 1 24 (2 ^ 200) 0 0 0); split; lia. Defined.

End Block.
