(* ===== verification/Base.v ===== *)
(** * Shared types and interfaces (src/src/error.h, param.h, mvtype.h, mvbase.h)

    The error codes, the consensus constants, the notifications the components
    exchange, and the interfaces through which the transaction pool and the
    chain see each other: [ICoreProtocol] and [IWorldLine] are classes, the
    theorems of the pool are proved against them. *)

From S2P Require Import Prelude Stream Destination Transaction Block.

Inductive MvErr : Type :=
  | MV_FAILED
  | MV_OK
  | MV_ERR_UNAVAILABLE
  | MV_ERR_NOT_FOUND
  | MV_ERR_ALREADY_HAVE
  | MV_ERR_MISSING_PREV
  | MV_ERR_SYS_DATABASE_ERROR
  | MV_ERR_SYS_OUT_OF_DISK_SPACE
  | MV_ERR_SYS_STORAGE_ERROR
  | MV_ERR_SYS_OUT_OF_MEMORY
  | MV_ERR_BLOCK_OVERSIZE
  | MV_ERR_BLOCK_PROOF_OF_WORK_INVALID
  | MV_ERR_BLOCK_PROOF_OF_STAKE_INVALID
  | MV_ERR_BLOCK_TIMESTAMP_OUT_OF_RANGE
  | MV_ERR_BLOCK_COINBASE_INVALID
  | MV_ERR_BLOCK_COINSTAKE_INVALID
  | MV_ERR_BLOCK_TRANSACTIONS_INVALID
  | MV_ERR_BLOCK_DUPLICATED_TRANSACTION
  | MV_ERR_BLOCK_SIGOPCOUNT_OUT_OF_BOUND
  | MV_ERR_BLOCK_TXHASH_MISMATCH
  | MV_ERR_BLOCK_SIGNATURE_INVALID
  | MV_ERR_BLOCK_INVALID_FORK
  | MV_ERR_TRANSACTION_INVALID
  | MV_ERR_TRANSACTION_OVERSIZE
  | MV_ERR_TRANSACTION_OUTPUT_INVALID
  | MV_ERR_TRANSACTION_INPUT_INVALID
  | MV_ERR_TRANSACTION_TIMESTAMP_INVALID
  | MV_ERR_TRANSACTION_NOT_ENOUGH_FEE
  | MV_ERR_TRANSACTION_STAKE_REWARD_INVALID
  | MV_ERR_TRANSACTION_SIGNATURE_INVALID
  | MV_ERR_TRANSACTION_CONFLICTING_INPUT
  | MV_ERR_WALLET_INVALID_AMOUNT
  | MV_ERR_WALLET_INSUFFICIENT_FUNDS
  | MV_ERR_WALLET_SIGNATURE_FAILED
  | MV_ERR_WALLET_TX_OVERSIZE
  | MV_ERR_WALLET_NOT_FOUND
  | MV_ERR_WALLET_IS_LOCKED
  | MV_ERR_WALLET_IS_UNLOCKED
  | MV_ERR_WALLET_IS_ENCRYPTED
  | MV_ERR_WALLET_IS_UNENCRYPTED
  | MV_ERR_WALLET_FAILED.

#[export] Instance MvErr_eq_dec : EqDecision MvErr.
Proof. solve_decision. Defined.

(** ** param.h *)

Definition COIN : Z := 1000000.
Definition CENT : Z := 10000.
Definition MIN_TX_FEE : Z := CENT / 100.
Definition MAX_MONEY : Z := 1000000000 * COIN.
Definition MoneyRange (nValue : Z) : bool := (0 <=? nValue) && (nValue <=? MAX_MONEY).
Definition MAX_BLOCK_SIZE : Z := 2000000.
Definition MAX_TX_SIZE : Z := MAX_BLOCK_SIZE / 20.
Definition BLOCK_TARGET_SPACING : Z := 60.
Definition EXTENDED_BLOCK_SPACING : Z := 1.
Definition PROOF_OF_WORK_DECAY_STEP : Z := BLOCK_TARGET_SPACING.
Definition MINT_MATURITY : Z := 120.
Definition MIN_TOKEN_TX_SIZE : Z := 196.
Definition DELEGATE_THRESH : Z := 50.
Definition CM_MPVSS : Z := 0.
Definition CM_BLAKE512 : Z := 1.
Definition CM_MAX : Z := 2.

(** ** Notifications *)

Record CWorldLineUpdate : Type := mkUpdate {
  upd_hashFork : Z;
  upd_hashParent : Z;
  upd_nOriginHeight : Z;
  upd_hashLastBlock : Z;
  upd_nLastBlockTime : Z;
  upd_nLastBlockHeight : Z;
  upd_nMoneySupply : Z;
  upd_setTxUpdate : gset Z;
  upd_vBlockAddNew : list CBlockEx;
  upd_vBlockRemove : list CBlockEx;
}.

Record CTxSetChange : Type := mkChange {
  chg_hashFork : Z;
  chg_mapTxUpdate : gmap Z Z;
  chg_vTxAddNew : list CAssembledTx;
  chg_vTxRemove : list (Z * list CTxIn);
}.

(** ** Interfaces *)

(** The part of [ICoreProtocol] the pool calls. *)
Class ICoreProtocol : Type := {
  VerifyTransaction : CTransaction -> list CTxOutput -> Z -> MvErr;
}.

(** The part of [IWorldLine] the pool calls: the fork and height of a block,
    and the outputs of the inputs, looked up in the chain for the entries of
    the vector that are null. *)
Class IWorldLine : Type := {
  GetBlockLocation : Z -> option (Z * Z);
  GetTxUnspent : Z -> list CTxIn -> list CTxOutput -> option (list CTxOutput);
}.

(** What [CWorldLine::GetTxUnspent] promises: the vector keeps its length and
    its non-null entries, whatever the chain says of them. *)
Class IWorldLineOk `{IWorldLine} : Prop := {
  GetTxUnspent_length : forall f vin out out',
    length out = length vin -> GetTxUnspent f vin out = Some out' -> length out' = length vin;
  GetTxUnspent_keeps : forall f vin out out' i o,
    GetTxUnspent f vin out = Some out' ->
    out !! i = Some o -> Tx.output_IsNull o = false -> out' !! i = Some o;
}.
