(* ===== verification/TxPool.v ===== *)
(** * Transaction pool (src/src/txpool.h, txpool.cpp)

    [CTxPoolView] is the pool of one fork: its transactions and, for every
    output one of them creates or spends, whether it is spent and by which
    one.  [CTxPool] holds the views and owns the transactions.  The views keep
    pointers to the transactions of the pool; a pooled transaction is never
    changed, so a pointer is modelled by the value it points to, and
    [pool_inv] says that no view keeps a transaction the pool has erased.

    [edge v o t] (the output [o] is marked as spent by [t] in [v]) is the
    relation the theorems are about: [view_inv] says that it is exactly the
    relation "the pooled transaction [t] has the input [o]". *)

From S2P Require Import Prelude Stream Destination Transaction Block Base.

Import CWalleveStream.

Record CPooledTx : Type := mkPooledTx {
  pt_asm : CAssembledTx;
  pt_nSequenceNumber : Z;
  pt_nSerializeSize : Z;
}.

(** [CTxPoolView::CSpent] *)
Record CSpent : Type := mkSpent { sp_output : CTxOutput; sp_txidNextTx : Z }.

Record CTxPoolView : Type := mkView {
  v_mapTx : gmap Z CPooledTx;
  v_mapSpent : gmap CTxOutPoint CSpent;
}.

Record CTxPool : Type := mkPool {
  p_mapPoolView : gmap Z CTxPoolView;
  p_mapTx : gmap Z CPooledTx;
  p_nLastSequenceNumber : Z;
}.

Definition pt_tx (p : CPooledTx) : CTransaction := asm_tx (pt_asm p).

(** [CPooledTx(const CAssembledTx& tx, std::size_t nSequenceNumberIn)] *)
Definition pooled_of_asm (a : CAssembledTx) (nSequenceNumberIn : Z) : CPooledTx :=
  mkPooledTx a nSequenceNumberIn (ser_size Tx.tx_codec (asm_tx a)).

(** The outputs a transaction spends. *)
Definition prevouts (tx : CTransaction) : list CTxOutPoint := map prevout (tx_vInput tx).

Module TxPoolView.

Definition empty : CTxPoolView := mkView ∅ ∅.

(** ** CSpent *)

Definition spent_of_output (output : CTxOutput) : CSpent := mkSpent output 0.

Definition spent_by (txidNextTx : Z) : CSpent := mkSpent Tx.output_null txidNextTx.

Definition spent_IsSpent (s : CSpent) : bool := negb (sp_txidNextTx s =? 0).

(** ** Lookups *)

Definition Exists (v : CTxPoolView) (txid : Z) : bool := bool_decide (is_Some (v_mapTx v !! txid)).

Definition Get (v : CTxPoolView) (txid : Z) : option CPooledTx := v_mapTx v !! txid.

Definition IsSpent (v : CTxPoolView) (out : CTxOutPoint) : bool :=
  match v_mapSpent v !! out with Some s => spent_IsSpent s | None => false end.

(** [GetUnspent]: the result and the value of the reference argument, which is
    assigned also when the output found is null. *)
Definition GetUnspent (v : CTxPoolView) (out : CTxOutPoint) (unspent : CTxOutput) : bool * CTxOutput :=
  match v_mapSpent v !! out with
  | Some s =>
      if negb (spent_IsSpent s) then (negb (Tx.output_IsNull (sp_output s)), sp_output s)
      else (false, unspent)
  | None => (false, unspent)
  end.

(** [GetSpent]: the result and the value of [txidNextTxRet], zero before the
    call. *)
Definition GetSpent (v : CTxPoolView) (out : CTxOutPoint) : bool * Z :=
  match v_mapSpent v !! out with
  | Some s => (spent_IsSpent s, sp_txidNextTx s)
  | None => (false, 0)
  end.

(** ** Updates *)

Definition SetUnspent (v : CTxPoolView) (out : CTxOutPoint) : CTxPoolView :=
  match Get v (op_hash out) with
  | Some pTx =>
      mkView (v_mapTx v)
        (<[out := spent_of_output (Tx.asm_GetOutput (pt_asm pTx) (op_n out))]> (v_mapSpent v))
  | None => mkView (v_mapTx v) (delete out (v_mapSpent v))
  end.

Definition SetSpent (v : CTxPoolView) (out : CTxOutPoint) (txidNextTxIn : Z) : CTxPoolView :=
  mkView (v_mapTx v) (<[out := spent_by txidNextTxIn]> (v_mapSpent v)).

(** The outputs of [AddNew]: a null output is not recorded. *)
Definition add_output (txid n : Z) (output : CTxOutput) (mapSpent : gmap CTxOutPoint CSpent) :=
  if negb (Tx.output_IsNull output)
  then <[mkOutPoint txid n := spent_of_output output]> mapSpent else mapSpent.

Definition AddNew (v : CTxPoolView) (txid : Z) (tx : CPooledTx) : CTxPoolView :=
  let mapSpent :=
    foldl (fun m o => <[o := spent_by txid]> m) (v_mapSpent v) (prevouts (pt_tx tx)) in
  let mapSpent := add_output txid 0 (Tx.asm_GetOutput (pt_asm tx) 0) mapSpent in
  let mapSpent := add_output txid 1 (Tx.asm_GetOutput (pt_asm tx) 1) mapSpent in
  mkView (<[txid := tx]> (v_mapTx v)) mapSpent.

Definition erase_tx (v : CTxPoolView) (txid : Z) : CTxPoolView :=
  mkView (delete txid (v_mapTx v)) (v_mapSpent v).

Definition Remove (v : CTxPoolView) (txid : Z) : CTxPoolView :=
  match Get v txid with
  | Some pTx => erase_tx (foldl SetUnspent v (prevouts (pt_tx pTx))) txid
  | None => v
  end.

(** ** InvalidateSpent *)

(** [if (IsSpent(out)) vOutPoint.push_back(out); else mapSpent.erase(out);] *)
Definition push_or_erase (v : CTxPoolView) (out : CTxOutPoint) : CTxPoolView * list CTxOutPoint :=
  if IsSpent v out then (v, [out])
  else (mkView (v_mapTx v) (delete out (v_mapSpent v)), []).

(** One iteration: the new view, the outputs pushed on [vOutPoint] and the
    transactions pushed on [vInvolvedTx]. *)
Definition invalidate_one (v : CTxPoolView) (out : CTxOutPoint)
    : CTxPoolView * list CTxOutPoint * list Z :=
  let '(spent, txidNextTx) := GetSpent v out in
  if spent then
    match Get v txidNextTx with
    | Some pNextTx =>
        let v1 := foldl SetUnspent v (prevouts (pt_tx pNextTx)) in
        let '(v2, push0) := push_or_erase v1 (mkOutPoint txidNextTx 0) in
        let '(v3, push1) := push_or_erase v2 (mkOutPoint txidNextTx 1) in
        (erase_tx v3 txidNextTx, push0 ++ push1, [txidNextTx])
    | None => (v, [], [])
    end
  else (v, [], []).

(** The loop over the growing vector [vOutPoint]. *)
Fixpoint invalidate_loop (fuel : nat) (vOutPoint : list CTxOutPoint) (v : CTxPoolView) (vInvolvedTx : list Z)
    : option (CTxPoolView * list Z) :=
  match vOutPoint with
  | [] => Some (v, vInvolvedTx)
  | out :: rest =>
      match fuel with
      | O => None
      | S fuel =>
          let '(v', pushed, involved) := invalidate_one v out in
          invalidate_loop fuel (rest ++ pushed) v' (vInvolvedTx ++ involved)
      end
  end.

(** Every iteration that pushes outputs erases a transaction and pushes at
    most two. *)
Definition InvalidateSpent (v : CTxPoolView) (out : CTxOutPoint) (vInvolvedTx : list Z)
    : option (CTxPoolView * list Z) :=
  invalidate_loop (2 * size (v_mapTx v) + 1) [out] v vInvolvedTx.

(** ** Selections *)

(** The map keyed by sequence number of the transactions that satisfy [p],
    filled in the order of the transaction ids. *)
Definition sequence_map (p : CPooledTx -> bool) (v : CTxPoolView) : gmap Z (Z * CPooledTx) :=
  foldl (fun m e => if p e.2 then map_insert_new m (pt_nSequenceNumber e.2, e) else m)
    ∅ (map_entries Z.lt (v_mapTx v)).

Definition GetSortedTx (v : CTxPoolView) : gmap Z (Z * CPooledTx) := sequence_map (fun _ => true) v.

Definition GetInvolvedTx (v : CTxPoolView) (setDest : gset CDestination) : gmap Z (Z * CPooledTx) :=
  sequence_map (fun p => bool_decide (tx_sendTo (pt_tx p) ∈ setDest)
                      || bool_decide (asm_destIn (pt_asm p) ∈ setDest)) v.

(** The loop that fills the block up to [nMaxSize]. *)
Fixpoint arrange_loop (cands : list (Z * (Z * CPooledTx))) (vtx : list CTransaction)
    (nTotalSize nTotalTxFee nMaxSize : Z) : list CTransaction * Z :=
  match cands with
  | [] => (vtx, nTotalTxFee)
  | (_, (_, p)) :: cands =>
      if nMaxSize <? u64 (nTotalSize + pt_nSerializeSize p) then (vtx, nTotalTxFee)
      else arrange_loop cands (vtx ++ [pt_tx p]) (u64 (nTotalSize + pt_nSerializeSize p))
             (i64 (nTotalTxFee + tx_nTxFee (pt_tx p))) nMaxSize
  end.

(** The transactions are appended to [vtx]. *)
Definition ArrangeBlockTx (v : CTxPoolView) (vtx : list CTransaction) (nBlockTime nMaxSize : Z)
    : list CTransaction * Z :=
  arrange_loop (map_entries Z.lt (sequence_map (fun p => tx_nTimeStamp (pt_tx p) <=? nBlockTime) v))
    vtx 0 0 nMaxSize.

End TxPoolView.

#[export] Instance CTxContxt_inhabited : Inhabited CTxContxt := populate (mkTxContxt Destination.SetNull []).
#[export] Instance CTxOutput_inhabited : Inhabited CTxOutput := populate Tx.output_null.

Module TxPool.

(** What [AddNew] reads and writes: the view of the fork, the pool's
    transactions and the last sequence number. *)
Record pool_state : Type := mkPS {
  ps_view : CTxPoolView;
  ps_mapTx : gmap Z CPooledTx;
  ps_seq : Z;
}.

(** What [SynchronizeWorldLine] threads through its loops. *)
Record sync_state : Type := mkSync {
  sy_ps : pool_state;
  sy_vInvalidTx : list Z;
  sy_mapTxUpdate : gmap Z Z;
  sy_vTxAddNew : list CAssembledTx;
  sy_vTxRemove : list (Z * list CTxIn);
}.

Definition with_view (ps : pool_state) (v : CTxPoolView) : pool_state :=
  mkPS v (ps_mapTx ps) (ps_seq ps).

Definition sy_with_ps (s : sync_state) (ps : pool_state) : sync_state :=
  mkSync ps (sy_vInvalidTx s) (sy_mapTxUpdate s) (sy_vTxAddNew s) (sy_vTxRemove s).

Definition sy_txUpdate (s : sync_state) (txid h : Z) : sync_state :=
  mkSync (sy_ps s) (sy_vInvalidTx s) (map_insert_new (sy_mapTxUpdate s) (txid, h))
    (sy_vTxAddNew s) (sy_vTxRemove s).

Definition sy_addNew (s : sync_state) (a : CAssembledTx) : sync_state :=
  mkSync (sy_ps s) (sy_vInvalidTx s) (sy_mapTxUpdate s) (sy_vTxAddNew s ++ [a]) (sy_vTxRemove s).

Definition sy_remove (s : sync_state) (txid : Z) (vin : list CTxIn) : sync_state :=
  mkSync (sy_ps s) (sy_vInvalidTx s) (sy_mapTxUpdate s) (sy_vTxAddNew s) (sy_vTxRemove s ++ [(txid, vin)]).

(** [txView.InvalidateSpent(out,vInvalidTx)] *)
Definition sy_invalidate (s : sync_state) (out : CTxOutPoint) : option sync_state :=
  '(v, inv) ← TxPoolView.InvalidateSpent (ps_view (sy_ps s)) out (sy_vInvalidTx s);
  Some (mkSync (with_view (sy_ps s) v) inv (sy_mapTxUpdate s) (sy_vTxAddNew s) (sy_vTxRemove s)).

Section pool.
Context `{ICoreProtocol, IWorldLine}.
Context (CryptoHash : list Z -> Z).

(** [mapPoolView[hashFork]]: an absent view is created empty. *)
Definition view_at (p : CTxPool) (hashFork : Z) : CTxPoolView :=
  default TxPoolView.empty (p_mapPoolView p !! hashFork).

Definition Exists (p : CTxPool) (txid : Z) : bool := bool_decide (is_Some (p_mapTx p !! txid)).

Definition Clear (p : CTxPool) : CTxPool := mkPool ∅ ∅ (p_nLastSequenceNumber p).

Definition Count (p : CTxPool) (fork : Z) : Z :=
  match p_mapPoolView p !! fork with
  | Some v => Z.of_nat (size (v_mapTx v))
  | None => 0
  end.

Definition Get (p : CTxPool) (txid : Z) : option CTransaction := pt_tx <$> p_mapTx p !! txid.

Definition GetSequenceNumber (mapTx : gmap Z CPooledTx) (nLastSequenceNumber : Z) : Z :=
  u64 ((if decide (mapTx = ∅) then 0 else nLastSequenceNumber) + 1).

(** The first loop of [AddNew] and [FetchInputs]: an input spent in the view
    stops it, the others get the view's output or stay null. *)
Fixpoint pool_outputs (v : CTxPoolView) (vin : list CTxIn) : option (list CTxOutput) :=
  match vin with
  | [] => Some []
  | i :: vin =>
      if TxPoolView.IsSpent v (prevout i) then None
      else l ← pool_outputs v vin;
           Some ((TxPoolView.GetUnspent v (prevout i) Tx.output_null).2 :: l)
  end.

(** The loop that sums the inputs; [None] when one of them is null. *)
Fixpoint sum_inputs (nValueIn : Z) (vPrevOutput : list CTxOutput) : option Z :=
  match vPrevOutput with
  | [] => Some nValueIn
  | o :: l => if Tx.output_IsNull o then None else sum_inputs (i64 (nValueIn + out_nAmount o)) l
  end.

Definition AddNew (ps : pool_state) (txid : Z) (tx : CTransaction) (hashFork nForkHeight : Z)
    : MvErr * pool_state :=
  match pool_outputs (ps_view ps) (tx_vInput tx) with
  | None => (MV_ERR_TRANSACTION_CONFLICTING_INPUT, ps)
  | Some out =>
      match GetTxUnspent hashFork (tx_vInput tx) out with
      | None => (MV_ERR_SYS_STORAGE_ERROR, ps)
      | Some vPrevOutput =>
          match sum_inputs 0 (take (length (tx_vInput tx)) vPrevOutput) with
          | None => (MV_ERR_TRANSACTION_CONFLICTING_INPUT, ps)
          | Some nValueIn =>
              match VerifyTransaction tx vPrevOutput nForkHeight with
              | MV_OK =>
                  let destIn := out_destTo (vPrevOutput !!! 0%nat) in
                  let seq := GetSequenceNumber (ps_mapTx ps) (ps_seq ps) in
                  let pt := pooled_of_asm (mkAssembledTx tx destIn nValueIn (-1)) seq in
                  let mapTx := map_insert_new (ps_mapTx ps) (txid, pt) in
                  let pt' := default pt (mapTx !! txid) in
                  (MV_OK, mkPS (TxPoolView.AddNew (ps_view ps) txid pt') mapTx seq)
              | err => (err, ps)
              end
          end
      end
  end.

Definition pool_of_state (p : CTxPool) (hashFork : Z) (ps : pool_state) : CTxPool :=
  mkPool (<[hashFork := ps_view ps]> (p_mapPoolView p)) (ps_mapTx ps) (ps_seq ps).

Definition state_at (p : CTxPool) (hashFork : Z) : pool_state :=
  mkPS (view_at p hashFork) (p_mapTx p) (p_nLastSequenceNumber p).

(** [Push]: the error, the output arguments [hashFork], [destIn] and
    [nValueIn] when it succeeds, and the new pool. *)
Definition Push (p : CTxPool) (tx : CTransaction) : MvErr * option (Z * CDestination * Z) * CTxPool :=
  let txid := Tx.GetHash CryptoHash tx in
  match p_mapTx p !! txid with
  | Some _ => (MV_ERR_ALREADY_HAVE, None, p)
  | None =>
      if Tx.IsMintTx tx then (MV_ERR_TRANSACTION_INVALID, None, p)
      else
        match GetBlockLocation (tx_hashAnchor tx) with
        | None => (MV_ERR_TRANSACTION_INVALID, None, p)
        | Some (hashFork, nHeight) =>
            let '(err, ps) := AddNew (state_at p hashFork) txid tx hashFork nHeight in
            let p' := pool_of_state p hashFork ps in
            match err with
            | MV_OK =>
                match TxPoolView.Get (ps_view ps) txid with
                | None => (MV_ERR_NOT_FOUND, None, p')
                | Some pt => (MV_OK, Some (hashFork, asm_destIn (pt_asm pt), asm_nValueIn (pt_asm pt)), p')
                end
            | _ => (err, None, p')
            end
        end
  end.

Definition Pop (p : CTxPool) (txid : Z) : option CTxPool :=
  match p_mapTx p !! txid with
  | None => Some p
  | Some pt =>
      match GetBlockLocation (tx_hashAnchor (pt_tx pt)) with
      | None => Some p
      | Some (hashFork, _) =>
          let v := TxPoolView.Remove (view_at p hashFork) txid in
          '(v, inv) ← TxPoolView.InvalidateSpent v (mkOutPoint txid 0) [];
          '(v, inv) ← TxPoolView.InvalidateSpent v (mkOutPoint txid 1) inv;
          Some (mkPool (<[hashFork := v]> (p_mapPoolView p))
                  (foldl (fun m t => delete t m) (p_mapTx p) inv) (p_nLastSequenceNumber p))
      end
  end.

(** The ids, with their sizes, in the order of the sequence numbers. *)
Definition ListTx (p : CTxPool) (hashFork : Z) : list (Z * Z) :=
  match p_mapPoolView p !! hashFork with
  | Some v => map (fun e => (e.2.1, pt_nSerializeSize e.2.2)) (map_entries Z.lt (TxPoolView.GetSortedTx v))
  | None => []
  end.

(** [FilterTx] with the callback [FoundTx] of the filter. *)
Definition FilterTx (p : CTxPool) (hashFork : Z) (setDest : gset CDestination)
    (FoundTx : Z -> CAssembledTx -> bool) : bool :=
  match p_mapPoolView p !! hashFork with
  | None => true
  | Some v =>
      forallb (fun e => FoundTx hashFork (pt_asm e.2.2))
        (map_entries Z.lt (TxPoolView.GetInvolvedTx v setDest))
  end.

(** [mapPoolView[hashFork]] used for reading still creates the view. *)
Definition touch (p : CTxPool) (hashFork : Z) : CTxPool :=
  mkPool (<[hashFork := view_at p hashFork]> (p_mapPoolView p)) (p_mapTx p) (p_nLastSequenceNumber p).

Definition ArrangeBlockTx (p : CTxPool) (hashFork nBlockTime nMaxSize : Z) (vtx : list CTransaction)
    : list CTransaction * Z * CTxPool :=
  (TxPoolView.ArrangeBlockTx (view_at p hashFork) vtx nBlockTime nMaxSize, touch p hashFork).

(** The last loop of [FetchInputs]: no null output, one destination. *)
Fixpoint same_dest (destIn : CDestination) (l : list CTxOutput) : bool :=
  match l with
  | [] => true
  | o :: l =>
      if Tx.output_IsNull o then false
      else if Destination.IsNull destIn then same_dest (out_destTo o) l
      else if decide (destIn = out_destTo o) then same_dest destIn l
      else false
  end.

(** [FetchInputs]: the outputs when it returns true. *)
Definition FetchInputs (p : CTxPool) (hashFork : Z) (tx : CTransaction)
    : option (list CTxOutput) * CTxPool :=
  (out ← pool_outputs (view_at p hashFork) (tx_vInput tx);
   vUnspent ← GetTxUnspent hashFork (tx_vInput tx) out;
   if same_dest Destination.SetNull (take (length (tx_vInput tx)) vUnspent)
   then Some vUnspent else None, touch p hashFork).

(** ** SynchronizeWorldLine *)

(** A transaction of a new block. *)
Definition sync_new_tx (setTxUpdate : gset Z) (nHeight : Z) (s : sync_state) (e : CTransaction * CTxContxt)
    : option sync_state :=
  let '(tx, txContxt) := e in
  let txid := Tx.GetHash CryptoHash tx in
  if bool_decide (txid ∈ setTxUpdate) then Some (sy_txUpdate s txid nHeight)
  else
    let ps := sy_ps s in
    if TxPoolView.Exists (ps_view ps) txid then
      Some (sy_txUpdate
        (sy_with_ps s (mkPS (TxPoolView.Remove (ps_view ps) txid) (delete txid (ps_mapTx ps)) (ps_seq ps)))
        txid nHeight)
    else
      s ← foldl (fun s o => s ← s; sy_invalidate s o) (Some s) (prevouts tx);
      Some (sy_addNew s
        (mkAssembledTx tx (ctx_destIn txContxt) (Tx.contxt_GetValueIn txContxt) nHeight)).

Definition block_txs (b : CBlockEx) : list (CTransaction * CTxContxt) :=
  imap (fun i tx => (tx, bex_vTxContxt b !!! i)) (b_vtx (bex_block b)).

Definition sync_new_block (setTxUpdate : gset Z) (sh : option (sync_state * Z)) (b : CBlockEx)
    : option (sync_state * Z) :=
  '(s, nHeight) ← sh;
  let txMint := b_txMint (bex_block b) in
  let s := if negb (tx_nAmount txMint =? 0)
           then sy_addNew s (mkAssembledTx txMint Destination.SetNull 0 nHeight) else s in
  s ← foldl (fun s e => s ← s; sync_new_tx setTxUpdate nHeight s e) (Some s) (block_txs b);
  Some (s, i32 (nHeight + 1)).

(** A transaction of a removed block. *)
Definition sync_removed_tx (setTxUpdate : gset Z) (hashFork nLastBlockHeight : Z) (s : sync_state)
    (tx : CTransaction) : option sync_state :=
  let txid := Tx.GetHash CryptoHash tx in
  if bool_decide (txid ∈ setTxUpdate) then Some s
  else
    let v := ps_view (sy_ps s) in
    let '(_, spent0) := TxPoolView.GetSpent v (mkOutPoint txid 0) in
    let '(_, spent1) := TxPoolView.GetSpent v (mkOutPoint txid 1) in
    match AddNew (sy_ps s) txid tx hashFork nLastBlockHeight with
    | (MV_OK, ps) =>
        let v := ps_view ps in
        let v := if negb (spent0 =? 0) then TxPoolView.SetSpent v (mkOutPoint txid 0) spent0 else v in
        let v := if negb (spent1 =? 0) then TxPoolView.SetSpent v (mkOutPoint txid 1) spent0 else v in
        Some (sy_txUpdate (sy_with_ps s (with_view ps v)) txid (-1))
    | (_, ps) =>
        s ← sy_invalidate s (mkOutPoint txid 0);
        s ← sy_invalidate s (mkOutPoint txid 1);
        Some (sy_remove s txid (tx_vInput tx))
    end.

Definition sync_removed_block (setTxUpdate : gset Z) (hashFork nLastBlockHeight : Z)
    (s : option sync_state) (b : CBlockEx) : option sync_state :=
  s ← foldl (fun s tx => s ← s; sync_removed_tx setTxUpdate hashFork nLastBlockHeight s tx) s
        (rev (b_vtx (bex_block b)));
  let txMint := b_txMint (bex_block b) in
  if negb (tx_nAmount txMint =? 0) then
    let txidMint := Tx.GetHash CryptoHash txMint in
    s ← sy_invalidate s (mkOutPoint txidMint 0);
    Some (sy_remove s txidMint (tx_vInput txMint))
  else Some s.

(** The last loop: the invalidated transactions leave the pool, the last one
    first. *)
Definition sync_erase (st : gmap Z CPooledTx * list (Z * list CTxIn)) (txid : Z) :=
  let '(mapTx, removed) := st in
  match mapTx !! txid with
  | Some pt => (delete txid mapTx, removed ++ [(txid, tx_vInput (pt_tx pt))])
  | None => st
  end.

Definition SynchronizeWorldLine (p : CTxPool) (update : CWorldLineUpdate) : option (CTxPool * CTxSetChange) :=
  let hashFork := upd_hashFork update in
  let s := mkSync (state_at p hashFork) [] ∅ [] [] in
  let nHeight := i32 (upd_nLastBlockHeight update - Z.of_nat (length (upd_vBlockAddNew update)) + 1) in
  '(s, _) ← foldl (sync_new_block (upd_setTxUpdate update)) (Some (s, nHeight)) (rev (upd_vBlockAddNew update));
  s ← foldl (sync_removed_block (upd_setTxUpdate update) hashFork (upd_nLastBlockHeight update)) (Some s)
        (upd_vBlockRemove update);
  let '(mapTx, removed) := foldl sync_erase (ps_mapTx (sy_ps s), []) (rev (sy_vInvalidTx s)) in
  Some (pool_of_state p hashFork (mkPS (ps_view (sy_ps s)) mapTx (ps_seq (sy_ps s))),
        mkChange hashFork (sy_mapTxUpdate s) (sy_vTxAddNew s) (removed ++ sy_vTxRemove s)).

(** ** Persistence *)

(** [LoadData] on the records [datTxPool.Load] returns. *)
Definition load_tx (p : CTxPool) (e : Z * (Z * CAssembledTx)) : CTxPool :=
  let '(hashFork, (txid, tx)) := e in
  let seq := GetSequenceNumber (p_mapTx p) (p_nLastSequenceNumber p) in
  let pt := pooled_of_asm tx seq in
  let mapTx := map_insert_new (p_mapTx p) (txid, pt) in
  mkPool (<[hashFork := TxPoolView.AddNew (view_at p hashFork) txid (default pt (mapTx !! txid))]> (p_mapPoolView p))
    mapTx seq.

Definition LoadData (p : CTxPool) (vTx : list (Z * (Z * CAssembledTx))) : CTxPool := foldl load_tx p vTx.

(** [SaveData]: the records in the order of the sequence numbers. *)
Definition save_view (m : gmap Z (Z * (Z * CAssembledTx))) (e : Z * CTxPoolView) : gmap Z (Z * (Z * CAssembledTx)) :=
  foldl (fun m te => <[pt_nSequenceNumber te.2 := (e.1, (te.1, pt_asm te.2))]> m) m
    (map_entries Z.lt (v_mapTx e.2)).

Definition SaveData (p : CTxPool) : list (Z * (Z * CAssembledTx)) :=
  (map_entries Z.lt (foldl save_view ∅ (map_entries Z.lt (p_mapPoolView p)))).*2.
End pool.

End TxPool.

(** ** The spending relation of a view *)

Module TxPoolViewOk.
Import TxPoolView.

Definition edge (v : CTxPoolView) (o : CTxOutPoint) (t : Z) : Prop :=
  t <> 0 /\ exists s, v_mapSpent v !! o = Some s /\ sp_txidNextTx s = t.

Definition view_inv (v : CTxPoolView) : Prop :=
  forall o t, edge v o t <-> exists p, v_mapTx v !! t = Some p /\ o ∈ prevouts (pt_tx p).

(** [t] spends [out], or an output of a transaction that does, and so on. *)
Inductive descends (v : CTxPoolView) (out : CTxOutPoint) : Z -> Prop :=
  | desc_direct t : edge v out t -> descends v out t
  | desc_child t' n t : descends v out t' -> n = 0 \/ n = 1 -> edge v (mkOutPoint t' n) t -> descends v out t.

Lemma edge_fun v o t1 t2 : edge v o t1 -> edge v o t2 -> t1 = t2.
Proof. intros (_ & s & E & <-) (_ & s' & E' & <-). congruence. Qed.

Lemma IsSpent_edge v o : IsSpent v o = true <-> exists t, edge v o t.
Proof.
  unfold IsSpent, edge, spent_IsSpent. split.
  - destruct (v_mapSpent v !! o) as [s|] eqn:E; [|done]. intros. bool_to_prop. eauto.
  - intros (t & Ht & s & -> & Es). rewrite Es. by apply negb_true_iff, Z.eqb_neq.
Qed.

Lemma GetSpent_edge v o t : GetSpent v o = (true, t) <-> edge v o t.
Proof.
  unfold GetSpent, edge, spent_IsSpent. split.
  - destruct (v_mapSpent v !! o) as [s|] eqn:E; [|done]. intros [= E1 E2]. bool_to_prop. subst. eauto.
  - intros (Ht & s & -> & Es). rewrite Es. do 2 f_equal. by apply negb_true_iff, Z.eqb_neq.
Qed.

Lemma edge_insert_unspent m ms o out o' t :
  edge (mkView m (<[o := spent_of_output out]> ms)) o' t <-> o' <> o /\ edge (mkView m ms) o' t.
Proof.
  unfold edge. simpl. destruct (decide (o' = o)) as [->|Hne].
  - rewrite lookup_insert_eq. split; [|tauto]. intros (Ht & s & [= <-] & Es). simpl in Es. congruence.
  - rewrite lookup_insert_ne by done. tauto.
Qed.

Lemma edge_insert_spent m ms o x o' t :
  edge (mkView m (<[o := spent_by x]> ms)) o' t <->
  (o' = o /\ t = x /\ x <> 0) \/ (o' <> o /\ edge (mkView m ms) o' t).
Proof.
  unfold edge. simpl. destruct (decide (o' = o)) as [->|Hne].
  - rewrite lookup_insert_eq. split.
    + intros (Ht & s & [= <-] & Es). simpl in Es. subst. auto.
    + intros [(_ & -> & Hx)|[? _]]; [|done]. split; [done|]. by eexists.
  - rewrite lookup_insert_ne by done. split; [by right|]. intros [[? _]|[_ He]]; done.
Qed.

Lemma edge_delete m ms o o' t :
  edge (mkView m (delete o ms)) o' t <-> o' <> o /\ edge (mkView m ms) o' t.
Proof.
  unfold edge. simpl. destruct (decide (o' = o)) as [->|Hne].
  - rewrite lookup_delete_eq. split; [|tauto]. intros (Ht & s & [=] & Es).
  - rewrite lookup_delete_ne by done. tauto.
Qed.

Lemma edge_mapTx m m' ms o t : edge (mkView m ms) o t <-> edge (mkView m' ms) o t.
Proof. done. Qed.

Lemma SetUnspent_edge v o o' t : edge (SetUnspent v o) o' t <-> o' <> o /\ edge v o' t.
Proof.
  destruct v as [m ms]. unfold SetUnspent. destruct (Get _ _).
  - apply edge_insert_unspent.
  - apply edge_delete.
Qed.

Lemma SetUnspent_mapTx v o : v_mapTx (SetUnspent v o) = v_mapTx v.
Proof. unfold SetUnspent. by destruct (Get _ _). Qed.

Lemma SetUnspents_mapTx l v : v_mapTx (foldl SetUnspent v l) = v_mapTx v.
Proof. revert v. induction l as [|o l IH]; intros v; simpl; [done|]. by rewrite IH, SetUnspent_mapTx. Qed.

Lemma SetUnspents_edge l v o t : edge (foldl SetUnspent v l) o t <-> o ∉ l /\ edge v o t.
Proof.
  revert v. induction l as [|x l IH]; intros v; simpl.
  - set_solver.
  - rewrite IH, SetUnspent_edge. set_solver.
Qed.

(** Removing the inputs of [t] from the relation removes exactly [t]. *)
Lemma unspend_tx v t p o t' :
  view_inv v -> v_mapTx v !! t = Some p ->
  edge (foldl SetUnspent v (prevouts (pt_tx p))) o t' <-> t' <> t /\ edge v o t'.
Proof.
  intros Hv Ht. rewrite SetUnspents_edge. split.
  - intros [Ho He]. split; [|done]. intros ->. apply Hv in He as (p' & Ht' & Hin). congruence.
  - intros [Hne He]. split; [|done]. intros Hin. apply Hne.
    apply (edge_fun v o); [done|]. apply Hv. eauto.
Qed.

(** A view whose transactions lost [t] and whose relation lost [t]'s edges. *)
Lemma view_inv_delete v v' t :
  view_inv v -> v_mapTx v' = delete t (v_mapTx v) ->
  (forall o t', edge v' o t' <-> t' <> t /\ edge v o t') -> view_inv v'.
Proof.
  intros Hv Hm He o t'. rewrite He, Hm. destruct (decide (t' = t)) as [->|Hne].
  - rewrite lookup_delete_eq. split; [tauto|]. intros (p & [=] & _).
  - rewrite lookup_delete_ne by done. split; [intros [_ H]; by apply Hv|].
    intros H. split; [done|]. by apply Hv.
Qed.

Lemma Remove_edge v t o t' :
  view_inv v -> edge (Remove v t) o t' <-> t' <> t /\ edge v o t'.
Proof.
  intros Hv. unfold Remove, Get. destruct (v_mapTx v !! t) as [p|] eqn:Ht.
  - unfold erase_tx. rewrite edge_mapTx with (m' := v_mapTx (foldl SetUnspent v (prevouts (pt_tx p)))).
    destruct (foldl _ _ _) as [m ms] eqn:E. simpl. rewrite <- E. by apply unspend_tx.
  - split; [|tauto]. intros He. split; [|done]. intros ->. apply Hv in He as (p & ? & _). congruence.
Qed.

Lemma Remove_mapTx v t : v_mapTx (Remove v t) = delete t (v_mapTx v).
Proof.
  unfold Remove, Get. destruct (v_mapTx v !! t) eqn:Ht; simpl.
  - by rewrite SetUnspents_mapTx.
  - by rewrite delete_id.
Qed.

Lemma Remove_inv v t : view_inv v -> view_inv (Remove v t).
Proof.
  intros Hv. apply (view_inv_delete v _ t); [done|apply Remove_mapTx|].
  intros o t'. by apply Remove_edge.
Qed.

(** ** InvalidateSpent *)

Lemma push_or_erase_mapTx v o : v_mapTx (push_or_erase v o).1 = v_mapTx v.
Proof. unfold push_or_erase. by destruct (IsSpent v o). Qed.

Lemma push_or_erase_edge v o o' t : edge (push_or_erase v o).1 o' t <-> edge v o' t.
Proof.
  unfold push_or_erase. destruct (IsSpent v o) eqn:E; [done|]. simpl. destruct v as [m ms].
  simpl. rewrite edge_delete. split; [tauto|]. intros He. split; [|done].
  intros ->. assert (IsSpent (mkView m ms) o = true) by (apply IsSpent_edge; eauto). congruence.
Qed.

Lemma push_or_erase_pushed v o x :
  x ∈ (push_or_erase v o).2 <-> x = o /\ exists t, edge v o t.
Proof.
  unfold push_or_erase. rewrite <- IsSpent_edge. destruct (IsSpent v o); simpl; set_solver.
Qed.

Lemma push_or_erase_length v o : (length (push_or_erase v o).2 <= 1)%nat.
Proof. unfold push_or_erase. destruct (IsSpent v o); simpl; lia. Qed.

(** An iteration on an output that is not spent does nothing. *)
Lemma invalidate_one_none v o :
  view_inv v -> ~ (exists t, edge v o t) -> invalidate_one v o = (v, [], []).
Proof.
  intros Hv Hn. unfold invalidate_one. destruct (GetSpent v o) as [[] t] eqn:E; [|done].
  apply GetSpent_edge in E. exfalso. eauto.
Qed.

(** An iteration on an output spent by [t] removes [t] and pushes those of its
    outputs that are spent. *)
Lemma invalidate_one_some v o t v' pushed inv :
  view_inv v -> edge v o t -> invalidate_one v o = (v', pushed, inv) ->
  inv = [t] /\ v_mapTx v' = delete t (v_mapTx v) /\ is_Some (v_mapTx v !! t) /\
  (forall o' t', edge v' o' t' <-> t' <> t /\ edge v o' t') /\
  (length pushed <= 2)%nat /\
  (forall x, x ∈ pushed <-> exists n t', (n = 0 \/ n = 1) /\ x = mkOutPoint t n /\ edge v' x t').
Proof.
  intros Hv He. unfold invalidate_one. rewrite (proj2 (GetSpent_edge v o t) He).
  apply Hv in He as (p & Hp & Hin). unfold Get. rewrite Hp.
  pose proof (unspend_tx v t p) as Hed. set (v1 := foldl _ _ _) in *.
  pose proof (push_or_erase_edge v1 (mkOutPoint t 0)) as He1.
  pose proof (push_or_erase_mapTx v1 (mkOutPoint t 0)) as Hm1.
  pose proof (push_or_erase_pushed v1 (mkOutPoint t 0)) as Hp1.
  pose proof (push_or_erase_length v1 (mkOutPoint t 0)) as Hl1.
  destruct (push_or_erase v1 (mkOutPoint t 0)) as [v2 push0]. simpl in *.
  pose proof (push_or_erase_edge v2 (mkOutPoint t 1)) as He2.
  pose proof (push_or_erase_mapTx v2 (mkOutPoint t 1)) as Hm2.
  pose proof (push_or_erase_pushed v2 (mkOutPoint t 1)) as Hp2.
  pose proof (push_or_erase_length v2 (mkOutPoint t 1)) as Hl2.
  destruct (push_or_erase v2 (mkOutPoint t 1)) as [v3 push1]. simpl in *.
  intros [= <- <- <-].
  assert (Hee : forall o' t', edge (erase_tx v3 t) o' t' <-> t' <> t /\ edge v o' t').
  { intros o' t'. rewrite <- Hed by done. rewrite <- He1, <- He2. by destruct v3. }
  split_and!; [done| |eauto|done|rewrite length_app; lia|].
  - simpl. rewrite Hm2, Hm1. unfold v1. by rewrite SetUnspents_mapTx.
  - intros x. rewrite elem_of_app, Hp1, Hp2.
    setoid_rewrite Hee. setoid_rewrite He1. setoid_rewrite Hed; [|done..].
    split.
    + intros [(-> & t' & ?)|(-> & t' & ?)]; [exists 0, t'|exists 1, t']; auto.
    + intros (n & t' & [->| ->] & -> & ?); [left|right]; eauto.
Qed.

(** The edges that lead to a descendant when [t] is removed. *)
Lemma descends_without v v' t o x :
  (forall o' t', edge v' o' t' <-> t' <> t /\ edge v o' t') ->
  descends v o x ->
  x = t \/ descends v' o x \/
  exists n, (n = 0 \/ n = 1) /\ (exists t', edge v' (mkOutPoint t n) t') /\ descends v' (mkOutPoint t n) x.
Proof.
  intros He. induction 1 as [x Hx|t' n x _ IH Hn Hx].
  - destruct (decide (x = t)); [by left|]. right. left. apply desc_direct. by apply He.
  - destruct (decide (x = t)); [by left|]. right.
    assert (Hx' : edge v' (mkOutPoint t' n) x) by by apply He.
    destruct IH as [->|[IH|(m & Hm & Hs & IH)]].
    + right. exists n. split_and!; [done|eauto|by apply desc_direct].
    + left. by apply (desc_child _ _ t' n).
    + right. exists m. split_and!; [done..|]. by apply (desc_child _ _ t' n).
Qed.

Lemma descends_mono v v' o x :
  (forall o' t', edge v' o' t' -> edge v o' t') -> descends v' o x -> descends v o x.
Proof. intros He. induction 1; [apply desc_direct|eapply desc_child]; eauto. Qed.

Lemma descends_trans v o t n x :
  descends v o t -> n = 0 \/ n = 1 -> descends v (mkOutPoint t n) x -> descends v o x.
Proof. intros Ho Hn. induction 1; eapply desc_child; eauto. Qed.

(** The step of the loop on the set of transactions that will be removed. *)
Lemma invalidate_one_descends v o rest v' pushed inv x :
  view_inv v -> invalidate_one v o = (v', pushed, inv) ->
  (exists y, y ∈ o :: rest /\ descends v y x) <->
  x ∈ inv \/ exists y, y ∈ rest ++ pushed /\ descends v' y x.
Proof.
  intros Hv E. destruct (decide (IsSpent v o = true)) as [Hs|Hs].
  - apply IsSpent_edge in Hs as [t Ht].
    destruct (invalidate_one_some _ _ _ _ _ _ Hv Ht E) as (-> & _ & _ & He & _ & Hp).
    split.
    + intros (y & Hy & Hd).
      destruct (descends_without v v' t y x He Hd) as [->|[Hd'|(n & Hn & [t' Hs'] & Hd')]].
      * left. by left.
      * right. apply elem_of_cons in Hy as [->|Hy]; [|exists y; split; [set_solver|done]].
        exfalso. clear -Hd' He Ht. induction Hd' as [u Hu|]; [|done].
        apply He in Hu as [Hne Hu]. apply Hne. by apply (edge_fun v o).
      * right. exists (mkOutPoint t n). split; [|done]. apply elem_of_app. right. apply Hp. eauto 10.
    + intros [Hx|(y & Hy & Hd)].
      * apply list_elem_of_singleton in Hx as ->. exists o. split; [by left|]. by apply desc_direct.
      * apply (descends_mono v) in Hd; [|intros; by apply He].
        apply elem_of_app in Hy as [Hy|Hy]; [exists y; split; [by right|done]|].
        apply Hp in Hy as (n & t' & Hn & -> & _). exists o. split; [by left|].
        by apply (descends_trans v o t n); [apply desc_direct|..].
  - assert (Hn : ~ exists t, edge v o t) by (intros Hx; by apply IsSpent_edge in Hx).
    rewrite invalidate_one_none in E by done. injection E as <- <- <-. rewrite app_nil_r. split.
    + intros (y & Hy & Hd). right. exists y. split; [|done].
      apply elem_of_cons in Hy as [->|]; [|done].
      exfalso. induction Hd; eauto.
    + intros [Hx|(y & Hy & Hd)]; [by apply elem_of_nil in Hx|]. exists y. split; [by right|done].
Qed.

Lemma invalidate_one_step v o v1 pushed inv1 :
  view_inv v -> invalidate_one v o = (v1, pushed, inv1) ->
  view_inv v1 /\ (length pushed + 2 * size (v_mapTx v1) <= 2 * size (v_mapTx v))%nat /\
  NoDup inv1 /\ (forall x, x ∈ inv1 -> is_Some (v_mapTx v !! x)) /\
  (forall x, v_mapTx v1 !! x = if decide (x ∈ inv1) then None else v_mapTx v !! x) /\
  (forall o t, edge v1 o t <-> t ∉ inv1 /\ edge v o t).
Proof.
  intros Hv E. destruct (decide (IsSpent v o = true)) as [Hs|Hs].
  - apply IsSpent_edge in Hs as [t Ht].
    destruct (invalidate_one_some _ _ _ _ _ _ Hv Ht E) as (-> & Hm & Hin & He & Hl & _).
    split_and!; [by apply (view_inv_delete v _ t)| |apply NoDup_singleton|set_solver| |].
    + rewrite Hm. pose proof (map_size_delete_Some _ _ Hin). destruct Hin as [p Hin].
      assert (size (v_mapTx v) <> 0)%nat by (intros E0; apply map_size_empty_inv in E0; rewrite E0 in Hin; done).
      lia.
    + intros x. rewrite Hm. destruct (decide (x = t)) as [->|].
      * rewrite lookup_delete_eq, decide_True by set_solver. done.
      * rewrite lookup_delete_ne, decide_False by set_solver. done.
    + intros. rewrite He. set_solver.
  - rewrite invalidate_one_none in E; [|done|intros Hx; by apply IsSpent_edge in Hx].
    injection E as <- <- <-. split_and!; [done|simpl; lia|constructor|set_solver|done|set_solver].
Qed.

(** The loop, with fuel for the outputs pending and two for every transaction
    of the view. *)
Lemma invalidate_loop_spec fuel queue v acc :
  view_inv v -> (length queue + 2 * size (v_mapTx v) <= fuel)%nat ->
  exists v' inv, invalidate_loop fuel queue v acc = Some (v', acc ++ inv) /\
    view_inv v' /\
    (forall x, x ∈ inv <-> exists o, o ∈ queue /\ descends v o x) /\
    NoDup inv /\ (forall x, x ∈ inv -> is_Some (v_mapTx v !! x)) /\
    (forall x, v_mapTx v' !! x = if decide (x ∈ inv) then None else v_mapTx v !! x) /\
    (forall o t, edge v' o t <-> t ∉ inv /\ edge v o t).
Proof.
  revert queue v acc. induction fuel as [|fuel IH]; intros queue v acc Hv Hf.
  - destruct queue; simpl in Hf; [|lia]. exists v, []. rewrite app_nil_r. split_and!; try done.
    + intros x. split; [set_solver|]. intros (o & Ho & _). set_solver.
    + constructor.
    + intros x Hx. set_solver.
    + set_solver.
  - destruct queue as [|o rest]; simpl.
    { exists v, []. rewrite app_nil_r. split_and!; try done; try set_solver. constructor. }
    destruct (invalidate_one v o) as [[v1 pushed] inv1] eqn:E.
    destruct (invalidate_one_step v o v1 pushed inv1 Hv E) as (Hv1 & Hl1 & Hnd1 & Hin1 & Hm1 & He1).
    destruct (IH (rest ++ pushed) v1 (acc ++ inv1)) as (v2 & inv2 & Hr & Hv2 & Hd2 & Hnd2 & Hin2 & Hm2 & He2);
      [done|rewrite length_app; simpl in Hf; lia|].
    exists v2, (inv1 ++ inv2). rewrite Hr, <- app_assoc. split_and!; try done.
    + intros x. rewrite elem_of_app, Hd2. symmetry. by apply invalidate_one_descends.
    + apply NoDup_app. split_and!; [done| |done]. intros x Hx Hx2. apply Hin2 in Hx2 as [p Hp].
      rewrite Hm1, decide_True in Hp by done. done.
    + intros x Hx. apply elem_of_app in Hx as [Hx|Hx]; [by apply Hin1|].
      apply Hin2 in Hx as [p Hp]. rewrite Hm1 in Hp. by case_decide; eauto.
    + intros x. rewrite Hm2, Hm1. repeat case_decide; set_solver.
    + intros o' t. rewrite He2, He1. set_solver.
Qed.

Lemma InvalidateSpent_spec v out acc :
  view_inv v ->
  exists v' inv, InvalidateSpent v out acc = Some (v', acc ++ inv) /\
    view_inv v' /\ (forall x, x ∈ inv <-> descends v out x) /\ NoDup inv /\
    (forall x, x ∈ inv -> is_Some (v_mapTx v !! x)) /\
    (forall x, v_mapTx v' !! x = if decide (x ∈ inv) then None else v_mapTx v !! x) /\
    (forall o t, edge v' o t <-> t ∉ inv /\ edge v o t).
Proof.
  intros Hv. destruct (invalidate_loop_spec (2 * size (v_mapTx v) + 1) [out] v acc)
    as (v' & inv & Hr & Hv' & Hd & Hrest); [done|simpl; lia|].
  exists v', inv. split_and!; try tauto. intros x. rewrite Hd. setoid_rewrite list_elem_of_singleton.
  split; [intros (o & -> & ?); done|eauto].
Qed.

(** The loop ends in every view, also one whose relation is not consistent. *)
Lemma invalidate_one_measure v o v' pushed inv :
  invalidate_one v o = (v', pushed, inv) ->
  (length pushed + 2 * size (v_mapTx v') <= 2 * size (v_mapTx v))%nat.
Proof.
  unfold invalidate_one, Get. destruct (GetSpent v o) as [[] t]; [|intros [= <- <- <-]; simpl; lia].
  destruct (v_mapTx v !! t) as [p|] eqn:Hp; [|intros [= <- <- <-]; simpl; lia].
  set (v1 := foldl _ _ _).
  pose proof (push_or_erase_mapTx v1 (mkOutPoint t 0)) as Hm1.
  pose proof (push_or_erase_length v1 (mkOutPoint t 0)) as Hl1.
  destruct (push_or_erase v1 _) as [v2 push0].
  pose proof (push_or_erase_mapTx v2 (mkOutPoint t 1)) as Hm2.
  pose proof (push_or_erase_length v2 (mkOutPoint t 1)) as Hl2.
  destruct (push_or_erase v2 _) as [v3 push1]. simpl in *.
  intros [= <- <- <-]. simpl. rewrite Hm2, Hm1. unfold v1. rewrite SetUnspents_mapTx, length_app.
  pose proof (map_size_delete_Some _ _ (mk_is_Some _ _ Hp)).
  assert (size (v_mapTx v) <> 0)%nat by (intros E0; apply map_size_empty_inv in E0; rewrite E0 in Hp; done).
  lia.
Qed.

Lemma invalidate_loop_total fuel queue v acc :
  (length queue + 2 * size (v_mapTx v) <= fuel)%nat -> is_Some (invalidate_loop fuel queue v acc).
Proof.
  revert queue v acc. induction fuel as [|fuel IH]; intros [|o rest] v acc Hf; simpl in *; eauto; [lia|].
  destruct (invalidate_one v o) as [[v' pushed] inv] eqn:E. apply invalidate_one_measure in E.
  apply IH. rewrite length_app. lia.
Qed.

Lemma InvalidateSpent_total v out acc : is_Some (InvalidateSpent v out acc).
Proof. apply invalidate_loop_total. simpl. lia. Qed.

(** ** AddNew *)

Lemma add_output_edge m ms txid n out o t :
  edge (mkView m (add_output txid n out ms)) o t <->
  (Tx.output_IsNull out = false -> o <> mkOutPoint txid n) /\ edge (mkView m ms) o t.
Proof.
  unfold add_output. destruct (Tx.output_IsNull out); simpl; [naive_solver|].
  rewrite edge_insert_unspent. naive_solver.
Qed.

Lemma spend_inputs_edge m ms l x o t :
  x <> 0 ->
  edge (mkView m (foldl (fun m o => <[o := spent_by x]> m) ms l)) o t <->
  (o ∈ l /\ t = x) \/ (o ∉ l /\ edge (mkView m ms) o t).
Proof.
  intros Hx. revert ms. induction l as [|y l IH]; intros ms; simpl; [set_solver|].
  rewrite IH, edge_insert_spent. destruct (decide (o = y)), (decide (o ∈ l)); set_solver.
Qed.

(** A transaction the view may take: its id is not zero, it does not spend
    its own outputs, no pooled transaction spends them and none of its inputs
    is spent. *)
Record addable (v : CTxPoolView) (txid : Z) (tx : CTransaction) : Prop := {
  add_id : txid <> 0;
  add_new : v_mapTx v !! txid = None;
  add_self : forall o, o ∈ prevouts tx -> op_hash o <> txid;
  add_children : forall n t, ~ edge v (mkOutPoint txid n) t;
  add_inputs : forall o t, o ∈ prevouts tx -> ~ edge v o t;
}.

Lemma AddNew_edge v txid p o t :
  addable v txid (pt_tx p) ->
  edge (AddNew v txid p) o t <-> (o ∈ prevouts (pt_tx p) /\ t = txid) \/ edge v o t.
Proof.
  intros [Hid Hnew Hself Hch Hin]. unfold AddNew. rewrite !add_output_edge, spend_inputs_edge by done.
  assert (Hv : edge (mkView (<[txid:=p]> (v_mapTx v)) (v_mapSpent v)) o t <-> edge v o t) by done.
  rewrite Hv. split; [tauto|]. intros [[Ho ->]|He].
  - pose proof (Hself o Ho). split_and!; [intros _ ->; done..|by left].
  - split_and!; [intros _ ->; by eapply Hch..|]. right. split; [|done]. intros Ho. by eapply Hin.
Qed.

Lemma AddNew_inv v txid p : addable v txid (pt_tx p) -> view_inv v -> view_inv (AddNew v txid p).
Proof.
  intros Ha Hv o t. rewrite (AddNew_edge _ _ _ _ _ Ha), (Hv o t). simpl.
  destruct (decide (t = txid)) as [->|Hne].
  - rewrite lookup_insert_eq. split; [|intros (p' & [= <-] & ?); by left].
    intros [[? _]|(p' & Hp' & _)]; [by eexists|]. by rewrite (add_new _ _ _ Ha) in Hp'.
  - rewrite lookup_insert_ne by done. split; [|by right]. by intros [[_ ?]|?].
Qed.

End TxPoolViewOk.

Module TxPoolOk.
Import TxPool TxPoolViewOk.

Section ok.
Context `{ICoreProtocol, IWorldLine}.
Context (CryptoHash : list Z -> Z).

(** The views are consistent, every transaction of a view is one the pool
    owns (the views' pointers are valid) and no transaction is in the views
    of two forks. *)
Record pool_inv (p : CTxPool) : Prop := {
  pi_view : forall f v, p_mapPoolView p !! f = Some v -> view_inv v;
  pi_owned : forall f v t pt, p_mapPoolView p !! f = Some v -> v_mapTx v !! t = Some pt ->
    p_mapTx p !! t = Some pt;
  pi_disjoint : forall f1 f2 v1 v2 t, f1 <> f2 ->
    p_mapPoolView p !! f1 = Some v1 -> p_mapPoolView p !! f2 = Some v2 ->
    is_Some (v_mapTx v1 !! t) -> v_mapTx v2 !! t = None;
}.

Lemma empty_inv : view_inv TxPoolView.empty.
Proof.
  intros o t. unfold edge. simpl. setoid_rewrite lookup_empty.
  split; [intros (_ & s & ? & _)|intros (p & ? & _)]; done.
Qed.

Lemma view_at_inv p f : pool_inv p -> view_inv (view_at p f).
Proof.
  intros Hp. unfold view_at. destruct (p_mapPoolView p !! f) as [v|] eqn:E; simpl.
  - by apply (pi_view p Hp f).
  - apply empty_inv.
Qed.

Lemma view_at_owned p f t pt :
  pool_inv p -> v_mapTx (view_at p f) !! t = Some pt -> p_mapTx p !! t = Some pt.
Proof.
  intros Hp. unfold view_at. destruct (p_mapPoolView p !! f) as [v|] eqn:E; simpl.
  - by apply (pi_owned p Hp f).
  - by rewrite lookup_empty.
Qed.

Lemma view_at_insert p f v m s : view_at (mkPool (<[f := v]> (p_mapPoolView p)) m s) f = v.
Proof. unfold view_at. simpl. by rewrite lookup_insert_eq. Qed.

(** A new view of the fork [f] and a new set of owned transactions. *)
Lemma pool_inv_update p f v mapTx seq :
  pool_inv p -> view_inv v ->
  (forall t pt, v_mapTx v !! t = Some pt -> mapTx !! t = Some pt) ->
  (forall t, is_Some (v_mapTx v !! t) ->
     is_Some (v_mapTx (view_at p f) !! t) \/ p_mapTx p !! t = None) ->
  (forall t pt, v_mapTx (view_at p f) !! t = None -> p_mapTx p !! t = Some pt -> mapTx !! t = Some pt) ->
  pool_inv (mkPool (<[f := v]> (p_mapPoolView p)) mapTx seq).
Proof.
  intros Hp Hv Hown Hsub Hkeep.
  assert (Hdisj : forall f' v' t, f' <> f -> p_mapPoolView p !! f' = Some v' ->
    is_Some (v_mapTx v' !! t) -> v_mapTx (view_at p f) !! t = None /\ is_Some (p_mapTx p !! t)).
  { intros f' v' t Hne E [pt Ht]. split; [|eexists; by apply (pi_owned p Hp f' v')].
    unfold view_at. destruct (p_mapPoolView p !! f) as [v0|] eqn:E0; simpl; [|apply lookup_empty].
    apply (pi_disjoint p Hp f' f v' v0 t); eauto. }
  split; simpl.
  - intros f' v'. destruct (decide (f' = f)) as [->|]; [rewrite lookup_insert_eq; by intros [= <-]|].
    rewrite lookup_insert_ne by done. apply (pi_view p Hp).
  - intros f' v' t pt. destruct (decide (f' = f)) as [->|Hne].
    + rewrite lookup_insert_eq. intros [= <-]. apply Hown.
    + rewrite lookup_insert_ne by done. intros E Ht. destruct (Hdisj f' v' t) as [Hn _]; eauto.
      apply Hkeep; [done|]. by apply (pi_owned p Hp f' v').
  - intros f1 f2 v1 v2 t Hne.
    assert (Hx : forall f' v', f' <> f -> p_mapPoolView p !! f' = Some v' ->
      is_Some (v_mapTx v !! t) -> v_mapTx v' !! t = None).
    { intros f' v' Hf' E Ht. apply eq_None_not_Some. intros Hs.
      destruct (Hdisj f' v' t Hf' E Hs) as [Hn [pt Hpt]].
      destruct (Hsub t Ht) as [Hs'|Hs']; [rewrite Hn in Hs'; by destruct Hs'|congruence]. }
    destruct (decide (f1 = f)) as [->|], (decide (f2 = f)) as [->|];
      rewrite ?lookup_insert_eq, ?lookup_insert_ne by done; try done.
    + intros [= <-] E. by apply (Hx f2).
    + intros E [= <-] Hs. apply eq_None_not_Some. intros Hs'.
      rewrite (Hx f1 v1) in Hs by done. by destruct Hs.
    + by apply (pi_disjoint p Hp).
Qed.

Lemma pool_outputs_spec v vin l :
  pool_outputs v vin = Some l ->
  length l = length vin /\ (forall o t, o ∈ map prevout vin -> ~ edge v o t).
Proof.
  revert l. induction vin as [|i vin IH]; intros l; simpl.
  - intros [= <-]. split; [done|]. set_solver.
  - destruct (TxPoolView.IsSpent v (prevout i)) eqn:E; [done|].
    destruct (pool_outputs v vin) as [l'|]; [|done]. intros [= <-].
    destruct (IH _ eq_refl) as [Hl Hn]. simpl. split; [by rewrite Hl|].
    intros o t. rewrite elem_of_cons. intros [->|Ho]; [|by apply Hn].
    intros He. assert (TxPoolView.IsSpent v (prevout i) = true) by (apply IsSpent_edge; eauto). congruence.
Qed.

(** [AddNew] fails and changes nothing, or adds the transaction to the view
    and, unless it is there already, to the pool. *)
Lemma AddNew_cases ps txid tx f h err ps' :
  AddNew ps txid tx f h = (err, ps') ->
  (err <> MV_OK /\ ps' = ps) \/
  (err = MV_OK /\ (forall o t, o ∈ prevouts tx -> ~ edge (ps_view ps) o t) /\
   exists new pt, ps_view ps' = TxPoolView.AddNew (ps_view ps) txid pt /\
     ps_mapTx ps' = map_insert_new (ps_mapTx ps) (txid, new) /\ ps_mapTx ps' !! txid = Some pt /\
     pt_tx new = tx /\ pt_nSequenceNumber new = GetSequenceNumber (ps_mapTx ps) (ps_seq ps)).
Proof.
  unfold AddNew. destruct (pool_outputs _ _) as [out|] eqn:Eo; [|intros [= <- <-]; by left].
  destruct (GetTxUnspent _ _ _) as [prev|]; [|intros [= <- <-]; by left].
  destruct (sum_inputs _ _) as [nv|]; [|intros [= <- <-]; by left].
  destruct (VerifyTransaction tx prev h) eqn:Ev; intros [= <- <-]; try by left.
  right. apply pool_outputs_spec in Eo as [_ Eo]. split_and!; [done|done|].
  set (new := pooled_of_asm _ _). exists new, (default new (map_insert_new (ps_mapTx ps) (txid, new) !! txid)).
  split_and!; try done. simpl. unfold map_insert_new. simpl.
  destruct (ps_mapTx ps !! txid) eqn:E; simpl; [by rewrite E|by rewrite lookup_insert_eq].
Qed.

(** A transaction that is new to the pool: a hash is not zero, a transaction
    cannot name its own hash, and no pooled transaction spends an output of
    a transaction the pool has not seen. *)
Record fresh_tx (p : CTxPool) (txid : Z) (tx : CTransaction) : Prop := {
  fr_id : txid <> 0;
  fr_self : forall o, o ∈ prevouts tx -> op_hash o <> txid;
  fr_children : forall f v n t, p_mapPoolView p !! f = Some v -> ~ edge v (mkOutPoint txid n) t;
}.

Lemma map_insert_new_fresh {V} (m : gmap Z V) k v :
  m !! k = None -> map_insert_new m (k, v) = <[k := v]> m.
Proof. intros E. unfold map_insert_new. simpl. by rewrite E. Qed.

Lemma AddNew_pool_inv p f txid tx h ps' :
  pool_inv p -> fresh_tx p txid tx -> p_mapTx p !! txid = None ->
  AddNew (state_at p f) txid tx f h = (MV_OK, ps') ->
  pool_inv (pool_of_state p f ps') /\ is_Some (v_mapTx (ps_view ps') !! txid).
Proof.
  intros Hp [Hid Hself Hch] Hnew E.
  destruct (AddNew_cases _ _ _ _ _ _ _ E) as [[? _]|(_ & Hin & new & pt & Hview & Hm & Hpt & Htx & _)]; [done|].
  simpl in *. rewrite map_insert_new_fresh in Hm by done.
  rewrite Hm, lookup_insert_eq in Hpt. injection Hpt as <-.
  assert (Hnv : v_mapTx (view_at p f) !! txid = None).
  { apply eq_None_not_Some. intros [q Hq]. apply view_at_owned in Hq; [congruence|done]. }
  assert (Ha : addable (view_at p f) txid (pt_tx new)).
  { rewrite Htx. split; try done. intros n t. unfold view_at.
    destruct (p_mapPoolView p !! f) as [v|] eqn:Ef; simpl; [by apply (Hch f)|].
    intros (_ & s & Hs & _). simpl in Hs; by rewrite lookup_empty in Hs. }
  split; [|rewrite Hview; simpl; rewrite lookup_insert_eq; eauto].
  apply pool_inv_update; [done|rewrite Hview; apply AddNew_inv; [done|by apply view_at_inv]|..].
  - intros t q. rewrite Hview, Hm. simpl. destruct (decide (t = txid)) as [->|].
    + by rewrite !lookup_insert_eq.
    + rewrite !lookup_insert_ne by done. by apply view_at_owned.
  - intros t. rewrite Hview. simpl. destruct (decide (t = txid)) as [->|]; [auto|].
    rewrite lookup_insert_ne by done. auto.
  - intros t q _ Hq. rewrite Hm, lookup_insert_ne; [done|]. congruence.
Qed.

Lemma touch_inv p f : pool_inv p -> pool_inv (touch p f).
Proof.
  intros Hp. apply pool_inv_update; auto using view_at_inv. intros t pt. by apply view_at_owned.
Qed.
End ok.

End TxPoolOk.
