(* ===== verification/TxPoolSync.v ===== *)
(** * Theorems of the transaction pool

    The properties of CTxPool (src/src/txpool.cpp): the pool never holds two
    transactions that spend the same output, adding, removing and confirming
    transactions keep it so, and the view's selections for a block.  The last
    section states what the code does where it departs from that. *)

From S2P Require Import Prelude Stream Destination Transaction Block Base TxPool.

Import TxPool TxPoolViewOk TxPoolOk.

Module TxPoolSync.

Section sync.
Context `{ICoreProtocol, IWorldLine}.
Context (CryptoHash : list Z -> Z).

Definition sview (s : sync_state) : CTxPoolView := ps_view (sy_ps s).



















Lemma erase_list_lookup (l : list Z) (m : gmap Z CPooledTx) t :
  foldl (fun m t => delete t m) m l !! t = if decide (t ∈ l) then None else m !! t.
Proof.
  revert m. induction l as [|x l IH]; intros m; simpl; [done|]. rewrite IH.
  destruct (decide (t = x)) as [->|].
  - rewrite lookup_delete_eq. repeat case_decide; set_solver.
  - rewrite lookup_delete_ne by done. repeat case_decide; set_solver.
Qed.


Lemma Push_inv p tx err r p' :
  pool_inv p -> fresh_tx p (Tx.GetHash CryptoHash tx) tx ->
  Push CryptoHash p tx = (err, r, p') -> pool_inv p'.
Proof.
  intros Hp Hf. unfold Push. destruct (p_mapTx p !! _) eqn:Enew; [by intros [= <- <- <-]|].
  destruct (Tx.IsMintTx tx); [by intros [= <- <- <-]|].
  destruct (GetBlockLocation _) as [[f h]|]; [|by intros [= <- <- <-]].
  destruct (AddNew _ _ _ _ _) as [e ps] eqn:E.
  assert (Hps : pool_inv (pool_of_state p f ps)).
  { destruct (AddNew_cases _ _ _ _ _ _ _ E) as [[_ ->]|[-> _]].
    - by apply (touch_inv p f).
    - by eapply AddNew_pool_inv. }
  destruct e; try (by intros [= <- <- <-]). destruct (TxPoolView.Get _ _); by intros [= <- <- <-].
Qed.

End sync.

(** ** Reachable pools *)



Definition pool_init : CTxPool := mkPool ∅ ∅ 0.

Lemma pool_empty_inv seq : pool_inv (mkPool ∅ ∅ seq).
Proof.
  split; simpl.
  - intros f v Hf. by rewrite lookup_empty in Hf.
  - intros f v t pt Hf. by rewrite lookup_empty in Hf.
  - intros f1 f2 v1 v2 t _ Hf. by rewrite lookup_empty in Hf.
Qed.



(** ** A sample pool *)

Definition sample_tx : CTransaction := Tx.sample_tx.

Definition sample_hash (m : list Z) : Z := Z.of_nat (length m).

Definition sample_protocol : ICoreProtocol := {| VerifyTransaction _ _ _ := MV_OK |}.

(** A chain of one fork in which every output exists. *)
Definition sample_line : IWorldLine := {|
  GetBlockLocation _ := Some (1, 0);
  GetTxUnspent _ vin out :=
    Some (imap (fun i o => if Tx.output_IsNull o then mkTxOutput (mkDest 1 9) 1100000 0 0 else o) out)
|}.

Definition sample_pool : CTxPool := (@Push sample_protocol sample_line sample_hash pool_init sample_tx).2.

Lemma sample_fresh : fresh_tx pool_init (Tx.GetHash sample_hash sample_tx) sample_tx.
Proof.
  split.
  - vm_compute. done.
  - intros o Ho. simpl in Ho. apply list_elem_of_singleton in Ho as ->. vm_compute. done.
  - intros f v n t E. simpl in E. by rewrite lookup_empty in E.
Qed.

Lemma sample_push :
  @Push sample_protocol sample_line sample_hash pool_init sample_tx =
  (MV_OK, Some (1, mkDest 1 9, 1100000), sample_pool).
Proof. vm_cast_no_check (eq_refl (MV_OK, Some (1, mkDest 1 9, 1100000), sample_pool)). Qed.

Lemma sample_pool_inv : pool_inv sample_pool.
Proof. exact (Push_inv sample_hash _ _ _ _ _ (pool_empty_inv 0) sample_fresh sample_push). Qed.

Definition sample_pooled : CPooledTx :=
  pooled_of_asm (mkAssembledTx sample_tx (mkDest 1 9) 1100000 (-1)) 1.

Lemma sample_view :
  v_mapTx (view_at sample_pool 1) = {[ Tx.GetHash sample_hash sample_tx := sample_pooled ]}.
Proof. vm_compute. reflexivity. Qed.



(** [Push] of a transaction the pool has not seen keeps the pool
    consistent; when it fails it leaves the transactions of the pool and of
    every fork as they were; when it succeeds the transaction is in the view of
    the fork of its anchor, its inputs were free there and are now marked as
    spent by it. *)
Theorem Push_spec (C : ICoreProtocol) (W : IWorldLine) (CryptoHash : list Z -> Z)
    (p p' : CTxPool) (tx : CTransaction) (err : MvErr) r :
  pool_inv p -> fresh_tx p (Tx.GetHash CryptoHash tx) tx ->
  Push CryptoHash p tx = (err, r, p') ->
  pool_inv p' /\
  (err <> MV_OK -> p_mapTx p' = p_mapTx p /\ forall f, view_at p' f = view_at p f) /\
  (err = MV_OK -> exists f h pt, GetBlockLocation (tx_hashAnchor tx) = Some (f, h) /\
     v_mapTx (view_at p' f) !! Tx.GetHash CryptoHash tx = Some pt /\ pt_tx pt = tx /\
     forall o, o ∈ prevouts tx ->
       edge (view_at p' f) o (Tx.GetHash CryptoHash tx) /\ forall t, ~ edge (view_at p f) o t).
Proof.
  intros Hp Hf E. assert (Hp' : pool_inv p') by by eapply Push_inv. split; [done|].
  revert E. unfold Push. destruct (p_mapTx p !! _) eqn:Enew; [by intros [= <- <- <-]|].
  destruct (Tx.IsMintTx tx); [by intros [= <- <- <-]|].
  destruct (GetBlockLocation _) as [[f h]|]; [|by intros [= <- <- <-]].
  destruct (AddNew _ _ _ _ _) as [e ps] eqn:E.
  destruct (AddNew_cases _ _ _ _ _ _ _ E) as [[He ->]|(-> & Hin & new & pt & Hv & Hm & Hpt & Htx & _)].
  - intros E'. assert (err = e /\ p' = touch p f) as [-> ->] by (destruct e; first [done | by injection E' as <- <- <-]).
    split; [|done]. intros _. split; [done|]. intros f'. unfold view_at, touch. simpl.
    destruct (decide (f' = f)) as [->|]; [by rewrite lookup_insert_eq|by rewrite lookup_insert_ne].
  - destruct (AddNew_pool_inv p f _ tx h ps Hp Hf Enew E) as [_ [q Hq]].
    unfold TxPoolView.Get. rewrite Hq. intros [= <- <- <-]. split; [done|]. intros _.
    simpl in Hm. rewrite map_insert_new_fresh in Hm by done.
    rewrite Hm, lookup_insert_eq in Hpt. injection Hpt as <-.
    unfold pool_of_state. exists f, h, new. rewrite view_at_insert.
    rewrite Hv in Hq |- *. simpl in Hq |- *. rewrite lookup_insert_eq. split_and!; [done..|].
    intros o Ho. split; [|intros t; by apply Hin].
    assert (Hpv : view_inv (ps_view ps)).
    { rewrite <- (view_at_insert p f (ps_view ps) (ps_mapTx ps) (ps_seq ps)). by apply view_at_inv. }
    rewrite Hv in Hpv. apply Hpv. exists new. simpl. by rewrite lookup_insert_eq, Htx.
Qed.

Lemma Push_spec_witness :
  exists pt, v_mapTx (view_at sample_pool 1) !! Tx.GetHash sample_hash sample_tx = Some pt /\ pt_tx pt = sample_tx.
Proof.
  destruct (Push_spec sample_protocol sample_line sample_hash pool_init sample_pool sample_tx MV_OK
    (Some (1, mkDest 1 9, 1100000))) as (_ & _ & H).
  - apply pool_empty_inv.
  - apply sample_fresh.
  - apply sample_push.
  - destruct (H eq_refl) as (f & h & pt & Hl & Hv & Htx & _). injection Hl as <- <-. exists pt. split; [exact Hv|exact Htx].
Defined.

(** C14: [InvalidateSpent] terminates and removes from a consistent view
    exactly the transactions that spend the output, directly or through the
    outputs of one another: each of them is reported once, every other
    transaction stays and the spent marks are those of the transactions that
    stay. *)
Theorem InvalidateSpent_descendants (v : CTxPoolView) (out : CTxOutPoint) (acc : list Z) :
  view_inv v ->
  exists v' inv, TxPoolView.InvalidateSpent v out acc = Some (v', acc ++ inv) /\
    view_inv v' /\ NoDup inv /\ (forall t, t ∈ inv <-> descends v out t) /\
    (forall t, v_mapTx v' !! t = if decide (t ∈ inv) then None else v_mapTx v !! t) /\
    (forall o t, edge v' o t <-> t ∉ inv /\ edge v o t).
Proof.
  intros Hv. destruct (InvalidateSpent_spec v out acc Hv) as (v' & inv & E & Hv' & Hd & Hnd & _ & Hm & He).
  exists v', inv. done.
Qed.

Lemma InvalidateSpent_descendants_witness :
  exists v', TxPoolView.InvalidateSpent (view_at sample_pool 1) (mkOutPoint (2 ^ 255) 1) [] =
    Some (v', [Tx.GetHash sample_hash sample_tx]).
Proof.
  destruct (InvalidateSpent_descendants (view_at sample_pool 1) (mkOutPoint (2 ^ 255) 1) [])
    as (v' & inv & E & _).
  - apply view_at_inv, sample_pool_inv.
  - exists v'. rewrite E. apply (f_equal (fun r => snd <$> r)) in E. vm_compute in E.
    injection E as E. simpl. rewrite <- E. vm_compute. reflexivity.
Defined.




(** ** Selecting transactions for a block *)

Section arrange.
Context (p : CPooledTx -> bool).

Notation step := (fun m (e : Z * CPooledTx) =>
  if p e.2 then CWalleveStream.map_insert_new m (pt_nSequenceNumber e.2, e) else m).

Lemma sequence_fold_sound l (m : gmap Z (Z * CPooledTx)) s e :
  foldl step m l !! s = Some e -> m !! s = Some e \/ (e ∈ l /\ p e.2 = true /\ pt_nSequenceNumber e.2 = s).
Proof.
  revert m. induction l as [|x l IH]; intros m; simpl; [by left|]. intros Hl.
  apply IH in Hl as [Hl|(? & ? & ?)]; [|right; split_and!; [by right|done..]].
  destruct (p x.2) eqn:Ep; [|by left]. unfold CWalleveStream.map_insert_new in Hl. simpl in Hl.
  destruct (m !! pt_nSequenceNumber x.2) eqn:E; [by left|].
  apply lookup_insert_Some in Hl as [[<- <-]|[_ ?]]; [|by left]. right. split_and!; [by left|done..].
Qed.

Lemma sequence_fold_keeps l (m : gmap Z (Z * CPooledTx)) s e :
  m !! s = Some e -> foldl step m l !! s = Some e.
Proof.
  revert m. induction l as [|x l IH]; intros m Hm; simpl; [done|]. apply IH.
  destruct (p x.2); [|done]. unfold CWalleveStream.map_insert_new. simpl.
  destruct (m !! pt_nSequenceNumber x.2) eqn:E; [done|]. rewrite lookup_insert_ne; [done|]. congruence.
Qed.

Lemma sequence_fold_complete l (m : gmap Z (Z * CPooledTx)) e :
  e ∈ l -> p e.2 = true -> is_Some (foldl step m l !! pt_nSequenceNumber e.2).
Proof.
  revert m. induction l as [|x l IH]; intros m He Hp; simpl; [by apply elem_of_nil in He|].
  apply elem_of_cons in He as [->|He]; [|by apply IH]. rewrite Hp.
  unfold CWalleveStream.map_insert_new. simpl.
  destruct (m !! pt_nSequenceNumber x.2) as [y|] eqn:E; [exists y; by apply sequence_fold_keeps|].
  exists x. apply sequence_fold_keeps. by rewrite lookup_insert_eq.
Qed.

(** With distinct sequence numbers the map holds exactly the transactions
    that satisfy the predicate, each under its number. *)
Lemma sequence_map_lookup v s t pt :
  (forall t1 t2 p1 p2, v_mapTx v !! t1 = Some p1 -> v_mapTx v !! t2 = Some p2 ->
     pt_nSequenceNumber p1 = pt_nSequenceNumber p2 -> t1 = t2) ->
  TxPoolView.sequence_map p v !! s = Some (t, pt) <->
  v_mapTx v !! t = Some pt /\ p pt = true /\ pt_nSequenceNumber pt = s.
Proof.
  intros Hu. unfold TxPoolView.sequence_map. split.
  - intros Hl. apply sequence_fold_sound in Hl as [Hl|(He & Hp & Hs)]; [by rewrite lookup_empty in Hl|].
    apply elem_of_map_entries in He. done.
  - intros (Ht & Hp & <-).
    destruct (sequence_fold_complete (CWalleveStream.map_entries Z.lt (v_mapTx v)) ∅ (t, pt)) as [[t' pt'] E];
      [by apply elem_of_map_entries|done|]. simpl in E. rewrite E.
    apply sequence_fold_sound in E as [E|(He & _ & Hs)]; [by rewrite lookup_empty in E|].
    apply elem_of_map_entries in He. simpl in Hs. assert (t' = t) as -> by by eapply Hu. congruence.
Qed.
End arrange.

Definition total_size (l : list CPooledTx) : Z := foldr (fun p n => pt_nSerializeSize p + n) 0 l.

Definition total_fee (l : list CPooledTx) : Z := foldl (fun n p => i64 (n + tx_nTxFee (pt_tx p))) 0 l.

Lemma total_size_cons p l : total_size (p :: l) = pt_nSerializeSize p + total_size l.
Proof. done. Qed.

Lemma arrange_loop_spec cands vtx sz fee max :
  0 <= sz <= max -> max < 2 ^ 63 -> Forall (fun c => 0 <= pt_nSerializeSize c.2.2 < 2 ^ 63) cands ->
  exists k, TxPoolView.arrange_loop cands vtx sz fee max =
      (vtx ++ map pt_tx (take k cands).*2.*2, foldl (fun n p => i64 (n + tx_nTxFee (pt_tx p))) fee (take k cands).*2.*2) /\
    sz + total_size (take k cands).*2.*2 <= max /\
    (forall c, cands !! k = Some c -> max < sz + total_size (take k cands).*2.*2 + pt_nSerializeSize c.2.2).
Proof.
  intros Hsz Hmax Hc. revert vtx sz fee Hsz. induction Hc as [|[s [t p]] l Hp Hl IH]; intros vtx sz fee Hsz.
  - exists 0%nat. simpl. rewrite app_nil_r. split_and!; [done|lia|done].
  - simpl in Hp. cbn [TxPoolView.arrange_loop].
    assert (Ew : u64 (sz + pt_nSerializeSize p) = sz + pt_nSerializeSize p) by (apply wrap_small; split; lia).
    rewrite Ew. destruct (Z.ltb_spec max (sz + pt_nSerializeSize p)).
    + exists 0%nat. simpl. rewrite app_nil_r. split_and!; [done|lia|]. intros c [= <-]. simpl. lia.
    + destruct (IH (vtx ++ [pt_tx p]) (sz + pt_nSerializeSize p) (i64 (fee + tx_nTxFee (pt_tx p))))
        as (k & E & Hle & Hnext); [lia|].
      exists (S k). rewrite E, <- app_assoc. cbn [take fmap list_fmap snd]. rewrite total_size_cons.
      split_and!; [done|lia|]. intros c Hk. specialize (Hnext c Hk). lia.
Qed.

(** [ArrangeBlockTx] appends to the block transactions of the fork's pool
    that are not later than the block time, in increasing order of their
    sequence numbers, whose sizes add up to at most [nMaxSize], and returns the
    sum of their fees; with distinct sequence numbers no transaction in time is
    passed over in favour of a later one. *)
Theorem ArrangeBlockTx_spec (v : CTxPoolView) (vtx : list CTransaction) (nBlockTime nMaxSize : Z) :
  (forall t1 t2 p1 p2, v_mapTx v !! t1 = Some p1 -> v_mapTx v !! t2 = Some p2 ->
     pt_nSequenceNumber p1 = pt_nSequenceNumber p2 -> t1 = t2) ->
  (forall t pt, v_mapTx v !! t = Some pt -> 0 <= pt_nSerializeSize pt < 2 ^ 63) ->
  0 <= nMaxSize < 2 ^ 63 ->
  exists sel, TxPoolView.ArrangeBlockTx v vtx nBlockTime nMaxSize = (vtx ++ map pt_tx sel, total_fee sel) /\
    total_size sel <= nMaxSize /\
    StronglySorted (fun a b => pt_nSequenceNumber a < pt_nSequenceNumber b) sel /\
    (forall pt, pt ∈ sel -> exists t, v_mapTx v !! t = Some pt /\ tx_nTimeStamp (pt_tx pt) <= nBlockTime) /\
    (forall pt t' pt', pt ∈ sel -> v_mapTx v !! t' = Some pt' -> tx_nTimeStamp (pt_tx pt') <= nBlockTime ->
       pt_nSequenceNumber pt' < pt_nSequenceNumber pt -> pt' ∈ sel).
Proof.
  intros Hu Hsz Hmax. unfold TxPoolView.ArrangeBlockTx.
  set (intime := fun p => tx_nTimeStamp (pt_tx p) <=? nBlockTime).
  pose proof (sequence_map_lookup intime v) as Hlk. set (sm := TxPoolView.sequence_map intime v) in *.
  pose proof (map_entries_sorted sm) as Hsort. pose proof (elem_of_map_entries Z.lt sm) as Hel.
  set (cands := CWalleveStream.map_entries Z.lt sm) in *.
  assert (Hc : forall s t pt, (s, (t, pt)) ∈ cands <->
    v_mapTx v !! t = Some pt /\ tx_nTimeStamp (pt_tx pt) <= nBlockTime /\ pt_nSequenceNumber pt = s).
  { intros s t pt. rewrite Hel, Hlk by done. unfold intime. rewrite Z.leb_le. done. }
  destruct (arrange_loop_spec cands vtx 0 0 nMaxSize) as (k & E & Hle & _); [lia|lia| |].
  { apply Forall_forall. intros [s [t pt]] He. apply Hc in He as (Ht & _). by apply (Hsz t). }
  assert (Hin : forall pt, pt ∈ (take k cands).*2.*2 <-> exists s t, (s, (t, pt)) ∈ take k cands).
  { intros pt. split.
    - intros ([t q] & E1 & He1)%list_elem_of_fmap.
      apply list_elem_of_fmap in He1 as ([s e] & E2 & He). simpl in *. subst. eauto.
    - intros (s & t & He). apply (list_elem_of_fmap_2 snd _ (t, pt)). by apply (list_elem_of_fmap_2 snd _ (s, (t, pt))). }
  pose proof (subseteq_take k cands) as Htake.
  exists (take k cands).*2.*2. split_and!; [done|done| | |].
  - rewrite <- list_fmap_compose. apply (StronglySorted_map _ (fun a b => a.1 < b.1)).
    + intros [s1 [t1 p1]] [s2 [t2 p2]] H1%Htake H2%Htake. apply Hc in H1 as (_ & _ & <-), H2 as (_ & _ & <-). done.
    + rewrite <- (take_drop k cands) in Hsort. by eapply StronglySorted_app_1_l.
  - intros pt (s & t & He%Htake)%Hin. apply Hc in He as (? & ? & _). eauto.
  - intros pt t' pt' (s & t & He)%Hin Ht' Htime Hlt. apply Hin. exists (pt_nSequenceNumber pt'), t'.
    pose proof (proj1 (Hc _ _ _) (Htake _ He)) as (_ & _ & Hs).
    apply (sorted_prefix_closed fst cands k _ _ Hsort He); [by apply Hc|simpl; lia].
Qed.

Lemma ArrangeBlockTx_spec_witness :
  exists sel, TxPoolView.ArrangeBlockTx (view_at sample_pool 1) [] 1546300800 1000 =
    ([] ++ map pt_tx sel, total_fee sel) /\ total_size sel <= 1000.
Proof.
  destruct (ArrangeBlockTx_spec (view_at sample_pool 1) [] 1546300800 1000) as (sel & E & Hs & _).
  - intros t1 t2 p1 p2. rewrite sample_view, !lookup_singleton_Some. intros [<- _] [<- _] _. reflexivity.
  - intros t pt. rewrite sample_view, lookup_singleton_Some. intros [_ <-].
    apply (bool_decide_unpack _). vm_compute. exact I.
  - lia.
  - exists sel. split; [exact E|exact Hs].
Defined.

(** ** Termination of the synchronisation *)

Lemma foldl_option_total {S A} (step : S -> A -> option S) (l : list A) (s : S) :
  (forall s a, is_Some (step s a)) -> is_Some (foldl (fun s a => s ≫= fun s => step s a) (Some s) l).
Proof.
  intros Hst. destruct (foldl_option_inv step (fun _ => True) (fun _ _ => True) (fun _ _ => True) l s)
    as (s' & E & _); eauto. intros s' a _ _. destruct (Hst s' a) as [s'' E]. eauto.
Qed.

Lemma sy_invalidate_total s o : is_Some (sy_invalidate s o).
Proof.
  unfold sy_invalidate. destruct (InvalidateSpent_total (ps_view (sy_ps s)) o (sy_vInvalidTx s)) as [[v inv] ->].
  eauto.
Qed.

Lemma sync_new_tx_total CryptoHash S h s e : is_Some (sync_new_tx CryptoHash S h s e).
Proof.
  destruct e as [tx ctx]. unfold sync_new_tx. repeat case_match; eauto.
  destruct (foldl_option_total sy_invalidate (prevouts tx) s) as [s' ->]; [apply sy_invalidate_total|].
  eauto.
Qed.

Lemma sync_removed_tx_total `{ICoreProtocol, IWorldLine} CryptoHash S f h s tx :
  is_Some (sync_removed_tx CryptoHash S f h s tx).
Proof.
  assert (Hi : forall txid vin, is_Some (s ← sy_invalidate s (mkOutPoint txid 0);
    s ← sy_invalidate s (mkOutPoint txid 1); Some (sy_remove s txid vin))).
  { intros txid vin. destruct (sy_invalidate_total s (mkOutPoint txid 0)) as [s1 ->]. simpl.
    destruct (sy_invalidate_total s1 (mkOutPoint txid 1)) as [s2 ->]. eauto. }
  unfold sync_removed_tx. case_match; [eauto|].
  destruct (TxPoolView.GetSpent _ _) as [b0 s0]. destruct (TxPoolView.GetSpent _ _) as [b1 s1].
  destruct (AddNew _ _ _ _ _) as [[] ps]; first [apply Hi | eauto].
Qed.

(** [SynchronizeWorldLine] terminates on every pool and every update,
    removed blocks included: the worklist of [InvalidateSpent] is bounded by
    two entries for every transaction of the view. *)
Theorem SynchronizeWorldLine_total (C : ICoreProtocol) (W : IWorldLine) (CryptoHash : list Z -> Z)
    (p : CTxPool) (upd : CWorldLineUpdate) :
  exists p' chg, SynchronizeWorldLine CryptoHash p upd = Some (p', chg).
Proof.
  unfold SynchronizeWorldLine. set (s0 := mkSync _ _ _ _ _). set (h0 := i32 _).
  assert (H1 : forall bs s h, exists s' h', foldl (sync_new_block CryptoHash (upd_setTxUpdate upd)) (Some (s, h)) bs = Some (s', h')).
  { induction bs as [|b bs IH]; intros s h; [by eexists _, _|]. cbn [foldl].
    unfold sync_new_block at 2. cbn [mbind option_bind].
    set (s1 := if negb _ then _ else s).
    destruct (foldl_option_total (sync_new_tx CryptoHash (upd_setTxUpdate upd) h) (block_txs b) s1) as [s2 ->];
      [apply sync_new_tx_total|]. apply IH. }
  assert (H2 : forall bs s, is_Some (foldl (sync_removed_block CryptoHash (upd_setTxUpdate upd)
      (upd_hashFork upd) (upd_nLastBlockHeight upd)) (Some s) bs)).
  { induction bs as [|b bs IH]; intros s; [by eexists|]. cbn [foldl].
    unfold sync_removed_block at 2.
    destruct (foldl_option_total (sync_removed_tx CryptoHash (upd_setTxUpdate upd) (upd_hashFork upd)
      (upd_nLastBlockHeight upd)) (rev (b_vtx (bex_block b))) s) as [s1 ->]; [apply sync_removed_tx_total|].
    cbn [mbind option_bind]. case_match; [|apply IH].
    destruct (sy_invalidate_total s1 (mkOutPoint (Tx.GetHash CryptoHash (b_txMint (bex_block b))) 0)) as [s2 ->].
    apply IH. }
  destruct (H1 (rev (upd_vBlockAddNew upd)) s0 h0) as (s1 & h1 & ->). cbn [mbind option_bind].
  destruct (H2 (upd_vBlockRemove upd) s1) as [s2 ->]. cbn [mbind option_bind].
  destruct (foldl sync_erase _ _). eauto.
Qed.

(** ** Where the pool departs from what it means to do *)

(** [Pop] removes a transaction from the view of its fork but never from
    the pool itself (only the transactions that descend from it are erased), so
    the pool still reports it as present and refuses it when it is pushed
    again. *)
Theorem Pop_keeps_tx (C : ICoreProtocol) (W : IWorldLine) (CryptoHash : list Z -> Z)
    (p : CTxPool) (tx : CTransaction) (pt : CPooledTx) (f h : Z) :
  let txid := Tx.GetHash CryptoHash tx in
  pool_inv p -> p_mapTx p !! txid = Some pt ->
  GetBlockLocation (tx_hashAnchor (pt_tx pt)) = Some (f, h) ->
  exists p', Pop p txid = Some p' /\ v_mapTx (view_at p' f) !! txid = None /\
    Exists p' txid = true /\ Push CryptoHash p' tx = (MV_ERR_ALREADY_HAVE, None, p').
Proof.
  intros txid Hp Hpt Hloc. unfold Pop. rewrite Hpt, Hloc. cbv zeta.
  set (v0 := TxPoolView.Remove _ _).
  assert (Hv0 : view_inv v0) by by apply Remove_inv, view_at_inv.
  assert (Hn0 : v_mapTx v0 !! txid = None) by (unfold v0; by rewrite Remove_mapTx, lookup_delete_eq).
  destruct (InvalidateSpent_spec v0 (mkOutPoint txid 0) [] Hv0) as (v1 & i1 & -> & Hv1 & _ & _ & Hi1 & Hm1 & _).
  cbn [mbind option_bind app].
  destruct (InvalidateSpent_spec v1 (mkOutPoint txid 1) i1 Hv1) as (v2 & i2 & -> & _ & _ & _ & Hi2 & Hm2 & _).
  cbn [mbind option_bind].
  assert (Hn1 : v_mapTx v1 !! txid = None) by (rewrite Hm1, Hn0; by case_decide).
  assert (Hni : txid ∉ i1 ++ i2).
  { intros [Hx|Hx]%elem_of_app; [apply Hi1 in Hx|apply Hi2 in Hx]; destruct Hx; congruence. }
  eexists. split; [done|]. rewrite view_at_insert.
  assert (Hl : foldl (fun m t => delete t m) (p_mapTx p) (i1 ++ i2) !! txid = Some pt)
    by (by rewrite erase_list_lookup, decide_False).
  split_and!.
  - rewrite Hm2, Hn1. by case_decide.
  - unfold Exists. simpl. rewrite Hl. done.
  - unfold Push. fold txid. cbn [p_mapTx]. by rewrite Hl.
Qed.

Lemma Pop_keeps_tx_witness :
  exists p', @Pop sample_line sample_pool (Tx.GetHash sample_hash sample_tx) = Some p' /\
    Exists p' (Tx.GetHash sample_hash sample_tx) = true.
Proof.
  destruct (Pop_keeps_tx sample_protocol sample_line sample_hash sample_pool sample_tx sample_pooled 1 0)
    as (p' & E & _ & Hx & _).
  - apply sample_pool_inv.
  - vm_compute. reflexivity.
  - reflexivity.
  - exists p'. split; [exact E|exact Hx].
Defined.

(** an output of a pooled transaction that is unspent when the transaction
    is confirmed stays recorded as unspent: a later block that spends it
    ([InvalidateSpent] of the input) does not remove the record, and the pool
    still offers the output as unspent.  Since [GetTxUnspent] keeps the entries
    the pool filled in, a transaction that spends it again is accepted without
    the chain being asked. *)
Theorem stale_output (v : CTxPoolView) (txid : Z) (pt : CPooledTx) (o : CTxOutPoint) (out : CTxOutput) :
  view_inv v -> v_mapTx v !! txid = Some pt -> op_hash o = txid ->
  v_mapSpent v !! o = Some (TxPoolView.spent_of_output out) -> Tx.output_IsNull out = false ->
  o ∉ prevouts (pt_tx pt) ->
  exists v', TxPoolView.InvalidateSpent (TxPoolView.Remove v txid) o [] = Some (v', []) /\
    v_mapTx v' !! txid = None /\
    TxPoolView.IsSpent v' o = false /\ TxPoolView.GetUnspent v' o Tx.output_null = (true, out).
Proof.
  intros Hv Hpt Ho Hs Hnull Hni.
  assert (Hsp : v_mapSpent (TxPoolView.Remove v txid) !! o = Some (TxPoolView.spent_of_output out)).
  { unfold TxPoolView.Remove, TxPoolView.Get. rewrite Hpt. simpl. clear -Hs Hni.
    revert v Hs. induction (prevouts (pt_tx pt)) as [|x l IH]; intros v Hs; simpl; [done|].
    apply not_elem_of_cons in Hni as [Hne Hni]. apply IH; [done|].
    unfold TxPoolView.SetUnspent. destruct (TxPoolView.Get _ _); simpl;
      [by rewrite lookup_insert_ne|by rewrite lookup_delete_ne]. }
  set (v1 := TxPoolView.Remove v txid) in *.
  assert (Hone : TxPoolView.invalidate_one v1 o = (v1, [], [])).
  { unfold TxPoolView.invalidate_one, TxPoolView.GetSpent. by rewrite Hsp. }
  exists v1. unfold TxPoolView.InvalidateSpent. rewrite Nat.add_comm. simpl. rewrite Hone.
  split_and!.
  - by destruct (size (v_mapTx v1) + (size (v_mapTx v1) + 0))%nat.
  - unfold v1. by rewrite Remove_mapTx, lookup_delete_eq.
  - unfold TxPoolView.IsSpent. by rewrite Hsp.
  - unfold TxPoolView.GetUnspent. rewrite Hsp. simpl. by rewrite Hnull.
Qed.

Lemma stale_output_witness :
  exists v', TxPoolView.GetUnspent v' (mkOutPoint (Tx.GetHash sample_hash sample_tx) 0) Tx.output_null =
    (true, mkTxOutput (mkDest 1 99) 1000000 1546300800 0) /\
    v_mapTx v' !! Tx.GetHash sample_hash sample_tx = None.
Proof.
  destruct (stale_output (view_at sample_pool 1) (Tx.GetHash sample_hash sample_tx) sample_pooled
    (mkOutPoint (Tx.GetHash sample_hash sample_tx) 0) (mkTxOutput (mkDest 1 99) 1000000 1546300800 0))
    as (v' & _ & Hn & _ & Hu).
  - apply view_at_inv, sample_pool_inv.
  - vm_compute. reflexivity.
  - reflexivity.
  - vm_compute. reflexivity.
  - reflexivity.
  - intros Hx. apply list_elem_of_singleton in Hx. vm_compute in Hx. discriminate Hx.
  - exists v'. split; [exact Hu|exact Hn].
Defined.

(** when a block is removed and one of its transactions returns to the
    pool while its second output is spent by a pooled transaction and its first
    is not, the code marks the second output with the spender of the first
    ([spent0] for [spent1]): the output is not marked as spent although the
    pooled transaction has it as an input, and the view is no longer
    consistent. *)
Theorem reinstated_second_output (C : ICoreProtocol) (W : IWorldLine) (CryptoHash : list Z -> Z)
    (setTxUpdate : gset Z) (f h : Z) (s : sync_state) (tx : CTransaction) (ps : pool_state) (c : Z) :
  let txid := Tx.GetHash CryptoHash tx in
  view_inv (sview s) -> txid ∉ setTxUpdate -> v_mapTx (sview s) !! txid = None ->
  edge (sview s) (mkOutPoint txid 1) c -> TxPoolView.IsSpent (sview s) (mkOutPoint txid 0) = false ->
  AddNew (sy_ps s) txid tx f h = (MV_OK, ps) ->
  exists s' pc, sync_removed_tx CryptoHash setTxUpdate f h s tx = Some s' /\
    v_mapTx (sview s') !! c = Some pc /\ mkOutPoint txid 1 ∈ prevouts (pt_tx pc) /\
    TxPoolView.IsSpent (sview s') (mkOutPoint txid 1) = false /\ ~ view_inv (sview s').
Proof.
  intros txid Hv Hu Hnew Hc H0 Ha. unfold sync_removed_tx. fold txid.
  rewrite bool_decide_eq_false_2 by done. fold (sview s).
  assert (E0 : (TxPoolView.GetSpent (sview s) (mkOutPoint txid 0)).2 = 0).
  { unfold TxPoolView.GetSpent, TxPoolView.IsSpent, TxPoolView.spent_IsSpent in *.
    destruct (v_mapSpent (sview s) !! _); [|done]. simpl. bool_to_prop. done. }
  destruct (TxPoolView.GetSpent (sview s) (mkOutPoint txid 0)) as [b0 spent0]. simpl in E0. subst spent0.
  rewrite (proj2 (GetSpent_edge _ _ _) Hc), Ha. destruct Hc as (Hc0 & Hc').
  rewrite (proj2 (Z.eqb_neq _ _) Hc0). simpl.
  pose proof (proj1 (Hv _ _) (conj Hc0 Hc')) as (pc & Hpc & Hin).
  destruct (AddNew_cases _ _ _ _ _ _ _ Ha) as [[? _]|(_ & _ & new & pt & Hview & _)]; [done|].
  assert (Hpc' : v_mapTx (ps_view ps) !! c = Some pc).
  { rewrite Hview. simpl. rewrite lookup_insert_ne; [done|]. intros <-. unfold sview in Hpc, Hnew. congruence. }
  eexists _, pc. split; [reflexivity|]. unfold sview. simpl.
  assert (Hns : TxPoolView.IsSpent (TxPoolView.SetSpent (ps_view ps) (mkOutPoint txid 1) 0) (mkOutPoint txid 1) = false)
    by (unfold TxPoolView.IsSpent; simpl; by rewrite lookup_insert_eq).
  split_and!; [done|done|done|].
  intros Hbad. assert (He : exists t, edge (TxPoolView.SetSpent (ps_view ps) (mkOutPoint txid 1) 0) (mkOutPoint txid 1) t).
  { exists c. apply Hbad. eauto. }
  apply IsSpent_edge in He. congruence.
Qed.

(** A transaction in the chain and one in the pool that spends its second
    output. *)
Definition parent_tx : CTransaction :=
  mkTx 1 0 100 0 7 [mkTxIn (mkOutPoint 5 0)] (mkDest 1 99) 400000 100 [] [].

Definition child_tx (n : Z) : CTransaction :=
  mkTx 1 0 200 0 7 [mkTxIn (mkOutPoint (Tx.GetHash sample_hash parent_tx) n)] (mkDest 1 98) 1000 100 [] [1].

Definition child_pool (n : Z) : CTxPool :=
  (@Push sample_protocol sample_line sample_hash pool_init (child_tx n)).2.

Definition child_sync (n : Z) : sync_state := mkSync (state_at (child_pool n) 1) [] ∅ [] [].

Lemma child_pool_inv : pool_inv (child_pool 1).
Proof.
  apply (@Push_inv sample_protocol sample_line sample_hash pool_init (child_tx 1) MV_OK
    (Some (1, mkDest 1 9, 1100000))).
  - apply pool_empty_inv.
  - split; [vm_compute; done| |intros f v n t E; simpl in E; by rewrite lookup_empty in E].
    intros o Ho. apply list_elem_of_singleton in Ho as ->. vm_compute. done.
  - vm_cast_no_check (eq_refl (MV_OK, Some (1, mkDest 1 9, 1100000), child_pool 1)).
Qed.

Lemma reinstated_second_output_witness :
  exists s' pc, @sync_removed_tx sample_protocol sample_line sample_hash ∅ 1 0 (child_sync 1) parent_tx = Some s' /\
    v_mapTx (sview s') !! Tx.GetHash sample_hash (child_tx 1) = Some pc /\ ~ view_inv (sview s').
Proof.
  destruct (reinstated_second_output sample_protocol sample_line sample_hash ∅ 1 0 (child_sync 1) parent_tx
    (@AddNew sample_protocol sample_line (sy_ps (child_sync 1)) (Tx.GetHash sample_hash parent_tx) parent_tx 1 0).2
    (Tx.GetHash sample_hash (child_tx 1))) as (s' & pc & E & Hpc & _ & _ & Hn).
  - apply (view_at_inv (child_pool 1) 1), child_pool_inv.
  - apply not_elem_of_empty.
  - vm_compute. reflexivity.
  - split; [vm_compute; discriminate|]. eexists. split; vm_compute; reflexivity.
  - vm_compute. reflexivity.
  - vm_compute. reflexivity.
  - exists s', pc. split; [exact E|]. split; [exact Hpc|exact Hn].
Defined.

(** after a reorganisation the pool offers a child before its parent: the
    transaction that returns from the removed block gets a new sequence number,
    larger than that of the pooled transaction that spends it, and
    [ArrangeBlockTx] orders by sequence number. *)
Theorem reorg_child_before_parent :
  exists p' chg,
    @SynchronizeWorldLine sample_protocol sample_line sample_hash (child_pool 0)
      (mkUpdate 1 0 0 5 100 10 0 ∅ []
         [mkBlockEx (mkBlock 1 1 100 0 0 [] Tx.SetNull [parent_tx] []) [mkTxContxt (mkDest 1 9) []]]) =
      Some (p', chg) /\
    (TxPoolView.ArrangeBlockTx (view_at p' 1) [] 300 100000).1 = [child_tx 0; parent_tx] /\
    prevouts (child_tx 0) = [mkOutPoint (Tx.GetHash sample_hash parent_tx) 0].
Proof. eexists _, _. split; [vm_compute; reflexivity|]. split; vm_compute; reflexivity. Qed.

End TxPoolSync.
