(* ===== verification/Base25519.v ===== *)
(** * 256-bit memory arithmetic of the curve code
    (src/crypto/curve25519/base25519.cpp)

    The routines take untyped pointers to 32 bytes and view them as four
    64-bit or two 128-bit words.  The 32 bytes are a [mem32], the four 64-bit
    words in memory order; [lo128] and [hi128] are the two 128-bit views, and
    [val] is the number the bytes stand for. *)

From S2P Require Import Prelude.

Notation u128 := (wrap 128).
Notation i128 := (swrap 128).

Record mem32 : Type := Mem32 { w0 : Z; w1 : Z; w2 : Z; w3 : Z }.

#[export] Instance mem32_eq_dec : EqDecision mem32.
Proof. solve_decision. Defined.

Module base25519.

Definition val (n : mem32) : Z := w0 n + 2 ^ 64 * (w1 n + 2 ^ 64 * (w2 n + 2 ^ 64 * w3 n)).

Definition wf (n : mem32) : Prop :=
  is_uint 64 (w0 n) /\ is_uint 64 (w1 n) /\ is_uint 64 (w2 n) /\ is_uint 64 (w3 n).

(** [((uint128_t ptr)n)[0]] and [[1]], and the store through such a pointer *)
Definition lo128 (n : mem32) : Z := Z.lor (w0 n) (Z.shiftl (w1 n) 64).

Definition hi128 (n : mem32) : Z := Z.lor (w2 n) (Z.shiftl (w3 n) 64).

Definition store128 (lo hi : Z) : mem32 :=
  Mem32 (u64 lo) (u64 (Z.shiftr lo 64)) (u64 hi) (u64 (Z.shiftr hi 64)).

(** The memory that holds a number, and the words of 32 bytes. *)
Definition of_Z (z : Z) : mem32 :=
  Mem32 (u64 z) (u64 (Z.shiftr z 64)) (u64 (Z.shiftr z 128)) (u64 (Z.shiftr z 192)).

Definition Zero32 : mem32 := Mem32 0 0 0 0.

Definition Copy32_u64 (x : Z) : mem32 := Mem32 x 0 0 0.

Definition Compare32 (lhs rhs : mem32) : Z :=
  if hi128 rhs <? hi128 lhs then 1
  else if hi128 lhs <? hi128 rhs then -1
  else if lo128 rhs <? lo128 lhs then 1
  else if lo128 lhs <? lo128 rhs then -1
  else 0.

Definition CompareSigned32 (lhs rhs : mem32) : Z :=
  if i128 (hi128 rhs) <? i128 (hi128 lhs) then 1
  else if i128 (hi128 lhs) <? i128 (hi128 rhs) then -1
  else if lo128 rhs <? lo128 lhs then 1
  else if lo128 lhs <? lo128 rhs then -1
  else 0.

Definition IsZero32 (n : mem32) : bool :=
  Z.lor (Z.lor (Z.lor (w0 n) (w1 n)) (w2 n)) (w3 n) =? 0.

Definition IsOne32 (n : mem32) : bool :=
  Z.lor (Z.lor (Z.lor (u64 (w0 n - 1)) (w1 n)) (w2 n)) (w3 n) =? 0.

Definition IsEven (n : mem32) : bool := Z.land (u8 (w0 n)) 1 =? 0.

Definition Half32 (n : mem32) : mem32 :=
  store128 (Z.lor (Z.shiftr (lo128 n) 1) (u128 (Z.shiftl (hi128 n) 127))) (Z.shiftr (hi128 n) 1).

Definition HalfSigned32 (n : mem32) : mem32 :=
  store128 (Z.lor (Z.shiftr (lo128 n) 1) (u128 (Z.shiftl (hi128 n) 127)))
           (u128 (Z.shiftr (i128 (hi128 n)) 1)).

(** For [b = 0] the source shifts a 128-bit word by 128, which the language
    leaves undefined; here such a shift gives 0. *)
Definition ShiftLeft32 (n : mem32) (b : Z) : mem32 :=
  if b <? 128 then
    store128 (u128 (Z.shiftl (lo128 n) b))
             (Z.lor (u128 (Z.shiftl (hi128 n) b)) (Z.shiftr (lo128 n) (128 - b)))
  else if b <? 256 then store128 0 (Z.shiftr (lo128 n) (b - 128))
  else Zero32.

(** [Add32] and [Sub32] return the output and the carry or borrow. *)
Definition Add32 (n1 n2 : mem32) : mem32 * Z :=
  let sum0 := u128 (lo128 n1 + lo128 n2) in
  let sum1 := u128 (hi128 n1 + hi128 n2) in
  let carry := if lo128 n1 <=? sum0 then 0 else 1 in
  if negb (carry =? 0) then
    let sum1 := u128 (sum1 + carry) in
    (store128 sum0 sum1, if hi128 n1 <? sum1 then 0 else 1)
  else (store128 sum0 sum1, if hi128 n1 <=? sum1 then 0 else 1).

Definition Sub32 (n1 n2 : mem32) : mem32 * Z :=
  let diff0 := u128 (lo128 n1 - lo128 n2) in
  let diff1 := u128 (hi128 n1 - hi128 n2) in
  let borrow := if lo128 n2 <=? lo128 n1 then 0 else 1 in
  if negb (borrow =? 0) then
    let diff1 := u128 (diff1 - borrow) in
    (store128 diff0 diff1, if hi128 n2 <? hi128 n1 then 0 else 1)
  else (store128 diff0 diff1, if hi128 n2 <=? hi128 n1 then 0 else 1).

Definition ReduceSigned32 (n prime : mem32) : mem32 :=
  if negb (Z.land (Z.shiftr (w3 n) 56) 0x80 =? 0) then (Add32 n prime).1
  else if 0 <=? Compare32 n prime then (Sub32 n prime).1
  else n.

(** The sixteen products of words, and the 64-bit view of that array. *)
Definition products (n1 n2 : mem32) : list Z :=
  [ w0 n1 * w0 n2;
    w0 n1 * w1 n2; w1 n1 * w0 n2;
    w0 n1 * w2 n2; w1 n1 * w1 n2; w2 n1 * w0 n2;
    w0 n1 * w3 n2; w1 n1 * w2 n2; w2 n1 * w1 n2; w3 n1 * w0 n2;
    w1 n1 * w3 n2; w2 n1 * w2 n2; w3 n1 * w1 n2;
    w2 n1 * w3 n2; w3 n1 * w2 n2;
    w3 n1 * w3 n2 ].

Definition word64 (product : list Z) (i : nat) : Z :=
  u64 (Z.shiftr (nth (i / 2) product 0) (64 * Z.of_nat (i mod 2))).

Definition Mul32 (n1 n2 : mem32) : list Z :=
  let p := word64 (products n1 n2) in
  [ p 0%nat;
    p 1%nat + p 2%nat + p 4%nat;
    p 3%nat + p 5%nat + p 6%nat + p 8%nat + p 10%nat;
    p 7%nat + p 9%nat + p 11%nat + p 12%nat + p 14%nat + p 16%nat + p 18%nat;
    p 13%nat + p 15%nat + p 17%nat + p 19%nat + p 20%nat + p 22%nat + p 24%nat;
    p 21%nat + p 23%nat + p 25%nat + p 26%nat + p 28%nat;
    p 27%nat + p 29%nat + p 30%nat;
    p 31%nat ].

(** ** What the routines compute *)

(** Arithmetic on words: the powers of two become numerals and quotients and
    remainders the equations that define them. *)
Ltac words :=
  unfold wrap, swrap, is_uint in *;
  change (2 ^ 64) with 18446744073709551616 in *;
  change (2 ^ 128) with 340282366920938463463374607431768211456 in *;
  change (2 ^ (128 - 1)) with 170141183460469231731687303715884105728 in *;
  change (2 ^ 256) with 115792089237316195423570985008687907853269984665640564039457584007913129639936 in *;
  Z.to_euclidean_division_equations; lia.

Lemma lo128_val n : wf n -> lo128 n = w0 n + 2 ^ 64 * w1 n.
Proof. intros (? & _). unfold lo128. by rewrite lor_shiftl. Qed.

Lemma hi128_val n : wf n -> hi128 n = w2 n + 2 ^ 64 * w3 n.
Proof. intros (_ & _ & ? & _). unfold hi128. by rewrite lor_shiftl. Qed.

Lemma val_128 n : wf n -> val n = lo128 n + 2 ^ 128 * hi128 n.
Proof. intros Hn. rewrite lo128_val, hi128_val by done. unfold val. words. Qed.

Lemma wf_128 n : wf n -> is_uint 128 (lo128 n) /\ is_uint 128 (hi128 n).
Proof. intros Hn. rewrite lo128_val, hi128_val by done. unfold wf in Hn. words. Qed.

Lemma mem32_val_range n : wf n -> is_uint 256 (val n).
Proof. intros Hn. pose proof (wf_128 n Hn). rewrite val_128 by done. words. Qed.

Lemma store128_wf lo hi : wf (store128 lo hi).
Proof. unfold wf, store128. cbn [w0 w1 w2 w3]. split_and!; apply wrap_range; lia. Qed.

Lemma store128_val lo hi :
  is_uint 128 lo -> is_uint 128 hi -> val (store128 lo hi) = lo + 2 ^ 128 * hi.
Proof.
  intros Hl Hh. unfold val, store128. cbn [w0 w1 w2 w3]. rewrite !Z.shiftr_div_pow2 by lia. words.
Qed.

Lemma of_Z_wf z : wf (of_Z z).
Proof. unfold wf, of_Z. cbn [w0 w1 w2 w3]. split_and!; apply wrap_range; lia. Qed.

Lemma of_Z_val z : is_uint 256 z -> val (of_Z z) = z.
Proof.
  intros Hz. unfold val, of_Z. cbn [w0 w1 w2 w3]. rewrite !Z.shiftr_div_pow2 by lia.
  change (2 ^ 192) with 6277101735386680763835789423207666416102355444464034512896. words.
Qed.

Lemma mem32_val_inj n m : wf n -> wf m -> val n = val m -> n = m.
Proof. destruct n, m. unfold wf, val. cbn [w0 w1 w2 w3]. intros Hn Hm E. f_equal; words. Qed.

Lemma Compare32_spec n m :
  wf n -> wf m ->
  Compare32 n m = match val n ?= val m with Lt => -1 | Eq => 0 | Gt => 1 end.
Proof.
  intros Hn Hm. pose proof (wf_128 n Hn). pose proof (wf_128 m Hm).
  rewrite !val_128 by done. unfold Compare32. repeat case_match_eqn; bool_to_prop;
    (rewrite Z.compare_eq_iff in * || rewrite Z.compare_lt_iff in * || rewrite Z.compare_gt_iff in *); words.
Qed.

Lemma Add32_spec n m :
  wf n -> wf m ->
  wf (Add32 n m).1 /\ 0 <= (Add32 n m).2 <= 1 /\
  val (Add32 n m).1 + 2 ^ 256 * (Add32 n m).2 = val n + val m.
Proof.
  intros Hn Hm. pose proof (wf_128 n Hn). pose proof (wf_128 m Hm).
  rewrite (val_128 n), (val_128 m) by done. unfold Add32.
  destruct (Z.leb_spec (lo128 n) (u128 (lo128 n + lo128 m))); cbn [negb Z.eqb fst snd];
    (split; [apply store128_wf|]; rewrite store128_val by (apply wrap_range; lia)); case_match_eqn; bool_to_prop; words.
Qed.

Lemma Sub32_spec n m :
  wf n -> wf m ->
  wf (Sub32 n m).1 /\ 0 <= (Sub32 n m).2 <= 1 /\
  val (Sub32 n m).1 - 2 ^ 256 * (Sub32 n m).2 = val n - val m.
Proof.
  intros Hn Hm. pose proof (wf_128 n Hn). pose proof (wf_128 m Hm).
  rewrite (val_128 n), (val_128 m) by done. unfold Sub32.
  destruct (Z.leb_spec (lo128 m) (lo128 n)); cbn [negb Z.eqb fst snd];
    (split; [apply store128_wf|]; rewrite store128_val by (apply wrap_range; lia)); case_match_eqn; bool_to_prop; words.
Qed.

(** Subtraction of a smaller number does not borrow, addition of small
    numbers does not carry. *)
Lemma Sub32_small n m :
  wf n -> wf m -> val m <= val n -> wf (Sub32 n m).1 /\ val (Sub32 n m).1 = val n - val m.
Proof.
  intros Hn Hm Hle. destruct (Sub32_spec n m Hn Hm) as (Hw & Hb & E).
  pose proof (mem32_val_range _ Hw). pose proof (mem32_val_range _ Hn). pose proof (mem32_val_range _ Hm).
  split; [done|]. words.
Qed.

Lemma Add32_small n m :
  wf n -> wf m -> val n + val m < 2 ^ 256 -> wf (Add32 n m).1 /\ val (Add32 n m).1 = val n + val m.
Proof.
  intros Hn Hm Hlt. destruct (Add32_spec n m Hn Hm) as (Hw & Hb & E).
  pose proof (mem32_val_range _ Hw). pose proof (mem32_val_range _ Hn). pose proof (mem32_val_range _ Hm).
  split; [done|]. words.
Qed.

(** A product of words splits into the two 64-bit words of its memory. *)
Definition mul_lo (a b : Z) : Z := u64 (Z.shiftr (a * b) 0).

Definition mul_hi (a b : Z) : Z := u64 (Z.shiftr (a * b) 64).

Lemma mul_words a b :
  is_uint 64 a -> is_uint 64 b ->
  a * b = mul_lo a b + 2 ^ 64 * mul_hi a b /\ is_uint 64 (mul_lo a b) /\ is_uint 64 (mul_hi a b).
Proof.
  intros Ha Hb. assert (0 <= a * b < 2 ^ 64 * 2 ^ 64) by (unfold is_uint in *; nia).
  split; [|split; apply wrap_range; lia]. unfold mul_lo, mul_hi.
  rewrite !Z.shiftr_div_pow2 by lia. change (2 ^ 0) with 1. rewrite Z.div_1_r.
  generalize dependent (a * b). clear. intros p Hp. words.
Qed.

Lemma Mul32_columns a0 a1 a2 a3 b0 b1 b2 b3 :
  Mul32 (Mem32 a0 a1 a2 a3) (Mem32 b0 b1 b2 b3) =
  [ mul_lo a0 b0;
    mul_hi a0 b0 + mul_lo a0 b1 + mul_lo a1 b0;
    mul_hi a0 b1 + mul_hi a1 b0 + mul_lo a0 b2 + mul_lo a1 b1 + mul_lo a2 b0;
    mul_hi a0 b2 + mul_hi a1 b1 + mul_hi a2 b0 + mul_lo a0 b3 + mul_lo a1 b2 + mul_lo a2 b1 + mul_lo a3 b0;
    mul_hi a0 b3 + mul_hi a1 b2 + mul_hi a2 b1 + mul_hi a3 b0 + mul_lo a1 b3 + mul_lo a2 b2 + mul_lo a3 b1;
    mul_hi a1 b3 + mul_hi a2 b2 + mul_hi a3 b1 + mul_lo a2 b3 + mul_lo a3 b2;
    mul_hi a2 b3 + mul_hi a3 b2 + mul_lo a3 b3;
    mul_hi a3 b3 ].
Proof. reflexivity. Qed.

Lemma columns_product B a0 a1 a2 a3 b0 b1 b2 b3 (l h : Z -> Z -> Z) :
  (forall a b, a ∈ [a0; a1; a2; a3] -> b ∈ [b0; b1; b2; b3] -> a * b = l a b + B * h a b) ->
  l a0 b0 + B * (h a0 b0 + l a0 b1 + l a1 b0 + B * (h a0 b1 + h a1 b0 + l a0 b2 + l a1 b1 + l a2 b0 +
    B * (h a0 b2 + h a1 b1 + h a2 b0 + l a0 b3 + l a1 b2 + l a2 b1 + l a3 b0 +
    B * (h a0 b3 + h a1 b2 + h a2 b1 + h a3 b0 + l a1 b3 + l a2 b2 + l a3 b1 +
    B * (h a1 b3 + h a2 b2 + h a3 b1 + l a2 b3 + l a3 b2 +
    B * (h a2 b3 + h a3 b2 + l a3 b3 + B * (h a3 b3 + B * 0))))))) =
  (a0 + B * (a1 + B * (a2 + B * a3))) * (b0 + B * (b1 + B * (b2 + B * b3))).
Proof.
  intros Hw.
  replace ((a0 + B * (a1 + B * (a2 + B * a3))) * (b0 + B * (b1 + B * (b2 + B * b3)))) with
    (a0 * b0 + B * (a0 * b1 + a1 * b0 + B * (a0 * b2 + a1 * b1 + a2 * b0 +
     B * (a0 * b3 + a1 * b2 + a2 * b1 + a3 * b0 + B * (a1 * b3 + a2 * b2 + a3 * b1 +
     B * (a2 * b3 + a3 * b2 + B * (a3 * b3))))))) by ring.
  rewrite (Hw a0 b0), (Hw a0 b1), (Hw a0 b2), (Hw a0 b3), (Hw a1 b0), (Hw a1 b1), (Hw a1 b2), (Hw a1 b3), 
    (Hw a2 b0), (Hw a2 b1), (Hw a2 b2), (Hw a2 b3), (Hw a3 b0), (Hw a3 b1), (Hw a3 b2), (Hw a3 b3)
    by (rewrite !elem_of_cons; tauto).
  ring.
Qed.

(** [Mul32] computes the product in eight columns, none of which overflows
    its 128-bit word. *)
Lemma Mul32_spec n m :
  wf n -> wf m ->
  length (Mul32 n m) = 8%nat /\ le_combine 64 (Mul32 n m) = val n * val m /\
  Forall (fun x => 0 <= x <= 7 * (2 ^ 64 - 1)) (Mul32 n m).
Proof.
  destruct n as [a0 a1 a2 a3], m as [b0 b1 b2 b3]. unfold wf, val. cbn [w0 w1 w2 w3].
  intros (Ha0 & Ha1 & Ha2 & Ha3) (Hb0 & Hb1 & Hb2 & Hb3). split; [done|].
  assert (Hw : forall a b, a ∈ [a0; a1; a2; a3] -> b ∈ [b0; b1; b2; b3] ->
    a * b = mul_lo a b + 2 ^ 64 * mul_hi a b).
  { intros a b Ha Hb. apply mul_words; rewrite !elem_of_cons, elem_of_nil in Ha, Hb;
      destruct_or!; subst; done. }
  assert (Hr : forall a b, 0 <= mul_lo a b <= 2 ^ 64 - 1 /\ 0 <= mul_hi a b <= 2 ^ 64 - 1).
  { intros a b. pose proof (wrap_range 64 (Z.shiftr (a * b) 0)). pose proof (wrap_range 64 (Z.shiftr (a * b) 64)).
    unfold mul_lo, mul_hi, is_uint in *. lia. }
  rewrite Mul32_columns. cbn [le_combine]. split; [by apply columns_product|].
  repeat (apply Forall_cons; split;
    [repeat match goal with |- context [mul_lo ?a ?b] => destruct (Hr a b); generalize dependent (mul_lo a b) ; intros
     | |- context [mul_hi ?a ?b] => destruct (Hr a b); generalize dependent (mul_hi a b); intros end; lia|]).
  constructor.
Qed.

(** Shift by less than 128 bits *)
Lemma ShiftLeft32_spec n b :
  wf n -> 0 < b < 128 ->
  wf (ShiftLeft32 n b) /\ val (ShiftLeft32 n b) = (val n * 2 ^ b) mod 2 ^ 256.
Proof.
  intros Hn Hb. destruct (wf_128 n Hn) as [Hlo Hhi]. rewrite (val_128 n) by done.
  unfold ShiftLeft32. rewrite (proj2 (Z.ltb_lt _ _)) by lia. split; [apply store128_wf|].
  set (lo := lo128 n) in *. set (hi := hi128 n) in *. clearbody lo hi.
  assert (Hq : is_uint b (lo / 2 ^ (128 - b))).
  { unfold is_uint in *. split; [apply Z.div_pos; lia|]. apply Z.div_lt_upper_bound; [lia|].
    rewrite <- Z.pow_add_r by lia. replace (128 - b + b) with 128 by lia. lia. }
  assert (Eh : u128 (Z.shiftl hi b) = Z.shiftl (hi mod 2 ^ (128 - b)) b).
  { rewrite !Z.shiftl_mul_pow2 by lia. unfold wrap. replace 128 with (128 - b + b) at 1 by lia.
    rewrite Z.pow_add_r, Z.mul_mod_distr_r by lia. done. }
  rewrite Eh, Z.shiftr_div_pow2, Z.lor_comm, lor_shiftl by (done || lia).
  rewrite store128_val.
  - replace ((lo + 2 ^ 128 * hi) * 2 ^ b) with (lo * 2 ^ b + 2 ^ 128 * (2 ^ b * hi)) by ring.
    change 256 with (128 + 128). rewrite carry_step by lia.
    rewrite Z.shiftl_mul_pow2 by lia. unfold wrap. f_equal. f_equal.
    assert (Ed : lo * 2 ^ b / 2 ^ 128 = lo / 2 ^ (128 - b)).
    { replace 128 with (128 - b + b) at 1 by lia. rewrite Z.pow_add_r, Z.div_mul_cancel_r by lia. done. }
    rewrite Ed. assert (E128 : 2 ^ 128 = 2 ^ (b + (128 - b))) by (f_equal; lia).
    rewrite E128, carry_step by lia.
    unfold is_uint in Hq.
    rewrite (Z.mod_small (lo / _)), (Z.div_small (lo / _)) by exact Hq. done.
  - apply wrap_range. lia.
  - pose proof (Z.mod_pos_bound hi (2 ^ (128 - b)) ltac:(lia)). unfold is_uint in *.
    assert (2 ^ 128 = 2 ^ b * 2 ^ (128 - b)) by (rewrite <- Z.pow_add_r by lia; f_equal; lia). nia.
Qed.

(** From 128 bits on the routine shifts the low half to the right. *)
Lemma ShiftLeft32_high n b :
  wf n -> 128 <= b < 256 -> val (ShiftLeft32 n b) = 2 ^ 128 * (lo128 n / 2 ^ (b - 128)).
Proof.
  intros Hn Hb. destruct (wf_128 n Hn) as [Hlo _]. unfold ShiftLeft32.
  rewrite (proj2 (Z.ltb_ge _ _)), (proj2 (Z.ltb_lt _ _)), Z.shiftr_div_pow2 by lia.
  rewrite store128_val; [lia|split; lia|]. unfold is_uint in *. split; [apply Z.div_pos; lia|].
  apply Z.div_lt_upper_bound; nia.
Qed.

End base25519.
