(* ===== verification/SC25519.v ===== *)
(** * Scalars of the curve (src/crypto/curve25519/sc25519.cpp)

    [CSC25519] holds a scalar modulo the group order in 32 bytes.  The
    operators of the class are translated with their word loops and their
    reductions (conditional subtraction, the table of multiples of
    [2^252 mod prime], Barrett's method); [sc_refines] and [sc_mul_refines]
    show that they are the arithmetic of [Z] modulo the prime. *)

From S2P Require Import Prelude Base25519.

Module SC25519.
Import base25519.

Notation mask64 := 0xFFFFFFFFFFFFFFFF.

Definition words (n : mem32) : list Z := [w0 n; w1 n; w2 n; w3 n].

Definition of_words (l : list Z) : mem32 :=
  Mem32 (nth 0 l 0) (nth 1 l 0) (nth 2 l 0) (nth 3 l 0).

(** [CSC25519::prime], 2^252 + 27742317777372353535851937790883648493 *)
Definition prime : mem32 := Mem32 0x5812631a5cf5d3ed 0x14def9dea2f79cd6 0 0x1000000000000000.

(** [Reduce()] *)
Definition Reduce (value : mem32) : mem32 :=
  if 0 <=? Compare32 value prime then (Sub32 value prime).1 else value.

Definition reminders : list mem32 :=
  [ Mem32 0 0 0 0;
    Mem32 0x0000000000000000 0x0000000000000000 0x0000000000000000 0x1000000000000000;
    Mem32 0xa7ed9ce5a30a2c13 0xeb2106215d086329 0xffffffffffffffff 0x0fffffffffffffff;
    Mem32 0x4fdb39cb46145826 0xd6420c42ba10c653 0xffffffffffffffff 0x0fffffffffffffff;
    Mem32 0xf7c8d6b0e91e8439 0xc16312641719297c 0xffffffffffffffff 0x0fffffffffffffff;
    Mem32 0x9fb673968c28b04c 0xac84188574218ca6 0xffffffffffffffff 0x0fffffffffffffff;
    Mem32 0x47a4107c2f32dc5f 0x97a51ea6d129efd0 0xffffffffffffffff 0x0fffffffffffffff;
    Mem32 0xef91ad61d23d0872 0x82c624c82e3252f9 0xffffffffffffffff 0x0fffffffffffffff;
    Mem32 0x977f4a4775473485 0x6de72ae98b3ab623 0xffffffffffffffff 0x0fffffffffffffff;
    Mem32 0x3f6ce72d18516098 0x5908310ae843194d 0xffffffffffffffff 0x0fffffffffffffff;
    Mem32 0xe75a8412bb5b8cab 0x4429372c454b7c76 0xffffffffffffffff 0x0fffffffffffffff;
    Mem32 0x8f4820f85e65b8be 0x2f4a3d4da253dfa0 0xffffffffffffffff 0x0fffffffffffffff;
    Mem32 0x3735bdde016fe4d1 0x1a6b436eff5c42ca 0xffffffffffffffff 0x0fffffffffffffff;
    Mem32 0xdf235ac3a47a10e4 0x058c49905c64a5f3 0xffffffffffffffff 0x0fffffffffffffff;
    Mem32 0x8710f7a947843cf7 0xf0ad4fb1b96d091d 0xfffffffffffffffe 0x0fffffffffffffff;
    Mem32 0x2efe948eea8e690a 0xdbce55d316756c47 0xfffffffffffffffe 0x0fffffffffffffff ].

(** [Reduce(carry)] with [carry = 0]: byte 31 of the value is the top byte of
    its last word. *)
Definition Reduce_0 (value : mem32) : mem32 :=
  if 0 <=? Compare32 value prime then
    let t := Z.shiftr (w3 value) 60 in
    if t =? 1 then (Sub32 value prime).1
    else
      let value := Mem32 (w0 value) (w1 value) (w2 value) (Z.land (w3 value) 0x0fffffffffffffff) in
      let value := (Add32 value (nth (Z.to_nat t) reminders Zero32)).1 in
      if 0 <=? Compare32 value prime then (Sub32 value prime).1 else value
  else value.

(** [Reduce(carry)] *)
Definition Reduce_carry (value : mem32) (carry : Z) : mem32 :=
  if carry =? 0 then Reduce_0 value
  else
    let c := u64 (u32 (Z.shiftl carry 4) + Z.shiftr (w3 value) 60) in
    let product0 := u128 (0x5812631a5cf5d3ed * c) in
    let product1 := u128 (0x14def9dea2f79cd6 * c) in
    let sum := u128 (Z.shiftr product0 64 + Z.land product1 mask64) in
    let product := Mem32 (Z.land product0 mask64) (Z.land sum mask64)
      (u64 (Z.shiftr sum 64 + Z.shiftr product1 64)) 0 in
    let product := (Sub32 prime product).1 in
    let value := Mem32 (w0 value) (w1 value) (w2 value) (Z.land (w3 value) 0x0fffffffffffffff) in
    Reduce (Add32 product value).1.

(** A [CSC25519] of 32 bytes; [Unpack] is the same. *)
Definition Unpack (md32 : mem32) : mem32 := Reduce_carry md32 0.

(** The loop [sum = a + b + carry] of [operator+=] *)
Fixpoint add_loop (a b : list Z) (carry : Z) : list Z :=
  match a, b with
  | x :: a, y :: b =>
      let sum := u128 (x + y + carry) in
      Z.land sum mask64 :: add_loop a b (Z.land (Z.shiftr sum 64) mask64)
  | _, _ => []
  end.

Definition add (value b : mem32) : mem32 := Reduce (of_words (add_loop (words value) (words b) 0)).

(** The loop of [operator-=]; [~b + 1] is the 64-bit complement plus one. *)
Fixpoint sub_loop (p a b : list Z) (carry : Z) : list Z :=
  match p, a, b with
  | q :: p, x :: a, y :: b =>
      let sum := u128 (q + x + (mask64 - y) + 1 + carry) in
      u64 sum :: sub_loop p a b (i32 (Z.land (Z.shiftr sum 64) mask64 - 1))
  | _, _, _ => []
  end.

Definition sub (value b : mem32) : mem32 :=
  Reduce (of_words (sub_loop (words prime) (words value) (words b) 0)).

Definition Negative (value : mem32) : mem32 := (Sub32 prime value).1.

Definition opp (value : mem32) : mem32 := sub Zero32 value.

(** The loops that propagate the carry of columns: [m[i] += carry; carry =
    m[i] >> 64; n[i] = m[i]] with a carry of [w] bits. *)
Fixpoint carry_loop (w : Z) (m : list Z) (carry : Z) : list Z * Z :=
  match m with
  | [] => ([], carry)
  | x :: m =>
      let x := u128 (x + carry) in
      let '(n, carry) := carry_loop w m (wrap w (Z.shiftr x 64)) in
      (Z.land x mask64 :: n, carry)
  end.

Definition mul_u32 (value : mem32) (b : Z) : mem32 :=
  let '(n, carry) := carry_loop 32 (map (fun x => u128 (x * b)) (words value)) 0 in
  Reduce_carry (of_words n) carry.

(** [product[i] += product[i-1] >> 64; product[i-1] &= mask] for the columns
    after [x] *)
Fixpoint carry_columns (x : Z) (product : list Z) : list Z :=
  match product with
  | [] => [x]
  | y :: product => Z.land x mask64 :: carry_columns (u128 (y + Z.shiftr x 64)) product
  end.

Definition mu : mem32 :=
  Mem32 0x9fb673968c28b04c 0xac84188574218ca6 0xffffffffffffffff 0x3fffffffffffffff.

(** The body of the double loop that multiplies [r2] by [prime]; [Zero64]
    cleared the first four of the eight 128-bit columns. *)
Definition mul_prime_step (r2 : mem32) (product : list Z) (ij : nat * nat) : list Z :=
  let '(i, j) := ij in
  let p := u128 (nth i (words r2) 0 * nth j (words prime) 0) in
  let product := alter (fun x => u128 (x + Z.land p mask64)) (i + j)%nat product in
  alter (fun x => u128 (x + Z.land (Z.shiftr p 64) mask64)) (i + j + 1)%nat product.

Definition mul_prime_indices : list (nat * nat) :=
  i ← seq 0 4; j ← seq 0 (4 - i); [(i, j)].

(** The stages of [BarrettReduce]: [r1 = m % 2^254], [q1 = m / 2^252],
    [q3 = q1 * mu / 2^254] from the columns of the product, and
    [r2 = q3 * prime % 2^254] from the columns of the second one. *)
Definition barrett_r1 (m : list Z) : mem32 :=
  Mem32 (nth 0 m 0) (nth 1 m 0) (nth 2 m 0) (Z.land (nth 3 m 0) 0x3fffffffffffffff).

Definition barrett_q1 (m : list Z) : mem32 :=
  let r2 := ShiftLeft32 (of_words (drop 4 m)) 4 in
  Mem32 (Z.lor (w0 r2) (Z.shiftr (nth 3 m 0) 60)) (w1 r2) (w2 r2) (w3 r2).

Definition barrett_q3 (product : list Z) : mem32 :=
  let q (x y : Z) : Z := u64 (Z.lor (u128 (Z.shiftl y 2)) (Z.shiftr x 62)) in
  Mem32 (q (nth 3 product 0) (nth 4 product 0)) (q (nth 4 product 0) (nth 5 product 0))
        (q (nth 5 product 0) (nth 6 product 0)) (q (nth 6 product 0) (nth 7 product 0)).

Definition barrett_r2 (product : list Z) : mem32 :=
  let product1 := u128 (nth 1 product 0 + Z.shiftr (nth 0 product 0) 64) in
  let product2 := u128 (nth 2 product 0 + Z.shiftr product1 64) in
  Mem32 (u64 (nth 0 product 0)) (u64 product1) (u64 product2)
    (Z.land (u64 (nth 3 product 0 + Z.shiftr product2 64)) 0x3fffffffffffffff).

Definition BarrettReduce (m : list Z) : mem32 :=
  let r1 := barrett_r1 m in
  let product := Mul32 (barrett_q1 m) mu in
  let product := carry_columns (nth 0 product 0) (tail product) in
  let q3 := barrett_q3 product in
  let product := foldl (mul_prime_step q3) ([0; 0; 0; 0] ++ drop 4 product) mul_prime_indices in
  let r2 := barrett_r2 product in
  let r1 := if Compare32 r1 r2 <? 0 then Mem32 (w0 r1) (w1 r1) (w2 r1) (Z.lor (w3 r1) 0x4000000000000000)
            else r1 in
  Reduce (Reduce (Sub32 r1 r2).1).

Definition mul (value b : mem32) : mem32 := BarrettReduce (carry_loop 64 (Mul32 value b) 0).1.

Definition eqb (value b : mem32) : bool := Compare32 value b =? 0.

(** ** Refinement of the integers modulo the prime *)

Definition L : Z := 7237005577332262213973186563042994240857116359379907606001950938285454250989.

(** A scalar in its canonical form and the number it stands for *)
Definition repr (n : mem32) (z : Z) : Prop := wf n /\ val n = z /\ 0 <= z < L.

Ltac scalar :=
  unfold L in *;
  change (2 ^ 252) with 7237005577332262213973186563042994240829374041602535252466099000494570602496 in *;
  words.

Lemma prime_val : wf prime /\ val prime = L.
Proof. split; [|reflexivity]. unfold wf, prime, is_uint. cbn [w0 w1 w2 w3]. lia. Qed.

Lemma Compare32_geb n m : wf n -> wf m -> (0 <=? Compare32 n m) = (val m <=? val n).
Proof.
  intros. rewrite Compare32_spec by done. destruct (Z.compare_spec (val n) (val m));
    symmetry; cbn [Z.leb Z.compare]; (apply Z.leb_le || apply Z.leb_gt); lia.
Qed.

Lemma Reduce_spec n :
  wf n -> wf (Reduce n) /\ val (Reduce n) = if L <=? val n then val n - L else val n.
Proof.
  intros Hn. destruct prime_val as [Hp Ep]. unfold Reduce. rewrite Compare32_geb, Ep by done.
  destruct (Z.leb_spec L (val n)); [|done].
  rewrite <- Ep. apply Sub32_small; [done|done|lia].
Qed.

Lemma Reduce_once n : wf n -> val n < 2 * L -> repr (Reduce n) (val n mod L).
Proof.
  intros Hn Hv. destruct (Reduce_spec n Hn) as [Hw E]. pose proof (mem32_val_range n Hn).
  split; [done|]. rewrite E. split; [|apply Z.mod_pos_bound; done].
  destruct (Z.leb_spec L (val n)); scalar.
Qed.

Lemma land_mask64 x : Z.land x mask64 = x mod 2 ^ 64.
Proof. apply (Z.land_ones x 64). lia. Qed.

Lemma land_mask60 x : Z.land x 0x0fffffffffffffff = x mod 2 ^ 60.
Proof. apply (Z.land_ones x 60). lia. Qed.

Lemma land_mask62 x : Z.land x 0x3fffffffffffffff = x mod 2 ^ 62.
Proof. apply (Z.land_ones x 62). lia. Qed.

Lemma reminders_val t :
  1 <= t <= 15 ->
  wf (nth (Z.to_nat t) reminders Zero32) /\
  val (nth (Z.to_nat t) reminders Zero32) = L - t * (L - 2 ^ 252).
Proof.
  intros Ht.
  assert (Hall : forallb (fun t => bool_decide (wf (nth (Z.to_nat t) reminders Zero32)) &&
    (val (nth (Z.to_nat t) reminders Zero32) =? L - t * (L - 2 ^ 252))) (seqZ 1 15) = true)
    by (vm_compute; reflexivity).
  rewrite forallb_forall in Hall. specialize (Hall t).
  rewrite <- list_elem_of_In, elem_of_seqZ in Hall. specialize (Hall ltac:(lia)). cbv beta in Hall.
  apply andb_true_iff in Hall as [H1 H2]. split; [by apply bool_decide_eq_true_1 in H1|by apply Z.eqb_eq].
Qed.

(** Splitting the four bits above the 252nd *)
Lemma top_nibble n :
  wf n ->
  let low := Mem32 (w0 n) (w1 n) (w2 n) (Z.land (w3 n) 0x0fffffffffffffff) in
  wf low /\ 0 <= val low < 2 ^ 252 /\ 0 <= Z.shiftr (w3 n) 60 < 16 /\
  val n = val low + 2 ^ 252 * Z.shiftr (w3 n) 60.
Proof.
  intros (H0 & H1 & H2 & H3). unfold wf, val. cbn [w0 w1 w2 w3].
  rewrite land_mask60, Z.shiftr_div_pow2 by lia.
  change (2 ^ 60) with 1152921504606846976. change (2 ^ 252) with
    7237005577332262213973186563042994240829374041602535252466099000494570602496.
  assert (w3 n mod 1152921504606846976 = w3 n - 1152921504606846976 * (w3 n / 1152921504606846976)) as ->
    by (rewrite (Z.div_mod (w3 n) 1152921504606846976) at 2; lia).
  words.
Qed.

Lemma Unpack_spec n : wf n -> repr (Unpack n) (val n mod L).
Proof.
  intros Hn. unfold Unpack, Reduce_carry. cbn [Z.eqb]. destruct prime_val as [Hp Ep].
  pose proof (mem32_val_range n Hn) as Hr. destruct (top_nibble n Hn) as (Hw & Hl & Ht & E).
  unfold Reduce_0. set (low := Mem32 _ _ _ (Z.land _ _)) in *. set (t := Z.shiftr (w3 n) 60) in *.
  rewrite Compare32_geb, Ep by done.
  destruct (Z.leb_spec L (val n)) as [Hge|Hlt]; [|split; [done|]; scalar].
  destruct (Z.eqb_spec t 1) as [Et|Et].
  - destruct (Sub32_small n prime) as [Hs Es]; [done|done|lia|]. split; [done|]. rewrite Es, Ep. scalar.
  - change (repr (Reduce (Add32 low (nth (Z.to_nat t) reminders Zero32)).1) (val n mod L)).
    destruct (reminders_val t) as [Hrm Erm]; [scalar|].
    destruct (Add32_small low (nth (Z.to_nat t) reminders Zero32)) as [Ha Ea]; [done|done| |].
    { rewrite Erm. scalar. }
    replace (val n mod L) with (val (Add32 low (nth (Z.to_nat t) reminders Zero32)).1 mod L).
    + apply Reduce_once; [done|]. rewrite Ea, Erm. scalar.
    + rewrite Ea, Erm, E. replace (val low + (L - t * (L - 2 ^ 252)))
        with (val low + 2 ^ 252 * t + (1 - t) * L) by ring.
      apply Z_mod_plus_full.
Qed.

(** Word loops: the list they produce and the number it stands for *)

Lemma of_words_val l :
  length l = 4%nat -> Forall (is_uint 64) l -> wf (of_words l) /\ val (of_words l) = le_combine 64 l.
Proof.
  intros Hl Hf. destruct l as [|a [|b [|c [|d [|]]]]]; try done.
  rewrite !Forall_cons in Hf. destruct Hf as (? & ? & ? & ? & _).
  split; [done|]. unfold val, of_words. cbn [nth w0 w1 w2 w3 le_combine]. lia.
Qed.

Lemma words_val n : val n = le_combine 64 (words n).
Proof. unfold val, words. cbn [le_combine]. lia. Qed.

Lemma words_wf n : wf n -> Forall (is_uint 64) (words n).
Proof. intros (? & ? & ? & ?). unfold words. rewrite !Forall_cons, Forall_nil. tauto. Qed.

Lemma add_loop_spec a b c :
  length a = length b -> Forall (is_uint 64) a -> Forall (is_uint 64) b -> 0 <= c <= 1 ->
  length (add_loop a b c) = length a /\ Forall (is_uint 64) (add_loop a b c) /\
  le_combine 64 (add_loop a b c) = (le_combine 64 a + le_combine 64 b + c) mod 2 ^ (64 * Z.of_nat (length a)).
Proof.
  intros Hl Ha. revert b c Hl. induction Ha as [|x a Hx Ha IH]; intros [|y b] c Hl Hb Hc; try done.
  { cbn [add_loop le_combine length]. rewrite Z.mod_1_r. done. }
  inversion Hb as [|? ? Hy Hb']; subst. cbn [add_loop le_combine length] in *. injection Hl as Hl.
  assert (Hs : u128 (x + y + c) = x + y + c) by words. rewrite Hs, !land_mask64, Z.shiftr_div_pow2 by lia.
  assert (Hc' : 0 <= ((x + y + c) / 2 ^ 64) mod 2 ^ 64 <= 1) by words.
  destruct (IH b _ Hl Hb' Hc') as (IHl & IHf & IHv). split; [by rewrite IHl|]. split.
  - constructor; [apply (wrap_range 64); lia|done].
  - rewrite IHv, Nat2Z.inj_succ, Z.mul_succ_r, (Z.add_comm (64 * _)).
    replace (x + 2 ^ 64 * le_combine 64 a + (y + 2 ^ 64 * le_combine 64 b) + c)
      with ((x + y + c) + 2 ^ 64 * (le_combine 64 a + le_combine 64 b)) by ring.
    rewrite carry_step by lia. do 3 f_equal. clear -Hx Hy Hc. words.
Qed.

Lemma add_spec a b x y : repr a x -> repr b y -> repr (add a b) ((x + y) mod L).
Proof.
  intros (Ha & Ea & Hx) (Hb & Eb & Hy). unfold add.
  destruct (add_loop_spec (words a) (words b) 0) as (Hl & Hf & Hv); [done|by apply words_wf|by apply words_wf|done|].
  destruct (of_words_val _ Hl Hf) as [Hw Ev]. rewrite Hv, <- !words_val, Ea, Eb in Ev.
  rewrite Z.mod_small in Ev by (change (2 ^ _) with (2 ^ 256); scalar).
  replace (x + y) with (x + y + 0) by lia. rewrite <- Ev. apply Reduce_once; [done|]. rewrite Ev. scalar.
Qed.

Lemma sub_loop_spec p a b c :
  length p = length a -> length a = length b ->
  Forall (is_uint 64) p -> Forall (is_uint 64) a -> Forall (is_uint 64) b -> -1 <= c <= 1 ->
  length (sub_loop p a b c) = length a /\ Forall (is_uint 64) (sub_loop p a b c) /\
  le_combine 64 (sub_loop p a b c) =
    (le_combine 64 p + le_combine 64 a - le_combine 64 b + c) mod 2 ^ (64 * Z.of_nat (length a)).
Proof.
  intros Hp Hl Hfp Ha. revert p b c Hp Hl Hfp. induction Ha as [|x a Hx Ha IH];
    intros [|q p] [|y b] c Hp Hl Hfp Hb Hc; try done.
  { cbn [sub_loop le_combine length]. rewrite Z.mod_1_r. done. }
  inversion Hb as [|? ? Hy Hb']; inversion Hfp as [|? ? Hq Hfp']; subst.
  cbn [sub_loop le_combine length] in *. injection Hl as Hl. injection Hp as Hp.
  set (sum := q + x + (mask64 - y) + 1 + c).
  assert (Hs : u128 sum = sum) by (subst sum; words). rewrite Hs, !land_mask64, Z.shiftr_div_pow2 by lia.
  assert (Hcv : i32 ((sum / 2 ^ 64) mod 2 ^ 64 - 1) = (q + x - y + c) / 2 ^ 64).
  { rewrite swrap_small by (lia || (subst sum; change (2 ^ (32 - 1)) with 2147483648; words)).
    subst sum. clear -Hx Hy Hq Hc. words. }
  assert (Hc' : -1 <= (q + x - y + c) / 2 ^ 64 <= 1) by (clear -Hx Hy Hq Hc; words).
  rewrite Hcv. destruct (IH p b _ Hp Hl Hfp' Hb' Hc') as (IHl & IHf & IHv). split; [by rewrite IHl|]. split.
  - constructor; [apply (wrap_range 64); lia|done].
  - rewrite IHv, Nat2Z.inj_succ, Z.mul_succ_r, (Z.add_comm (64 * _)).
    replace (q + 2 ^ 64 * le_combine 64 p + (x + 2 ^ 64 * le_combine 64 a) - (y + 2 ^ 64 * le_combine 64 b) + c)
      with ((q + x - y + c) + 2 ^ 64 * (le_combine 64 p + le_combine 64 a - le_combine 64 b)) by ring.
    rewrite carry_step by lia. f_equal; [|do 2 f_equal; lia].
    subst sum. clear -Hx Hy Hq Hc. words.
Qed.

Lemma sub_spec a b x y : repr a x -> repr b y -> repr (sub a b) ((x - y) mod L).
Proof.
  intros (Ha & Ea & Hx) (Hb & Eb & Hy). unfold sub. destruct prime_val as [Hp Ep].
  destruct (sub_loop_spec (words prime) (words a) (words b) 0) as (Hl & Hf & Hv);
    try (done || by apply words_wf).
  destruct (of_words_val _ Hl Hf) as [Hw Ev]. rewrite Hv, <- !words_val, Ea, Eb, Ep in Ev.
  rewrite Z.mod_small in Ev by (change (2 ^ _) with (2 ^ 256); scalar).
  replace ((x - y) mod L) with (val (of_words (sub_loop (words prime) (words a) (words b) 0)) mod L).
  - apply Reduce_once; [done|]. rewrite Ev. scalar.
  - rewrite Ev. replace (L + x - y + 0) with (x - y + 1 * L) by ring. apply Z_mod_plus_full.
Qed.

Lemma carry_loop_spec w C m c :
  0 <= C < 2 ^ 32 -> C < 2 ^ w -> Forall (fun x => 0 <= x /\ x + C < 2 ^ 64 * (C + 1)) m -> 0 <= c <= C ->
  length (carry_loop w m c).1 = length m /\ Forall (is_uint 64) (carry_loop w m c).1 /\
  0 <= (carry_loop w m c).2 <= C /\
  le_combine 64 (carry_loop w m c).1 + 2 ^ (64 * Z.of_nat (length m)) * (carry_loop w m c).2 =
    le_combine 64 m + c.
Proof.
  intros HC Hw Hm. revert c. induction Hm as [|x m Hx Hm IH]; intros c Hc.
  { cbn [carry_loop le_combine length fst snd]. change (2 ^ (64 * Z.of_nat 0)) with 1. split_and!; (done || lia). }
  cbn [carry_loop]. assert (Hs : u128 (x + c) = x + c) by words.
  rewrite Hs, land_mask64, Z.shiftr_div_pow2 by lia.
  assert (Hq : 0 <= (x + c) / 2 ^ 64 <= C) by words.
  rewrite (wrap_small w) by (unfold is_uint; lia). specialize (IH _ Hq).
  destruct (carry_loop w m ((x + c) / 2 ^ 64)) as [n' c']. cbn [fst snd length le_combine] in *.
  destruct IH as (Hl & Hf & Hc' & Hv). refine (conj _ (conj _ (conj Hc' _))).
  - by rewrite Hl.
  - constructor; [apply (wrap_range 64); lia|done].
  - rewrite Nat2Z.inj_succ, Z.mul_succ_r, (Z.add_comm (64 * _)), Z.pow_add_r by lia.
    pose proof (Z.div_mod (x + c) (2 ^ 64) ltac:(lia)). nia.
Qed.

Lemma Reduce_carry_spec n carry :
  wf n -> 0 <= carry < 2 ^ 28 -> repr (Reduce_carry n carry) ((val n + 2 ^ 256 * carry) mod L).
Proof.
  intros Hn Hc. unfold Reduce_carry. destruct (Z.eqb_spec carry 0) as [->|Hnz].
  { rewrite Z.mul_0_r, Z.add_0_r. by apply Unpack_spec. }
  destruct (top_nibble n Hn) as (Hw & Hl & Ht & E). set (low := Mem32 _ _ _ (Z.land _ _)) in *.
  set (t := Z.shiftr (w3 n) 60) in *. change (2 ^ 28) with 268435456 in Hc.
  assert (Hsc : u64 (u32 (Z.shiftl carry 4) + t) = 16 * carry + t).
  { rewrite Z.shiftl_mul_pow2 by lia. change (2 ^ 4) with 16.
    rewrite (wrap_small 32) by (unfold is_uint; change (2 ^ 32) with 4294967296; lia). words. }
  rewrite Hsc. set (c := 16 * carry + t). assert (Hcr : 0 <= c < 2 ^ 32) by (subst c; change (2 ^ 32) with 4294967296; lia).
  rewrite !land_mask64, !Z.shiftr_div_pow2 by lia. cbv zeta.
  set (product := Mem32 (_ mod _) _ _ 0).
  assert (Hpv : wf product /\ val product = (L - 2 ^ 252) * c).
  { clear -Hcr. subst product. unfold wf, val. cbn [w0 w1 w2 w3]. change (2 ^ 32) with 4294967296 in Hcr. scalar. }
  destruct Hpv as [Hpw Hpv], prime_val as [Hp Ep]. change (2 ^ 32) with 4294967296 in Hcr.
  destruct (Sub32_small prime product) as [Hsw Hsv]; [done|done|rewrite Ep, Hpv; scalar|].
  destruct (Add32_small (Sub32 prime product).1 low) as [Haw Hav]; [done|done|rewrite Hsv, Ep, Hpv; scalar|].
  replace ((val n + 2 ^ 256 * carry) mod L) with (val (Add32 (Sub32 prime product).1 low).1 mod L).
  - apply Reduce_once; [done|]. rewrite Hav, Hsv, Ep, Hpv. scalar.
  - rewrite Hav, Hsv, Ep, Hpv, E. change (2 ^ 256) with (2 ^ 252 * 16).
    replace (L - (L - 2 ^ 252) * c + val low) with (val low + 2 ^ 252 * t + 2 ^ 252 * 16 * carry + (1 - c) * L)
      by (subst c; ring).
    apply Z_mod_plus_full.
Qed.

Lemma mul_u32_spec a x b : repr a x -> is_uint 32 b -> repr (mul_u32 a b) ((x * b) mod L).
Proof.
  intros (Ha & Ea & Hx) Hb. unfold mul_u32.
  destruct (carry_loop_spec 32 (2 ^ 32 - 1) (map (fun x => u128 (x * b)) (words a)) 0) as (Hl & Hf & Hc & Hv);
    [lia|lia| |lia|].
  - apply Forall_map. eapply Forall_impl; [by apply words_wf|]. intros y Hy. simpl.
    assert (0 <= y * b <= (2 ^ 64 - 1) * (2 ^ 32 - 1)) by (unfold is_uint in *; nia).
    rewrite (wrap_small 128) by (unfold is_uint in *; lia). lia.
  - destruct (carry_loop _ _ _) as [n carry]. cbn [fst snd] in *.
    destruct (of_words_val _ Hl Hf) as [Hw Ev].
    assert (Hm : le_combine 64 (map (fun x => u128 (x * b)) (words a)) = x * b).
    { rewrite <- Ea, words_val. generalize (words_wf _ Ha). clear -Hb. induction 1 as [|y l Hy Hl IH]; [done|].
      cbn [map le_combine]. rewrite IH, (wrap_small 128) by (unfold is_uint in *; nia). ring. }
    rewrite Hm, <- Ev in Hv. change (2 ^ (64 * _)) with (2 ^ 256) in Hv.
    rewrite Z.add_0_r in Hv. rewrite <- Hv. pose proof (mem32_val_range _ Hw). apply Reduce_carry_spec; [done|].
    assert (0 <= x * b <= (L - 1) * (2 ^ 32 - 1)) by (unfold is_uint in *; nia).
    change (2 ^ 28) with 268435456. change (2 ^ 32) with 4294967296 in *. scalar.
Qed.

(** ** Barrett's method *)

Lemma mu_val : wf mu /\ val mu = 2 ^ 506 / L.
Proof.
  split; [|vm_compute; reflexivity]. unfold wf, mu, is_uint. cbn [w0 w1 w2 w3]. lia.
Qed.

(** The quotient estimated from the top bits is at most two too small. *)
Lemma barrett_quotient m :
  0 <= m < 2 ^ 506 ->
  let q := m / 2 ^ 252 * (2 ^ 506 / L) / 2 ^ 254 in
  0 <= q < 2 ^ 254 /\ 0 <= m - q * L < 3 * L.
Proof.
  assert (Hmu : 2 ^ 506 / L = 28948022309329048855892746252171976963206526895300651595720988250814747816012) by (vm_compute; reflexivity).
  rewrite Hmu. clear Hmu. unfold L.
  assert (E506 : 2 ^ 506 = 209496998905353079680844140596966345741865090946756146526930647558152562969899171512529285908857866057656747784163844544589904418936665155413025765720064) by (vm_compute; reflexivity).
  rewrite E506. clear E506.
  change (2 ^ 252) with 7237005577332262213973186563042994240829374041602535252466099000494570602496.
  change (2 ^ 254) with 28948022309329048855892746252171976963317496166410141009864396001978282409984.
  intros Hm. cbv zeta. Z.to_euclidean_division_equations. lia.
Qed.

Lemma le_combine_alter_add w l i d f :
  0 <= w -> (i < length l)%nat -> f (nth i l 0) = nth i l 0 + d ->
  le_combine w (alter f i l) = le_combine w l + 2 ^ (w * Z.of_nat i) * d.
Proof.
  intros Hw. revert i. induction l as [|x l IH]; intros i Hi Hf; [simpl in Hi; lia|].
  destruct i as [|i]; cbn [alter list_alter le_combine nth] in *.
  - rewrite Hf, Z.mul_0_r. lia.
  - simpl in Hi. rewrite IH by (done || lia).
    rewrite Nat2Z.inj_succ, Z.mul_succ_r, Z.pow_add_r by lia. ring.
Qed.

Lemma carry_columns_spec x l :
  0 <= x < 8 * 2 ^ 64 -> Forall (fun y => 0 <= y <= 7 * (2 ^ 64 - 1)) l ->
  length (carry_columns x l) = S (length l) /\
  Forall (is_uint 64) (take (length l) (carry_columns x l)) /\
  Forall (fun y => 0 <= y < 2 ^ 67) (carry_columns x l) /\
  le_combine 64 (carry_columns x l) = x + 2 ^ 64 * le_combine 64 l.
Proof.
  intros Hx Hl. revert x Hx. induction Hl as [|y l Hy Hl IH]; intros x Hx.
  { cbn [carry_columns length take le_combine]. repeat constructor; lia. }
  cbn [carry_columns length]. rewrite land_mask64, Z.shiftr_div_pow2 by lia.
  assert (Hq : 0 <= x / 2 ^ 64 < 8) by words.
  assert (Hs : u128 (y + x / 2 ^ 64) = y + x / 2 ^ 64) by (apply wrap_small; unfold is_uint; lia). rewrite Hs.
  destruct (IH (y + x / 2 ^ 64)) as (IHl & IHf & IHr & IHv); [lia|].
  pose proof (wrap_range 64 x ltac:(lia)) as Hm. unfold wrap in Hm.
  refine (conj _ (conj _ (conj _ _))).
  - cbn [length]. by rewrite IHl.
  - cbn [take]. by constructor.
  - constructor; [unfold is_uint in Hm; lia|done].
  - cbn [le_combine]. rewrite IHv. pose proof (Z.div_mod x (2 ^ 64) ltac:(lia)). lia.
Qed.

(** The columns of [r2 * prime]: every step adds its product at its place. *)
Definition column_term (r2 : mem32) (ij : nat * nat) : Z :=
  2 ^ (64 * Z.of_nat (ij.1 + ij.2)) * (nth ij.1 (words r2) 0 * nth ij.2 (words prime) 0).

Lemma nth_words_range n i : wf n -> is_uint 64 (nth i (words n) 0).
Proof.
  intros (? & ? & ? & ?). destruct i as [|[|[|[|i]]]]; cbn [nth words]; try done.
  destruct i; split; lia.
Qed.

Lemma u128_add_small x d n :
  0 <= x < n * 2 ^ 64 -> 0 <= d < 2 ^ 64 -> 0 <= n <= 4294967297 -> u128 (x + d) = x + d.
Proof. intros Hx Hd Hn. apply wrap_small. unfold is_uint. nia. Qed.

Lemma nth_range l n m : Forall (fun x => 0 <= x < n) l -> (m < length l)%nat -> 0 <= nth m l 0 < n.
Proof. intros Hl Hm. by apply (proj1 (Forall_nth _ 0 l) Hl). Qed.

Lemma mul_prime_step_spec r2 product ij k :
  wf r2 -> (ij.1 + ij.2 < 4)%nat -> length product = 8%nat -> 0 <= k < 2 ^ 32 ->
  Forall (fun x => 0 <= x < k * 2 ^ 64) product ->
  length (mul_prime_step r2 product ij) = 8%nat /\
  Forall (fun x => 0 <= x < (k + 2) * 2 ^ 64) (mul_prime_step r2 product ij) /\
  le_combine 64 (mul_prime_step r2 product ij) = le_combine 64 product + column_term r2 ij.
Proof.
  intros Hr Hij Hl Hk Hf. destruct ij as [i j]. unfold mul_prime_step, column_term. cbn [fst snd] in *.
  pose proof (nth_words_range r2 i Hr) as Ha. pose proof (nth_words_range prime j (proj1 prime_val)) as Hb.
  generalize dependent (nth i (words r2) 0). generalize dependent (nth j (words prime) 0).
  intros b Hb a Ha.
  assert (Hp : 0 <= a * b < 2 ^ 128) by (unfold is_uint in *; nia).
  rewrite (wrap_small 128 (a * b)) by done. rewrite !land_mask64, Z.shiftr_div_pow2 by lia.
  set (p := a * b) in *. clearbody p.
  assert (Hlo : 0 <= p mod 2 ^ 64 < 2 ^ 64) by words.
  assert (Hhi : (p / 2 ^ 64) mod 2 ^ 64 = p / 2 ^ 64 /\ 0 <= p / 2 ^ 64 < 2 ^ 64) by words.
  destruct Hhi as [-> Hhi]. change (2 ^ 32) with 4294967296 in Hk.
  set (l1 := alter _ (i + j)%nat product).
  assert (Hl1 : length l1 = 8%nat) by (subst l1; by rewrite length_alter).
  assert (Hf1 : Forall (fun x => 0 <= x < (k + 1) * 2 ^ 64) l1).
  { subst l1. apply Forall_alter; [eapply Forall_impl; [done|]; simpl; lia|].
    intros x Hx Hx'. rewrite Forall_lookup in Hf. specialize (Hf _ _ Hx). simpl in Hf.
    rewrite (u128_add_small x _ k) by lia. lia. }
  refine (conj _ (conj _ _)).
  - by rewrite length_alter.
  - apply Forall_alter; [eapply Forall_impl; [done|]; simpl; lia|].
    intros x Hx Hx'. rewrite Forall_lookup in Hf1. specialize (Hf1 _ _ Hx). simpl in Hf1.
    rewrite (u128_add_small x _ (k + 1)) by lia. lia.
  - rewrite (le_combine_alter_add 64 l1 (i + j + 1) (p / 2 ^ 64)) by
      (lia || (eapply u128_add_small; [apply nth_range; [done|lia]|lia|lia])).
    subst l1. rewrite (le_combine_alter_add 64 product (i + j) (p mod 2 ^ 64)) by
      (lia || (eapply u128_add_small; [apply nth_range; [done|lia]|lia|lia])).
    rewrite (Nat2Z.inj_add (i + j) 1), Z.mul_add_distr_l, Z.pow_add_r by lia.
    change (64 * Z.of_nat 1) with 64. rewrite (Z.div_mod p (2 ^ 64)) at 3 by lia. ring.
Qed.

Lemma mul_prime_fold r2 idx product k :
  wf r2 -> Forall (fun ij => (ij.1 + ij.2 < 4)%nat) idx -> length product = 8%nat ->
  0 <= k -> k + 2 * Z.of_nat (length idx) < 2 ^ 32 ->
  Forall (fun x => 0 <= x < k * 2 ^ 64) product ->
  let out := foldl (mul_prime_step r2) product idx in
  length out = 8%nat /\ Forall (fun x => 0 <= x < 2 ^ 96) out /\
  le_combine 64 out = le_combine 64 product + foldr Z.add 0 (map (column_term r2) idx).
Proof.
  intros Hr Hidx. revert product k. induction Hidx as [|ij idx Hij Hidx IH]; intros product k Hl Hk Hk' Hf; cbv zeta.
  - cbn [foldl map foldr]. refine (conj Hl (conj _ _)); [|lia].
    eapply Forall_impl; [exact Hf|]. cbn [length] in Hk'. intros x Hx. simpl in Hx.
    change (2 ^ 96) with (2 ^ 32 * 2 ^ 64). nia.
  - cbn [foldl map foldr length] in *.
    destruct (mul_prime_step_spec r2 product ij k) as (Hl1 & Hf1 & Hv1); [done|done|done|lia|done|].
    destruct (IH (mul_prime_step r2 product ij) (k + 2)) as (Hl2 & Hf2 & Hv2); [done|lia|lia|done|].
    refine (conj Hl2 (conj Hf2 _)). rewrite Hv2, Hv1. lia.
Qed.

Lemma mul_prime_sum r2 :
  foldr Z.add 0 (map (column_term r2) mul_prime_indices) mod 2 ^ 256 = (val r2 * L) mod 2 ^ 256.
Proof.
  rewrite <- (proj2 prime_val).
  change mul_prime_indices with
    [(0, 0); (0, 1); (0, 2); (0, 3); (1, 0); (1, 1); (1, 2); (2, 0); (2, 1); (3, 0)]%nat.
  destruct r2 as [a0 a1 a2 a3], prime as [p0 p1 p2 p3] eqn:E. unfold column_term. rewrite E.
  cbn [map foldr fst snd nth words w0 w1 w2 w3 Nat.add Z.of_nat]. unfold val. cbn [w0 w1 w2 w3].
  set (B := 2 ^ 64).
  change (2 ^ (64 * Z.of_nat 0)) with 1. change (2 ^ (64 * Z.of_nat 1)) with B.
  change (2 ^ (64 * Z.of_nat 2)) with (B * B). change (2 ^ (64 * Z.of_nat 3)) with (B * B * B).
  change (2 ^ 256) with (B * B * B * B). clearbody B. clear E.
  rewrite <- (Z_mod_plus_full _ (a1 * p3 + a2 * p2 + a3 * p1 + B * (a2 * p3 + a3 * p2 + B * (a3 * p3))) (B * B * B * B)).
  f_equal. ring.
Qed.

(** The value of the four low columns after their carries *)
Lemma barrett_r2_spec product :
  length product = 8%nat -> Forall (fun x => 0 <= x < 2 ^ 96) product ->
  wf (barrett_r2 product) /\ val (barrett_r2 product) = le_combine 64 product mod 2 ^ 254.
Proof.
  intros Hl Hf. destruct product as [|c0 [|c1 [|c2 [|c3 l]]]]; try done. clear Hl.
  rewrite !Forall_cons in Hf. destruct Hf as (H0 & H1 & H2 & H3 & _).
  unfold barrett_r2. cbv zeta. cbn [nth].
  rewrite land_mask62, !Z.shiftr_div_pow2 by lia.
  change (2 ^ 96) with 79228162514264337593543950336 in *. unfold val, wf. cbn [w0 w1 w2 w3 le_combine].
  change (2 ^ 254) with (2 ^ (64 + (64 + (64 + 62)))). rewrite carry_step, (Z.add_assoc (c0 / _)) by lia.
  assert (E1 : u128 (c1 + c0 / 2 ^ 64) = c0 / 2 ^ 64 + c1) by words. rewrite E1. clear E1.
  set (d1 := c0 / 2 ^ 64 + c1). assert (Hd1 : 0 <= d1 < 79228162514264337593543950336 + 4294967296) by (subst d1; words).
  clearbody d1. rewrite carry_step, (Z.add_assoc (d1 / _)) by lia.
  assert (E2 : u128 (c2 + d1 / 2 ^ 64) = d1 / 2 ^ 64 + c2) by words. rewrite E2. clear E2.
  set (d2 := d1 / 2 ^ 64 + c2). clearbody d2. rewrite carry_step, (Z.add_assoc (d2 / _)) by lia.
  change (2 ^ 62) with 4611686018427387904. split; [words|].
  assert (E3 : forall x y, u64 (c3 + y) mod 4611686018427387904 = (y + c3 + 2 ^ 64 * x) mod 4611686018427387904)
    by (clear; intros x y; words).
  rewrite (E3 (le_combine 64 l)). reflexivity.
Qed.

Lemma barrett_r1_spec m :
  length m = 8%nat -> Forall (is_uint 64) m ->
  wf (barrett_r1 m) /\ val (barrett_r1 m) = le_combine 64 m mod 2 ^ 254.
Proof.
  intros Hl Hf. destruct m as [|m0 [|m1 [|m2 [|m3 l]]]]; try done. clear Hl.
  rewrite !Forall_cons in Hf. destruct Hf as (H0 & H1 & H2 & H3 & _).
  unfold barrett_r1. rewrite land_mask62. unfold val, wf. cbn [nth w0 w1 w2 w3 le_combine].
  change (2 ^ 254) with 28948022309329048855892746252171976963317496166410141009864396001978282409984.
  change (2 ^ 62) with 4611686018427387904. generalize (le_combine 64 l). intros x. split; [words|].
  assert (m3 mod 4611686018427387904 = m3 - 4611686018427387904 * (m3 / 4611686018427387904)) as ->
    by (rewrite (Z.div_mod m3 4611686018427387904) at 2; lia).
  words.
Qed.

Lemma barrett_q3_spec product :
  length product = 8%nat -> Forall (is_uint 64) (take 7 product) ->
  0 <= nth 7 product 0 < 2 ^ 62 ->
  wf (barrett_q3 product) /\ val (barrett_q3 product) = le_combine 64 product / 2 ^ 254.
Proof.
  intros Hl Hf Hlast. destruct product as [|p0 [|p1 [|p2 [|p3 [|p4 [|p5 [|p6 [|p7 [|]]]]]]]]]; try done. clear Hl.
  cbn [take nth] in *. rewrite !Forall_cons in Hf. destruct Hf as (? & ? & ? & ? & ? & ? & ? & _).
  assert (Hq : forall x y, is_uint 64 x -> 0 <= y < 2 ^ 64 ->
    u64 (Z.lor (u128 (Z.shiftl y 2)) (Z.shiftr x 62)) = (4 * y) mod 2 ^ 64 + x / 2 ^ 62).
  { intros x y Hx Hy. rewrite (wrap_small 128) by (rewrite Z.shiftl_mul_pow2 by lia; unfold is_uint; lia).
    rewrite Z.lor_comm, lor_shiftl, Z.shiftr_div_pow2 by (lia || (rewrite Z.shiftr_div_pow2 by lia;
      change (2 ^ 62) with 4611686018427387904; unfold is_uint in *; change (2 ^ 2) with 4; words)).
    change (2 ^ 62) with 4611686018427387904. change (2 ^ 2) with 4. words. }
  unfold barrett_q3. cbn [nth]. rewrite !Hq by (done || (unfold is_uint in *; lia)). clear Hq.
  unfold wf, val. cbn [w0 w1 w2 w3 le_combine].
  change (2 ^ 254) with 28948022309329048855892746252171976963317496166410141009864396001978282409984.
  change (2 ^ 62) with 4611686018427387904 in *. words.
Qed.

Lemma barrett_q1_spec m :
  length m = 8%nat -> Forall (is_uint 64) m -> le_combine 64 m < 2 ^ 506 ->
  wf (barrett_q1 m) /\ val (barrett_q1 m) = le_combine 64 m / 2 ^ 252.
Proof.
  intros Hl Hf Hm. destruct m as [|m0 [|m1 [|m2 [|m3 l]]]]; try done.
  assert (Hl4 : length l = 4%nat) by (simpl in Hl; lia). clear Hl.
  rewrite !Forall_cons in Hf. destruct Hf as (H0 & H1 & H2 & H3 & Hf).
  destruct (of_words_val l Hl4 Hf) as [How Hov].
  destruct (ShiftLeft32_spec (of_words l) 4 How ltac:(lia)) as [Hsw Hsv].
  unfold barrett_q1. cbn [drop nth le_combine] in *. cbv zeta. rewrite drop_0. rewrite <- Hov in *.
  pose proof (mem32_val_range _ How) as Hr. revert Hsv Hsw.
  set (r := ShiftLeft32 (of_words l) 4). set (v := val (of_words l)) in *. intros Hsv Hsw.
  assert (Hv : v < 2 ^ 250).
  { change (2 ^ 506) with (2 ^ 256 * 2 ^ 250) in Hm. unfold is_uint in *.
    assert (2 ^ 256 * v < 2 ^ 256 * 2 ^ 250) by (change (2 ^ 256) with (2 ^ 64 * (2 ^ 64 * (2 ^ 64 * 2 ^ 64))) in *; lia).
    lia. }
  rewrite Z.mod_small in Hsv by (unfold is_uint in *; change (2 ^ 256) with (2 ^ 250 * 64); lia).
  change (2 ^ 4) with 16 in Hsv. destruct Hsw as (Hr0 & Hr1 & Hr2 & Hr3). unfold val in Hsv.
  assert (Hr0' : w0 r = Z.shiftl (w0 r / 16) 4).
  { rewrite Z.shiftl_mul_pow2 by lia. change (2 ^ 4) with 16. clear -Hsv Hr0. words. }
  assert (Ht : 0 <= m3 / 2 ^ 60 < 16) by (clear -H3; change (2 ^ 60) with 1152921504606846976; words).
  rewrite Hr0', Z.shiftr_div_pow2, Z.lor_comm, lor_shiftl by (unfold is_uint; lia).
  unfold wf, val. cbn [w0 w1 w2 w3]. change (2 ^ 4) with 16.
  change (2 ^ 252) with 7237005577332262213973186563042994240829374041602535252466099000494570602496.
  change (2 ^ 60) with 1152921504606846976 in *. clear -Hsv Hr0 Hr1 Hr2 Hr3 H0 H1 H2 H3 Ht. words.
Qed.

(** [r1 - r2] with the bit that makes up for a borrow *)
Lemma barrett_difference r1 r2 :
  wf r1 -> wf r2 -> val r1 < 2 ^ 254 -> val r2 < 2 ^ 254 ->
  let r1' := if Compare32 r1 r2 <? 0 then Mem32 (w0 r1) (w1 r1) (w2 r1) (Z.lor (w3 r1) 0x4000000000000000)
             else r1 in
  wf (Sub32 r1' r2).1 /\ val (Sub32 r1' r2).1 = (val r1 - val r2) mod 2 ^ 254.
Proof.
  intros Hw1 Hw2 H1 H2. cbv zeta. rewrite Compare32_spec by done.
  pose proof (mem32_val_range _ Hw1) as [? _]. pose proof (mem32_val_range _ Hw2) as [? _].
  destruct (Z.compare_spec (val r1) (val r2)) as [E|Hlt|Hgt]; cbn [Z.ltb Z.compare].
  - destruct (Sub32_small r1 r2) as [Hw E']; [done|done|lia|]. rewrite E', Z.mod_small by lia. done.
  - set (r1' := Mem32 _ _ _ _).
    assert (Hr1' : wf r1' /\ val r1' = val r1 + 2 ^ 254).
    { destruct Hw1 as (? & ? & ? & ?). subst r1'. unfold wf, val in *. cbn [w0 w1 w2 w3].
      change 0x4000000000000000 with (Z.shiftl 1 62).
      assert (w3 r1 < 2 ^ 62).
      { change (2 ^ 254) with (2 ^ 64 * (2 ^ 64 * (2 ^ 64 * 2 ^ 62))) in H1. unfold is_uint in *. lia. }
      rewrite lor_shiftl by (unfold is_uint in *; lia). unfold is_uint in *.
      change (2 ^ 254) with (2 ^ 64 * (2 ^ 64 * (2 ^ 64 * 2 ^ 62))). lia. }
    destruct Hr1' as [Hw' E']. destruct (Sub32_small r1' r2) as [Hw E'']; [done|done|lia|]. split; [done|].
    rewrite E'', E', <- (Z_mod_plus_full _ 1), Z.mod_small by lia. lia.
  - destruct (Sub32_small r1 r2) as [Hw E']; [done|done|lia|]. rewrite E', Z.mod_small by lia. done.
Qed.

Lemma Reduce_twice n : wf n -> val n < 3 * L -> repr (Reduce (Reduce n)) (val n mod L).
Proof.
  intros Hn Hv. destruct (Reduce_spec n Hn) as [Hw E]. pose proof (mem32_val_range n Hn).
  replace (val n mod L) with (val (Reduce n) mod L).
  - apply Reduce_once; [done|]. rewrite E. destruct (Z.leb_spec L (val n)); lia.
  - rewrite E. destruct (Z.leb_spec L (val n)); [|done].
    replace (val n - L) with (val n + (-1) * L) by ring. apply Z_mod_plus_full.
Qed.

Lemma last_column cols :
  length cols = 8%nat -> Forall (fun y => 0 <= y < 2 ^ 67) cols -> le_combine 64 cols < 2 ^ 508 ->
  0 <= nth 7 cols 0 < 2 ^ 62.
Proof.
  intros Hl Hf. destruct cols as [|p0 [|p1 [|p2 [|p3 [|p4 [|p5 [|p6 [|p7 [|]]]]]]]]]; try done.
  rewrite !Forall_cons in Hf. cbn [nth le_combine].
  change (2 ^ 508) with (2 ^ 64 * (2 ^ 64 * (2 ^ 64 * (2 ^ 64 * (2 ^ 64 * (2 ^ 64 * (2 ^ 64 * 2 ^ 60))))))). lia.
Qed.

(** [r2] is the low part of the estimated quotient times the prime. *)
Lemma barrett_r2_value q3 cols :
  wf q3 -> length cols = 8%nat -> Forall (fun y => 0 <= y < 2 ^ 67) cols ->
  let r2 := barrett_r2 (foldl (mul_prime_step q3) ([0; 0; 0; 0] ++ drop 4 cols) mul_prime_indices) in
  wf r2 /\ val r2 = (val q3 * L) mod 2 ^ 254.
Proof.
  intros Hq Hl Hf. cbv zeta.
  destruct (mul_prime_fold q3 mul_prime_indices ([0; 0; 0; 0] ++ drop 4 cols) 8) as (Hl2 & Hf2 & Hv2).
  - done.
  - apply (bool_decide_unpack _). vm_compute. exact I.
  - rewrite length_app, length_drop, Hl. done.
  - done.
  - vm_compute. done.
  - apply Forall_app. split; [repeat constructor; lia|]. apply Forall_drop.
    eapply Forall_impl; [exact Hf|]. intros x Hx. simpl in Hx. change (8 * 2 ^ 64) with (2 ^ 67). lia.
  - destruct (barrett_r2_spec _ Hl2 Hf2) as [Hw E]. split; [done|]. rewrite E, Hv2, le_combine_app by lia.
    cbn [length]. change (le_combine 64 [0; 0; 0; 0]) with 0. change (2 ^ (64 * Z.of_nat 4)) with (2 ^ 254 * 4).
    rewrite Z.add_0_l. set (S := foldr _ _ _).
    replace (2 ^ 254 * 4 * le_combine 64 (drop 4 cols) + S) with (S + 4 * le_combine 64 (drop 4 cols) * 2 ^ 254) by ring.
    rewrite Z_mod_plus_full. pose proof (mul_prime_sum q3) as Hs. fold S in Hs.
    change (2 ^ 256) with (2 ^ 254 * 4) in Hs. apply (f_equal (fun x => x mod 2 ^ 254)) in Hs.
    rewrite !mod_mul_mod in Hs by lia. done.
Qed.

Lemma BarrettReduce_spec m :
  length m = 8%nat -> Forall (is_uint 64) m -> le_combine 64 m < 2 ^ 506 ->
  repr (BarrettReduce m) (le_combine 64 m mod L).
Proof.
  intros Hl Hf Hm. pose proof (le_combine_range 64 m ltac:(lia) Hf) as [Hm0 _].
  destruct (barrett_q1_spec m Hl Hf Hm) as [Hq1 Eq1], mu_val as [Hmu Emu].
  destruct (Mul32_spec (barrett_q1 m) mu Hq1 Hmu) as (Hpl & Hpv & Hpf).
  destruct (barrett_quotient (le_combine 64 m) ltac:(lia)) as [Hq Hr]. cbv zeta in Hq, Hr.
  rewrite Eq1, Emu in Hpv. unfold BarrettReduce. cbv zeta.
  destruct (Mul32 (barrett_q1 m) mu) as [|c0 cs] eqn:Em; [done|]. cbn [nth tail].
  inversion Hpf as [|? ? Hc0 Hcs]; subst. injection Hpl as Hpl. cbn [le_combine] in Hpv.
  destruct (carry_columns_spec c0 cs ltac:(lia) Hcs) as (Hl1 & Hf1 & Hr1 & Hv1).
  rewrite Hpl in Hl1, Hf1. rewrite Hpv in Hv1.
  set (cols := carry_columns c0 cs) in *. clearbody cols. clear Em Hpf Hcs Hc0 Hpv.
  set (q := le_combine 64 m / 2 ^ 252 * (2 ^ 506 / L)) in *. clearbody q.
  assert (Hlast : 0 <= nth 7 cols 0 < 2 ^ 62).
  { apply last_column; [done|done|]. rewrite Hv1. change (2 ^ 508) with (2 ^ 254 * 2 ^ 254).
    pose proof (Z.mul_succ_div_gt q (2 ^ 254) ltac:(lia)). nia. }
  destruct (barrett_q3_spec cols Hl1 Hf1 Hlast) as [Hq3 Eq3]. rewrite Hv1 in Eq3.
  destruct (barrett_r2_value (barrett_q3 cols) cols Hq3 Hl1 Hr1) as [Hw2 E2]. rewrite Eq3 in E2.
  destruct (barrett_r1_spec m Hl Hf) as [Hw1 E1].
  pose proof (Z.mod_pos_bound (le_combine 64 m) (2 ^ 254) ltac:(lia)).
  pose proof (Z.mod_pos_bound (q / 2 ^ 254 * L) (2 ^ 254) ltac:(lia)).
  destruct (barrett_difference _ _ Hw1 Hw2) as [Hw3 E3]; [lia|lia|].
  rewrite E1, E2, <- Zminus_mod, Z.mod_small in E3 by (unfold L in *; lia).
  replace (le_combine 64 m mod L) with ((le_combine 64 m - q / 2 ^ 254 * L) mod L).
  - rewrite <- E3. apply Reduce_twice; [exact Hw3|]. rewrite E3. lia.
  - replace (le_combine 64 m - q / 2 ^ 254 * L) with (le_combine 64 m + (- (q / 2 ^ 254)) * L) by ring.
    apply Z_mod_plus_full.
Qed.

Lemma mul_spec a b x y : repr a x -> repr b y -> repr (mul a b) ((x * y) mod L).
Proof.
  intros (Ha & Ea & Hx) (Hb & Eb & Hy). unfold mul.
  destruct (Mul32_spec a b Ha Hb) as (Hl & Hv & Hf). rewrite Ea, Eb in Hv.
  destruct (carry_loop_spec 64 8 (Mul32 a b) 0) as (Hl' & Hf' & Hc & Hv'); [lia|lia| |lia|].
  { eapply Forall_impl; [exact Hf|]. simpl. lia. }
  rewrite Hl in Hl', Hv'. rewrite Hv, Z.add_0_r in Hv'. change (2 ^ (64 * Z.of_nat 8)) with (2 ^ 512) in Hv'.
  assert (0 <= x * y <= (L - 1) * (L - 1)) by nia.
  assert (HL : (L - 1) * (L - 1) < 2 ^ 506) by (vm_compute; reflexivity).
  pose proof (le_combine_range 64 _ ltac:(lia) Hf') as [Hr0 _].
  destruct (carry_loop 64 (Mul32 a b) 0) as [n c]. cbn [fst snd] in *.
  assert (c = 0) as -> by (destruct (decide (c = 0)); [done|];
    assert (2 ^ 512 * 1 <= 2 ^ 512 * c) by lia; change (2 ^ 512) with (2 ^ 506 * 64) in *; lia).
  rewrite Z.mul_0_r, Z.add_0_r in Hv'. rewrite <- Hv'. apply BarrettReduce_spec; [done|done|lia].
Qed.

(** ** Properties *)

Lemma eqb_spec a b x y : repr a x -> repr b y -> eqb a b = true <-> x = y.
Proof.
  intros (Ha & Ea & _) (Hb & Eb & _). unfold eqb. rewrite Compare32_spec, Ea, Eb by done.
  destruct (Z.compare_spec x y); cbn [Z.eqb]; split; (done || lia).
Qed.

Lemma zero_repr : repr Zero32 0.
Proof. split; [|done]. unfold wf, Zero32, is_uint. cbn [w0 w1 w2 w3]. lia. Qed.

Lemma opp_spec a x : repr a x -> repr (opp a) ((- x) mod L).
Proof. intros Ha. apply (sub_spec Zero32 a 0 x zero_repr Ha). Qed.

(** C27: the scalar class computes in the integers modulo the group order: on
    canonical scalars the operators, with their word loops, their carry
    propagation and Barrett's reduction of a 512-bit product, return the
    canonical scalar of the sum, difference, product, negation and product by
    a 32-bit integer, equality of the words is equality of the numbers, and
    unpacking any 32 bytes reduces them modulo the order. *)
Theorem sc_refines (a b n : mem32) (x y k : Z) :
  repr a x -> repr b y -> is_uint 32 k -> wf n ->
  repr (add a b) ((x + y) mod L) /\ repr (sub a b) ((x - y) mod L) /\
  repr (mul a b) ((x * y) mod L) /\ repr (opp a) ((- x) mod L) /\
  repr (mul_u32 a k) ((x * k) mod L) /\ (eqb a b = true <-> x = y) /\
  repr (Unpack n) (val n mod L).
Proof.
  intros Ha Hb Hk Hn. refine (conj _ (conj _ (conj _ (conj _ (conj _ (conj _ _)))))).
  - by apply add_spec.
  - by apply sub_spec.
  - by apply mul_spec.
  - by apply opp_spec.
  - by apply mul_u32_spec.
  - by apply eqb_spec.
  - by apply Unpack_spec.
Qed.

Lemma sc_refines_witness :
  repr (mul (Unpack (Mem32 0 0 0 (2 ^ 64 - 1))) (Unpack (Mem32 5 0 0 (2 ^ 63))))
    (((val (Mem32 0 0 0 (2 ^ 64 - 1)) mod L) * (val (Mem32 5 0 0 (2 ^ 63)) mod L)) mod L).
Proof.
  destruct (sc_refines (Unpack (Mem32 0 0 0 (2 ^ 64 - 1))) (Unpack (Mem32 5 0 0 (2 ^ 63))) Zero32
    (val (Mem32 0 0 0 (2 ^ 64 - 1)) mod L) (val (Mem32 5 0 0 (2 ^ 63)) mod L) 7) as (_ & _ & H & _).
  - apply Unpack_spec, (bool_decide_unpack _). vm_compute. exact I.
  - apply Unpack_spec, (bool_decide_unpack _). vm_compute. exact I.
  - apply (bool_decide_unpack _). vm_compute. exact I.
  - apply zero_repr.
  - exact H.
Defined.

(** [Negative] returns the canonical scalar of the negation except on
    zero, where it leaves the group order itself, a second representation of
    zero that differs from it under [operator==]; [operator-] does not. *)
Theorem Negative_zero :
  (forall a x, repr a x -> 0 < x -> repr (Negative a) ((- x) mod L)) /\
  val (Negative Zero32) = L /\ eqb (Negative Zero32) Zero32 = false /\ eqb (opp Zero32) Zero32 = true.
Proof.
  split; [|vm_compute; done]. intros a x (Ha & Ea & Hx) Hp. destruct prime_val as [Hpw Ep].
  destruct (Sub32_small prime a) as [Hw E]; [done|done|rewrite Ep, Ea; lia|]. split; [done|].
  rewrite Ep, Ea in E. unfold Negative. rewrite E.
  rewrite <- (Z_mod_plus_full (- x) 1), Z.mod_small by lia. lia.
Qed.

End SC25519.
