(* ===== verification/Prime25519.v ===== *)
(** * The two primes of the curve

    [p25519 = 2^255 - 19] is the order of the field of
    src/crypto/curve25519/fp25519.cpp and [l25519 = 2^252 + 27742...] that of
    the scalars of src/crypto/curve25519/sc25519.cpp.  That they are prime is
    what makes division in the field and the order of the base point behave as
    the curve code relies on.  The proof is Pocklington's criterion, applied
    along a chain of certificates that a computation checks. *)

From S2P Require Import Prelude.
From Stdlib Require Import Zdivisibility Zmod.

Definition p25519 : Z := 57896044618658097711785492504343953926634992332820282019728792003956564819949.

Definition l25519 : Z := 7237005577332262213973186563042994240857116359379907606001950938285454250989.

(** ** Pocklington's criterion *)

(** Every number above 1 has a prime divisor. *)
Lemma prime_divisor n : 1 < n -> exists r, Z.prime r /\ (r | n).
Proof.
  intros Hn. assert (H0 : 0 <= n) by lia. revert Hn. pattern n. apply Z_lt_induction; [|done].
  clear n H0. intros n IH Hn.
  destruct (decide (Forall (fun k => n mod k <> 0) (seqZ 2 (n - 2)))) as [Hp|Hc].
  - exists n. split; [|apply Z.divide_refl]. split; [done|]. intros k Hk Hd.
    rewrite Forall_forall in Hp. apply (Hp k); [apply elem_of_seqZ; lia|by apply Z.mod0_divide].
  - apply not_Forall_Exists in Hc; [|apply _]. apply Exists_exists in Hc as (k & Hk & Hd).
    apply elem_of_seqZ in Hk. destruct (IH k) as (r & Hr & Hrk); [lia|lia|].
    exists r. split; [done|]. eapply Z.divide_trans; [exact Hrk|]. apply Z.mod_divide; [lia|].
    by apply dec_stable.
Qed.

(** The order of an element modulo a prime divisor [r] of [n] that [q] makes
    visible: [q] divides [r - 1]. *)
Lemma order_divides n a q r :
  Z.prime q -> Z.prime r -> (r | n) -> (q | n - 1) -> 1 < n ->
  (r | a ^ (n - 1) - 1) -> Z.gcd (a ^ ((n - 1) / q) - 1) n = 1 -> (q | r - 1).
Proof.
  intros Hq Hr Hrn Hqn Hn Ha Hg. pose proof (Z.prime_ge_2 _ Hq). pose proof (Z.prime_ge_2 _ Hr).
  destruct (Z.BoolSpec_divide_nz q (r - 1)) as [|Hnd]; [lia|done|exfalso].
  set (e := (n - 1) / q) in *. assert (He : e * q = n - 1).
  { subst e. rewrite Z.mul_comm. symmetry. apply Z_div_exact_full_2; [lia|]. by apply Z.mod_divide; [lia|]. }
  assert (0 <= e) by nia. set (b := Zmod.of_Z r (a ^ e)).
  assert (Hbq : Zmod.pow b q = Zmod.one).
  { subst b. apply Zmod.unsigned_inj. rewrite Zmod.unsigned_pow_nonneg_r, Zmod.unsigned_of_Z by lia.
    rewrite Z.mod_pow_l, <- Z.pow_mul_r, He by lia. rewrite Zmod.unsigned_1_pos by lia.
    rewrite <- (Z.mod_small 1 r) at 2 by lia. apply Z.cong_iff_0, Z.mod_divide; [lia|done]. }
  assert (Hb0 : b <> Zmod.zero).
  { intros E. rewrite E, Zmod.pow_0_l in Hbq by lia. apply (Zmod.one_neq_zero (m := r)); [lia|done]. }
  assert (Hbr : Z.gcd (Zmod.to_Z b) r = 1).
  { apply Z.coprime_mod_l_iff. rewrite Zmod.mod_unsigned. symmetry. apply Z.coprime_prime_l; [done|].
    intros D. apply Hb0, Zmod.unsigned_inj. rewrite Zmod.unsigned_0.
    rewrite <- Zmod.mod_unsigned. by apply Z.mod_divide; [lia|]. }
  pose proof (Z.coprime_prime_l q (r - 1) Hq Hnd) as (u & v & Hb)%Z.Bezout_coprime.
  assert (E1 : b = Zmod.one).
  { rewrite <- (Zmod.pow_1_r b), <- Hb, Zmod.pow_add_r_coprime by done.
    rewrite (Z.mul_comm u), (Z.mul_comm v), !Zmod.pow_mul_r_coprime by done.
    rewrite Hbq. replace (r - 1) with (Z.pred r) by lia.
    rewrite Zmod.fermat_nz by done. rewrite !Zmod.pow_1_l. apply Zmod.mul_1_l. }
  assert (Hr1 : (r | Z.gcd (a ^ e - 1) n)).
  { apply Z.gcd_greatest; [|done]. apply Z.mod_divide; [lia|].
    apply Z.cong_iff_0. rewrite (Z.mod_small 1 r) by lia. rewrite <- Zmod.unsigned_of_Z.
    fold b. rewrite E1. apply Zmod.unsigned_1_pos. lia. }
  rewrite Hg in Hr1. apply Z.divide_pos_le in Hr1; lia.
Qed.

(** Distinct primes that divide a number divide it together. *)
Lemma primes_divide qs m :
  NoDup qs -> Forall Z.prime qs -> Forall (fun q => (q | m)) qs -> (foldr Z.mul 1 qs | m).
Proof.
  intros Hnd Hp Hd. induction Hnd as [|q qs Hq Hnd IH]; [apply Z.divide_1_l|].
  apply Forall_cons in Hp as [Hpq Hp]. apply Forall_cons in Hd as [Hdq Hd]. cbn [foldr].
  destruct (IH Hp Hd) as [c Ec]. assert (Hc : Z.coprime q (foldr Z.mul 1 qs)).
  { apply Z.coprime_prime_l; [done|]. clear -Hq Hpq Hp. induction Hp as [|r qs Hr Hp IH]; cbn [foldr].
    - intros Hd%Z.divide_pos_le; [|lia]. pose proof (Z.prime_ge_2 _ Hpq). lia.
    - apply not_elem_of_cons in Hq as [Hqr Hq]. intros [Hd|Hd]%Z.divide_prime_mul; [|by apply IH|done].
      by apply Hqr, Z.divide_prime_prime. }
  rewrite Ec in Hdq. rewrite Z.mul_comm in Hdq. apply Z.gauss in Hdq as [k Ek]; [|done].
  exists k. rewrite Ec, Ek. ring.
Qed.

(** A certificate: distinct primes whose product exceeds the square root of
    the number, with 2 as the base of the powers *)
Fixpoint power2_mod (n : Z) (e : positive) : Z :=
  match e with
  | xH => 2 mod n
  | xO e => let x := power2_mod n e in (x * x) mod n
  | xI e => let x := power2_mod n e in (2 * (x * x)) mod n
  end.

Definition certifies (n : Z) (qs : list Z) : bool :=
  (1 <? n) && (power2_mod n (Z.to_pos (n - 1)) =? 1) && bool_decide (NoDup qs) &&
  forallb (fun q => (1 <? q) && ((n - 1) mod q =? 0) && (1 <=? (n - 1) / q) &&
    (Z.gcd (power2_mod n (Z.to_pos ((n - 1) / q)) - 1) n =? 1)) qs &&
  (n <? foldr Z.mul 1 qs * foldr Z.mul 1 qs).

Lemma power2_mod_spec n e : power2_mod n e = 2 ^ Z.pos e mod n.
Proof.
  induction e as [e IH|e IH|]; cbn [power2_mod].
  - rewrite IH, <- Zmult_mod_idemp_r, <- Zmult_mod, Zmult_mod_idemp_r. f_equal.
    rewrite (Pos2Z.inj_xI e), Z.pow_add_r, Z.pow_1_r, (Z.mul_comm 2 (Z.pos e)), Z.pow_mul_r, Z.pow_2_r by lia. ring.
  - rewrite IH, <- Zmult_mod. f_equal.
    by rewrite (Pos2Z.inj_xO e), (Z.mul_comm 2 (Z.pos e)), Z.pow_mul_r, Z.pow_2_r by lia.
  - done.
Qed.

Lemma pocklington n qs : certifies n qs = true -> Forall Z.prime qs -> Z.prime n.
Proof.
  unfold certifies. rewrite !andb_true_iff, bool_decide_eq_true, forallb_forall.
  intros ((((Hn & Ha) & Hnd) & Hqs) & Hs) Hp. apply Z.ltb_lt in Hn. apply Z.eqb_eq in Ha. apply Z.ltb_lt in Hs.
  rewrite power2_mod_spec, Z2Pos.id in Ha by lia. set (F := foldr Z.mul 1 qs) in *.
  assert (Hbig : forall m, 1 < m -> (m | n) -> F < m).
  { intros m Hm Hmn. destruct (prime_divisor m Hm) as (r & Hr & Hrm).
    assert (Hrn : (r | n)) by (by eapply Z.divide_trans).
    assert (HF : (F | r - 1)).
    { apply primes_divide; [done|done|]. apply Forall_forall. intros q Hq.
      specialize (Hqs q (proj1 (list_elem_of_In _ _) Hq)). rewrite !andb_true_iff in Hqs. destruct Hqs as (((H1 & H2) & H0) & H3).
      apply Z.ltb_lt in H1. apply Z.eqb_eq in H2, H3. apply Z.leb_le in H0.
      apply (order_divides n 2 q r); [|done|done|by apply Z.mod_divide; [lia|]|done| |].
      - by apply (proj1 (Forall_forall _ _) Hp).
      - eapply Z.divide_trans; [exact Hrn|]. apply Z.mod_divide; [lia|]. apply Z.cong_iff_0.
        by rewrite (Z.mod_small 1 n) by lia.
      - rewrite power2_mod_spec, Z2Pos.id in H3 by lia. etrans; [symmetry|exact H3].
        rewrite <- (Z.gcd_mod_l (_ mod _ - 1)), Zminus_mod_idemp_l. apply Z.gcd_mod_l. }
    pose proof (Z.prime_ge_2 _ Hr). apply Z.divide_pos_le in HF; [|lia].
    apply Z.divide_pos_le in Hrm; [|lia]. lia. }
  split; [done|]. intros m Hm [c Ec]. assert (1 < c) by nia.
  pose proof (Hbig m ltac:(lia) (ex_intro _ c Ec)).
  pose proof (Hbig c ltac:(lia) ltac:(exists m; lia)). assert (0 <= F); [|nia].
  subst F. clear -Hp. induction Hp as [|q qs Hq _ IH]; cbn [foldr]; [lia|]. pose proof (Z.prime_ge_2 _ Hq). nia.
Qed.

Lemma small_prime n : 1 < n -> forallb (fun k => negb (n mod k =? 0)) (seqZ 2 (n - 2)) = true -> Z.prime n.
Proof.
  intros Hn Hf. split; [done|]. intros k Hk Hd. rewrite forallb_forall in Hf.
  specialize (Hf k). rewrite Z.mod0_divide in Hf by done. discriminate Hf. apply list_elem_of_In, elem_of_seqZ. lia.
Qed.

(** ** The two primes *)

(** The chains of certificates: each number with primes
    that are small or certified before it *)
Definition p_chain : list (Z * list Z) :=
  [ (8574133, [991; 103]);
    (1919519569386763, [8574133; 127]);
    (569003, [419; 97]);
    (2773320623, [569003]);
    (72106336199, [2773320623]);
    (75445702479781427272750846543864801, [1919519569386763; 72106336199]);
    (1723, [41; 7]);
    (430751, [1723]);
    (4153, [173]);
    (31757755568855353, [430751; 4153]);
    (74058212732561358302231226437062788676166966415465897661863160754340907, [75445702479781427272750846543864801; 31757755568855353]);
    (57896044618658097711785492504343953926634992332820282019728792003956564819949, [74058212732561358302231226437062788676166966415465897661863160754340907]) ].

Definition l_chain : list (Z * list Z) :=
  [ (2551, [17; 5]);
    (1224481, [2551]);
    (3797, [73]);
    (531581, [3797]);
    (1257559732178653, [1224481; 531581]);
    (4434155615661930479, [1257559732178653]);
    (172054593956031949258510691, [4434155615661930479]);
    (19757330305831588566944191468367130476339, [172054593956031949258510691]);
    (276602624281642239937218680557139826668747, [19757330305831588566944191468367130476339]);
    (7237005577332262213973186563042994240857116359379907606001950938285454250989, [276602624281642239937218680557139826668747]) ].

Definition trial (n : Z) : bool :=
  if (1 <? n) && (n <? 1000) then forallb (fun k => negb (n mod k =? 0)) (seqZ 2 (n - 2)) else false.

Fixpoint chain_ok (known : list Z) (chain : list (Z * list Z)) : bool :=
  match chain with
  | [] => true
  | (n, qs) :: chain =>
      certifies n qs && forallb (fun q => trial q || bool_decide (q ∈ known)) qs && chain_ok (n :: known) chain
  end.

Lemma chain_prime known chain n qs :
  Forall Z.prime known -> chain_ok known chain = true -> (n, qs) ∈ chain -> Z.prime n.
Proof.
  revert known. induction chain as [|[m rs] chain IH]; intros known Hk Hc Hin; [by apply not_elem_of_nil in Hin|].
  cbn [chain_ok] in Hc. rewrite !andb_true_iff, forallb_forall in Hc. destruct Hc as [[Hm Hrs] Hc].
  assert (Hp : Z.prime m).
  { apply (pocklington m rs Hm), Forall_forall. intros q Hq%list_elem_of_In.
    destruct (proj1 (orb_true_iff _ _) (Hrs q Hq)) as [Ht|Hq'%bool_decide_eq_true].
    - unfold trial in Ht. destruct (Z.ltb_spec 1 q); [|done]. destruct (q <? 1000); [|done]. by apply small_prime.
    - by apply (proj1 (Forall_forall _ _) Hk). }
  apply elem_of_cons in Hin as [[= -> _]|Hin]; [done|].
  apply (IH (m :: known)); [by constructor|done|done].
Qed.

Lemma p_chain_ok : chain_ok [] p_chain = true.
Proof. vm_cast_no_check (eq_refl true). Qed.

Lemma l_chain_ok : chain_ok [] l_chain = true.
Proof. vm_cast_no_check (eq_refl true). Qed.

Lemma p25519_prime : Z.prime p25519.
Proof.
  eapply (chain_prime [] p_chain); [constructor|exact p_chain_ok|].
  apply (list_elem_of_lookup_2 _ 11). reflexivity.
Qed.

Lemma l25519_prime : Z.prime l25519.
Proof.
  eapply (chain_prime [] l_chain); [constructor|exact l_chain_ok|].
  apply (list_elem_of_lookup_2 _ 9). reflexivity.
Qed.
