(* ===== verification/FP25519.v ===== *)
(** * The field of the curve (src/crypto/curve25519/fp25519.cpp)

    [CFP25519] holds an element of the field of [2^255 - 19] elements in 32
    bytes.  The operators of the class are translated with their carries, the
    loops of [Range] and [Reduce], the binary extended Euclid of [Inverse] and
    the windowed [Power]; the theorems say that they are the operations of the
    field [Zmod p25519]. *)

From S2P Require Import Prelude Base25519 SC25519 Prime25519.
From Stdlib Require Import Zdivisibility Zmod.

#[export] Instance Zmod_eq_dec (m : Z) : EqDecision (Zmod m).
Proof. intros x y. destruct (Zmod.eqb x y) eqn:E; [left|right]; rewrite <- Zmod.eqb_eq; congruence. Defined.

Module FP25519.
Import base25519.

Definition prime : mem32 :=
  Mem32 0xFFFFFFFFFFFFFFED 0xFFFFFFFFFFFFFFFF 0xFFFFFFFFFFFFFFFF 0x7FFFFFFFFFFFFFFF.

Definition halfPrime : mem32 :=
  Mem32 0xFFFFFFFFFFFFFFF6 0xFFFFFFFFFFFFFFFF 0xFFFFFFFFFFFFFFFF 0x3FFFFFFFFFFFFFFF.

Definition minusOne : mem32 :=
  Mem32 0xFFFFFFFFFFFFFFEC 0xFFFFFFFFFFFFFFFF 0xFFFFFFFFFFFFFFFF 0x7FFFFFFFFFFFFFFF.

(** [while (Compare32(value, prime) >= 0) Sub32(value, value, prime)] *)
Fixpoint Reduce_loop (fuel : nat) (value : mem32) : mem32 :=
  match fuel with
  | O => value
  | S fuel => if 0 <=? Compare32 value prime then Reduce_loop fuel (Sub32 value prime).1 else value
  end.

Definition Reduce (value : mem32) : mem32 := Reduce_loop 3 value.

(** [CFP25519(u64)] and [CFP25519(md32)] *)
Definition of_u64 (x : Z) : mem32 := Copy32_u64 x.

Definition of_bytes (md32 : mem32) : mem32 :=
  Reduce (Mem32 (w0 md32) (w1 md32) (w2 md32) (Z.land (w3 md32) 0x7FFFFFFFFFFFFFFF)).

Definition Pack (value : mem32) : mem32 :=
  if (w3 value =? 0x7FFFFFFFFFFFFFFF) && (w2 value =? 0xFFFFFFFFFFFFFFFF) &&
     (w1 value =? 0xFFFFFFFFFFFFFFFF) && (0xFFFFFFFFFFFFFFED <=? w0 value)
  then Mem32 (u64 (w0 value - 0xFFFFFFFFFFFFFFED)) 0 0 0
  else value.

Definition IsZero (value : mem32) : bool := IsZero32 value.

Definition Parity (value : mem32) : Z :=
  let over := (w3 value =? w3 prime) && (w2 value =? w2 prime) && (w1 value =? w1 prime) &&
              (w0 prime <=? w0 value) in
  u8 (Z.land (Z.lxor (w0 value) (Z.b2z over)) 1).

Definition add (value b : mem32) : mem32 := Reduce (Add32 value b).1.

Definition sub (value b : mem32) : mem32 :=
  let '(value, borrow) := Sub32 value b in
  if 0 <? borrow then (Add32 value prime).1 else value.

(** The inner loop of [Range]: [sum = value[i] + carry; carry = (sum >=
    value[i]) ? 0 : 1; value[i] = sum] *)
Fixpoint range_add (value : list Z) (carry : Z) : list Z * Z :=
  match value with
  | [] => ([], carry)
  | x :: value =>
      let sum := u64 (x + carry) in
      let '(value, carry) := range_add value (if x <=? sum then 0 else 1) in
      (sum :: value, carry)
  end.

(** [while ((carry = ((carry << 1) + (value[3] >> 63)) * 19))] with a 32-bit
    [carry] *)
Fixpoint Range_loop (fuel : nat) (value : mem32) (carry : Z) : mem32 :=
  match fuel with
  | O => value
  | S fuel =>
      let carry := u32 (u64 (u64 (u32 (Z.shiftl carry 1) + Z.shiftr (w3 value) 63) * 19)) in
      if carry =? 0 then value
      else
        let value := Mem32 (w0 value) (w1 value) (w2 value) (Z.land (w3 value) 0x7FFFFFFFFFFFFFFF) in
        let '(value, carry) := range_add (SC25519.words value) carry in
        Range_loop fuel (SC25519.of_words value) carry
  end.

Definition Range (value : mem32) (carry : Z) : mem32 := Reduce (Range_loop 4 value carry).

(** [m[i] += carry + m[i + 4] * 38; carry = m[i] >> 64; value[i] = m[i]], for
    the columns [lo] and [hi] of the product *)
Fixpoint fold_loop (lo hi : list Z) (carry : Z) : list Z * Z :=
  match lo, hi with
  | x :: lo, y :: hi =>
      let m := u128 (x + (carry + y * 38)) in
      let '(value, carry) := fold_loop lo hi (u64 (Z.shiftr m 64)) in
      (u64 m :: value, carry)
  | _, _ => ([], carry)
  end.

Definition mul (value b : mem32) : mem32 :=
  let m := Mul32 value b in
  let '(value, carry) := fold_loop (take 4 m) (drop 4 m) 0 in
  Range (SC25519.of_words value) (u32 carry).

Definition Square (value : mem32) : mem32 := mul value value.

Definition opp (value : mem32) : mem32 := sub Zero32 value.

Definition eqb (value b : mem32) : bool := Compare32 value b =? 0.

(** The [do ... while] loops of [Inverse]: halve [u], and [B] with it modulo
    the prime, until [u] is odd. *)
Definition halve (B : mem32) : mem32 :=
  if IsEven B then HalfSigned32 B else (Sub32 (HalfSigned32 B) halfPrime).1.

Fixpoint halve_loop (fuel : nat) (u B : mem32) : mem32 * mem32 :=
  match fuel with
  | O => (u, B)
  | S fuel =>
      let u := HalfSigned32 u in
      let B := halve B in
      if IsEven u then halve_loop fuel u B else (u, B)
  end.

Definition halve_even (u B : mem32) : mem32 * mem32 :=
  if IsEven u then
    let '(u, B) := halve_loop 256 u B in (u, ReduceSigned32 B prime)
  else (u, B).

Fixpoint Inverse_loop (fuel : nat) (u v B D : mem32) : mem32 :=
  match fuel with
  | O => D
  | S fuel =>
      if IsOne32 v then D
      else
        let '(u, B) := halve_even u B in
        let '(v, D) := halve_even v D in
        if 0 <=? CompareSigned32 u v then
          Inverse_loop fuel (Sub32 u v).1 v (ReduceSigned32 (Sub32 B D).1 prime) D
        else
          Inverse_loop fuel u (Sub32 v u).1 B (ReduceSigned32 (Sub32 D B).1 prime)
  end.

Definition Inverse (value : mem32) : mem32 :=
  if IsZero value then Zero32
  else of_bytes (ReduceSigned32 (Inverse_loop 512 prime value Zero32 (Mem32 1 0 0 0)) prime).

Definition div (value b : mem32) : mem32 := mul value (Inverse b).

(** The table [pre[16]] of [Power] and its loop over the bytes of the
    exponent, the most significant first *)
Definition power_table (x : mem32) : list mem32 :=
  foldl (fun pre i =>
      let y := Square (nth (i / 2) pre Zero32) in pre ++ [y; mul y x])
    [of_u64 1; x] [2; 4; 6; 8; 10; 12; 14]%nat.

Definition square4 (r : mem32) : mem32 := Square (Square (Square (Square r))).

Definition power_step (pre : list mem32) (r : mem32) (b : Z) : mem32 :=
  let r := mul (square4 r) (nth (Z.to_nat (Z.shiftr b 4)) pre Zero32) in
  mul (square4 r) (nth (Z.to_nat (Z.land b 15)) pre Zero32).

Definition bytes (n : mem32) : list Z := le_split 8 32 (val n).

Definition Power (value md32 : mem32) : mem32 :=
  foldl (power_step (power_table value)) (of_u64 1) (rev (bytes md32)).

Definition Power58 (value : mem32) : mem32 :=
  let g := Square (of_bytes value) in
  let g3 := mul value g in
  let g := Nat.iter 251 Square g in
  mul g (Inverse g3).

(** sqrt(-1) *)
Definition sqrt_minus1 : mem32 :=
  Mem32 0xc4ee1b274a0ea0b0 0x2f431806ad2fe478 0x2b4d00993dfbd7a7 0x2b8324804fc1df0b.

Definition Sqrt (value : mem32) : mem32 :=
  if IsZero value then Zero32
  else
    let z58 := Power58 value in
    let z38 := mul z58 value in
    let z14 := mul z58 z38 in
    if IsOne32 z14 then z38
    else if Compare32 z14 minusOne =? 0 then mul z38 (of_bytes sqrt_minus1)
    else Zero32.

(** ** Elements of the field *)

(** The canonical form, and the element of the field it stands for *)
Definition canon (n : mem32) : Prop := wf n /\ val n < p25519.

Notation F := (Zmod p25519).

Definition fe (n : mem32) : F := Zmod.of_Z p25519 (val n).

Ltac fp :=
  unfold p25519 in *;
  change (2 ^ 255) with 57896044618658097711785492504343953926634992332820282019728792003956564819968 in *;
  words.

Lemma prime_p25519 : wf prime /\ val prime = p25519.
Proof. split; [|reflexivity]. unfold wf, prime, is_uint. cbn [w0 w1 w2 w3]. lia. Qed.

Lemma val_nonneg n : wf n -> 0 <= val n.
Proof. intros Hn. pose proof (mem32_val_range n Hn) as H. unfold is_uint in H. lia. Qed.

Lemma fe_mod n z : val n = z mod p25519 -> fe n = Zmod.of_Z p25519 z.
Proof. intros E. unfold fe. rewrite E. apply Zmod.of_Z_mod. Qed.

Lemma canon_mod n z : wf n -> val n = z mod p25519 -> canon n.
Proof. intros Hw E. split; [done|]. rewrite E. apply Z.mod_pos_bound. reflexivity. Qed.

(** Canonical elements are equal when the elements of the field are. *)
Lemma fe_inj n m : canon n -> canon m -> fe n = fe m -> n = m.
Proof.
  intros [Hn Ln] [Hm Lm] E. apply mem32_val_inj; [done|done|].
  apply (f_equal Zmod.to_Z) in E. unfold fe in E. rewrite !Zmod.unsigned_of_Z in E.
  pose proof (val_nonneg n Hn). pose proof (val_nonneg m Hm). by rewrite !Z.mod_small in E by lia.
Qed.

Lemma Reduce_mod n : wf n -> wf (Reduce n) /\ val (Reduce n) = val n mod p25519.
Proof.
  intros Hn. destruct prime_p25519 as [Hp Ep]. pose proof (mem32_val_range n Hn) as Hr.
  unfold Reduce. cbn [Reduce_loop]. rewrite SC25519.Compare32_geb, Ep by done.
  destruct (Z.leb_spec p25519 (val n)) as [L1|L1]; [|split; [done|fp]].
  destruct (Sub32_small n prime) as [Hw1 E1]; [done|done|lia|].
  rewrite SC25519.Compare32_geb, E1, Ep by done.
  destruct (Z.leb_spec p25519 (val n - p25519)) as [L2|L2]; [|split; [done|fp]].
  destruct (Sub32_small (Sub32 n prime).1 prime) as [Hw2 E2]; [done|done|lia|].
  rewrite SC25519.Compare32_geb, E2, E1, Ep by done.
  destruct (Z.leb_spec p25519 (val n - p25519 - p25519)) as [L3|L3]; [|split; [done|fp]].
  exfalso. fp.
Qed.

Lemma land_63 x : Z.land x 0x7FFFFFFFFFFFFFFF = x mod 2 ^ 63.
Proof. apply (Z.land_ones x 63). lia. Qed.

(** The top bit of a number and the rest *)
Lemma top_bit n :
  wf n ->
  let low := Mem32 (w0 n) (w1 n) (w2 n) (Z.land (w3 n) 0x7FFFFFFFFFFFFFFF) in
  wf low /\ val low < 2 ^ 255 /\ 0 <= Z.shiftr (w3 n) 63 <= 1 /\
  val n = val low + 2 ^ 255 * Z.shiftr (w3 n) 63.
Proof.
  intros (H0 & H1 & H2 & H3). cbv zeta. unfold wf, val. cbn [w0 w1 w2 w3].
  rewrite land_63, Z.shiftr_div_pow2 by lia. change (2 ^ 63) with 9223372036854775808. split_and!; fp.
Qed.

Lemma of_bytes_spec n :
  wf n -> wf (of_bytes n) /\ val (of_bytes n) = (val n mod 2 ^ 255) mod p25519.
Proof.
  intros Hn. destruct (top_bit n Hn) as (Hw & Hl & _ & E). unfold of_bytes.
  destruct (Reduce_mod _ Hw) as [Hr Er]. split; [done|]. rewrite Er. f_equal.
  rewrite E, (Z.mul_comm (2 ^ 255)), Z_mod_plus_full, Z.mod_small; [done|].
  split; [by apply val_nonneg|done].
Qed.

Lemma add_val a b :
  canon a -> canon b -> wf (add a b) /\ val (add a b) = (val a + val b) mod p25519.
Proof.
  intros [Ha La] [Hb Lb]. pose proof (val_nonneg a Ha). pose proof (val_nonneg b Hb).
  destruct (Add32_small a b) as [Hw E]; [done|done|fp|]. unfold add.
  destruct (Reduce_mod _ Hw) as [Hr Er]. by rewrite Er, E.
Qed.

Lemma sub_val a b :
  canon a -> canon b -> wf (sub a b) /\ val (sub a b) = (val a - val b) mod p25519.
Proof.
  intros [Ha La] [Hb Lb]. pose proof (val_nonneg a Ha). pose proof (val_nonneg b Hb).
  destruct prime_p25519 as [Hp Ep]. unfold sub. destruct (Sub32_spec a b Ha Hb) as (Hw & Hc & E).
  destruct (Sub32 a b) as [d c]. cbn [fst snd] in *. pose proof (mem32_val_range d Hw).
  destruct (Z.ltb_spec 0 c) as [Hlt|Hle].
  - destruct (Add32_spec d prime Hw Hp) as (Hw2 & Hc2 & E2). rewrite Ep in E2.
    pose proof (mem32_val_range _ Hw2). split; [done|]. assert (c = 1) as -> by lia. fp.
  - split; [done|]. assert (c = 0) as -> by lia. fp.
Qed.

Lemma range_add_spec l c :
  Forall (is_uint 64) l -> is_uint 64 c ->
  length (range_add l c).1 = length l /\ Forall (is_uint 64) (range_add l c).1 /\
  is_uint 64 (range_add l c).2 /\
  le_combine 64 (range_add l c).1 + 2 ^ (64 * Z.of_nat (length l)) * (range_add l c).2 = le_combine 64 l + c.
Proof.
  intros Hl. revert c. induction Hl as [|x l Hx Hl IH]; intros c Hc.
  { cbn [range_add le_combine length fst snd]. change (2 ^ (64 * Z.of_nat 0)) with 1. split_and!; (done || lia). }
  cbn [range_add]. assert (Hs : u64 (x + c) = x + c - 2 ^ 64 * (if x <=? u64 (x + c) then 0 else 1)).
  { destruct (Z.leb_spec x (u64 (x + c))); words. }
  assert (Hc' : is_uint 64 (if x <=? u64 (x + c) then 0 else 1)) by (case_match; words).
  specialize (IH _ Hc'). set (c' := if _ <=? _ then _ else _) in *.
  destruct (range_add l c') as [n' c'']. cbn [fst snd length le_combine] in *.
  destruct IH as (Hn & Hf & Hu & Hv). split_and!; [by rewrite Hn| |done|].
  - constructor; [apply wrap_range; lia|done].
  - rewrite Nat2Z.inj_succ, Z.mul_succ_r, (Z.add_comm (64 * _)), Z.pow_add_r, Hs by lia.
    trans (x + c - 2 ^ 64 * c' + 2 ^ 64 * (le_combine 64 n' + 2 ^ (64 * Z.of_nat (length l)) * c''));
      [ring|rewrite Hv; ring].
Qed.

(** One round of [Range]: the bits from [2^255] on come back 19 times. *)
Lemma range_round n c :
  wf n -> 0 <= c < 2 ^ 20 ->
  let k := u32 (u64 (u64 (u32 (Z.shiftl c 1) + Z.shiftr (w3 n) 63) * 19)) in
  let low := Mem32 (w0 n) (w1 n) (w2 n) (Z.land (w3 n) 0x7FFFFFFFFFFFFFFF) in
  let r := range_add (SC25519.words low) k in
  k = 19 * (2 * c + Z.shiftr (w3 n) 63) /\ 0 <= k < 2 ^ 26 /\
  wf (SC25519.of_words r.1) /\ r.2 = 0 /\ val (SC25519.of_words r.1) = val low + k /\
  wf low /\ val low < 2 ^ 255 /\ val n = val low + 2 ^ 255 * Z.shiftr (w3 n) 63.
Proof.
  intros Hn Hc k low r. destruct (top_bit n Hn) as (Hw & Hl & Ht & E). fold low in Hw, Hl, E.
  set (t := Z.shiftr (w3 n) 63) in *. change (2 ^ 20) with 1048576 in Hc.
  assert (Hk : k = 19 * (2 * c + t)).
  { subst k. rewrite Z.shiftl_mul_pow2 by lia. change (2 ^ 1) with 2.
    rewrite (wrap_small 32 (c * 2)) by (unfold is_uint; change (2 ^ 32) with 4294967296; lia).
    rewrite (wrap_small 64 (c * 2 + t)), (wrap_small 64 ((c * 2 + t) * 19))
      by (unfold is_uint; change (2 ^ 64) with 18446744073709551616; lia).
    rewrite wrap_small by (unfold is_uint; change (2 ^ 32) with 4294967296; lia). lia. }
  assert (Hkr : 0 <= k < 2 ^ 26) by (rewrite Hk; change (2 ^ 26) with 67108864; lia).
  destruct (range_add_spec (SC25519.words low) k) as (Hlen & Hf & Hu & Hv);
    [by apply SC25519.words_wf|unfold is_uint; change (2 ^ 26) with 67108864 in Hkr; words|].
  fold r in Hlen, Hf, Hu, Hv. destruct (SC25519.of_words_val r.1) as [Hwr Evr]; [done|done|].
  rewrite <- Evr, <- SC25519.words_val in Hv. change (2 ^ (64 * Z.of_nat _)) with (2 ^ 256) in Hv.
  pose proof (mem32_val_range _ Hwr). pose proof (val_nonneg low Hw).
  change (2 ^ 26) with 67108864 in *. assert (Hr : r.2 = 0) by fp. split_and!; try (done || lia).
Qed.

Lemma Range_loop_done fuel n : Z.shiftr (w3 n) 63 = 0 -> Range_loop fuel n 0 = n.
Proof. intros E. destruct fuel; [done|]. cbn [Range_loop]. by rewrite E. Qed.

Lemma top_zero n : wf n -> val n < 2 ^ 255 -> Z.shiftr (w3 n) 63 = 0.
Proof. intros Hn Hl. destruct (top_bit n Hn) as (Hw & _ & Ht & E). pose proof (val_nonneg _ Hw). fp. Qed.

Lemma fold_255 a b : (a + 2 ^ 255 * b) mod p25519 = (a + 19 * b) mod p25519.
Proof.
  replace (a + 2 ^ 255 * b) with (a + 19 * b + b * p25519) by (unfold p25519; lia). apply Z_mod_plus_full.
Qed.

Lemma fold_256 a b : (a + 2 ^ 256 * b) mod p25519 = (a + 38 * b) mod p25519.
Proof.
  replace (a + 2 ^ 256 * b) with (a + 38 * b + 2 * b * p25519) by (unfold p25519; lia). apply Z_mod_plus_full.
Qed.

Lemma Range_loop_step fuel n c :
  wf n -> 0 <= c < 2 ^ 20 ->
  exists n1, wf n1 /\ val n1 = val n mod 2 ^ 255 + 19 * (2 * c + val n / 2 ^ 255) /\
    Range_loop (S fuel) n c = Range_loop fuel n1 0.
Proof.
  intros Hn Hc. destruct (range_round n c Hn Hc) as (Hk & Hkr & Hw & Hr2 & Ev & Hlw & Hll & En).
  destruct (top_bit n Hn) as (_ & _ & Ht & _). pose proof (val_nonneg _ Hlw).
  assert (Em : val n mod 2 ^ 255 = val (Mem32 (w0 n) (w1 n) (w2 n) (Z.land (w3 n) 0x7FFFFFFFFFFFFFFF))) by fp.
  assert (Ed : val n / 2 ^ 255 = Z.shiftr (w3 n) 63) by fp.
  rewrite Em, Ed, <- Hk. cbn [Range_loop]. set (k := u32 _) in *. cbv zeta.
  destruct (Z.eqb_spec k 0) as [E0|_].
  - exists n. rewrite Range_loop_done by lia. split_and!; [done|lia|done].
  - destruct (range_add _ k) as [n1 c1]. cbn [fst snd] in *. subst c1. by exists (SC25519.of_words n1).
Qed.

(** Two rounds are enough for a carry of [operator*=]. *)
Lemma Range_spec n c :
  wf n -> 0 <= c < 2 ^ 20 -> wf (Range n c) /\ val (Range n c) = (val n + 2 ^ 256 * c) mod p25519.
Proof.
  intros Hn Hc. unfold Range. destruct (Range_loop_step 3 n c Hn Hc) as (n1 & Hw1 & E1 & ->).
  destruct (Range_loop_step 2 n1 0 Hw1 ltac:(lia)) as (n2 & Hw2 & E2 & ->).
  pose proof (mem32_val_range n Hn). pose proof (val_nonneg n1 Hw1). change (2 ^ 20) with 1048576 in Hc.
  assert (Hs : val n2 < 2 ^ 255) by (clear Hn Hw1 Hw2; fp).
  rewrite Range_loop_done by (by apply top_zero). destruct (Reduce_mod n2 Hw2) as [Hr Er]. split; [done|].
  rewrite Er, E2, Z.mul_0_r, Z.add_0_l, <- fold_255, Z.add_comm, <- Z.div_mod, E1 by lia.
  replace (val n + 2 ^ 256 * c) with (val n mod 2 ^ 255 + 2 ^ 255 * (2 * c + val n / 2 ^ 255)); [by rewrite fold_255|].
  pose proof (Z.div_mod (val n) (2 ^ 255) ltac:(lia)). lia.
Qed.

Lemma fold_loop_spec lo hi c :
  length lo = length hi ->
  Forall (fun x => 0 <= x <= 7 * (2 ^ 64 - 1)) lo -> Forall (fun x => 0 <= x <= 7 * (2 ^ 64 - 1)) hi ->
  0 <= c <= 274 ->
  length (fold_loop lo hi c).1 = length lo /\ Forall (is_uint 64) (fold_loop lo hi c).1 /\
  0 <= (fold_loop lo hi c).2 <= 274 /\
  le_combine 64 (fold_loop lo hi c).1 + 2 ^ (64 * Z.of_nat (length lo)) * (fold_loop lo hi c).2 =
    le_combine 64 lo + 38 * le_combine 64 hi + c.
Proof.
  intros Hlen Hlo. revert hi Hlen c. induction Hlo as [|x lo Hx Hlo IH]; intros [|y hi] Hlen c Hhi Hc; try done.
  { cbn [fold_loop le_combine length fst snd]. change (2 ^ (64 * Z.of_nat 0)) with 1. split_and!; (done || lia). }
  apply Forall_cons in Hhi as [Hy Hhi]. cbn [fold_loop].
  assert (Hs : u128 (x + (c + y * 38)) = x + (c + y * 38)) by words. rewrite Hs.
  assert (Hq : u64 (Z.shiftr (x + (c + y * 38)) 64) = (x + (c + y * 38)) / 2 ^ 64 /\
               0 <= (x + (c + y * 38)) / 2 ^ 64 <= 274).
  { rewrite Z.shiftr_div_pow2 by lia. words. }
  destruct Hq as [Hq Hqr]. rewrite Hq. injection Hlen as Hlen. specialize (IH hi Hlen _ Hhi Hqr).
  destruct (fold_loop lo hi _) as [n' c']. cbn [fst snd length le_combine] in *.
  destruct IH as (Hl & Hf & Hc' & Hv). split_and!; [by rewrite Hl| |lia|lia|].
  - constructor; [apply wrap_range; lia|done].
  - rewrite Nat2Z.inj_succ, Z.mul_succ_r, (Z.add_comm (64 * _)), Z.pow_add_r by lia.
    unfold wrap. pose proof (Z.div_mod (x + (c + y * 38)) (2 ^ 64) ltac:(lia)). nia.
Qed.

Lemma mul_val a b :
  canon a -> canon b -> wf (mul a b) /\ val (mul a b) = (val a * val b) mod p25519.
Proof.
  intros [Ha _] [Hb _]. unfold mul. destruct (Mul32_spec a b Ha Hb) as (Hl & Hv & Hf).
  rewrite <- (take_drop 4 (Mul32 a b)) in Hv, Hf. apply Forall_app in Hf as [Hf1 Hf2].
  rewrite le_combine_app, length_take, Hl in Hv by lia. change (2 ^ (64 * _)) with (2 ^ 256) in Hv.
  destruct (fold_loop_spec (take 4 (Mul32 a b)) (drop 4 (Mul32 a b)) 0) as (Hl' & Hf' & Hc & Hv');
    [by rewrite length_take, length_drop, Hl|done|done|lia|].
  rewrite length_take, Hl in Hl', Hv'. change (2 ^ (64 * _)) with (2 ^ 256) in Hv'.
  destruct (fold_loop _ _ 0) as [n c]. cbn [fst snd] in *. destruct (SC25519.of_words_val n) as [Hw E]; [done|done|].
  rewrite (wrap_small 32) by (unfold is_uint; lia). rewrite <- E in Hv'.
  destruct (Range_spec (SC25519.of_words n) c Hw) as [Hr Er]; [lia|]. split; [done|].
  by rewrite Er, Hv', <- Hv, Z.add_0_r, fold_256.
Qed.

(** The ring operations are those of the field. *)
Lemma fe_add a b : canon a -> canon b -> canon (add a b) /\ fe (add a b) = (fe a + fe b)%Zmod.
Proof.
  intros Ha Hb. destruct (add_val a b Ha Hb) as [Hw E]. split; [by eapply canon_mod|].
  rewrite (fe_mod _ _ E). apply Zmod.of_Z_add.
Qed.

Lemma fe_sub a b : canon a -> canon b -> canon (sub a b) /\ fe (sub a b) = (fe a - fe b)%Zmod.
Proof.
  intros Ha Hb. destruct (sub_val a b Ha Hb) as [Hw E]. split; [by eapply canon_mod|].
  rewrite (fe_mod _ _ E). apply Zmod.of_Z_sub.
Qed.

Lemma fe_mul a b : canon a -> canon b -> canon (mul a b) /\ fe (mul a b) = (fe a * fe b)%Zmod.
Proof.
  intros Ha Hb. destruct (mul_val a b Ha Hb) as [Hw E]. split; [by eapply canon_mod|].
  rewrite (fe_mod _ _ E). apply Zmod.of_Z_mul.
Qed.

Lemma zero_canon : canon Zero32 /\ fe Zero32 = Zmod.zero.
Proof. split; [|done]. split; [|done]. unfold wf, Zero32, is_uint. cbn [w0 w1 w2 w3]. lia. Qed.

Lemma u64_canon x : is_uint 64 x -> canon (of_u64 x) /\ fe (of_u64 x) = Zmod.of_Z p25519 x.
Proof.
  intros Hx. unfold of_u64, Copy32_u64, canon, wf, fe, val. cbn [w0 w1 w2 w3].
  rewrite !Z.mul_0_r, Z.add_0_r. split; [|done]. split; [|fp]. split; [done|]. words.
Qed.

Lemma fe_opp a : canon a -> canon (opp a) /\ fe (opp a) = Zmod.opp (fe a).
Proof.
  intros Ha. destruct zero_canon as [Hz Ez]. destruct (fe_sub Zero32 a Hz Ha) as [Hc E].
  split; [exact Hc|]. unfold opp. rewrite E, Ez. reflexivity.
Qed.

Lemma IsZero32_spec n : wf n -> IsZero32 n = (val n =? 0).
Proof.
  intros (H0 & H1 & H2 & H3). unfold IsZero32, val. apply eq_iff_eq_true.
  rewrite !Z.eqb_eq, !Z.lor_eq_0_iff. unfold is_uint in *. nia.
Qed.

Lemma IsOne32_spec n : wf n -> IsOne32 n = (val n =? 1).
Proof.
  intros (H0 & H1 & H2 & H3). unfold IsOne32, val. apply eq_iff_eq_true.
  rewrite !Z.eqb_eq, !Z.lor_eq_0_iff. split; [intros (((E0 & E1) & E2) & E3)|intros E]; words.
Qed.

Lemma fe_eq_0 a : canon a -> fe a = Zmod.zero <-> val a = 0.
Proof.
  intros Ha. destruct zero_canon as [Hz Ez]. split.
  - intros E. rewrite <- Ez in E. by rewrite (fe_inj _ _ Ha Hz E).
  - intros E. unfold fe. rewrite E. apply Zmod.of_Z_0.
Qed.

Lemma IsZero_spec a : canon a -> IsZero a = bool_decide (fe a = Zmod.zero).
Proof.
  intros Ha. unfold IsZero. rewrite IsZero32_spec by apply Ha. apply eq_iff_eq_true.
  by rewrite Z.eqb_eq, bool_decide_eq_true, fe_eq_0.
Qed.

Lemma eqb_fe a b : canon a -> canon b -> eqb a b = bool_decide (fe a = fe b).
Proof.
  intros Ha Hb. unfold eqb. rewrite Compare32_spec by (apply Ha || apply Hb). apply eq_iff_eq_true.
  rewrite bool_decide_eq_true, Z.eqb_eq. split.
  - destruct (Z.compare_spec (val a) (val b)) as [E|_|_]; [|done..]. intros _. unfold fe. by rewrite E.
  - intros E. rewrite (fe_inj _ _ Ha Hb E). by rewrite Z.compare_refl.
Qed.

End FP25519.
