(* ===== verification/FPInverse.v ===== *)
(** * Inverses, powers and square roots in the field of the curve

    [CFP25519::Inverse] (src/crypto/curve25519/fp25519.cpp) is the binary
    extended Euclidean algorithm on signed 256-bit numbers.  Its loops are
    shown to end within the fuel of [FP25519.Inverse_loop] and to return the
    inverse; [Power], [Power58] and [Sqrt] are the powers and the square root
    of the field. *)

From S2P Require Import Prelude Base25519 SC25519 Prime25519 FP25519.
From Stdlib Require Import Zdivisibility Zmod.

Module FPInverse.
Import base25519 FP25519.

Add Field F25519 : (Zmod.field_theory p25519 p25519_prime).

(** ** Signed numbers of 256 bits *)

Definition sval (n : mem32) : Z := if val n <? 2 ^ 255 then val n else val n - 2 ^ 256.

Lemma sval_val n : wf n -> 0 <= sval n -> sval n = val n.
Proof. intros Hn H. pose proof (mem32_val_range n Hn). unfold sval in *. destruct (Z.ltb_spec (val n) (2 ^ 255)); fp. Qed.

Lemma val_sval n : wf n -> val n < 2 ^ 255 -> sval n = val n.
Proof. intros Hn H. unfold sval. by rewrite (proj2 (Z.ltb_lt _ _) H). Qed.

Lemma sval_mod n : wf n -> val n = sval n mod 2 ^ 256.
Proof. intros Hn. pose proof (mem32_val_range n Hn). unfold sval. destruct (Z.ltb_spec (val n) (2 ^ 255)); fp. Qed.

Lemma sval_unique n z : wf n -> val n mod 2 ^ 256 = z mod 2 ^ 256 -> - 2 ^ 255 <= z < 2 ^ 255 -> sval n = z.
Proof. intros Hn E Hz. pose proof (mem32_val_range n Hn). unfold sval. destruct (Z.ltb_spec (val n) (2 ^ 255)); fp. Qed.

Lemma HalfSigned32_spec n : wf n -> wf (HalfSigned32 n) /\ sval (HalfSigned32 n) = sval n / 2.
Proof.
  intros Hn. destruct (wf_128 n Hn) as [Hlo Hhi]. split; [apply store128_wf|].
  pose proof (val_128 n Hn) as Ev. unfold HalfSigned32. set (lo := lo128 n) in *. set (hi := hi128 n) in *.
  assert (Elo : Z.lor (Z.shiftr lo 1) (u128 (Z.shiftl hi 127)) = lo / 2 + 2 ^ 127 * (hi mod 2)).
  { rewrite Z.shiftl_mul_pow2, Z.shiftr_div_pow2 by lia. change (2 ^ 1) with 2.
    assert (Eh : u128 (hi * 2 ^ 127) = Z.shiftl (hi mod 2) 127).
    { rewrite Z.shiftl_mul_pow2 by lia. change (2 ^ 127) with 170141183460469231731687303715884105728. words. }
    rewrite Eh. apply lor_shiftl; [lia|]. unfold is_uint. change (2 ^ 127) with 170141183460469231731687303715884105728. words. }
  rewrite Elo, Z.shiftr_div_pow2 by lia. change (2 ^ 1) with 2.
  change (2 ^ 127) with 170141183460469231731687303715884105728 in *.
  apply sval_unique; [apply store128_wf| |].
  - rewrite store128_val by (unfold is_uint; words). unfold sval. rewrite Ev.
    destruct (Z.ltb_spec (lo + 2 ^ 128 * hi) (2 ^ 255)); clear Ev Elo; clearbody lo hi; fp.
  - unfold sval. rewrite Ev. destruct (Z.ltb_spec (lo + 2 ^ 128 * hi) (2 ^ 255)); clear Ev Elo; clearbody lo hi; fp.
Qed.

Lemma IsEven_spec n : wf n -> IsEven n = Z.even (sval n).
Proof.
  intros Hn. unfold IsEven, sval. rewrite (Z.land_ones _ 1) by lia. change (2 ^ 1) with 2.
  assert (E : u8 (w0 n) mod 2 = val n mod 2).
  { unfold val. generalize (w1 n + 2 ^ 64 * (w2 n + 2 ^ 64 * w3 n)). intros x. unfold wrap. change (2 ^ 8) with 256. words. }
  rewrite E, Zmod_even. destruct (val n <? 2 ^ 255); [|rewrite Z.even_sub; change (Z.even (2 ^ 256)) with true];
    by destruct (Z.even (val n)).
Qed.

Lemma Sub32_signed a b :
  wf a -> wf b -> - 2 ^ 255 <= sval a - sval b < 2 ^ 255 ->
  wf (Sub32 a b).1 /\ sval (Sub32 a b).1 = sval a - sval b.
Proof.
  intros Ha Hb Hr. destruct (Sub32_spec a b Ha Hb) as (Hw & Hc & E). split; [done|].
  apply sval_unique; [done| |done]. rewrite (sval_mod a Ha), (sval_mod b Hb) in E.
  set (x := val (Sub32 a b).1) in *. rewrite (Zminus_mod (sval a)). rewrite <- E.
  rewrite <- (Z_mod_plus_full _ (- (Sub32 a b).2)). f_equal. ring.
Qed.

Lemma ReduceSigned32_spec n :
  wf n -> - p25519 < sval n < p25519 -> canon (ReduceSigned32 n prime) /\ val (ReduceSigned32 n prime) = sval n mod p25519.
Proof.
  intros Hn Hs. destruct prime_p25519 as [Hp Ep]. pose proof (mem32_val_range n Hn) as Hr.
  assert (Ht : Z.land (Z.shiftr (w3 n) 56) 0x80 = 128 * (val n / 2 ^ 255)).
  { destruct (top_bit n Hn) as (Hlw & Hl & Htop & E). pose proof (val_nonneg _ Hlw).
    assert (E1 : val n / 2 ^ 255 = Z.shiftr (w3 n) 63) by fp. rewrite E1.
    change 56 with (63 - 7). apply Z.bits_inj'. intros i Hi. rewrite Z.land_spec, Z.shiftr_spec by lia.
    destruct (decide (i = 7)) as [->|Hne].
    - change (Z.testbit 128 7) with true. rewrite andb_true_r. rewrite (Z.mul_comm 128), (Z.mul_pow2_bits_add _ 7 0) by lia.
      rewrite Z.shiftr_spec by lia. done.
    - destruct Hn as (_ & _ & _ & H3). assert (Hb : Z.testbit 128 i = false).
      { change 128 with (2 ^ 7). by apply Z.pow2_bits_false. }
      rewrite Hb, andb_false_r. assert (Z.shiftr (w3 n) 63 = 0 \/ Z.shiftr (w3 n) 63 = 1) as [-> | ->] by lia.
      + by rewrite Z.mul_0_r, Z.bits_0.
      + by rewrite Z.mul_1_r. }
  unfold ReduceSigned32. rewrite Ht. unfold sval in *. destruct (Z.ltb_spec (val n) (2 ^ 255)) as [L|L].
  - rewrite (Z.div_small _ _ (conj (val_nonneg n Hn) L)). change (negb _) with false. cbv iota.
    rewrite SC25519.Compare32_geb, Ep by done. rewrite (proj2 (Z.leb_gt _ _)) by lia.
    split; [split; [done|lia]|]. rewrite Z.mod_small; [done|]. pose proof (val_nonneg n Hn). lia.
  - assert (Ed : val n / 2 ^ 255 = 1) by fp. rewrite Ed. change (negb _) with true. cbv iota.
    destruct (Add32_spec n prime Hn Hp) as (Hw & Hc & E). rewrite Ep in E. pose proof (mem32_val_range _ Hw).
    assert (Ev : val (Add32 n prime).1 = (val n - 2 ^ 256) mod p25519) by fp.
    split; [by eapply canon_mod|done].
Qed.

Lemma CompareSigned32_geb a b :
  wf a -> wf b -> val a < 2 ^ 255 -> val b < 2 ^ 255 -> (0 <=? CompareSigned32 a b) = (val b <=? val a).
Proof.
  intros Ha Hb La Lb. pose proof (wf_128 a Ha). pose proof (wf_128 b Hb).
  rewrite !val_128 in * by done. unfold CompareSigned32.
  assert (Ea : i128 (hi128 a) = hi128 a) by fp. assert (Eb : i128 (hi128 b) = hi128 b) by fp. rewrite Ea, Eb.
  symmetry. repeat case_match_eqn; bool_to_prop; cbn [Z.leb Z.compare]; (apply Z.leb_le || apply Z.leb_gt); words.
Qed.

(** ** The inverse *)

Definition cong (a b : Z) : Prop := a mod p25519 = b mod p25519.

Lemma cong_double a b : cong (2 * a) (2 * b) -> cong a b.
Proof.
  unfold cong. rewrite !Z.cong_iff_ex. intros [k E]. assert (Hk : (2 | k)).
  { apply (Z.gauss 2 p25519); [|done]. exists (a - b). lia. }
  destruct Hk as [m ->]. exists m. lia.
Qed.

Lemma halfPrime_sval : wf halfPrime /\ sval halfPrime = (p25519 - 1) / 2.
Proof. split; [|reflexivity]. unfold wf, halfPrime, is_uint. cbn [w0 w1 w2 w3]. lia. Qed.

(** Half of a number modulo the prime *)
Lemma halve_spec B :
  wf B -> - p25519 < sval B < p25519 ->
  wf (halve B) /\ - p25519 < sval (halve B) < p25519 /\ cong (2 * sval (halve B)) (sval B).
Proof.
  intros HB Hs. unfold halve. rewrite IsEven_spec by done.
  destruct (HalfSigned32_spec B HB) as [Hw E]. destruct (Z.even (sval B)) eqn:Ee.
  - apply Z.even_spec in Ee as [k Ek]. rewrite E, Ek, Z.mul_comm, Z.div_mul by lia.
    split; [done|]. split; [fp|]. by rewrite Z.mul_comm.
  - destruct halfPrime_sval as [Hhw Ehp]. rewrite <- Z.negb_odd in Ee. apply negb_false_iff, Z.odd_spec in Ee as [k Ek].
    assert (Ek2 : sval B / 2 = k) by words. rewrite Ek2 in E.
    destruct (Sub32_signed (HalfSigned32 B) halfPrime) as [Hsw Es]; [done|done|rewrite E, Ehp; fp|].
    rewrite E, Ehp in Es. split; [done|]. rewrite Es, Ek. unfold cong. rewrite Z.cong_iff_ex. split; [fp|].
    exists (-1). fp.
Qed.

(** The invariant of [Inverse] for one of its pairs, [u = B * n] modulo the
    prime with [B] in the signed range *)
Definition pair_inv (n : Z) (u B : mem32) : Prop :=
  wf u /\ wf B /\ 0 <= val u < 2 ^ 255 /\ - p25519 < sval B < p25519 /\ cong (val u) (sval B * n).

Lemma halve_step n u B :
  pair_inv n u B -> Z.even (val u) = true ->
  pair_inv n (HalfSigned32 u) (halve B) /\ val u = 2 * val (HalfSigned32 u).
Proof.
  intros (Hu & HB & Hur & HBr & Hc) He. destruct (HalfSigned32_spec u Hu) as [Hw E].
  apply Z.even_spec in He as [k Ek]. rewrite (val_sval u Hu), Ek, Z.mul_comm, Z.div_mul in E by lia.
  rewrite sval_val in E by (done || lia). destruct (halve_spec B HB HBr) as (HBw & HBr' & HBc).
  rewrite E. split; [|lia]. split_and!; try (done || lia). apply cong_double.
  rewrite E, <- Ek. unfold cong in *. rewrite Hc.
  rewrite <- (Zmult_mod_idemp_l (sval B)), <- HBc, Zmult_mod_idemp_l. f_equal. ring.
Qed.

Lemma halve_loop_spec fuel n u B :
  pair_inv n u B -> Z.even (val u) = true -> 0 < val u < 2 ^ Z.of_nat fuel ->
  let r := halve_loop fuel u B in
  pair_inv n r.1 r.2 /\ Z.even (val r.1) = false /\ exists c, 2 <= c /\ val u = c * val r.1.
Proof.
  revert u B. induction fuel as [|fuel IH]; intros u B Hi He Hr r; [change (2 ^ Z.of_nat 0) with 1 in Hr; lia|].
  subst r. cbn [halve_loop]. destruct (halve_step n u B Hi He) as [Hi' E].
  rewrite IsEven_spec by apply Hi'. rewrite val_sval by (apply Hi').
  rewrite Nat2Z.inj_succ, Z.pow_succ_r in Hr by lia. destruct (Z.even (val (HalfSigned32 u))) eqn:Ee.
  - destruct (IH _ _ Hi' Ee ltac:(lia)) as (H1 & H2 & c & Hc & Ec). split_and!; [done|done|].
    exists (2 * c). split; [lia|]. rewrite E, Ec. ring.
  - cbn [fst snd]. split_and!; [done|done|]. exists 2. lia.
Qed.

Lemma cong_range a b : cong a b -> 0 <= a < p25519 -> a = b mod p25519.
Proof. unfold cong. intros E H. by rewrite <- E, Z.mod_small. Qed.

Lemma pair_reduce n u B : pair_inv n u B -> pair_inv n u (ReduceSigned32 B prime) /\ canon (ReduceSigned32 B prime).
Proof.
  intros (Hu & HB & Hur & HBr & Hc). destruct (ReduceSigned32_spec B HB HBr) as [[Hw Hl] E].
  pose proof (val_nonneg _ Hw). split; [|done].
  split_and!; try (done || lia); rewrite ?val_sval by (done || fp); try lia.
  unfold cong in *. by rewrite E, Zmult_mod_idemp_l.
Qed.

Lemma halve_even_spec n u B :
  pair_inv n u B -> canon B -> 0 < val u ->
  let r := halve_even u B in
  pair_inv n r.1 r.2 /\ canon r.2 /\ Z.even (val r.1) = false /\
  exists c, 1 <= c /\ (Z.even (val u) = true -> 2 <= c) /\ val u = c * val r.1.
Proof.
  intros Hi HB Hu r. subst r. unfold halve_even. rewrite IsEven_spec, val_sval by apply Hi.
  destruct (Z.even (val u)) eqn:Ee.
  - destruct (halve_loop_spec 256 n u B Hi Ee) as (Hi' & Ho & c & Hc & Ec).
    { destruct Hi as (_ & _ & Hr & _). change (2 ^ Z.of_nat 256) with (2 * 2 ^ 255). lia. }
    destruct (halve_loop 256 u B) as [u' B']. cbn [fst snd] in *.
    destruct (pair_reduce _ _ _ Hi') as [H1 H2]. split_and!; [done|done|done|]. exists c. split_and!; (done || lia).
  - cbn [fst snd]. split_and!; [done|done|done|]. exists 1. split_and!; (done || lia).
Qed.

Lemma canon_sval B : canon B -> sval B = val B /\ 0 <= val B < p25519.
Proof. intros [HB Hl]. pose proof (val_nonneg B HB). split; [|lia]. apply val_sval; [done|fp]. Qed.

Lemma pair_sub n u v B D :
  pair_inv n u B -> pair_inv n v D -> canon B -> canon D -> val v <= val u ->
  let B' := ReduceSigned32 (Sub32 B D).1 prime in
  pair_inv n (Sub32 u v).1 B' /\ canon B' /\ val (Sub32 u v).1 = val u - val v.
Proof.
  intros (Hu & HB & Hur & HBr & Hc) (Hv & HD & Hvr & HDr & Hc') CB CD Hle B'.
  destruct (canon_sval B CB) as [EB HB']. destruct (canon_sval D CD) as [ED HD'].
  destruct (Sub32_small u v) as [Hw E]; [done|done|done|].
  destruct (Sub32_signed B D) as [HwB EBD]; [done|done|rewrite EB, ED; fp|].
  rewrite EB, ED in *. assert (Hi : pair_inv n (Sub32 u v).1 (Sub32 B D).1).
  { split_and!; try (done || lia). rewrite E, EBD. unfold cong in *.
    rewrite Zminus_mod, Hc, Hc', <- Zminus_mod. f_equal. ring. }
  destruct (pair_reduce _ _ _ Hi) as [H1 H2]. done.
Qed.

Definition state_inv (n : Z) (u v B D : mem32) : Prop :=
  pair_inv n u B /\ pair_inv n v D /\ canon B /\ canon D /\ Z.gcd (val u) (val v) = 1 /\ 0 < val v.

Lemma odd_sub_even a b : Z.even a = false -> Z.even b = false -> Z.even (a - b) = true.
Proof. intros Ha Hb. by rewrite Z.even_sub, Ha, Hb. Qed.

(** The difference of coprime numbers is coprime to each of them. *)
Lemma gcd_parts a b c d : Z.gcd (c * a) (d * b) = 1 -> Z.gcd a b = 1.
Proof.
  intros H. apply Z.gcd_unique; [lia|apply Z.divide_1_l|apply Z.divide_1_l|].
  intros k Ha Hb. rewrite <- H. apply Z.gcd_greatest; by apply Z.divide_mul_r.
Qed.

Lemma Inverse_step fuel n u v B D :
  state_inv n u v B D -> val v <> 1 ->
  exists u1 v1 B1 D1, Inverse_loop (S fuel) u v B D = Inverse_loop fuel u1 v1 B1 D1 /\
    state_inv n u1 v1 B1 D1 /\ val u1 * val v1 <= val u * val v /\
    (Z.even (val u) || Z.even (val v) = true -> 2 * (val u1 * val v1) <= val u * val v) /\
    Z.even (val u1) || Z.even (val v1) = true.
Proof.
  intros (Hu & Hv & HB & HD & Hg & Hv0) Hv1. cbn [Inverse_loop].
  rewrite IsOne32_spec by apply Hv. rewrite (proj2 (Z.eqb_neq _ _) Hv1).
  assert (Hu0 : 0 < val u).
  { destruct (decide (val u = 0)) as [E|]; [|destruct Hu as (_ & _ & ? & _); lia].
    rewrite E, Z.gcd_0_l in Hg. lia. }
  destruct (halve_even_spec n u B Hu HB Hu0) as (Hu' & HB' & Hou & c & Hc1 & Hc2 & Ec).
  destruct (halve_even_spec n v D Hv HD Hv0) as (Hv' & HD' & Hov & d & Hd1 & Hd2 & Ed).
  destruct (halve_even u B) as [u' B'], (halve_even v D) as [v' D']. cbn [fst snd] in *.
  assert (Hpu : 0 < val u') by nia. assert (Hpv : 0 < val v') by nia.
  rewrite Ec, Ed in Hg. apply gcd_parts in Hg.
  assert (Ep : val u * val v = c * d * (val u' * val v')) by (rewrite Ec, Ed; ring).
  assert (Hle : val u' * val v' <= val u * val v).
  { rewrite Ep, <- (Z.mul_1_l (val u' * val v')) at 1. apply Z.mul_le_mono_nonneg_r; nia. }
  assert (Hle2 : Z.even (val u) || Z.even (val v) = true -> 2 * (val u' * val v') <= val u * val v).
  { rewrite orb_true_iff. intros [He|He]; [specialize (Hc2 He)|specialize (Hd2 He)];
      rewrite Ep; apply Z.mul_le_mono_nonneg_r; nia. }
  rewrite CompareSigned32_geb by (apply Hu' || apply Hv'). destruct (Z.leb_spec (val v') (val u')) as [Hcmp|Hcmp].
  - destruct (pair_sub n u' v' B' D') as (Hs & HsB & Es); try done.
    do 4 eexists. split; [reflexivity|]. rewrite Es. split.
    + split_and!; try done. by rewrite Es, Z.gcd_comm, Z.gcd_sub_diag_r, Z.gcd_comm.
    + split_and!; [nia|intros He; specialize (Hle2 He); nia|]. by rewrite odd_sub_even.
  - destruct (pair_sub n v' u' D' B') as (Hs & HsD & Es); try (done || lia).
    do 4 eexists. split; [reflexivity|]. rewrite Es. split.
    + split_and!; try (done || lia). by rewrite Es, Z.gcd_sub_diag_r.
    + split_and!; [nia|intros He; specialize (Hle2 He); nia|]. by rewrite (odd_sub_even (val v')), orb_true_r.
Qed.

Lemma Inverse_done fuel n u v B D :
  state_inv n u v B D -> val v = 1 ->
  canon (Inverse_loop fuel u v B D) /\ cong (val (Inverse_loop fuel u v B D) * n) 1.
Proof.
  intros (Hu & Hv & HB & HD & Hg & Hv0) E. assert (El : Inverse_loop fuel u v B D = D).
  { destruct fuel; [done|]. cbn [Inverse_loop]. by rewrite IsOne32_spec, E by apply Hv. }
  rewrite El. split; [done|]. destruct Hv as (_ & _ & _ & _ & Hc). rewrite E in Hc.
  destruct (canon_sval D HD) as [ED _]. by rewrite <- ED.
Qed.

(** The loop ends: the product of [u] and [v] halves in every round. *)
Lemma Inverse_loop_spec fuel n u v B D :
  state_inv n u v B D -> val u * val v < 2 ^ Z.of_nat fuel -> Z.even (val u) || Z.even (val v) = true ->
  canon (Inverse_loop fuel u v B D) /\ cong (val (Inverse_loop fuel u v B D) * n) 1.
Proof.
  revert u v B D. induction fuel as [|fuel IH]; intros u v B D Hi Hf He.
  - apply Inverse_done; [done|]. destruct Hi as (Hu & Hv & _ & _ & Hg & Hv0). change (2 ^ Z.of_nat 0) with 1 in Hf.
    destruct Hu as (_ & _ & Hur & _). assert (E : val u = 0) by nia. rewrite E, Z.gcd_0_l in Hg. lia.
  - destruct (decide (val v = 1)) as [E|Hne]; [by apply Inverse_done|].
    destruct (Inverse_step fuel n u v B D Hi Hne) as (u1 & v1 & B1 & D1 & -> & Hi1 & _ & Hle & He1).
    specialize (Hle He). rewrite Nat2Z.inj_succ, Z.pow_succ_r in Hf by lia. apply IH; [done|lia|done].
Qed.

Lemma one_canon : canon (Mem32 1 0 0 0) /\ fe (Mem32 1 0 0 0) = Zmod.one.
Proof. apply (u64_canon 1). words. Qed.

Lemma of_bytes_canon a : canon a -> of_bytes a = a.
Proof.
  intros [Ha Hl]. pose proof (val_nonneg a Ha). destruct (of_bytes_spec a Ha) as [Hw E].
  apply mem32_val_inj; [done|done|]. rewrite E, !Z.mod_small; fp.
Qed.

Lemma ReduceSigned32_canon a : canon a -> ReduceSigned32 a prime = a.
Proof.
  intros Ha. destruct (canon_sval a Ha) as [E Hr]. destruct (ReduceSigned32_spec a) as [Hc Ev]; [apply Ha|lia|].
  apply mem32_val_inj; [apply Hc|apply Ha|]. rewrite Ev, E. by apply Z.mod_small.
Qed.

Lemma start_inv a : canon a -> val a <> 0 -> state_inv (val a) prime a Zero32 (Mem32 1 0 0 0).
Proof.
  intros Ha Hz. destruct prime_p25519 as [Hp Ep], zero_canon as [Cz _], one_canon as [Co _].
  destruct (canon_sval _ Ha) as [_ Hr]. split_and!.
  - split_and!; try done; try (apply Cz); rewrite Ep; fp.
  - split_and!; try done; try (apply Ha); try (apply Co); [fp..|].
    change (sval (Mem32 1 0 0 0)) with 1. by rewrite Z.mul_1_l.
  - done.
  - done.
  - rewrite Ep. apply Z.coprime_prime_small; [exact p25519_prime|lia].
  - lia.
Qed.

Lemma Inverse_spec a :
  canon a -> canon (Inverse a) /\ (val a <> 0 -> cong (val (Inverse a) * val a) 1).
Proof.
  intros Ha. destruct (canon_sval _ Ha) as [_ Hr]. unfold Inverse, IsZero. rewrite IsZero32_spec by apply Ha.
  destruct (Z.eqb_spec (val a) 0) as [E|Hz]; [split; [apply zero_canon|lia]|].
  pose proof (start_inv a Ha Hz) as Hi.
  assert (H : canon (Inverse_loop 512 prime a Zero32 (Mem32 1 0 0 0)) /\
              cong (val (Inverse_loop 512 prime a Zero32 (Mem32 1 0 0 0)) * val a) 1).
  { destruct (decide (val a = 1)) as [E1|H1]; [by apply (Inverse_done _ _ _ _ _ _ Hi)|].
    destruct (Inverse_step 511 _ _ _ _ _ Hi H1) as (u1 & v1 & B1 & D1 & -> & Hi1 & Hle & _ & He).
    apply Inverse_loop_spec; [done| |done]. eapply Z.le_lt_trans; [exact Hle|].
    destruct prime_p25519 as [_ Ep]. rewrite Ep. apply Z.lt_trans with (p25519 * p25519); [nia|]. reflexivity. }
  destruct H as [Hc Hcong]. set (D := Inverse_loop _ _ _ _ _) in *.
  rewrite ReduceSigned32_canon, of_bytes_canon by done. done.
Qed.

(** [Inverse] is the inverse of the field, and zero for zero. *)
Lemma fe_inv a : canon a -> canon (Inverse a) /\ fe (Inverse a) = Zmod.inv (fe a).
Proof.
  intros Ha. destruct (Inverse_spec a Ha) as [Hc Hi]. split; [done|].
  destruct (decide (val a = 0)) as [E|Hne].
  - assert (Ez : fe a = Zmod.zero) by (by apply fe_eq_0). rewrite Ez, Zmod.inv_0. apply fe_eq_0; [done|].
    unfold Inverse, IsZero. rewrite IsZero32_spec, E by apply Ha. done.
  - assert (Hz : fe a <> Zmod.zero) by (by rewrite fe_eq_0). apply (Zmod.mul_cancel_r_prime (fe a) _ _ p25519_prime Hz).
    rewrite Zmod.mul_inv_same_l_prime by (exact p25519_prime || done). unfold fe.
    rewrite <- Zmod.of_Z_mul, <- Zmod.of_Z_1. apply Zmod.of_Z_inj. by apply Hi.
Qed.

Lemma fe_div a b : canon a -> canon b -> canon (div a b) /\ fe (div a b) = Zmod.mdiv (fe a) (fe b).
Proof.
  intros Ha Hb. destruct (fe_inv b Hb) as [Hc E]. destruct (fe_mul a (Inverse b) Ha Hc) as [Hm Em].
  split; [done|]. unfold div, Zmod.mdiv. by rewrite Em, E.
Qed.

(** ** Powers *)

Lemma fe_square a : canon a -> canon (Square a) /\ fe (Square a) = (fe a * fe a)%Zmod.
Proof. intros Ha. exact (fe_mul a a Ha Ha). Qed.

(** The first [k] powers of [x] *)
Definition powers (x : mem32) (pre : list mem32) : Prop :=
  forall i : nat, (i < length pre)%nat ->
    canon (nth i pre Zero32) /\ fe (nth i pre Zero32) = Zmod.pow (fe x) (Z.of_nat i).

Lemma powers_snoc x pre y :
  powers x pre -> canon y -> fe y = Zmod.pow (fe x) (Z.of_nat (length pre)) -> powers x (pre ++ [y]).
Proof.
  intros Hp Hy Ey i Hi. rewrite length_app in Hi. cbn [length] in Hi.
  destruct (decide (i < length pre)%nat) as [Hlt|Hge].
  - rewrite app_nth1 by done. by apply Hp.
  - assert (i = length pre) as -> by lia. rewrite app_nth2, Nat.sub_diag by lia. done.
Qed.

Lemma power_table_step x pre i :
  canon x -> powers x pre -> length pre = (2 * i)%nat -> (0 < i)%nat ->
  let y := Square (nth (2 * i / 2) pre Zero32) in
  powers x (pre ++ [y; mul y x]) /\ length (pre ++ [y; mul y x]) = (2 * S i)%nat.
Proof.
  intros Hx Hp Hl Hi y. rewrite length_app. cbn [length]. split; [|lia].
  assert (E2 : (2 * i / 2)%nat = i) by (rewrite Nat.mul_comm; apply Nat.div_mul; lia).
  subst y. rewrite E2. destruct (Hp i) as [Hc E]; [lia|].
  destruct (fe_square _ Hc) as [Hcs Es]. destruct (fe_mul _ x Hcs Hx) as [Hcm Em].
  set (y := Square _) in *. change (pre ++ [y; mul y x]) with (pre ++ ([y] ++ [mul y x])). rewrite app_assoc.
  assert (Ey : fe y = Zmod.pow (fe x) (Z.of_nat (length pre))).
  { rewrite Es, E, <- Zmod.pow_add_r_nonneg by lia. f_equal. lia. }
  apply powers_snoc; [by apply powers_snoc|done|].
  rewrite Em, Ey, length_app. cbn [length]. rewrite Nat.add_1_r, Nat2Z.inj_succ, Zmod.pow_succ_nonneg_r by lia.
  apply Zmod.mul_comm.
Qed.

Lemma power_table_fold x n i pre :
  canon x -> powers x pre -> length pre = (2 * i)%nat -> (0 < i)%nat ->
  let r := foldl (fun pre i => let y := Square (nth (i / 2) pre Zero32) in pre ++ [y; mul y x])
    pre (map (Nat.mul 2) (seq i n)) in
  powers x r /\ length r = (2 * (i + n))%nat.
Proof.
  intros Hx. revert i pre. induction n as [|n IH]; intros i pre Hp Hl Hi.
  - rewrite Nat.add_0_r. by split.
  - destruct (power_table_step x pre i Hx Hp Hl Hi) as [Hp' Hl'].
    destruct (IH (S i) _ Hp' Hl' (Nat.lt_0_succ i)) as [H1 H2].
    rewrite Nat.add_succ_r. exact (conj H1 H2).
Qed.

Lemma power_table_spec x : canon x -> powers x (power_table x) /\ length (power_table x) = 16%nat.
Proof.
  intros Hx. refine (power_table_fold x 7 1 [of_u64 1; x] Hx _ eq_refl Nat.lt_0_1).
  destruct one_canon as [Co Eo]. intros [|[|i]] Hi; cbn [nth]; [| |cbn in Hi; lia].
  - split; [exact Co|]. rewrite Zmod.pow_0_r. exact Eo.
  - split; [done|]. by rewrite Zmod.pow_1_r.
Qed.

Lemma square4_spec a : canon a -> canon (square4 a) /\ fe (square4 a) = Zmod.pow (fe a) 16.
Proof.
  intros H0. unfold square4. destruct (fe_square a H0) as [H1 E1]. destruct (fe_square _ H1) as [H2 E2].
  destruct (fe_square _ H2) as [H3 E3]. destruct (fe_square _ H3) as [H4 E4]. split; [done|].
  rewrite E4, E3, E2, E1, <- !Zmod.pow_2_r, <- !Zmod.pow_mul_r_nonneg by lia. done.
Qed.

Lemma power_step_spec x pre r b :
  powers x pre -> length pre = 16%nat -> canon r -> is_uint 8 b ->
  canon (power_step pre r b) /\ fe (power_step pre r b) = (Zmod.pow (fe r) 256 * Zmod.pow (fe x) b)%Zmod.
Proof.
  intros Hp Hl Hr Hb. unfold power_step. change 15 with (Z.ones 4). rewrite Z.land_ones, Z.shiftr_div_pow2 by lia.
  change (2 ^ 4) with 16. unfold is_uint in Hb. change (2 ^ 8) with 256 in Hb.
  assert (Hh : 0 <= b / 16 < 16 /\ 0 <= b mod 16 < 16 /\ b = 16 * (b / 16) + b mod 16) by words.
  destruct Hh as (Hh & Hm & Eb). destruct (Hp (Z.to_nat (b / 16))) as [Ch Eh]; [lia|].
  destruct (Hp (Z.to_nat (b mod 16))) as [Cm Em]; [lia|]. rewrite Z2Nat.id in Eh, Em by lia.
  destruct (square4_spec r Hr) as [C1 E1]. destruct (fe_mul _ _ C1 Ch) as [C2 E2].
  destruct (square4_spec _ C2) as [C3 E3]. destruct (fe_mul _ _ C3 Cm) as [C4 E4]. split; [done|].
  rewrite E4, E3, E2, E1, Eh, Em, Zmod.pow_mul_l_nonneg, <- !Zmod.pow_mul_r_nonneg, <- Zmod.mul_assoc by lia.
  rewrite <- Zmod.pow_add_r_nonneg by lia. do 2 f_equal. lia.
Qed.

Lemma power_fold x pre l :
  powers x pre -> length pre = 16%nat -> Forall (is_uint 8) l ->
  let r := foldl (power_step pre) (of_u64 1) (rev l) in
  canon r /\ fe r = Zmod.pow (fe x) (le_combine 8 l).
Proof.
  intros Hp Hl Hf. induction Hf as [|b l Hb Hf IH]; cbn [rev le_combine].
  - split; [apply one_canon|]. rewrite Zmod.pow_0_r. apply one_canon.
  - rewrite foldl_app. cbn [foldl]. destruct IH as [Hc E].
    destruct (power_step_spec x pre _ b Hp Hl Hc Hb) as [Hc' E']. split; [exact Hc'|].
    pose proof (le_combine_range 8 l ltac:(lia) Hf) as [H0 _]. unfold is_uint in Hb.
    rewrite E', E, <- Zmod.pow_mul_r_nonneg, <- Zmod.pow_add_r_nonneg by lia.
    f_equal. change (2 ^ 8) with 256. ring.
Qed.

Lemma bytes_spec n : wf n -> Forall (is_uint 8) (bytes n) /\ le_combine 8 (bytes n) = val n.
Proof.
  intros Hn. split; [apply le_split_range; lia|]. unfold bytes. rewrite le_combine_split by lia.
  apply Z.mod_small. apply (mem32_val_range n Hn).
Qed.

Lemma fe_power a e : canon a -> wf e -> canon (Power a e) /\ fe (Power a e) = Zmod.pow (fe a) (val e).
Proof.
  intros Ha He. destruct (power_table_spec a Ha) as [Hp Hl]. destruct (bytes_spec e He) as [Hf E].
  rewrite <- E. exact (power_fold a _ _ Hp Hl Hf).
Qed.

(** ** Square roots *)

Lemma iter_square_spec n a :
  canon a -> canon (Nat.iter n Square a) /\ fe (Nat.iter n Square a) = Zmod.pow (fe a) (2 ^ Z.of_nat n).
Proof.
  intros Ha. induction n as [|n [Hc E]]; [split; [done|]; symmetry; apply Zmod.pow_1_r|].
  rewrite Nat.iter_succ. destruct (fe_square _ Hc) as [Hs Es]. split; [exact Hs|].
  rewrite Es, E, <- Zmod.pow_2_r, <- Zmod.pow_mul_r_nonneg by lia. f_equal.
  rewrite Nat2Z.inj_succ, Z.pow_succ_r by lia. lia.
Qed.

Lemma pow_3_r (x : F) : Zmod.pow x 3 = (x * (x * x))%Zmod.
Proof. change 3 with (Z.succ 2). by rewrite Zmod.pow_succ_nonneg_r, Zmod.pow_2_r by lia. Qed.

Lemma fe_mul_nz (x y : F) : x <> Zmod.zero -> y <> Zmod.zero -> (x * y)%Zmod <> Zmod.zero.
Proof. intros Hx Hy E. apply Zmod.mul_0_iff_prime in E as [E|E]; [done|done|exact p25519_prime]. Qed.

Lemma power58_spec a :
  canon a -> fe a <> Zmod.zero ->
  canon (Power58 a) /\ fe (Power58 a) = Zmod.pow (fe a) (2 ^ 252 - 3).
Proof.
  intros Ha Hz. unfold Power58. rewrite (of_bytes_canon a Ha). cbv zeta.
  destruct (fe_square a Ha) as [Cg Eg]. destruct (fe_mul a (Square a) Ha Cg) as [C3 E3].
  destruct (iter_square_spec 251 _ Cg) as [Ci Ei]. destruct (fe_inv _ C3) as [Cv Ev].
  destruct (fe_mul _ _ Ci Cv) as [Cm Em]. split; [exact Cm|].
  assert (E3' : fe (mul a (Square a)) = Zmod.pow (fe a) 3) by (rewrite pow_3_r, E3, Eg; done).
  assert (Hn3 : fe (mul a (Square a)) <> Zmod.zero) by (rewrite E3, Eg; by apply fe_mul_nz, fe_mul_nz).
  apply (Zmod.mul_cancel_r_prime _ _ _ p25519_prime Hn3).
  rewrite Em, Ev, <- Zmod.mul_assoc, Zmod.mul_inv_same_l_prime by (exact p25519_prime || done).
  rewrite Zmod.mul_1_r, Ei, Eg, E3', <- Zmod.pow_2_r, <- Zmod.pow_mul_r_nonneg, <- Zmod.pow_add_r_nonneg by lia.
  f_equal.
Qed.

(** The element -1 and the square root of it that the code uses *)
Lemma minus_one : canon minusOne /\ fe minusOne = Zmod.opp Zmod.one.
Proof.
  split; [|vm_compute; reflexivity]. split; [|reflexivity]. unfold wf, minusOne, is_uint. cbn [w0 w1 w2 w3]. lia.
Qed.

Definition root_i : F := fe (of_bytes sqrt_minus1).

Lemma sqrt_minus1_spec : canon (of_bytes sqrt_minus1) /\ (root_i * root_i = Zmod.opp Zmod.one)%Zmod.
Proof.
  assert (Hw : wf sqrt_minus1) by (unfold wf, sqrt_minus1, is_uint; cbn [w0 w1 w2 w3]; lia).
  split; [|vm_compute; reflexivity]. destruct (of_bytes_spec _ Hw) as [Hc E]. by eapply canon_mod.
Qed.

(** Fermat: the square of an element has order dividing [(p - 1) / 2]. *)
Lemma square_pow (r : F) : r <> Zmod.zero -> Zmod.pow (Zmod.pow (r * r)%Zmod (2 ^ 253 - 5)) 2 = Zmod.one.
Proof.
  intros Hr. rewrite <- Zmod.pow_2_r, <- !Zmod.pow_mul_r_nonneg by lia.
  change (2 * ((2 ^ 253 - 5) * 2)) with (Z.pred p25519). apply Zmod.fermat_nz; [done|exact p25519_prime].
Qed.

(** The three outcomes of the power [(p - 1) / 4] *)
Lemma root_cases (x z38 z14 : F) :
  x <> Zmod.zero -> (z38 * z38 = z14 * x)%Zmod -> z14 = Zmod.pow x (2 ^ 253 - 5) ->
  (z14 = Zmod.one -> (z38 * z38 = x)%Zmod) /\
  (z14 = Zmod.opp Zmod.one -> (z38 * root_i * (z38 * root_i) = x)%Zmod) /\
  (z14 <> Zmod.one -> z14 <> Zmod.opp Zmod.one -> forall r, (r * r)%Zmod <> x).
Proof.
  intros Hx E38 E14. destruct sqrt_minus1_spec as [_ Ei]. revert Ei. generalize root_i. intros i Ei. split_and!.
  - intros ->. rewrite E38. ring.
  - intros ->. trans ((z38 * z38) * (i * i))%Zmod; [ring|]. rewrite Ei, E38. ring.
  - intros H1 H2 r Hr. assert (Hrz : r <> Zmod.zero) by (intros ->; apply Hx; rewrite <- Hr; ring).
    pose proof (square_pow r Hrz) as Hsq. rewrite Hr, <- E14 in Hsq.
    apply (Zmod.square_roots_1_prime p25519_prime) in Hsq as [Eo|Eo]; [exact (H1 Eo)|exact (H2 Eo)].
Qed.

Lemma sqrt_powers a :
  canon a -> fe a <> Zmod.zero ->
  let z38 := mul (Power58 a) a in let z14 := mul (Power58 a) z38 in
  canon z38 /\ canon z14 /\ (fe z38 * fe z38 = fe z14 * fe a)%Zmod /\ fe z14 = Zmod.pow (fe a) (2 ^ 253 - 5).
Proof.
  intros Ha Hz z38 z14. destruct (power58_spec a Ha Hz) as [C58 E58]. destruct (fe_mul _ a C58 Ha) as [C38 E38].
  destruct (fe_mul _ _ C58 C38) as [C14 E14]. fold z38 in C38, E38, C14, E14. fold z14 in C14, E14.
  refine (conj C38 (conj C14 (conj _ _))).
  - rewrite E14, E38. generalize (fe (Power58 a)) (fe a). intros x y. ring.
  - rewrite E14, E38, E58, Zmod.mul_assoc, <- Zmod.pow_add_r_nonneg by lia.
    rewrite Zmod.mul_comm, <- Zmod.pow_succ_nonneg_r by lia. f_equal.
Qed.

(** [Sqrt] returns a root of every square and zero of everything else. *)
Lemma sqrt_spec a :
  canon a -> canon (Sqrt a) /\
  ((fe (Sqrt a) * fe (Sqrt a))%Zmod = fe a \/
   fe (Sqrt a) = Zmod.zero /\ forall r, (r * r)%Zmod <> fe a).
Proof.
  intros Ha. destruct zero_canon as [Cz Ez]. unfold Sqrt. rewrite (IsZero_spec a Ha).
  destruct (decide (fe a = Zmod.zero)) as [E0|Hz]; [rewrite bool_decide_true by exact E0|rewrite bool_decide_false by exact Hz].
  { rewrite Ez, E0. split; [exact Cz|]. left. apply Zmod.mul_0_l. }
  pose proof (sqrt_powers a Ha Hz) as H. cbv zeta in H |- *. revert H.
  generalize (mul (Power58 a) (mul (Power58 a) a)). intros z14.
  generalize (mul (Power58 a) a). intros z38 (C38 & C14 & E38 & E14).
  destruct (root_cases _ _ _ Hz E38 E14) as (R1 & R2 & R3). destruct one_canon as [C1 E1], minus_one as [Cm Em].
  rewrite IsOne32_spec by apply C14. destruct (Z.eqb_spec (val z14) 1) as [Eq|Hne].
  { assert (fe z14 = Zmod.one) as Eo by (unfold fe; rewrite Eq; apply Zmod.of_Z_1).
    exact (conj C38 (or_introl (R1 Eo))). }
  fold (eqb z14 minusOne). rewrite (eqb_fe _ _ C14 Cm), Em.
  destruct (decide (fe z14 = Zmod.opp Zmod.one)) as [Eo|Ho];
    [rewrite bool_decide_true by exact Eo|rewrite bool_decide_false by exact Ho].
  - destruct sqrt_minus1_spec as [Ci _]. destruct (fe_mul _ _ C38 Ci) as [Cr Er]. fold root_i in Er.
    specialize (R2 Eo). rewrite <- Er in R2. exact (conj Cr (or_introl R2)).
  - refine (conj Cz (or_intror (conj Ez (R3 _ Ho)))).
    intros Eo. apply Hne. rewrite <- E1 in Eo. rewrite (fe_inj _ _ C14 C1 Eo). reflexivity.
Qed.

(** C28: the operators of [CFP25519] on four 64-bit words implement the field
    of the integers modulo [2^255 - 19], a prime: from canonical arguments
    every operator gives the canonical form of the field's result; [Inverse]
    and [/] give [0] for an inverse of [0]; [Sqrt] gives a square root when
    there is one, and [0] otherwise; the tests decide equality. *)
Theorem field_refines (a b e : mem32) :
  canon a -> canon b -> wf e ->
  (canon (add a b) /\ fe (add a b) = (fe a + fe b)%Zmod) /\
  (canon (sub a b) /\ fe (sub a b) = (fe a - fe b)%Zmod) /\
  (canon (mul a b) /\ fe (mul a b) = (fe a * fe b)%Zmod) /\
  (canon (div a b) /\ fe (div a b) = Zmod.mdiv (fe a) (fe b)) /\
  (canon (Inverse a) /\ (fe a <> Zmod.zero -> (fe a * fe (Inverse a))%Zmod = Zmod.one) /\
    (fe a = Zmod.zero -> fe (Inverse a) = Zmod.zero)) /\
  (canon (Power a e) /\ fe (Power a e) = Zmod.pow (fe a) (val e)) /\
  (canon (Sqrt a) /\ ((fe (Sqrt a) * fe (Sqrt a))%Zmod = fe a \/
    fe (Sqrt a) = Zmod.zero /\ forall r, (r * r)%Zmod <> fe a)) /\
  eqb a b = bool_decide (fe a = fe b) /\ IsZero a = bool_decide (fe a = Zmod.zero) /\ Z.prime p25519.
Proof.
  intros Ha Hb He. destruct (fe_inv a Ha) as [Ci Ei].
  refine (conj (fe_add a b Ha Hb) (conj (fe_sub a b Ha Hb) (conj (fe_mul a b Ha Hb) (conj (fe_div a b Ha Hb)
    (conj (conj Ci (conj _ _)) (conj (fe_power a e Ha He) (conj (sqrt_spec a Ha) (conj (eqb_fe a b Ha Hb)
    (conj (IsZero_spec a Ha) p25519_prime))))))))); intros Hz; rewrite Ei.
  - apply Zmod.mul_inv_same_r_prime; [exact p25519_prime|exact Hz].
  - rewrite Hz. apply Zmod.inv_0.
Qed.

Lemma field_refines_witness :
  let a := Mem32 4 0 0 0x7000000000000000 in let b := Mem32 0 7 0 1 in
  fe (mul a b) = (fe a * fe b)%Zmod /\ eqb a b = bool_decide (fe a = fe b).
Proof.
  intros a b. destruct (field_refines a b a) as (_ & _ & [_ H1] & _ & _ & _ & _ & H2 & _).
  - apply (bool_decide_unpack _). vm_compute. exact I.
  - apply (bool_decide_unpack _). vm_compute. exact I.
  - apply (bool_decide_unpack _). vm_compute. exact I.
  - split; [exact H1|exact H2].
Defined.

End FPInverse.
