(* ===== verification/Edwards.v ===== *)
(** * The Edwards curve over the field of [2^255 - 19] elements

    The curve [y^2 - x^2 = 1 + d x^2 y^2] on which
    src/crypto/curve25519/ed25519.cpp computes, in affine coordinates.  Its
    addition is complete because [d] is not a square and -1 is one; with it
    the points are a commutative group.  This is the specification that the
    projective coordinates of the code are shown to implement. *)

From S2P Require Import Prelude Base25519 SC25519 Prime25519 FP25519 FPInverse.
From Stdlib Require Import Zdivisibility Zmod Field.

Module Edwards.
Import FP25519.
Open Scope Zmod_scope.

Add Field F25519 : (Zmod.field_theory p25519 p25519_prime).

Notation "0" := (@Zmod.zero p25519) : Zmod_scope.
Notation "1" := (@Zmod.one p25519) : Zmod_scope.

(** -121665/121666 *)
Definition d : F :=
  Zmod.of_Z p25519 0x52036cee2b6ffe738cc740797779e89800700a4d4141d8ab75eb4dca135978a3.

Definition point : Type := F * F.

Definition on_curve (P : point) : Prop :=
  P.2 * P.2 - P.1 * P.1 = 1 + d * (P.1 * P.1) * (P.2 * P.2).

Definition zero : point := (0, 1).

Definition opp (P : point) : point := (Zmod.opp P.1, P.2).

Definition cross (P Q : point) : F := d * P.1 * Q.1 * P.2 * Q.2.

Definition add (P Q : point) : point :=
  (Zmod.mdiv (P.1 * Q.2 + Q.1 * P.2) (1 + cross P Q),
   Zmod.mdiv (P.2 * Q.2 + P.1 * Q.1) (1 - cross P Q)).

Fixpoint times (n : nat) (P : point) : point :=
  match n with
  | O => zero
  | S n => add P (times n P)
  end.

(** ** The constant [d] *)

(** Powers of a small number, with the bits from [2^255] on folded back *)
Definition fold_p (z : Z) : Z := (Z.land z (Z.ones 255) + 19 * Z.shiftr z 255)%Z.

Fixpoint power_p (a : Z) (e : positive) : Z :=
  match e with
  | xH => a
  | xO e => let x := power_p a e in fold_p (x * x)
  | xI e => let x := power_p a e in fold_p (a * fold_p (x * x))
  end.

Lemma fold_p_spec z : Zmod.of_Z p25519 (fold_p z) = Zmod.of_Z p25519 z.
Proof.
  apply Zmod.of_Z_inj. unfold fold_p. rewrite Z.land_ones, Z.shiftr_div_pow2 by lia.
  rewrite <- fold_255, Z.add_comm, <- Z.div_mod by lia. done.
Qed.

Lemma power_p_spec a e : Zmod.of_Z p25519 (power_p a e) = Zmod.pow (Zmod.of_Z p25519 a) (Z.pos e).
Proof.
  induction e as [e IH|e IH|]; cbn [power_p].
  - rewrite fold_p_spec, Zmod.of_Z_mul, fold_p_spec, Zmod.of_Z_mul, IH, <- Zmod.pow_2_r, <- Zmod.pow_mul_r_nonneg by lia.
    rewrite <- Zmod.pow_succ_nonneg_r by lia. f_equal. lia.
  - rewrite fold_p_spec, Zmod.of_Z_mul, IH, <- Zmod.pow_2_r, <- Zmod.pow_mul_r_nonneg by lia. f_equal. lia.
  - symmetry. apply Zmod.pow_1_r.
Qed.

Definition half_exponent : positive := Eval vm_compute in Z.to_pos (2 * (2 ^ 253 - 5)).

Lemma nonresidue : Zmod.eqb (Zmod.of_Z p25519 (power_p (-121665 * 121666) half_exponent)) (Zmod.opp 1) = true.
Proof. vm_cast_no_check (eq_refl true). Qed.

Lemma d_scaled : d * (Zmod.of_Z p25519 121666 * Zmod.of_Z p25519 121666) = Zmod.of_Z p25519 (-121665 * 121666).
Proof. vm_compute. reflexivity. Qed.

Lemma d_nonsquare (s : F) : s * s <> d.
Proof.
  intros E. set (m := Zmod.of_Z p25519 121666).
  assert (Es : (s * m) * (s * m) = Zmod.of_Z p25519 (-121665 * 121666)).
  { rewrite <- d_scaled, <- E. fold m. generalize m. intros. ring. }
  assert (Hs : s * m <> 0).
  { intros H0. rewrite H0, Zmod.mul_0_l in Es. revert Es. vm_compute. discriminate. }
  pose proof (FPInverse.square_pow _ Hs) as Hp. rewrite Es, <- Zmod.pow_mul_r_nonneg in Hp by lia.
  pose proof nonresidue as Hn. apply Zmod.eqb_eq in Hn. rewrite power_p_spec in Hn.
  change (Z.pos half_exponent) with ((2 ^ 253 - 5) * 2)%Z in Hn. rewrite Hn in Hp. revert Hp. vm_compute. discriminate.
Qed.

Lemma two_nz : 1 + 1 <> 0.
Proof. vm_compute. discriminate. Qed.

Lemma mul_nz (x y : F) : x <> 0 -> y <> 0 -> x * y <> 0.
Proof. apply FPInverse.fe_mul_nz. Qed.

Lemma mul_eq_0 (x y : F) : x * y = 0 -> x = 0 \/ y = 0.
Proof. apply Zmod.mul_0_iff_prime. exact p25519_prime. Qed.

(** ** Polynomials that vanish on the curve

    From here on [d] and the root of -1 are variables of the algebra.  An
    identity between coordinates of points of the curve is a combination of
    the equations of the points, with the cofactors written out. *)

Section Algebra.
Variables d i : F.
Hypothesis i_square : i * i = Zmod.opp 1.
Hypothesis d_not_square : forall s, s * s <> d.

Definition equation (x y : F) : F := y * y - x * x - 1 - d * (x * x) * (y * y).

Lemma addition_closed x1 y1 x2 y2 :
  equation x1 y1 = 0 -> equation x2 y2 = 0 ->
  let k := d * x1 * x2 * y1 * y2 in let x := x1 * y2 + x2 * y1 in let y := y1 * y2 + x1 * x2 in
  y * y * ((1 + k) * (1 + k)) - x * x * ((1 - k) * (1 - k)) =
  (1 + k) * (1 + k) * ((1 - k) * (1 - k)) + d * (x * x) * (y * y).
Proof.
  intros H1 H2. cbv zeta. apply Zmod.sub_eq_0_iff.
  trans (equation x1 y1 *
     (y2 * y2 * y2 * y2 + x2 * x2 * (y2 * y2 * (- ((1 + 1 + 1 + 1)) + d * (- ((1 + 1)))) + y2 * y2 * y2 * y2 *
      ((1 + 1) + d * (- (y1 * y1) + x1 * x1))) + x2 * x2 * x2 * x2 * (1 + y2 * y2 * (- ((1 + 1)) + d * (- (x1
      * x1) + y1 * y1)) + y2 * y2 * y2 * y2 * (d * (- ((1 + 1))) + d * d * (- (1) + y1 * y1) + x1 * x1 * (- (d
      * d) + y1 * y1 * (d * d * d))))) +
    equation x2 y2 *
     (1 + y2 * y2 * (1 + y1 * y1 * (- (1)) + x1 * x1) + x2 * x2 * (- (1) + y1 * y1 + x1 * x1 * (- (1)) + y2 *
      y2 * ((1 + 1) + d + y1 * y1 * (- ((1 + 1)) + d * (- ((1 + 1)))) + y1 * y1 * y1 * y1 * (d) + x1 * x1 *
      ((1 + 1) + d * ((1 + 1))) + x1 * x1 * x1 * x1 * (d)))));
    [unfold equation; ring|rewrite H1, H2; ring].
Qed.

Lemma addition_assoc_x x1 y1 x2 y2 x3 y3 :
  equation x1 y1 = 0 -> equation x2 y2 = 0 -> equation x3 y3 = 0 ->
  let k12 := d * x1 * x2 * y1 * y2 in let x12 := x1 * y2 + x2 * y1 in let y12 := y1 * y2 + x1 * x2 in
  let k23 := d * x2 * x3 * y2 * y3 in let x23 := x2 * y3 + x3 * y2 in let y23 := y2 * y3 + x2 * x3 in
  (x12 * (1 - k12) * y3 + x3 * (y12 * (1 + k12))) * ((1 + k23) * (1 - k23) + d * x1 * x23 * y1 * y23) =
  (x1 * (y23 * (1 + k23)) + x23 * (1 - k23) * y1) * ((1 + k12) * (1 - k12) + d * x12 * x3 * y12 * y3).
Proof.
  intros H1 H2 H3. cbv zeta. apply Zmod.sub_eq_0_iff.
  trans (equation x1 y1 *
     (x2 * (y2 * y2 * y2 * y2 * (d * (- (y1 * x3 * x3 * y3) + x1 * (x3 * y3 * y3)))) + x2 * x2 * (y2 * y2 * y2
      * (d * (x3 * (- (y1)) + x3 * x3 * x3 * (- (y1)) + x1 * (y3 * (- (1)) + y3 * y3 * y3)))) + x2 * x2 * x2 *
      (y2 * y2 * (d * (x3 * (- (x1)) + x3 * x3 * x3 * (- (x1)) + y1 * (y3 * (- (1)) + y3 * y3 * y3))) + y2 *
      y2 * y2 * y2 * (d * d * (y1 * x3 * x3 * y3 + x1 * (- (x3 * y3 * y3))))) + x2 * x2 * x2 * x2 * (y1 * (x3
      * (y3 * y3 * (y2 * (d) + y2 * y2 * y2 * (d * d)))) + x1 * (x3 * x3 * (y3 * (y2 * (- (d)) + y2 * y2 * y2
      * (- (d * d))))))) +
    equation x2 y2 *
     (y3 * (y2 * (x1 + x1 * x1 * x1 + y1 * y1 * (- (x1))) + x2 * (y1 * (1 + x1 * x1) + y1 * y1 * y1 * (-
      (1)))) + y3 * y3 * y3 * (y2 * (x1 * (- (1) + y1 * y1) + x1 * x1 * x1 * (- (1))) + x2 * (y1 * (- (1) + x1
      * x1 * (- (1))) + y1 * y1 * y1)) + x3 * (y2 * (y1 * (1 + x1 * x1 + y3 * y3 * (- (1) + x1 * x1 * (-
      (1)))) + y1 * y1 * y1 * (- (1) + y3 * y3)) + x2 * (x1 * (1 + y1 * y1 * (- (1)) + y3 * y3 * (- (1) + y1 *
      y1 + y2 * y2 * (d + y1 * y1 * (- (d))))) + x1 * x1 * x1 * (1 + y3 * y3 * (- (1) + y2 * y2 * (d)))) + x2
      * x2 * (y2 * (y3 * y3 * (y1 * (- (d) + x1 * x1 * (- (d))) + y1 * y1 * y1 * (d))))) + x3 * x3 * (y3 * (y2
      * (x1 + x1 * x1 * x1 + y1 * y1 * (- (x1))) + x2 * (y1 * (1 + x1 * x1 + y2 * y2 * (- (d) + x1 * x1 * (-
      (d)))) + y1 * y1 * y1 * (- (1) + y2 * y2 * (d))) + x2 * x2 * (y2 * (d * (x1 + x1 * x1 * x1 + y1 * y1 *
      (- (x1)))))) + y3 * y3 * y3 * (y2 * (d * (x1 + x1 * x1 * x1)) + y1 * (x2 * (d + x1 * x1 * (d + y2 * y2 *
      (- (d * d))))) + y1 * y1 * (x1 * (y2 * (- (d) + x2 * x2 * (- (d * d))))) + y1 * y1 * y1 * (- (x2 * d))))
      + x3 * x3 * x3 * (x2 * (x1 + x1 * x1 * x1 + y3 * y3 * (d * (x1 + x1 * x1 * x1))) + y1 * (y2 * (1 + x1 *
      x1 + y3 * y3 * (d + x1 * x1 * (d + x2 * x2 * (d * d))))) + y1 * y1 * (x1 * (x2 * (- (1) + y3 * y3 * (-
      (d) + y2 * y2 * (d * d))))) + y1 * y1 * y1 * (- (y2) + y3 * y3 * (- (y2 * d))))) +
    equation x3 y3 *
     (y1 * (y3 * (x2 * (- (1) + y2 * y2) + x2 * x2 * x2 * (- (1))) + x3 * (y2 * (- (1) + x2 * x2 * (- (1))) +
      y2 * y2 * y2)) + y1 * y1 * y1 * (y3 * (x2 + x2 * x2 * x2 + y2 * y2 * (- (x2))) + x3 * (y2 * (1 + x2 *
      x2) + y2 * y2 * y2 * (- (1)))) + x1 * (y3 * (y2 * (- (1) + y1 * y1 + x2 * x2 * (- (1) + y1 * y1 * (1 +
      d))) + y2 * y2 * y2 * (1 + y1 * y1 * (- (1)))) + x3 * (x2 * (- (1) + y2 * y2 + y1 * y1 * (1 + y2 * y2 *
      (- (1) + d * (- (1))))) + x2 * x2 * x2 * (- (1) + y1 * y1))) + x1 * x1 * (y1 * (y3 * (x2 * (- (1) + y2 *
      y2 * (1 + d)) + x2 * x2 * x2 * (- (1))) + x3 * (y2 * (- (1) + x2 * x2 * (- (1) + d * (- (1)))) + y2 * y2
      * y2))) + x1 * x1 * x1 * (y3 * (y2 * (- (1) + x2 * x2 * (- (1))) + y2 * y2 * y2) + x3 * (x2 * (- (1) +
      y2 * y2) + x2 * x2 * x2 * (- (1))))));
    [unfold equation; ring|rewrite H1, H2, H3; ring].
Qed.

Lemma addition_assoc_y x1 y1 x2 y2 x3 y3 :
  equation x1 y1 = 0 -> equation x2 y2 = 0 -> equation x3 y3 = 0 ->
  let k12 := d * x1 * x2 * y1 * y2 in let x12 := x1 * y2 + x2 * y1 in let y12 := y1 * y2 + x1 * x2 in
  let k23 := d * x2 * x3 * y2 * y3 in let x23 := x2 * y3 + x3 * y2 in let y23 := y2 * y3 + x2 * x3 in
  (y12 * (1 + k12) * y3 + x12 * (1 - k12) * x3) * ((1 + k23) * (1 - k23) - d * x1 * x23 * y1 * y23) =
  (y1 * (y23 * (1 + k23)) + x1 * (x23 * (1 - k23))) * ((1 + k12) * (1 - k12) - d * x12 * x3 * y12 * y3).
Proof.
  intros H1 H2 H3. cbv zeta. apply Zmod.sub_eq_0_iff.
  trans (equation x1 y1 *
     (x2 * (y2 * y2 * y2 * y2 * (d * (y1 * x3 * y3 * y3 + x1 * (- (x3 * x3 * y3))))) + x2 * x2 * (y2 * y2 * y2
      * (d * (x3 * (- (x1)) + x3 * x3 * x3 * (- (x1)) + y1 * (y3 * (- (1)) + y3 * y3 * y3)))) + x2 * x2 * x2 *
      (y2 * y2 * (d * (x3 * (- (y1)) + x3 * x3 * x3 * (- (y1)) + x1 * (y3 * (- (1)) + y3 * y3 * y3))) + y2 *
      y2 * y2 * y2 * (d * d * (- (y1 * x3 * y3 * y3) + x1 * (x3 * x3 * y3)))) + x2 * x2 * x2 * x2 * (y1 * (x3
      * x3 * (y3 * (y2 * (- (d)) + y2 * y2 * y2 * (- (d * d))))) + x1 * (x3 * (y3 * y3 * (y2 * (d) + y2 * y2 *
      y2 * (d * d)))))) +
    equation x2 y2 *
     (y3 * (y2 * (y1 * (1 + x1 * x1) + y1 * y1 * y1 * (- (1))) + x2 * (x1 + x1 * x1 * x1 + y1 * y1 * (-
      (x1)))) + y3 * y3 * y3 * (y2 * (y1 * (- (1) + x1 * x1 * (- (1))) + y1 * y1 * y1) + x2 * (x1 * (- (1) +
      y1 * y1) + x1 * x1 * x1 * (- (1)))) + x3 * (x2 * (y1 * (1 + x1 * x1 + y3 * y3 * (- (1) + x1 * x1 * (-
      (1)))) + y1 * y1 * y1 * (- (1) + y3 * y3)) + y2 * (x1 * (1 + y1 * y1 * (- (1)) + y3 * y3 * (- (1) + y1 *
      y1 + x2 * x2 * (- (d) + y1 * y1 * (d)))) + x1 * x1 * x1 * (1 + y3 * y3 * (- (1) + x2 * x2 * (- (d))))) +
      y2 * y2 * (x2 * (y3 * y3 * (y1 * (d + x1 * x1 * (d)) + y1 * y1 * y1 * (- (d)))))) + x3 * x3 * (y3 * (x2
      * (x1 + x1 * x1 * x1 + y1 * y1 * (- (x1))) + y2 * (y1 * (1 + x1 * x1 + x2 * x2 * (d + x1 * x1 * (d))) +
      y1 * y1 * y1 * (- (1) + x2 * x2 * (- (d)))) + y2 * y2 * (x2 * (x1 * (- (d) + y1 * y1 * (d)) + x1 * x1 *
      x1 * (- (d))))) + y3 * y3 * y3 * (x2 * (d * (x1 + x1 * x1 * x1)) + y1 * (y2 * (d + x1 * x1 * (d + x2 *
      x2 * (d * d)))) + y1 * y1 * (x1 * (x2 * (- (d) + y2 * y2 * (d * d)))) + y1 * y1 * y1 * (- (y2 * d)))) +
      x3 * x3 * x3 * (y2 * (x1 + x1 * x1 * x1 + y3 * y3 * (d * (x1 + x1 * x1 * x1))) + y1 * (x2 * (1 + x1 * x1
      + y3 * y3 * (d + x1 * x1 * (d + y2 * y2 * (- (d * d)))))) + y1 * y1 * (x1 * (y2 * (- (1) + y3 * y3 * (-
      (d) + x2 * x2 * (- (d * d)))))) + y1 * y1 * y1 * (- (x2) + y3 * y3 * (- (x2 * d))))) +
    equation x3 y3 *
     (y1 * (y3 * (y2 * (- (1) + x2 * x2 * (- (1))) + y2 * y2 * y2) + x3 * (x2 * (- (1) + y2 * y2) + x2 * x2 *
      x2 * (- (1)))) + y1 * y1 * y1 * (y3 * (y2 * (1 + x2 * x2) + y2 * y2 * y2 * (- (1))) + x3 * (x2 + x2 * x2
      * x2 + y2 * y2 * (- (x2)))) + x1 * (y3 * (x2 * (- (1) + y2 * y2 + y1 * y1 * (1 + y2 * y2 * (- (1) + d *
      (- (1))))) + x2 * x2 * x2 * (- (1) + y1 * y1)) + x3 * (y2 * (- (1) + y1 * y1 + x2 * x2 * (- (1) + y1 *
      y1 * (1 + d))) + y2 * y2 * y2 * (1 + y1 * y1 * (- (1))))) + x1 * x1 * (y1 * (y3 * (y2 * (- (1) + x2 * x2
      * (- (1) + d * (- (1)))) + y2 * y2 * y2) + x3 * (x2 * (- (1) + y2 * y2 * (1 + d)) + x2 * x2 * x2 * (-
      (1))))) + x1 * x1 * x1 * (y3 * (x2 * (- (1) + y2 * y2) + x2 * x2 * x2 * (- (1))) + x3 * (y2 * (- (1) +
      x2 * x2 * (- (1))) + y2 * y2 * y2))));
    [unfold equation; ring|rewrite H1, H2, H3; ring].
Qed.

(** ** Addition has no poles *)

Lemma pole_root j x1 y1 x2 y2 :
  j * j = Zmod.opp 1 -> equation x1 y1 = 0 -> equation x2 y2 = 0 ->
  let k := d * x1 * x2 * y1 * y2 in k * k = 1 -> j * x2 + y2 = 0.
Proof.
  intros Hj H1 H2 k Hk. destruct (decide (j * x2 + y2 = 0)) as [|Hne]; [done|exfalso].
  assert (Hw : x1 * y1 <> 0).
  { intros E. assert (Ek : k = 0) by (subst k; trans (d * x2 * y2 * (x1 * y1)); [ring|rewrite E; ring]).
    rewrite Ek, Zmod.mul_0_l in Hk. revert Hk. vm_compute. discriminate. }
  pose proof (mul_nz _ _ Hw Hne) as Hz. set (D := x1 * y1 * (j * x2 + y2)) in *. set (N := j * x1 + k * y1).
  assert (E : N * N = d * (D * D)).
  { apply Zmod.sub_eq_0_iff.
    trans (equation x1 y1 - d * (x1 * x1) * (y1 * y1) * equation x2 y2 + (k * k - 1) * (y1 * y1 - 1) +
      (j * j - Zmod.opp 1) * (x1 * x1 - d * (x1 * x1) * (y1 * y1) * (x2 * x2)));
      [subst N D k; unfold equation; ring|rewrite Hj, H1, H2, Hk; ring]. }
  apply (d_not_square (Zmod.mdiv N D)). trans (Zmod.mdiv (N * N) (D * D)); [field; exact Hz|].
  rewrite E. field. exact Hz.
Qed.

Lemma no_pole x1 y1 x2 y2 :
  equation x1 y1 = 0 -> equation x2 y2 = 0 -> let k := d * x1 * x2 * y1 * y2 in k * k <> 1.
Proof.
  intros H1 H2 k Hk.
  pose proof (pole_root i x1 y1 x2 y2 i_square H1 H2 Hk) as E1.
  assert (Hj : Zmod.opp i * Zmod.opp i = Zmod.opp 1) by (rewrite <- i_square; ring).
  pose proof (pole_root (Zmod.opp i) x1 y1 x2 y2 Hj H1 H2 Hk) as E2.
  assert (Hy : (1 + 1) * y2 = 0) by (trans ((i * x2 + y2) + (Zmod.opp i * x2 + y2)); [ring|rewrite E1, E2; ring]).
  apply mul_eq_0 in Hy as [Hy|Hy]; [exact (two_nz Hy)|].
  assert (Ek : k = 0) by (subst k; rewrite Hy; ring). rewrite Ek, Zmod.mul_0_l in Hk. revert Hk. vm_compute. discriminate.
Qed.

Lemma denominators x1 y1 x2 y2 :
  equation x1 y1 = 0 -> equation x2 y2 = 0 ->
  1 + d * x1 * x2 * y1 * y2 <> 0 /\ 1 - d * x1 * x2 * y1 * y2 <> 0.
Proof.
  intros H1 H2. pose proof (no_pole x1 y1 x2 y2 H1 H2) as Hk. cbv zeta in Hk.
  set (k := d * x1 * x2 * y1 * y2) in *. clearbody k. split; intros E; apply Hk.
  - trans (1 - (1 + k) * (1 - k)); [ring|]. rewrite E. ring.
  - trans (1 - (1 + k) * (1 - k)); [ring|]. rewrite E. ring.
Qed.

(** Associativity of the fractions, from that of their numerators and
    denominators *)
Lemma assoc_fractions x1 y1 x2 y2 x3 y3 p q r s :
  equation x1 y1 = 0 -> equation x2 y2 = 0 -> equation x3 y3 = 0 ->
  let k12 := d * x1 * x2 * y1 * y2 in let k23 := d * x2 * x3 * y2 * y3 in
  p * (1 + k12) = x1 * y2 + x2 * y1 -> q * (1 - k12) = y1 * y2 + x1 * x2 ->
  r * (1 + k23) = x2 * y3 + x3 * y2 -> s * (1 - k23) = y2 * y3 + x2 * x3 ->
  (p * y3 + x3 * q) * (1 + d * x1 * r * y1 * s) = (x1 * s + r * y1) * (1 + d * p * x3 * q * y3) /\
  (q * y3 + p * x3) * (1 - d * x1 * r * y1 * s) = (y1 * s + x1 * r) * (1 - d * p * x3 * q * y3).
Proof.
  intros H1 H2 H3 k12 k23 Ep Eq Er Es.
  destruct (denominators _ _ _ _ H1 H2) as [Ha Hb]. destruct (denominators _ _ _ _ H2 H3) as [Hc He].
  pose proof (addition_assoc_x _ _ _ _ _ _ H1 H2 H3) as Gx. pose proof (addition_assoc_y _ _ _ _ _ _ H1 H2 H3) as Gy.
  cbv zeta in Gx, Gy. fold k12 k23 in Ha, Hb, Hc, He, Gx, Gy. rewrite <- Ep, <- Eq, <- Er, <- Es in Gx, Gy.
  clearbody k12 k23. clear Ep Eq Er Es.
  pose proof (mul_nz _ _ (mul_nz _ _ Ha Hb) (mul_nz _ _ Hc He)) as Hz.
  split; apply (Zmod.mul_cancel_r_prime _ _ _ p25519_prime Hz).
  - etrans; [|etrans; [exact Gx|]]; ring.
  - etrans; [|etrans; [exact Gy|]]; ring.
Qed.

Lemma div_cross (a b c e : F) : b <> 0 -> e <> 0 -> a * e = c * b -> Zmod.mdiv a b = Zmod.mdiv c e.
Proof.
  intros Hb He E. trans (Zmod.mdiv (a * e) (b * e)); [field; split; assumption|].
  rewrite E. field. split; assumption.
Qed.

Lemma div_mul (a b : F) : b <> 0 -> Zmod.mdiv a b * b = a.
Proof. intros Hb. field. exact Hb. Qed.

End Algebra.

(** ** The group of the points *)

Lemma on_curve_equation P : on_curve P <-> equation d P.1 P.2 = 0.
Proof.
  unfold on_curve, equation. generalize d. intros c. rewrite <- Zmod.sub_eq_0_iff.
  assert (E : P.2 * P.2 - P.1 * P.1 - (1 + c * (P.1 * P.1) * (P.2 * P.2)) =
              P.2 * P.2 - P.1 * P.1 - 1 - c * (P.1 * P.1) * (P.2 * P.2)) by ring.
  by rewrite E.
Qed.

Lemma cross_denominators P Q : on_curve P -> on_curve Q -> 1 + cross P Q <> 0 /\ 1 - cross P Q <> 0.
Proof.
  rewrite !on_curve_equation. apply (denominators d FPInverse.root_i (proj2 FPInverse.sqrt_minus1_spec) d_nonsquare).
Qed.

Lemma zero_on_curve : on_curve zero.
Proof. unfold on_curve, zero. cbn [fst snd]. generalize d. intros c. ring. Qed.

Lemma opp_on_curve P : on_curve P -> on_curve (opp P).
Proof.
  unfold on_curve, opp. cbn [fst snd]. generalize d. intros c H. trans (P.2 * P.2 - P.1 * P.1); [ring|].
  rewrite H. ring.
Qed.

Lemma add_on_curve P Q : on_curve P -> on_curve Q -> on_curve (add P Q).
Proof.
  intros HP HQ. destruct (cross_denominators P Q HP HQ) as [Ha Hb]. rewrite on_curve_equation in HP, HQ.
  pose proof (addition_closed d _ _ _ _ HP HQ) as E. unfold on_curve, add, cross in *. cbn [fst snd] in *. cbv zeta in E.
  revert Ha Hb E. generalize d. intros c. set (k := c * P.1 * Q.1 * P.2 * Q.2). clearbody k.
  set (x := P.1 * Q.2 + Q.1 * P.2). set (y := P.2 * Q.2 + P.1 * Q.1). clearbody x y. intros Ha Hb E.
  trans (Zmod.mdiv (y * y * ((1 + k) * (1 + k)) - x * x * ((1 - k) * (1 - k))) ((1 + k) * (1 + k) * ((1 - k) * (1 - k))));
    [field; split; assumption|].
  rewrite E. field. split; assumption.
Qed.

Lemma add_comm P Q : add P Q = add Q P.
Proof.
  unfold add. assert (Ek : cross P Q = cross Q P) by (unfold cross; generalize d; intros c; ring). rewrite Ek.
  f_equal; f_equal; ring.
Qed.

Lemma add_zero_l P : add zero P = P.
Proof.
  unfold add, zero, cross. destruct P as [x y]. cbn [fst snd]. generalize d. intros c.
  assert (E : c * 0 * x * 1 * y = 0) by ring. rewrite E. f_equal.
  - trans (Zmod.mdiv x 1); [f_equal; ring|]. apply Zmod.div_1_r.
  - trans (Zmod.mdiv y 1); [f_equal; ring|]. apply Zmod.div_1_r.
Qed.

Lemma add_zero_r P : add P zero = P.
Proof. rewrite add_comm. apply add_zero_l. Qed.

Lemma add_opp_r P : on_curve P -> add P (opp P) = zero.
Proof.
  intros HP. destruct (cross_denominators P (opp P) HP (opp_on_curve P HP)) as [Ha Hb].
  unfold add, zero, opp, cross, on_curve in *. destruct P as [x y]. cbn [fst snd] in *. revert HP Ha Hb. generalize d.
  intros c HP Ha Hb. set (k := c * x * Zmod.opp x * y * y) in *. f_equal.
  - trans (Zmod.mdiv 0 (1 + k)); [f_equal; ring|]. apply Zmod.mul_0_l.
  - trans (Zmod.mdiv (1 - k) (1 - k)); [f_equal|by apply Zmod.mdiv_same_prime; [exact p25519_prime|]].
    trans (y * y - x * x); [ring|]. rewrite HP. subst k. ring.
Qed.

Lemma add_assoc P Q R :
  on_curve P -> on_curve Q -> on_curve R -> add (add P Q) R = add P (add Q R).
Proof.
  intros HP HQ HR. destruct (cross_denominators P Q HP HQ) as [H1 H2].
  destruct (cross_denominators Q R HQ HR) as [H3 H4].
  destruct (cross_denominators (add P Q) R (add_on_curve P Q HP HQ) HR) as [H5 H6].
  destruct (cross_denominators P (add Q R) HP (add_on_curve Q R HQ HR)) as [H7 H8].
  rewrite on_curve_equation in HP, HQ, HR.
  destruct (assoc_fractions d FPInverse.root_i (proj2 FPInverse.sqrt_minus1_spec) d_nonsquare _ _ _ _ _ _
    (add P Q).1 (add P Q).2 (add Q R).1 (add Q R).2 HP HQ HR) as [Ex Ey];
    [exact (div_mul _ _ H1)|exact (div_mul _ _ H2)|exact (div_mul _ _ H3)|exact (div_mul _ _ H4)|].
  unfold add at 1 3. apply pair_equal_spec. split.
  - apply div_cross; [exact H5|exact H7|exact Ex].
  - apply div_cross; [exact H6|exact H8|exact Ey].
Qed.

(** ** Extended coordinates

    [X, Y, Z, T] stand for the point [(X / Z, Y / Z)] with [T = X Y / Z]. *)

Definition extended (X Y Z T : F) (A : point) : Prop :=
  Z <> 0 /\ X = A.1 * Z /\ Y = A.2 * Z /\ T = A.1 * A.2 * Z /\ on_curve A.

Lemma extended_p1p1 x y z t A :
  z <> 0 -> t <> 0 -> x = A.1 * z -> y = A.2 * t -> on_curve A -> extended (x * t) (y * z) (z * t) (x * y) A.
Proof.
  intros Hz Ht -> -> HA. unfold extended. split; [by apply mul_nz|].
  split; [ring|]. split; [ring|]. split; [ring|exact HA].
Qed.

Lemma extended_add X1 Y1 Z1 T1 X2 Y2 Z2 T2 A B :
  extended X1 Y1 Z1 T1 A -> extended X2 Y2 Z2 T2 B ->
  let a := (Y1 - X1) * (Y2 - X2) in let b := (Y1 + X1) * (Y2 + X2) in
  let c := T1 * T2 * (d + d) in let e := Z1 * Z2 + Z1 * Z2 in
  extended ((b - a) * (e - c)) ((b + a) * (e + c)) ((e + c) * (e - c)) ((b - a) * (b + a)) (add A B).
Proof.
  intros (Hz1 & -> & -> & -> & HA) (Hz2 & -> & -> & -> & HB). cbv zeta.
  destruct (cross_denominators A B HA HB) as [H1 H2]. pose proof (mul_nz _ _ two_nz (mul_nz _ _ Hz1 Hz2)) as H2z.
  pose proof (div_mul (A.1 * B.2 + B.1 * A.2) _ H1) as E1. pose proof (div_mul (A.2 * B.2 + A.1 * B.1) _ H2) as E2.
  change (Zmod.mdiv _ _) with (add A B).1 in E1. change (Zmod.mdiv _ _) with (add A B).2 in E2.
  assert (Ez : forall s, Z1 * Z2 + Z1 * Z2 + s * (A.1 * A.2 * Z1 * (B.1 * B.2 * Z2) * (d + d)) =
    (1 + 1) * (Z1 * Z2) * (1 + s * cross A B)) by (intros; unfold cross; generalize d; intros; ring).
  pose proof (Ez 1) as Ez1. pose proof (Ez (Zmod.opp 1)) as Ez2. clear Ez.
  set (c := A.1 * A.2 * Z1 * (B.1 * B.2 * Z2) * (d + d)) in *. set (k := cross A B) in *. clearbody k c.
  assert (Ep : Z1 * Z2 + Z1 * Z2 + c = (1 + 1) * (Z1 * Z2) * (1 + k)) by (etrans; [|etrans; [exact Ez1|]]; ring).
  assert (Em : Z1 * Z2 + Z1 * Z2 - c = (1 + 1) * (Z1 * Z2) * (1 - k)) by (etrans; [|etrans; [exact Ez2|]]; ring).
  apply extended_p1p1.
  - rewrite Ep. by apply mul_nz.
  - rewrite Em. by apply mul_nz.
  - rewrite Ep. etrans; [|symmetry; etrans; [|apply (f_equal (fun v => (1 + 1) * (Z1 * Z2) * v)), E1]]; ring.
  - rewrite Em. etrans; [|symmetry; etrans; [|apply (f_equal (fun v => (1 + 1) * (Z1 * Z2) * v)), E2]]; ring.
  - by apply add_on_curve.
Qed.

Lemma extended_double X Y Z T A :
  extended X Y Z T A ->
  let a := X * X in let b := Y * Y in let c := Z * Z + Z * Z in let e := (X + Y) * (X + Y) in
  let g := Zmod.opp a + b in
  extended ((e - a - b) * (g - c)) ((Zmod.opp a - b) * g) (g * (g - c)) ((e - a - b) * (Zmod.opp a - b)) (add A A).
Proof.
  intros (Hz & -> & -> & _ & HA). cbv zeta.
  destruct (cross_denominators A A HA HA) as [H1 H2]. pose proof (mul_nz _ _ Hz Hz) as Hzz.
  pose proof (div_mul (A.1 * A.2 + A.1 * A.2) _ H1) as E1. pose proof (div_mul (A.2 * A.2 + A.1 * A.1) _ H2) as E2.
  change (Zmod.mdiv _ _) with (add A A).1 in E1. change (Zmod.mdiv _ _) with (add A A).2 in E2.
  pose proof HA as Hc. unfold on_curve in Hc. assert (Ek : A.2 * A.2 - A.1 * A.1 = 1 + cross A A).
  { rewrite Hc. unfold cross. generalize d. intros. ring. }
  clear Hc. set (k := cross A A) in *. clearbody k.
  assert (Eg : Zmod.opp (A.1 * Z * (A.1 * Z)) + A.2 * Z * (A.2 * Z) = Z * Z * (1 + k)).
  { rewrite <- Ek. ring. }
  rewrite Eg. assert (Et : Z * Z * (1 + k) - (Z * Z + Z * Z) = Zmod.opp 1 * (Z * Z) * (1 - k)) by ring.
  apply extended_p1p1.
  - by apply mul_nz.
  - rewrite Et. apply mul_nz; [apply mul_nz; [vm_compute; discriminate|exact Hzz]|exact H2].
  - etrans; [|symmetry; etrans; [|apply (f_equal (fun v => Z * Z * v)), E1]]; ring.
  - rewrite Et. etrans; [|symmetry; etrans; [|apply (f_equal (fun v => Zmod.opp 1 * (Z * Z) * v)), E2]]; ring.
  - by apply add_on_curve.
Qed.

Lemma extended_zero : extended 0 1 1 0 zero.
Proof.
  unfold extended, zero. cbn [fst snd]. split; [vm_compute; discriminate|].
  split; [ring|]. split; [ring|]. split; [ring|apply zero_on_curve].
Qed.

(** The coordinates determine the point, and two points are equal when their
    coordinates are proportional. *)
Lemma extended_eq X1 Y1 Z1 T1 X2 Y2 Z2 T2 A B :
  extended X1 Y1 Z1 T1 A -> extended X2 Y2 Z2 T2 B ->
  A = B <-> X1 * Z2 = X2 * Z1 /\ Y1 * Z2 = Y2 * Z1.
Proof.
  intros (Hz1 & -> & -> & _ & _) (Hz2 & -> & -> & _ & _). split.
  - intros ->. split; ring.
  - intros [Ex Ey]. pose proof (mul_nz _ _ Hz1 Hz2) as Hz. destruct A as [x1 y1], B as [x2 y2]. cbn [fst snd] in *.
    f_equal; apply (Zmod.mul_cancel_r_prime _ _ _ p25519_prime Hz).
    + etrans; [|etrans; [exact Ex|]]; ring.
    + etrans; [|etrans; [exact Ey|]]; ring.
Qed.

Lemma on_curve_iff P : on_curve P <-> P.2 * P.2 - P.1 * P.1 = 1 + d * (P.1 * P.1) * (P.2 * P.2).
Proof. reflexivity. Qed.

Lemma extended_iff X Y Z T A :
  extended X Y Z T A <-> Z <> 0 /\ X = A.1 * Z /\ Y = A.2 * Z /\ T = A.1 * A.2 * Z /\ on_curve A.
Proof. reflexivity. Qed.

Lemma extended_opp X Y Z T A : extended X Y Z T A -> extended (Zmod.opp X) Y Z (Zmod.opp T) (opp A).
Proof.
  rewrite !extended_iff. intros (Hz & -> & -> & -> & HA). unfold opp. cbn [fst snd].
  refine (conj Hz (conj _ (conj eq_refl (conj _ (opp_on_curve A HA))))); ring.
Qed.

(** The abscissas of an ordinate *)
Lemma ordinate_denominator (y : F) : y * y * d + 1 <> 0.
Proof.
  intros E. destruct (decide (y = 0)) as [->|Hy].
  - revert E. rewrite Zmod.mul_0_l. vm_compute. discriminate.
  - apply (d_nonsquare (Zmod.mdiv FPInverse.root_i y)). revert E. pose proof (proj2 FPInverse.sqrt_minus1_spec) as Hi.
    revert Hi. generalize FPInverse.root_i d. intros i c Hi E.
    trans (Zmod.mdiv (i * i) (y * y)); [field; exact Hy|]. rewrite Hi.
    assert (E1 : Zmod.opp 1 = y * y * c) by (trans (y * y * c - (y * y * c + 1)); [ring|rewrite E; ring]).
    rewrite E1. field. exact Hy.
Qed.

Lemma on_curve_solve x y : on_curve (x, y) <-> x * x = Zmod.mdiv (y * y - 1) (y * y * d + 1).
Proof.
  pose proof (ordinate_denominator y) as Hn. unfold on_curve. cbn [fst snd]. revert Hn. generalize d. intros c Hn. split.
  - intros E. apply (Zmod.mul_cancel_r_prime _ _ _ p25519_prime Hn). rewrite (div_mul (y * y - 1) _ Hn).
    trans (c * (x * x) * (y * y) + x * x); [ring|].
    trans (1 + c * (x * x) * (y * y) - 1 + x * x); [ring|]. rewrite <- E. ring.
  - intros E. assert (E2 : x * x * (y * y * c + 1) = y * y - 1) by (rewrite E; apply (div_mul _ _ Hn)).
    trans (y * y - 1 + (1 - x * x)); [ring|]. rewrite <- E2. ring.
Qed.

Lemma zero_coordinates : zero = (0, 1).
Proof. reflexivity. Qed.

(** A point with ordinate [0] has order [4]. *)
Lemma ordinate_zero (x : F) : on_curve (x, 0) -> add (add (x, 0) (x, 0)) (add (x, 0) (x, 0)) = zero.
Proof.
  unfold on_curve. cbn [fst snd]. intros H. assert (Hx : x * x = Zmod.opp 1).
  { trans (Zmod.opp (0 * 0 - x * x)); [ring|]. rewrite H. ring. }
  assert (H1 : (1 : F) <> 0) by (vm_compute; discriminate).
  assert (E1 : add (x, 0) (x, 0) = (0, Zmod.opp 1)).
  { unfold add, cross. cbn [fst snd]. generalize d. intros c. rewrite Hx. f_equal; field; exact H1. }
  rewrite E1. unfold add, cross, zero. cbn [fst snd]. generalize d. intros c. f_equal; field; exact H1.
Qed.

#[global] Opaque add zero on_curve extended.

(** ** Multiples *)

Create HintDb curve.

#[export] Hint Resolve zero_on_curve opp_on_curve add_on_curve : curve.

Lemma times_on_curve n P : on_curve P -> on_curve (times n P).
Proof. intros HP. induction n as [|n IH]; [apply zero_on_curve|]. cbn [times]. auto with curve. Qed.

#[export] Hint Resolve times_on_curve : curve.

Lemma times_add n m P : on_curve P -> times (n + m) P = add (times n P) (times m P).
Proof.
  intros HP. induction n as [|n IH]; cbn [times Nat.add]; [symmetry; apply add_zero_l|].
  rewrite IH, add_assoc by auto with curve. reflexivity.
Qed.

Lemma times_zero n : times n zero = zero.
Proof. induction n as [|n IH]; [reflexivity|]. cbn [times]. rewrite IH. apply add_zero_l. Qed.

Lemma times_mul n m P : on_curve P -> times (n * m) P = times n (times m P).
Proof.
  intros HP. induction n as [|n IH]; [reflexivity|]. cbn [times Nat.mul]. rewrite times_add, IH by assumption. reflexivity.
Qed.

Lemma times_add_point n P Q : on_curve P -> on_curve Q -> times n (add P Q) = add (times n P) (times n Q).
Proof.
  intros HP HQ. induction n as [|n IH]; cbn [times]; [symmetry; apply add_zero_l|]. rewrite IH.
  rewrite !add_assoc by auto with curve. f_equal.
  rewrite <- !(add_assoc) by auto with curve. f_equal. apply add_comm.
Qed.

Lemma add_cancel_l P Q R : on_curve P -> on_curve Q -> on_curve R -> add P Q = add P R -> Q = R.
Proof.
  intros HP HQ HR E. rewrite <- (add_zero_l Q), <- (add_zero_l R), <- (add_opp_r P HP), (add_comm P).
  rewrite !add_assoc, E by auto with curve. reflexivity.
Qed.

(** Multiples of a point whose order divides [l] depend on the remainder. *)
Lemma times_mod l n P : on_curve P -> (0 < l)%nat -> times l P = zero -> times n P = times (n mod l) P.
Proof.
  intros HP Hl E. rewrite (Nat.div_mod_eq n l) at 1.
  rewrite times_add, Nat.mul_comm, times_mul, E, times_zero by assumption. apply add_zero_l.
Qed.

End Edwards.
