(* ===== verification/Order25519.v ===== *)
(** * The order of the base point

    The base point of src/crypto/curve25519/ed25519.cpp has the order
    [l25519] of the scalars of sc25519.cpp: that is why the multiples of the
    base point can be taken with scalars reduced modulo it.  The multiple is
    computed by doubling and adding in extended coordinates over [Z], with
    numbers folded at [2^255]. *)

From S2P Require Import Prelude Base25519 SC25519 Prime25519 FP25519 FPInverse Edwards.
From Stdlib Require Import Zdivisibility Zmod.

Module Order25519.
Import FP25519 Edwards.
Open Scope Z_scope.

Definition base_x : Z := 0x216936d3cd6e53fec0a4e231fdd6dc5c692cc7609525a7b2c9562d608f25d51a.

Definition base_y : Z := 0x6666666666666666666666666666666666666666666666666666666666666658.

Definition B : point := (Zmod.of_Z p25519 base_x, Zmod.of_Z p25519 base_y).

(** [2 d x y] of the base point *)
Definition base_t : Z :=
  Eval vm_compute in Zmod.to_Z (d * Zmod.of_Z p25519 2 * Zmod.of_Z p25519 base_x * Zmod.of_Z p25519 base_y)%Zmod.

Definition fold2 (z : Z) : Z := fold_p (fold_p z).

Definition quad : Type := Z * Z * Z * Z.

Definition p1p1 (x y z t : Z) : quad := (fold2 (x * t), fold2 (y * z), fold2 (z * t), fold2 (x * y)).

Definition double (q : quad) : quad :=
  let '(X, Y, Z, _) := q in
  let a := fold2 (X * X) in
  let b := fold2 (Y * Y) in
  let c := fold2 (Z * Z) in
  let e := fold2 ((X + Y) * (X + Y)) in
  let g := b - a in
  p1p1 (e - a - b) (- a - b) g (g - (c + c)).

Definition add_base (q : quad) : quad :=
  let '(X, Y, Z, T) := q in
  let a := fold2 ((Y - X) * (base_y - base_x)) in
  let b := fold2 ((Y + X) * (base_y + base_x)) in
  let c := fold2 (T * base_t) in
  p1p1 (b - a) (b + a) (Z + Z + c) (Z + Z - c).

Fixpoint multiple (e : positive) : quad :=
  match e with
  | xH => (base_x, base_y, 1, fold2 (base_x * base_y))
  | xO e => double (multiple e)
  | xI e => add_base (double (multiple e))
  end.

Definition stands_for (q : quad) (A : point) : Prop :=
  let '(X, Y, Z, T) := q in
  extended (Zmod.of_Z p25519 X) (Zmod.of_Z p25519 Y) (Zmod.of_Z p25519 Z) (Zmod.of_Z p25519 T) A.

Lemma fold2_spec z : Zmod.of_Z p25519 (fold2 z) = Zmod.of_Z p25519 z.
Proof. unfold fold2. by rewrite !fold_p_spec. Qed.

#[local] Hint Rewrite fold2_spec @Zmod.of_Z_mul @Zmod.of_Z_add @Zmod.of_Z_sub @Zmod.of_Z_opp : push.

Lemma double_spec q A : stands_for q A -> stands_for (double q) (add A A).
Proof.
  destruct q as [[[X Y] Z] T]. unfold stands_for, double, p1p1. intros H. apply extended_double in H. cbv zeta in H.
  autorewrite with push. revert H. generalize (Zmod.of_Z p25519 X) (Zmod.of_Z p25519 Y) (Zmod.of_Z p25519 Z).
  intros x y z H. assert (E : (y * y - x * x = Zmod.opp (x * x) + y * y)%Zmod) by ring. rewrite E. exact H.
Qed.

Lemma base_on_curve : on_curve B.
Proof. apply on_curve_iff. vm_compute. reflexivity. Qed.

Lemma base_extended x y :
  x = Zmod.of_Z p25519 base_x -> y = Zmod.of_Z p25519 base_y -> extended x y Zmod.one (x * y)%Zmod B.
Proof.
  intros -> ->. apply extended_iff. split; [vm_compute; discriminate|].
  split; [symmetry; apply Zmod.mul_1_r|]. split; [symmetry; apply Zmod.mul_1_r|].
  split; [symmetry; apply Zmod.mul_1_r|apply base_on_curve].
Qed.

Lemma add_base_spec q A : stands_for q A -> stands_for (add_base q) (add A B).
Proof.
  destruct q as [[[X Y] Z] T]. unfold stands_for, add_base, p1p1. intros H.
  pose proof (extended_add _ _ _ _ _ _ _ _ _ _ H (base_extended _ _ eq_refl eq_refl)) as H'. cbv zeta in H'. clear H.
  autorewrite with push.
  assert (Et : Zmod.of_Z p25519 base_t = (Zmod.of_Z p25519 base_x * Zmod.of_Z p25519 base_y * (d + d))%Zmod)
    by (vm_compute; reflexivity).
  rewrite Et. revert H'. clear Et. generalize (Zmod.of_Z p25519 X) (Zmod.of_Z p25519 Y) (Zmod.of_Z p25519 Z) (Zmod.of_Z p25519 T).
  generalize (Zmod.of_Z p25519 base_x) (Zmod.of_Z p25519 base_y) d. intros bx b_y c x y z t H.
  assert (Ec : (t * (bx * b_y * (c + c)) = t * (bx * b_y) * (c + c))%Zmod) by ring.
  assert (Ez : (z + z = z * Zmod.one + z * Zmod.one)%Zmod) by ring. rewrite Ec, Ez. exact H.
Qed.

Lemma multiple_spec e : stands_for (multiple e) (times (Pos.to_nat e) B).
Proof.
  induction e as [e IH|e IH|]; cbn [multiple].
  - assert (E : times (Pos.to_nat e~1) B = add (add (times (Pos.to_nat e) B) (times (Pos.to_nat e) B)) B).
    { rewrite Pos2Nat.inj_xI. cbn [times]. rewrite <- times_add by apply base_on_curve.
      rewrite add_comm. do 2 f_equal. lia. }
    rewrite E. by apply add_base_spec, double_spec.
  - assert (E : times (Pos.to_nat e~0) B = add (times (Pos.to_nat e) B) (times (Pos.to_nat e) B)).
    { rewrite Pos2Nat.inj_xO, <- times_add by apply base_on_curve. f_equal. lia. }
    rewrite E. by apply double_spec.
  - change (Pos.to_nat 1) with 1%nat. cbn [times]. rewrite add_zero_r. unfold stands_for.
    rewrite fold2_spec, Zmod.of_Z_mul, Zmod.of_Z_1. by apply base_extended.
Qed.

Definition l_pos : positive := Eval vm_compute in Z.to_pos l25519.

Definition is_zero (q : quad) : bool :=
  let '(X, Y, Z, _) := q in (X mod p25519 =? 0) && ((Y - Z) mod p25519 =? 0).

Lemma multiple_l : is_zero (multiple l_pos) = true.
Proof. vm_cast_no_check (eq_refl true). Qed.

Definition l_nat : nat := Z.to_nat l25519.

Lemma is_zero_spec q A : stands_for q A -> is_zero q = true -> A = zero.
Proof.
  destruct q as [[[X Y] Z] T]. unfold stands_for, is_zero. rewrite andb_true_iff, !Z.eqb_eq. intros H [Hx Hy].
  apply (extended_eq _ _ _ _ _ _ _ _ _ _ H extended_zero). rewrite !Zmod.mul_1_r, Zmod.mul_0_l. split.
  - rewrite <- Zmod.of_Z_0. by apply Zmod.of_Z_inj.
  - rewrite Zmod.mul_1_l. apply Zmod.of_Z_inj. by apply Z.cong_iff_0.
Qed.

(** The base point has order [l25519]. *)
Lemma base_order : times l_nat B = zero.
Proof.
  unfold l_nat. change l25519 with (Z.pos l_pos). rewrite Z2Nat.inj_pos.
  exact (is_zero_spec _ _ (multiple_spec l_pos) multiple_l).
Qed.

Lemma base_nonzero : B <> zero.
Proof. rewrite zero_coordinates. unfold B. intros E. apply (f_equal fst) in E. revert E. vm_compute. discriminate. Qed.

End Order25519.
