(* ===== verification/Ed25519.v ===== *)
(** * Points of the curve (src/crypto/curve25519/ed25519.cpp, ed25519.h)

    [CEdwards25519] holds a point in extended coordinates [X, Y, Z, T] and a
    table of its first sixteen multiples that [ScalarMult] fills when it does
    not match the point.  The operations are translated with their temporaries
    and shown to compute in the group of [Edwards]. *)

From S2P Require Import Prelude Base25519 SC25519 Prime25519 FP25519 FPInverse Edwards Order25519.
From Stdlib Require Import Zdivisibility Zmod.

(** The four coordinates, and the object with its table *)
Record ed : Type := Ed { fX : mem32; fY : mem32; fZ : mem32; fT : mem32 }.

Record edobj : Type := EdObj { pt : ed; preScalar : list ed }.

Module CEdwards25519.
Import base25519 FP25519.

Definition _ecd : mem32 :=
  Mem32 0x75EB4DCA135978A3 0x00700A4D4141D8AB 0x8CC740797779E898 0x52036CEE2B6FFE73.

Definition _ecd2 : mem32 :=
  Mem32 0xEBD69B9426B2F159 0x00E0149A8283B156 0x198E80F2EEF3D130 0x2406D9DC56DFFCE7.

Definition _base_x : mem32 :=
  Mem32 0xC9562D608F25D51A 0x692CC7609525A7B2 0xC0A4E231FDD6DC5C 0x216936D3CD6E53FE.

Definition _base_y : mem32 :=
  Mem32 0x6666666666666658 0x6666666666666666 0x6666666666666666 0x6666666666666666.

Definition ecd : mem32 := of_bytes _ecd.

Definition ecd2 : mem32 := of_bytes _ecd2.

(** The constructors [CEdwards25519()] and [CEdwards25519(x, y)] *)
Definition identity : ed := Ed (of_u64 0) (of_u64 1) (of_u64 1) (of_u64 0).

Definition of_xy (x y : mem32) : ed := Ed x y (of_u64 1) (mul x y).

Definition FromP1P1 (x y z t : mem32) : ed := Ed (mul x t) (mul y z) (mul z t) (mul x y).

Definition Add (p q : ed) : ed :=
  let a := mul (sub (fY p) (fX p)) (sub (fY q) (fX q)) in
  let b := mul (add (fY p) (fX p)) (add (fY q) (fX q)) in
  let c := mul (mul (fT p) (fT q)) ecd2 in
  let d := mul (fZ p) (fZ q) in
  let d := add d d in
  FromP1P1 (sub b a) (add b a) (add d c) (sub d c).

Definition Double (p : ed) : ed :=
  let a := Square (fX p) in
  let b := Square (fY p) in
  let c := Square (fZ p) in
  let c := add c c in
  let d := opp a in
  let e := Square (add (fX p) (fY p)) in
  let g := add d b in
  FromP1P1 (sub (sub e a) b) (sub d b) g (sub g c).

(** One round of the loop of [AddPrescalar]: [fX], [fY] and [fZ] with the
    temporaries [x] and [y] of the round *)
Definition double_round (s : mem32 * mem32 * mem32 * (mem32 * mem32)) : mem32 * mem32 * mem32 * (mem32 * mem32) :=
  let '(X, Y, Z, _) := s in
  let a := Square X in
  let b := Square Y in
  let c := Square Z in
  let c := add c c in
  let d := opp a in
  let e := Square (add X Y) in
  let x := sub (sub e a) b in
  let y := sub d b in
  let z := add d b in
  let t := sub z c in
  (mul x t, mul y z, mul z t, (x, y)).

Definition AddPrescalar (p q : ed) : ed :=
  let a := mul (sub (fY p) (fX p)) (sub (fY q) (fX q)) in
  let b := mul (add (fY p) (fX p)) (add (fY q) (fX q)) in
  let c := mul (mul (fT p) (fT q)) ecd2 in
  let d := mul (fZ p) (fZ q) in
  let d := add d d in
  let x := sub b a in
  let y := add b a in
  let z := add d c in
  let t := sub d c in
  let '(X, Y, Z, (x, y)) := Nat.iter 4 double_round (mul x t, mul y z, mul z t, (x, y)) in
  Ed X Y Z (mul x y).

(** The table: entry [i] is doubled from entry [i >> 1], entry [i + 1] adds
    the point. *)
Definition CalcPrescalar (p : ed) : list ed :=
  foldl (fun pre i =>
      let q := Double (nth (i / 2) pre identity) in pre ++ [q; Add q p])
    [identity; p] [2; 4; 6; 8; 10; 12; 14]%nat.

(** [for (i = size - 1; i > 0 && u8[i] == 0; i--);] on the bytes from the most
    significant one *)
Fixpoint skip_zeros (u8 : list Z) : list Z :=
  match u8 with
  | b :: rest =>
      match rest with
      | [] => u8
      | _ => if b =? 0 then skip_zeros rest else u8
      end
  | [] => u8
  end.

Fixpoint scalar_loop (pre : list ed) (u8 : list Z) (r : ed) : ed :=
  let entry (n : Z) : ed := nth (Z.to_nat n) pre identity in
  match u8 with
  | [] => r
  | [b] => Add (AddPrescalar r (entry (Z.shiftr b 4))) (entry (Z.land b 15))
  | b :: u8 => scalar_loop pre u8 (AddPrescalar (AddPrescalar r (entry (Z.shiftr b 4))) (entry (Z.land b 15)))
  end.

(** [ScalarMult] returns the product; the object keeps the table. *)
Definition ScalarMult (o : edobj) (u8 : list Z) : ed * edobj :=
  let stale := negb (length (preScalar o) =? 16)%nat ||
               negb (eqb (fX (nth 1 (preScalar o) identity)) (fX (pt o))) ||
               negb (eqb (fY (nth 1 (preScalar o) identity)) (fY (pt o))) in
  let o := if stale then EdObj (pt o) (CalcPrescalar (pt o)) else o in
  (scalar_loop (preScalar o) (skip_zeros (rev u8)) identity, o).

Definition base : edobj :=
  let p := of_xy (of_bytes _base_x) (of_bytes _base_y) in EdObj p (CalcPrescalar p).

Definition Generate (t : mem32) : ed := (ScalarMult base (bytes t)).1.

Definition negate (p : ed) : ed := Ed (opp (fX p)) (fY p) (fZ p) (opp (fT p)).

Definition eq_point (p q : ed) : bool :=
  eqb (mul (fX p) (fZ q)) (mul (fX q) (fZ p)) && eqb (mul (fY p) (fZ q)) (mul (fY q) (fZ p)).

(** [Unpack] sets the coordinates and says whether the bytes are a point. *)
Definition Unpack (md32 : mem32) : bool * ed :=
  let fZ := of_u64 1 in
  let fY := of_bytes md32 in
  let y2 := Square (of_bytes md32) in
  let x2 := div (sub y2 fZ) (add (mul y2 ecd) fZ) in
  let fX := Sqrt x2 in
  if IsZero fX then (IsZero x2, Ed fX fY fZ Zero32)
  else
    let fX := if negb (Parity fX =? Z.shiftr (w3 md32) 63) then opp fX else fX in
    (true, Ed fX fY fZ (mul fX fY)).

(** [md32[31] ^= tx.Parity() << 7]: the top bit of the last word *)
Definition Pack (p : ed) : mem32 :=
  let zi := Inverse (fZ p) in
  let tx := mul (fX p) zi in
  let ty := mul (fY p) zi in
  let md32 := FP25519.Pack ty in
  Mem32 (w0 md32) (w1 md32) (w2 md32) (Z.lxor (w3 md32) (Z.shiftl (u8 (Z.shiftl (Parity tx) 7)) 56)).

(** ** The group *)

Definition repr (p : ed) (A : Edwards.point) : Prop :=
  (canon (fX p) /\ canon (fY p) /\ canon (fZ p) /\ canon (fT p)) /\
  Edwards.extended (fe (fX p)) (fe (fY p)) (fe (fZ p)) (fe (fT p)) A.

(** A field expression whose operands are canonical *)
Definition val_of (n : mem32) (x : F) : Prop := canon n /\ fe n = x.

Lemma val_of_add a b x y : val_of a x -> val_of b y -> val_of (add a b) (x + y)%Zmod.
Proof. intros [Ha <-] [Hb <-]. exact (fe_add a b Ha Hb). Qed.

Lemma val_of_sub a b x y : val_of a x -> val_of b y -> val_of (sub a b) (x - y)%Zmod.
Proof. intros [Ha <-] [Hb <-]. exact (fe_sub a b Ha Hb). Qed.

Lemma val_of_mul a b x y : val_of a x -> val_of b y -> val_of (mul a b) (x * y)%Zmod.
Proof. intros [Ha <-] [Hb <-]. exact (fe_mul a b Ha Hb). Qed.

Lemma val_of_square a x : val_of a x -> val_of (Square a) (x * x)%Zmod.
Proof. intros [Ha <-]. exact (fe_mul a a Ha Ha). Qed.

Lemma val_of_opp a x : val_of a x -> val_of (opp a) (Zmod.opp x).
Proof. intros [Ha <-]. exact (fe_opp a Ha). Qed.

Lemma val_of_div a b x y : val_of a x -> val_of b y -> val_of (div a b) (Zmod.mdiv x y).
Proof. intros [Ha <-] [Hb <-]. exact (FPInverse.fe_div a b Ha Hb). Qed.

Lemma val_of_fe a : canon a -> val_of a (fe a).
Proof. done. Qed.

Lemma val_of_one : val_of (of_u64 1) Zmod.one.
Proof. exact FPInverse.one_canon. Qed.

Lemma val_of_zero : val_of Zero32 Zmod.zero.
Proof. exact zero_canon. Qed.

Lemma repr_intro p X Y Z T A :
  val_of (fX p) X -> val_of (fY p) Y -> val_of (fZ p) Z -> val_of (fT p) T -> Edwards.extended X Y Z T A -> repr p A.
Proof. intros [H1 <-] [H2 <-] [H3 <-] [H4 <-] HE. split; [split_and!; assumption|exact HE]. Qed.

Lemma val_of_bytes n z :
  (bool_decide (is_uint 64 (w0 n)) && bool_decide (is_uint 64 (w1 n)) && bool_decide (is_uint 64 (w2 n)) &&
   bool_decide (is_uint 64 (w3 n)))%bool = true ->
  Zmod.of_Z p25519 (val n mod 2 ^ 255) = z -> val_of (of_bytes n) z.
Proof.
  rewrite !andb_true_iff, !bool_decide_eq_true. intros (((H0 & H1) & H2) & H3) <-.
  destruct (of_bytes_spec n) as [Hw E]; [done|]. split; [by eapply canon_mod|by apply fe_mod].
Qed.

Lemma val_of_ecd : val_of ecd Edwards.d.
Proof. apply val_of_bytes; vm_compute; reflexivity. Qed.

Lemma val_of_ecd2 : val_of ecd2 (Edwards.d + Edwards.d)%Zmod.
Proof. apply val_of_bytes; vm_compute; reflexivity. Qed.

(** The field expression that a term of operators computes *)
Ltac field_val :=
  lazymatch goal with
  | |- val_of (add _ _) _ => apply val_of_add; field_val
  | |- val_of (sub _ _) _ => apply val_of_sub; field_val
  | |- val_of (mul _ _) _ => apply val_of_mul; field_val
  | |- val_of (Square _) _ => apply val_of_square; field_val
  | |- val_of (opp _) _ => apply val_of_opp; field_val
  | |- val_of (div _ _) _ => apply val_of_div; field_val
  | |- val_of ecd _ => exact val_of_ecd
  | |- val_of ecd2 _ => exact val_of_ecd2
  | |- val_of (of_u64 1) _ => exact val_of_one
  | |- val_of Zero32 _ => exact val_of_zero
  | |- _ => apply val_of_fe; assumption
  end.

#[local] Opaque add sub mul opp Square Inverse.

Lemma identity_repr : repr identity Edwards.zero.
Proof.
  eapply repr_intro; cbn [identity fX fY fZ fT]; [| | | |exact Edwards.extended_zero];
    [exact zero_canon|exact val_of_one|exact val_of_one|exact zero_canon].
Qed.

Lemma Add_repr p q A B : repr p A -> repr q B -> repr (Add p q) (Edwards.add A B).
Proof.
  intros ((H1 & H2 & H3 & H4) & HA) ((H5 & H6 & H7 & H8) & HB).
  pose proof (Edwards.extended_add _ _ _ _ _ _ _ _ _ _ HA HB) as H. cbv zeta in H.
  unfold Add, FromP1P1. eapply repr_intro; cbn [fX fY fZ fT]; [| | | |exact H]; field_val.
Qed.

Lemma Double_repr p A : repr p A -> repr (Double p) (Edwards.add A A).
Proof.
  intros ((H1 & H2 & H3 & H4) & HA). pose proof (Edwards.extended_double _ _ _ _ _ HA) as H. cbv zeta in H.
  unfold Double, FromP1P1. eapply repr_intro; cbn [fX fY fZ fT]; [| | | |exact H]; field_val.
Qed.

Lemma negate_repr p A : repr p A -> repr (negate p) (Edwards.opp A).
Proof.
  intros ((H1 & H2 & H3 & H4) & HA). unfold negate. eapply repr_intro; cbn [fX fY fZ fT];
    [apply val_of_opp; apply val_of_fe; exact H1|apply val_of_fe; exact H2|apply val_of_fe; exact H3|
     apply val_of_opp; apply val_of_fe; exact H4|].
  apply Edwards.extended_opp, HA.
Qed.

(** [AddPrescalar] is an addition and four doublings. *)
Lemma double_round_Double p x y :
  let r := double_round (fX p, fY p, fZ p, (x, y)) in
  r = (fX (Double p), fY (Double p), fZ (Double p), r.2) /\ mul r.2.1 r.2.2 = fT (Double p).
Proof. cbv zeta. unfold double_round, Double, FromP1P1. cbn [fX fY fZ fT fst snd]. split; reflexivity. Qed.

Lemma double_rounds n p x y :
  mul x y = fT p ->
  let r := Nat.iter n double_round (fX p, fY p, fZ p, (x, y)) in let q := Nat.iter n Double p in
  r = (fX q, fY q, fZ q, r.2) /\ mul r.2.1 r.2.2 = fT q.
Proof.
  intros E. cbv zeta. induction n as [|n [IH IHt]]; [split; [reflexivity|exact E]|].
  rewrite !Nat.iter_succ. set (r := Nat.iter n double_round _) in *. set (q := Nat.iter n Double p) in *.
  destruct r as [[[X Y] Z] [x' y']]. cbn [fst snd] in *. injection IH as -> -> ->.
  exact (double_round_Double q x' y').
Qed.

Lemma four_rounds n x y z t :
  (let '(X, Y, Z, (x, y)) := Nat.iter n double_round (mul x t, mul y z, mul z t, (x, y)) in Ed X Y Z (mul x y)) =
  Nat.iter n Double (FromP1P1 x y z t).
Proof.
  destruct (double_rounds n (FromP1P1 x y z t) x y eq_refl) as [E Et].
  change (fX (FromP1P1 x y z t)) with (mul x t) in E, Et. change (fY (FromP1P1 x y z t)) with (mul y z) in E, Et.
  change (fZ (FromP1P1 x y z t)) with (mul z t) in E, Et.
  destruct (Nat.iter n double_round _) as [[[X Y] Z] [x' y']]. destruct (Nat.iter n Double _) as [X' Y' Z' T'].
  cbn [fX fY fZ fT fst snd] in *. injection E as -> -> ->. by rewrite Et.
Qed.

Lemma AddPrescalar_eq p q : AddPrescalar p q = Nat.iter 4 Double (Add p q).
Proof. exact (four_rounds 4 _ _ _ _). Qed.

Lemma AddPrescalar_repr p q n m A :
  Edwards.on_curve A -> repr p (Edwards.times n A) -> repr q (Edwards.times m A) ->
  repr (AddPrescalar p q) (Edwards.times (16 * (n + m)) A).
Proof.
  intros HA Hp Hq. rewrite AddPrescalar_eq. pose proof (Add_repr _ _ _ _ Hp Hq) as H.
  rewrite <- Edwards.times_add in H by exact HA.
  assert (Hd : forall r k, repr r (Edwards.times k A) -> repr (Double r) (Edwards.times (2 * k) A)).
  { intros r k Hr. pose proof (Double_repr _ _ Hr) as Hd. rewrite <- Edwards.times_add in Hd by exact HA.
    replace (2 * k)%nat with (k + k)%nat by lia. exact Hd. }
  replace (16 * (n + m))%nat with (2 * (2 * (2 * (2 * (n + m)))))%nat by lia.
  exact (Hd _ _ (Hd _ _ (Hd _ _ (Hd _ _ H)))).
Qed.

(** ** The table of multiples *)

Definition multiples (A : Edwards.point) (pre : list ed) : Prop :=
  forall i, (i < length pre)%nat -> repr (nth i pre identity) (Edwards.times i A).

Lemma multiples_snoc A pre q :
  multiples A pre -> repr q (Edwards.times (length pre) A) -> multiples A (pre ++ [q]).
Proof.
  intros Hp Hq i Hi. rewrite length_app in Hi. cbn [length] in Hi.
  destruct (decide (i < length pre)%nat) as [Hlt|Hge].
  - rewrite app_nth1 by exact Hlt. apply Hp, Hlt.
  - assert (i = length pre) as -> by lia. rewrite app_nth2, Nat.sub_diag by lia. exact Hq.
Qed.

Lemma table_step p A pre i :
  Edwards.on_curve A -> repr p A -> multiples A pre -> length pre = (2 * i)%nat -> (0 < i)%nat ->
  let q := Double (nth (2 * i / 2) pre identity) in
  multiples A (pre ++ [q; Add q p]) /\ length (pre ++ [q; Add q p]) = (2 * S i)%nat.
Proof.
  intros HA Hp Hm Hl Hi q. rewrite length_app. cbn [length]. split; [|lia].
  assert (E2 : (2 * i / 2)%nat = i) by (rewrite Nat.mul_comm; apply Nat.div_mul; lia).
  subst q. rewrite E2. pose proof (Double_repr _ _ (Hm i ltac:(lia))) as Hd.
  rewrite <- Edwards.times_add in Hd by exact HA. pose proof (Add_repr _ _ _ _ Hd Hp) as Ha.
  set (q := Double _) in *. change (pre ++ [q; Add q p]) with (pre ++ ([q] ++ [Add q p])). rewrite app_assoc.
  apply multiples_snoc; [apply multiples_snoc; [exact Hm|]|].
  - rewrite Hl. replace (2 * i)%nat with (i + i)%nat by lia. exact Hd.
  - rewrite length_app. cbn [length]. rewrite Hl. replace (2 * i + 1)%nat with (S (i + i)) by lia.
    cbn [Edwards.times]. rewrite Edwards.add_comm. exact Ha.
Qed.

Lemma table_fold p A n i pre :
  Edwards.on_curve A -> repr p A -> multiples A pre -> length pre = (2 * i)%nat -> (0 < i)%nat ->
  let r := foldl (fun pre i => let q := Double (nth (i / 2) pre identity) in pre ++ [q; Add q p])
    pre (map (Nat.mul 2) (seq i n)) in
  multiples A r /\ length r = (2 * (i + n))%nat.
Proof.
  intros HA Hp. revert i pre. induction n as [|n IH]; intros i pre Hm Hl Hi.
  - rewrite Nat.add_0_r. by split.
  - destruct (table_step p A pre i HA Hp Hm Hl Hi) as [Hm' Hl'].
    destruct (IH (S i) _ Hm' Hl' (Nat.lt_0_succ i)) as [H1 H2].
    rewrite Nat.add_succ_r. exact (conj H1 H2).
Qed.

Lemma repr_on_curve p A : repr p A -> Edwards.on_curve A.
Proof. intros [_ H]. apply Edwards.extended_iff in H as (_ & _ & _ & _ & H). exact H. Qed.

Lemma CalcPrescalar_spec p A : repr p A -> multiples A (CalcPrescalar p) /\ length (CalcPrescalar p) = 16%nat.
Proof.
  intros Hp. pose proof (repr_on_curve _ _ Hp) as HA.
  refine (table_fold p A 7 1 [identity; p] HA Hp _ eq_refl Nat.lt_0_1).
  intros [|[|i]] Hi; cbn [nth]; [exact identity_repr| |cbn in Hi; lia].
  cbn [Edwards.times]. rewrite Edwards.add_zero_r. exact Hp.
Qed.

(** ** Multiplication by a scalar *)

(** The number that bytes stand for, the most significant first *)
Definition be_value (m : nat) (u8 : list Z) : nat := foldl (fun m b => 256 * m + Z.to_nat b)%nat m u8.

Lemma be_value_rev u8 : Forall (is_uint 8) u8 -> be_value 0 (rev u8) = Z.to_nat (le_combine 8 u8).
Proof.
  intros H. induction H as [|b u8 Hb H IH]; [reflexivity|]. cbn [rev le_combine].
  unfold be_value in *. rewrite foldl_app, IH. cbn [foldl].
  pose proof (le_combine_range 8 u8 ltac:(lia) H) as [H0 _]. unfold is_uint in Hb.
  change (2 ^ 8) with 256 in *. lia.
Qed.

Lemma skip_zeros_value u8 : be_value 0 (skip_zeros u8) = be_value 0 u8 /\ (u8 <> [] -> skip_zeros u8 <> []).
Proof.
  induction u8 as [|b [|c u8] IH]; [done|done|]. cbn [skip_zeros]. destruct (Z.eqb_spec b 0) as [->|]; [|done].
  destruct IH as [IH1 IH2]. split; [|intros _; by apply IH2]. exact IH1.
Qed.

Lemma skip_zeros_forall (P : Z -> Prop) u8 : Forall P u8 -> Forall P (skip_zeros u8).
Proof.
  induction 1 as [|b u8 Hb H IH]; [constructor|]. cbn [skip_zeros]. destruct u8; [by constructor|].
  destruct (b =? 0); [exact IH|by constructor].
Qed.

Lemma nibbles b : is_uint 8 b ->
  (Z.to_nat (Z.shiftr b 4) < 16)%nat /\ (Z.to_nat (Z.land b 15) < 16)%nat /\
  Z.to_nat b = (16 * Z.to_nat (Z.shiftr b 4) + Z.to_nat (Z.land b 15))%nat.
Proof.
  unfold is_uint. change (2 ^ 8) with 256. intros Hb. change 15 with (Z.ones 4).
  rewrite Z.land_ones, Z.shiftr_div_pow2 by lia. change (2 ^ 4) with 16.
  assert (H : 0 <= b / 16 < 16 /\ 0 <= b mod 16 < 16 /\ b = 16 * (b / 16) + b mod 16) by words. lia.
Qed.

Lemma scalar_loop_spec A pre u8 m r :
  Edwards.on_curve A -> multiples A pre -> length pre = 16%nat -> Forall (is_uint 8) u8 -> u8 <> [] ->
  repr r (Edwards.times (16 * m) A) -> repr (scalar_loop pre u8 r) (Edwards.times (be_value m u8) A).
Proof.
  intros HA Hm Hl Hf. revert m r. induction Hf as [|b u8 Hb Hf IH]; intros m r Hne Hr; [by destruct Hne|].
  destruct (nibbles b Hb) as (Hh & Hlo & Eb).
  pose proof (Hm (Z.to_nat (Z.shiftr b 4)) ltac:(lia)) as Eh. pose proof (Hm (Z.to_nat (Z.land b 15)) ltac:(lia)) as El.
  pose proof (AddPrescalar_repr _ _ _ _ _ HA Hr Eh) as H1. cbn [scalar_loop]. destruct u8 as [|c u8].
  - pose proof (Add_repr _ _ _ _ H1 El) as H2. rewrite <- Edwards.times_add in H2 by exact HA.
    unfold be_value. cbn [foldl]. rewrite Eb.
    match type of H2 with repr _ (Edwards.times ?k A) => match goal with |- repr _ (Edwards.times ?j A) =>
      replace j with k by lia end end. exact H2.
  - pose proof (AddPrescalar_repr _ _ _ _ _ HA H1 El) as H2.
    change (be_value m (b :: c :: u8)) with (be_value (256 * m + Z.to_nat b) (c :: u8)).
    apply IH; [done|]. rewrite Eb.
    match type of H2 with repr _ (Edwards.times ?k A) => match goal with |- repr _ (Edwards.times ?j A) =>
      replace j with k by lia end end. exact H2.
Qed.

(** The table of an object is absent or that of its point. *)
Definition cache_ok (o : edobj) : Prop := preScalar o = [] \/ preScalar o = CalcPrescalar (pt o).

Lemma eqb_refl a : eqb a a = true.
Proof. unfold eqb, Compare32. by rewrite !Z.ltb_irrefl. Qed.

Lemma ScalarMult_spec o u8 A :
  repr (pt o) A -> cache_ok o -> Forall (is_uint 8) u8 -> u8 <> [] ->
  repr (ScalarMult o u8).1 (Edwards.times (Z.to_nat (le_combine 8 u8)) A) /\
  (ScalarMult o u8).2 = EdObj (pt o) (CalcPrescalar (pt o)).
Proof.
  intros Hp Hc Hf Hne. destruct (CalcPrescalar_spec _ _ Hp) as [Hm Hl].
  assert (Eo : (ScalarMult o u8).2 = EdObj (pt o) (CalcPrescalar (pt o))).
  { unfold ScalarMult. cbn [snd]. destruct o as [p pre]. unfold cache_ok in Hc. cbn [pt preScalar] in *. destruct Hc as [-> | ->].
    - reflexivity.
    - rewrite Hl. change (nth 1 (CalcPrescalar p) identity) with p. rewrite !eqb_refl. reflexivity. }
  split; [|exact Eo]. unfold ScalarMult in Eo |- *. cbn [fst snd] in *. rewrite Eo. cbn [preScalar].
  destruct (skip_zeros_value (rev u8)) as [E1 E2]. rewrite <- be_value_rev, <- E1 by exact Hf.
  apply scalar_loop_spec; [by eapply repr_on_curve|exact Hm|exact Hl| | |exact identity_repr].
  - apply skip_zeros_forall, Forall_rev, Hf.
  - apply E2. intros E. apply (f_equal (@length _)) in E. rewrite length_rev in E. by destruct u8.
Qed.

Lemma base_repr : repr (pt base) Order25519.B.
Proof.
  unfold base, of_xy. cbn [pt]. assert (Hx : val_of (of_bytes _base_x) (Zmod.of_Z p25519 Order25519.base_x))
    by (apply val_of_bytes; vm_compute; reflexivity).
  assert (Hy : val_of (of_bytes _base_y) (Zmod.of_Z p25519 Order25519.base_y)) by (apply val_of_bytes; vm_compute; reflexivity).
  eapply repr_intro; cbn [fX fY fZ fT]; [exact Hx|exact Hy|exact val_of_one|by apply val_of_mul|].
  by apply Order25519.base_extended.
Qed.

Lemma Generate_spec t :
  wf t -> repr (Generate t) (Edwards.times (Z.to_nat (val t)) Order25519.B).
Proof.
  intros Ht. destruct (FPInverse.bytes_spec t Ht) as [Hf E]. unfold Generate. rewrite <- E.
  apply (ScalarMult_spec base (bytes t) _ base_repr); [by right|exact Hf|]. unfold bytes. discriminate.
Qed.

Lemma eq_point_spec p q A B : repr p A -> repr q B -> eq_point p q = bool_decide (A = B).
Proof.
  intros ((H1 & H2 & H3 & H4) & HA) ((H5 & H6 & H7 & H8) & HB). unfold eq_point.
  destruct (fe_mul _ _ H1 H7) as [C1 E1], (fe_mul _ _ H5 H3) as [C2 E2], (fe_mul _ _ H2 H7) as [C3 E3],
    (fe_mul _ _ H6 H3) as [C4 E4].
  rewrite (FP25519.eqb_fe _ _ C1 C2), (FP25519.eqb_fe _ _ C3 C4), E1, E2, E3, E4. apply eq_iff_eq_true.
  rewrite andb_true_iff, !bool_decide_eq_true. symmetry. exact (Edwards.extended_eq _ _ _ _ _ _ _ _ _ _ HA HB).
Qed.

(** ** Compressed points *)

(** The encoding of a point: the ordinate, and the parity of the abscissa in
    the top bit *)
Definition encode (A : Edwards.point) : Z := Zmod.to_Z A.2 + 2 ^ 255 * (Zmod.to_Z A.1 mod 2).

Lemma val_fe a : canon a -> val a = Zmod.to_Z (fe a).
Proof.
  intros [Ha Hl]. unfold fe. rewrite Zmod.unsigned_of_Z. symmetry. apply Z.mod_small.
  pose proof (val_nonneg a Ha). lia.
Qed.

Lemma to_Z_range (x : F) : 0 <= Zmod.to_Z x < p25519.
Proof. apply Zmod.unsigned_pos_bound. reflexivity. Qed.

(** A value in canonical form is below the prime, so that [Pack] copies it and
    [Parity] is its lowest bit. *)
Lemma over_false n :
  canon n ->
  (w3 n =? 0x7FFFFFFFFFFFFFFF) && (w2 n =? 0xFFFFFFFFFFFFFFFF) && (w1 n =? 0xFFFFFFFFFFFFFFFF) &&
  (0xFFFFFFFFFFFFFFED <=? w0 n) = false.
Proof.
  intros [(H0 & H1 & H2 & H3) Hl]. apply not_true_is_false. rewrite !andb_true_iff, !Z.eqb_eq, Z.leb_le.
  intros (((E3 & E2) & E1) & E0). unfold val in Hl. rewrite E1, E2, E3 in Hl. fp.
Qed.

Lemma Pack_canon n : canon n -> FP25519.Pack n = n.
Proof. intros Hn. unfold FP25519.Pack. by rewrite over_false. Qed.

Lemma Parity_canon n : canon n -> Parity n = val n mod 2.
Proof.
  intros Hn. unfold Parity. change (w3 prime) with 0x7FFFFFFFFFFFFFFF. change (w2 prime) with 0xFFFFFFFFFFFFFFFF.
  change (w1 prime) with 0xFFFFFFFFFFFFFFFF. change (w0 prime) with 0xFFFFFFFFFFFFFFED.
  rewrite over_false by exact Hn. cbn [Z.b2z]. rewrite Z.lxor_0_r. change 1 with (Z.ones 1). rewrite Z.land_ones by lia.
  change (2 ^ 1) with 2. unfold val. generalize (w1 n + 2 ^ 64 * (w2 n + 2 ^ 64 * w3 n)). intros x.
  unfold wrap. change (2 ^ 8) with 256. words.
Qed.

Lemma Pack_spec p A : repr p A -> wf (Pack p) /\ val (Pack p) = encode A.
Proof.
  intros ((H1 & H2 & H3 & H4) & HA). unfold Pack. cbv zeta. destruct (FPInverse.fe_inv _ H3) as [Ci Ei].
  destruct (fe_mul _ _ H1 Ci) as [Cx Ex]. destruct (fe_mul _ _ H2 Ci) as [Cy Ey].
  apply Edwards.extended_iff in HA as (Hz & HX & HY & _ & _).
  assert (Eax : fe (mul (fX p) (Inverse (fZ p))) = A.1).
  { rewrite Ex, Ei, HX, <- Zmod.mul_assoc, Zmod.mul_inv_same_r_prime by (exact p25519_prime || exact Hz). apply Zmod.mul_1_r. }
  assert (Eay : fe (mul (fY p) (Inverse (fZ p))) = A.2).
  { rewrite Ey, Ei, HY, <- Zmod.mul_assoc, Zmod.mul_inv_same_r_prime by (exact p25519_prime || exact Hz). apply Zmod.mul_1_r. }
  set (tx := mul (fX p) _) in *. set (ty := mul (fY p) _) in *. clearbody tx ty.
  rewrite (Pack_canon _ Cy), (Parity_canon _ Cx). unfold encode. rewrite <- Eax, <- Eay, <- !val_fe by assumption.
  clear -Cy. destruct Cy as [Hw Hl]. destruct (top_bit ty Hw) as (_ & _ & Ht & _).
  assert (Ht0 : Z.shiftr (w3 ty) 63 = 0) by (apply top_zero; [exact Hw|fp]).
  destruct Hw as (H0 & H1 & H2 & H3). assert (Hb : val tx mod 2 = 0 \/ val tx mod 2 = 1) by words.
  assert (Ew : Z.lxor (w3 ty) (Z.shiftl (u8 (Z.shiftl (val tx mod 2) 7)) 56) = w3 ty + 2 ^ 63 * (val tx mod 2)).
  { rewrite Z.shiftr_div_pow2 in Ht0 by lia. destruct Hb as [-> | ->].
    - change (Z.shiftl (u8 (Z.shiftl 0 7)) 56) with 0. rewrite Z.lxor_0_r. lia.
    - change (Z.shiftl (u8 (Z.shiftl 1 7)) 56) with (2 ^ 63 * 1). symmetry. apply Z.add_nocarry_lxor.
      rewrite Z.mul_1_r, Z.land_comm. apply Z.bits_inj'. intros i Hi. rewrite Z.land_spec, Z.bits_0.
      destruct (decide (i = 63)) as [->|Hne]; [|by rewrite Z.pow2_bits_false].
      assert (Hbit : Z.testbit (w3 ty) 63 = false) by (apply Z.testbit_false; [lia|]; by rewrite Ht0).
      by rewrite Hbit, andb_false_r. }
  rewrite Ew. assert (Hlt : w3 ty < 2 ^ 63).
  { rewrite Z.shiftr_div_pow2 in Ht0 by lia. change (2 ^ 63) with 9223372036854775808 in *. words. }
  clear Ew. revert Hb. generalize (val tx mod 2). intros b Hb.
  unfold wf, val. cbn [w0 w1 w2 w3]. change (2 ^ 63) with 9223372036854775808 in *. split; [split_and!; try assumption; words|fp].
Qed.

(** The sign of a square root *)
Lemma parity_opp (x : F) : x <> Zmod.zero -> Zmod.to_Z (Zmod.opp x) mod 2 = 1 - Zmod.to_Z x mod 2.
Proof.
  intros Hx. rewrite Zmod.unsigned_opp. pose proof (to_Z_range x) as Hr.
  assert (Hz : Zmod.to_Z x <> 0) by (intros E; apply Hx, Zmod.unsigned_inj; rewrite E, Zmod.unsigned_0; reflexivity).
  fp.
Qed.

Lemma roots_opp (x y : F) : (x * x = y * y)%Zmod -> x = y \/ x = Zmod.opp y.
Proof. rewrite <- !Zmod.pow_2_r. apply (Zmod.square_roots_opp_prime p25519_prime). Qed.

(** The encoding determines a point of the curve. *)
Lemma encode_inj A B : Edwards.on_curve A -> Edwards.on_curve B -> encode A = encode B -> A = B.
Proof.
  destruct A as [x y], B as [x' y']. unfold encode. cbn [fst snd]. intros HA HB E.
  pose proof (to_Z_range y). pose proof (to_Z_range y').
  assert (Ey : Zmod.to_Z y = Zmod.to_Z y' /\ Zmod.to_Z x mod 2 = Zmod.to_Z x' mod 2).
  { revert E. generalize (Zmod.to_Z x) (Zmod.to_Z x'). intros a b E. fp. }
  destruct Ey as [Ey Ep]. apply Zmod.unsigned_inj in Ey as ->. f_equal.
  apply Edwards.on_curve_solve in HA, HB. rewrite <- HB in HA. apply roots_opp in HA as [->| ->]; [reflexivity|].
  destruct (decide (x' = Zmod.zero)) as [->|Hx]; [apply Zmod.opp_0|]. rewrite parity_opp in Ep by exact Hx. exfalso. words.
Qed.

Lemma unpack_square md32 :
  wf md32 -> let y := of_bytes md32 in
  canon y /\ fe y = Zmod.of_Z p25519 (val md32 mod 2 ^ 255) /\
  val_of (div (sub (Square y) (of_u64 1)) (add (mul (Square y) ecd) (of_u64 1)))
    (Zmod.mdiv (fe y * fe y - Zmod.one) (fe y * fe y * Edwards.d + Zmod.one))%Zmod.
Proof.
  intros Hw y. destruct (of_bytes_spec md32 Hw) as [Hy Ey]. assert (Cy : canon y) by (by eapply canon_mod).
  split; [exact Cy|]. split; [by apply fe_mod|]. field_val.
Qed.

Lemma one_neq_zero : @Zmod.one p25519 <> Zmod.zero.
Proof. vm_compute. discriminate. Qed.

Lemma repr_affine x y n T :
  canon x -> canon y -> val_of n Zmod.one -> val_of T (fe x * fe y)%Zmod -> Edwards.on_curve (fe x, fe y) ->
  repr (Ed x y n T) (fe x, fe y).
Proof.
  intros Cx Cy [Cn En] [CT ET] HA. split; [split_and!; assumption|]. cbn [fX fY fZ fT].
  apply Edwards.extended_iff. rewrite En, ET. cbn [fst snd]. rewrite !Zmod.mul_1_r.
  refine (conj one_neq_zero (conj eq_refl (conj eq_refl (conj eq_refl HA)))).
Qed.

(** [Unpack] accepts the bytes exactly when their ordinate is that of a point,
    and returns a point whose abscissa has the parity of the top bit unless it
    is zero. *)
Lemma Unpack_cases md32 :
  wf md32 -> let y := Zmod.of_Z p25519 (val md32 mod 2 ^ 255) in
  ((Unpack md32).1 = false /\ forall x, ~ Edwards.on_curve (x, y)) \/
  ((Unpack md32).1 = true /\ exists x, repr (Unpack md32).2 (x, y) /\
    (x <> Zmod.zero -> Zmod.to_Z x mod 2 = Z.shiftr (w3 md32) 63)).
Proof.
  intros Hw. destruct (unpack_square md32 Hw) as (Cy & Ey & Cx2 & Ex2). cbv zeta in *. rewrite <- Ey in *. clear Ey.
  unfold Unpack. set (fy := of_bytes md32) in *. set (x2 := div _ _) in *. clearbody fy x2. cbv zeta.
  destruct (FPInverse.sqrt_spec x2 Cx2) as (Cr & Hroot). set (r := Sqrt x2) in *. clearbody r.
  rewrite !IsZero_spec by assumption.
  assert (Hsolve : forall x, Edwards.on_curve (x, fe fy) <-> (x * x)%Zmod = fe x2).
  { intros x. rewrite Ex2. apply Edwards.on_curve_solve. }
  destruct (decide (fe r = Zmod.zero)) as [Er|Hr]; [rewrite bool_decide_true by exact Er|rewrite bool_decide_false by exact Hr].
  - cbn [fst snd]. destruct Hroot as [Hrr|[_ Hnone]].
    + right. pose proof Hrr as Ez. rewrite Er, Zmod.mul_0_l in Ez. rewrite bool_decide_true by (symmetry; exact Ez).
      split; [reflexivity|]. exists (fe r). split; [|intros Hne; by destruct Hne].
      apply repr_affine; [exact Cr|exact Cy|exact val_of_one| |by apply Hsolve].
      rewrite Er, Zmod.mul_0_l. exact val_of_zero.
    + left. rewrite bool_decide_false; [split; [reflexivity|]|].
      * intros x Hx%Hsolve. exact (Hnone x Hx).
      * intros Ez. apply (Hnone Zmod.zero). rewrite Ez. apply Zmod.mul_0_l.
  - cbn [fst snd]. destruct Hroot as [Hrr|[E _]]; [|by destruct Hr]. right. split; [reflexivity|].
    rewrite (Parity_canon r Cr), (val_fe r Cr). destruct (top_bit md32 Hw) as (_ & _ & Ht & _).
    destruct (Z.eqb_spec (Zmod.to_Z (fe r) mod 2) (Z.shiftr (w3 md32) 63)) as [Ep|Hp]; cbn [negb].
    + exists (fe r). split; [|intros _; exact Ep].
      apply repr_affine; [exact Cr|exact Cy|exact val_of_one|by apply val_of_mul|by apply Hsolve].
    + destruct (fe_opp r Cr) as [Co Eo]. exists (fe (opp r)). split.
      * apply repr_affine; [exact Co|exact Cy|exact val_of_one|by apply val_of_mul|].
        apply Hsolve. rewrite Eo, Zmod.mul_opp_opp. exact Hrr.
      * intros _. rewrite Eo, parity_opp by exact Hr. words.
Qed.

(** The round trip: unpacking a packed point gives the point back. *)
Lemma Unpack_Pack p A : repr p A -> (Unpack (Pack p)).1 = true /\ repr (Unpack (Pack p)).2 A.
Proof.
  intros Hp. pose proof (repr_on_curve _ _ Hp) as HA. destruct (Pack_spec p A Hp) as [Hw Ev].
  pose proof (to_Z_range A.2) as Hy. destruct (top_bit _ Hw) as (Hlw & Hlt & Ht & Et). pose proof (val_nonneg _ Hlw).
  assert (Es : val (Pack p) mod 2 ^ 255 = Zmod.to_Z A.2 /\ Z.shiftr (w3 (Pack p)) 63 = Zmod.to_Z A.1 mod 2).
  { rewrite Et in Ev |- *. unfold encode in Ev. revert Ev. generalize (Zmod.to_Z A.1). intros a Ev. fp. }
  destruct Es as [Ey Es]. pose proof (Unpack_cases _ Hw) as Hu. cbv zeta in Hu. rewrite Ey, Zmod.of_Z_unsigned, Es in Hu.
  destruct A as [x y]. cbn [fst snd] in *. destruct Hu as [[_ Hno]|[Ht1 (x' & Hr & Hpar)]]; [by destruct (Hno x)|].
  split; [exact Ht1|]. pose proof (repr_on_curve _ _ Hr) as HA'. replace x with x'; [exact Hr|].
  pose proof (proj1 (Edwards.on_curve_solve _ _) HA) as S1. pose proof (proj1 (Edwards.on_curve_solve _ _) HA') as S2.
  rewrite <- S1 in S2. apply roots_opp in S2 as [E|E]; [exact E|].
  destruct (decide (x = Zmod.zero)) as [Ez|Hz]; [rewrite E, Ez; apply Zmod.opp_0|]. exfalso.
  assert (Hz' : x' <> Zmod.zero).
  { intros E0. apply Hz. rewrite <- (Zmod.opp_opp x), <- E, E0. apply Zmod.opp_0. }
  specialize (Hpar Hz'). rewrite E, parity_opp in Hpar by exact Hz. words.
Qed.

End CEdwards25519.
