(* ===== verification/Subgroup.v ===== *)
(** * The multiples of the base point

    The base point of src/crypto/curve25519/ed25519.cpp generates a group of
    the prime order [SC25519.L]: the scalars of sc25519.cpp count its elements
    modulo [L], and the points of Ed25519.v and their packed form determine
    the scalar. *)

From S2P Require Import Prelude Base25519 SC25519 Prime25519 FP25519 FPInverse Edwards Order25519 Ed25519.
From Stdlib Require Import Zdivisibility Zmod.

Module Subgroup.
Import Order25519.

(** [x] times the base point *)
Definition multiple (x : Z) : Edwards.point := Edwards.times (Z.to_nat (x mod SC25519.L)) B.

Lemma L_l25519 : SC25519.L = l25519.
Proof. reflexivity. Qed.

Lemma L_pos : 0 < SC25519.L.
Proof. reflexivity. Qed.

Lemma l_nat_L : Z.of_nat l_nat = SC25519.L.
Proof. rewrite L_l25519. unfold l_nat. apply Z2Nat.id. apply Z.lt_le_incl. rewrite <- L_l25519. exact L_pos. Qed.

#[local] Opaque l_nat SC25519.L l25519.

Lemma multiple_nat n : multiple (Z.of_nat n) = Edwards.times n B.
Proof.
  unfold multiple. pose proof L_pos. pose proof l_nat_L. rewrite <- l_nat_L, <- Nat2Z.inj_mod, Nat2Z.id. symmetry.
  apply Edwards.times_mod; [exact base_on_curve|lia|exact base_order].
Qed.

Lemma multiple_of x : 0 <= x -> Edwards.times (Z.to_nat x) B = multiple x.
Proof. intros Hx. rewrite <- multiple_nat, Z2Nat.id by exact Hx. reflexivity. Qed.

Lemma multiple_mod x y : x mod SC25519.L = y mod SC25519.L -> multiple x = multiple y.
Proof. unfold multiple. intros E. rewrite E. reflexivity. Qed.

Lemma mod_nonneg x : 0 <= x mod SC25519.L.
Proof. apply Z.mod_pos_bound, L_pos. Qed.

Lemma multiple_add x y : Edwards.add (multiple x) (multiple y) = multiple (x + y).
Proof.
  unfold multiple at 1 2. rewrite <- Edwards.times_add by exact base_on_curve.
  pose proof (mod_nonneg x). pose proof (mod_nonneg y). rewrite <- Z2Nat.inj_add, multiple_of by lia.
  apply multiple_mod. symmetry. apply Zplus_mod.
Qed.

Lemma times_multiple n x : Edwards.times n (multiple x) = multiple (Z.of_nat n * x).
Proof.
  unfold multiple at 1. rewrite <- Edwards.times_mul by exact base_on_curve. pose proof (mod_nonneg x).
  rewrite <- (Nat2Z.id n) at 1. rewrite <- Z2Nat.inj_mul, multiple_of by lia.
  apply multiple_mod. apply Zmult_mod_idemp_r.
Qed.

Lemma multiple_0 : multiple 0 = Edwards.zero.
Proof. unfold multiple. rewrite Z.mod_0_l by (pose proof L_pos; lia). reflexivity. Qed.

Lemma multiple_on_curve x : Edwards.on_curve (multiple x).
Proof. apply Edwards.times_on_curve, base_on_curve. Qed.

(** A multiple that vanishes is a multiple by [0]: [L] is prime and the base
    point is not the neutral element. *)
Lemma multiple_zero_inv x : multiple x = Edwards.zero -> x mod SC25519.L = 0.
Proof.
  intros E. destruct (Z.eq_dec (x mod SC25519.L) 0) as [|Hne]; [assumption|]. exfalso. apply base_nonzero.
  assert (Hc : Z.coprime x SC25519.L).
  { symmetry. rewrite L_l25519 in *. apply Z.coprime_prime_l; [exact l25519_prime|].
    intros Hd. apply Hne, Z.mod_divide; [pose proof L_pos; rewrite L_l25519 in *; lia|exact Hd]. }
  pose proof (Z.invmod_coprime' _ _ Hc) as Hi. pose proof (mod_nonneg (Z.invmod x SC25519.L)).
  rewrite <- (Edwards.times_zero (Z.to_nat (Z.invmod x SC25519.L mod SC25519.L))), <- E, times_multiple, Z2Nat.id by assumption.
  rewrite (multiple_mod _ (Z.of_nat 1)) by (rewrite Zmult_mod_idemp_l; exact Hi).
  rewrite multiple_nat. cbn [Edwards.times]. symmetry. apply Edwards.add_zero_r.
Qed.

Lemma multiple_inj x y : multiple x = multiple y -> x mod SC25519.L = y mod SC25519.L.
Proof.
  intros E. assert (Hz : (x - y) mod SC25519.L = 0).
  { apply multiple_zero_inv. rewrite <- Z.add_opp_r, <- multiple_add, E, multiple_add, Z.add_opp_diag_r. exact multiple_0. }
  apply Z.mod_divide in Hz as [k Hk]; [|pose proof L_pos; lia].
  replace x with (y + k * SC25519.L) by lia. apply Z.mod_add. pose proof L_pos; lia.
Qed.

(** ** The points that stand for a multiple *)

Import CEdwards25519.

Definition stands (P : ed) (x : Z) : Prop := repr P (multiple x).

Lemma stands_mod P x y : x mod SC25519.L = y mod SC25519.L -> stands P x -> stands P y.
Proof. intros E H. unfold stands. rewrite <- (multiple_mod x y E). exact H. Qed.

Lemma stands_zero : stands identity 0.
Proof. unfold stands. rewrite multiple_0. exact identity_repr. Qed.

Lemma stands_add P Q x y : stands P x -> stands Q y -> stands (Add P Q) (x + y).
Proof. intros HP HQ. unfold stands. rewrite <- multiple_add. apply Add_repr; assumption. Qed.

Lemma stands_negate P x : stands P x -> stands (negate P) (- x).
Proof.
  intros HP. unfold stands. assert (multiple (- x) = Edwards.opp (multiple x)) as ->; [|apply negate_repr; exact HP].
  pose proof (multiple_on_curve x) as Hc. apply (Edwards.add_cancel_l (multiple x)); try apply multiple_on_curve.
  - apply Edwards.opp_on_curve, Hc.
  - rewrite Edwards.add_opp_r, multiple_add, Z.add_opp_diag_r by exact Hc. exact multiple_0.
Qed.

Lemma stands_scalar o s x y :
  SC25519.repr s x -> stands (pt o) y -> cache_ok o -> stands (ScalarMult o (FP25519.bytes s)).1 (x * y).
Proof.
  intros (Hw & E & Hx) HP Hc. destruct (FPInverse.bytes_spec s Hw) as [Hf Ev].
  destruct (ScalarMult_spec o (FP25519.bytes s) _ HP Hc Hf) as [H _]; [unfold FP25519.bytes; discriminate|].
  rewrite Ev, E, times_multiple, Z2Nat.id in H by lia. exact H.
Qed.

Lemma stands_generate s x : SC25519.repr s x -> stands (Generate s) x.
Proof.
  intros (Hw & E & Hx). pose proof (Generate_spec s Hw) as H. rewrite E, multiple_of in H by lia. exact H.
Qed.

(** Points are equal exactly when their scalars are. *)
Lemma stands_eq P Q x y :
  stands P x -> stands Q y -> eq_point P Q = bool_decide (x mod SC25519.L = y mod SC25519.L).
Proof.
  intros HP HQ. rewrite (eq_point_spec _ _ _ _ HP HQ). apply bool_decide_ext. split; [apply multiple_inj|apply multiple_mod].
Qed.

Lemma stands_unpack P x : stands P x -> (Unpack (Pack P)).1 = true /\ stands (Unpack (Pack P)).2 x.
Proof. apply Unpack_Pack. Qed.

Lemma of_Z_of_val n : base25519.wf n -> base25519.of_Z (base25519.val n) = n.
Proof.
  intros Hw. apply base25519.mem32_val_inj; [apply base25519.of_Z_wf|exact Hw|].
  apply base25519.of_Z_val, base25519.mem32_val_range, Hw.
Qed.

(** So are packed points. *)
Lemma pack_stands_inj P Q x y :
  stands P x -> stands Q y -> base25519.val (Pack P) = base25519.val (Pack Q) -> x mod SC25519.L = y mod SC25519.L.
Proof.
  intros HP HQ E. apply multiple_inj, encode_inj; [apply multiple_on_curve..|].
  rewrite <- (proj2 (Pack_spec _ _ HP)), <- (proj2 (Pack_spec _ _ HQ)). exact E.
Qed.

Lemma pack_stands_eq P Q x y :
  stands P x -> stands Q y -> x mod SC25519.L = y mod SC25519.L -> Pack P = Pack Q.
Proof.
  intros HP HQ E. destruct (Pack_spec _ _ HP) as [Hw Ev], (Pack_spec _ _ HQ) as [Hw' Ev'].
  apply base25519.mem32_val_inj; [exact Hw|exact Hw'|]. rewrite Ev, Ev', (multiple_mod _ _ E). reflexivity.
Qed.

(** No multiple of the base point is packed as [0]. *)
Lemma pack_nonzero P x : stands P x -> base25519.val (Pack P) <> 0.
Proof.
  intros HP E0. destruct (Pack_spec _ _ HP) as [_ Ev]. rewrite Ev in E0. unfold encode in E0.
  pose proof (to_Z_range (multiple x).2) as Hr.
  pose proof (Z.mod_pos_bound (Zmod.to_Z (multiple x).1) 2 ltac:(lia)) as Hm.
  assert (Ey : (multiple x).2 = Zmod.zero) by (apply Zmod.unsigned_inj; rewrite Zmod.unsigned_0; lia).
  clear E0 Hr Hm Ev HP P. pose proof (multiple_on_curve x) as Hc.
  assert (H4 : multiple (x + x + (x + x)) = Edwards.zero).
  { rewrite <- !multiple_add. destruct (multiple x) as [a b]. cbn [snd] in Ey. rewrite Ey in *. apply Edwards.ordinate_zero, Hc. }
  apply multiple_zero_inv, Z.mod_divide in H4; [|pose proof L_pos; lia].
  replace (x + x + (x + x)) with (4 * x) in H4 by ring. rewrite L_l25519 in H4.
  apply Z.divide_prime_mul in H4; [|exact l25519_prime]. destruct H4 as [H4|[k Hk]].
  - apply Z.divide_pos_le in H4; [|lia]. apply H4. reflexivity.
  - assert (Ez : multiple x = Edwards.zero).
    { rewrite <- multiple_0. apply multiple_mod. rewrite Hk, L_l25519, Z.mod_mul, Z.mod_0_l; [reflexivity|..];
        intros E; pose proof L_pos as HL; rewrite L_l25519, E in HL; discriminate. }
    rewrite Ez, Edwards.zero_coordinates in Ey. cbn [snd] in Ey. exact (one_neq_zero Ey).
Qed.

(** ** The operators as a group *)

Definition valid (p : ed) : Prop := exists A, repr p A.

Lemma iter_repr p A n : repr p A -> repr (Nat.iter n (Add p) identity) (Edwards.times n A).
Proof.
  intros Hp. induction n as [|n IH]; [exact identity_repr|]. rewrite Nat.iter_succ. cbn [Edwards.times].
  apply Add_repr; assumption.
Qed.

Lemma eq_point_same p q A : repr p A -> repr q A -> eq_point p q = true.
Proof. intros Hp Hq. rewrite (eq_point_spec _ _ _ _ Hp Hq). apply bool_decide_eq_true_2. reflexivity. Qed.

(** C29: the points form a commutative group under [+] with [==] as equality:
    [+], unary [-] and [Double] give points of the curve, [+] is associative and
    commutative, [CEdwards25519()] is neutral, [-p] is the inverse of [p], and
    [Double p] is [p + p]. *)
Theorem point_group (p q r : ed) :
  valid p -> valid q -> valid r ->
  valid (Add p q) /\ valid (negate p) /\ valid (Double p) /\ valid identity /\
  eq_point (Add (Add p q) r) (Add p (Add q r)) = true /\ eq_point (Add p q) (Add q p) = true /\
  eq_point (Add p identity) p = true /\ eq_point (Add p (negate p)) identity = true /\
  eq_point (Double p) (Add p p) = true.
Proof.
  intros [A HA] [B' HB] [C HC].
  pose proof (repr_on_curve _ _ HA) as CA. pose proof (repr_on_curve _ _ HB) as CB. pose proof (repr_on_curve _ _ HC) as CC.
  pose proof (Add_repr _ _ _ _ HA HB) as HAB. pose proof (negate_repr _ _ HA) as HN. pose proof (Double_repr _ _ HA) as HD.
  refine (conj (ex_intro _ _ HAB) (conj (ex_intro _ _ HN) (conj (ex_intro _ _ HD) (conj (ex_intro _ _ identity_repr)
    (conj _ (conj _ (conj _ (conj _ _)))))))).
  - apply (eq_point_same _ _ (Edwards.add (Edwards.add A B') C)); [apply Add_repr; assumption|].
    rewrite Edwards.add_assoc by assumption. apply Add_repr; [assumption|]. apply Add_repr; assumption.
  - apply (eq_point_same _ _ (Edwards.add A B')); [assumption|]. rewrite Edwards.add_comm. apply Add_repr; assumption.
  - apply (eq_point_same _ _ A); [|assumption]. rewrite <- (Edwards.add_zero_r A).
    apply Add_repr; [assumption|exact identity_repr].
  - apply (eq_point_same _ _ Edwards.zero); [|exact identity_repr]. rewrite <- (Edwards.add_opp_r A CA).
    apply Add_repr; assumption.
  - apply (eq_point_same _ _ (Edwards.add A A)); [assumption|]. apply Add_repr; assumption.
Qed.

Lemma base_valid : valid (pt base).
Proof. exists B. exact base_repr. Qed.

Lemma point_group_witness :
  let g := pt base in eq_point (Add (Add g (Double g)) g) (Add g (Add (Double g) g)) = true.
Proof.
  intros g. destruct (point_group g (Double g) g) as (_ & _ & _ & _ & H & _).
  - exact base_valid.
  - exists (Edwards.add B B). exact (Double_repr _ _ base_repr).
  - exact base_valid.
  - exact H.
Defined.

(** C30: [ScalarMult] of a point by a number of any length in bytes is the
    repeated sum of the point, and leaves the object with the table of this
    point, whether it had one before or none. *)
Theorem ScalarMult_repeats (o : edobj) (u8 : list Z) :
  valid (pt o) -> cache_ok o -> Forall (is_uint 8) u8 -> u8 <> [] ->
  let n := Z.to_nat (le_combine 8 u8) in
  eq_point (ScalarMult o u8).1 (Nat.iter n (Add (pt o)) identity) = true /\ valid (ScalarMult o u8).1 /\
  pt (ScalarMult o u8).2 = pt o /\ cache_ok (ScalarMult o u8).2.
Proof.
  intros [A HA] Hc Hf Hne n. destruct (ScalarMult_spec o u8 A HA Hc Hf Hne) as [Hr Eo].
  rewrite Eo. refine (conj _ (conj (ex_intro _ _ Hr) (conj eq_refl (or_intror eq_refl)))).
  apply (eq_point_same _ _ _ Hr). apply iter_repr. exact HA.
Qed.

Lemma ScalarMult_repeats_witness :
  eq_point (ScalarMult (EdObj (pt base) []) [5; 1]).1 (Nat.iter 261 (Add (pt base)) identity) = true.
Proof.
  apply (ScalarMult_repeats (EdObj (pt base) []) [5; 1]).
  - exact base_valid.
  - left. exact eq_refl.
  - apply (bool_decide_unpack _). exact I.
  - discriminate.
Defined.

(** C31: [Unpack] reads back what [Pack] writes, [Pack] gives equal bytes exactly
    for equal points, and [Unpack] accepts the bytes exactly if their lower
    255 bits are the ordinate of a point of the curve. *)
Theorem pack_roundtrip (p q : ed) (md32 : mem32) :
  valid p -> valid q -> base25519.wf md32 ->
  (Unpack (Pack p)).1 = true /\ eq_point (Unpack (Pack p)).2 p = true /\
  (Pack p = Pack q <-> eq_point p q = true) /\
  ((Unpack md32).1 = true <->
    exists x, Edwards.on_curve (x, Zmod.of_Z p25519 (base25519.val md32 mod 2 ^ 255))).
Proof.
  intros [A HA] [C HC] Hw. destruct (Unpack_Pack p A HA) as [Ho Hu].
  destruct (Pack_spec _ _ HA) as [Hwp Ep], (Pack_spec _ _ HC) as [Hwq Eq].
  refine (conj Ho (conj (eq_point_same _ _ _ Hu HA) (conj _ _))).
  - rewrite (eq_point_spec _ _ _ _ HA HC), bool_decide_eq_true. split.
    + intros E. apply encode_inj; [exact (repr_on_curve _ _ HA)|exact (repr_on_curve _ _ HC)|].
      rewrite <- Ep, <- Eq, E. reflexivity.
    + intros E. apply base25519.mem32_val_inj; [exact Hwp|exact Hwq|]. rewrite Ep, Eq, E. reflexivity.
  - destruct (Unpack_cases md32 Hw) as [[E Hno]|[E (x & Hr & _)]]; rewrite E; split.
    + discriminate.
    + intros [x Hx]. destruct (Hno x Hx).
    + intros _. exists x. exact (repr_on_curve _ _ Hr).
    + reflexivity.
Qed.

Lemma pack_roundtrip_witness : (Unpack (Pack (pt base))).1 = true /\ eq_point (Unpack (Pack (pt base))).2 (pt base) = true.
Proof.
  destruct (pack_roundtrip (pt base) identity (Pack (pt base))) as (H1 & H2 & _).
  - exact base_valid.
  - exists Edwards.zero. exact identity_repr.
  - exact (proj1 (Pack_spec _ _ base_repr)).
  - split; [exact H1|exact H2].
Defined.

(** [Generate] counts the multiples of the base point modulo the prime
    [L]: two scalars give the same point exactly when they agree modulo [L],
    and sums and products of scalars give sums and multiples of points. *)
Theorem Generate_homomorphism (s t : mem32) :
  base25519.wf s -> base25519.wf t ->
  eq_point (Generate s) (Generate t) =
    bool_decide (base25519.val s mod SC25519.L = base25519.val t mod SC25519.L) /\
  let s' := SC25519.Unpack s in let t' := SC25519.Unpack t in
  eq_point (Generate (SC25519.add s' t')) (Add (Generate s) (Generate t)) = true /\
  eq_point (Generate (SC25519.mul s' t')) (ScalarMult (EdObj (Generate t) []) (FP25519.bytes s)).1 = true /\
  Z.prime SC25519.L.
Proof.
  intros Hs Ht.
  assert (Hg : forall n, base25519.wf n -> stands (Generate n) (base25519.val n)).
  { intros n Hn. pose proof (Generate_spec n Hn) as H. rewrite multiple_of in H; [exact H|].
    apply (base25519.mem32_val_range n Hn). }
  pose proof (SC25519.Unpack_spec s Hs) as Us. pose proof (SC25519.Unpack_spec t Ht) as Ut.
  refine (conj (stands_eq _ _ _ _ (Hg s Hs) (Hg t Ht)) (conj _ (conj _ l25519_prime))).
  - rewrite (stands_eq _ _ _ _ (stands_generate _ _ (SC25519.add_spec _ _ _ _ Us Ut)) (stands_add _ _ _ _ (Hg s Hs) (Hg t Ht))).
    apply bool_decide_eq_true_2. rewrite Z.mod_mod by (pose proof L_pos; lia). symmetry. apply Zplus_mod.
  - destruct (FPInverse.bytes_spec s Hs) as [Hf Ev].
    destruct (ScalarMult_spec (EdObj (Generate t) []) (FP25519.bytes s) _ (Hg t Ht)) as [H _];
      [left; reflexivity|exact Hf|unfold FP25519.bytes; discriminate|].
    rewrite Ev, times_multiple, Z2Nat.id in H by apply (base25519.mem32_val_range s Hs).
    rewrite (stands_eq _ _ _ _ (stands_generate _ _ (SC25519.mul_spec _ _ _ _ Us Ut)) H).
    apply bool_decide_eq_true_2. rewrite Z.mod_mod by (pose proof L_pos; lia). symmetry. apply Zmult_mod.
Qed.

Lemma Generate_homomorphism_witness :
  eq_point (Generate (Mem32 1 0 0 0)) (Generate (Mem32 2 0 0 0)) = bool_decide (1 mod SC25519.L = 2 mod SC25519.L).
Proof.
  apply (Generate_homomorphism (Mem32 1 0 0 0) (Mem32 2 0 0 0)).
  - apply (bool_decide_unpack _). vm_compute. exact I.
  - apply (bool_decide_unpack _). vm_compute. exact I.
Defined.

End Subgroup.
