(* ===== verification/Crypto.v ===== *)
(** * Multi-signatures (src/crypto/crypto.cpp)

    The functions of libsodium ([CryptoHash] is its blake2b with a 32-byte
    output, [sha512] its SHA-512) are parameters.  The curve class
    [CEdwards25519] is used through the interface [IEdwards]; [IEdwardsOk]
    states what the signatures rely on, and Ed25519.v's points discharge it in
    MultiSign.v.
    A [set<uint256>] is a [gset Z] iterated in increasing order. *)

From S2P Require Import Prelude Base25519 SC25519.

(** The operations of [CEdwards25519] *)
Class IEdwards := {
  point : Type;
  ed_zero : point;                     (* CEdwards25519() *)
  ed_add : point -> point -> point;    (* operator+=, operator+ *)
  ed_mul : mem32 -> point -> point;    (* ScalarMult(CSC25519) *)
  ed_gen : mem32 -> point;             (* Generate *)
  ed_eqb : point -> point -> bool;     (* operator== *)
  ed_pack : point -> Z;                (* Pack *)
  ed_unpack : Z -> option point;       (* Unpack *)
}.

(** What the signatures rely on: [stands P x] says that [P] is [x] times the
    base point.  Several objects can stand for one point. *)
Class IEdwardsOk `{IEdwards} := {
  stands : point -> Z -> Prop;
  stands_mod : forall P x, stands P (x mod SC25519.L) <-> stands P x;
  zero_stands : stands ed_zero 0;
  add_stands : forall P Q x y, stands P x -> stands Q y -> stands (ed_add P Q) (x + y);
  mul_stands : forall s P x y, SC25519.repr s x -> stands P y -> stands (ed_mul s P) (x * y);
  gen_stands : forall s x, SC25519.repr s x -> stands (ed_gen s) x;
  eqb_stands : forall P Q x, stands P x -> stands Q x -> ed_eqb P Q = true;
  pack_range : forall P x, stands P x -> is_uint 256 (ed_pack P);
  unpack_pack : forall P x, stands P x -> exists Q, ed_unpack (ed_pack P) = Some Q /\ stands Q x;
}.

Record CCryptoKey : Type := mkCryptoKey { k_secret : Z; k_pubkey : Z }.

Module Crypto.

Definition bytes32 (z : Z) : list Z := le_split 8 32 z.

(** The elements of a [set<uint256>] in iteration order *)
Definition set_list (s : gset Z) : list Z := merge_sort Z.le (elements s).

(** [CSC25519(md32)] and [Unpack(md32)] of bytes in memory *)
Definition sc_of_bytes (l : list Z) : mem32 := SC25519.Unpack (base25519.of_Z (le_combine 8 (take 32 l))).

(** [CryptoVerify]; [verify_detached] is libsodium's
    [crypto_sign_ed25519_verify_detached] as a test. *)
Definition CryptoVerify (verify_detached : list Z -> list Z -> Z -> bool) (pubkey : Z) (md vchSig : list Z) : bool :=
  (length vchSig =? 64)%nat && verify_detached vchSig md pubkey.

Section crypto.
Context (CryptoHash : list Z -> Z) (sha512 : list Z -> list Z) `{IEdwards}.

Definition sc_hash (msg : list Z) : mem32 := sc_of_bytes (bytes32 (CryptoHash msg)).

Definition MultiSignPreApk (setPubKey : gset Z) : list Z :=
  replicate 32 0 ++ flat_map bytes32 (set_list setPubKey).

(** [memcpy(&vecHash[0],key)] and the hash of the buffer: [hi = H(Ai,A1,...,An)] *)
Definition key_hash (vecHash : list Z) (key : Z) : mem32 := sc_hash (bytes32 key ++ drop 32 vecHash).

Fixpoint apk_loop (vecHash : list Z) (apk : point) (part : list Z) : option point :=
  match part with
  | [] => Some apk
  | key :: part =>
      match ed_unpack key with
      | None => None
      | Some p => apk_loop vecHash (ed_add apk (ed_mul (key_hash vecHash key) p)) part
      end
  end.

Definition MultiSignApk (setPubKey setPartKey : gset Z) : option Z :=
  ed_pack <$> apk_loop (MultiSignPreApk setPubKey) ed_zero (set_list setPartKey).

Definition MultiSignHash (pX : list Z) (apk : Z) (pM : list Z) : mem32 := sc_hash (pX ++ bytes32 apk ++ pM).

Definition MultiSignR (key : CCryptoKey) (pM : list Z) : mem32 :=
  let keyHash := CryptoHash (bytes32 (k_secret key) ++ bytes32 (k_pubkey key)) in
  sc_hash (bytes32 keyHash ++ pM).

Definition ClampPrivKey (privkey : Z) : mem32 :=
  let hash := sha512 (bytes32 privkey) in
  let hash := alter (fun x => Z.land x 248) 0%nat hash in
  let hash := alter (fun x => Z.land x 127) 31%nat hash in
  let hash := alter (fun x => Z.lor x 64) 31%nat hash in
  sc_of_bytes hash.

(** [pIndex[i / 8] & (1 << (i % 8))] *)
Definition index_bit (pIndex : list Z) (i : nat) : bool :=
  negb (Z.land (nth (i / 8) pIndex 0) (Z.shiftl 1 (Z.of_nat (i mod 8))) =? 0).

Definition set_index_bit (pIndex : list Z) (i : nat) : list Z :=
  alter (fun x => Z.lor x (Z.shiftl 1 (Z.of_nat (i mod 8)))) (i / 8)%nat pIndex.

(** [(setPubKey.size() - 1) / 8 + 1] of a set that is not empty *)
Definition nIndexLen (setPubKey : gset Z) : nat := ((size setPubKey - 1) / 8 + 1)%nat.

(** The signature [(index,R,S)] *)
Definition pack_sig (index : list Z) (R : point) (S : mem32) : list Z :=
  index ++ bytes32 (ed_pack R) ++ bytes32 (base25519.val S).

(** The body of [CryptoMultiSign] once [(R,S)] is known: [sig] is the vector,
    already of its full length. *)
Definition multi_sign_body (setPubKey : gset Z) (privkey : CCryptoKey) (pX pM sig : list Z)
    (R : point) (S : mem32) : bool * list Z :=
  match MultiSignApk setPubKey setPubKey with
  | None => (false, sig)
  | Some apk =>
      let hash := MultiSignHash pX apk pM in
      match list_find (fun k => k = k_pubkey privkey) (set_list setPubKey) with
      | None => (false, sig)
      | Some (index, pub) =>
          let pIndex := take (nIndexLen setPubKey) sig in
          if negb (index_bit pIndex index) then
            let ri := MultiSignR privkey pM in
            let hi := key_hash (MultiSignPreApk setPubKey) pub in
            let si := ClampPrivKey (k_secret privkey) in
            let Si := SC25519.add ri (SC25519.mul (SC25519.mul hash hi) si) in
            (true, pack_sig (set_index_bit pIndex index) (ed_add R (ed_gen ri)) (SC25519.add S Si))
          else (true, pack_sig pIndex R S)
      end
  end.

(** [CryptoMultiSign]: the result and the vector [vchSig] it leaves *)
Definition CryptoMultiSign (setPubKey : gset Z) (privkey : CCryptoKey) (pX pM vchSig : list Z) : bool * list Z :=
  if bool_decide (setPubKey = ∅) then (false, vchSig)
  else
    let n := nIndexLen setPubKey in
    match vchSig with
    | [] => multi_sign_body setPubKey privkey pX pM (replicate (n + 64) 0) ed_zero base25519.Zero32
    | _ =>
        if negb (length vchSig =? n + 64)%nat then (false, vchSig)
        else
          match ed_unpack (le_combine 8 (take 32 (drop n vchSig))) with
          | None => (false, vchSig)
          | Some R => multi_sign_body setPubKey privkey pX pM vchSig R (sc_of_bytes (drop (n + 32) vchSig))
          end
    end.

(** The loop of [CryptoMultiVerify] over the keys, [i] the index of the first;
    no point when [Unpack] fails. *)
Fixpoint verify_loop (vecHash pIndex : list Z) (i : nat) (keys : list Z) (A : point) (part : gset Z)
    : option point * gset Z :=
  match keys with
  | [] => (Some A, part)
  | key :: keys =>
      if index_bit pIndex i then
        match ed_unpack key with
        | None => (None, part)
        | Some Ai => verify_loop vecHash pIndex (S i) keys (ed_add A (ed_mul (key_hash vecHash key) Ai)) ({[key]} ∪ part)
        end
      else verify_loop vecHash pIndex (S i) keys A part
  end.

(** [CryptoMultiVerify]: the result and [setPartKey] *)
Definition CryptoMultiVerify (setPubKey : gset Z) (pX pM vchSig : list Z) (setPartKey : gset Z) : bool * gset Z :=
  if bool_decide (setPubKey = ∅) then (false, setPartKey)
  else if bool_decide (vchSig = []) then (true, setPartKey)
  else
    let n := nIndexLen setPubKey in
    if negb (length vchSig =? n + 64)%nat then (false, setPartKey)
    else
      match ed_unpack (le_combine 8 (take 32 (drop n vchSig))) with
      | None => (false, setPartKey)
      | Some R =>
          let S := sc_of_bytes (drop (n + 32) vchSig) in
          match MultiSignApk setPubKey setPubKey with
          | None => (false, setPartKey)
          | Some apk =>
              let hash := MultiSignHash pX apk pM in
              match verify_loop (MultiSignPreApk setPubKey) (take n vchSig) 0 (set_list setPubKey) ed_zero ∅ with
              | (None, part) => (false, part)
              | (Some A, part) => (ed_eqb (ed_gen S) (ed_add R (ed_mul hash A)), part)
              end
          end
      end.

Fixpoint part_loop (pIndex : list Z) (i : nat) (keys : list Z) (part : gset Z) : gset Z :=
  match keys with
  | [] => part
  | key :: keys => part_loop pIndex (S i) keys (if index_bit pIndex i then {[key]} ∪ part else part)
  end.

Definition CryptoMultiPartKey (setPubKey : gset Z) (vchSig : list Z) : gset Z :=
  if bool_decide (setPubKey = ∅) || bool_decide (vchSig = []) then ∅
  else if negb (length vchSig =? nIndexLen setPubKey + 64)%nat then ∅
  else part_loop (take (nIndexLen setPubKey) vchSig) 0 (set_list setPubKey) ∅.

End crypto.

(** ** Correctness of the multi-signature *)

Section multisig.
Context (CryptoHash : list Z -> Z) (sha512 : list Z -> list Z) `{IEdwardsOk}.

(** A key as [crypto_sign_ed25519_keypair] makes it: the public key is the
    multiple of the base point by the clamped secret. *)
Definition key_ok (key : CCryptoKey) : Prop :=
  k_pubkey key = ed_pack (ed_gen (ClampPrivKey sha512 (k_secret key))).

Lemma index_bit_testbit l i : index_bit l i = Z.testbit (nth (i / 8) l 0) (Z.of_nat (i mod 8)).
Proof.
  unfold index_bit. generalize (nth (i / 8) l 0) (Z.of_nat (i mod 8)) (Nat2Z.is_nonneg (i mod 8)).
  intros x k Hk. rewrite Z.shiftl_1_l. destruct (Z.testbit x k) eqn:E.
  - apply negb_true_iff, Z.eqb_neq. intros E0. apply (f_equal (fun z => Z.testbit z k)) in E0.
    rewrite Z.land_spec, E, Z.pow2_bits_true, Z.bits_0 in E0 by done. done.
  - apply negb_false_iff, Z.eqb_eq. apply Z.bits_inj'. intros m Hm.
    rewrite Z.land_spec, Z.bits_0, Z.pow2_bits_eqb by done.
    destruct (Z.eqb_spec k m) as [<-|]; [by rewrite E|by rewrite andb_false_r].
Qed.

Lemma nth_alter (f : Z -> Z) i j l :
  (i < length l)%nat -> nth j (alter f i l) 0 = if (j =? i)%nat then f (nth j l 0) else nth j l 0.
Proof.
  intros Hi. destruct (Nat.eqb_spec j i) as [->|Hne].
  - apply nth_lookup_Some. destruct (lookup_lt_is_Some_2 l i Hi) as [x Hx].
    rewrite list_lookup_alter_eq, Hx, (nth_lookup_Some _ _ _ _ Hx). done.
  - rewrite !nth_lookup, list_lookup_alter_ne by done. done.
Qed.

Lemma index_bit_set l i j :
  (i / 8 < length l)%nat -> index_bit (set_index_bit l i) j = (j =? i)%nat || index_bit l j.
Proof.
  intros Hi. rewrite !index_bit_testbit. unfold set_index_bit. rewrite nth_alter by done.
  destruct (Nat.eqb_spec (j / 8) (i / 8)) as [E|E].
  - rewrite Z.lor_spec, Z.shiftl_1_l, Z.pow2_bits_eqb, orb_comm by lia. f_equal.
    pose proof (Nat.div_mod_eq i 8). pose proof (Nat.div_mod_eq j 8).
    destruct (Z.eqb_spec (Z.of_nat (i mod 8)) (Z.of_nat (j mod 8))), (Nat.eqb_spec j i); (done || lia).
  - destruct (Nat.eqb_spec j i) as [->|]; done.
Qed.

Lemma index_bit_zero n i : index_bit (replicate n 0) i = false.
Proof.
  rewrite index_bit_testbit, nth_lookup.
  destruct (replicate n 0 !! _) eqn:E; simpl; [apply lookup_replicate in E as [-> _]|]; apply Z.bits_0.
Qed.

Lemma sc_of_bytes_canon l : SC25519.repr (sc_of_bytes l) (base25519.val (sc_of_bytes l)).
Proof.
  destruct (SC25519.Unpack_spec (base25519.of_Z (le_combine 8 (take 32 l)))) as (Hw & E & Hr);
    [apply base25519.of_Z_wf|].
  split; [done|]. split; [done|]. unfold sc_of_bytes. by rewrite E.
Qed.

Lemma bytes32_app z rest : take 32 (bytes32 z ++ rest) = bytes32 z /\ drop 32 (bytes32 z ++ rest) = rest.
Proof.
  assert (length (bytes32 z) = 32%nat) as E by apply length_le_split.
  by rewrite take_app_le, drop_app_ge, E, take_ge, Nat.sub_diag, drop_0 by lia.
Qed.

Lemma bytes32_combine z : is_uint 256 z -> le_combine 8 (bytes32 z) = z.
Proof. intros Hz. unfold bytes32. rewrite le_combine_split by lia. by apply Z.mod_small. Qed.

Lemma sc_of_bytes_pack s x : SC25519.repr s x -> sc_of_bytes (bytes32 (base25519.val s)) = s.
Proof.
  intros (Hw & E & Hx). unfold sc_of_bytes. rewrite take_ge by (unfold bytes32; rewrite length_le_split; lia).
  pose proof (base25519.mem32_val_range s Hw) as Hr. rewrite bytes32_combine by done.
  destruct (SC25519.Unpack_spec (base25519.of_Z (base25519.val s))) as (Hw' & E' & _); [apply base25519.of_Z_wf|].
  apply base25519.mem32_val_inj; [done|done|]. rewrite E', base25519.of_Z_val, E by done. by apply Z.mod_small.
Qed.

(** The parts of a signature *)
Lemma sig_parts n index R S x y :
  length index = n -> stands R y -> SC25519.repr S x ->
  let sig := pack_sig index R S in
  length sig = (n + 64)%nat /\ take n sig = index /\
  le_combine 8 (take 32 (drop n sig)) = ed_pack R /\ sc_of_bytes (drop (n + 32) sig) = S.
Proof.
  intros Hn HR HS. cbv zeta. unfold pack_sig.
  assert (Hl : forall z, length (bytes32 z) = 32%nat) by (intros; apply length_le_split).
  rewrite !length_app, !Hl, Hn. split; [lia|].
  rewrite <- Hn at 1. rewrite take_app_length. split; [done|].
  rewrite <- Hn, <- drop_drop, drop_app_length. destruct (bytes32_app (ed_pack R) (bytes32 (base25519.val S))) as [-> ->].
  split; [by apply bytes32_combine, (pack_range R y)|]. by apply (sc_of_bytes_pack S x).
Qed.

Context (setPubKey : gset Z) (pX pM : list Z).

Lemma elem_of_set_list key (X : gset Z) : key ∈ set_list X <-> key ∈ X.
Proof. unfold set_list. rewrite merge_sort_Permutation. apply elem_of_elements. Qed.

Lemma NoDup_set_list (X : gset Z) : NoDup (set_list X).
Proof. unfold set_list. rewrite merge_sort_Permutation. apply NoDup_elements. Qed.

Lemma length_set_list (X : gset Z) : length (set_list X) = size X.
Proof. unfold set_list. by rewrite merge_sort_Permutation. Qed.

Lemma apk_defined :
  (forall key, key ∈ setPubKey -> is_Some (ed_unpack key)) -> exists apk, MultiSignApk CryptoHash setPubKey setPubKey = Some apk.
Proof.
  intros keys_unpack. unfold MultiSignApk. generalize (MultiSignPreApk setPubKey). intros vec.
  cut (forall l P, (forall key, key ∈ l -> key ∈ setPubKey) -> is_Some (apk_loop CryptoHash vec P l)).
  { intros Hc. destruct (Hc (set_list setPubKey) ed_zero) as [P ->]; [|by eexists].
    intros key. apply elem_of_set_list. }
  induction l as [|key l IH]; intros P Hl; simpl; [by eexists|].
  destruct (keys_unpack key) as [Q ->]; [apply Hl; left|]. apply IH. intros k Hk. apply Hl. by right.
Qed.

(** What the signers of [T] contribute: the sum of their nonces and of their
    weighted secrets. *)
Definition nonce (k : CCryptoKey) : Z := base25519.val (MultiSignR CryptoHash k pM).

Definition weight (key : Z) : Z := base25519.val (key_hash CryptoHash (MultiSignPreApk setPubKey) key).

Definition secret (k : CCryptoKey) : Z := base25519.val (ClampPrivKey sha512 (k_secret k)).

Definition sum (f : CCryptoKey -> Z) (T : list CCryptoKey) : Z := foldr Z.add 0 (map f T).

Definition weighted (k : CCryptoKey) : Z := weight (k_pubkey k) * secret k.

(** [vchSig] carries the signatures of [T]. *)
Definition signed_by (hash : mem32) (T : list CCryptoKey) (index : list Z) (R : point) (S : mem32) : Prop :=
  length index = nIndexLen setPubKey /\ stands R (sum nonce T) /\
  SC25519.repr S ((sum nonce T + base25519.val hash * sum weighted T) mod SC25519.L) /\
  forall i key, set_list setPubKey !! i = Some key ->
    index_bit index i = bool_decide (key ∈ map k_pubkey T).

Lemma find_key key :
  key ∈ setPubKey ->
  exists i, list_find (fun k => k = key) (set_list setPubKey) = Some (i, key) /\
    set_list setPubKey !! i = Some key /\ (i / 8 < nIndexLen setPubKey)%nat.
Proof.
  intros Hk. apply elem_of_set_list in Hk.
  destruct (list_find_elem_of (fun k => k = key) (set_list setPubKey) key Hk eq_refl) as [[i k] Hf].
  pose proof Hf as Hf'. apply list_find_Some in Hf' as (Hi & -> & _). exists i. split; [done|]. split; [done|].
  apply lookup_lt_Some in Hi. rewrite length_set_list in Hi. unfold nIndexLen.
  assert (i / 8 <= (size setPubKey - 1) / 8)%nat by (apply Nat.Div0.div_le_mono; lia). lia.
Qed.

Lemma multi_sign_body_spec apk T sig R S key :
  MultiSignApk CryptoHash setPubKey setPubKey = Some apk ->
  let hash := MultiSignHash CryptoHash pX apk pM in
  signed_by hash T (take (nIndexLen setPubKey) sig) R S ->
  k_pubkey key ∈ setPubKey -> k_pubkey key ∉ map k_pubkey T ->
  exists index R' S', multi_sign_body CryptoHash sha512 setPubKey key pX pM sig R S =
      (true, pack_sig index R' S') /\ signed_by hash (key :: T) index R' S'.
Proof.
  intros Hapk hash (Hl & HR & HS & Hbits) Hin Hnin. unfold multi_sign_body. rewrite Hapk. fold hash.
  destruct (find_key _ Hin) as (i & -> & Hi & Hlt). set (index := take _ sig) in *.
  rewrite (Hbits _ _ Hi), bool_decide_eq_false_2 by done. cbn [negb].
  eexists _, _, _. split; [reflexivity|]. refine (conj _ (conj _ (conj _ _))).
  - unfold set_index_bit. by rewrite length_alter.
  - replace (sum nonce (key :: T)) with (sum nonce T + nonce key) by (unfold sum; simpl; lia).
    apply add_stands; [done|]. apply gen_stands, sc_of_bytes_canon.
  - assert (HSi : SC25519.repr (SC25519.add (MultiSignR CryptoHash key pM)
        (SC25519.mul (SC25519.mul hash (key_hash CryptoHash (MultiSignPreApk setPubKey) (k_pubkey key)))
          (ClampPrivKey sha512 (k_secret key))))
        ((nonce key + ((base25519.val hash * weight (k_pubkey key)) mod SC25519.L * secret key) mod SC25519.L) mod SC25519.L)).
    { apply SC25519.add_spec; [apply sc_of_bytes_canon|]. apply SC25519.mul_spec; [|apply sc_of_bytes_canon].
      apply SC25519.mul_spec; apply sc_of_bytes_canon. }
    pose proof (SC25519.add_spec _ _ _ _ HS HSi) as HS'.
    eapply eq_ind; [exact HS'|]. unfold sum, weighted. cbn [map foldr].
    rewrite <- Zplus_mod, Z.add_assoc, Zplus_mod_idemp_r, <- Zplus_mod_idemp_r, Zmult_mod_idemp_l, Zplus_mod_idemp_r.
    f_equal. generalize (base25519.val hash) (nonce key) (secret key) (weight (k_pubkey key))
      (foldr Z.add 0 (map nonce T)) (foldr Z.add 0 (map (fun k => weight (k_pubkey k) * secret k) T)).
    intros. ring.
  - intros j key' Hj. rewrite index_bit_set by (rewrite Hl; lia). rewrite (Hbits _ _ Hj). cbn [map].
    destruct (Nat.eqb_spec j i) as [->|Hne].
    + assert (key' = k_pubkey key) as -> by congruence. symmetry. apply bool_decide_eq_true. left.
    + apply bool_decide_ext. rewrite elem_of_cons. split; [tauto|]. intros [->|]; [|done].
      exfalso. apply Hne. by apply (NoDup_lookup _ j i _ (NoDup_set_list setPubKey) Hj).
Qed.

(** One more signer *)
Lemma CryptoMultiSign_spec apk T vchSig key :
  MultiSignApk CryptoHash setPubKey setPubKey = Some apk ->
  let hash := MultiSignHash CryptoHash pX apk pM in
  (T = [] /\ vchSig = [] \/ exists index R S, vchSig = pack_sig index R S /\ signed_by hash T index R S) ->
  k_pubkey key ∈ setPubKey -> k_pubkey key ∉ map k_pubkey T ->
  exists index R S, CryptoMultiSign CryptoHash sha512 setPubKey key pX pM vchSig = (true, pack_sig index R S) /\
    signed_by hash (key :: T) index R S.
Proof.
  intros Hapk hash Hsig Hin Hnin. unfold CryptoMultiSign.
  rewrite bool_decide_eq_false_2 by (intros ->; set_solver).
  destruct Hsig as [[-> ->]|(index & R & S & Esig & HT)].
  - apply (multi_sign_body_spec apk); [done| |done|done]. rewrite take_replicate, Nat.min_l by lia.
    split; [apply length_replicate|]. split; [apply zero_stands|].
    split; [unfold sum; cbn [map foldr]; rewrite Z.mul_0_r; apply SC25519.zero_repr|].
    intros i k _. rewrite index_bit_zero. done.
  - destruct HT as (Hl & HR & HS & Hbits).
    destruct (sig_parts _ index R S _ _ Hl HR HS) as (Hsl & Hidx & HRp & HSp). cbv zeta in *. rewrite <- Esig in *.
    destruct (unpack_pack _ _ HR) as (R' & HR' & Hst).
    destruct vchSig as [|c vchSig]; [simpl in Hsl; lia|].
    rewrite Hsl, Nat.eqb_refl. cbn [negb]. rewrite HRp, HR', HSp.
    apply (multi_sign_body_spec apk); [done| |done|done]. by rewrite Hidx.
Qed.

(** The loop of the verification collects the signers. *)
Lemma verify_loop_spec T (f : Z -> Z) index keys i P x part :
  stands P x -> Forall key_ok T -> (forall k, k ∈ T -> f (k_pubkey k) = weighted k) ->
  (forall j key, keys !! j = Some key -> index_bit index (i + j) = bool_decide (key ∈ map k_pubkey T)) ->
  let signers := filter (fun key => key ∈ map k_pubkey T) keys in
  exists Q, verify_loop CryptoHash (MultiSignPreApk setPubKey) index i keys P part =
      (Some Q, list_to_set signers ∪ part) /\ stands Q (x + foldr Z.add 0 (map f signers)).
Proof.
  intros HP HT Hf. revert i P x part HP. induction keys as [|key keys IH]; intros i P x part HP Hbits; cbv zeta.
  { exists P. simpl. rewrite Z.add_0_r. split; [|done]. f_equal. set_solver. }
  assert (Hbits' : forall j key, keys !! j = Some key -> index_bit index (S i + j) = bool_decide (key ∈ map k_pubkey T)).
  { intros j key' Hj. rewrite <- (Hbits (S j) key' Hj). f_equal. lia. }
  cbn [verify_loop]. rewrite filter_cons.
  specialize (Hbits 0%nat key eq_refl). rewrite Nat.add_0_r in Hbits. rewrite Hbits.
  destruct (decide (key ∈ map k_pubkey T)) as [Hin|Hnin].
  - rewrite bool_decide_eq_true_2 by done. apply list_elem_of_fmap in Hin as (k & -> & Hk).
    rewrite Forall_forall in HT.
    destruct (unpack_pack (ed_gen (ClampPrivKey sha512 (k_secret k))) (secret k)) as (Q & HQ & Hst);
      [apply gen_stands, sc_of_bytes_canon|].
    rewrite <- (HT k Hk : k_pubkey k = _) in HQ. rewrite HQ.
    destruct (IH (S i) (ed_add P (ed_mul (key_hash CryptoHash (MultiSignPreApk setPubKey) (k_pubkey k)) Q))
      (x + weighted k) ({[k_pubkey k]} ∪ part)) as (A & -> & HA); [|done|].
    { apply add_stands; [done|]. apply mul_stands; [apply sc_of_bytes_canon|done]. }
    exists A. cbn [map foldr list_to_set]. rewrite (Hf k Hk), Z.add_assoc. split; [|done]. f_equal. set_solver.
  - rewrite bool_decide_eq_false_2 by done. by apply IH.
Qed.

Lemma sum_permutation (l1 l2 : list Z) : l1 ≡ₚ l2 -> foldr Z.add 0 l1 = foldr Z.add 0 l2.
Proof. induction 1; simpl; lia. Qed.

(** The verification accepts what the signers of [T] made. *)
Lemma CryptoMultiVerify_spec apk T index R S part :
  MultiSignApk CryptoHash setPubKey setPubKey = Some apk ->
  signed_by (MultiSignHash CryptoHash pX apk pM) T index R S ->
  NoDup (map k_pubkey T) -> Forall key_ok T -> (forall k, k ∈ T -> k_pubkey k ∈ setPubKey) -> T <> [] ->
  CryptoMultiVerify CryptoHash setPubKey pX pM (pack_sig index R S) part =
    (true, list_to_set (map k_pubkey T)).
Proof.
  intros Hapk (Hl & HR & HS & Hbits) Hnd HT Hin Hne. set (hash := MultiSignHash CryptoHash pX apk pM) in *.
  set (f key := from_option (fun ik => weighted ik.2) 0 (list_find (fun k => k_pubkey k = key) T)).
  assert (Hf : forall k, k ∈ T -> f (k_pubkey k) = weighted k).
  { intros k Hk. destruct (list_find_elem_of (fun k' => k_pubkey k' = k_pubkey k) T k Hk eq_refl) as [[i k'] Hfind].
    unfold f. rewrite Hfind. simpl. apply list_find_Some in Hfind as (Hi & Ek & _).
    apply list_elem_of_lookup in Hk as [j Hj].
    assert (i = j) as -> by (apply (NoDup_lookup (map k_pubkey T) i j (k_pubkey k) Hnd);
      rewrite list_lookup_fmap, ?Hi, ?Hj; simpl; congruence).
    congruence. }
  destruct (sig_parts _ index R S _ _ Hl HR HS) as (Hsl & Hidx & HRp & HSp). cbv zeta in *.
  destruct (unpack_pack _ _ HR) as (R' & HR' & Hst).
  unfold CryptoMultiVerify. rewrite bool_decide_eq_false_2.
  2: { intros ->. destruct T as [|k T]; [done|]. specialize (Hin k ltac:(left)). set_solver. }
  rewrite bool_decide_eq_false_2 by (intros E; rewrite E in Hsl; simpl in Hsl; lia).
  rewrite Hsl, Nat.eqb_refl. cbn [negb]. rewrite HRp, HR', HSp, Hapk, Hidx. fold hash.
  destruct (verify_loop_spec T f index (set_list setPubKey) 0 ed_zero 0 ∅) as (A & -> & HA); [apply zero_stands|done..|].
  cbv zeta in HA. rewrite Z.add_0_l in HA. revert HA.
  set (signers := filter _ _).
  assert (Hp : signers ≡ₚ map k_pubkey T).
  { apply NoDup_Permutation; [apply NoDup_filter, NoDup_set_list|done|]. intros key. subst signers.
    rewrite list_elem_of_filter, elem_of_set_list. split; [tauto|]. intros Hk. split; [done|].
    apply list_elem_of_fmap in Hk as (k & -> & Hk). by apply Hin. }
  rewrite (sum_permutation _ (map f (map k_pubkey T))) by (by apply fmap_Permutation).
  assert (map f (map k_pubkey T) = map weighted T) as ->.
  { rewrite map_map. apply map_ext_in. intros k Hk. apply Hf. by apply list_elem_of_In. }
  intros HA. f_equal; [|rewrite (union_empty_r_L (list_to_set signers)); apply list_to_set_perm_L, Hp].
  eapply eqb_stands; [apply gen_stands, HS|]. apply stands_mod.
  apply add_stands; [done|]. apply mul_stands; [apply sc_of_bytes_canon|done].
Qed.

End multisig.

(** The owners of the keys [ks] sign one after the other, the first one into
    an empty vector. *)
Definition sign_all (CryptoHash : list Z -> Z) (sha512 : list Z -> list Z) `{IEdwards} (setPubKey : gset Z)
    (pX pM : list Z) (ks : list CCryptoKey) : bool * list Z :=
  foldl (fun '(ok, sig) k => let '(b, sig) := CryptoMultiSign CryptoHash sha512 setPubKey k pX pM sig in (ok && b, sig))
    (true, []) ks.

Lemma sign_all_spec (CryptoHash : list Z -> Z) (sha512 : list Z -> list Z) `{IEdwardsOk} (setPubKey : gset Z)
    (pX pM : list Z) apk ks T sig :
  MultiSignApk CryptoHash setPubKey setPubKey = Some apk ->
  let hash := MultiSignHash CryptoHash pX apk pM in
  (T = [] /\ sig = [] \/ exists index R S, sig = pack_sig index R S /\
    signed_by CryptoHash sha512 setPubKey pM hash T index R S) ->
  NoDup (map k_pubkey ks ++ map k_pubkey T) -> (forall k, k ∈ ks -> k_pubkey k ∈ setPubKey) ->
  exists sig', foldl (fun '(ok, sig) k => let '(b, sig) := CryptoMultiSign CryptoHash sha512 setPubKey k pX pM sig in
      (ok && b, sig)) (true, sig) ks = (true, sig') /\
    (rev ks ++ T = [] /\ sig' = [] \/ exists index R S, sig' = pack_sig index R S /\
      signed_by CryptoHash sha512 setPubKey pM hash (rev ks ++ T) index R S).
Proof.
  intros Hapk hash. revert T sig. induction ks as [|k ks IH]; intros T sig Hsig Hnd Hin; [by exists sig|].
  cbn [map] in Hnd. inversion Hnd as [|? ? Hk Hnd']; subst. rewrite elem_of_app in Hk. cbn [foldl rev].
  destruct (CryptoMultiSign_spec CryptoHash sha512 setPubKey pX pM apk T sig k) as (index & R & S & -> & HS);
    [done|done|apply Hin; left|tauto|].
  destruct (IH (k :: T) (pack_sig index R S)) as (sig' & E & Hsig').
  - right. by exists index, R, S.
  - cbn [map]. by rewrite <- Permutation_middle.
  - intros k' Hk'. apply Hin. by right.
  - exists sig'. split; [exact E|]. by rewrite <- app_assoc.
Qed.

(** Multi-signatures are complete: when any non-empty group of owners of
    distinct keys of the set sign one after the other, in any order, every
    call of [CryptoMultiSign] succeeds and [CryptoMultiVerify] accepts the
    resulting signature and reports exactly the keys of that group. *)
Lemma multisig_complete (CryptoHash : list Z -> Z) (sha512 : list Z -> list Z) `{IEdwardsOk}
    (setPubKey part : gset Z) (pX pM : list Z) (ks : list CCryptoKey) :
  ks <> [] -> NoDup (map k_pubkey ks) -> Forall (key_ok sha512) ks ->
  (forall k, k ∈ ks -> k_pubkey k ∈ setPubKey) ->
  (forall key, key ∈ setPubKey -> is_Some (ed_unpack key)) ->
  exists sig, sign_all CryptoHash sha512 setPubKey pX pM ks = (true, sig) /\
    CryptoMultiVerify CryptoHash setPubKey pX pM sig part = (true, list_to_set (map k_pubkey ks)).
Proof.
  intros Hne Hnd Hok Hin Hun. destruct (apk_defined CryptoHash setPubKey Hun) as [apk Hapk].
  destruct (sign_all_spec CryptoHash sha512 setPubKey pX pM apk ks [] []) as (sig & E & Hsig);
    [done|by left|by rewrite app_nil_r|done|].
  exists sig. split; [exact E|]. rewrite app_nil_r in Hsig.
  assert (Hp : rev ks ≡ₚ ks) by (symmetry; apply Permutation_rev).
  destruct Hsig as [[Hr _]|(index & R & S & -> & HS)].
  { rewrite Hr in Hp. by apply Permutation_nil in Hp. }
  rewrite (CryptoMultiVerify_spec CryptoHash sha512 setPubKey pX pM apk (rev ks)); [|done|done|..].
  - f_equal. apply list_to_set_perm_L. by apply fmap_Permutation.
  - assert (map k_pubkey (rev ks) ≡ₚ map k_pubkey ks) as -> by (by apply fmap_Permutation). done.
  - by rewrite Hp.
  - intros k Hk. apply Hin. by apply elem_of_rev.
  - intros Hr. rewrite Hr in Hp. by apply Permutation_nil in Hp.
Qed.

(** The integers modulo the order as a curve, and three keys *)
Definition toy_curve : IEdwards := {|
  point := Z;
  ed_zero := 0;
  ed_add P Q := (P + Q) mod SC25519.L;
  ed_mul s P := (base25519.val s * P) mod SC25519.L;
  ed_gen s := base25519.val s mod SC25519.L;
  ed_eqb := Z.eqb;
  ed_pack P := P mod SC25519.L;
  ed_unpack z := Some (z mod SC25519.L);
|}.

End Crypto.
