(* ===== verification/MultiSign.v ===== *)
(** * Multi-signatures over the curve (src/crypto/crypto.cpp,
    src/crypto/curve25519/ed25519.cpp)

    The points of Ed25519.v implement the interface [IEdwards] that the
    signatures of Crypto.v use: an object stands for [x] when its coordinates
    represent [x] times the base point in the group of Edwards.v. *)

From S2P Require Import Prelude Base25519 SC25519 Prime25519 FP25519 FPInverse Edwards Order25519 Ed25519 Subgroup Crypto.

Module MultiSign.
Import Crypto.

(** A local [CEdwards25519] as the functions of crypto.cpp use it: its table
    is empty when [ScalarMult] is called. *)
#[global] Instance ed25519_curve : IEdwards := {|
  point := ed;
  ed_zero := CEdwards25519.identity;
  ed_add := CEdwards25519.Add;
  ed_mul s P := (CEdwards25519.ScalarMult (EdObj P []) (FP25519.bytes s)).1;
  ed_gen := CEdwards25519.Generate;
  ed_eqb := CEdwards25519.eq_point;
  ed_pack P := base25519.val (CEdwards25519.Pack P);
  ed_unpack z := let '(ok, P) := CEdwards25519.Unpack (base25519.of_Z z) in if ok then Some P else None;
|}.

#[global] Instance ed25519_curve_ok : IEdwardsOk.
Proof.
  refine {| stands := Subgroup.stands |}; cbn [point ed_zero ed_add ed_mul ed_gen ed_eqb ed_pack ed_unpack ed25519_curve].
  - intros P x. split; apply Subgroup.stands_mod; [|symmetry]; apply Z.mod_mod; discriminate.
  - exact Subgroup.stands_zero.
  - apply Subgroup.stands_add.
  - intros s P x y Hs HP. apply Subgroup.stands_scalar; [exact Hs|exact HP|by left].
  - apply Subgroup.stands_generate.
  - intros P Q x HP HQ. rewrite (Subgroup.stands_eq _ _ _ _ HP HQ). by apply bool_decide_eq_true_2.
  - intros P x HP. apply base25519.mem32_val_range, (CEdwards25519.Pack_spec _ _ HP).
  - intros P x HP. destruct (CEdwards25519.Pack_spec _ _ HP) as [Hw _]. rewrite Subgroup.of_Z_of_val by exact Hw.
    destruct (Subgroup.stands_unpack _ _ HP) as [Hok Hst].
    destruct (CEdwards25519.Unpack _) as [ok Q]. cbn [fst snd] in *. subst ok. exists Q. split; [reflexivity|exact Hst].
Qed.

(** A key pair as [crypto_sign_ed25519_keypair] makes it *)
Definition keypair (sha512 : list Z -> list Z) (secret : Z) : CCryptoKey :=
  mkCryptoKey secret (ed_pack (ed_gen (ClampPrivKey sha512 secret))).

Lemma keypair_unpack sha512 secret : is_Some (ed_unpack (k_pubkey (keypair sha512 secret))).
Proof.
  destruct (unpack_pack (ed_gen (ClampPrivKey sha512 secret)) (base25519.val (ClampPrivKey sha512 secret))) as (Q & HQ & _).
  { apply gen_stands, sc_of_bytes_canon. }
  exists Q. exact HQ.
Qed.

(** C15: multi-signatures over the curve of ed25519.cpp are complete: when any
    non-empty group of owners of distinct keys of the set sign one after the
    other, in any order, every call of [CryptoMultiSign] succeeds and
    [CryptoMultiVerify] accepts the resulting signature and reports exactly
    the keys of that group. *)
Theorem multisign_verifies (CryptoHash : list Z -> Z) (sha512 : list Z -> list Z)
    (setPubKey part : gset Z) (pX pM : list Z) (ks : list CCryptoKey) :
  ks <> [] -> NoDup (map k_pubkey ks) -> (forall k, k ∈ ks -> k = keypair sha512 (k_secret k)) ->
  (forall k, k ∈ ks -> k_pubkey k ∈ setPubKey) ->
  (forall key, key ∈ setPubKey -> is_Some (ed_unpack key)) ->
  exists sig, sign_all CryptoHash sha512 setPubKey pX pM ks = (true, sig) /\
    CryptoMultiVerify CryptoHash setPubKey pX pM sig part = (true, list_to_set (map k_pubkey ks)).
Proof.
  intros Hne Hnd Hok Hin Hun. apply (@multisig_complete CryptoHash sha512 _ ed25519_curve_ok); try assumption.
  apply Forall_forall. intros k Hk. unfold key_ok. rewrite (Hok k Hk) at 1. reflexivity.
Qed.

Definition sample_key : CCryptoKey := keypair (fun l => l ++ l) 77.

Lemma multisign_verifies_witness :
  exists sig, CryptoMultiVerify (fun l => le_combine 8 (take 32 l)) {[k_pubkey sample_key]} [1] [2; 3] sig ∅ =
    (true, {[k_pubkey sample_key]} ∪ ∅).
Proof.
  destruct (multisign_verifies (fun l => le_combine 8 (take 32 l)) (fun l => l ++ l) {[k_pubkey sample_key]} ∅ [1] [2; 3]
    [sample_key]) as (sig & _ & E).
  - discriminate.
  - apply NoDup_singleton.
  - intros k Hk. apply list_elem_of_singleton in Hk. rewrite Hk. exact eq_refl.
  - intros k Hk. apply list_elem_of_singleton in Hk. rewrite Hk. apply elem_of_singleton_2. exact eq_refl.
  - intros key Hk. apply elem_of_singleton in Hk. rewrite Hk. apply keypair_unpack.
  - exists sig. exact E.
Defined.

End MultiSign.
