(* ===== verification/Tables.v ===== *)
(** * The tables of the secret sharing (src/crypto/curve25519/sc25519.cpp,
    src/mpvss/mpinterpolation.cpp)

    [naturalPowTable] holds the first 26 powers of the numbers up to 51 and
    [SCInverse] the inverses of the numbers from -50 to 50, modulo the group
    order; the constants are those of the source and are checked here. *)

From S2P Require Import Prelude Stream Base25519 SC25519.

Module Tables.
Import base25519.

(** The powers of 1 to 5 *)
Definition naturalPow_1 : list (list mem32) :=
  [[Mem32 1 0 0 0; Mem32 1 0 0 0; Mem32 1 0 0 0; Mem32 1 0 0 0; Mem32 1 0 0 0; Mem32 1 0 0 0; Mem32 1 0 0 0;
    Mem32 1 0 0 0; Mem32 1 0 0 0; Mem32 1 0 0 0; Mem32 1 0 0 0; Mem32 1 0 0 0; Mem32 1 0 0 0; Mem32 1 0 0 0;
    Mem32 1 0 0 0; Mem32 1 0 0 0; Mem32 1 0 0 0; Mem32 1 0 0 0; Mem32 1 0 0 0; Mem32 1 0 0 0; Mem32 1 0 0 0;
    Mem32 1 0 0 0; Mem32 1 0 0 0; Mem32 1 0 0 0; Mem32 1 0 0 0; Mem32 1 0 0 0];
   [Mem32 2 0 0 0; Mem32 4 0 0 0; Mem32 8 0 0 0; Mem32 0x10 0 0 0; Mem32 0x20 0 0 0; Mem32 0x40 0 0 0;
    Mem32 0x80 0 0 0; Mem32 0x100 0 0 0; Mem32 0x200 0 0 0; Mem32 0x400 0 0 0; Mem32 0x800 0 0 0; Mem32 0x1000 0 0 0;
    Mem32 0x2000 0 0 0; Mem32 0x4000 0 0 0; Mem32 0x8000 0 0 0; Mem32 0x10000 0 0 0; Mem32 0x20000 0 0 0;
    Mem32 0x40000 0 0 0; Mem32 0x80000 0 0 0; Mem32 0x100000 0 0 0; Mem32 0x200000 0 0 0; Mem32 0x400000 0 0 0;
    Mem32 0x800000 0 0 0; Mem32 0x1000000 0 0 0; Mem32 0x2000000 0 0 0; Mem32 0x4000000 0 0 0];
   [Mem32 3 0 0 0; Mem32 9 0 0 0; Mem32 0x1b 0 0 0; Mem32 0x51 0 0 0; Mem32 0xf3 0 0 0; Mem32 0x2d9 0 0 0;
    Mem32 0x88b 0 0 0; Mem32 0x19a1 0 0 0; Mem32 0x4ce3 0 0 0; Mem32 0xe6a9 0 0 0; Mem32 0x2b3fb 0 0 0;
    Mem32 0x81bf1 0 0 0; Mem32 0x1853d3 0 0 0; Mem32 0x48fb79 0 0 0; Mem32 0xdaf26b 0 0 0; Mem32 0x290d741 0 0 0;
    Mem32 0x7b285c3 0 0 0; Mem32 0x17179149 0 0 0; Mem32 0x4546b3db 0 0 0; Mem32 0xcfd41b91 0 0 0;
    Mem32 0x26f7c52b3 0 0 0; Mem32 0x74e74f819 0 0 0; Mem32 0x15eb5ee84b 0 0 0; Mem32 0x41c21cb8e1 0 0 0;
    Mem32 0xc546562aa3 0 0 0; Mem32 0x24fd3027fe9 0 0 0];
   [Mem32 4 0 0 0; Mem32 0x10 0 0 0; Mem32 0x40 0 0 0; Mem32 0x100 0 0 0; Mem32 0x400 0 0 0; Mem32 0x1000 0 0 0;
    Mem32 0x4000 0 0 0; Mem32 0x10000 0 0 0; Mem32 0x40000 0 0 0; Mem32 0x100000 0 0 0; Mem32 0x400000 0 0 0;
    Mem32 0x1000000 0 0 0; Mem32 0x4000000 0 0 0; Mem32 0x10000000 0 0 0; Mem32 0x40000000 0 0 0;
    Mem32 0x100000000 0 0 0; Mem32 0x400000000 0 0 0; Mem32 0x1000000000 0 0 0; Mem32 0x4000000000 0 0 0;
    Mem32 0x10000000000 0 0 0; Mem32 0x40000000000 0 0 0; Mem32 0x100000000000 0 0 0; Mem32 0x400000000000 0 0 0;
    Mem32 0x1000000000000 0 0 0; Mem32 0x4000000000000 0 0 0; Mem32 0x10000000000000 0 0 0];
   [Mem32 5 0 0 0; Mem32 0x19 0 0 0; Mem32 0x7d 0 0 0; Mem32 0x271 0 0 0; Mem32 0xc35 0 0 0; Mem32 0x3d09 0 0 0;
    Mem32 0x1312d 0 0 0; Mem32 0x5f5e1 0 0 0; Mem32 0x1dcd65 0 0 0; Mem32 0x9502f9 0 0 0; Mem32 0x2e90edd 0 0 0;
    Mem32 0xe8d4a51 0 0 0; Mem32 0x48c27395 0 0 0; Mem32 0x16bcc41e9 0 0 0; Mem32 0x71afd498d 0 0 0;
    Mem32 0x2386f26fc1 0 0 0; Mem32 0xb1a2bc2ec5 0 0 0; Mem32 0x3782dace9d9 0 0 0; Mem32 0x1158e460913d 0 0 0;
    Mem32 0x56bc75e2d631 0 0 0; Mem32 0x1b1ae4d6e2ef5 0 0 0; Mem32 0x878678326eac9 0 0 0; Mem32 0x2a5a058fc295ed 0 0 0;
    Mem32 0xd3c21bcecceda1 0 0 0; Mem32 0x422ca8b0a00a425 0 0 0; Mem32 0x14adf4b7320334b9 0 0 0]].

(** The powers of 6 to 10 *)
Definition naturalPow_6 : list (list mem32) :=
  [[Mem32 6 0 0 0; Mem32 0x24 0 0 0; Mem32 0xd8 0 0 0; Mem32 0x510 0 0 0; Mem32 0x1e60 0 0 0; Mem32 0xb640 0 0 0;
    Mem32 0x44580 0 0 0; Mem32 0x19a100 0 0 0; Mem32 0x99c600 0 0 0; Mem32 0x39aa400 0 0 0; Mem32 0x159fd800 0 0 0;
    Mem32 0x81bf1000 0 0 0; Mem32 0x30a7a6000 0 0 0; Mem32 0x123ede4000 0 0 0; Mem32 0x6d79358000 0 0 0;
    Mem32 0x290d7410000 0 0 0; Mem32 0xf650b860000 0 0 0; Mem32 0x5c5e45240000 0 0 0; Mem32 0x22a359ed80000 0 0 0;
    Mem32 0xcfd41b9100000 0 0 0; Mem32 0x4def8a56600000 0 0 0; Mem32 0x1d39d3e06400000 0 0 0;
    Mem32 0xaf5af7425800000 0 0 0; Mem32 0x41c21cb8e1000000 0 0 0; Mem32 0x8a8cac5546000000 1 0 0;
    Mem32 0x3f4c09ffa4000000 9 0 0];
   [Mem32 7 0 0 0; Mem32 0x31 0 0 0; Mem32 0x157 0 0 0; Mem32 0x961 0 0 0; Mem32 0x41a7 0 0 0; Mem32 0x1cb91 0 0 0;
    Mem32 0xc90f7 0 0 0; Mem32 0x57f6c1 0 0 0; Mem32 0x267bf47 0 0 0; Mem32 0x10d63af1 0 0 0; Mem32 0x75db9c97 0 0 0;
    Mem32 0x339014821 0 0 0; Mem32 0x168f08f8e7 0 0 0; Mem32 0x9de93ece51 0 0 0; Mem32 0x45160b7a437 0 0 0;
    Mem32 0x1e39a5057d81 0 0 0; Mem32 0xd39383266e87 0 0 0; Mem32 0x5c908960d05b1 0 0 0; Mem32 0x287f3c1a5b27d7 0 0 0;
    Mem32 0x11b7aa4b87e16e1 0 0 0; Mem32 0x7c05a810b72a027 0 0 0; Mem32 0x3642798750226111 0 0 0;
    Mem32 0x7bd152b330f0a777 1 0 0; Mem32 0x62b942e656949441 0xa 0 0; Mem32 0xb310d44c5e100dc7 0x48 0 0;
    Mem32 0xe575ce1692706071 0x1fc 0 0];
   [Mem32 8 0 0 0; Mem32 0x40 0 0 0; Mem32 0x200 0 0 0; Mem32 0x1000 0 0 0; Mem32 0x8000 0 0 0; Mem32 0x40000 0 0 0;
    Mem32 0x200000 0 0 0; Mem32 0x1000000 0 0 0; Mem32 0x8000000 0 0 0; Mem32 0x40000000 0 0 0;
    Mem32 0x200000000 0 0 0; Mem32 0x1000000000 0 0 0; Mem32 0x8000000000 0 0 0; Mem32 0x40000000000 0 0 0;
    Mem32 0x200000000000 0 0 0; Mem32 0x1000000000000 0 0 0; Mem32 0x8000000000000 0 0 0; Mem32 0x40000000000000 0 0 0;
    Mem32 0x200000000000000 0 0 0; Mem32 0x1000000000000000 0 0 0; Mem32 0x8000000000000000 0 0 0; Mem32 0 4 0 0;
    Mem32 0 0x20 0 0; Mem32 0 0x100 0 0; Mem32 0 0x800 0 0; Mem32 0 0x4000 0 0];
   [Mem32 9 0 0 0; Mem32 0x51 0 0 0; Mem32 0x2d9 0 0 0; Mem32 0x19a1 0 0 0; Mem32 0xe6a9 0 0 0; Mem32 0x81bf1 0 0 0;
    Mem32 0x48fb79 0 0 0; Mem32 0x290d741 0 0 0; Mem32 0x17179149 0 0 0; Mem32 0xcfd41b91 0 0 0;
    Mem32 0x74e74f819 0 0 0; Mem32 0x41c21cb8e1 0 0 0; Mem32 0x24fd3027fe9 0 0 0; Mem32 0x14ce6b167f31 0 0 0;
    Mem32 0xbb41c3ca78b9 0 0 0; Mem32 0x6954fe21e3e81 0 0 0; Mem32 0x3b3fcef3103289 0 0 0;
    Mem32 0x2153e468b91c6d1 0 0 0; Mem32 0x12bf307ae81ffd59 0 0 0; Mem32 0xa8b8b452291fe821 0 0 0;
    Mem32 0xee7e56e3721f2929 5 0 0; Mem32 0x62710dff03187271 0x35 0 0; Mem32 0x75f97df71bdc05f9 0x1e0 0 0;
    Mem32 0x25c56daffabc35c1 0x10e4 0 0; Mem32 0x53f0db2fd09de3c9 0x9805 0 0; Mem32 0xf377b4ae558d0211 0x5582f 0 0];
   [Mem32 0xa 0 0 0; Mem32 0x64 0 0 0; Mem32 0x3e8 0 0 0; Mem32 0x2710 0 0 0; Mem32 0x186a0 0 0 0; Mem32 0xf4240 0 0 0;
    Mem32 0x989680 0 0 0; Mem32 0x5f5e100 0 0 0; Mem32 0x3b9aca00 0 0 0; Mem32 0x2540be400 0 0 0;
    Mem32 0x174876e800 0 0 0; Mem32 0xe8d4a51000 0 0 0; Mem32 0x9184e72a000 0 0 0; Mem32 0x5af3107a4000 0 0 0;
    Mem32 0x38d7ea4c68000 0 0 0; Mem32 0x2386f26fc10000 0 0 0; Mem32 0x16345785d8a0000 0 0 0;
    Mem32 0xde0b6b3a7640000 0 0 0; Mem32 0x8ac7230489e80000 0 0 0; Mem32 0x6bc75e2d63100000 5 0 0;
    Mem32 0x35c9adc5dea00000 0x36 0 0; Mem32 0x19e0c9bab2400000 0x21e 0 0; Mem32 0x2c7e14af6800000 0x152d 0 0;
    Mem32 0x1bcecceda1000000 0xd3c2 0 0; Mem32 0x161401484a000000 0x84595 0 0; Mem32 0xdcc80cd2e4000000 0x52b7d2 0 0]].

(** The powers of 11 to 15 *)
Definition naturalPow_11 : list (list mem32) :=
  [[Mem32 0xb 0 0 0; Mem32 0x79 0 0 0; Mem32 0x533 0 0 0; Mem32 0x3931 0 0 0; Mem32 0x2751b 0 0 0;
    Mem32 0x1b0829 0 0 0; Mem32 0x12959c3 0 0 0; Mem32 0xcc6db61 0 0 0; Mem32 0x8c8b6d2b 0 0 0;
    Mem32 0x609fdb0d9 0 0 0; Mem32 0x426de69953 0 0 0; Mem32 0x2dab8e89691 0 0 0; Mem32 0x1f65f1fe783b 0 0 0;
    Mem32 0x1596165ef2a89 0 0 0; Mem32 0xed72f6146d3e3 0 0 0; Mem32 0xa33f092e0b1ac1 0 0 0;
    Mem32 0x703b564fa7a264b 0 0 0; Mem32 0x4d28cb56c33fa539 0 0 0; Mem32 0x50c0bcba63bc1973 3 0 0;
    Mem32 0x78481c02491517f1 0x24 0 0; Mem32 0x2b19341923e8075b 0x191 0 0; Mem32 0xda153d148af850e9 0x113c 0 0;
    Mem32 0x5ee99fe1f8ab7a03 0xbd9d 0 0; Mem32 0x1409deb5af5e3e21 0x825c3 0 0; Mem32 0xdc6c91ce890cab6b 0x599f61 0 0;
    Mem32 0x78aa43dfe38b5d99 0x3d9d934 0 0];
   [Mem32 0xc 0 0 0; Mem32 0x90 0 0 0; Mem32 0x6c0 0 0 0; Mem32 0x5100 0 0 0; Mem32 0x3cc00 0 0 0;
    Mem32 0x2d9000 0 0 0; Mem32 0x222c000 0 0 0; Mem32 0x19a10000 0 0 0; Mem32 0x1338c0000 0 0 0;
    Mem32 0xe6a900000 0 0 0; Mem32 0xacfec00000 0 0 0; Mem32 0x81bf1000000 0 0 0; Mem32 0x614f4c000000 0 0 0;
    Mem32 0x48fb790000000 0 0 0; Mem32 0x36bc9ac0000000 0 0 0; Mem32 0x290d74100000000 0 0 0;
    Mem32 0x1eca170c00000000 0 0 0; Mem32 0x7179149000000000 1 0 0; Mem32 0x51acf6c000000000 0x11 0 0;
    Mem32 0xd41b910000000000 0xcf 0 0; Mem32 0xf14acc0000000000 0x9bd 0 0; Mem32 0x4f81900000000000 0x74e7 0 0;
    Mem32 0xba12c00000000000 0x57ad7 0 0; Mem32 0xb8e1000000000000 0x41c21c 0 0;
    Mem32 0xaa8c000000000000 0x3151958 0 0; Mem32 0xfe90000000000000 0x24fd3027 0 0];
   [Mem32 0xd 0 0 0; Mem32 0xa9 0 0 0; Mem32 0x895 0 0 0; Mem32 0x6f91 0 0 0; Mem32 0x5aa5d 0 0 0;
    Mem32 0x49a6b9 0 0 0; Mem32 0x3bd7765 0 0 0; Mem32 0x309f1021 0 0 0; Mem32 0x27813d1ad 0 0 0;
    Mem32 0x201901a5c9 0 0 0; Mem32 0x1a145156b35 0 0 0; Mem32 0x1530821671b1 0 0 0; Mem32 0x113769b23c5fd 0 0 0;
    Mem32 0xdfd05e0d10dd9 0 0 0; Mem32 0xb5d94c6a9db405 0 0 0; Mem32 0x93c08e16a022441 0 0 0;
    Mem32 0x780c7372621bd74d 0 0 0; Mem32 0x18a1dccefb69eee9 6 0 0; Mem32 0x40383682c46121d5 0x4f 0 0;
    Mem32 0x42dac4a3f8eeb7d1 0x406 0 0; Mem32 0x651bfc53a41f559d 0x3451 0 0; Mem32 0x226bd03f559758f9 0x2a822 0 0;
    Mem32 0xbf79933758af84a5 0x2289bb 0 0; Mem32 0xb92c79cf80e9bc61 0x1c0fe88 0 0;
    Mem32 0x67422f898bde90ed 0x16ccecf1 0 0; Mem32 0x3e5c69fc1a4d5c09 0x128680842 0 0];
   [Mem32 0xe 0 0 0; Mem32 0xc4 0 0 0; Mem32 0xab8 0 0 0; Mem32 0x9610 0 0 0; Mem32 0x834e0 0 0 0;
    Mem32 0x72e440 0 0 0; Mem32 0x6487b80 0 0 0; Mem32 0x57f6c100 0 0 0; Mem32 0x4cf7e8e00 0 0 0;
    Mem32 0x4358ebc400 0 0 0; Mem32 0x3aedce4b800 0 0 0; Mem32 0x339014821000 0 0 0; Mem32 0x2d1e11f1ce000 0 0 0;
    Mem32 0x277a4fb3944000 0 0 0; Mem32 0x228b05bd21b8000 0 0 0; Mem32 0x1e39a5057d810000 0 0 0;
    Mem32 0xa727064cdd0e0000 1 0 0; Mem32 0x2422583416c40000 0x17 0 0; Mem32 0xf9e0d2d93eb80000 0x143 0 0;
    Mem32 0xaa4b87e16e100000 0x11b7 0 0; Mem32 0x50216e5404e00000 0xf80b 0 0; Mem32 0x61d4089844400000 0xd909e 0 0;
    Mem32 0x59987853bb800000 0xbde8a9 0 0; Mem32 0xe656949441000000 0xa62b942 0 0;
    Mem32 0x98bc201b8e000000 0x916621a8 0 0; Mem32 0x5a49c181c4000000 0x7f395d738 0 0];
   [Mem32 0xf 0 0 0; Mem32 0xe1 0 0 0; Mem32 0xd2f 0 0 0; Mem32 0xc5c1 0 0 0; Mem32 0xb964f 0 0 0;
    Mem32 0xadcea1 0 0 0; Mem32 0xa2f1b6f 0 0 0; Mem32 0x98c29b81 0 0 0; Mem32 0x8f3671c8f 0 0 0;
    Mem32 0x86430aac61 0 0 0; Mem32 0x7ddeda019af 0 0 0; Mem32 0x7600ec618141 0 0 0; Mem32 0x6ea0dd9b692cf 0 0 0;
    Mem32 0x67b6cfc1b29a21 0 0 0; Mem32 0x613b62c597707ef 0 0 0; Mem32 0x5b27ac993df97701 0 0 0;
    Mem32 0x57531cfaa19df90f 5 0 0; Mem32 0x1ddeb2af784197e1 0x50 0 0; Mem32 0xc00c78480bd7e62f 0x4b1 0 0;
    Mem32 0x40bb0c38b1a67cc1 0x466a 0 0; Mem32 0xcaf5b75268c14f4f 0x42039 0 0; Mem32 0xe465bdd42353a5a1 0x3de362 0 0;
    Mem32 0x61f61f6e11e6b46f 0x3a052cb 0 0; Mem32 0xbd6bd7730c849281 0x3664d9ea 0 0;
    Mem32 0x19519fbdbbc4958f 0x32fe8c4c1 0 0; Mem32 0x7bc85c1e0084c361 0x2fcea38750 0 0]].

(** The powers of 16 to 20 *)
Definition naturalPow_16 : list (list mem32) :=
  [[Mem32 0x10 0 0 0; Mem32 0x100 0 0 0; Mem32 0x1000 0 0 0; Mem32 0x10000 0 0 0; Mem32 0x100000 0 0 0;
    Mem32 0x1000000 0 0 0; Mem32 0x10000000 0 0 0; Mem32 0x100000000 0 0 0; Mem32 0x1000000000 0 0 0;
    Mem32 0x10000000000 0 0 0; Mem32 0x100000000000 0 0 0; Mem32 0x1000000000000 0 0 0; Mem32 0x10000000000000 0 0 0;
    Mem32 0x100000000000000 0 0 0; Mem32 0x1000000000000000 0 0 0; Mem32 0 1 0 0; Mem32 0 0x10 0 0; Mem32 0 0x100 0 0;
    Mem32 0 0x1000 0 0; Mem32 0 0x10000 0 0; Mem32 0 0x100000 0 0; Mem32 0 0x1000000 0 0; Mem32 0 0x10000000 0 0;
    Mem32 0 0x100000000 0 0; Mem32 0 0x1000000000 0 0; Mem32 0 0x10000000000 0 0];
   [Mem32 0x11 0 0 0; Mem32 0x121 0 0 0; Mem32 0x1331 0 0 0; Mem32 0x14641 0 0 0; Mem32 0x15aa51 0 0 0;
    Mem32 0x1704f61 0 0 0; Mem32 0x18754571 0 0 0; Mem32 0x19fc99c81 0 0 0; Mem32 0x1b9c636491 0 0 0;
    Mem32 0x1d56299ada1 0 0 0; Mem32 0x1f2b8c3487b1 0 0 0; Mem32 0x211e44f7d02c1 0 0 0; Mem32 0x233029474d2ed1 0 0 0;
    Mem32 0x25632bdbc201be1 0 0 0; Mem32 0x27b95e997e21d9f1 0 0 0; Mem32 0xa34f4831603f7901 2 0 0;
    Mem32 0xd843cb4764370911 0x2c 0 0; Mem32 0x5c807fbda7a79a21 0x2fa 0 0; Mem32 0x24887b9822213c31 0x32a0 0 0;
    Mem32 0x6d10351a4434ff41 0x35ca2 0 0; Mem32 0x3e1386be8784f351 0x3926c9 0 0;
    Mem32 0x1f4bf2a6ffd42861 0x3cb935d 0 0; Mem32 0x140b1d16fd16ae71 0x4084c92f 0 0;
    Mem32 0x54bcee86ce819581 0x448d15c20 0 0; Mem32 0xa08bd6f3b69aed91 0x48d5e71e25 0 0;
    Mem32 0xa949462f2049c6a1 0x4d63459007f 0 0];
   [Mem32 0x12 0 0 0; Mem32 0x144 0 0 0; Mem32 0x16c8 0 0 0; Mem32 0x19a10 0 0 0; Mem32 0x1cd520 0 0 0;
    Mem32 0x206fc40 0 0 0; Mem32 0x247dbc80 0 0 0; Mem32 0x290d74100 0 0 0; Mem32 0x2e2f229200 0 0 0;
    Mem32 0x33f506e4400 0 0 0; Mem32 0x3a73a7c0c800 0 0 0; Mem32 0x41c21cb8e1000 0 0 0; Mem32 0x49fa604ffd2000 0 0 0;
    Mem32 0x5339ac59fcc4000 0 0 0; Mem32 0x5da0e1e53c5c8000 0 0 0; Mem32 0x954fe21e3e810000 6 0 0;
    Mem32 0x7f9de62065120000 0x76 0 0; Mem32 0xf91a2e471b440000 0x854 0 0; Mem32 0x83d740ffeac80000 0x95f9 0 0;
    Mem32 0x452291fe82100000 0xa8b8b 0 0; Mem32 0xdc6e43e525200000 0xbdcfca 0 0;
    Mem32 0x7fc0c61c9c400000 0xd589c43 0 0; Mem32 0xfb8dee02fc800000 0xf03afcbe 0 0;
    Mem32 0xaffabc35c1000000 0x10e425c56d 0 0; Mem32 0x5fa13bc792000000 0x1300aa7e1b6 0 0;
    Mem32 0xb956340844000000 0x1560bfcdded2 0 0];
   [Mem32 0x13 0 0 0; Mem32 0x169 0 0 0; Mem32 0x1acb 0 0 0; Mem32 0x1fd11 0 0 0; Mem32 0x25c843 0 0 0;
    Mem32 0x2cddcf9 0 0 0; Mem32 0x3547667b 0 0 0; Mem32 0x3f44c9b21 0 0 0; Mem32 0x4b21af8373 0 0 0;
    Mem32 0x5938006c189 0 0 0; Mem32 0x69f280805d2b 0 0 0; Mem32 0x7dcff8986ea31 0 0 0; Mem32 0x9566f7350361a3 0 0 0;
    Mem32 0xb16a458ef403f19 0 0 0; Mem32 0xd2ae3299c1c4aedb 0 0 0; Mem32 0xa2edc1696198fa41 0xf 0 0;
    Mem32 0x17a55ad23e5a92d3 0x129 0 0; Mem32 0xc145bd9aa0b8e5a9 0x160c 0 0; Mem32 0x582d1279edb90b8b 0x1a2f2 0 0;
    Mem32 0x8b585f0ca4bbdb51 0x1f17fc 0 0; Mem32 0x578f0df039f14703 0x24ec7be 0 0;
    Mem32 0x7f9e08d44ce84539 0x2bd8d320 0 0; Mem32 0x78baa7c1b53d233b 0x34117ab69 0 0;
    Mem32 0xf5da736073899d61 0x3dd4c1b8d3 0 0; Mem32 0x3f3690289336ae33 0x496ca60b7bb 0 0;
    Mem32 0xb10cb302ed0eedc9 0x5731052da2e5 0 0];
   [Mem32 0x14 0 0 0; Mem32 0x190 0 0 0; Mem32 0x1f40 0 0 0; Mem32 0x27100 0 0 0; Mem32 0x30d400 0 0 0;
    Mem32 0x3d09000 0 0 0; Mem32 0x4c4b4000 0 0 0; Mem32 0x5f5e10000 0 0 0; Mem32 0x7735940000 0 0 0;
    Mem32 0x9502f900000 0 0 0; Mem32 0xba43b7400000 0 0 0; Mem32 0xe8d4a51000000 0 0 0; Mem32 0x12309ce54000000 0 0 0;
    Mem32 0x16bcc41e90000000 0 0 0; Mem32 0xc6bf526340000000 1 0 0; Mem32 0x86f26fc100000000 0x23 0 0;
    Mem32 0x8af0bb1400000000 0x2c6 0 0; Mem32 0xdace9d9000000000 0x3782 0 0; Mem32 0x18244f4000000000 0x45639 0 0;
    Mem32 0xe2d6310000000000 0x56bc75 0 0; Mem32 0xb8bbd40000000000 0x6c6b935 0 0;
    Mem32 0x6eac900000000000 0x87867832 0 0; Mem32 0xa57b400000000000 0xa968163f0 0 0;
    Mem32 0xeda1000000000000 0xd3c21bcecc 0 0; Mem32 0x9094000000000000 0x108b2a2c2802 0 0;
    Mem32 0x4b90000000000000 0x14adf4b732033 0 0]].

(** The powers of 21 to 25 *)
Definition naturalPow_21 : list (list mem32) :=
  [[Mem32 0x15 0 0 0; Mem32 0x1b9 0 0 0; Mem32 0x242d 0 0 0; Mem32 0x2f7b1 0 0 0; Mem32 0x3e5185 0 0 0;
    Mem32 0x51cafe9 0 0 0; Mem32 0x6b5a6e1d 0 0 0; Mem32 0x8ce6b0861 0 0 0; Mem32 0xb8eec7aff5 0 0 0;
    Mem32 0xf2b96616f19 0 0 0; Mem32 0x13e9355fe1d0d 0 0 0; Mem32 0x1a22160dd86211 0 0 0;
    Mem32 0x224cbcf22c00b65 0 0 0; Mem32 0x2d04b7fdd9c0ef49 0 0 0; Mem32 0xb16317d2dcd3a0fd 3 0 0;
    Mem32 0x8d20f44c1d5c34c1 0x4d 0 0; Mem32 0x93b40a3e689053d5 0x65c 0 0; Mem32 0x1dc4d71e93d6e079 0x8598 0 0;
    Mem32 0x7125a58220a069ed 0xaf57a 0 0; Mem32 0x481693acad28b071 0xe6230b 0 0;
    Mem32 0xe9da1d2a34567945 0x12e0dfec 0 0; Mem32 0x2ee464764b17f2a9 0x18c725e6f 0 0;
    Mem32 0xd8bc3db428f6e7dd 0x208561bf1e 0 0; Mem32 0xc7710fc75c410521 0x2aaf104ad87 0 0;
    Mem32 0x5c464b5a91556bb5 0x3805c5623c23 0 0; Mem32 0x91c42e6dec01d5d9 0x49879310eeee6 0 0];
   [Mem32 0x16 0 0 0; Mem32 0x1e4 0 0 0; Mem32 0x2998 0 0 0; Mem32 0x39310 0 0 0; Mem32 0x4ea360 0 0 0;
    Mem32 0x6c20a40 0 0 0; Mem32 0x94ace180 0 0 0; Mem32 0xcc6db6100 0 0 0; Mem32 0x11916da5600 0 0 0;
    Mem32 0x1827f6c36400 0 0 0; Mem32 0x2136f34ca9800 0 0 0; Mem32 0x2dab8e89691000 0 0 0;
    Mem32 0x3ecbe3fcf076000 0 0 0; Mem32 0x5658597bcaa24000 0 0 0; Mem32 0x6b97b0a369f18000 7 0 0;
    Mem32 0x3f092e0b1ac10000 0xa3 0 0; Mem32 0x6ac9f4f44c960000 0xe07 0 0; Mem32 0x2d5b0cfe94e40000 0x134a3 0 0;
    Mem32 0xe5d31de0cb980000 0x1a8605 0 0; Mem32 0xc02491517f100000 0x2478481 0 0;
    Mem32 0x83247d00eb600000 0x32256326 0 0; Mem32 0x4522be143a400000 0x44f36854f 0 0;
    Mem32 0xf0fc55bd01800000 0x5eceaf74cf 0 0; Mem32 0xb5af5e3e21000000 0x825c31409de 0 0;
    Mem32 0x9d121956d6000000 0xb33ec3b8d923 0 0; Mem32 0x7f8e2d7664000000 0xf6764d1e2a90f 0 0];
   [Mem32 0x17 0 0 0; Mem32 0x211 0 0 0; Mem32 0x2f87 0 0 0; Mem32 0x44521 0 0 0; Mem32 0x6235f7 0 0 0;
    Mem32 0x8d2d931 0 0 0; Mem32 0xcaf18367 0 0 0; Mem32 0x123bb2ce41 0 0 0; Mem32 0x1a35d1087d7 0 0 0;
    Mem32 0x25ad5c7c3451 0 0 0; Mem32 0x362934f28b347 0 0 0; Mem32 0x4ddb3c1ca81b61 0 0 0;
    Mem32 0x6feb266931a75b7 0 0 0; Mem32 0xa0e2073737609371 0 0 0; Mem32 0x744ea5f5f9ad3f27 0xe 0 0;
    Mem32 0x7310e9196e90ac81 0x14c 0 0; Mem32 0x5684f148eeff7f97 0x1dde 0 0; Mem32 0xc5f1ad8d78f47691 0x2aef9 0 0;
    Mem32 0xc8b697b5ddf6a707 0x3db870 0 0; Mem32 0x867a156f12901a1 0x58b9222 0 0;
    Mem32 0xc14f7ecfaaaf2577 0x7f8a210e 0 0; Mem32 0x5e2464a855bc5db1 0xb7568f853 0 0;
    Mem32 0x75450b1fb3ec6ae7 0x1078c6e4f7d 0 0; Mem32 0x8933ffd92a3d9ac1 0x17ad9de92445 0 0;
    Mem32 0x53abfc82cb88e757 0x220992ff2423f 0 0; Mem32 0x8473afc0494cc8d1 0x30edc34ec3f3b0 0 0];
   [Mem32 0x18 0 0 0; Mem32 0x240 0 0 0; Mem32 0x3600 0 0 0; Mem32 0x51000 0 0 0; Mem32 0x798000 0 0 0;
    Mem32 0xb640000 0 0 0; Mem32 0x111600000 0 0 0; Mem32 0x19a1000000 0 0 0; Mem32 0x26718000000 0 0 0;
    Mem32 0x39aa40000000 0 0 0; Mem32 0x567f600000000 0 0 0; Mem32 0x81bf1000000000 0 0 0;
    Mem32 0xc29e98000000000 0 0 0; Mem32 0x23ede40000000000 1 0 0; Mem32 0x5e4d600000000000 0x1b 0 0;
    Mem32 0xd741000000000000 0x290 0 0; Mem32 0x2e18000000000000 0x3d94 0 0; Mem32 0x5240000000000000 0x5c5e4 0 0;
    Mem32 0xb600000000000000 0x8a8d67 0 0; Mem32 0x1000000000000000 0xcfd41b9 0 0;
    Mem32 0x8000000000000000 0x137be2959 0 0; Mem32 0 0x1d39d3e064 0 0; Mem32 0 0x2bd6bdd0960 0 0;
    Mem32 0 0x41c21cb8e100 0 0; Mem32 0 0x62a32b1551800 0 0; Mem32 0 0x93f4c09ffa4000 0 0];
   [Mem32 0x19 0 0 0; Mem32 0x271 0 0 0; Mem32 0x3d09 0 0 0; Mem32 0x5f5e1 0 0 0; Mem32 0x9502f9 0 0 0;
    Mem32 0xe8d4a51 0 0 0; Mem32 0x16bcc41e9 0 0 0; Mem32 0x2386f26fc1 0 0 0; Mem32 0x3782dace9d9 0 0 0;
    Mem32 0x56bc75e2d631 0 0 0; Mem32 0x878678326eac9 0 0 0; Mem32 0xd3c21bcecceda1 0 0 0;
    Mem32 0x14adf4b7320334b9 0 0 0; Mem32 0x4fce5e3e2502611 2 0 0; Mem32 0x7cb2734119d3b7a9 0x32 0 0;
    Mem32 0x2d6d415b85acef81 0x4ee 0 0; Mem32 0x6fab61f00de36399 0x7b42 0 0; Mem32 0xe7bc90715b34b9f1 0xc097c 0 0;
    Mem32 0xa16a1b11e8262889 0x12ced32 0 0; Mem32 0xc35ca4bfabb9f561 0x1d6329f1 0 0;
    Mem32 0x140c16b7c528f679 0x2deaf189c 0 0; Mem32 0xf52e37f2410011d1 0x47bf19673d 0 0;
    Mem32 0xf18376a85901bd69 0x701a97b150c 0 0; Mem32 0x95d69670b12b7f41 0xaf298d050e43 0 0;
    Mem32 0xa1f4b1014d3f6d59 0x111b0ec57e6499 0 0; Mem32 0xd0e549208b31adb1 0x1aba4714957d300 0 0]].

(** The powers of 26 to 30 *)
Definition naturalPow_26 : list (list mem32) :=
  [[Mem32 0x1a 0 0 0; Mem32 0x2a4 0 0 0; Mem32 0x44a8 0 0 0; Mem32 0x6f910 0 0 0; Mem32 0xb54ba0 0 0 0;
    Mem32 0x1269ae40 0 0 0; Mem32 0x1debbb280 0 0 0; Mem32 0x309f102100 0 0 0; Mem32 0x4f027a35a00 0 0 0;
    Mem32 0x806406972400 0 0 0; Mem32 0xd0a28ab59a800 0 0 0; Mem32 0x1530821671b1000 0 0 0;
    Mem32 0x226ed36478bfa000 0 0 0; Mem32 0x7f41783443764000 3 0 0; Mem32 0xeca6354eda028000 0x5a 0 0;
    Mem32 0x8e16a0224410000 0x93c 0 0; Mem32 0xe6e4c437ae9a0000 0xf018 0 0; Mem32 0x733beda7bba40000 0x186287 0 0;
    Mem32 0xb41623090ea80000 0x27a01c1 0 0; Mem32 0x4a3f8eeb7d100000 0x40642dac 0 0;
    Mem32 0x8a7483eab3a00000 0x68a2ca37f 0 0; Mem32 0xfd565d63e400000 0xaa08889af4 0 0;
    Mem32 0x9bac57c252800000 0x1144dddfbcc9 0 0; Mem32 0xcf80e9bc61000000 0x1c0fe88b92c79 0 0;
    Mem32 0x1317bd21da000000 0x2d99d9e2ce845f 0 0; Mem32 0xf069357024000000 0x4a1a02108f971a7 0 0];
   [Mem32 0x1b 0 0 0; Mem32 0x2d9 0 0 0; Mem32 0x4ce3 0 0 0; Mem32 0x81bf1 0 0 0; Mem32 0xdaf26b 0 0 0;
    Mem32 0x17179149 0 0 0; Mem32 0x26f7c52b3 0 0 0; Mem32 0x41c21cb8e1 0 0 0; Mem32 0x6ef79077fbb 0 0 0;
    Mem32 0xbb41c3ca78b9 0 0 0; Mem32 0x13bfefa65abb83 0 0 0; Mem32 0x2153e468b91c6d1 0 0 0;
    Mem32 0x383d9170b85ff80b 0 0 0; Mem32 0xee7e56e3721f2929 5 0 0; Mem32 0x275329fd09495753 0xa0 0 0;
    Mem32 0x25c56daffabc35c1 0x10e4 0 0; Mem32 0xfbd2918f71d9ab5b 0x1c80f 0 0; Mem32 0x8f355a2101f51299 0x3019af 0 0;
    Mem32 0x1aa0817b34d8f623 0x512b584 0 0; Mem32 0xceeda7fe92e1f5b1 0x88f924ee 0 0;
    Mem32 0xd310b7d97dd4e9ab 0xe7246e52f 0 0; Mem32 0x42c363f04574a509 0x1860d7a2c0b 0 0;
    Mem32 0xa9b8a57534d67f3 0x29236be2a530 0 0; Mem32 0x1e679735c929f6a1 0x456bc60e76c11 0 0;
    Mem32 0x34ecf2ac376d02fb 0x7525de386865ce 0 0; Mem32 0x94fd9829d87f5079 0xc5afe6ff302bcbf 0 0];
   [Mem32 0x1c 0 0 0; Mem32 0x310 0 0 0; Mem32 0x55c0 0 0 0; Mem32 0x96100 0 0 0; Mem32 0x1069c00 0 0 0;
    Mem32 0x1cb91000 0 0 0; Mem32 0x3243dc000 0 0 0; Mem32 0x57f6c10000 0 0 0; Mem32 0x99efd1c0000 0 0 0;
    Mem32 0x10d63af100000 0 0 0; Mem32 0x1d76e725c00000 0 0 0; Mem32 0x339014821000000 0 0 0;
    Mem32 0x5a3c23e39c000000 0 0 0; Mem32 0xde93ece510000000 9 0 0; Mem32 0x582de90dc0000000 0x114 0 0;
    Mem32 0xa5057d8100000000 0x1e39 0 0; Mem32 0xc99ba1c00000000 0x34e4e 0 0; Mem32 0x60d05b1000000000 0x5c9089 0 0;
    Mem32 0x96c9f5c000000000 0xa1fcf06 0 0; Mem32 0x7e16e10000000000 0x11b7aa4b8 0 0;
    Mem32 0xca809c0000000000 0x1f016a042d 0 0; Mem32 0x2611100000000000 0x36427987502 0 0;
    Mem32 0x29ddc00000000000 0x5ef454accc3c 0 0; Mem32 0x9441000000000000 0xa62b942e65694 0 0;
    Mem32 0x371c000000000000 0x122cc4351317840 0 0; Mem32 0x710000000000000 0x1fce575ce1692706 0 0];
   [Mem32 0x1d 0 0 0; Mem32 0x349 0 0 0; Mem32 0x5f45 0 0 0; Mem32 0xacad1 0 0 0; Mem32 0x138f9ad 0 0 0;
    Mem32 0x23744899 0 0 0; Mem32 0x4042c3955 0 0 0; Mem32 0x7479027ea1 0 0 0; Mem32 0xd31b548583d 0 0 0;
    Mem32 0x17ea18931fee9 0 0 0; Mem32 0x2b584c8aa9e065 0 0 0; Mem32 0x4e900abb53e6b71 0 0 0;
    Mem32 0x8e65137388122bcd 0 0 0; Mem32 0x217334166a0ef639 0x10 0 0; Mem32 0xca0ce68a03b1e475 0x1d3 0 0;
    Mem32 0xe3761da26b26e141 0x34fd 0 0; Mem32 0xc4615b662367845d 0x600c2 0 0; Mem32 0x3f075a9202b9fe89 0xae1610 0 0;
    Mem32 0x23d5428a4f11d585 0x13b87fd7 0 0; Mem32 0xf2889aaf5053011 0x23be67b5f 0 0;
    Mem32 0xb797985dc19671ed 0x40c91bf9c4 0 0; Mem32 0xcc2c429eee0ae7d9 0x756c82b4b48 0 0;
    Mem32 0x21038c00f73c4395 0xd4d4ace7873f 0 0; Mem32 0xbd66dc1c01d3a7e1 0x181c17963a5226 0 0;
    Mem32 0x74a6ef2c34fa047d 0x2bb2eac049b4e63 0 0; Mem32 0x36e9180200528229 0x4f34497c8597e144 0 0];
   [Mem32 0x1e 0 0 0; Mem32 0x384 0 0 0; Mem32 0x6978 0 0 0; Mem32 0xc5c10 0 0 0; Mem32 0x172c9e0 0 0 0;
    Mem32 0x2b73a840 0 0 0; Mem32 0x5178db780 0 0 0; Mem32 0x98c29b8100 0 0 0; Mem32 0x11e6ce391e00 0 0 0;
    Mem32 0x2190c2ab18400 0 0 0; Mem32 0x3eef6d00cd7800 0 0 0; Mem32 0x7600ec618141000 0 0 0;
    Mem32 0xdd41bb36d259e000 0 0 0; Mem32 0xedb3f06ca6884000 0x19 0 0; Mem32 0xdb162cbb83f78000 0x309 0 0;
    Mem32 0xac993df977010000 0x5b27 0 0; Mem32 0x39f5433bf21e0000 0xaaea6 0 0; Mem32 0xcabde1065f840000 0x140777a 0 0;
    Mem32 0xc2405ebf31780000 0x258e0063 0 0; Mem32 0xc38b1a67cc100000 0x466a40bb0 0 0;
    Mem32 0xea4d1829e9e00000 0x8407395eb6 0 0; Mem32 0x7508d4e968400000 0xf78d8b9196f 0 0;
    Mem32 0xb708f35a37800000 0x1d02965b0fb0f 0 0; Mem32 0x730c849281000000 0x3664d9eabd6bd7 0 0;
    Mem32 0x7b77892b1e000000 0x65fd1898232a33f 0 0; Mem32 0x7802130d84000000 0xbf3a8e1d41ef2170 0 0]].

(** The powers of 31 to 35 *)
Definition naturalPow_31 : list (list mem32) :=
  [[Mem32 0x1f 0 0 0; Mem32 0x3c1 0 0 0; Mem32 0x745f 0 0 0; Mem32 0xe1781 0 0 0; Mem32 0x1b4d89f 0 0 0;
    Mem32 0x34e63b41 0 0 0; Mem32 0x667e12cdf 0 0 0; Mem32 0xc694446f01 0 0 0; Mem32 0x180bf449711f 0 0 0;
    Mem32 0x2e97294e4b2c1 0 0 0; Mem32 0x5a44e007b1a55f 0 0 0; Mem32 0xaee5720ee830681 0 0 0;
    Mem32 0x52dc8cfce1ddc99f 1 0 0; Mem32 0x8b5129f59db6a41 0x29 0 0; Mem32 0xded414be191dddf 0x4f8 0 0;
    Mem32 0xafbae83050a9de01 0x9a09 0 0; Mem32 0x47a21dd9c491e21f 0x12a72c 0 0; Mem32 0xaca19d5ecdaa61c1 0x2423e5c 0 0;
    Mem32 0xe7920e7ae7a1d65f 0x46058d38 0 0; Mem32 0xaafc0e20c98f581 0x87aac19e4 0 0;
    Mem32 0x4b485b5f8685ba9f 0x106dad7229d 0 0; Mem32 0x1dc310914a319941 0x1fd4800d310c 0 0;
    Mem32 0x9a9f0197fc018edf 0x3dabb8198f077 0 0; Mem32 0xb941316784304d01 0x777cb4b1851e7b 0 0;
    Mem32 0x6ee4fb8901d9531f 0xe7819e17f1eb0fb 0 0; Mem32 0x6dba7597395110c1 0xc08b224e64b76e72 1 0];
   [Mem32 0x20 0 0 0; Mem32 0x400 0 0 0; Mem32 0x8000 0 0 0; Mem32 0x100000 0 0 0; Mem32 0x2000000 0 0 0;
    Mem32 0x40000000 0 0 0; Mem32 0x800000000 0 0 0; Mem32 0x10000000000 0 0 0; Mem32 0x200000000000 0 0 0;
    Mem32 0x4000000000000 0 0 0; Mem32 0x80000000000000 0 0 0; Mem32 0x1000000000000000 0 0 0; Mem32 0 2 0 0;
    Mem32 0 0x40 0 0; Mem32 0 0x800 0 0; Mem32 0 0x10000 0 0; Mem32 0 0x200000 0 0; Mem32 0 0x4000000 0 0;
    Mem32 0 0x80000000 0 0; Mem32 0 0x1000000000 0 0; Mem32 0 0x20000000000 0 0; Mem32 0 0x400000000000 0 0;
    Mem32 0 0x8000000000000 0 0; Mem32 0 0x100000000000000 0 0; Mem32 0 0x2000000000000000 0 0; Mem32 0 0 4 0];
   [Mem32 0x21 0 0 0; Mem32 0x441 0 0 0; Mem32 0x8c61 0 0 0; Mem32 0x121881 0 0 0; Mem32 0x25528a1 0 0 0;
    Mem32 0x4cfa3cc1 0 0 0; Mem32 0x9ec41d4e1 0 0 0; Mem32 0x147747c7101 0 0 0; Mem32 0x2a36040a9121 0 0 0;
    Mem32 0x570f6855cb541 0 0 0; Mem32 0xb38fc730f35d61 0 0 0; Mem32 0x172588ad4f5f0981 0 0 0;
    Mem32 0xfbd69e573b4039a1 2 0 0; Mem32 0x76aa693ea3476dc1 0x62 0 0; Mem32 0x4bf791130c3525e1 0xcb1 0 0;
    Mem32 0xcae9b37492d9e201 0x1a2da 0 0; Mem32 0x28202206ee162221 0x35fe34 0 0;
    Mem32 0x2c2462e4b0da6641 0x6f5c4b9 0 0; Mem32 0xb0b0bf7acc272e61 0xe5ae5bde 0 0;
    Mem32 0xc6c8aed4510cfa81 0x1d9b79d7b4 0 0; Mem32 0x9fde895e72ac4aa1 0x3d10ab4ce4d 0 0;
    Mem32 0x9bafb52cc8359ec1 0x7df2614e9801 0 0; Mem32 0x11a65ac5cee976e1 0x103c3e8b219835 0 0;
    Mem32 0x4671b37fac185301 0x217c40fef549ed7 0 0; Mem32 0x14a823752f22b321 0x4510460dd9e879c0 0 0;
    Mem32 0xa9ac921b13791741 0xe71907c916f7b1c2 8 0];
   [Mem32 0x22 0 0 0; Mem32 0x484 0 0 0; Mem32 0x9988 0 0 0; Mem32 0x146410 0 0 0; Mem32 0x2b54a20 0 0 0;
    Mem32 0x5c13d840 0 0 0; Mem32 0xc3aa2b880 0 0 0; Mem32 0x19fc99c8100 0 0 0; Mem32 0x3738c6c92200 0 0 0;
    Mem32 0x7558a66b68400 0 0 0; Mem32 0xf95c61a43d8800 0 0 0; Mem32 0x211e44f7d02c1000 0 0 0;
    Mem32 0x660528e9a5da2000 4 0 0; Mem32 0x8caf6f0806f84000 0x95 0 0; Mem32 0xaf4cbf10ecf88000 0x13dc 0 0;
    Mem32 0x4831603f79010000 0x2a34f 0 0; Mem32 0x968ec86e12220000 0x59b087 0 0;
    Mem32 0xfef69e9e68840000 0xbe97201 0 0; Mem32 0xdcc11109e1880000 0x195012443 0 0;
    Mem32 0x51a4434ff4100000 0x35ca26d103 0 0; Mem32 0xd7d0f09e6a200000 0x724d927c270 0 0;
    Mem32 0xa9bff50a18400000 0xf2e4d747d2fc 0 0; Mem32 0x8b7e8b5738800000 0x204264978a058e 0 0;
    Mem32 0x86ce819581000000 0x448d15c2054bcee 0 0; Mem32 0xe76d35db22000000 0x91abce3c4b4117ad 0 0;
    Mem32 0xbc81271a84000000 0x58d16401fea52518 0x13 0];
   [Mem32 0x23 0 0 0; Mem32 0x4c9 0 0 0; Mem32 0xa77b 0 0 0; Mem32 0x16e5d1 0 0 0; Mem32 0x3216b93 0 0 0;
    Mem32 0x6d91b519 0 0 0; Mem32 0xefaebc26b 0 0 0; Mem32 0x20c4e3b94a1 0 0 0; Mem32 0x47aeb2255203 0 0 0;
    Mem32 0x9cce25b1a3669 0 0 0; Mem32 0x15702f27495705b 0 0 0; Mem32 0x2ee56725f06e5c71 0 0 0;
    Mem32 0x695d1a2fdf16a373 6 0 0; Mem32 0x67ba948b801858b9 0xe0 0 0; Mem32 0x2e824f128354214b 0x1eae 0 0;
    Mem32 0x5bd0cf87f4808d41 0x431d0 0 0; Mem32 0x8d8c5f966d934fe3 0x92cf7c 0 0;
    Mem32 0x5a311190fb23ec09 0x14125e07 0 0; Mem32 0x54b566d255e9453b 0x2be82db01 0 0;
    Mem32 0x94cd0ec1bee47711 0x600be3f12e 0 0; Mem32 0x5809047d193c4753 0xd21a029f95e 0 0;
    Mem32 0x93b9d1a733dc059 0x1cb98e5bd17e6 0 0; Mem32 0x43267a9dc1714c2b 0x3ed5e768da4473 0 0;
    Mem32 0x2e42c391727d69e1 0x8973ea355d75bc2 0 0; Mem32 0x5320bce2a72579c3 0x2cad9054bc718b8c 1 0;
    Mem32 0x5d79d2fcda1fa5a9 0x1bbabb95c386142f 0x29 0]].

(** The powers of 36 to 40 *)
Definition naturalPow_36 : list (list mem32) :=
  [[Mem32 0x24 0 0 0; Mem32 0x510 0 0 0; Mem32 0xb640 0 0 0; Mem32 0x19a100 0 0 0; Mem32 0x39aa400 0 0 0;
    Mem32 0x81bf1000 0 0 0; Mem32 0x123ede4000 0 0 0; Mem32 0x290d7410000 0 0 0; Mem32 0x5c5e45240000 0 0 0;
    Mem32 0xcfd41b9100000 0 0 0; Mem32 0x1d39d3e06400000 0 0 0; Mem32 0x41c21cb8e1000000 0 0 0;
    Mem32 0x3f4c09ffa4000000 9 0 0; Mem32 0xe6b167f310000000 0x14c 0 0; Mem32 0x70f29e2e40000000 0x2ed0 0 0;
    Mem32 0xe21e3e8100000000 0x6954f 0 0; Mem32 0xcc40ca2400000000 0xecff3b 0 0;
    Mem32 0xb91c6d1000000000 0x2153e468 0 0; Mem32 0x7ff564000000000 0x4afcc1eba 0 0;
    Mem32 0x1fe8210000000000 0xa8b8b45229 0 0; Mem32 0x7ca4a40000000000 0x17b9f95b8dc8 0 0;
    Mem32 0x8727100000000000 0x3562710dff031 0 0; Mem32 0x17e400000000000 0x781d7e5f7dc6f7 0 0;
    Mem32 0x35c1000000000000 0x10e425c56daffabc 0 0; Mem32 0x8f24000000000000 0x60154fc36cbf4277 2 0;
    Mem32 0x2110000000000000 0x82ff377b4ae558d0 0x55 0];
   [Mem32 0x25 0 0 0; Mem32 0x559 0 0 0; Mem32 0xc5dd 0 0 0; Mem32 0x1c98f1 0 0 0; Mem32 0x4221ad5 0 0 0;
    Mem32 0x98ede0c9 0 0 0; Mem32 0x161a617d0d 0 0 0; Mem32 0x331d01712e1 0 0 0; Mem32 0x76331355ba85 0 0 0;
    Mem32 0x111561cb63f539 0 0 0; Mem32 0x27817226572713d 0 0 0; Mem32 0x5b5b57f8a98a5dd1 0 0 0;
    Mem32 0x3433b6f080ff8f35 0xd 0 0; Mem32 0x8b7970c2a4efb2a9 0x1e8 0 0; Mem32 0x288d4c21d6a4d26d 0x469c 0 0;
    Mem32 0xdc6c00e405d269c1 0xa3491 0 0; Mem32 0xdb9c20f4d76948e5 0x1799914 0 0;
    Mem32 0xbd90c36322378919 0x36932003 0 0; Mem32 0x65ec3d53f206d09d 0x7e343a08a 0 0;
    Mem32 0xbb24dd21fafc26b1 0x123d8c63400 0 0; Mem32 0xc53f5e946719795 0x2a2e54a5841b 0 0;
    Mem32 0xc8228ab72e6ae889 0x618b23bec17e8 0 0; Mem32 0xecfe0c79b5739bcd 0xe191c2a91f74a4 0 0;
    Mem32 0x40b7cd9739b584a1 0x209a1122718bdbd6 0 0; Mem32 0x5a90b6db573c2b45 0xb64479fa6936c5f7 4 0;
    Mem32 0x16ea6db39bb240f9 0x57e5a13134ea9cc0 0xae 0];
   [Mem32 0x26 0 0 0; Mem32 0x5a4 0 0 0; Mem32 0xd658 0 0 0; Mem32 0x1fd110 0 0 0; Mem32 0x4b90860 0 0 0;
    Mem32 0xb3773e40 0 0 0; Mem32 0x1aa3b33d80 0 0 0; Mem32 0x3f44c9b2100 0 0 0; Mem32 0x96435f06e600 0 0 0;
    Mem32 0x164e001b062400 0 0 0; Mem32 0x34f940402e95800 0 0 0; Mem32 0x7dcff8986ea31000 0 0 0;
    Mem32 0xacdee6a06c346000 0x12 0 0; Mem32 0xa9163bd00fc64000 0x2c5 0 0; Mem32 0x194ce0e2576d8000 0x6957 0 0;
    Mem32 0xc1696198fa410000 0xfa2ed 0 0; Mem32 0xb5a47cb525a60000 0x2522f4a 0 0;
    Mem32 0xf66a82e396a40000 0x58330516 0 0; Mem32 0x93cf6dc85c580000 0xd1792c168 0 0;
    Mem32 0xf0ca4bbdb5100000 0x1f17fc8b585 0 0; Mem32 0xbe073e28e0600000 0x49d8f7caf1e1 0 0;
    Mem32 0x35133a114e400000 0xaf634c81fe782 0 0; Mem32 0xe0da9e919d800000 0x1a08bd5b4bc5d53 0 0;
    Mem32 0x6073899d61000000 0x3dd4c1b8d3f5da73 0 0; Mem32 0x51266d5c66000000 0x2d94c16f767e6d20 9 0;
    Mem32 0xbb43bb724000000 0xc414b68b96c432cc 0x15c 0];
   [Mem32 0x27 0 0 0; Mem32 0x5f1 0 0 0; Mem32 0xe7b7 0 0 0; Mem32 0x234ce1 0 0 0; Mem32 0x560b647 0 0 0;
    Mem32 0xd1bbc4d1 0 0 0; Mem32 0x1ff39afbd7 0 0 0; Mem32 0x4de1c9c5dc1 0 0 0; Mem32 0xbdd65bd24867 0 0 0;
    Mem32 0x1ceba7fd0907b1 0 0 0; Mem32 0x467e6978c602bf7 0 0 0; Mem32 0xabd4211662a6b2a1 0 0 0;
    Mem32 0x2d510a6907653687 0x1a 0 0; Mem32 0xe7589600206b4e91 0x3fc 0 0; Mem32 0x3e7eda04f058f817 0x9b87 0 0;
    Mem32 0x855336c09d8dcb81 0x17b19a 0 0; Mem32 0x4fad5758009a00a7 0x39c0e8a 0 0;
    Mem32 0x23684e6817761971 0x8cc63712 0 0; Mem32 0x64e3f1db92fde037 0x15723263c3 0 0;
    Mem32 0x5eb9d87364ad2861 0x34465ad32c4 0 0; Mem32 0x6e4ff994566126c7 0x7f6b7d62bbea 0 0;
    Mem32 0xce2f059928cce851 0x1369601a0aa0b6 0 0; Mem32 0x6929da5537376457 0x2f50da3f79e7bd9 0 0;
    Mem32 0x56042fb69704941 0x735513fab924de1f 0 0; Mem32 0xd1aa344d101b28e7 0x91f60b32349dd6b9 0x11 0;
    Mem32 0xf0edf7bd74233b31 0x3c7bb4a6040bb64e 0x2ad 0];
   [Mem32 0x28 0 0 0; Mem32 0x640 0 0 0; Mem32 0xfa00 0 0 0; Mem32 0x271000 0 0 0; Mem32 0x61a8000 0 0 0;
    Mem32 0xf4240000 0 0 0; Mem32 0x2625a00000 0 0 0; Mem32 0x5f5e1000000 0 0 0; Mem32 0xee6b28000000 0 0 0;
    Mem32 0x2540be40000000 0 0 0; Mem32 0x5d21dba00000000 0 0 0; Mem32 0xe8d4a51000000000 0 0 0;
    Mem32 0x6139ca8000000000 0x24 0 0; Mem32 0x3107a40000000000 0x5af 0 0; Mem32 0xa931a00000000000 0xe35f 0 0;
    Mem32 0x6fc1000000000000 0x2386f2 0 0; Mem32 0x7628000000000000 0x58d15e1 0 0;
    Mem32 0x7640000000000000 0xde0b6b3a 0 0; Mem32 0x7a00000000000000 0x22b1c8c122 0 0;
    Mem32 0x1000000000000000 0x56bc75e2d63 0 0; Mem32 0x8000000000000000 0xd8d726b7177a 0 0;
    Mem32 0 0x21e19e0c9bab24 0 0; Mem32 0 0x54b40b1f852bda0 0 0; Mem32 0 0xd3c21bcecceda100 0 0;
    Mem32 0 0x1654585005212800 0x21 0; Mem32 0 0x7d2dcc80cd2e4000 0x52b 0]].

(** The powers of 41 to 45 *)
Definition naturalPow_41 : list (list mem32) :=
  [[Mem32 0x29 0 0 0; Mem32 0x691 0 0 0; Mem32 0x10d39 0 0 0; Mem32 0x2b1e21 0 0 0; Mem32 0x6e7d349 0 0 0;
    Mem32 0x11b20d6b1 0 0 0; Mem32 0x2d58426259 0 0 0; Mem32 0x74322a1c041 0 0 0; Mem32 0x129c08be7ca69 0 0 0;
    Mem32 0x2fafd6681f6ad1 0 0 0; Mem32 0x7a32956ad081b79 0 0 0; Mem32 0x39219ee1b64c6661 1 0 0;
    Mem32 0x26627226323c6589 0x32 0 0; Mem32 0x25c4481e0bac42f1 0x808 0 0; Mem32 0xc6f8ccfde96b899 0x1494e 0 0;
    Mem32 0xfddd8d4aa6239081 0x34bd7f 0 0; Mem32 0xa87ba0f49bb224a9 0x872597f 0 0;
    Mem32 0xfbccc72cef87df11 0x15a505571 0 0; Mem32 0x53cbe6325cc2b9b9 0x3776ddaf41 0 0;
    Mem32 0x6ba7de10db2fbea1 0x8e209811176 0 0; Mem32 0x3de290b31aa587c9 0x16c3385abcbf7 0 0;
    Mem32 0xe9492caf4482bf31 0x3a54406883aa98 0 0; Mem32 0x5cb82811f8f09ed9 0x9577e50bd16527d 0 0;
    Mem32 0xd97e6ae0de8970c1 0x7f033aee48933613 1 0; Mem32 0xd53f1e03a4030ee9 0x578470299f93a92d 0x3d 0;
    Mem32 0x271bce95447d6351 0x435f6aa8ea61857 0x9d3 0];
   [Mem32 0x2a 0 0 0; Mem32 0x6e4 0 0 0; Mem32 0x12168 0 0 0; Mem32 0x2f7b10 0 0 0; Mem32 0x7ca30a0 0 0 0;
    Mem32 0x1472bfa40 0 0 0; Mem32 0x35ad370e80 0 0 0; Mem32 0x8ce6b086100 0 0 0; Mem32 0x171dd8f5fea00 0 0 0;
    Mem32 0x3cae5985bc6400 0 0 0; Mem32 0x9f49aaff0e86800 0 0 0; Mem32 0xa22160dd86211000 1 0 0;
    Mem32 0x9979e458016ca000 0x44 0 0; Mem32 0x2dff76703bd24000 0xb41 0 0; Mem32 0x8be96e69d07e8000 0x1d8b1 0 0;
    Mem32 0xf44c1d5c34c10000 0x4d8d20 0 0; Mem32 0x147cd120a7aa0000 0xcb92768 0 0;
    Mem32 0x5c7a4f5b81e40000 0x216607713 0 0; Mem32 0x2c1105034f680000 0x57abd3892d 0 0;
    Mem32 0x3acad28b07100000 0xe6230b48169 0 0; Mem32 0xa5468acf28a00000 0x25c1bfd9d3b43 0 0;
    Mem32 0x1d92c5fcaa400000 0x631c979bcbb919 0 0; Mem32 0xda147b73ee800000 0x1042b0df8f6c5e1e 0 0;
    Mem32 0xc75c410521000000 0xaaf104ad87c7710f 2 0; Mem32 0xb522aad76a000000 0xb8ac47846b88c96 0x70 0;
    Mem32 0xb7b0075764000000 0xe4c43bbb9a4710b9 0x1261 0];
   [Mem32 0x2b 0 0 0; Mem32 0x739 0 0 0; Mem32 0x13693 0 0 0; Mem32 0x342ab1 0 0 0; Mem32 0x8c32bbb 0 0 0;
    Mem32 0x178c85869 0 0 0; Mem32 0x3f49a6d9a3 0 0 0; Mem32 0xaa15f068e61 0 0 0; Mem32 0x1c91af619ea4b 0 0 0;
    Mem32 0x4cc787565a5a99 0 0 0; Mem32 0xce583bb812d37b3 0 0 0; Mem32 0x2a8d207eb2985b11 2 0 0;
    Mem32 0x25b47547ff974bdb 0x5d 0 0; Mem32 0x554fb317ee69bdc9 0xfa5 0 0; Mem32 0x546315050bc2e0c3 0x2a0c5 0 0;
    Mem32 0x2ca487d8f9bbc0c1 0x710125 0 0; Mem32 0x7fa2d171f289606b 0x12fb313e 0 0;
    Mem32 0x70592e23bd1331f9 0x33031457f 0 0; Mem32 0xdefac000c23964d3 0x891846ac67 0 0;
    Mem32 0x741e40209fa3ef71 0x170713def572 0 0; Mem32 0x8114c57ad08937fb 0x3de3056733a39 0 0;
    Mem32 0xae7d2ba1070c6729 0xa6521e855ac7a8 0 0; Mem32 0x4f06540c2f1553e3 0x1befcb20663f8955 0 0;
    Mem32 0x46101e0be8951721 0xb1471e712cac1154 4 0; Mem32 0xc4b50c00110ae28b 0xc6f21d0280e6e927 0xc9 0;
    Mem32 0xa690402dcd40d59 0x6aaadf6ba6c929ae 0x21e4 0];
   [Mem32 0x2c 0 0 0; Mem32 0x790 0 0 0; Mem32 0x14cc0 0 0 0; Mem32 0x393100 0 0 0; Mem32 0x9d46c00 0 0 0;
    Mem32 0x1b0829000 0 0 0; Mem32 0x4a5670c000 0 0 0; Mem32 0xcc6db610000 0 0 0; Mem32 0x2322db4ac0000 0 0 0;
    Mem32 0x609fdb0d900000 0 0 0; Mem32 0x109b79a654c00000 0 0 0; Mem32 0xdab8e89691000000 2 0 0;
    Mem32 0x97c7f9e0ec000000 0x7d 0 0; Mem32 0x165ef2a890000000 0x1596 0 0; Mem32 0xd851b4f8c0000000 0x3b5cb 0 0;
    Mem32 0x2e0b1ac100000000 0xa33f09 0 0; Mem32 0xe9e8992c00000000 0x1c0ed593 0 0;
    Mem32 0x33fa539000000000 0x4d28cb56c 0 0; Mem32 0xef065cc000000000 0xd4302f2e98 0 0;
    Mem32 0x1517f10000000000 0x2478481c0249 0 0; Mem32 0xa01d6c0000000000 0x644ac64d0648f 0 0;
    Mem32 0x850e900000000000 0x113cda153d148af 0 0; Mem32 0xde80c00000000000 0x2f6757ba67f87e2a 0 0;
    Mem32 0x3e21000000000000 0x25c31409deb5af5e 8 0; Mem32 0xadac000000000000 0x7d8771b2473a2432 0x166 0;
    Mem32 0xd990000000000000 0x93478aa43dfe38b5 0x3d9d 0];
   [Mem32 0x2d 0 0 0; Mem32 0x7e9 0 0 0; Mem32 0x163f5 0 0 0; Mem32 0x3e9211 0 0 0; Mem32 0xaffacfd 0 0 0;
    Mem32 0x1eef16879 0 0 0; Mem32 0x57006f5d45 0 0 0; Mem32 0xf4b13936521 0 0 0; Mem32 0x2b03270e8c6cd 0 0 0;
    Mem32 0x78f8ddd8eaf209 0 0 0; Mem32 0x1543beff214c8b95 0 0 0; Mem32 0xbce892d8da748931 3 0 0;
    Mem32 0x34e1d01e667c1d9d 0xa8 0 0; Mem32 0x4bb1955803d13499 0x1d91 0 0; Mem32 0x4e374078abc63ee5 0x5328a 0 0;
    Mem32 0xbfb6553631d90e41 0xe9e24f 0 0; Mem32 0xb30cfa86c327816d 0x291cc804 0 0;
    Mem32 0x794809b04df1c029 0x73a0f28d3 0 0; Mem32 0x51a9b3fdb37ec735 0x14534aa2d2c 0 0;
    Mem32 0x5ad4a3988d490451 0x392a41e9f0ca 0 0; Mem32 0xf760c1d0d5d5c23d 0xa0c6d961f5391 0 0;
    Mem32 0x7c0211b5969324b9 0x1c42f436381b0a8 0 0; Mem32 0xcc5d1ceb77dd7485 0x4f7c4ed87dcc0d9d 0 0;
    Mem32 0xec5e156411ed7b61 0xf8d9dc0e1cde64bc 0xd 0; Mem32 0x8c89c29726beb00d 0xbe4bae7b1317b535 0x274 0;
    Mem32 0xb4373491cf84f249 0x734daba25b2ada69 0x6e85 0]].

(** The powers of 46 to 50 *)
Definition naturalPow_46 : list (list mem32) :=
  [[Mem32 0x2e 0 0 0; Mem32 0x844 0 0 0; Mem32 0x17c38 0 0 0; Mem32 0x445210 0 0 0; Mem32 0xc46bee0 0 0 0;
    Mem32 0x234b64c40 0 0 0; Mem32 0x6578c1b380 0 0 0; Mem32 0x123bb2ce4100 0 0 0; Mem32 0x346ba210fae00 0 0 0;
    Mem32 0x96b571f0d14400 0 0 0; Mem32 0x1b149a79459a3800 0 0 0; Mem32 0xddb3c1ca81b61000 4 0 0;
    Mem32 0xd64cd2634eb6e000 0xdf 0 0; Mem32 0x81cdcdd824dc4000 0x2838 0 0; Mem32 0x52fafcd69f938000 0x73a27 0 0;
    Mem32 0xe9196e90ac810000 0x14c7310 0 0; Mem32 0xe291ddfeff2e0000 0x3bbcad09 0 0;
    Mem32 0xb635e3d1da440000 0xabbe717c6 0 0; Mem32 0xbdaeefb538380000 0x1edc38645b4 0 0;
    Mem32 0x156f12901a100000 0x58b92220867a 0 0; Mem32 0xd9f555e4aee00000 0xff14421d829ef 0 0;
    Mem32 0x2a156f176c400000 0x2dd5a3e14d78919 0 0; Mem32 0x8fd9f63573800000 0x83c63727bebaa285 0 0;
    Mem32 0xd92a3d9ac1000000 0xad9de924458933ff 0x17 0; Mem32 0x59711ceae000000 0x325fe4847ea757f9 0x441 0;
    Mem32 0x125332344000000 0xd3b0fcec211cebf 0xc3b7 0];
   [Mem32 0x2f 0 0 0; Mem32 0x8a1 0 0 0; Mem32 0x1958f 0 0 0; Mem32 0x4a7541 0 0 0; Mem32 0xdab86ef 0 0 0;
    Mem32 0x2827dc5e1 0 0 0; Mem32 0x75f517544f 0 0 0; Mem32 0x15a7ff487a81 0 0 0; Mem32 0x3f9d7de4e7daf 0 0 0;
    Mem32 0xbadea1d0691321 0 0 0; Mem32 0x224edfb5434a830f 0 0 0; Mem32 0x4c7b12475aae0fc1 6 0 0;
    Mem32 0xa985b19a5f4e46f 0x128 0 0; Mem32 0xf1f8b9b577f5f061 0x3659 0 0; Mem32 0x6caa1851062721cf 0x9fa83 0 0;
    Mem32 0xf33a76e0212f3501 0x1d4fe20 0 0; Mem32 0xa7bbd32617aabb2f 0x561aa80c 0 0;
    Mem32 0xcb7bc3fe58585da1 0xfcee4da52 0 0; Mem32 0x5bb8fbb23839308f 0x2e6fc041533 0 0;
    Mem32 0xd6f635b8527fea41 0x886844bfe46d 0 0; Mem32 0x7733dcd7257c01ef 0x190b249f3af02a 0 0;
    Mem32 0xe2858b7fe1c45ae1 0x4990bb93bd217cb 0 0; Mem32 0x96849c7a730caf4f 0xd8192701fb925e6e 0 0;
    Mem32 0xa258ba7b1f542f81 0xac9e295d2fdf564d 0x27 0; Mem32 0xce4a3c9ac074b8af 0xb109981bca00d840 0x748 0;
    Mem32 0xdfa12069556de821 0x80c2ed1a1627b3e5 0x15658 0];
   [Mem32 0x30 0 0 0; Mem32 0x900 0 0 0; Mem32 0x1b000 0 0 0; Mem32 0x510000 0 0 0; Mem32 0xf300000 0 0 0;
    Mem32 0x2d9000000 0 0 0; Mem32 0x88b0000000 0 0 0; Mem32 0x19a100000000 0 0 0; Mem32 0x4ce3000000000 0 0 0;
    Mem32 0xe6a90000000000 0 0 0; Mem32 0x2b3fb00000000000 0 0 0; Mem32 0x1bf1000000000000 8 0 0;
    Mem32 0x3d30000000000000 0x185 0 0; Mem32 0x7900000000000000 0x48fb 0 0; Mem32 0xb000000000000000 0xdaf26 0 0;
    Mem32 0 0x290d741 0 0; Mem32 0 0x7b285c30 0 0; Mem32 0 0x1717914900 0 0; Mem32 0 0x4546b3db000 0 0;
    Mem32 0 0xcfd41b910000 0 0; Mem32 0 0x26f7c52b300000 0 0; Mem32 0 0x74e74f819000000 0 0;
    Mem32 0 0x5eb5ee84b0000000 1 0; Mem32 0 0xc21cb8e100000000 0x41 0; Mem32 0 0x6562aa3000000000 0xc54 0;
    Mem32 0 0x27fe90000000000 0x24fd3 0];
   [Mem32 0x31 0 0 0; Mem32 0x961 0 0 0; Mem32 0x1cb91 0 0 0; Mem32 0x57f6c1 0 0 0; Mem32 0x10d63af1 0 0 0;
    Mem32 0x339014821 0 0 0; Mem32 0x9de93ece51 0 0 0; Mem32 0x1e39a5057d81 0 0 0; Mem32 0x5c908960d05b1 0 0 0;
    Mem32 0x11b7aa4b87e16e1 0 0 0; Mem32 0x3642798750226111 0 0 0; Mem32 0x62b942e656949441 0xa 0 0;
    Mem32 0xe575ce1692706071 0x1fc 0 0; Mem32 0xeb8c7252078275a1 0x6167 0 0; Mem32 0x15e1e1b36ff883d1 0x12a4e4 0 0;
    Mem32 0x303c33586e913b01 0x3918fa8 0 0; Mem32 0x3b85d3ed29cc4b31 0xaedc7f31 0 0;
    Mem32 0x649d9065001a6461 0x217834586c 0 0; Mem32 0x4228a355050d3691 0x6680204ecbf 0 0;
    Mem32 0xa9c74345f78771c1 0x139e862f1509b 0 0; Mem32 0x7f23e06460ecc5f1 0x3c157af0306dcb 0 0;
    Mem32 0x55ddf3368d51e321 0xb801c87f94503f3 0 0; Mem32 0x6f7b8d710cac7951 0x33857606b635c193 2 0;
    Mem32 0x56a612a36d033881 0xdc8b9748e04a0d38 0x6b 0; Mem32 0x95c99147dd9dd0b1 0x36b7f4f2ee2c87c8 0x14a5 0;
    Mem32 0xab94cec16b34f1e1 0x7935e27f9685fd64 0x3f39f 0];
   [Mem32 0x32 0 0 0; Mem32 0x9c4 0 0 0; Mem32 0x1e848 0 0 0; Mem32 0x5f5e10 0 0 0; Mem32 0x12a05f20 0 0 0;
    Mem32 0x3a3529440 0 0 0; Mem32 0xb5e620f480 0 0 0; Mem32 0x2386f26fc100 0 0 0; Mem32 0x6f05b59d3b200 0 0 0;
    Mem32 0x15af1d78b58c400 0 0 0; Mem32 0x43c33c1937564800 0 0 0; Mem32 0x3c21bcecceda1000 0xd 0 0;
    Mem32 0xbe96e64066972000 0x295 0 0; Mem32 0x3978f89409844000 0x813f 0 0; Mem32 0x39a08ce9dbd48000 0x193e59 0 0;
    Mem32 0x415b85acef810000 0x4ee2d6d 0 0; Mem32 0xc3e01bc6c7320000 0xf684df56 0 0;
    Mem32 0x41c56cd2e7c40000 0x3025f39ef2 0 0; Mem32 0xd88f413144480000 0x96769950b50 0 0;
    Mem32 0x4bfabb9f56100000 0x1d6329f1c35ca 0 0; Mem32 0xd6f8a51ecf200000 0x5bd5e313828182 0 0;
    Mem32 0xfc90400474400000 0x11efc659cf7d4b8d 0 0; Mem32 0x542c80deb4800000 0x80d4bd8a8678c1bb 3 0;
    Mem32 0x70b12b7f41000000 0x298d050e4395d696 0xaf 0; Mem32 0x29a7edab2000000 0x1d8afcc93343e962 0x2236 0;
    Mem32 0x822cc6b6c4000000 0xc5255f4c03439524 0x6ae91 0]].

(** The powers of 51 to 51 *)
Definition naturalPow_51 : list (list mem32) :=
  [[Mem32 0x33 0 0 0; Mem32 0xa29 0 0 0; Mem32 0x2062b 0 0 0; Mem32 0x673a91 0 0 0; Mem32 0x1490aae3 0 0 0;
    Mem32 0x418d20b39 0 0 0; Mem32 0xd0f1d83c5b 0 0 0; Mem32 0x29a02e140621 0 0 0; Mem32 0x84ae92dfd3893 0 0 0;
    Mem32 0x1a6ec7429724549 0 0 0; Mem32 0x54411b2441c3cd8b 0 0 0; Mem32 0xc8f868391a01f2b1 0x10 0 0;
    Mem32 0x97cc3602e635943 0x358 0 0; Mem32 0xe3daec293dcac859 0xaa89 0 0; Mem32 0x649d0c374f65e9bb 0x21f978 0 0;
    Mem32 0xb496f04d14d9041 0x6c4b2fc 0 0; Mem32 0x3fa11df5b273bcf3 0x1592fa836 0 0;
    Mem32 0xad18f7f28d0ea469 0x44c47e82ce 0 0; Mem32 0x7bf9655219eac0eb 0xdb325340f2c 0 0;
    Mem32 0xb2af2f5b29c46ed1 0x2bab0695f05dc 0 0; Mem32 0x98e66f29522213a3 0x8b3124fdee2af7 0 0;
    Mem32 0x75e8253b5cc9e979 0x1bbaca5e96728f53 0 0; Mem32 0x7d3f6ad37c39831b 0x863650d7f8d28da0 5 0;
    Mem32 0xf3a24821bf751e61 0xbcd21b0691f236f8 0x119 0; Mem32 0x89545eb924550d53 0x9ddb624f1340f398 0x3820 0;
    Mem32 0x5bcedee23cf1a789 0x72b495c0d5f08763 0xb2e7f 0]].

Definition naturalPowTable : list (list mem32) :=
  naturalPow_1 ++ naturalPow_6 ++ naturalPow_11 ++ naturalPow_16 ++
  naturalPow_21 ++ naturalPow_26 ++ naturalPow_31 ++ naturalPow_36 ++
  naturalPow_41 ++ naturalPow_46 ++ naturalPow_51.

Definition SCInverse : list mem32 :=
  [Mem32 0x1a17ca2895da543a 0xe5096a6aa2744012 0xae147ae147ae147a 0x2e147ae147ae147;
   Mem32 0xd6c1048e38e29734 0x703b6f3c1d4691b 0xfac687d6343eb1a2 0xd6343eb1a1f58d0;
   Mem32 0x8e8e2c645252d35c 0x656be09b9d9ede3a 0x5555555555555555 0xc55555555555555;
   Mem32 0xed7c29d21ba8e31c 0x624022dde9bf9fad 0xe4c415c9882b9310 0x882b9310572620a;
   Mem32 0x683b4fb698af7860 0x8017863313c72aac 0xbd37a6f4de9bd37a 0xcde9bd37a6f4de9;
   Mem32 0xa34117ad84d07dfd 0x26865663f298f3a7 0xc16c16c16c16c16c 0xc16c16c16c16c16;
   Mem32 0x5374c8120dbfc4d1 0x5d90b4396c6e5ad6 0x45d1745d1745d174 0x5d1745d1745d17;
   Mem32 0x61bd53ee3c7fb44e 0xcf9dcac28a50b45 0x82fa0be82fa0be83 0xe82fa0be82fa0be;
   Mem32 0x952a433f04647874 0xfa450432a0281211 0xcf3cf3cf3cf3cf3c 0x4f3cf3cf3cf3cf3;
   Mem32 0x9a59a82eec1dfaa0 0xf60eb453588e963f 0x1f3831f3831f3831 0x1f3831f3831f383;
   Mem32 0xcca6ee3fe9cbd33f 0xa8bb41f49c8d1e81 0x9999999999999999 0xb99999999999999;
   Mem32 0x58034cdd58e3eaf6 0xe2ecf1c57fb64a19 0x2df2df2df2df2df2 0x2df2df2df2df2df;
   Mem32 0x9ce4a4bb271a74e5 0x1c4d969773cae1f6 0x79435e50d79435e5 0xb5e50d79435e50d;
   Mem32 0x46be53ec5e4655b0 0x2785790fa89a5fef 0xacf914c1bacf914c 0x914c1bacf914c1b;
   Mem32 0xf60cc4d24ec72881 0x2af02d854681495b 0x71c71c71c71c71c7 0xb1c71c71c71c71c;
   Mem32 0x1b0a8c283d0c0fb3 0x9f3f015beec4a6fc 0xf8af8af8af8af8af 0xf8af8af8af8af8a;
   Mem32 0x72263ac7ddb7bf61 0x1844410f6603d440 0xf0f0f0f0f0f0f0f 0x70f0f0f0f0f0f0f;
   Mem32 0x6f4660181255066c 0x7cc0f04c909323c8 0x7c1f07c1f07c1f0 0x7c1f07c1f07c1f;
   Mem32 0x7dc2df7c1e86691d 0x342d70ac976b081 0 0x280000000000000;
   Mem32 0x72e45a0b4d3a8476 0xee73e2ad70a7324c 0xbdef7bdef7bdef7b 0xbdef7bdef7bdef7;
   Mem32 0x48d871f718bdd305 0x2f5a04a69a699f10 0x2222222222222222 0xa22222222222222;
   Mem32 0xacf858ead3f4130 0x20c4c698645b07a4 0x9611a7b9611a7b96 0xb9611a7b9611a7b;
   Mem32 0x5fbf64de8696b4ae 0x7767864bf03c1b1a 0xb6db6db6db6db6db 0x76db6db6db6db6d;
   Mem32 0x62af6f06d5bafe0e 0xd600eb729c074e96 0x97b425ed097b425e 0x425ed097b425ed0;
   Mem32 0x404f34c0555e071 0x54636aa83f916f26 0xc4ec4ec4ec4ec4ec 0x44ec4ec4ec4ec4e;
   Mem32 0x342f94512bb4a874 0xca12d4d544e88024 0x5c28f5c28f5c28f5 0x5c28f5c28f5c28f;
   Mem32 0xc509f5ae47afd2cb 0xb5f8c75898461f9e 0xaaaaaaaaaaaaaaaa 0x8aaaaaaaaaaaaaa;
   Mem32 0x78643c52d4691cd3 0xeb5012878496b882 0x7a6f4de9bd37a6f4 0x9bd37a6f4de9bd3;
   Mem32 0xa6e990241b7f89a2 0xbb216872d8dcb5ac 0x8ba2e8ba2e8ba2e8 0xba2e8ba2e8ba2e;
   Mem32 0x2a54867e08c8f0e8 0xf48a086540502423 0x9e79e79e79e79e79 0x9e79e79e79e79e7;
   Mem32 0x413b796576a1d291 0x3c978a0a9622a02d 0x3333333333333333 0x733333333333333;
   Mem32 0xe1b6e65bf13f15dd 0x23bc3350449e2716 0xf286bca1af286bca 0x6bca1af286bca1a;
   Mem32 0x9407268a40987d15 0x4101612bea0af5e1 0xe38e38e38e38e38e 0x638e38e38e38e38;
   Mem32 0xe44c758fbb6f7ec2 0x3088821ecc07a880 0x1e1e1e1e1e1e1e1e 0xe1e1e1e1e1e1e1e;
   Mem32 0xfb85bef83d0cd23a 0x685ae1592ed6102 0 0x500000000000000;
   Mem32 0x399e80d3d485d21d 0x49d50f6e91dba14a 0x4444444444444444 0x444444444444444;
   Mem32 0xbf7ec9bd0d2d695c 0xeecf0c97e0783634 0x6db6db6db6db6db6 0xedb6db6db6db6db;
   Mem32 0x809e6980aabc0e2 0xa8c6d5507f22de4c 0x89d89d89d89d89d8 0x89d89d89d89d89d;
   Mem32 0x320188423269d1a9 0x571294d28d94a267 0x5555555555555555 0x155555555555555;
   Mem32 0x4dd3204836ff1344 0x7642d0e5b1b96b59 0x1745d1745d1745d1 0x1745d1745d1745d;
   Mem32 0x8276f2caed43a522 0x792f14152c45405a 0x6666666666666666 0xe66666666666666;
   Mem32 0x280e4d148130fa2a 0x8202c257d415ebc3 0xc71c71c71c71c71c 0xc71c71c71c71c71;
   Mem32 0xf70b7df07a19a474 0xd0b5c2b25dac205 0 0xa00000000000000;
   Mem32 0x26eb305fbd64fecb 0xc8bf1f511df8cf93 0xdb6db6db6db6db6d 0xdb6db6db6db6db6;
   Mem32 0x6403108464d3a352 0xae2529a51b2944ce 0xaaaaaaaaaaaaaaaa 0x2aaaaaaaaaaaaaa;
   Mem32 0xacdb827b7d917657 0xdd7f2e4bb592e3de 0xcccccccccccccccc 0xccccccccccccccc;
   Mem32 0x960498c6973d74fb 0x537be77a8bde735 0 0x400000000000000;
   Mem32 0xc8062108c9a746a4 0x5c4a534a3652899c 0x5555555555555555 0x555555555555555;
   Mem32 0x2c09318d2e7ae9f6 0xa6f7cef517bce6b 0 0x800000000000000;
   Mem32 0x5812631a5cf5d3ec 0x14def9dea2f79cd6 0 0x1000000000000000; Mem32 0 0 0 0; Mem32 1 0 0 0;
   Mem32 0x2c09318d2e7ae9f7 0xa6f7cef517bce6b 0 0x800000000000000;
   Mem32 0x900c4211934e8d49 0xb894a6946ca51339 0xaaaaaaaaaaaaaaaa 0xaaaaaaaaaaaaaaa;
   Mem32 0xc20dca53c5b85ef2 0xfa73b66fa39b5a0 0 0xc00000000000000;
   Mem32 0xab36e09edf645d96 0x375fcb92ed64b8f7 0x3333333333333333 0x333333333333333;
   Mem32 0xf40f5295f822309b 0x66b9d03987ce5807 0x5555555555555555 0xd55555555555555;
   Mem32 0x312732ba9f90d522 0x4c1fda8d84fecd43 0x2492492492492492 0x249249249249249;
   Mem32 0x6106e529e2dc2f79 0x7d39db37d1cdad0 0 0x600000000000000;
   Mem32 0x30041605dbc4d9c3 0x92dc3786cee1b113 0x38e38e38e38e38e3 0x38e38e38e38e38e;
   Mem32 0xd59b704f6fb22ecb 0x9bafe5c976b25c7b 0x9999999999999999 0x199999999999999;
   Mem32 0xa3f42d225f6c0a9 0x9e9c28f8f13e317d 0xe8ba2e8ba2e8ba2e 0xe8ba2e8ba2e8ba2;
   Mem32 0x2610dad82a8c0244 0xbdcc650c1562fa6f 0xaaaaaaaaaaaaaaaa 0xeaaaaaaaaaaaaaa;
   Mem32 0x50087c82524a130b 0x6c18248e23d4be8a 0x7627627627627627 0x762762762762762;
   Mem32 0x9893995d4fc86a91 0x260fed46c27f66a1 0x9249249249249249 0x124924924924924;
   Mem32 0x1e73e246887001d0 0xcb09ea70111bfb8c 0xbbbbbbbbbbbbbbbb 0xbbbbbbbbbbbbbbb;
   Mem32 0x5c8ca4221fe901b3 0xe594bc9100a3bd3 0 0xb00000000000000;
   Mem32 0x73c5ed8aa186552b 0xe45677bfd6eff455 0xe1e1e1e1e1e1e1e1 0x1e1e1e1e1e1e1e1;
   Mem32 0xc40b3c901c5d56d8 0xd3dd98b2b8eca6f4 0x1c71c71c71c71c71 0x9c71c71c71c71c7;
   Mem32 0x765b7cbe6bb6be10 0xf122c68e5e5975bf 0xd79435e50d79435 0x9435e50d79435e5;
   Mem32 0x16d6e9b4e654015c 0xd8476fd40cd4fca9 0xcccccccccccccccc 0x8cccccccccccccc;
   Mem32 0x2dbddc9c542ce305 0x2054f17962a778b3 0x6186186186186186 0x618618618618618;
   Mem32 0xb128d2f641764a4b 0x59bd916bca1ae729 0x745d1745d1745d17 0xf45d1745d1745d1;
   Mem32 0xdfae26c7888cb71a 0x298ee7571e60e453 0x8590b21642c8590b 0x642c8590b21642c;
   Mem32 0x93086d6c15460122 0x5ee632860ab17d37 0x5555555555555555 0x755555555555555;
   Mem32 0x23e2cec931412b79 0x4acc25095e0f1cb2 0xa3d70a3d70a3d70a 0xa3d70a3d70a3d70;
   Mem32 0x540d6fce579ff37c 0xc07b8f3663662db0 0x3b13b13b13b13b13 0xbb13b13b13b13b1;
   Mem32 0xf562f413873ad5df 0x3ede0e6c06f04e3f 0x684bda12f684bda1 0xbda12f684bda12f;
   Mem32 0xf852fe3bd65f1f3f 0x9d777392b2bb81bb 0x4924924924924924 0x892492492492492;
   Mem32 0x4d42dd8bafb692bd 0xf41a33463e9c9532 0x69ee58469ee58469 0x469ee58469ee584;
   Mem32 0xf39f123443800e8 0xe584f538088dfdc6 0xdddddddddddddddd 0x5dddddddddddddd;
   Mem32 0xe52e090f0fbb4f77 0x266b173132506a89 0x4210842108421084 0x421084210842108;
   Mem32 0xda4f839e3e6f6ad0 0x119c22d3d980ec54 0 0xd80000000000000;
   Mem32 0xe8cc03024aa0cd81 0x981e09921264790d 0xf83e0f83e0f83e0f 0xf83e0f83e0f83e0;
   Mem32 0xe5ec28527f3e148c 0xfc9ab8cf3cf3c895 0xf0f0f0f0f0f0f0f0 0x8f0f0f0f0f0f0f0;
   Mem32 0x3d07d6f21fe9c43a 0x759ff882b432f5da 0x750750750750750 0x75075075075075;
   Mem32 0x62059e480e2eab6c 0xe9eecc595c76537a 0x8e38e38e38e38e38 0x4e38e38e38e38e3;
   Mem32 0x11540f2dfeaf7e3d 0xed5980cefa5d3ce7 0x5306eb3e45306eb3 0x6eb3e45306eb3e4;
   Mem32 0xbb2dbe5f35db5f08 0xf89163472f2cbadf 0x86bca1af286bca1a 0x4a1af286bca1af2;
   Mem32 0xf163d0411e8f7 0x31f20819234152bd 0xd20d20d20d20d20d 0xd20d20d20d20d20;
   Mem32 0x8b6b74da732a00ae 0x6c23b7ea066a7e54 0x6666666666666666 0x466666666666666;
   Mem32 0xbdb8baeb70d7d94d 0x1ed0458b4a690696 0xe0c7ce0c7ce0c7ce 0xe0c7ce0c7ce0c7c;
   Mem32 0xc2e81fdb58915b79 0x1a99f5ac02cf8ac4 0x30c30c30c30c30c3 0xb0c30c30c30c30c;
   Mem32 0xf6550f2c20761f9f 0x7e51d327a529190 0x7d05f417d05f417d 0x17d05f417d05f41;
   Mem32 0x49d9b084f360f1c 0xb74e45a536894200 0xba2e8ba2e8ba2e8b 0xfa2e8ba2e8ba2e8;
   Mem32 0xb4d14b6cd82555f0 0xee58a37ab05ea92e 0x3e93e93e93e93e93 0x3e93e93e93e93e9;
   Mem32 0xefd71363c4465b8d 0x94c773ab8f307229 0x42c8590b21642c85 0x321642c8590b216;
   Mem32 0x6a963948414cf0d1 0xb29ed700b937fd28 0x1b3bea3677d46cef 0x77d46cefa8d9df5;
   Mem32 0xc98436b60aa30091 0xaf7319430558be9b 0xaaaaaaaaaaaaaaaa 0x3aaaaaaaaaaaaaa;
   Mem32 0x81515e8c24133cb9 0xddb42eae12333ba 0x5397829cbc14e5e 0x29cbc14e5e0a72f;
   Mem32 0x3dfa98f1c71b7fb3 0x2fd58f7400835cc4 0x51eb851eb851eb85 0xd1eb851eb851eb8].

(** [naturalPowTable[nX-1][i-1]]; a read outside the table is undefined. *)
Definition pow_at (nX i : Z) : outcome mem32 :=
  if (nX <? 1) || (i <? 1) then Undefined
  else
    match naturalPowTable !! Z.to_nat (nX - 1) ≫= lookup (Z.to_nat (i - 1)) with
    | Some m => Return m
    | None => Undefined
    end.

(** [*(SCInverseZero + a - b)] *)
Definition inverse_at (a b : Z) : outcome mem32 :=
  if 50 + a - b <? 0 then Undefined
  else match SCInverse !! Z.to_nat (50 + a - b) with Some m => Return m | None => Undefined end.

(** ** The constants *)

Definition is_scalar (m : mem32) (z : Z) : bool :=
  (val m =? z mod SC25519.L) && bool_decide (is_uint 64 (w0 m)) && bool_decide (is_uint 64 (w1 m)) &&
  bool_decide (is_uint 64 (w2 m)) && bool_decide (is_uint 64 (w3 m)).

Lemma is_scalar_spec m z : is_scalar m z = true -> SC25519.repr m (z mod SC25519.L).
Proof.
  unfold is_scalar. rewrite !andb_true_iff, !bool_decide_eq_true, Z.eqb_eq. intros ((((E & H0) & H1) & H2) & H3).
  split; [done|]. split; [done|]. by apply Z.mod_pos_bound.
Qed.

(** The powers of [x] from [p] on *)
Fixpoint powers_ok (x p : Z) (row : list mem32) : bool :=
  match row with
  | [] => true
  | m :: row => if is_scalar m p then powers_ok x ((p * x) mod SC25519.L) row else false
  end.

Fixpoint table_ok (x : Z) (table : list (list mem32)) : bool :=
  match table with
  | [] => true
  | row :: table =>
      if powers_ok x x row then if (length row =? 26)%nat then table_ok (x + 1) table else false else false
  end.

Fixpoint inverses_ok (d : Z) (table : list mem32) : bool :=
  match table with
  | [] => true
  | m :: table =>
      if is_scalar m (val m) && ((d =? 0) || ((val m * d) mod SC25519.L =? 1)) then inverses_ok (d + 1) table else false
  end.

Lemma powers_lookup x p row k m :
  powers_ok x p row = true -> row !! k = Some m -> SC25519.repr m ((p * x ^ Z.of_nat k) mod SC25519.L).
Proof.
  revert p k. induction row as [|m' row IH]; intros p k Hok Hk; [done|]. cbn [powers_ok] in Hok.
  destruct (is_scalar m' p) eqn:E; [|done]. destruct k as [|k]; cbn [lookup list_lookup] in Hk.
  - injection Hk as ->. rewrite Z.mul_1_r. by apply is_scalar_spec.
  - specialize (IH _ _ Hok Hk). rewrite Zmult_mod_idemp_l in IH.
    replace (p * x ^ Z.of_nat (S k)) with (p * x * x ^ Z.of_nat k); [done|].
    rewrite Nat2Z.inj_succ, Z.pow_succ_r by lia. ring.
Qed.

Lemma table_lookup x table i row :
  table_ok x table = true -> table !! i = Some row ->
  powers_ok (x + Z.of_nat i) (x + Z.of_nat i) row = true /\ length row = 26%nat.
Proof.
  revert x i. induction table as [|r table IH]; intros x i Hok Hi; [done|]. cbn [table_ok] in Hok.
  destruct (powers_ok x x r) eqn:E; [|done]. destruct (Nat.eqb_spec (length r) 26) as [El|]; [|done].
  destruct i as [|i]; cbn [lookup list_lookup] in Hi.
  - injection Hi as <-. by rewrite Z.add_0_r.
  - destruct (IH _ _ Hok Hi) as [Hp Hl]. split; [|done]. by replace (x + Z.of_nat (S i)) with (x + 1 + Z.of_nat i) by lia.
Qed.

Lemma inverses_lookup d table i m :
  inverses_ok d table = true -> table !! i = Some m ->
  SC25519.repr m (val m mod SC25519.L) /\ (d + Z.of_nat i <> 0 -> (val m * (d + Z.of_nat i)) mod SC25519.L = 1).
Proof.
  revert d i. induction table as [|r table IH]; intros d i Hok Hi; [done|]. cbn [inverses_ok] in Hok.
  destruct (is_scalar r (val r) && _) eqn:E; [|done]. apply andb_true_iff in E as [Er Ei].
  destruct i as [|i]; cbn [lookup list_lookup] in Hi.
  - injection Hi as <-. rewrite Z.add_0_r. split; [by apply is_scalar_spec|]. intros Hd.
    apply orb_true_iff in Ei as [Ei|Ei]; [by apply Z.eqb_eq in Ei|by apply Z.eqb_eq in Ei].
  - destruct (IH _ _ Hok Hi) as [Hr Hm]. split; [done|]. intros Hd.
    replace (d + Z.of_nat (S i)) with (d + 1 + Z.of_nat i) in * by lia. by apply Hm.
Qed.

Lemma naturalPowTable_ok : table_ok 1 naturalPowTable = true.
Proof. vm_compute. reflexivity. Qed.

Lemma SCInverse_ok : inverses_ok (-50) SCInverse = true.
Proof. vm_compute. reflexivity. Qed.

Lemma naturalPowTable_length : length naturalPowTable = 51%nat.
Proof. reflexivity. Qed.

Lemma SCInverse_length : length SCInverse = 101%nat.
Proof. reflexivity. Qed.

#[global] Opaque naturalPowTable SCInverse.

(** Entry [i-1] of row [nX-1] of [naturalPowTable] is [nX^i] modulo the
    group order, in canonical form, for every number up to 51 and every
    exponent up to 26, and there are no other entries. *)
Lemma pow_at_spec (nX i : Z) :
  1 <= nX <= 51 -> 1 <= i <= 26 ->
  exists m, pow_at nX i = Return m /\ SC25519.repr m ((nX ^ i) mod SC25519.L).
Proof.
  intros HX Hi. unfold pow_at. rewrite (proj2 (Z.ltb_ge nX 1)), (proj2 (Z.ltb_ge i 1)) by lia. cbn [orb].
  destruct (lookup_lt_is_Some_2 naturalPowTable (Z.to_nat (nX - 1))) as [row Hrow]; [rewrite naturalPowTable_length; lia|].
  rewrite Hrow. cbn [mbind option_bind]. destruct (table_lookup _ _ _ _ naturalPowTable_ok Hrow) as [Hp Hl].
  destruct (lookup_lt_is_Some_2 row (Z.to_nat (i - 1))) as [m Hm]; [lia|]. rewrite Hm. exists m. split; [done|].
  pose proof (powers_lookup _ _ _ _ _ Hp Hm) as H.
  replace (1 + Z.of_nat (Z.to_nat (nX - 1))) with nX in H by lia.
  rewrite <- Z.pow_succ_r in H by lia. by replace (Z.succ (Z.of_nat (Z.to_nat (i - 1)))) with i in H by lia.
Qed.

Lemma inverse_at_spec (a b : Z) :
  -50 <= a - b <= 50 ->
  exists m x, inverse_at a b = Return m /\ SC25519.repr m x /\ (a <> b -> (x * (a - b)) mod SC25519.L = 1).
Proof.
  intros Hd. unfold inverse_at. rewrite (proj2 (Z.ltb_ge _ 0)) by lia.
  destruct (lookup_lt_is_Some_2 SCInverse (Z.to_nat (50 + a - b))) as [m Hm]; [rewrite SCInverse_length; lia|].
  rewrite Hm. destruct (inverses_lookup _ _ _ _ SCInverse_ok Hm) as [Hr Hi].
  exists m, (val m mod SC25519.L). split; [done|]. split; [done|]. intros Hab.
  replace (-50 + Z.of_nat (Z.to_nat (50 + a - b))) with (a - b) in Hi by lia.
  rewrite Zmult_mod_idemp_l. apply Hi. lia.
Qed.

End Tables.
