(* ===== verification/Lagrange.v ===== *)
(** * Lagrange's formula at [0]

    A polynomial over the field of the integers modulo the group order is
    determined by its values at as many points as it has coefficients: its
    value at [0] is the sum of these values with the weights that
    src/mpvss/mpinterpolation.cpp computes. *)

From S2P Require Import Prelude Prime25519 FP25519.
From Stdlib Require Import Zdivisibility Zmod Field.

Module Lagrange.

Notation S25519 := (Zmod l25519).

Add Field S25519_field : (Zmod.field_theory l25519 l25519_prime).

#[local] Open Scope Zmod_scope.

Fixpoint evalF (f : list S25519) (x : S25519) : S25519 :=
  match f with [] => Zmod.zero | c :: g => c + x * evalF g x end.

(** A polynomial of one degree less *)
Lemma factor f a : exists g, length g = pred (length f) /\ forall x, evalF f x = evalF f a + (x - a) * evalF g x.
Proof.
  induction f as [|c f (g & Hl & Hg)]; [exists []; split; [done|]; intros x; cbn [evalF]; ring|].
  destruct f as [|d f]; [exists []; split; [done|]; intros x; cbn [evalF]; ring|].
  exists (evalF (d :: f) a :: g). split; [cbn [length] in *; lia|]. intros x. cbn [evalF] in *. rewrite (Hg x). ring.
Qed.

(** The product with [x - b] *)
Lemma linear_factor f b c :
  exists g, (length g <= S (length f))%nat /\ forall x, evalF g x = c * (x - b) * evalF f x.
Proof.
  assert (Hscale : forall k, exists g, length g = length f /\ forall x, evalF g x = k * evalF f x).
  { intros k. exists (map (Zmod.mul k) f). split; [apply length_map|]. intros x.
    induction f as [|d f IH]; cbn [evalF map]; [ring|]. rewrite IH. ring. }
  assert (Hadd : forall g h : list S25519, exists k, length k = Nat.max (length g) (length h) /\
    forall x, evalF k x = evalF g x + evalF h x).
  { induction g as [|u g IH]; intros h; [exists h; split; [done|]; intros x; cbn [evalF]; ring|].
    destruct h as [|v h]; [exists (u :: g); split; [done|]; intros x; cbn [evalF]; ring|].
    destruct (IH h) as (k & Hl & Hk). exists (u + v :: k). split; [cbn [length]; lia|].
    intros x. cbn [evalF]. rewrite Hk. ring. }
  destruct (Hscale c) as (g & Hg & Eg). destruct (Hscale (Zmod.opp (c * b))) as (h & Hh & Eh).
  destruct (Hadd (Zmod.zero :: g) h) as (k & Hk & Ek). exists k. split; [cbn [length] in *; lia|].
  intros x. rewrite Ek. cbn [evalF]. rewrite Eg, Eh. ring.
Qed.

(** [y / (y - x)] over the other points [y] *)
Definition weight (x y : S25519) : S25519 := if decide (y = x) then Zmod.one else Zmod.mdiv y (y - x).

Definition lag (x : S25519) (pts : list S25519) : S25519 := foldr (fun y w => weight x y * w) Zmod.one pts.

Definition total (f : S25519 -> S25519) (all pts : list S25519) : S25519 :=
  foldr (fun x s => f x * lag x all + s) Zmod.zero pts.

Lemma sub_nz (x y : S25519) : x <> y -> x - y <> Zmod.zero.
Proof. intros Hne E. apply Hne. trans (x - y + y); [ring|]. rewrite E. ring. Qed.

Lemma total_ext f g all pts : (forall x, x ∈ pts -> f x = g x) -> total f all pts = total g all pts.
Proof.
  intros H. induction pts as [|x pts IH]; [done|]. cbn [total foldr]. rewrite (H x) by left.
  f_equal. apply IH. intros y Hy. apply H. by right.
Qed.

Lemma total_linear f g all pts c : total (fun x => c * f x + g x) all pts = c * total f all pts + total g all pts.
Proof. unfold total. induction pts as [|x pts IH]; cbn [foldr]; [ring|]. rewrite IH. ring. Qed.

Lemma total_scale f all pts c : total (fun x => c * f x) all pts = c * total f all pts.
Proof. unfold total. induction pts as [|x pts IH]; cbn [foldr]; [ring|]. rewrite IH. ring. Qed.

(** One more point [a] *)
Lemma total_cons f a xs pts :
  a ∉ pts -> total f (a :: xs) pts = total (fun x => f x * Zmod.mdiv a (a - x)) xs pts.
Proof.
  intros Ha. unfold total. induction pts as [|x pts IH]; [done|]. cbn [foldr]. rewrite IH by (intros H; apply Ha; by right).
  f_equal. unfold lag. cbn [foldr]. unfold weight at 1. rewrite decide_False by (intros ->; apply Ha; left). ring.
Qed.

(** The values of a polynomial [f] at the points after [a], by a polynomial
    [g] of one degree less *)
Lemma total_step f g a xs :
  a ∉ xs -> (forall x, evalF f x = evalF f a + (x - a) * evalF g x) ->
  total (evalF f) (a :: xs) xs =
    evalF f a * total (fun x => Zmod.mdiv a (a - x)) xs xs - a * total (evalF g) xs xs.
Proof.
  intros Ha Hf. rewrite total_cons by done.
  trans (total (fun x => evalF f a * Zmod.mdiv a (a - x) + Zmod.opp a * evalF g x) xs xs).
  - apply total_ext. intros x Hx. assert (a - x <> Zmod.zero) by (apply sub_nz; intros ->; done).
    rewrite (Hf x). field. done.
  - rewrite total_linear, total_scale. ring.
Qed.

(** The polynomial that is [1] at [a] and [0] at the other points *)
Lemma basis_poly a xs :
  a ∉ xs -> exists p, (length p <= S (length xs))%nat /\ evalF p a = Zmod.one /\
    (forall x, x ∈ xs -> evalF p x = Zmod.zero) /\ evalF p Zmod.zero = lag a xs.
Proof.
  induction xs as [|y xs IH]; intros Ha.
  - exists [Zmod.one]. cbn [evalF lag foldr length]. split_and!; [lia|ring| |ring]. intros x Hx. by apply elem_of_nil in Hx.
  - apply not_elem_of_cons in Ha as [Hay Ha]. destruct (IH Ha) as (p & Hl & H1 & H0 & Hz).
    destruct (linear_factor p y (Zmod.inv (a - y))) as (q & Hlq & Hq). exists q.
    assert (Hd : a - y <> Zmod.zero) by (by apply sub_nz).
    assert (Hd' : y - a <> Zmod.zero) by (apply sub_nz; congruence).
    split_and!; [cbn [length]; lia|rewrite Hq, H1; field; done| |].
    + intros x Hx. rewrite Hq. apply elem_of_cons in Hx as [->|Hx]; [ring|]. rewrite (H0 x Hx). ring.
    + rewrite Hq, Hz. unfold lag. cbn [foldr]. unfold weight at 2. rewrite decide_False by congruence. field. done.
Qed.

Lemma evalF_at_0 f g a :
  (forall x, evalF f x = evalF f a + (x - a) * evalF g x) -> evalF f Zmod.zero = evalF f a - a * evalF g Zmod.zero.
Proof. intros H. rewrite (H Zmod.zero). ring. Qed.

(** The sum of the weighted values at the points is the value at [0]. *)
Lemma lagrange_at_0 pts f :
  NoDup pts -> (length f <= length pts)%nat -> total (evalF f) pts pts = evalF f Zmod.zero.
Proof.
  intros Hnd. revert f. induction Hnd as [|a xs Ha Hnd IH]; intros f Hl.
  { destruct f; [done|simpl in Hl; lia]. }
  assert (Hstep : forall f, (length f <= S (length xs))%nat ->
    total (evalF f) (a :: xs) xs = evalF f a * total (fun x => Zmod.mdiv a (a - x)) xs xs - (evalF f a - evalF f Zmod.zero)).
  { intros h Hh. destruct (factor h a) as (g & Hlg & Hg). rewrite (total_step h g a xs Ha Hg).
    rewrite (IH g), (evalF_at_0 h g a Hg) by lia. ring. }
  destruct (basis_poly a xs Ha) as (p & Hlp & Hp1 & Hp0 & Hpz).
  assert (HT : total (fun x => Zmod.mdiv a (a - x)) xs xs = Zmod.one - lag a xs).
  { pose proof (Hstep p Hlp) as E. rewrite Hp1, Hpz in E.
    rewrite (total_ext _ (fun x => Zmod.zero * evalF p x)) in E by (intros x Hx; rewrite (Hp0 x Hx); ring).
    rewrite total_scale in E. revert E. generalize (total (evalF p) (a :: xs) xs) (total (fun x => Zmod.mdiv a (a - x)) xs xs).
    intros u t E. trans (Zmod.one * t - (Zmod.one - lag a xs) + (Zmod.one - lag a xs)); [ring|]. rewrite <- E. ring. }
  cbn [total foldr]. change (foldr _ _ xs) with (total (evalF f) (a :: xs) xs). rewrite (Hstep f Hl), HT.
  assert (lag a (a :: xs) = lag a xs) as ->.
  { unfold lag. cbn [foldr]. unfold weight at 1. rewrite decide_True by done. ring. }
  ring.
Qed.

End Lagrange.
