(* ===== verification/Interpolation.v ===== *)
(** * Interpolation of shares (src/mpvss/mpinterpolation.cpp)

    [MPLagrange] and [MPNewton] compute the value at [0] of the polynomial
    through the shares, modulo the group order.  A share is a pair of an index
    and a value; a [uint256] is a [Z]. *)

From S2P Require Import Prelude Stream Base25519 SC25519 Prime25519 FP25519 Tables Lagrange.
From Stdlib Require Import Zdivisibility Zmod Field.

Module Interpolation.
Import base25519 Tables.

(** [CSC25519(v.begin())] *)
Definition sc (v : Z) : mem32 := SC25519.Unpack (of_Z v).

Definition sc_u64 (u : Z) : mem32 := Copy32_u64 u.

(** The product over the other shares, [i] the index of this one and [j] that
    of the first of [rest] *)
Fixpoint lagrange_term (i j : nat) (xi : Z) (rest : list (Z * Z)) (l : mem32) : outcome mem32 :=
  match rest with
  | [] => Return l
  | (xj, _) :: rest =>
      if (i =? j)%nat then lagrange_term i (S j) xi rest l
      else
        inv ← inverse_at xj xi;
        lagrange_term i (S j) xi rest (SC25519.mul l (SC25519.mul_u32 inv xj))
  end.

Fixpoint lagrange_loop (vShare rest : list (Z * Z)) (i : nat) (s0 : mem32) : outcome mem32 :=
  match rest with
  | [] => Return s0
  | (xi, yi) :: rest =>
      l ← lagrange_term i 0 xi vShare (sc_u64 1);
      lagrange_loop vShare rest (S i) (SC25519.add s0 (SC25519.mul l (sc yi)))
  end.

Definition MPLagrange (vShare : list (Z * Z)) : outcome Z :=
  s0 ← lagrange_loop vShare vShare 0 Zero32;
  Return (val s0).

(** The entries of [vDiff] from the one whose value is [v] on: [prev] are the
    entries of the row before with the same column and [xs] the indices of the
    shares before, the last first. *)
Fixpoint diff_row (xi : Z) (prev : list mem32) (xs : list Z) (v : mem32) : outcome (list mem32) :=
  match prev, xs with
  | p :: prev, x :: xs =>
      inv ← inverse_at xi x;
      rest ← diff_row xi prev xs (SC25519.mul (SC25519.sub v p) inv);
      Return (v :: rest)
  | _, _ => Return [v]
  end.

(** [prev] is the row of the share before, [xs] the indices of the shares
    before, the last first. *)
Fixpoint newton_loop (vShare : list (Z * Z)) (prev : list mem32) (xs : list Z) (basis s0 : mem32) : outcome mem32 :=
  match vShare with
  | [] => Return s0
  | (xi, yi) :: vShare =>
      vDiff ← diff_row xi prev xs (sc yi);
      newton_loop vShare vDiff (xi :: xs) (SC25519.Negative (SC25519.mul_u32 basis xi))
        (SC25519.add s0 (SC25519.mul basis (default Zero32 (last vDiff))))
  end.

Definition MPNewton (vShare : list (Z * Z)) : outcome Z :=
  s0 ← newton_loop vShare [] [] (sc_u64 1) Zero32;
  Return (val s0).

(** ** Polynomials *)

Fixpoint eval (f : list Z) (x : Z) : Z :=
  match f with [] => 0 | c :: g => c + x * eval g x end.

(** The quotient of [f(x) - f(a)] by [x - a], of one degree less *)
Fixpoint quot (f : list Z) (a : Z) : list Z :=
  match f with
  | c :: g => match g with [] => [] | _ => eval g a :: quot g a end
  | [] => []
  end.

Lemma quot_cons c g a x : eval (quot (c :: g) a) x = eval g a + x * eval (quot g a) x.
Proof. destruct g; cbn [eval quot]; ring. Qed.

Lemma quot_spec f a x : eval f x - eval f a = (x - a) * eval (quot f a) x.
Proof. induction f as [|c g IH]; [cbn; ring|]. rewrite quot_cons. cbn [eval]. nia. Qed.

Lemma quot_sym f a b : eval (quot f a) b = eval (quot f b) a.
Proof.
  induction f as [|c g IH]; [done|]. rewrite !quot_cons. pose proof (quot_spec g a b). rewrite IH in *. nia.
Qed.

Lemma length_quot f a : length (quot f a) = pred (length f).
Proof. induction f as [|c [|d g] IH]; [done|done|]. cbn [quot length] in *. by rewrite IH. Qed.

Lemma quot_comm f a b : quot (quot f a) b = quot (quot f b) a.
Proof.
  induction f as [|c g IH]; [done|]. destruct g as [|d g]; [done|].
  cbn [quot] in *. destruct g as [|e g]; [done|]. cbn [quot] in *. f_equal; [|by rewrite IH].
  change (eval (quot (d :: e :: g) a) b = eval (quot (d :: e :: g) b) a). apply quot_sym.
Qed.

(** The divided difference of [f] at the points [xs] and [x] *)
Definition quots (f : list Z) (xs : list Z) : list Z := foldr (fun a f => quot f a) f xs.

Definition ddiff (f : list Z) (xs : list Z) (x : Z) : Z := eval (quots f xs) x.

Lemma quots_snoc f xs a : quots f (xs ++ [a]) = quot (quots f xs) a.
Proof.
  unfold quots. rewrite foldr_app. cbn [foldr]. induction xs as [|b xs IH]; [done|]. cbn [foldr].
  by rewrite IH, quot_comm.
Qed.

Lemma length_quots f xs : length (quots f xs) = (length f - length xs)%nat.
Proof. induction xs as [|a xs IH]; cbn [quots foldr length] in *; [lia|]. unfold quots in IH. rewrite length_quot. lia. Qed.

(** The recursion of the table: [a] is the oldest point, [b] the youngest. *)
Lemma ddiff_step f xs a b x :
  ddiff f (b :: xs) x - ddiff f (xs ++ [a]) b = (x - a) * ddiff f (b :: xs ++ [a]) x.
Proof.
  unfold ddiff. change (b :: xs ++ [a]) with ((b :: xs) ++ [a]). rewrite !quots_snoc.
  rewrite <- (quot_spec (quots f (b :: xs)) a x). f_equal. exact (quot_sym (quots f xs) a b).
Qed.

(** ** The table of [MPNewton] *)

#[local] Notation "x ≡L y" := (x mod SC25519.L = y mod SC25519.L) (at level 70).

(** The row of the share [b]: its entry [j] is the divided difference at [b] and
    the [j] shares before, [xs] the shares before, the last first. *)
Definition row_ok (f : list Z) (xs : list Z) (b : Z) (row : list mem32) : Prop :=
  length row = S (length xs) /\
  forall j m, row !! j = Some m -> SC25519.repr m (ddiff f (take j xs) b mod SC25519.L).

(** Two points that the table of inverses can tell apart *)
Definition near (a b : Z) : Prop := -50 <= a - b <= 50 /\ a <> b.

Lemma ddiff_next f p T j a x :
  (p :: T) !! j = Some a ->
  ddiff f (take j (p :: T)) x - ddiff f (take j T) p = (x - a) * ddiff f (take (S j) (p :: T)) x.
Proof.
  intros Hj. destruct j as [|j].
  - injection Hj as <-. cbn [take firstn]. apply quot_spec.
  - cbn [lookup list_lookup] in Hj. cbn [firstn take]. rewrite (take_S_r T j a Hj). apply ddiff_step.
Qed.

Lemma divide_mod d e i x :
  (i * d) mod SC25519.L = 1 -> x = d * e -> (x mod SC25519.L * i) mod SC25519.L = e mod SC25519.L.
Proof.
  intros Hi ->. rewrite Zmult_mod_idemp_l. replace (d * e * i) with ((i * d) * e) by ring.
  rewrite <- Zmult_mod_idemp_l, Hi. f_equal. ring.
Qed.

Lemma diff_row_spec f p T x prev k v :
  row_ok f T p prev -> (forall a, a ∈ p :: T -> near x a) -> (k <= length (p :: T))%nat ->
  SC25519.repr v (ddiff f (take k (p :: T)) x mod SC25519.L) ->
  exists row, diff_row x (drop k prev) (drop k (p :: T)) v = Return row /\
    length row = S (length (p :: T) - k) /\
    forall j m, row !! j = Some m -> SC25519.repr m (ddiff f (take (k + j) (p :: T)) x mod SC25519.L).
Proof.
  intros [Hl Hp] Hnear. remember (length (p :: T) - k)%nat as n eqn:En. revert k v En.
  induction n as [|n IH]; intros k v En Hk Hv.
  { rewrite !drop_ge by (cbn [length] in *; lia). exists [v]. split; [done|]. split; [done|].
    intros [|j] m Hj; [|done]. injection Hj as <-. by rewrite Nat.add_0_r. }
  destruct (lookup_lt_is_Some_2 (p :: T) k) as [a Ha]; [lia|].
  destruct (lookup_lt_is_Some_2 prev k) as [q Hq]; [cbn [length] in *; lia|].
  rewrite (drop_S _ _ _ Ha), (drop_S _ _ _ Hq). cbn [diff_row].
  destruct (Hnear a) as [Hd Hne]; [by eapply list_elem_of_lookup_2|].
  destruct (inverse_at_spec x a Hd) as (inv & i & -> & Hinv & Hi). cbn [mbind outcome_bind].
  pose proof (SC25519.mul_spec _ _ _ _ (SC25519.sub_spec _ _ _ _ Hv (Hp _ _ Hq)) Hinv) as Hm.
  rewrite <- Zminus_mod, (divide_mod (x - a) _ _ _ (Hi Hne) (ddiff_next f p T k a x Ha)) in Hm.
  destruct (IH (S k) _ ltac:(lia) ltac:(lia) Hm) as (row & -> & Hlr & Hr). exists (v :: row).
  split; [done|]. split; [cbn [length]; lia|]. intros [|j] m Hj.
  - injection Hj as <-. by rewrite Nat.add_0_r.
  - rewrite <- Nat.add_succ_comm. by apply Hr.
Qed.

Lemma sc_spec y : is_uint 256 y -> SC25519.repr (sc y) (y mod SC25519.L).
Proof. intros Hy. pose proof (SC25519.Unpack_spec (of_Z y) (of_Z_wf y)) as H. by rewrite of_Z_val in H. Qed.

(** The row of the next share *)
Lemma next_row f xs x prev y :
  match xs with [] => prev = [] | p :: T => row_ok f T p prev end ->
  (forall a, a ∈ xs -> near x a) -> is_uint 256 y -> y ≡L eval f x ->
  exists row, diff_row x prev xs (sc y) = Return row /\ row_ok f xs x row.
Proof.
  intros Hprev Hnear Hr Hy. pose proof (sc_spec y Hr) as Hsc. rewrite Hy in Hsc. destruct xs as [|p T].
  - subst prev. exists [sc y]. split; [done|]. split; [done|]. intros [|j] m Hj; [|done]. by injection Hj as <-.
  - exact (diff_row_spec f p T x prev 0 (sc y) Hprev Hnear (Nat.le_0_l _) Hsc).
Qed.

Lemma Negative_spec a x : SC25519.repr a x -> x <> 0 -> SC25519.repr (SC25519.Negative a) ((- x) mod SC25519.L).
Proof.
  intros (Hw & E & Hx) Hne. destruct SC25519.prime_val as [Hp Ep].
  destruct (Sub32_spec SC25519.prime a Hp Hw) as (Hw' & Hc & Ev). unfold SC25519.Negative.
  pose proof (mem32_val_range _ Hw'). rewrite Ep, E in Ev.
  assert (Ex : (- x) mod SC25519.L = SC25519.L - x).
  { symmetry. apply (Z.mod_unique _ _ (-1)); lia. }
  rewrite Ex. split; [done|]. split; [|lia].
  unfold is_uint, SC25519.L in *. destruct (Sub32 _ _) as [r c]. cbn [fst snd] in *. lia.
Qed.

Lemma mul_nonzero x y : 0 < x < SC25519.L -> 0 < y < SC25519.L -> (x * y) mod SC25519.L <> 0.
Proof.
  intros Hx Hy E. apply Z.mod_divide in E; [|lia]. apply Z.divide_prime_mul in E; [|exact l25519_prime].
  destruct E as [E|E]; apply Z.divide_pos_le in E; lia.
Qed.

(** The next basis polynomial at [0] *)
Lemma next_basis basis b x :
  SC25519.repr basis b -> b <> 0 -> 1 <= x -> is_uint 32 x ->
  exists b', SC25519.repr (SC25519.Negative (SC25519.mul_u32 basis x)) b' /\ b' <> 0 /\ b' ≡L (- (b * x)).
Proof.
  intros Hb Hne Hx Hu. pose proof (SC25519.mul_u32_spec _ _ _ Hb Hu) as Hm.
  destruct Hb as (_ & _ & Hr). unfold is_uint in Hu.
  assert (Hz : (b * x) mod SC25519.L <> 0) by (apply mul_nonzero; [lia|unfold SC25519.L in *; lia]).
  exists ((- ((b * x) mod SC25519.L)) mod SC25519.L). split; [by apply Negative_spec|].
  assert (0 < SC25519.L) by done. pose proof (Z.mod_pos_bound (b * x) SC25519.L H).
  split; [rewrite Z_mod_nz_opp_full; rewrite ?Z.mod_mod; lia|].
  rewrite Z.mod_mod by lia. rewrite <- !(Z.sub_0_l (_ * _)), <- (Z.sub_0_l (_ mod _)). apply Zminus_mod_idemp_r.
Qed.

(** A share of [f]; the value need not be reduced. *)
Definition share_of (f : list Z) (share : Z * Z) : Prop :=
  1 <= share.1 <= 51 /\ is_uint 256 share.2 /\ share.2 ≡L eval f share.1.

Lemma near_index a b : 1 <= a <= 51 -> 1 <= b <= 51 -> a <> b -> near a b.
Proof. unfold near. lia. Qed.

Lemma newton_loop_spec f vShare xs prev basis b s0 s :
  Forall (share_of f) vShare -> NoDup (vShare.*1 ++ xs) -> Forall (fun x => 1 <= x <= 51) xs ->
  match xs with [] => prev = [] | p :: T => row_ok f T p prev end ->
  SC25519.repr basis b -> b <> 0 -> SC25519.repr s0 s -> (length f <= length vShare + length xs)%nat ->
  (s + b * ddiff f xs 0) ≡L eval f 0 ->
  exists r, newton_loop vShare prev xs basis s0 = Return r /\ SC25519.repr r (eval f 0 mod SC25519.L).
Proof.
  revert xs prev basis b s0 s. induction vShare as [|[x y] vShare IH];
    intros xs prev basis b s0 s Hsh Hnd Hxs Hprev Hb Hb0 Hs Hlen Hinv.
  - exists s0. split; [done|]. rewrite <- Hinv. unfold ddiff.
    assert (quots f xs = []) as -> by (apply nil_length_inv; rewrite length_quots; simpl in Hlen; lia).
    cbn [eval]. rewrite Z.mul_0_r, Z.add_0_r, Z.mod_small by apply Hs. done.
  - inversion Hsh as [|? ? (Hx & Hy & Ey) Hsh']; subst. cbn [fst snd] in *.
    cbn [fmap list_fmap app] in Hnd. inversion Hnd as [|? ? Hnin Hnd']; subst. rewrite elem_of_app in Hnin.
    destruct (next_row f xs x prev y Hprev) as (row & Hrow & Hok); [|done|done|].
    { intros a Ha. rewrite Forall_forall in Hxs. apply near_index; [done|by apply Hxs|]. intros ->. tauto. }
    cbn [newton_loop]. rewrite Hrow. cbn [mbind outcome_bind].
    destruct (next_basis basis b x) as (b' & Hb' & Hb0' & Eb'); [done|done|lia|unfold is_uint; lia|].
    destruct (last row) as [m|] eqn:Hlast.
    2: { apply last_None in Hlast. subst row. by destruct Hok. }
    rewrite last_lookup in Hlast. destruct Hok as [Hl Hr]. rewrite Hl in Hlast. cbn [pred] in Hlast.
    pose proof (Hr _ _ Hlast) as Hm. rewrite take_ge in Hm by done. cbn [default].
    eapply (IH (x :: xs) row _ b'); [done|by rewrite <- Permutation_middle|by constructor|done|exact Hb'|exact Hb0'| |cbn [length] in *; lia|].
    { apply SC25519.add_spec; [exact Hs|]. apply SC25519.mul_spec; [exact Hb|exact Hm]. }
    rewrite <- Hinv. pose proof (quot_spec (quots f xs) x 0) as E.
    change (eval (quot (quots f xs) x) 0) with (ddiff f (x :: xs) 0) in E.
    change (eval (quots f xs) 0) with (ddiff f xs 0) in E. change (eval (quots f xs) x) with (ddiff f xs x) in E.
    rewrite Zplus_mod_idemp_l. rewrite Zmult_mod_idemp_r, <- Zplus_mod_idemp_l.
    rewrite Zplus_mod_idemp_r. rewrite Zplus_mod_idemp_l. rewrite <- Zplus_mod_idemp_r, <- Zmult_mod_idemp_l, Eb'.
    rewrite Zmult_mod_idemp_l, Zplus_mod_idemp_r. f_equal. nia.
Qed.

(** ** The weights of [MPLagrange] *)

Definition phi (z : Z) : Zmod l25519 := Zmod.of_Z l25519 z.

Add Field S25519_field' : (Zmod.field_theory l25519 l25519_prime).

Lemma phi_eq x y : phi x = phi y <-> x ≡L y.
Proof.
  unfold phi. split; intros E.
  - apply (f_equal Zmod.to_Z) in E. rewrite !Zmod.unsigned_of_Z in E. exact E.
  - apply Zmod.unsigned_inj. rewrite !Zmod.unsigned_of_Z. exact E.
Qed.

Lemma phi_mod x : phi (x mod SC25519.L) = phi x.
Proof. apply phi_eq, Z.mod_mod. done. Qed.

Lemma phi_add x y : phi (x + y) = (phi x + phi y)%Zmod.
Proof. apply Zmod.of_Z_add. Qed.

Lemma phi_mul x y : phi (x * y) = (phi x * phi y)%Zmod.
Proof. apply Zmod.of_Z_mul. Qed.

Lemma phi_sub x y : phi (x - y) = (phi x - phi y)%Zmod.
Proof. apply Zmod.of_Z_sub. Qed.

Lemma phi_eval f x : phi (eval f x) = Lagrange.evalF (map phi f) (phi x).
Proof.
  induction f as [|c f IH]; cbn [eval map Lagrange.evalF]; [apply Zmod.of_Z_0|]. by rewrite phi_add, phi_mul, IH.
Qed.

Lemma phi_index x y : 1 <= x <= 51 -> 1 <= y <= 51 -> phi x = phi y -> x = y.
Proof. intros Hx Hy E. apply phi_eq in E. rewrite !Z.mod_small in E by (unfold SC25519.L; lia). done. Qed.

Lemma one_repr : SC25519.repr (sc_u64 1) 1.
Proof. apply (is_scalar_spec _ 1). vm_compute. reflexivity. Qed.

Lemma weight_spec inv v x xi :
  SC25519.repr inv v -> (v * (x - xi)) mod SC25519.L = 1 -> 1 <= x <= 51 -> 1 <= xi <= 51 -> x <> xi ->
  exists w, SC25519.repr (SC25519.mul_u32 inv x) w /\ phi w = Lagrange.weight (phi xi) (phi x).
Proof.
  intros Hv Hi Hx Hxi Hne. exists ((v * x) mod SC25519.L). split; [apply SC25519.mul_u32_spec; [done|unfold is_uint; lia]|].
  rewrite phi_mod, phi_mul. unfold Lagrange.weight. rewrite decide_False by (intros E; apply Hne; by apply phi_index).
  assert (Hd : (phi x - phi xi)%Zmod <> Zmod.zero) by (apply Lagrange.sub_nz; intros E; apply Hne; by apply phi_index).
  assert (E1 : (phi v * (phi x - phi xi))%Zmod = Zmod.one).
  { rewrite <- phi_sub, <- phi_mul. change Zmod.one with (phi 1). apply phi_eq. rewrite Hi. reflexivity. }
  assert (Ev : phi v = Zmod.mdiv Zmod.one (phi x - phi xi)).
  { rewrite <- E1. field. exact Hd. }
  rewrite Ev. field. exact Hd.
Qed.

Lemma lagrange_term_spec i j xi rest l z :
  1 <= xi <= 51 -> Forall (fun s => 1 <= s.1 <= 51) rest ->
  (forall k x y, rest !! k = Some (x, y) -> i = (j + k)%nat <-> x = xi) -> SC25519.repr l z ->
  exists r w, lagrange_term i j xi rest l = Return r /\ SC25519.repr r w /\
    phi w = (phi z * Lagrange.lag (phi xi) (map phi rest.*1))%Zmod.
Proof.
  intros Hxi Hr. revert j l z. induction Hr as [|[x y] rest Hx Hr IH]; intros j l z Hij Hl.
  { exists l, z. split; [done|]. split; [done|]. cbn. ring. }
  cbn [fst] in Hx. pose proof (Hij 0%nat x y eq_refl) as H0. rewrite Nat.add_0_r in H0.
  assert (Hij' : forall k x y, rest !! k = Some (x, y) -> i = (S j + k)%nat <-> x = xi).
  { intros k u v Hk. rewrite <- (Hij (S k) u v Hk). lia. }
  cbn [lagrange_term map fmap list_fmap fst Lagrange.lag foldr].
  destruct (Nat.eqb_spec i j) as [Eij|Hne].
  - destruct (IH (S j) l z Hij' Hl) as (r & w & E & Hr' & Ew). exists r, w. split; [done|]. split; [done|].
    rewrite Ew, (proj1 H0 Eij). unfold Lagrange.lag, Lagrange.weight at 2. rewrite decide_True by done. ring.
  - assert (Hxne : x <> xi) by tauto.
    destruct (inverse_at_spec x xi) as (inv & v & -> & Hinv & Hi); [lia|]. cbn [mbind outcome_bind].
    destruct (weight_spec inv v x xi Hinv (Hi Hxne) Hx Hxi Hxne) as (w0 & Hw0 & Ew0).
    destruct (IH (S j) _ _ Hij' (SC25519.mul_spec _ _ _ _ Hl Hw0)) as (r & w & E & Hr' & Ew).
    exists r, w. split; [done|]. split; [done|]. rewrite Ew, phi_mod, phi_mul, Ew0. unfold Lagrange.lag. ring.
Qed.

Lemma lagrange_loop_spec f vShare done_ rest s0 s :
  vShare = done_ ++ rest -> NoDup vShare.*1 -> Forall (share_of f) vShare -> SC25519.repr s0 s ->
  exists r w, lagrange_loop vShare rest (length done_) s0 = Return r /\ SC25519.repr r w /\
    phi w = (phi s + Lagrange.total (Lagrange.evalF (map phi f)) (map phi vShare.*1) (map phi rest.*1))%Zmod.
Proof.
  intros Ev Hnd Hsh. revert done_ s0 s Ev. induction rest as [|[x y] rest IH]; intros done_ s0 s Ev Hs.
  { exists s0, s. split; [done|]. split; [done|]. cbn. ring. }
  assert (Hx : share_of f (x, y)) by (rewrite Forall_forall in Hsh; apply Hsh; rewrite Ev, elem_of_app; right; left).
  destruct Hx as (Hx & Hy & Ey). cbn [fst snd] in *. cbn [lagrange_loop].
  destruct (lagrange_term_spec (length done_) 0 x vShare (sc_u64 1) 1) as (l & z & -> & Hl & Ez); [done| | |apply one_repr|].
  { eapply Forall_impl; [exact Hsh|]. by intros s' [H _]. }
  { intros k u v Hk. cbn [Nat.add]. split.
    - intros <-. rewrite Ev, lookup_app_r, Nat.sub_diag in Hk by done. by injection Hk as <- <-.
    - intros ->. apply (NoDup_lookup vShare.*1 _ _ x Hnd); rewrite list_lookup_fmap, ?Hk; [|done].
      rewrite Ev, lookup_app_r, Nat.sub_diag by done. done. }
  cbn [mbind outcome_bind].
  destruct (IH (done_ ++ [(x, y)]) _ _ ltac:(by rewrite Ev, <- app_assoc)
    (SC25519.add_spec _ _ _ _ Hs (SC25519.mul_spec _ _ _ _ Hl (sc_spec y Hy)))) as (r & w & E & Hr & Ew).
  rewrite length_app, Nat.add_1_r in E. exists r, w. split; [done|]. split; [done|].
  rewrite Ew, phi_mod, phi_add, phi_mod, phi_mul, phi_mod, Ez. cbn [map fmap list_fmap fst Lagrange.total foldr].
  rewrite <- phi_eval. rewrite (proj2 (phi_eq _ _) Ey). change (phi 1) with (@Zmod.one l25519). unfold Lagrange.total. ring.
Qed.

(** Both give the value of the polynomial at [0]. *)
Lemma MPNewton_spec f vShare :
  Forall (share_of f) vShare -> NoDup vShare.*1 -> (length f <= length vShare)%nat ->
  MPNewton vShare = Return (eval f 0 mod SC25519.L).
Proof.
  intros Hsh Hnd Hl. unfold MPNewton.
  destruct (newton_loop_spec f vShare [] [] (sc_u64 1) 1 Zero32 0) as (r & -> & _ & Er & _);
    [done|by rewrite app_nil_r|constructor|done|apply one_repr|done|apply SC25519.zero_repr|cbn [length]; lia| |].
  - cbn [ddiff quots foldr]. f_equal. unfold ddiff, quots. cbn [foldr]. ring.
  - cbn [mbind outcome_bind]. by rewrite Er.
Qed.

Lemma MPLagrange_spec f vShare :
  Forall (share_of f) vShare -> NoDup vShare.*1 -> (length f <= length vShare)%nat ->
  MPLagrange vShare = Return (eval f 0 mod SC25519.L).
Proof.
  intros Hsh Hnd Hl. unfold MPLagrange.
  destruct (lagrange_loop_spec f vShare [] vShare Zero32 0) as (r & w & E & (_ & Er & Hr) & Ew);
    [done|done|done|apply SC25519.zero_repr|].
  cbn [length] in E. rewrite E. cbn [mbind outcome_bind]. f_equal. rewrite Er.
  rewrite Lagrange.lagrange_at_0 in Ew.
  - change Zmod.zero with (phi 0) in Ew. rewrite <- phi_eval, <- phi_add in Ew. apply phi_eq in Ew.
    rewrite Z.mod_small in Ew by done. by rewrite Ew.
  - apply NoDup_fmap_2_strong; [|done]. intros a b Ha Hb E'. rewrite Forall_forall in Hsh.
    apply list_elem_of_fmap in Ha as (sa & -> & Ha). apply list_elem_of_fmap in Hb as (sb & -> & Hb).
    apply phi_index; [by apply (Hsh sa)|by apply (Hsh sb)|done].
  - by rewrite !length_map.
Qed.

(** [MPNewton] reads only inside the table for indices up to 51. *)
Lemma diff_row_total x prev xs v :
  1 <= x <= 51 -> Forall (fun a => 1 <= a <= 51) xs -> exists row, diff_row x prev xs v = Return row.
Proof.
  intros Hx Hxs. revert prev v. induction Hxs as [|a xs Ha Hxs IH]; intros [|p prev] v; cbn [diff_row]; try by eexists.
  destruct (inverse_at_spec x a ltac:(lia)) as (inv & i & -> & _). cbn [mbind outcome_bind].
  destruct (IH prev (SC25519.mul (SC25519.sub v p) inv)) as [row ->]. by eexists.
Qed.

Lemma newton_loop_total vShare prev xs basis s0 :
  Forall (fun a => 1 <= a <= 51) vShare.*1 -> Forall (fun a => 1 <= a <= 51) xs ->
  exists r, newton_loop vShare prev xs basis s0 = Return r.
Proof.
  revert prev xs basis s0. induction vShare as [|[x y] vShare IH]; intros prev xs basis s0 Hv Hxs; cbn [newton_loop]; [by eexists|].
  cbn [fmap list_fmap fst] in Hv. inversion Hv as [|? ? Hx Hv']; subst.
  destruct (diff_row_total x prev xs (sc y) Hx Hxs) as [row ->]. cbn [mbind outcome_bind]. apply IH; [done|by constructor].
Qed.

Lemma MPNewton_total vShare : Forall (fun a => 1 <= a <= 51) vShare.*1 -> exists z, MPNewton vShare = Return z.
Proof.
  intros Hv. unfold MPNewton. destruct (newton_loop_total vShare [] [] (sc_u64 1) Zero32 Hv) as [r ->]; [constructor|by eexists].
Qed.

(** from at least as many shares as the polynomial has coefficients, with
    distinct indices up to 51, Newton's and Lagrange's formula both recover
    the secret, the value of the polynomial at [0] modulo the group order,
    whichever shares are used and in whatever order. *)
Theorem interpolation_recovers (f : list Z) (vShare : list (Z * Z)) :
  Forall (share_of f) vShare -> NoDup vShare.*1 -> (length f <= length vShare)%nat ->
  MPNewton vShare = Return (eval f 0 mod SC25519.L) /\ MPLagrange vShare = Return (eval f 0 mod SC25519.L).
Proof. intros Hsh Hnd Hl. split; [by apply MPNewton_spec|by apply MPLagrange_spec]. Qed.

Lemma interpolation_recovers_witness :
  MPNewton [(7, 1234 + 56 * 7 + 9 * 49); (2, 1234 + 56 * 2 + 9 * 4); (51, 1234 + 56 * 51 + 9 * 2601 + SC25519.L)] = Return 1234.
Proof.
  apply (interpolation_recovers [1234; 56; 9]).
  - repeat (apply Forall_cons_2; [split; [split; discriminate|split; [split; [discriminate|reflexivity]|reflexivity]]|]).
    apply Forall_nil_2.
  - apply (bool_decide_unpack _). exact I.
  - apply le_n.
Defined.

End Interpolation.
