(* ===== verification/MPBox.v ===== *)
(** * Boxes of the secret sharing (src/mpvss/mpbox.h, mpbox.cpp)

    An opened box holds the coefficients of a secret polynomial and a private
    key, a sealed box the multiples of the base point by them and a signature.
    A [uint256] is a [Z]; a read outside a vector or a table is [Undefined]. *)

From S2P Require Import Prelude Stream Base25519 SC25519 Prime25519 FP25519 FPInverse Edwards Order25519 Ed25519 Subgroup.
From S2P Require Import Tables Interpolation.
From Stdlib Require Import Zdivisibility Zmod.

Record CMPOpenedBox : Type := mkOpenedBox { vCoeff : list Z; nPrivKey : Z }.

Record CMPSealedBox : Type := mkSealedBox {
  vEncryptedCoeff : list Z;
  vEncryptedShare : list Z;
  nPubKey : Z;
  nR : Z;
  nS : Z;
}.

Module MPBox.
Import base25519 CEdwards25519 Tables.
Import Interpolation (sc, sc_spec, eval).

(** The bytes of a [uint256] *)
Definition bytes_of (z : Z) : list Z := FP25519.bytes (of_Z z).

Definition MPEccPubkey (s : Z) : Z := val (Pack (Generate (of_Z s))).

Definition MPEccPubkeyValidate (pubkey : Z) : bool :=
  if pubkey =? 0 then false
  else let '(ok, P) := Unpack (of_Z pubkey) in if ok then negb (eq_point P identity) else false.

Definition MPEccSign (key r hash : Z) : Z := val (SC25519.add (sc key) (SC25519.mul (sc r) (sc hash))).

Definition MPEccVerify (pubkey rG signature hash : Z) : bool :=
  let '(okP, P) := Unpack (of_Z pubkey) in
  if okP then
    let '(okR, R) := Unpack (of_Z rG) in
    if okR then eq_point (Generate (of_Z signature)) (Add P (ScalarMult (EdObj R []) (bytes_of hash)).1) else false
  else false.

Definition MPEccSharedKey (key other : Z) : Z :=
  let '(ok, P) := Unpack (of_Z other) in
  if ok then val (Pack (ScalarMult (EdObj P []) (bytes_of key)).1) else 0.

(** ** CMPOpenedBox *)

Definition Opened_IsNull (b : CMPOpenedBox) : bool :=
  match vCoeff b with [] => true | _ => nPrivKey b =? 0 end.

Definition Validate (b : CMPOpenedBox) : bool :=
  forallb (fun c => negb (c =? 0)) (vCoeff b) && match vCoeff b with [] => false | _ => true end.

Definition Opened_PubKey (b : CMPOpenedBox) : Z := MPEccPubkey (nPrivKey b).

Definition SharedKey (b : CMPOpenedBox) (pubkey : Z) : Z := MPEccSharedKey (nPrivKey b) pubkey.

(** The loop of [Polynomial] over the coefficients from number [i] on *)
Fixpoint polynomial_loop (nX i : Z) (coeffs : list Z) (f : mem32) : outcome mem32 :=
  match coeffs with
  | [] => Return f
  | c :: coeffs =>
      p ← pow_at nX i;
      polynomial_loop nX (i + 1) coeffs (SC25519.add f (SC25519.mul (sc c) p))
  end.

Definition Polynomial (b : CMPOpenedBox) (nThresh : nat) (nX : Z) : outcome Z :=
  if Opened_IsNull b || (length (vCoeff b) <? nThresh)%nat then Throw runtime_error
  else
    match vCoeff b with
    | [] => Undefined
    | c0 :: coeffs =>
        f ← polynomial_loop nX 1 (take (nThresh - 1) coeffs) (sc c0);
        Return (val f)
    end.

Definition Signature (b : CMPOpenedBox) (hash r : Z) : Z * Z :=
  (MPEccPubkey r, MPEccSign (nPrivKey b) r hash).

Definition Opened_VerifySignature (b : CMPOpenedBox) (hash nR nS : Z) : bool :=
  MPEccVerify (Opened_PubKey b) nR nS hash.

(** [MakeSealedBox]: the result and the box *)
Definition MakeSealedBox (b : CMPOpenedBox) (sealed : CMPSealedBox) (nIdent r : Z) : bool * CMPSealedBox :=
  if negb (Validate b) || (r =? 0) then (false, sealed)
  else
    let '(nR, nS) := Signature b nIdent r in
    (true, mkSealedBox (map MPEccPubkey (vCoeff b)) (vEncryptedShare sealed) (Opened_PubKey b) nR nS).

(** ** CMPSealedBox *)

(** The constructors *)
Definition sealed_null : CMPSealedBox := mkSealedBox [] [] 0 0 0.

Definition sealed_of (vEncryptedCoeffIn : list Z) (nPubKeyIn nRIn nSIn : Z) : CMPSealedBox :=
  mkSealedBox vEncryptedCoeffIn [] nPubKeyIn nRIn nSIn.

Definition Sealed_IsNull (b : CMPSealedBox) : bool :=
  match vEncryptedCoeff b with [] => true | _ => nPubKey b =? 0 end.

Definition Sealed_PubKey (b : CMPSealedBox) : outcome Z :=
  if Sealed_IsNull b then Throw runtime_error else Return (nPubKey b).

(** [PubKey()] does not throw after the test of [IsNull]. *)
Definition VerifyIdent (b : CMPSealedBox) (nIdent : Z) : bool :=
  if Sealed_IsNull b then false
  else if forallb MPEccPubkeyValidate (vEncryptedCoeff b) then MPEccVerify (nPubKey b) (nR b) (nS b) nIdent
  else false.

Definition Sealed_VerifySignature (b : CMPSealedBox) (hash nSignR nSignS : Z) : bool :=
  if Sealed_IsNull b then false else MPEccVerify (nPubKey b) nSignR nSignS hash.

Definition VerifyPolynomial (b : CMPSealedBox) (nX v : Z) : bool :=
  if Z.of_nat (length (vEncryptedShare b)) <=? nX then false
  else
    match vEncryptedShare b !! Z.to_nat nX with
    | Some share => share =? MPEccPubkey v
    | None => false
    end.

(** The points [vP] of the first coefficients; a coefficient that is not there
    is read outside the vector. *)
Definition unpack_coeffs (nThresh : nat) (b : CMPSealedBox) : outcome (list edobj) :=
  if (length (vEncryptedCoeff b) <? nThresh)%nat then Undefined
  else Return (map (fun c => EdObj (Unpack (of_Z c)).2 []) (take nThresh (vEncryptedCoeff b))).

(** [P += vP[i].ScalarMult(naturalPowTable[nX-1][i-1])] from number [i] on;
    the points keep the tables that [ScalarMult] fills. *)
Fixpoint share_loop (nX i : Z) (vP : list edobj) (P : ed) : outcome (ed * list edobj) :=
  match vP with
  | [] => Return (P, [])
  | o :: vP =>
      p ← pow_at nX i;
      let '(q, o) := ScalarMult o (FP25519.bytes p) in
      r ← share_loop nX (i + 1) vP (Add P q);
      Return (r.1, o :: r.2)
  end.

(** The encrypted shares of [nX], [nX + 1], ... *)
Fixpoint precalc_loop (n : nat) (nX : Z) (vP : list edobj) : outcome (list Z) :=
  match n with
  | O => Return []
  | S n =>
      match vP with
      | [] => Undefined
      | o :: vP =>
          r ← share_loop nX 1 vP (pt o);
          rest ← precalc_loop n (nX + 1) (o :: r.2);
          Return (val (Pack r.1) :: rest)
      end
  end.

(** Entry [0] of the resized vector is what it was before. *)
Definition PrecalcPolynomial (b : CMPSealedBox) (nThresh nLastIndex : nat) : outcome CMPSealedBox :=
  vP ← unpack_coeffs nThresh b;
  shares ← precalc_loop (nLastIndex - 1) 1 vP;
  Return (mkSealedBox (vEncryptedCoeff b)
    (match nLastIndex with O => [] | S _ => nth 0 (vEncryptedShare b) 0 :: shares end) (nPubKey b) (nR b) (nS b)).

(** ** Keys and signatures *)

#[local] Notation "x ≡L y" := (x mod SC25519.L = y mod SC25519.L) (at level 70).

#[local] Notation "⟦ x ⟧" := (x mod SC25519.L).

#[local] Opaque Generate ScalarMult Add Pack Unpack eq_point.

(** The packed point [e] is [x] times the base point. *)
Definition key_of (e x : Z) : Prop := (Unpack (of_Z e)).1 = true /\ Subgroup.stands (Unpack (of_Z e)).2 x.

Lemma generate_stands s : is_uint 256 s -> Subgroup.stands (Generate (of_Z s)) s.
Proof.
  intros Hs. pose proof (Generate_spec (of_Z s) (of_Z_wf s)) as H.
  rewrite of_Z_val, Subgroup.multiple_of in H by (exact Hs || apply Hs). exact H.
Qed.

Lemma pack_key P x : Subgroup.stands P x -> key_of (val (Pack P)) x.
Proof.
  intros HP. unfold key_of. rewrite Subgroup.of_Z_of_val by apply (Pack_spec _ _ HP). exact (Subgroup.stands_unpack P x HP).
Qed.

Lemma pack_uint P x : Subgroup.stands P x -> is_uint 256 (val (Pack P)).
Proof. intros HP. apply mem32_val_range, (Pack_spec _ _ HP). Qed.

Lemma pubkey_spec s :
  is_uint 256 s -> key_of (MPEccPubkey s) s /\ is_uint 256 (MPEccPubkey s) /\ MPEccPubkey s <> 0.
Proof.
  intros Hs. pose proof (generate_stands s Hs) as HP. split; [exact (pack_key _ _ HP)|].
  split; [exact (pack_uint _ _ HP)|exact (Subgroup.pack_nonzero _ _ HP)].
Qed.

(** Public keys are equal exactly when the secrets agree modulo the order. *)
Lemma pubkey_inj s t : is_uint 256 s -> is_uint 256 t -> MPEccPubkey s = MPEccPubkey t <-> s ≡L t.
Proof.
  intros Hs Ht. pose proof (generate_stands s Hs) as HP. pose proof (generate_stands t Ht) as HQ. split; intros E.
  - exact (Subgroup.pack_stands_inj _ _ _ _ HP HQ E).
  - unfold MPEccPubkey. rewrite (Subgroup.pack_stands_eq _ _ _ _ HP HQ E). reflexivity.
Qed.

Lemma scalar_stands P x h : Subgroup.stands P x -> is_uint 256 h -> Subgroup.stands (ScalarMult (EdObj P []) (bytes_of h)).1 (h * x).
Proof.
  intros HP Hh. destruct (FPInverse.bytes_spec (of_Z h) (of_Z_wf h)) as [Hf Ev].
  destruct (ScalarMult_spec (EdObj P []) (bytes_of h) _ HP) as [H _];
    [left; reflexivity|exact Hf|unfold bytes_of, FP25519.bytes; discriminate|].
  unfold bytes_of in H. rewrite Ev, of_Z_val, Subgroup.times_multiple, Z2Nat.id in H by (exact Hh || apply Hh). exact H.
Qed.

Lemma MPEccVerify_spec pubkey rG signature hash p r :
  key_of pubkey p -> key_of rG r -> is_uint 256 signature -> is_uint 256 hash ->
  MPEccVerify pubkey rG signature hash = bool_decide (signature ≡L (p + hash * r)).
Proof.
  unfold key_of, MPEccVerify. destruct (Unpack (of_Z pubkey)) as [okP P], (Unpack (of_Z rG)) as [okR R].
  cbn [fst snd]. intros [-> HP] [-> HR] Hs Hh.
  exact (Subgroup.stands_eq _ _ _ _ (generate_stands _ Hs) (Subgroup.stands_add _ _ _ _ HP (scalar_stands _ _ _ HR Hh))).
Qed.

Lemma MPEccSign_spec key r hash :
  is_uint 256 key -> is_uint 256 r -> is_uint 256 hash -> MPEccSign key r hash = ⟦ key + hash * r ⟧.
Proof.
  intros Hk Hr Hh. unfold MPEccSign.
  destruct (SC25519.add_spec _ _ _ _ (sc_spec _ Hk) (SC25519.mul_spec _ _ _ _ (sc_spec _ Hr) (sc_spec _ Hh))) as (_ & -> & _).
  rewrite <- (Zmult_mod r hash), <- Zplus_mod. f_equal. ring.
Qed.

Lemma scalar_uint z : is_uint 256 (⟦ z ⟧).
Proof. pose proof (Z.mod_pos_bound z SC25519.L ltac:(reflexivity)). unfold is_uint, SC25519.L in *. lia. Qed.

(** What a box signs is accepted with its public key. *)
Lemma signature_verifies b hash r :
  is_uint 256 (nPrivKey b) -> is_uint 256 r -> is_uint 256 hash ->
  MPEccVerify (Opened_PubKey b) (Signature b hash r).1 (Signature b hash r).2 hash = true.
Proof.
  intros Hk Hr Hh. unfold Signature, Opened_PubKey. cbn [fst snd]. rewrite MPEccSign_spec by assumption.
  rewrite (MPEccVerify_spec _ _ _ _ (nPrivKey b) r); [|by apply pubkey_spec..|apply scalar_uint|assumption].
  apply bool_decide_eq_true_2. apply Z.mod_mod. discriminate.
Qed.

(** Anyone can make a signature for a public key [pubkey] and a hash: choose
    [nS], and solve for [nR]. *)
Definition forge (pubkey hash nS : Z) : Z :=
  let P := (Unpack (of_Z pubkey)).2 in
  let T := Add (Generate (of_Z nS)) (negate P) in
  val (Pack (ScalarMult (EdObj T []) (bytes_of (⟦ Z.invmod hash SC25519.L ⟧))).1).

Lemma invertible h : ~ h ≡L 0 -> (Z.invmod h SC25519.L * h) ≡L 1.
Proof.
  intros Hh. apply Z.invmod_coprime'. symmetry. apply Z.coprime_prime_l; [exact l25519_prime|].
  intros Hd. apply Hh. rewrite Z.mod_0_l by discriminate. apply Z.mod_divide; [discriminate|exact Hd].
Qed.

Lemma forge_spec pubkey p hash nS :
  key_of pubkey p -> is_uint 256 hash -> is_uint 256 nS -> ~ hash ≡L 0 ->
  MPEccVerify pubkey (forge pubkey hash nS) nS hash = true.
Proof.
  intros Hp Hh Hs Hne. pose proof Hp as [_ HP].
  pose proof (scalar_stands _ _ _ (Subgroup.stands_add _ _ _ _ (generate_stands nS Hs) (Subgroup.stands_negate _ _ HP))
    (scalar_uint (Z.invmod hash SC25519.L))) as HR.
  unfold forge. cbv zeta. rewrite (MPEccVerify_spec _ _ _ _ p _ Hp (pack_key _ _ HR) Hs Hh). apply bool_decide_eq_true_2.
  pose proof (invertible hash Hne) as Hi. generalize dependent (Z.invmod hash SC25519.L). intros i _ Hi.
  rewrite Z.mul_assoc, <- Zplus_mod_idemp_r, <- Zmult_mod_idemp_l, Zmult_mod_idemp_r, (Z.mul_comm hash i), Hi.
  rewrite Zmult_mod_idemp_l, Zplus_mod_idemp_r. f_equal. ring.
Qed.

(** The key that two boxes share *)
Lemma shared_key_spec key other x :
  is_uint 256 key -> key_of other x ->
  exists P, MPEccSharedKey key other = val (Pack P) /\ Subgroup.stands P (key * x).
Proof.
  unfold key_of, MPEccSharedKey. destruct (Unpack (of_Z other)) as [ok P]. cbn [fst snd]. intros Hk [-> HP].
  eexists. split; [reflexivity|]. exact (scalar_stands _ _ _ HP Hk).
Qed.

(** Whatever the key of the other side, a shared key is a [uint256]. *)
Lemma MPEccSharedKey_uint key other : is_uint 256 (MPEccSharedKey key other).
Proof.
  unfold MPEccSharedKey. pose proof (Unpack_cases (of_Z other) (of_Z_wf other)) as Hu. cbv zeta in Hu.
  destruct (Unpack (of_Z other)) as [ok P]. cbn [fst snd] in Hu. destruct ok; [|split; [lia|reflexivity]].
  destruct Hu as [[E _]|[_ (x & HP & _)]]; [discriminate E|].
  destruct (FPInverse.bytes_spec (of_Z key) (of_Z_wf key)) as [Hf _].
  destruct (ScalarMult_spec (EdObj P []) (bytes_of key) _ HP) as [H _];
    [left; reflexivity|exact Hf|unfold bytes_of, FP25519.bytes; discriminate|].
  apply mem32_val_range, (Pack_spec _ _ H).
Qed.

Lemma shared_key_sym a b :
  is_uint 256 (nPrivKey a) -> is_uint 256 (nPrivKey b) -> SharedKey a (Opened_PubKey b) = SharedKey b (Opened_PubKey a).
Proof.
  intros Ha Hb. destruct (shared_key_spec _ _ _ Ha (proj1 (pubkey_spec _ Hb))) as (P & EP & HP).
  destruct (shared_key_spec _ _ _ Hb (proj1 (pubkey_spec _ Ha))) as (Q & EQ & HQ).
  unfold SharedKey, Opened_PubKey. rewrite EP, EQ. f_equal. apply (Subgroup.pack_stands_eq _ _ _ _ HP HQ). f_equal. ring.
Qed.

Lemma shared_key_uint a b :
  is_uint 256 (nPrivKey a) -> is_uint 256 (nPrivKey b) -> is_uint 256 (SharedKey a (Opened_PubKey b)).
Proof.
  intros Ha Hb. destruct (shared_key_spec _ _ _ Ha (proj1 (pubkey_spec _ Hb))) as (P & EP & HP).
  unfold SharedKey, Opened_PubKey. rewrite EP. exact (pack_uint _ _ HP).
Qed.

(** ** Shares *)

Lemma polynomial_loop_spec nX i coeffs f z :
  1 <= nX <= 51 -> 1 <= i -> i + Z.of_nat (length coeffs) <= 27 -> Forall (is_uint 256) coeffs -> SC25519.repr f z ->
  exists r, polynomial_loop nX i coeffs f = Return r /\ SC25519.repr r (⟦ z + nX ^ i * eval coeffs nX ⟧).
Proof.
  intros HX. revert i f z. induction coeffs as [|c coeffs IH]; intros i f z Hi Hlen Hc Hf; cbn [polynomial_loop].
  - exists f. split; [done|]. cbn [eval]. rewrite Z.mul_0_r, Z.add_0_r, Z.mod_small by apply Hf. done.
  - inversion Hc as [|? ? Hc0 Hc']; subst. cbn [length] in Hlen.
    destruct (pow_at_spec nX i HX ltac:(lia)) as (p & -> & Hp). cbn [mbind outcome_bind].
    destruct (IH (i + 1) _ _ ltac:(lia) ltac:(lia) Hc'
      (SC25519.add_spec _ _ _ _ Hf (SC25519.mul_spec _ _ _ _ (sc_spec c Hc0) Hp))) as (r & Er & Hr).
    exists r. split; [done|]. rewrite <- (Zmult_mod c), Zplus_mod_idemp_r, Zplus_mod_idemp_l in Hr.
    eapply eq_ind; [exact Hr|]. f_equal. cbn [eval]. rewrite Z.pow_add_r by lia. ring.
Qed.

Lemma Polynomial_spec b nThresh nX :
  1 <= nX <= 51 -> (1 <= nThresh <= 27)%nat -> (nThresh <= length (vCoeff b))%nat -> nPrivKey b <> 0 ->
  Forall (is_uint 256) (vCoeff b) ->
  Polynomial b nThresh nX = Return (⟦ eval (take nThresh (vCoeff b)) nX ⟧).
Proof.
  intros HX Ht Hl Hk Hc. unfold Polynomial, Opened_IsNull. destruct (vCoeff b) as [|c0 coeffs] eqn:E; [simpl in Hl; lia|].
  rewrite (proj2 (Z.eqb_neq _ _) Hk), (proj2 (Nat.ltb_ge _ _)) by done. cbn [orb].
  inversion Hc as [|? ? Hc0 Hc']; subst.
  destruct (polynomial_loop_spec nX 1 (take (nThresh - 1) coeffs) (sc c0) (⟦ c0 ⟧)) as (r & -> & _ & Er & _);
    [done|lia|rewrite length_take; lia|by apply Forall_take|by apply sc_spec|].
  cbn [mbind outcome_bind]. rewrite Er. destruct nThresh as [|n]; [lia|]. cbn [take firstn eval].
  rewrite Nat.sub_succ, Nat.sub_0_r, Zplus_mod_idemp_l, Z.pow_1_r. done.
Qed.

(** The object stands for [c] times the base point, with its table if any. *)
Definition point_of (o : edobj) (c : Z) : Prop := Subgroup.stands (pt o) c /\ cache_ok o.

Lemma share_loop_spec nX i vP cs P z :
  1 <= nX <= 51 -> 1 <= i -> i + Z.of_nat (length cs) <= 27 -> Forall2 point_of vP cs -> Subgroup.stands P z ->
  exists P' vP', share_loop nX i vP P = Return (P', vP') /\
    Subgroup.stands P' (z + nX ^ i * eval cs nX) /\ Forall2 point_of vP' cs.
Proof.
  intros HX. intros Hi Hl Hv. revert i P z Hi Hl.
  induction Hv as [|o c vP cs [Ho Hc] Hv IH]; intros i P z Hi Hl HP; cbn [share_loop].
  - exists P, []. split; [done|]. cbn [eval]. rewrite Z.mul_0_r, Z.add_0_r. split; [exact HP|constructor].
  - cbn [length] in Hl. destruct (pow_at_spec nX i HX ltac:(lia)) as (p & -> & Hp). cbn [mbind outcome_bind].
    pose proof (Subgroup.stands_scalar o p _ c Hp Ho Hc) as Hq.
    destruct (ScalarMult_spec o (FP25519.bytes p) _ Ho Hc) as [_ Eo];
      [apply FPInverse.bytes_spec, Hp|unfold FP25519.bytes; discriminate|].
    destruct (ScalarMult o (FP25519.bytes p)) as [q o']. cbn [fst snd] in *. subst o'.
    destruct (IH (i + 1) _ _ ltac:(lia) ltac:(lia) (Subgroup.stands_add _ _ _ _ HP Hq)) as (P' & vP' & -> & HP' & Hv').
    cbn [mbind outcome_bind fst snd]. eexists _, _. split; [reflexivity|]. split.
    + eapply Subgroup.stands_mod; [|exact HP']. cbn [eval]. rewrite Z.pow_add_r by lia.
      rewrite (Z.mod_eq (nX ^ i)) by discriminate. generalize (nX ^ i) (eval cs nX). intros a e. generalize (a / SC25519.L). intros k.
      replace (z + (a - SC25519.L * k) * c + a * nX ^ 1 * e) with (z + a * (c + nX * e) + (- k * c) * SC25519.L) by ring.
      apply Z.mod_add. discriminate.
    + constructor; [|exact Hv']. split; [exact Ho|right; reflexivity].
Qed.

Lemma precalc_loop_spec n nX vP cs :
  1 <= nX -> nX + Z.of_nat n <= 52 -> (1 <= length cs <= 27)%nat -> Forall2 point_of vP cs ->
  exists shares, precalc_loop n nX vP = Return shares /\ length shares = n /\
    forall k e, shares !! k = Some e -> exists P, e = val (Pack P) /\ Subgroup.stands P (eval cs (nX + Z.of_nat k)).
Proof.
  intros HX Hn Hl. revert nX vP HX Hn. induction n as [|n IH]; intros nX vP HX Hn Hv; cbn [precalc_loop].
  { exists []. split; [done|]. split; [done|]. intros k e Hk. discriminate Hk. }
  destruct Hv as [|o c vP cs Ho Hv]; [simpl in Hl; lia|].
  destruct (share_loop_spec nX 1 vP cs (pt o) c) as (P & vP' & -> & HP & Hv');
    [lia|lia|cbn [length] in Hl; lia|exact Hv|apply Ho|].
  cbn [mbind outcome_bind fst snd].
  destruct (IH (nX + 1) (o :: vP') ltac:(lia) ltac:(lia)) as (shares & -> & Hls & Hsh);
    [constructor; assumption|].
  cbn [mbind outcome_bind]. eexists. split; [reflexivity|]. split; [cbn [length]; lia|].
  intros [|k] e Hk.
  - injection Hk as <-. exists P. split; [reflexivity|]. rewrite Z.add_0_r. cbn [eval].
    rewrite Z.pow_1_r in HP. exact HP.
  - destruct (Hsh k e Hk) as (Q & -> & HQ). exists Q. split; [reflexivity|].
    replace (nX + Z.of_nat (S k)) with (nX + 1 + Z.of_nat k) by lia. exact HQ.
Qed.

(** The coefficients that the box commits to *)
Definition commits (b : CMPSealedBox) (cs : list Z) : Prop := Forall2 key_of (vEncryptedCoeff b) cs.

(** The box is ready to verify the shares of the polynomial [cs] up to index
    [nLastIndex - 1]. *)
Definition prepared (b : CMPSealedBox) (nLastIndex : nat) (cs : list Z) : Prop :=
  length (vEncryptedShare b) = nLastIndex /\
  forall k e, (1 <= k)%nat -> vEncryptedShare b !! k = Some e ->
    exists P, e = val (Pack P) /\ Subgroup.stands P (eval cs (Z.of_nat k)).

Lemma PrecalcPolynomial_spec b cs nThresh nLastIndex :
  commits b cs -> (1 <= nThresh <= 27)%nat -> (nThresh <= length cs)%nat -> (1 <= nLastIndex <= 52)%nat ->
  exists b', PrecalcPolynomial b nThresh nLastIndex = Return b' /\
    prepared b' nLastIndex (take nThresh cs) /\
    vEncryptedCoeff b' = vEncryptedCoeff b /\ nPubKey b' = nPubKey b /\ nR b' = nR b /\ nS b' = nS b.
Proof.
  intros Hc Ht Hl Hi. pose proof (Forall2_length _ _ _ Hc) as El. unfold PrecalcPolynomial, unpack_coeffs.
  rewrite (proj2 (Nat.ltb_ge _ _)) by lia. cbn [mbind outcome_bind].
  destruct (precalc_loop_spec (nLastIndex - 1) 1 (map (fun c => EdObj (Unpack (of_Z c)).2 []) (take nThresh (vEncryptedCoeff b)))
    (take nThresh cs)) as (shares & -> & Hls & Hsh); [lia|lia|rewrite length_take; lia| |].
  - apply Forall2_fmap_l. apply (Forall2_impl key_of); [by apply Forall2_take|].
    intros e c [_ H]. split; [exact H|left; reflexivity].
  - cbn [mbind outcome_bind]. eexists. split; [reflexivity|]. cbn [vEncryptedCoeff nPubKey nR nS].
    split; [|done]. destruct nLastIndex as [|m]; [lia|]. split; [cbn [length vEncryptedShare]; lia|].
    intros [|k] e Hk He; [lia|]. cbn [vEncryptedShare lookup list_lookup] in He.
    destruct (Hsh k e He) as (P & -> & HP). exists P. split; [reflexivity|].
    replace (Z.of_nat (S k)) with (1 + Z.of_nat k) by lia. exact HP.
Qed.

(** A prepared box accepts exactly the shares of its polynomial. *)
Lemma VerifyPolynomial_spec b nLastIndex cs nX v :
  prepared b nLastIndex cs -> 1 <= nX -> is_uint 256 v ->
  VerifyPolynomial b nX v = (nX <? Z.of_nat nLastIndex) && bool_decide (v ≡L eval cs nX).
Proof.
  intros [Hl Hp] HX Hv. unfold VerifyPolynomial. rewrite Hl, Z.ltb_antisym.
  destruct (Z.leb_spec (Z.of_nat nLastIndex) nX) as [|Hlt]; [done|]. cbn [negb andb].
  destruct (lookup_lt_is_Some_2 (vEncryptedShare b) (Z.to_nat nX)) as [e He]; [lia|]. rewrite He.
  destruct (Hp (Z.to_nat nX) e ltac:(lia) He) as (P & -> & HP). rewrite Z2Nat.id in HP by lia.
  pose proof (generate_stands v Hv) as HQ. apply eq_iff_eq_true. rewrite Z.eqb_eq, bool_decide_eq_true. split; intros E.
  - symmetry. exact (Subgroup.pack_stands_inj _ _ _ _ HP HQ E).
  - unfold MPEccPubkey. rewrite (Subgroup.pack_stands_eq _ _ _ _ HP HQ); [reflexivity|]. symmetry. exact E.
Qed.

(** The shares are computed for any points: nothing is read outside the tables. *)
Lemma share_loop_total nX i vP P :
  1 <= nX <= 51 -> 1 <= i -> i + Z.of_nat (length vP) <= 27 ->
  exists r, share_loop nX i vP P = Return r /\ length r.2 = length vP.
Proof.
  intros HX. revert i P. induction vP as [|o vP IH]; intros i P Hi Hl; cbn [share_loop]; [by eexists|].
  cbn [length] in Hl. destruct (pow_at_spec nX i HX ltac:(lia)) as (p & -> & _). cbn [mbind outcome_bind].
  destruct (ScalarMult o (FP25519.bytes p)) as [q o'].
  destruct (IH (i + 1) (Add P q) ltac:(lia) ltac:(lia)) as (r & -> & Hr). cbn [mbind outcome_bind].
  eexists. split; [reflexivity|]. cbn [snd length]. by rewrite Hr.
Qed.

Lemma precalc_loop_total n nX vP :
  1 <= nX -> nX + Z.of_nat n <= 52 -> (1 <= length vP <= 27)%nat -> exists l, precalc_loop n nX vP = Return l.
Proof.
  revert nX vP. induction n as [|n IH]; intros nX vP HX Hn Hl; cbn [precalc_loop]; [by eexists|].
  destruct vP as [|o vP]; [simpl in Hl; lia|]. cbn [length] in Hl.
  destruct (share_loop_total nX 1 vP (pt o)) as ([P vP'] & -> & Hr); [lia|lia|lia|]. cbn [mbind outcome_bind fst snd] in *.
  destruct (IH (nX + 1) (o :: vP')) as [l ->]; [lia|lia|cbn [length]; lia|]. by eexists.
Qed.

Lemma PrecalcPolynomial_total b nThresh nLastIndex :
  (1 <= nThresh <= 27)%nat -> (nThresh <= length (vEncryptedCoeff b))%nat -> (1 <= nLastIndex <= 52)%nat ->
  exists b', PrecalcPolynomial b nThresh nLastIndex = Return b' /\
    vEncryptedCoeff b' = vEncryptedCoeff b /\ nPubKey b' = nPubKey b.
Proof.
  intros Ht Hl Hi. unfold PrecalcPolynomial, unpack_coeffs. rewrite (proj2 (Nat.ltb_ge _ _)) by lia.
  cbn [mbind outcome_bind].
  destruct (precalc_loop_total (nLastIndex - 1) 1 (map (fun c => EdObj (Unpack (of_Z c)).2 []) (take nThresh (vEncryptedCoeff b))))
    as [l ->]; [lia|lia|rewrite length_map, length_take; lia|].
  cbn [mbind outcome_bind]. by eexists.
Qed.

(** A box with too few coefficients is read outside its vector. *)
Lemma PrecalcPolynomial_short b nThresh nLastIndex :
  (length (vEncryptedCoeff b) < nThresh)%nat -> PrecalcPolynomial b nThresh nLastIndex = Undefined.
Proof. intros H. unfold PrecalcPolynomial, unpack_coeffs. by rewrite (proj2 (Nat.ltb_lt _ _) H). Qed.

Lemma PrecalcPolynomial_no_throw b nThresh nLastIndex e : PrecalcPolynomial b nThresh nLastIndex <> Throw e.
Proof.
  assert (Hs : forall vP nX i P, share_loop nX i vP P <> Throw e).
  { induction vP as [|o vP IH]; intros nX i P; cbn [share_loop]; [done|].
    assert (Hpow : pow_at nX i <> Throw e) by (unfold pow_at; destruct (_ || _); [done|]; by destruct (_ ≫= _)).
    destruct (pow_at nX i) as [p|x|]; [|intros [= ->]; by apply Hpow|discriminate]. cbn [mbind outcome_bind]. destruct (ScalarMult _ _) as [q o']. pose proof (IH nX (i + 1) (Add P q)) as H.
    destruct (share_loop _ _ _ _); [done|intros [= ->]; by apply H|done]. }
  assert (Hp : forall n nX vP, precalc_loop n nX vP <> Throw e).
  { induction n as [|n IH]; intros nX [|o vP]; cbn [precalc_loop]; try (intros; discriminate). pose proof (Hs vP nX 1 (pt o)) as H.
    destruct (share_loop _ _ _ _) as [r|x|]; [|intros [= ->]; by apply H|discriminate]. cbn [mbind outcome_bind].
    pose proof (IH (nX + 1) (o :: r.2)) as H'. destruct (precalc_loop _ _ _); [done|intros [= ->]; by apply H'|done]. }
  unfold PrecalcPolynomial, unpack_coeffs. destruct (_ <? _)%nat; [done|]. cbn [mbind outcome_bind].
  pose proof (Hp (nLastIndex - 1)%nat 1 (map (fun c => EdObj (Unpack (of_Z c)).2 []) (take nThresh (vEncryptedCoeff b)))) as H.
  destruct (precalc_loop _ _ _); [done|intros [= ->]; by apply H|done].
Qed.

(** ** Honest boxes *)

Lemma pubkey_validate c : is_uint 256 c -> MPEccPubkeyValidate (MPEccPubkey c) = bool_decide (~ c ≡L 0).
Proof.
  intros Hc. destruct (pubkey_spec c Hc) as ([Hok Hst] & _ & Hnz). unfold MPEccPubkeyValidate.
  rewrite (proj2 (Z.eqb_neq _ _) Hnz). destruct (Unpack (of_Z (MPEccPubkey c))) as [ok P]. cbn [fst snd] in *. subst ok.
  rewrite (Subgroup.stands_eq _ _ _ _ Hst Subgroup.stands_zero). by rewrite <- bool_decide_not.
Qed.

(** A box as [Setup] makes it *)
Record honest (b : CMPOpenedBox) : Prop := {
  honest_key : is_uint 256 (nPrivKey b);
  honest_nonzero : nPrivKey b <> 0;
  honest_coeffs : Forall (fun c => is_uint 256 c /\ ~ c ≡L 0) (vCoeff b);
  honest_some : vCoeff b <> [];
}.

Lemma honest_uint b : honest b -> Forall (is_uint 256) (vCoeff b).
Proof. intros H. eapply Forall_impl; [apply (honest_coeffs b H)|]. by intros c [Hc _]. Qed.

Lemma honest_commits b : honest b -> Forall2 key_of (map MPEccPubkey (vCoeff b)) (vCoeff b).
Proof.
  intros H. pose proof (honest_uint b H) as Hu. induction Hu as [|c l Hc Hu IH]; constructor; [|exact IH].
  apply pubkey_spec, Hc.
Qed.

Lemma honest_validate b : honest b -> Validate b = true.
Proof.
  intros [_ _ Hc Hn]. unfold Validate. destruct (vCoeff b) as [|c0 l]; [done|]. rewrite andb_true_r.
  apply forallb_forall. intros c Hin. apply list_elem_of_In in Hin. rewrite Forall_forall in Hc.
  destruct (Hc c Hin) as [_ Hne]. apply negb_true_iff, Z.eqb_neq. intros ->. by apply Hne.
Qed.

(** The sealed box of an honest box is accepted, and commits to its
    coefficients. *)
Lemma MakeSealedBox_honest b sealed nIdent r :
  honest b -> is_uint 256 r -> r <> 0 -> is_uint 256 nIdent ->
  exists s, MakeSealedBox b sealed nIdent r = (true, s) /\ VerifyIdent s nIdent = true /\ commits s (vCoeff b) /\
    nPubKey s = Opened_PubKey b /\ vEncryptedShare s = vEncryptedShare sealed.
Proof.
  intros Hb Hr Hr0 Hi. unfold MakeSealedBox. rewrite honest_validate, (proj2 (Z.eqb_neq _ _) Hr0) by exact Hb. cbn [negb orb].
  pose proof (signature_verifies b nIdent r (honest_key b Hb) Hr Hi) as Hs.
  destruct (Signature b nIdent r) as [R S]. cbn [fst snd] in Hs. eexists. split; [reflexivity|].
  split; [|split; [exact (honest_commits b Hb)|done]].
  unfold VerifyIdent, Sealed_IsNull. cbn [vEncryptedCoeff nPubKey nR nS].
  destruct (vCoeff b) as [|c0 l] eqn:Ec; [by destruct (honest_some b Hb)|]. cbn [map].
  rewrite (proj2 (Z.eqb_neq _ _)) by apply pubkey_spec, (honest_key b Hb).
  assert (Hall : forallb MPEccPubkeyValidate (map MPEccPubkey (vCoeff b)) = true).
  { apply forallb_forall. intros e Hin. apply in_map_iff in Hin as (c & <- & Hin). apply list_elem_of_In in Hin.
    pose proof (honest_coeffs b Hb) as Hc. rewrite Forall_forall in Hc. destruct (Hc c Hin) as [Hu Hne].
    rewrite pubkey_validate by exact Hu. by apply bool_decide_eq_true_2. }
  rewrite Ec in Hall. cbn [map] in Hall. rewrite Hall. exact Hs.
Qed.

(** the sealed box of a dealer verifies, and after the precalculation it
    accepts at an index exactly the numbers that are the dealer's polynomial
    there modulo the group order; the share the dealer computes is one. *)
Theorem sealed_box_verifies (b : CMPOpenedBox) (nIdent r : Z) (nThresh nLastIndex : nat) (nX v : Z) :
  honest b -> is_uint 256 r -> r <> 0 -> is_uint 256 nIdent -> is_uint 256 v ->
  (1 <= nThresh <= 27)%nat -> (nThresh <= length (vCoeff b))%nat -> (nLastIndex <= 52)%nat -> 1 <= nX < Z.of_nat nLastIndex ->
  exists s s' y, MakeSealedBox b sealed_null nIdent r = (true, s) /\ VerifyIdent s nIdent = true /\
    PrecalcPolynomial s nThresh nLastIndex = Return s' /\ Polynomial b nThresh nX = Return y /\
    VerifyPolynomial s' nX v = bool_decide (v mod SC25519.L = y) /\ VerifyPolynomial s' nX y = true.
Proof.
  intros Hb Hr Hr0 Hi Hv Ht Hl Hn HX.
  destruct (MakeSealedBox_honest b sealed_null nIdent r Hb Hr Hr0 Hi) as (s & Es & Hver & Hc & _).
  destruct (PrecalcPolynomial_spec s (vCoeff b) nThresh nLastIndex Hc Ht Hl ltac:(lia)) as (s' & Es' & Hp & _).
  exists s, s', (⟦ eval (take nThresh (vCoeff b)) nX ⟧).
  rewrite Polynomial_spec by (lia || exact (honest_nonzero b Hb) || exact (honest_uint b Hb)).
  rewrite !(VerifyPolynomial_spec s' nLastIndex (take nThresh (vCoeff b))) by (exact Hp || lia || exact Hv || apply scalar_uint).
  rewrite (proj2 (Z.ltb_lt _ _)) by lia. cbn [andb]. refine (conj Es (conj Hver (conj Es' (conj eq_refl (conj eq_refl _))))).
  apply bool_decide_eq_true_2. apply Z.mod_mod. discriminate.
Qed.

Definition sample_box : CMPOpenedBox := mkOpenedBox [5; 7; 11] 3.

Lemma sample_box_honest : honest sample_box.
Proof.
  split; cbn [nPrivKey vCoeff sample_box]; [split; [discriminate|reflexivity]|discriminate| |discriminate].
  repeat (apply Forall_cons_2; [split; [split; [discriminate|reflexivity]|vm_compute; discriminate]|]). apply Forall_nil_2.
Qed.

Lemma sealed_box_verifies_witness :
  exists s s' y, MakeSealedBox sample_box sealed_null 9 4 = (true, s) /\ VerifyIdent s 9 = true /\
    PrecalcPolynomial s 3 6 = Return s' /\ Polynomial sample_box 3 2 = Return y /\
    VerifyPolynomial s' 2 63 = bool_decide (63 mod SC25519.L = y) /\ VerifyPolynomial s' 2 y = true.
Proof.
  apply (sealed_box_verifies sample_box 9 4 3 6 2 63).
  - exact sample_box_honest.
  - split; [discriminate|reflexivity].
  - discriminate.
  - split; [discriminate|reflexivity].
  - split; [discriminate|reflexivity].
  - lia.
  - cbn. lia.
  - lia.
  - lia.
Defined.

(** the signatures of boxes do not authenticate.  For the public key of any
    box and any hash that is not a multiple of the group order, [forge]
    computes from the key and the hash alone, for an [nS] of free choice, an
    [nR] with which [MPEccVerify] accepts; an honest signature is accepted as
    well. *)
Theorem signature_forgeable (b : CMPOpenedBox) (hash nS r : Z) :
  is_uint 256 (nPrivKey b) -> is_uint 256 hash -> is_uint 256 nS -> is_uint 256 r -> hash mod SC25519.L <> 0 ->
  MPEccVerify (Opened_PubKey b) (forge (Opened_PubKey b) hash nS) nS hash = true /\
  MPEccVerify (Opened_PubKey b) (Signature b hash r).1 (Signature b hash r).2 hash = true.
Proof.
  intros Hk Hh HS Hr Hne. split; [|by apply signature_verifies].
  apply (forge_spec _ (nPrivKey b)); [by apply pubkey_spec|exact Hh|exact HS|].
  rewrite Z.mod_0_l by discriminate. exact Hne.
Qed.

Lemma signature_forgeable_witness :
  MPEccVerify (Opened_PubKey sample_box) (forge (Opened_PubKey sample_box) 1000 1) 1 1000 = true.
Proof.
  refine (proj1 (signature_forgeable sample_box 1000 1 0 _ _ _ _ _)).
  - split; [discriminate|reflexivity].
  - split; [discriminate|reflexivity].
  - split; [discriminate|reflexivity].
  - split; [discriminate|reflexivity].
  - discriminate.
Defined.

End MPBox.
