(* ===== verification/MPVSS.v ===== *)
(** * Verifiable secret sharing among delegates (src/mpvss/mpvss.h, mpvss.cpp)

    Every delegate deals the shares of a secret polynomial to the others, who
    check them against its sealed box and publish them; a witness collects the
    published shares and interpolates the secrets.  A [uint256] and a [size_t]
    are a [Z], a [std::map] is a [gmap] iterated in increasing order of its
    keys.  The work [ParallelComputer] does for several participants touches
    each of them alone and is a map over them. *)

From S2P Require Import Prelude Stream Base25519 SC25519 Tables Interpolation MPBox.

Record CMPCandidate : Type := mkCandidate { ca_nIdent : Z; ca_nWeight : Z; ca_sBox : CMPSealedBox }.

Record CMPParticipant : Type := mkParticipant {
  pa_nWeight : Z;
  pa_nIndex : Z;
  pa_sBox : CMPSealedBox;
  pa_nSharedKey : Z;
  pa_vShare : list Z;
}.

Record CMPSecretShare : Type := mkSecretShare {
  ss_nIdent : Z;
  ss_myBox : CMPOpenedBox;
  ss_nWeight : Z;
  ss_nIndex : Z;
  ss_nThresh : Z;
  ss_mapParticipant : gmap Z CMPParticipant;
  ss_mapOpenedShare : gmap Z (list (Z * Z));
}.

Module MPVSS.
Import MPBox.

(** The entries of a map in the order of its keys *)
Definition map_list {A : Type} (m : gmap Z A) : list (Z * A) := CWalleveStream.map_entries Z.lt m.

(** A computation for every entry of a map *)
Fixpoint map_M {A B : Type} (f : A -> outcome B) (l : list A) : outcome (list B) :=
  match l with
  | [] => Return []
  | x :: l => y ← f x; ys ← map_M f l; Return (y :: ys)
  end.

(** ** CMPCandidate and CMPParticipant *)

Definition Candidate_Verify (c : CMPCandidate) : bool := VerifyIdent (ca_sBox c) (ca_nIdent c).

Definition participant_of (candidate : CMPCandidate) (nIndexIn nSharedKeyIn : Z) : CMPParticipant :=
  mkParticipant (ca_nWeight candidate) nIndexIn (ca_sBox candidate) nSharedKeyIn [].

Definition Encrypt (p : CMPParticipant) (data : Z) : Z := Z.lxor (pa_nSharedKey p) data.

Definition Decrypt (p : CMPParticipant) (cipher : Z) : Z := Z.lxor (pa_nSharedKey p) cipher.

Definition set_vShare (p : CMPParticipant) (v : list Z) : CMPParticipant :=
  mkParticipant (pa_nWeight p) (pa_nIndex p) (pa_sBox p) (pa_nSharedKey p) v.

Definition set_sBox (p : CMPParticipant) (b : CMPSealedBox) : CMPParticipant :=
  mkParticipant (pa_nWeight p) (pa_nIndex p) b (pa_nSharedKey p) (pa_vShare p).

(** [VerifyShare]: the shares of the indices from [nIndexIn] on *)
Fixpoint VerifyShare (p : CMPParticipant) (nIndexIn : Z) (vShare : list Z) : bool :=
  match vShare with
  | [] => true
  | v :: vShare => if VerifyPolynomial (pa_sBox p) (u32 nIndexIn) v then VerifyShare p (u64 (nIndexIn + 1)) vShare else false
  end.

(** [AcceptShare] decrypts the shares one after the other and forgets all of
    them at the first one that is wrong. *)
Definition AcceptShare (p : CMPParticipant) (nIndexIn : Z) (vEncrypedShare : list Z) : bool * CMPParticipant :=
  let vShare := map (Decrypt p) vEncrypedShare in
  if VerifyShare p nIndexIn vShare then (true, set_vShare p vShare) else (false, set_vShare p []).

Definition PrepareVerification (p : CMPParticipant) (nThresh nLastIndex : Z) : outcome CMPParticipant :=
  b ← PrecalcPolynomial (pa_sBox p) (Z.to_nat nThresh) (Z.to_nat nLastIndex);
  Return (set_sBox p b).

(** ** CMPSecretShare *)

Definition secret_share (nIdentIn : Z) : CMPSecretShare :=
  mkSecretShare nIdentIn (mkOpenedBox [] 0) 0 0 0 ∅ ∅.

Definition set_participants (s : CMPSecretShare) (m : gmap Z CMPParticipant) : CMPSecretShare :=
  mkSecretShare (ss_nIdent s) (ss_myBox s) (ss_nWeight s) (ss_nIndex s) (ss_nThresh s) m (ss_mapOpenedShare s).

Definition set_opened (s : CMPSecretShare) (m : gmap Z (list (Z * Z))) : CMPSecretShare :=
  mkSecretShare (ss_nIdent s) (ss_myBox s) (ss_nWeight s) (ss_nIndex s) (ss_nThresh s) (ss_mapParticipant s) m.

Definition IsEnrolled (s : CMPSecretShare) : bool := negb (ss_nIndex s =? 0).

(** [r[7] &= 0x0FFFFFFF] on the random [r], the most significant of the eight
    32-bit words *)
Definition RandShare (r : Z) : Z :=
  Z.lor (Z.land r (Z.ones 224)) (Z.shiftl (Z.land (Z.shiftr r 224) 0x0FFFFFFF) 224).

(** [GetParticipantRange]: the index and the weight *)
Definition GetParticipantRange (s : CMPSecretShare) (nIdentIn : Z) : option (Z * Z) :=
  if nIdentIn =? ss_nIdent s then Some (ss_nIndex s, ss_nWeight s)
  else (fun p => (pa_nIndex p, pa_nWeight p)) <$> ss_mapParticipant s !! nIdentIn.

(** One round of the loop of [Setup]: the numbers of [rand] from number [k] on
    are the private key, the coefficients and the nonce of the signature. *)
Definition setup_box (nMaxThresh : nat) (rand : nat -> Z) (k : nat) : CMPOpenedBox :=
  mkOpenedBox (map (fun i => RandShare (rand (k + 1 + i)%nat)) (seq 0 nMaxThresh)) (RandShare (rand k)).

(** [do ... while (!MakeSealedBox)], at most [fuel] rounds *)
Fixpoint setup_loop (fuel : nat) (nMaxThresh : nat) (rand : nat -> Z) (k : nat) (nIdent : Z) (sealed : CMPSealedBox)
    : option (CMPOpenedBox * CMPSealedBox) :=
  match fuel with
  | O => None
  | S fuel =>
      let box := setup_box nMaxThresh rand k in
      let '(ok, sealed) := MakeSealedBox box sealed nIdent (RandShare (rand (k + 1 + nMaxThresh)%nat)) in
      if ok then Some (box, sealed) else setup_loop fuel nMaxThresh rand (k + 2 + nMaxThresh)%nat nIdent sealed
  end.

(** [Setup]; [None] when no round up to [fuel] makes a box *)
Definition Setup (s : CMPSecretShare) (fuel : nat) (nMaxThresh : nat) (rand : nat -> Z) (sealed : CMPSealedBox)
    : option (CMPSecretShare * CMPSealedBox) :=
  '(box, sealed) ← setup_loop fuel nMaxThresh rand 0 (ss_nIdent s) sealed;
  Some (mkSecretShare (ss_nIdent s) box 0 0 0 ∅ ∅, sealed).

Definition SetupWitness (s : CMPSecretShare) : CMPSecretShare :=
  mkSecretShare 0 (mkOpenedBox [] (nPrivKey (ss_myBox s))) 0 0 0 ∅ ∅.

(** One candidate of [Enroll]; the last component is [nLastIndex]. *)
Definition enroll_one (st : CMPSecretShare * Z) (candidate : CMPCandidate) : CMPSecretShare * Z :=
  let '(s, nLastIndex) := st in
  if ca_nIdent candidate =? ss_nIdent s then
    (mkSecretShare (ss_nIdent s) (ss_myBox s) (ca_nWeight candidate) nLastIndex (ss_nThresh s)
       (ss_mapParticipant s) (ss_mapOpenedShare s),
     u64 (nLastIndex + ca_nWeight candidate))
  else
    match ss_mapParticipant s !! ca_nIdent candidate with
    | Some _ => (s, nLastIndex)
    | None =>
        if Candidate_Verify candidate then
          match Sealed_PubKey (ca_sBox candidate) with
          | Return pubkey =>
              let shared := SharedKey (ss_myBox s) pubkey in
              (set_participants s (<[ca_nIdent candidate := participant_of candidate nLastIndex shared]> (ss_mapParticipant s)),
               u64 (nLastIndex + ca_nWeight candidate))
          | _ => (s, nLastIndex)
          end
        else (s, nLastIndex)
    end.

Definition Enroll (s : CMPSecretShare) (vCandidate : list CMPCandidate) : outcome CMPSecretShare :=
  let '(s, nLastIndex) := foldl enroll_one (s, 1) vCandidate in
  let nThresh := u64 (u64 (nLastIndex - 1) / 2 + 1) in
  l ← map_M (fun '(id, p) => p ← PrepareVerification p nThresh nLastIndex; Return (id, p)) (map_list (ss_mapParticipant s));
  Return (mkSecretShare (ss_nIdent s) (ss_myBox s) (ss_nWeight s) (ss_nIndex s) nThresh
    (list_to_map l) (ss_mapOpenedShare s)).

(** The shares of the indices [nIndex], ..., [nIndex + n - 1] *)
Definition polynomials (s : CMPSecretShare) (nIndex n : Z) : outcome (list Z) :=
  map_M (fun i => Polynomial (ss_myBox s) (Z.to_nat (ss_nThresh s)) (u32 (nIndex + i))) (seqZ 0 n).

(** [Distribute] sets the entry of every participant. *)
Definition Distribute (s : CMPSecretShare) (mapShare : gmap Z (list Z)) : outcome (gmap Z (list Z)) :=
  l ← map_M (fun '(id, p) =>
        v ← polynomials s (pa_nIndex p) (pa_nWeight p); Return (id, map (Encrypt p) v)) (map_list (ss_mapParticipant s));
  Return (list_to_map l ∪ mapShare).

Definition Accept (s : CMPSecretShare) (nIdentFrom : Z) (vEncryptedShare : list Z) : bool * CMPSecretShare :=
  if Z.of_nat (length vEncryptedShare) =? ss_nWeight s then
    match ss_mapParticipant s !! nIdentFrom with
    | Some p =>
        let '(ok, p) := AcceptShare p (ss_nIndex s) vEncryptedShare in
        (ok, set_participants s (<[nIdentFrom := p]> (ss_mapParticipant s)))
    | None => (false, s)
    end
  else (false, s).

Definition Publish (s : CMPSecretShare) : outcome (gmap Z (list Z)) :=
  let mapShare := omap (fun p => match pa_vShare p with [] => None | v => Some v end) (ss_mapParticipant s) in
  v ← polynomials s (ss_nIndex s) (ss_nWeight s);
  Return (<[ss_nIdent s := default [] (mapShare !! ss_nIdent s) ++ v]> mapShare).

(** The shares of this node's own polynomial, from number [i] on *)
Fixpoint own_shares (s : CMPSecretShare) (nIndexFrom i : Z) (vShare : list Z) : outcome bool :=
  match vShare with
  | [] => Return true
  | v :: vShare =>
      f ← Polynomial (ss_myBox s) (Z.to_nat (ss_nThresh s)) (u32 (nIndexFrom + i));
      if f =? v then own_shares s nIndexFrom (i + 1) vShare else Return false
  end.

(** The first loop of [Collect]: [None] returns [false], otherwise the
    participants that have to verify shares. *)
Fixpoint collect_loop (s : CMPSecretShare) (nIndexFrom nWeightFrom : Z) (l : list (Z * list Z))
    : outcome (option (list (CMPParticipant * list Z))) :=
  match l with
  | [] => Return (Some [])
  | (id, vShare) :: l =>
      if negb (nWeightFrom =? Z.of_nat (length vShare)) then Return None
      else if id =? ss_nIdent s then
        ok ← own_shares s nIndexFrom 0 vShare;
        if ok : bool then collect_loop s nIndexFrom nWeightFrom l else Return None
      else
        match ss_mapParticipant s !! id with
        | None => Return None
        | Some p =>
            r ← collect_loop s nIndexFrom nWeightFrom l;
            Return (match r with Some ps => Some ((p, vShare) :: ps) | None => None end)
        end
  end.

(** The shares of a participant with their indices, up to the threshold *)
Definition open_shares (s : CMPSecretShare) (nIndexFrom nWeightFrom : Z) (vOpenedShare : list (Z * Z)) (vShare : list Z)
    : list (Z * Z) :=
  vOpenedShare ++
    take (Z.to_nat (ss_nThresh s) - length vOpenedShare) (zip (map (fun i => u32 (nIndexFrom + i)) (seqZ 0 nWeightFrom)) vShare).

(** The second loop of [Collect] *)
Definition open_one (s : CMPSecretShare) (nIndexFrom nWeightFrom : Z) (st : gmap Z (list (Z * Z)) * Z) (entry : Z * list Z)
    : gmap Z (list (Z * Z)) * Z :=
  let '(opened, nCompleteCollect) := st in
  let v := open_shares s nIndexFrom nWeightFrom (default [] (opened !! entry.1)) entry.2 in
  (<[entry.1 := v]> opened, if Z.of_nat (length v) =? ss_nThresh s then nCompleteCollect + 1 else nCompleteCollect).

(** [Collect]: the result, [fCompleted] and the state *)
Definition Collect (s : CMPSecretShare) (nIdentFrom : Z) (mapShare : gmap Z (list Z)) : outcome (bool * bool * CMPSecretShare) :=
  match GetParticipantRange s nIdentFrom with
  | None => Return (false, false, s)
  | Some (nIndexFrom, nWeightFrom) =>
      r ← collect_loop s nIndexFrom nWeightFrom (map_list mapShare);
      match r with
      | None => Return (false, false, s)
      | Some vecPartShare =>
          if forallb (fun '(p, vShare) => VerifyShare p nIndexFrom vShare) vecPartShare then
            let '(opened, nCompleteCollect) :=
              foldl (open_one s nIndexFrom nWeightFrom) (ss_mapOpenedShare s, 0) (map_list mapShare) in
            Return (true, Z.of_nat (size mapShare) <=? nCompleteCollect, set_opened s opened)
          else Return (false, false, s)
      end
  end.

(** The secret of one entry of [mapOpenedShare] with the weight of its dealer *)
Definition reconstruct_one (s : CMPSecretShare) (entry : Z * list (Z * Z)) : outcome (Z * (Z * Z)) :=
  let '(id, vShare) := entry in
  if Z.of_nat (length vShare) =? ss_nThresh s then
    match GetParticipantRange s id with
    | Some (_, nWeightRet) => secret ← Interpolation.MPNewton vShare; Return (id, (secret, nWeightRet))
    | None => Return (id, (0, 0))
    end
  else Return (id, (0, 0)).

Definition Reconstruct (s : CMPSecretShare) (mapSecret : gmap Z (Z * Z)) : outcome (gmap Z (Z * Z)) :=
  vData ← map_M (reconstruct_one s) (map_list (ss_mapOpenedShare s));
  Return (foldl (fun m '(id, data) => if 0 <? data.2 then <[id := data]> m else m) mapSecret vData).

Definition Signature (s : CMPSecretShare) (hash r : Z) : Z * Z := MPBox.Signature (ss_myBox s) hash (RandShare r).

Definition VerifySignature (s : CMPSecretShare) (nIdentFrom hash nR nS : Z) : bool :=
  if nIdentFrom =? ss_nIdent s then Opened_VerifySignature (ss_myBox s) hash nR nS
  else
    match ss_mapParticipant s !! nIdentFrom with
    | None => false
    | Some p => Sealed_VerifySignature (pa_sBox p) hash nR nS
    end.

End MPVSS.
