(* ===== verification/MPVSSOk.v ===== *)
(** * The secret sharing recovers the secrets

    Every node that enrolls the same candidates gives them the same indices and
    the same threshold; a witness that collects the shares published by
    different delegates reconstructs the secret of every dealer for which it
    has enough shares, whichever they are. *)

From S2P Require Import Prelude Stream Base25519 SC25519 Tables Interpolation MPBox MPVSS.

Module MPVSSOk.
Import MPBox MPVSS.

#[local] Notation "x ≡L y" := (x mod SC25519.L = y mod SC25519.L) (at level 70).

(** ** Computations over maps *)

Lemma map_M_Forall2 {A B : Type} (f : A -> outcome B) l l' :
  map_M f l = Return l' <-> Forall2 (fun x y => f x = Return y) l l'.
Proof.
  split.
  - revert l'. induction l as [|x l IH]; intros l' E; cbn [map_M] in E; [injection E as <-; constructor|].
    destruct (f x) as [y| |] eqn:Ey; [|done|done]. cbn [mbind outcome_bind] in E.
    destruct (map_M f l) as [ys| |]; [|done|done]. injection E as <-. constructor; [done|by apply IH].
  - induction 1 as [|x y l l' E _ IH]; [done|]. cbn [map_M]. rewrite E. cbn [mbind outcome_bind]. by rewrite IH.
Qed.

Lemma map_M_total {A B : Type} (f : A -> outcome B) l :
  (forall x, x ∈ l -> exists y, f x = Return y) -> exists l', map_M f l = Return l'.
Proof.
  induction l as [|x l IH]; intros H; [by exists []|]. destruct (H x) as [y E]; [left|].
  destruct IH as [l' E']; [intros z Hz; apply H; by right|]. exists (y :: l'). cbn [map_M]. rewrite E. cbn [mbind outcome_bind].
  by rewrite E'.
Qed.

(** A computation for the entries of a map *)
Lemma map_M_map {A B : Type} (g : Z -> A -> outcome B) (m : gmap Z A) :
  (forall id a, m !! id = Some a -> exists b, g id a = Return b) ->
  exists l, map_M (fun '(id, a) => b ← g id a; Return (id, b)) (map_list m) = Return l /\
    (forall id a, m !! id = Some a -> exists b, g id a = Return b /\ (list_to_map l : gmap Z B) !! id = Some b) /\
    (forall id, m !! id = None -> (list_to_map l : gmap Z B) !! id = None).
Proof.
  intros H. destruct (map_M_total (fun '(id, a) => b ← g id a; Return (id, b)) (map_list m)) as [l El].
  { intros [id a] Hin. apply CWalleveStreamOk.elem_of_map_entries in Hin. destruct (H id a Hin) as [b E].
    rewrite E. by eexists. }
  exists l. split; [done|]. apply map_M_Forall2 in El.
  assert (Hfst : l.*1 = (map_list m).*1).
  { clear H. induction El as [|[id a] [id' b] l1 l2 E _ IH]; [done|]. cbn [fmap list_fmap fst].
    destruct (g id a); [|done|done]. injection E as <- _. by rewrite <- IH. }
  assert (Hnd : NoDup l.*1) by (rewrite Hfst; apply CWalleveStreamOk.NoDup_map_entries). split.
  - intros id a Ha. destruct (H id a Ha) as [b E]. exists b. split; [done|].
    assert (Hin : (id, a) ∈ map_list m) by (by apply CWalleveStreamOk.elem_of_map_entries).
    apply elem_of_list_to_map_1; [done|]. clear Hfst Hnd H Ha. rename Hin into Ha. generalize dependent (map_list m). intros ml El Ha.
    induction El as [|[id' a'] [id2 b'] l1 l2 E' _ IH]; [by apply elem_of_nil in Ha|].
    apply elem_of_cons in Ha as [Ha|Ha]; [|right; by apply IH]. injection Ha as <- <-. rewrite E in E'.
    injection E' as <- <-. left.
  - intros id Hid. apply not_elem_of_list_to_map_1. rewrite Hfst. intros Hin.
    apply list_elem_of_fmap in Hin as ([id' a] & -> & Hin). apply CWalleveStreamOk.elem_of_map_entries in Hin.
    cbn [fst] in Hid. congruence.
Qed.

(** ** Enrolment *)

Definition total (cs : list CMPCandidate) : Z := foldr (fun c t => ca_nWeight c + t) 0 cs.

Definition thresh (cs : list CMPCandidate) : Z := total cs / 2 + 1.

(** The candidates with their first indices *)
Fixpoint place (n : Z) (cs : list CMPCandidate) : list (CMPCandidate * Z) :=
  match cs with [] => [] | c :: cs => (c, n) :: place (n + ca_nWeight c) cs end.

Record candidates_ok (cs : list CMPCandidate) : Prop := {
  co_nodup : NoDup (map ca_nIdent cs);
  co_verify : Forall (fun c => Candidate_Verify c = true) cs;
  co_weight : Forall (fun c => 0 <= ca_nWeight c) cs;
  co_total : total cs <= 51;
  co_coeffs : Forall (fun c => thresh cs <= Z.of_nat (length (vEncryptedCoeff (ca_sBox c)))) cs;
}.

Lemma total_nonneg cs : Forall (fun c => 0 <= ca_nWeight c) cs -> 0 <= total cs.
Proof. induction 1; cbn [total foldr] in *; unfold total in *; lia. Qed.

Lemma place_range n cs c i :
  Forall (fun c => 0 <= ca_nWeight c) cs -> (c, i) ∈ place n cs ->
  c ∈ cs /\ n <= i /\ i + ca_nWeight c <= n + total cs /\ 0 <= ca_nWeight c.
Proof.
  intros Hw. revert n. induction Hw as [|c0 cs H0 Hw IH]; intros n Hin; cbn [place] in Hin; [by apply elem_of_nil in Hin|].
  pose proof (total_nonneg _ Hw). cbn [total foldr]. fold (total cs). apply elem_of_cons in Hin as [E|Hin].
  - injection E as -> ->. split; [left|lia].
  - destruct (IH _ Hin) as (Hc & Hi). split; [by right|lia].
Qed.

Lemma place_elem n cs c : c ∈ cs -> exists i, (c, i) ∈ place n cs.
Proof.
  revert n. induction cs as [|c0 cs IH]; intros n Hin; [by apply elem_of_nil in Hin|].
  apply elem_of_cons in Hin as [->|Hin]; [exists n; left|]. destruct (IH (n + ca_nWeight c0) Hin) as [i Hi]. exists i. by right.
Qed.

(** The ranges of two candidates do not meet. *)
Lemma place_disjoint n cs c i c' i' :
  NoDup (map ca_nIdent cs) -> Forall (fun c => 0 <= ca_nWeight c) cs -> (c, i) ∈ place n cs -> (c', i') ∈ place n cs ->
  ca_nIdent c = ca_nIdent c' /\ c = c' /\ i = i' \/
  ca_nIdent c <> ca_nIdent c' /\ (i + ca_nWeight c <= i' \/ i' + ca_nWeight c' <= i).
Proof.
  intros Hnd Hw. revert n Hnd. induction Hw as [|c0 cs H0 Hw IH]; intros n Hnd H1 H2; cbn [place] in *;
    [by apply elem_of_nil in H1|]. cbn [map] in Hnd. inversion Hnd as [|? ? Hn0 Hnd']; subst.
  assert (Hne : forall c i, (c, i) ∈ place (n + ca_nWeight c0) cs -> ca_nIdent c <> ca_nIdent c0 /\ n + ca_nWeight c0 <= i).
  { intros d j Hj. destruct (place_range _ _ _ _ Hw Hj) as (Hd & Hj' & _). split; [|done].
    intros E. apply Hn0. rewrite <- E. by apply list_elem_of_fmap_2. }
  apply elem_of_cons in H1 as [E1|H1]; apply elem_of_cons in H2 as [E2|H2].
  - injection E1 as -> ->. injection E2 as -> ->. by left.
  - injection E1 as -> ->. destruct (Hne _ _ H2). right. split; [congruence|lia].
  - injection E2 as -> ->. destruct (Hne _ _ H1). right. split; [congruence|lia].
  - by apply (IH (n + ca_nWeight c0)).
Qed.

Lemma verified_pubkey c : Candidate_Verify c = true -> Sealed_PubKey (ca_sBox c) = Return (nPubKey (ca_sBox c)).
Proof. unfold Candidate_Verify, VerifyIdent, Sealed_PubKey. by destruct (Sealed_IsNull _). Qed.

Lemma u64_small z : 0 <= z <= 1000 -> u64 z = z.
Proof. intros Hz. apply Z.mod_small. lia. Qed.

Lemma u32_small z : 0 <= z <= 1000 -> u32 z = z.
Proof. intros Hz. apply Z.mod_small. lia. Qed.

(** The participant a candidate becomes for the node [s] *)
Definition enrolled (s : CMPSecretShare) (c : CMPCandidate) (i : Z) : CMPParticipant :=
  participant_of c i (SharedKey (ss_myBox s) (nPubKey (ca_sBox c))).

(** What enrolling changes: [s] before, [s'] after the candidates placed as [pl] *)
Record enrolling (s s' : CMPSecretShare) (pl : list (CMPCandidate * Z)) : Prop := {
  en_ident : ss_nIdent s' = ss_nIdent s;
  en_box : ss_myBox s' = ss_myBox s;
  en_opened : ss_mapOpenedShare s' = ss_mapOpenedShare s;
  en_part : forall c i, (c, i) ∈ pl -> ca_nIdent c <> ss_nIdent s ->
    ss_mapParticipant s' !! ca_nIdent c = Some (enrolled s c i);
  en_other : forall id, (forall c i, (c, i) ∈ pl -> ca_nIdent c = id -> id = ss_nIdent s) ->
    ss_mapParticipant s' !! id = ss_mapParticipant s !! id;
  en_own : forall c i, (c, i) ∈ pl -> ca_nIdent c = ss_nIdent s -> ss_nIndex s' = i /\ ss_nWeight s' = ca_nWeight c;
  en_absent : (forall c i, (c, i) ∈ pl -> ca_nIdent c <> ss_nIdent s) ->
    ss_nIndex s' = ss_nIndex s /\ ss_nWeight s' = ss_nWeight s;
}.

(** One candidate *)
Lemma enroll_one_spec s n c :
  Candidate_Verify c = true -> 0 <= ca_nWeight c -> 1 <= n -> n + ca_nWeight c <= 52 ->
  (ca_nIdent c <> ss_nIdent s -> ss_mapParticipant s !! ca_nIdent c = None) ->
  exists s', enroll_one (s, n) c = (s', n + ca_nWeight c) /\ enrolling s s' [(c, n)].
Proof.
  intros Hv Hw Hn Hl Hnone. unfold enroll_one. rewrite u64_small by lia.
  destruct (Z.eqb_spec (ca_nIdent c) (ss_nIdent s)) as [E|Hne].
  - eexists. split; [reflexivity|]. split; cbn; try done.
    + intros d j Hj Hd. apply list_elem_of_singleton in Hj. injection Hj as -> ->. done.
    + intros d j Hj Hd. apply list_elem_of_singleton in Hj. injection Hj as -> ->. done.
    + intros H. by destruct (H c n ltac:(left)).
  - rewrite (Hnone Hne), Hv, verified_pubkey by done. eexists. split; [reflexivity|]. split; cbn; try done.
    + intros d j Hj Hd. apply list_elem_of_singleton in Hj. injection Hj as -> ->. by rewrite lookup_insert_eq.
    + intros id H. rewrite lookup_insert_ne; [done|]. intros E. apply Hne. rewrite E. by apply (H c n ltac:(left)).
    + intros d j Hj Hd. apply list_elem_of_singleton in Hj. injection Hj as -> ->. done.
Qed.

Lemma enrolling_cons s s1 s2 c n pl :
  enrolling s s1 [(c, n)] -> enrolling s1 s2 pl -> (forall d j, (d, j) ∈ pl -> ca_nIdent d <> ca_nIdent c) ->
  enrolling s s2 ((c, n) :: pl).
Proof.
  intros [I1 B1 O1 P1 Q1 W1 A1] [I2 B2 O2 P2 Q2 W2 A2] Hne. split; try congruence.
  - intros d j Hj Hd. apply elem_of_cons in Hj as [E|Hj].
    + injection E as -> ->. rewrite Q2; [apply P1; [left|done]|].
      intros d' j' Hj' E'. by destruct (Hne _ _ Hj').
    + rewrite (P2 d j) by (done || congruence). unfold enrolled. by rewrite B1.
  - intros id H. rewrite Q2, Q1; [done| |].
    + intros d j Hj Hd. apply (H d j); [|done]. apply list_elem_of_singleton in Hj. rewrite Hj. left.
    + intros d j Hj Hd. rewrite I1. apply (H d j); [by right|done].
  - intros d j Hj Hd. apply elem_of_cons in Hj as [E|Hj].
    + injection E as -> ->. destruct A2 as [-> ->]; [|by apply (W1 c n); [left|]].
      intros d' j' Hj'. rewrite I1, <- Hd. by apply (Hne d' j').
    + apply (W2 d j); [done|congruence].
  - intros H. destruct A2 as [-> ->]; [intros d j Hj; rewrite I1; apply (H d j); by right|].
    apply A1. intros d j Hj. apply (H d j). apply list_elem_of_singleton in Hj. rewrite Hj. left.
Qed.

Lemma enroll_foldl cs s n :
  NoDup (map ca_nIdent cs) -> Forall (fun c => Candidate_Verify c = true) cs -> Forall (fun c => 0 <= ca_nWeight c) cs ->
  1 <= n -> n + total cs <= 52 ->
  (forall c, c ∈ cs -> ca_nIdent c <> ss_nIdent s -> ss_mapParticipant s !! ca_nIdent c = None) ->
  exists s', foldl enroll_one (s, n) cs = (s', n + total cs) /\ enrolling s s' (place n cs).
Proof.
  intros Hnd Hv Hw. revert s n Hnd Hv. induction Hw as [|c cs H0 Hw IH]; intros s n Hnd Hv Hn Hl Hnone.
  { exists s. cbn. rewrite Z.add_0_r. split; [done|]. split; try done; intros c i Hi; by apply elem_of_nil in Hi. }
  cbn [map] in Hnd. inversion Hnd as [|? ? Hc Hnd']; inversion Hv as [|? ? Hvc Hv']; subst.
  cbn [total foldr] in Hl. fold (total cs) in Hl. pose proof (total_nonneg _ Hw).
  destruct (enroll_one_spec s n c Hvc H0 Hn ltac:(lia)) as (s1 & E1 & H1); [apply Hnone; left|].
  assert (Hdiff : forall d j, (d, j) ∈ place (n + ca_nWeight c) cs -> ca_nIdent d <> ca_nIdent c).
  { intros d j Hj E. destruct (place_range _ _ _ _ Hw Hj) as (Hd & _). apply Hc. rewrite <- E. by apply list_elem_of_fmap_2. }
  destruct (IH s1 (n + ca_nWeight c) Hnd' Hv' ltac:(lia) ltac:(lia)) as (s2 & E2 & H2).
  { intros d Hd Hne. rewrite (en_ident _ _ _ H1) in Hne. rewrite (en_other _ _ _ H1); [apply Hnone; [by right|done]|].
    intros d' j Hj E. apply list_elem_of_singleton in Hj. injection Hj as -> ->.
    exfalso. apply Hc. rewrite E. by apply list_elem_of_fmap_2. }
  exists s2. cbn [foldl place total foldr]. rewrite E1, E2. split; [f_equal; fold (total cs); lia|].
  by apply (enrolling_cons s s1).
Qed.

(** The participant of the candidate [c] at index [i]: its box is prepared, and
    its shares, if any, are those this node accepted. *)
Record participant_ok (cs : list CMPCandidate) (s : CMPSecretShare) (c : CMPCandidate) (i : Z) (p : CMPParticipant) : Prop := {
  po_index : pa_nIndex p = i;
  po_weight : pa_nWeight p = ca_nWeight c;
  po_box : PrecalcPolynomial (ca_sBox c) (Z.to_nat (thresh cs)) (Z.to_nat (total cs + 1)) = Return (pa_sBox p);
  po_key : pa_nSharedKey p = SharedKey (ss_myBox s) (nPubKey (ca_sBox c));
  po_share : pa_vShare p = [] \/ Z.of_nat (length (pa_vShare p)) = ss_nWeight s /\ Forall (is_uint 256) (pa_vShare p) /\
    VerifyShare p (ss_nIndex s) (pa_vShare p) = true;
}.

(** A node that enrolled the candidates [cs] *)
Record ready (cs : list CMPCandidate) (s : CMPSecretShare) : Prop := {
  rd_thresh : ss_nThresh s = thresh cs;
  rd_part : forall c i, (c, i) ∈ place 1 cs -> ca_nIdent c <> ss_nIdent s ->
    exists p, ss_mapParticipant s !! ca_nIdent c = Some p /\ participant_ok cs s c i p;
  rd_only : forall id p, ss_mapParticipant s !! id = Some p ->
    exists c i, (c, i) ∈ place 1 cs /\ ca_nIdent c = id /\ id <> ss_nIdent s;
  rd_own : forall c i, (c, i) ∈ place 1 cs -> ca_nIdent c = ss_nIdent s -> ss_nIndex s = i /\ ss_nWeight s = ca_nWeight c;
  rd_absent : ss_nIdent s ∉ map ca_nIdent cs -> ss_nIndex s = 0 /\ ss_nWeight s = 0;
}.

Lemma thresh_range cs : candidates_ok cs -> 1 <= thresh cs <= 26 /\ 0 <= total cs <= 51.
Proof. intros H. pose proof (total_nonneg _ (co_weight _ H)). pose proof (co_total _ H). unfold thresh. Z.to_euclidean_division_equations. lia. Qed.

Lemma Enroll_spec cs s :
  candidates_ok cs -> ss_mapParticipant s = ∅ -> ss_nIndex s = 0 -> ss_nWeight s = 0 ->
  exists s', Enroll s cs = Return s' /\ ready cs s' /\ ss_nIdent s' = ss_nIdent s /\ ss_myBox s' = ss_myBox s /\
    ss_mapOpenedShare s' = ss_mapOpenedShare s.
Proof.
  intros Hok Hm Hi Hw. pose proof (thresh_range cs Hok) as [Ht Htot].
  destruct (enroll_foldl cs s 1 (co_nodup _ Hok) (co_verify _ Hok) (co_weight _ Hok)) as (s1 & E1 & [I1 B1 O1 P1 Q1 W1 A1]);
    [lia|lia|intros; by rewrite Hm|].
  unfold Enroll. rewrite E1. replace (u64 (u64 (1 + total cs - 1) / 2 + 1)) with (thresh cs).
  2: { unfold thresh. rewrite (u64_small (1 + total cs - 1)), u64_small by (Z.to_euclidean_division_equations; lia). do 2 f_equal. lia. }
  assert (Hpart : forall id p, ss_mapParticipant s1 !! id = Some p ->
    exists c i, (c, i) ∈ place 1 cs /\ ca_nIdent c = id /\ id <> ss_nIdent s /\ p = enrolled s c i).
  { intros id p Hp. destruct (decide (id ∈ map ca_nIdent cs /\ id <> ss_nIdent s)) as [[Hin Hne]|Hno].
    - apply list_elem_of_fmap in Hin as (c & -> & Hc). destruct (place_elem 1 cs c Hc) as [i Hpl].
      rewrite (P1 c i Hpl Hne) in Hp. injection Hp as <-. by exists c, i.
    - rewrite Q1, Hm in Hp; [done|]. intros c i Hpl <-.
      destruct (place_range _ _ _ _ (co_weight _ Hok) Hpl) as (Hc & _).
      destruct (decide (ca_nIdent c = ss_nIdent s)); [done|]. exfalso. apply Hno. split; [by apply list_elem_of_fmap_2|done]. }
  destruct (map_M_map (fun _ p => PrepareVerification p (thresh cs) (1 + total cs)) (ss_mapParticipant s1)) as (l & -> & Hl & Hnone).
  { intros id p Hp. destruct (Hpart id p Hp) as (c & i & Hpl & _ & _ & ->).
    destruct (place_range _ _ _ _ (co_weight _ Hok) Hpl) as (Hc & _). pose proof (co_coeffs _ Hok) as Hco.
    rewrite Forall_forall in Hco. specialize (Hco c Hc).
    destruct (PrecalcPolynomial_total (ca_sBox c) (Z.to_nat (thresh cs)) (Z.to_nat (1 + total cs))) as (b & Eb & _); [lia|lia|lia|].
    unfold PrepareVerification, enrolled, participant_of. cbn [pa_sBox]. rewrite Eb. by eexists. }
  cbn [mbind outcome_bind]. eexists. split; [reflexivity|]. split; [|done]. split; cbn.
  - done.
  - intros c i Hpl Hne. rewrite I1 in Hne. destruct (Hl _ _ (P1 c i Hpl Hne)) as (p & Ep & Hp). exists p. split; [done|].
    unfold PrepareVerification in Ep. cbn [enrolled participant_of pa_sBox] in Ep.
    destruct (PrecalcPolynomial _ _ _) as [b| |] eqn:Eb; [|done|done]. injection Ep as <-.
    split; cbn; [done|done|by rewrite Z.add_comm|by rewrite B1|by left].
  - intros id p Hp. destruct (ss_mapParticipant s1 !! id) as [p1|] eqn:E; [|by rewrite (Hnone id E) in Hp].
    destruct (Hpart id p1 E) as (c & i & Hpl & Ec & Hne & _). exists c, i. by rewrite I1.
  - intros c i Hpl Ec. rewrite I1 in Ec. by apply (W1 c i).
  - rewrite I1. intros Hno. destruct A1 as [-> ->]; [|done]. intros c i Hpl E. apply Hno. rewrite <- E.
    destruct (place_range _ _ _ _ (co_weight _ Hok) Hpl) as (Hc & _). by apply list_elem_of_fmap_2.
Qed.

(** The range of a candidate is the same for every node. *)
Lemma range_of cs s c i :
  candidates_ok cs -> ready cs s -> (c, i) ∈ place 1 cs -> GetParticipantRange s (ca_nIdent c) = Some (i, ca_nWeight c).
Proof.
  intros Hok Hr Hpl. unfold GetParticipantRange. destruct (Z.eqb_spec (ca_nIdent c) (ss_nIdent s)) as [E|Hne].
  - destruct (rd_own _ _ Hr c i Hpl E) as [-> ->]. done.
  - destruct (rd_part _ _ Hr c i Hpl Hne) as (p & -> & Hp). cbn. by rewrite (po_index _ _ _ _ _ Hp), (po_weight _ _ _ _ _ Hp).
Qed.

(** The only other range is the empty one of a witness. *)
Lemma range_inv cs s id i w :
  candidates_ok cs -> ready cs s -> GetParticipantRange s id = Some (i, w) ->
  (exists c, (c, i) ∈ place 1 cs /\ ca_nIdent c = id /\ w = ca_nWeight c) \/ id ∉ map ca_nIdent cs /\ w = 0.
Proof.
  intros Hok Hr H. destruct (decide (id ∈ map ca_nIdent cs)) as [Hin|Hno].
  - apply list_elem_of_fmap in Hin as (c & -> & Hc). destruct (place_elem 1 cs c Hc) as [j Hpl].
    rewrite (range_of cs s c j Hok Hr Hpl) in H. injection H as <- <-. left. by exists c.
  - right. split; [done|]. unfold GetParticipantRange in H. destruct (Z.eqb_spec id (ss_nIdent s)) as [E|Hne].
    + rewrite E in Hno. destruct (rd_absent _ _ Hr Hno) as [_ Hw]. congruence.
    + destruct (ss_mapParticipant s !! id) as [p|] eqn:E; [|done].
      destruct (rd_only _ _ Hr id p E) as (c & j & Hpl & <- & _). exfalso. apply Hno.
      destruct (place_range _ _ _ _ (co_weight _ Hok) Hpl) as (Hc & _). by apply list_elem_of_fmap_2.
Qed.

(** ** Collecting *)

(** The shares [v] of the participant [id] pass the tests of [Collect] for a
    sender with range [(i, w)]. *)
Definition entry_ok (s : CMPSecretShare) (i w : Z) (entry : Z * list Z) : Prop :=
  Z.of_nat (length entry.2) = w /\
  (entry.1 = ss_nIdent s /\ own_shares s i 0 entry.2 = Return true \/
   entry.1 <> ss_nIdent s /\ exists p, ss_mapParticipant s !! entry.1 = Some p /\ VerifyShare p i entry.2 = true).

Lemma collect_loop_iff s i w l :
  (exists ps, collect_loop s i w l = Return (Some ps) /\ forallb (fun '(p, v) => VerifyShare p i v) ps = true) <->
  Forall (entry_ok s i w) l.
Proof.
  induction l as [|[id v] l IH]; cbn [collect_loop].
  { split; [intros _; constructor|]. intros _. by exists []. }
  rewrite Forall_cons, <- IH. unfold entry_ok at 1. cbn [fst snd].
  destruct (Z.eqb_spec w (Z.of_nat (length v))) as [Ew|Hw]; cbn [negb]; [|split; [by intros (? & ? & _)|lia]].
  destruct (Z.eqb_spec id (ss_nIdent s)) as [Eid|Hid].
  - destruct (own_shares s i 0 v) as [[]| |]; cbn [mbind outcome_bind]; split; naive_solver.
  - destruct (ss_mapParticipant s !! id) as [p|]; [|split; naive_solver].
    destruct (collect_loop s i w l) as [[ps|]| |]; cbn [mbind outcome_bind]; [|split; naive_solver..]. split.
    + intros (ps' & E & Hall). injection E as <-. cbn [forallb] in Hall. apply andb_true_iff in Hall as [Hp Hps].
      split; [|by exists ps]. split; [done|]. right. split; [done|]. by exists p.
    + intros [[_ [[? _]|[_ (p' & E & Hp)]]] (ps' & E' & Hps)]; [done|]. injection E as <-. injection E' as <-.
      exists ((p, v) :: ps). split; [done|]. cbn [forallb]. by rewrite Hp, Hps.
Qed.

(** [Collect] accepts exactly the messages whose shares pass. *)
Lemma Collect_iff s from ms fC s' :
  Collect s from ms = Return (true, fC, s') <->
  exists i w, GetParticipantRange s from = Some (i, w) /\ (forall id v, ms !! id = Some v -> entry_ok s i w (id, v)) /\
    let r := foldl (open_one s i w) (ss_mapOpenedShare s, 0) (map_list ms) in
    s' = set_opened s r.1 /\ fC = (Z.of_nat (size ms) <=? r.2).
Proof.
  unfold Collect. destruct (GetParticipantRange s from) as [[i w]|]; [|split; naive_solver].
  pose proof (collect_loop_iff s i w (map_list ms)) as Hiff.
  assert (Hall : Forall (entry_ok s i w) (map_list ms) <-> forall id v, ms !! id = Some v -> entry_ok s i w (id, v)).
  { rewrite Forall_forall. split.
    - intros H id v Hv. apply H. by apply CWalleveStreamOk.elem_of_map_entries.
    - intros H [id v] Hin. apply H. by apply CWalleveStreamOk.elem_of_map_entries in Hin. }
  rewrite Hall in Hiff. clear Hall. destruct (foldl _ _ _) as [opened n] eqn:Ef.
  destruct (collect_loop s i w (map_list ms)) as [[ps|]| |]; cbn [mbind outcome_bind].
  - destruct (forallb _ ps) eqn:Eps.
    + split.
      * intros E. injection E as <- <-. exists i, w. split; [done|]. split; [apply Hiff; by exists ps|]. by rewrite Ef.
      * intros (i' & w' & E & _ & Hr). injection E as <- <-. rewrite Ef in Hr. by destruct Hr as [-> ->].
    + split; [done|]. intros (i' & w' & E & H & _). injection E as <- <-. apply Hiff in H as (ps' & E' & Hps).
      injection E' as <-. congruence.
  - split; [done|]. intros (i' & w' & E & H & _). injection E as <- <-. apply Hiff in H as (ps' & E' & Hps). done.
  - split; [done|]. intros (i' & w' & E & H & _). injection E as <- <-. apply Hiff in H as (ps' & E' & Hps). done.
  - split; [done|]. intros (i' & w' & E & H & _). injection E as <- <-. apply Hiff in H as (ps' & E' & Hps). done.
Qed.

(** What the second loop adds *)
Lemma open_fold s i w l opened n :
  NoDup l.*1 ->
  (forall id v, (id, v) ∈ l -> (foldl (open_one s i w) (opened, n) l).1 !! id =
    Some (open_shares s i w (default [] (opened !! id)) v)) /\
  (forall id, id ∉ l.*1 -> (foldl (open_one s i w) (opened, n) l).1 !! id = opened !! id).
Proof.
  revert opened n. induction l as [|[id0 v0] l IH]; intros opened n Hnd.
  { split; [intros id v H; by apply elem_of_nil in H|done]. }
  cbn [fmap list_fmap fst] in Hnd. inversion Hnd as [|? ? H0 Hnd']; subst. cbn [foldl open_one fst snd].
  destruct (IH (<[id0 := open_shares s i w (default [] (opened !! id0)) v0]> opened)
    (if Z.of_nat (length (open_shares s i w (default [] (opened !! id0)) v0)) =? ss_nThresh s then n + 1 else n) Hnd') as [H1 H2].
  split.
  - intros id v Hin. apply elem_of_cons in Hin as [E|Hin].
    + injection E as -> ->. rewrite H2 by done. by rewrite lookup_insert_eq.
    + rewrite (H1 id v Hin), lookup_insert_ne; [done|]. intros ->. apply H0. by apply (list_elem_of_fmap_2 fst _ (id, v)).
  - intros id Hid. cbn [fmap list_fmap fst] in Hid. apply not_elem_of_cons in Hid as [Hne Hid].
    rewrite H2 by done. by rewrite lookup_insert_ne.
Qed.

Lemma own_shares_opened s o i k v : own_shares (set_opened s o) i k v = own_shares s i k v.
Proof.
  revert k. induction v as [|y v IH]; intros k; [done|]. cbn [own_shares]. change (ss_myBox (set_opened s o)) with (ss_myBox s).
  change (ss_nThresh (set_opened s o)) with (ss_nThresh s). destruct (Polynomial _ _ _); [|done|done].
  cbn [mbind outcome_bind]. by rewrite IH.
Qed.

Lemma entry_ok_opened s o i w entry : entry_ok (set_opened s o) i w entry -> entry_ok s i w entry.
Proof. unfold entry_ok. by rewrite own_shares_opened. Qed.

(** A witness [s] after the messages [hist], the last one last *)
Inductive collected (s : CMPSecretShare) : list (Z * gmap Z (list Z)) -> CMPSecretShare -> Prop :=
  | collected_none : collected s [] s
  | collected_one hist s1 from ms fC s2 :
      collected s hist s1 -> Collect s1 from ms = Return (true, fC, s2) -> collected s (hist ++ [(from, ms)]) s2.

(** The shares of [id] in one message and in all of them *)
Definition shares_in (s : CMPSecretShare) (id : Z) (msg : Z * gmap Z (list Z)) : list (Z * Z) :=
  match GetParticipantRange s msg.1, msg.2 !! id with
  | Some (i, w), Some v => zip (map (fun k => u32 (i + k)) (seqZ 0 w)) v
  | _, _ => []
  end.

Definition shares_of (s : CMPSecretShare) (id : Z) (hist : list (Z * gmap Z (list Z))) : list (Z * Z) :=
  flat_map (shares_in s id) hist.

(** The opened shares are the first ones of the history, up to the threshold. *)
Lemma collected_opened s hist s' :
  ss_mapOpenedShare s = ∅ -> collected s hist s' ->
  s' = set_opened s (ss_mapOpenedShare s') /\
  (forall id, default [] (ss_mapOpenedShare s' !! id) = take (Z.to_nat (ss_nThresh s)) (shares_of s id hist)) /\
  (forall from ms, (from, ms) ∈ hist -> exists i w, GetParticipantRange s from = Some (i, w) /\
    forall id v, ms !! id = Some v -> entry_ok s i w (id, v)).
Proof.
  intros H0 Hc. induction Hc as [|hist s1 from ms fC s2 Hc IH E].
  { split; [by destruct s|]. split; [|intros from ms Hin; by apply elem_of_nil in Hin].
    intros id. rewrite H0, lookup_empty. by destruct (Z.to_nat (ss_nThresh s)). }
  destruct IH as (E1 & Hop & Hh). apply Collect_iff in E as (i & w & Hr & Hall & -> & _).
  rewrite E1 in Hr, Hall. change (GetParticipantRange s from = Some (i, w)) in Hr.
  assert (Hall' : forall id v, ms !! id = Some v -> entry_ok s i w (id, v)).
  { intros id v Hv. by apply (entry_ok_opened s (ss_mapOpenedShare s1)), Hall. }
  clear Hall. split; [by rewrite E1|].
  split; [|intros f m Hin; apply elem_of_app in Hin as [Hin|Hin]; [by apply Hh|];
    apply list_elem_of_singleton in Hin; injection Hin as -> ->; by exists i, w].
  intros id. unfold shares_of. rewrite flat_map_app. cbn [flat_map]. rewrite app_nil_r.
  fold (shares_of s id hist). unfold shares_in. cbn [fst snd]. rewrite Hr. cbn [ss_mapOpenedShare set_opened].
  destruct (open_fold s1 i w (map_list ms) (ss_mapOpenedShare s1) 0 (CWalleveStreamOk.NoDup_map_entries Z.lt ms)) as [Hin Hno].
  destruct (ms !! id) as [v|] eqn:Ev.
  - rewrite (Hin id v) by (by apply CWalleveStreamOk.elem_of_map_entries). cbn [default]. rewrite Hop. unfold open_shares.
    rewrite E1. cbn [ss_nThresh set_opened]. rewrite take_app, length_take.
    unfold Datatypes.id. do 2 f_equal. lia.
  - rewrite Hno, app_nil_r; [apply Hop|]. intros Hid. apply list_elem_of_fmap in Hid as ([id' v] & -> & Hid).
    apply CWalleveStreamOk.elem_of_map_entries in Hid. cbn [fst] in Ev. congruence.
Qed.

(** ** The collected shares *)

Lemma VerifyShare_spec p n poly i v :
  prepared (pa_sBox p) n poly -> 1 <= i -> i + Z.of_nat (length v) <= Z.of_nat n -> (n <= 52)%nat -> Forall (is_uint 256) v ->
  VerifyShare p i v = true <-> forall k y, v !! k = Some y -> y ≡L Interpolation.eval poly (i + Z.of_nat k).
Proof.
  intros Hp. revert i. induction v as [|y v IH]; intros i Hi Hl Hn Hu; cbn [VerifyShare]; [split; [by intros _ k z Hk|done]|].
  inversion Hu as [|? ? Hy Hu']; subst. cbn [length] in Hl.
  rewrite u32_small, u64_small, (VerifyPolynomial_spec _ n poly) by (done || lia).
  rewrite (proj2 (Z.ltb_lt _ _)) by lia. cbn [andb]. case_bool_decide as E.
  - rewrite (IH (i + 1)) by (done || lia). split.
    + intros H [|k] z Hk; [injection Hk as <-; by rewrite Z.add_0_r|].
      replace (i + Z.of_nat (S k)) with (i + 1 + Z.of_nat k) by lia. by apply H.
    + intros H k z Hk. replace (i + 1 + Z.of_nat k) with (i + Z.of_nat (S k)) by lia. by apply H.
  - split; [done|]. intros H. exfalso. apply E. specialize (H 0%nat y eq_refl). by rewrite Z.add_0_r in H.
Qed.

Section collected.
Context (cs : list CMPCandidate) (s : CMPSecretShare) (hist : list (Z * gmap Z (list Z))).
Context (cs_ok : candidates_ok cs) (s_ready : ready cs s).

(** The messages were accepted, and their shares are 256-bit numbers. *)
Context (hist_ok : forall from ms, (from, ms) ∈ hist -> exists i w, GetParticipantRange s from = Some (i, w) /\
  forall id v, ms !! id = Some v -> entry_ok s i w (id, v)).
Context (hist_uint : forall from ms id v, (from, ms) ∈ hist -> ms !! id = Some v -> Forall (is_uint 256) v).

Lemma seqZ_elem k w x : seqZ 0 w !! k = Some x -> x = Z.of_nat k /\ (0 <= Z.of_nat k < w).
Proof. intros H. apply lookup_seqZ in H. lia. Qed.

(** A share of a message comes from the range of its sender. *)
Lemma shares_in_elem id from ms x y :
  (from, ms) ∈ hist -> (x, y) ∈ shares_in s id (from, ms) ->
  exists c i k v, (c, i) ∈ place 1 cs /\ ca_nIdent c = from /\ ms !! id = Some v /\ v !! k = Some y /\
    x = i + Z.of_nat k /\ Z.of_nat k < ca_nWeight c /\ entry_ok s i (ca_nWeight c) (id, v).
Proof.
  intros Hin Hxy. destruct (hist_ok from ms Hin) as (i & w & Hr & Hall). unfold shares_in in Hxy. cbn [fst snd] in Hxy.
  rewrite Hr in Hxy. destruct (ms !! id) as [v|] eqn:Ev; [|by apply elem_of_nil in Hxy].
  apply list_elem_of_lookup in Hxy as [k Hk]. apply lookup_zip_Some in Hk as [Hx Hy].
  rewrite list_lookup_fmap in Hx. destruct (seqZ 0 w !! k) as [k'|] eqn:Ek; [|done]. injection Hx as <-.
  apply seqZ_elem in Ek as [-> Hkw].
  destruct (range_inv cs s from i w cs_ok s_ready Hr) as [(c & Hpl & Ec & ->)|[_ ->]]; [|lia].
  destruct (place_range _ _ _ _ (co_weight _ cs_ok) Hpl) as (_ & Hi & Hi' & _). pose proof (co_total _ cs_ok).
  exists c, i, k, v. rewrite u32_small by lia. split_and!; [done|done|done|done|done|lia|by apply Hall].
Qed.

Lemma shares_in_nodup id from ms : (from, ms) ∈ hist -> NoDup (shares_in s id (from, ms)).*1.
Proof.
  intros Hin. destruct (hist_ok from ms Hin) as (i & w & Hr & Hall). unfold shares_in. cbn [fst snd]. rewrite Hr.
  destruct (ms !! id) as [v|] eqn:Ev; [|constructor]. destruct (Hall id v Ev) as [Hl _]. cbn [snd] in Hl.
  rewrite fst_zip by (rewrite length_fmap, length_seqZ; lia). apply NoDup_fmap_2_strong; [|apply NoDup_seqZ].
  intros a b Ha Hb E. apply elem_of_seqZ in Ha, Hb.
  destruct (range_inv cs s from i w cs_ok s_ready Hr) as [(c & Hpl & _ & Ew)|[_ ->]]; [|lia].
  destruct (place_range _ _ _ _ (co_weight _ cs_ok) Hpl) as (_ & Hi & Hi' & _). pose proof (co_total _ cs_ok).
  rewrite !u32_small in E by lia. lia.
Qed.

(** Different senders have different indices. *)
Lemma shares_of_nodup id : NoDup hist.*1 -> NoDup (shares_of s id hist).*1.
Proof.
  intros Hnd. cut (forall h, h ⊆ hist -> NoDup h.*1 -> NoDup (shares_of s id h).*1 /\
    forall x, x ∈ (shares_of s id h).*1 -> exists c i, (c, i) ∈ place 1 cs /\ ca_nIdent c ∈ h.*1 /\ i <= x < i + ca_nWeight c).
  { intros H. by apply H. }
  clear Hnd. induction h as [|[from ms] h IH]; intros Hsub Hnd; [split; [constructor|intros x Hx; by apply elem_of_nil in Hx]|].
  cbn [fmap list_fmap fst] in Hnd. inversion Hnd as [|? ? Hfrom Hnd']; subst.
  destruct IH as [IH1 IH2]; [set_solver|done|]. assert (Hin : (from, ms) ∈ hist) by (apply Hsub; left).
  assert (Hx1 : forall x, x ∈ (shares_in s id (from, ms)).*1 ->
    exists c i, (c, i) ∈ place 1 cs /\ ca_nIdent c = from /\ i <= x < i + ca_nWeight c).
  { intros x Hx. apply list_elem_of_fmap in Hx as ([x' y] & -> & Hx).
    destruct (shares_in_elem id from ms x' y Hin Hx) as (c & i & k & v & Hpl & Ec & _ & _ & -> & Hk & _).
    exists c, i. cbn [fst]. split; [done|]. split; [done|lia]. }
  unfold shares_of. cbn [flat_map]. fold (shares_of s id h). rewrite fmap_app. split.
  - apply NoDup_app. split; [by apply shares_in_nodup|]. split; [|done]. intros x Hx Hx'.
    destruct (Hx1 x Hx) as (c & i & Hpl & Ec & Hr). destruct (IH2 x Hx') as (c' & i' & Hpl' & Hc' & Hr').
    destruct (place_disjoint 1 cs c i c' i' (co_nodup _ cs_ok) (co_weight _ cs_ok) Hpl Hpl') as [(E & _)|[_ Hd]]; [|lia].
    apply Hfrom. rewrite <- Ec, E. done.
  - intros x Hx. apply elem_of_app in Hx as [Hx|Hx].
    + destruct (Hx1 x Hx) as (c & i & Hpl & Ec & Hr). exists c, i. split; [done|]. split; [|done]. rewrite Ec. left.
    + destruct (IH2 x Hx) as (c & i & Hpl & Hc & Hr). exists c, i. split; [done|]. split; [by right|done].
Qed.

(** The shares of a dealer that committed to a polynomial are its values. *)
Lemma shares_of_dealer c i poly :
  (c, i) ∈ place 1 cs -> ca_nIdent c <> ss_nIdent s -> commits (ca_sBox c) poly ->
  Forall (Interpolation.share_of (take (Z.to_nat (thresh cs)) poly)) (shares_of s (ca_nIdent c) hist).
Proof.
  intros Hpl Hne Hcom. apply Forall_forall. intros [x y] Hxy. unfold shares_of in Hxy. apply list_elem_of_In, in_flat_map in Hxy.
  destruct Hxy as ([from ms] & Hin & Hxy). apply list_elem_of_In in Hin. apply list_elem_of_In in Hxy.
  destruct (shares_in_elem _ from ms x y Hin Hxy) as (c' & i' & k & v & Hpl' & _ & Ev & Hy & -> & Hk & Hl & Hent).
  cbn [fst snd] in Hl, Hent. destruct Hent as [[E _]|[_ (p & Hp & Hver)]]; [done|].
  destruct (rd_part _ _ s_ready c i Hpl Hne) as (p' & Hp' & Hpo). rewrite Hp in Hp'. injection Hp' as <-.
  destruct (thresh_range cs cs_ok) as [Ht Htot].
  destruct (place_range _ _ _ _ (co_weight _ cs_ok) Hpl') as (_ & Hi & Hi' & _).
  destruct (place_range _ _ _ _ (co_weight _ cs_ok) Hpl) as (Hc & _).
  pose proof (co_coeffs _ cs_ok) as Hco. rewrite Forall_forall in Hco. specialize (Hco c Hc).
  pose proof (Forall2_length _ _ _ Hcom) as Hlen.
  destruct (PrecalcPolynomial_spec (ca_sBox c) poly (Z.to_nat (thresh cs)) (Z.to_nat (total cs + 1)) Hcom) as (b & Eb & Hprep & _);
    [lia|lia|lia|]. rewrite (po_box _ _ _ _ _ Hpo) in Eb. injection Eb as <-.
  pose proof (hist_uint from ms _ v Hin Ev) as Hu.
  rewrite (VerifyShare_spec p _ _ i' v Hprep) in Hver by (lia || done).
  rewrite Forall_forall in Hu. split; [cbn [fst]; lia|]. cbn [fst snd]. split; [apply Hu; by eapply list_elem_of_lookup_2|by apply Hver].
Qed.

End collected.

(** ** Reconstruction *)

Lemma map_M_ext {A B : Type} (f g : A -> outcome B) l : (forall x, f x = g x) -> map_M f l = map_M g l.
Proof. intros H. induction l as [|x l IH]; [done|]. cbn [map_M]. by rewrite H, IH. Qed.

(** The secret of one dealer *)
Definition secret_of (s : CMPSecretShare) (id : Z) (vShare : list (Z * Z)) : outcome (Z * Z) :=
  if Z.of_nat (length vShare) =? ss_nThresh s then
    match GetParticipantRange s id with
    | Some (_, nWeightRet) => secret ← Interpolation.MPNewton vShare; Return (secret, nWeightRet)
    | None => Return (0, 0)
    end
  else Return (0, 0).

Lemma reconstruct_one_eq s entry : reconstruct_one s entry = (let '(id, v) := entry in b ← secret_of s id v; Return (id, b)).
Proof.
  destruct entry as [id v]. unfold reconstruct_one, secret_of. destruct (_ =? _); [|done].
  destruct (GetParticipantRange s id) as [[i w]|]; [|done]. by destruct (Interpolation.MPNewton v).
Qed.

Lemma secrets_lookup (l : list (Z * (Z * Z))) (m : gmap Z (Z * Z)) id :
  NoDup l.*1 ->
  foldl (fun m '(id, data) => if 0 <? data.2 then <[id := data]> m else m) m l !! id =
    match (list_to_map l : gmap Z (Z * Z)) !! id with
    | Some data => if 0 <? data.2 then Some data else m !! id
    | None => m !! id
    end.
Proof.
  revert m. induction l as [|[id0 data0] l IH]; intros m Hnd; [done|].
  cbn [fmap list_fmap fst] in Hnd. inversion Hnd as [|? ? H0 Hnd']; subst. cbn [foldl]. rewrite list_to_map_cons.
  rewrite IH by done. destruct (decide (id = id0)) as [->|Hne].
  - rewrite lookup_insert_eq, not_elem_of_list_to_map_1 by done.
    destruct (0 <? data0.2); [by rewrite lookup_insert_eq|done].
  - rewrite lookup_insert_ne by done. assert (E : (if 0 <? data0.2 then <[id0 := data0]> m else m) !! id = m !! id).
    { destruct (0 <? data0.2); [by rewrite lookup_insert_ne|done]. }
    by rewrite E.
Qed.

Lemma eval_take_0 poly n : (0 < n)%nat -> Interpolation.eval (take n poly) 0 = hd 0 poly.
Proof. intros Hn. destruct n as [|n]; [lia|]. destruct poly; [done|]. cbn [take firstn Interpolation.eval hd]. lia. Qed.

(** [Reconstruct] of any state whose opened shares have indices up to 51 *)
Lemma Reconstruct_spec s :
  1 <= ss_nThresh s -> (forall id v, ss_mapOpenedShare s !! id = Some v -> Forall (fun x => 1 <= x <= 51) v.*1) ->
  exists m, Reconstruct s ∅ = Return m /\
    forall id, exists data, secret_of s id (default [] (ss_mapOpenedShare s !! id)) = Return data /\
      m !! id = if 0 <? data.2 then Some data else None.
Proof.
  intros Hth Hidx. unfold Reconstruct. rewrite (map_M_ext _ _ _ (reconstruct_one_eq s)).
  assert (Htot : forall id v, Forall (fun x => 1 <= x <= 51) v.*1 -> exists b, secret_of s id v = Return b).
  { intros id v Hv. unfold secret_of. destruct (_ =? _); [|by eexists].
    destruct (GetParticipantRange s id) as [[i w]|]; [|by eexists].
    destruct (Interpolation.MPNewton_total v Hv) as [z ->]. by eexists. }
  destruct (map_M_map (secret_of s) (ss_mapOpenedShare s)) as (l & El & Hsome & Hnone); [eauto|].
  change (map_M (fun x : Z * list (Z * Z) => let '(id, v) := x in b ← secret_of s id v; Return (id, b)) (map_list (ss_mapOpenedShare s)) = Return l) in El.
  rewrite El. cbn [mbind outcome_bind]. eexists. split; [reflexivity|]. intros id.
  assert (Hnd : NoDup l.*1).
  { apply map_M_Forall2 in El. assert (E : l.*1 = (map_list (ss_mapOpenedShare s)).*1).
    { clear -El. induction El as [|[a v] [b d] l1 l2 E _ IH]; [done|]. cbn [fmap list_fmap fst].
      destruct (secret_of s a v); [|done|done]. injection E as <- _. by rewrite <- IH. }
    rewrite E. apply CWalleveStreamOk.NoDup_map_entries. }
  destruct (ss_mapOpenedShare s !! id) as [v|] eqn:Ev.
  - destruct (Hsome id v Ev) as (data & Ed & Hl). exists data. split; [done|].
    rewrite secrets_lookup, Hl by done. done.
  - exists (0, 0). split; [|by rewrite secrets_lookup, (Hnone id Ev) by done].
    unfold secret_of. cbn [default length]. by rewrite (proj2 (Z.eqb_neq _ _)) by lia.
Qed.

Lemma shares_of_range cs s hist id :
  candidates_ok cs -> ready cs s ->
  (forall from ms, (from, ms) ∈ hist -> exists i w, GetParticipantRange s from = Some (i, w) /\
    forall id v, ms !! id = Some v -> entry_ok s i w (id, v)) ->
  Forall (fun x => 1 <= x <= 51) (shares_of s id hist).*1.
Proof.
  intros Hok Hr Hh. apply Forall_forall. intros x Hx. apply list_elem_of_fmap in Hx as ([x' y] & -> & Hx).
  apply list_elem_of_In, in_flat_map in Hx as ([from ms] & Hin & Hx). apply list_elem_of_In in Hin, Hx.
  destruct (shares_in_elem cs s hist Hok Hr Hh id from ms x' y Hin Hx) as (c & i & k & v & Hpl & _ & _ & _ & -> & Hk & _).
  pose proof (co_total _ Hok). destruct (place_range _ _ _ _ (co_weight _ Hok) Hpl) as (_ & Hi & Hi' & _). cbn [fst]. lia.
Qed.

(** The secrets that a witness reconstructs: those of the dealers with enough
    shares, and no others. *)
Lemma Reconstruct_collected (cs : list CMPCandidate) (s s' : CMPSecretShare) (hist : list (Z * gmap Z (list Z))) :
  candidates_ok cs -> ready cs s -> ss_nIdent s ∉ map ca_nIdent cs -> ss_mapOpenedShare s = ∅ ->
  collected s hist s' -> NoDup hist.*1 ->
  (forall from ms id v, (from, ms) ∈ hist -> ms !! id = Some v -> Forall (is_uint 256) v) ->
  exists m, Reconstruct s' ∅ = Return m /\
    (forall c poly, c ∈ cs -> commits (ca_sBox c) poly -> 0 < ca_nWeight c ->
      m !! ca_nIdent c =
        if thresh cs <=? Z.of_nat (length (shares_of s (ca_nIdent c) hist))
        then Some (hd 0 poly mod SC25519.L, ca_nWeight c) else None) /\
    (forall id, id ∉ map ca_nIdent cs -> m !! id = None).
Proof.
  intros Hok Hr Hwit H0 Hc Hnd Hu. destruct (collected_opened s hist s' H0 Hc) as (Es & Hop & Hh).
  destruct (thresh_range cs Hok) as [Ht Htot].
  assert (Eth : ss_nThresh s' = thresh cs) by (rewrite Es; apply (rd_thresh _ _ Hr)).
  destruct (Reconstruct_spec s') as (m & Em & Hm); [lia| |].
  { intros id v Hv. specialize (Hop id). rewrite Hv in Hop. cbn [default] in Hop. unfold Datatypes.id in Hop. rewrite Hop.
    rewrite fmap_take. by apply Forall_take, (shares_of_range cs). }
  exists m. split; [done|]. split.
  2: { intros id Hid. destruct (Hm id) as (data & Ed & ->). unfold secret_of in Ed.
    destruct (_ =? _); [|by injection Ed as <-]. destruct (GetParticipantRange s' id) as [[i w]|] eqn:Er; [|by injection Ed as <-].
    rewrite Es in Er. destruct (range_inv cs s id i w Hok Hr Er) as [(c & Hpl & <- & _)|[_ ->]].
    - exfalso. apply Hid, list_elem_of_fmap_2. by destruct (place_range _ _ _ _ (co_weight _ Hok) Hpl).
    - destruct (Interpolation.MPNewton _); [|done|done]. by injection Ed as <-. }
  intros c poly Hcs Hcom Hw. destruct (place_elem 1 cs c Hcs) as [i Hpl].
  assert (Hne : ca_nIdent c <> ss_nIdent s) by (intros E; apply Hwit; rewrite <- E; by apply list_elem_of_fmap_2).
  destruct (Hm (ca_nIdent c)) as (data & Ed & ->). rewrite Hop in Ed. unfold secret_of in Ed.
  rewrite Eth, length_take, (rd_thresh _ _ Hr) in Ed.
  destruct (Z.leb_spec (thresh cs) (Z.of_nat (length (shares_of s (ca_nIdent c) hist)))) as [Hle|Hlt].
  - rewrite (proj2 (Z.eqb_eq _ _)) in Ed by lia.
    assert (Er : GetParticipantRange s' (ca_nIdent c) = Some (i, ca_nWeight c)) by (rewrite Es; exact (range_of cs s c i Hok Hr Hpl)).
    rewrite Er in Ed.
    rewrite (Interpolation.MPNewton_spec (take (Z.to_nat (thresh cs)) poly)) in Ed.
    + cbn [mbind outcome_bind] in Ed. injection Ed as <-. cbn [snd]. rewrite (proj2 (Z.ltb_lt _ _)) by done.
      by rewrite eval_take_0 by lia.
    + apply Forall_take. by apply (shares_of_dealer cs s hist Hok Hr Hh Hu c i).
    + rewrite fmap_take. apply (sublist_NoDup _ (shares_of s (ca_nIdent c) hist).*1); [by apply (shares_of_nodup cs)|apply sublist_take].
    + rewrite !length_take. lia.
  - rewrite (proj2 (Z.eqb_neq _ _)) in Ed by lia. by injection Ed as <-.
Qed.

(** C18: the secrets of the dealers.  A witness that enrolled the candidates
    and collected messages of different senders reconstructs, for every dealer
    that committed to a polynomial, the constant coefficient modulo the group
    order with the weight of the dealer if the messages hold as many shares as
    the threshold, and nothing otherwise: whoever sent the messages, in
    whatever order, all witnesses agree. *)
Theorem reconstruct_secrets (cs : list CMPCandidate) (s s' : CMPSecretShare) (hist : list (Z * gmap Z (list Z))) :
  candidates_ok cs -> ready cs s -> ss_nIdent s ∉ map ca_nIdent cs -> ss_mapOpenedShare s = ∅ ->
  collected s hist s' -> NoDup hist.*1 ->
  (forall from ms id v, (from, ms) ∈ hist -> ms !! id = Some v -> Forall (is_uint 256) v) ->
  exists m, Reconstruct s' ∅ = Return m /\
    forall c poly, c ∈ cs -> commits (ca_sBox c) poly -> 0 < ca_nWeight c ->
      m !! ca_nIdent c =
        if thresh cs <=? Z.of_nat (length (shares_of s (ca_nIdent c) hist))
        then Some (hd 0 poly mod SC25519.L, ca_nWeight c) else None.
Proof.
  intros Hok Hr Hwit H0 Hc Hnd Hu.
  destruct (Reconstruct_collected cs s s' hist Hok Hr Hwit H0 Hc Hnd Hu) as (m & Em & Hm & _). by exists m.
Qed.

(** ** Honest delegates *)

(** The node [s] is the candidate [c] and deals the polynomial of its box. *)
Record deals (s : CMPSecretShare) (c : CMPCandidate) : Prop := {
  dl_ident : ca_nIdent c = ss_nIdent s;
  dl_honest : honest (ss_myBox s);
  dl_commits : commits (ca_sBox c) (vCoeff (ss_myBox s));
  dl_pubkey : nPubKey (ca_sBox c) = Opened_PubKey (ss_myBox s);
}.

(** The values of the polynomial [cs] at the indices from [i] on *)
Definition values (poly : list Z) (i w : Z) : list Z :=
  map (fun k => Interpolation.eval poly (i + k) mod SC25519.L) (seqZ 0 w).

Lemma values_lookup poly i w k y :
  values poly i w !! k = Some y -> y = Interpolation.eval poly (i + Z.of_nat k) mod SC25519.L.
Proof.
  unfold values. rewrite list_lookup_fmap. destruct (seqZ 0 w !! k) as [x|] eqn:E; [|done].
  apply seqZ_elem in E as [-> _]. by injection 1 as <-.
Qed.

Lemma length_values poly i w : length (values poly i w) = Z.to_nat w.
Proof. unfold values. by rewrite length_map, length_seqZ. Qed.

Lemma values_uint poly i w : Forall (is_uint 256) (values poly i w).
Proof. apply Forall_fmap, Forall_true. intros k. apply scalar_uint. Qed.

Lemma map_M_map_fun {A B : Type} (f : A -> outcome B) (g : A -> B) l :
  (forall x, x ∈ l -> f x = Return (g x)) -> map_M f l = Return (map g l).
Proof.
  induction l as [|x l IH]; intros H; [done|]. cbn [map_M map]. rewrite (H x) by left. cbn [mbind outcome_bind].
  rewrite IH; [done|]. intros y Hy. apply H. by right.
Qed.

Section honest.
Context (cs : list CMPCandidate) (cs_ok : candidates_ok cs).

Notation poly_of s := (take (Z.to_nat (thresh cs)) (vCoeff (ss_myBox s))).

Lemma polynomials_spec s c i w :
  ready cs s -> deals s c -> c ∈ cs -> 1 <= i -> i + w <= 1 + total cs ->
  polynomials s i w = Return (values (poly_of s) i w).
Proof.
  intros Hr Hd Hc Hi Hw. destruct (thresh_range cs cs_ok) as [Ht Htot]. unfold polynomials, values. apply map_M_map_fun.
  intros k Hk. apply elem_of_seqZ in Hk. rewrite u32_small, (rd_thresh _ _ Hr) by lia. destruct Hd as [_ Hh Hcom _].
  pose proof (co_coeffs _ cs_ok) as Hco. rewrite Forall_forall in Hco. specialize (Hco c Hc).
  rewrite (Forall2_length _ _ _ Hcom) in Hco.
  apply Polynomial_spec; [lia|lia|lia|apply (honest_nonzero _ Hh)|by apply honest_uint].
Qed.

(** Any node verifies the values that the dealer computes. *)
Lemma values_verify s c i n p j w :
  deals s c -> (c, i) ∈ place 1 cs -> participant_ok cs n c i p -> 1 <= j -> 0 <= w -> j + w <= 1 + total cs ->
  VerifyShare p j (values (poly_of s) j w) = true.
Proof.
  intros Hd Hpl Hp Hj Hw0 Hw. destruct (thresh_range cs cs_ok) as [Ht Htot].
  destruct (place_range _ _ _ _ (co_weight _ cs_ok) Hpl) as (Hc & _).
  pose proof (co_coeffs _ cs_ok) as Hco. rewrite Forall_forall in Hco. specialize (Hco c Hc).
  pose proof (dl_commits _ _ Hd) as Hcom. rewrite (Forall2_length _ _ _ Hcom) in Hco.
  destruct (PrecalcPolynomial_spec _ _ (Z.to_nat (thresh cs)) (Z.to_nat (total cs + 1)) Hcom) as (b & Eb & Hprep & _); [lia|lia|lia|].
  rewrite (po_box _ _ _ _ _ Hp) in Eb. injection Eb as <-.
  apply (VerifyShare_spec p _ _ j _ Hprep); [lia|rewrite length_values; lia|lia|apply values_uint|].
  intros k y Hk. apply values_lookup in Hk as ->. apply Z.mod_mod. done.
Qed.

Lemma lxor_uint a b : is_uint 256 a -> is_uint 256 b -> is_uint 256 (Z.lxor a b).
Proof.
  unfold is_uint. intros Ha Hb. assert (0 <= Z.lxor a b) by (apply Z.lxor_nonneg; lia). split; [done|].
  destruct (Z.eq_dec (Z.lxor a b) 0) as [->|Hne]; [lia|]. apply Z.log2_lt_pow2; [lia|].
  pose proof (Z.log2_lxor a b ltac:(lia) ltac:(lia)).
  assert (Hlog : forall x, 0 <= x < 2 ^ 256 -> Z.log2 x < 256).
  { intros x Hx. destruct (Z.eq_dec x 0) as [->|]; [done|]. apply Z.log2_lt_pow2; lia. }
  pose proof (Hlog a Ha). pose proof (Hlog b Hb). lia.
Qed.

Lemma decrypt_encrypt p q data : pa_nSharedKey p = pa_nSharedKey q -> Decrypt p (Encrypt q data) = data.
Proof. intros E. unfold Decrypt, Encrypt. by rewrite E, <- Z.lxor_assoc, Z.lxor_nilpotent, Z.lxor_0_l. Qed.

Lemma VerifyShare_box p q i v : pa_sBox p = pa_sBox q -> VerifyShare p i v = VerifyShare q i v.
Proof. intros E. revert i. induction v as [|y v IH]; intros i; [done|]. cbn [VerifyShare]. by rewrite E, IH. Qed.

(** An accepted message keeps the node ready. *)
Lemma ready_set_share s c i p v :
  ready cs s -> (c, i) ∈ place 1 cs -> ca_nIdent c <> ss_nIdent s -> ss_mapParticipant s !! ca_nIdent c = Some p ->
  participant_ok cs s c i (set_vShare p v) ->
  ready cs (set_participants s (<[ca_nIdent c := set_vShare p v]> (ss_mapParticipant s))).
Proof.
  intros Hr Hpl Hne Hp Hok. destruct Hr as [H1 H2 H3 H4 H5]. split; cbn; try done.
  - intros d j Hd Hdn. destruct (decide (ca_nIdent d = ca_nIdent c)) as [E|Hdc].
    + destruct (place_disjoint 1 cs d j c i (co_nodup _ cs_ok) (co_weight _ cs_ok) Hd Hpl) as [(_ & -> & ->)|[? _]]; [|done].
      rewrite lookup_insert_eq. eexists. split; [reflexivity|]. destruct Hok; split; done.
    + rewrite lookup_insert_ne by done. destruct (H2 d j Hd Hdn) as (q & Hq & Hqo). exists q. split; [done|]. destruct Hqo; split; done.
  - intros id q Hq. destruct (decide (id = ca_nIdent c)) as [->|Hid]; [by exists c, i|].
    rewrite lookup_insert_ne in Hq by done. by apply (H3 id q).
Qed.

End honest.

(** The message of a dealer *)
Lemma Distribute_spec cs a ca :
  candidates_ok cs -> ready cs a -> deals a ca -> ca ∈ cs ->
  exists ms, Distribute a ∅ = Return ms /\
    (forall c j p, (c, j) ∈ place 1 cs -> ss_mapParticipant a !! ca_nIdent c = Some p -> participant_ok cs a c j p ->
      ms !! ca_nIdent c =
        Some (map (Encrypt p) (values (take (Z.to_nat (thresh cs)) (vCoeff (ss_myBox a))) j (ca_nWeight c)))) /\
    (forall id, ss_mapParticipant a !! id = None -> ms !! id = None).
Proof.
  intros Hok Ha Da Hca.
  assert (Hpol : forall c j p, (c, j) ∈ place 1 cs -> participant_ok cs a c j p ->
    polynomials a (pa_nIndex p) (pa_nWeight p) =
      Return (values (take (Z.to_nat (thresh cs)) (vCoeff (ss_myBox a))) j (ca_nWeight c))).
  { intros c j p Hpl Hp. destruct (place_range _ _ _ _ (co_weight _ Hok) Hpl) as (_ & Hj & Hj' & _).
    rewrite (po_index _ _ _ _ _ Hp), (po_weight _ _ _ _ _ Hp). by apply (polynomials_spec cs Hok a ca). }
  destruct (map_M_map (fun _ p => v ← polynomials a (pa_nIndex p) (pa_nWeight p); Return (map (Encrypt p) v)) (ss_mapParticipant a))
    as (l & El & Hl & Hno).
  { intros id p Hp. destruct (rd_only _ _ Ha id p Hp) as (c & j & Hpl & <- & Hne).
    destruct (rd_part _ _ Ha c j Hpl Hne) as (q & Hq & Hqo). rewrite Hp in Hq. injection Hq as <-.
    rewrite (Hpol c j p Hpl Hqo). by eexists. }
  exists (list_to_map l). unfold Distribute. erewrite map_M_ext; [rewrite El|].
  - cbn [mbind outcome_bind]. split; [by rewrite (right_id_L ∅ (∪))|]. split; [|exact Hno]. intros c j p Hpl Hp Hpo.
    destruct (Hl _ _ Hp) as (v & Ev & Hv). rewrite (Hpol c j p Hpl Hpo) in Ev. cbn [mbind outcome_bind] in Ev.
    injection Ev as <-. exact Hv.
  - intros [id p]. by destruct (polynomials a (pa_nIndex p) (pa_nWeight p)).
Qed.

Lemma Accept_spec (cs : list CMPCandidate) (a b : CMPSecretShare) (ca cb : CMPCandidate) (i j : Z) :
  candidates_ok cs -> ready cs a -> ready cs b -> deals a ca -> deals b cb ->
  (ca, i) ∈ place 1 cs -> (cb, j) ∈ place 1 cs -> ca_nIdent ca <> ca_nIdent cb ->
  exists ms v b' p, Distribute a ∅ = Return ms /\ ms !! ca_nIdent cb = Some v /\
    Accept b (ca_nIdent ca) v = (true, b') /\ ready cs b' /\
    ss_mapParticipant b' !! ca_nIdent ca = Some p /\
    pa_vShare p = values (take (Z.to_nat (thresh cs)) (vCoeff (ss_myBox a))) j (ca_nWeight cb).
Proof.
  intros Hok Ha Hb Da Db Hpa Hpb Hne.
  destruct (place_range _ _ _ _ (co_weight _ Hok) Hpa) as (Hca & Hi & Hi' & _).
  destruct (place_range _ _ _ _ (co_weight _ Hok) Hpb) as (Hcb & Hj & Hj' & Hwb).
  destruct (rd_part _ _ Ha cb j Hpb) as (pb & Hpb' & Hpbo); [by rewrite <- (dl_ident _ _ Da)|].
  destruct (rd_part _ _ Hb ca i Hpa) as (pa & Hpa' & Hpao); [by rewrite <- (dl_ident _ _ Db)|].
  destruct (Distribute_spec cs a ca Hok Ha Da Hca) as (ms & Ems & Hms & _).
  exists ms, (map (Encrypt pb) (values (take (Z.to_nat (thresh cs)) (vCoeff (ss_myBox a))) j (ca_nWeight cb))).
  pose proof (Hms cb j pb Hpb Hpb' Hpbo) as Hentry. unfold Accept.
  destruct (rd_own _ _ Hb cb j Hpb (dl_ident _ _ Db)) as [Eidx Ewt].
  rewrite length_map, length_values, Ewt, (proj2 (Z.eqb_eq _ _)), Hpa' by lia.
  assert (Hdec : map (Decrypt pa) (map (Encrypt pb) (values (take (Z.to_nat (thresh cs)) (vCoeff (ss_myBox a))) j (ca_nWeight cb))) =
    values (take (Z.to_nat (thresh cs)) (vCoeff (ss_myBox a))) j (ca_nWeight cb)).
  { rewrite map_map. rewrite <- map_id. apply map_ext. intros y. apply decrypt_encrypt.
    rewrite (po_key _ _ _ _ _ Hpao), (po_key _ _ _ _ _ Hpbo), (dl_pubkey _ _ Da), (dl_pubkey _ _ Db).
    apply shared_key_sym; [apply (dl_honest _ _ Db)|apply (dl_honest _ _ Da)]. }
  pose proof (values_verify cs Hok a ca i b pa j (ca_nWeight cb) Da Hpa Hpao ltac:(lia) Hwb ltac:(lia)) as Hver.
  unfold AcceptShare. rewrite Hdec, Eidx, Hver.
  eexists _, (set_vShare pa _). refine (conj Ems (conj Hentry (conj eq_refl (conj _ (conj _ eq_refl))))).
  - apply (ready_set_share cs Hok b ca i pa); [done|done|by rewrite <- (dl_ident _ _ Db)|done|].
    destruct Hpao as [P1 P2 P3 P4 P5]. split; cbn; try done. right. rewrite length_values, Ewt, Eidx.
    split; [lia|]. split; [apply values_uint|]. by rewrite (VerifyShare_box (set_vShare pa _) pa).
  - cbn. by rewrite lookup_insert_eq.
Qed.

Lemma Publish_spec (cs : list CMPCandidate) (b w : CMPSecretShare) (cb : CMPCandidate) (j : Z) :
  candidates_ok cs -> ready cs b -> ready cs w -> deals b cb -> (cb, j) ∈ place 1 cs -> ss_nIdent w ∉ map ca_nIdent cs ->
  exists ms fC w', Publish b = Return ms /\ Collect w (ca_nIdent cb) ms = Return (true, fC, w') /\
    ms !! ca_nIdent cb = Some (values (take (Z.to_nat (thresh cs)) (vCoeff (ss_myBox b))) j (ca_nWeight cb)) /\
    (forall id p, ss_mapParticipant b !! id = Some p -> pa_vShare p <> [] -> ms !! id = Some (pa_vShare p)) /\
    forall id v, ms !! id = Some v -> Forall (is_uint 256) v.
Proof.
  intros Hok Hb Hw Db Hpb Hwit. destruct (place_range _ _ _ _ (co_weight _ Hok) Hpb) as (Hcb & Hj & Hj' & Hwb).
  destruct (rd_own _ _ Hb cb j Hpb (dl_ident _ _ Db)) as [Eidx Ewt].
  set (f p := match pa_vShare p with [] => None | v => Some v end).
  assert (Hnone : (omap f (ss_mapParticipant b)) !! ss_nIdent b = None).
  { rewrite lookup_omap. destruct (ss_mapParticipant b !! ss_nIdent b) as [p|] eqn:E; [|done].
    by destruct (rd_only _ _ Hb _ p E) as (c & i & _ & _ & Hne). }
  set (ms := <[ca_nIdent cb := values (take (Z.to_nat (thresh cs)) (vCoeff (ss_myBox b))) j (ca_nWeight cb)]>
    (omap f (ss_mapParticipant b))).
  assert (Ems : Publish b = Return ms).
  { unfold Publish. fold f. rewrite Hnone, Eidx, Ewt, (polynomials_spec cs Hok b cb j (ca_nWeight cb)) by (done || lia).
    cbn [mbind outcome_bind]. by rewrite <- (dl_ident _ _ Db). }
  assert (Hall : forall id v, ms !! id = Some v -> entry_ok w j (ca_nWeight cb) (id, v)).
  { intros id v Hv. unfold entry_ok. cbn [fst snd]. subst ms. destruct (decide (id = ca_nIdent cb)) as [->|Hid].
    - rewrite lookup_insert_eq in Hv. injection Hv as <-. rewrite length_values. split; [lia|]. right.
      assert (Hne : ca_nIdent cb <> ss_nIdent w) by (intros E; apply Hwit; rewrite <- E; by apply list_elem_of_fmap_2).
      split; [done|]. destruct (rd_part _ _ Hw cb j Hpb Hne) as (p & Hp & Hpo). exists p. split; [done|].
      by apply (values_verify cs Hok b cb j w p); [..|lia].
    - rewrite lookup_insert_ne, lookup_omap in Hv by done.
      destruct (ss_mapParticipant b !! id) as [p|] eqn:E; [|done]. cbn in Hv. unfold f in Hv.
      assert (Hv' : pa_vShare p = v /\ v <> []) by (destruct (pa_vShare p); [done|by injection Hv as <-]). destruct Hv' as [Ev Hvn].
      destruct (rd_only _ _ Hb id p E) as (c & i & Hpl & <- & Hnb).
      destruct (rd_part _ _ Hb c i Hpl Hnb) as (p' & E' & Hpo). rewrite E in E'. injection E' as <-.
      destruct (po_share _ _ _ _ _ Hpo) as [?|(Hlen & _ & Hver)]; [congruence|]. rewrite Ev in *. split; [lia|]. right.
      destruct (place_range _ _ _ _ (co_weight _ Hok) Hpl) as (Hc & _).
      assert (Hne : ca_nIdent c <> ss_nIdent w) by (intros E'; apply Hwit; rewrite <- E'; by apply list_elem_of_fmap_2).
      split; [done|]. destruct (rd_part _ _ Hw c i Hpl Hne) as (q & Hq & Hqo). exists q. split; [done|].
      rewrite <- Eidx. rewrite (VerifyShare_box q p); [done|].
      pose proof (po_box _ _ _ _ _ Hpo) as B1. pose proof (po_box _ _ _ _ _ Hqo) as B2. congruence. }
  destruct (foldl (open_one w j (ca_nWeight cb)) (ss_mapOpenedShare w, 0) (map_list ms)) as [op n] eqn:Ef.
  exists ms, (Z.of_nat (size ms) <=? n), (set_opened w op). split; [done|]. split; [|split; [|split]].
  - apply Collect_iff. exists j, (ca_nWeight cb). split; [by apply (range_of cs)|]. split; [exact Hall|]. by rewrite Ef.
  - subst ms. by rewrite lookup_insert_eq.
  - intros id p Hp Hv. subst ms. destruct (decide (id = ca_nIdent cb)) as [->|Hid].
    + destruct (rd_only _ _ Hb _ p Hp) as (c & i & _ & _ & Hne). by rewrite (dl_ident _ _ Db) in Hne.
    + rewrite lookup_insert_ne, lookup_omap, Hp by done. cbn. unfold f. by destruct (pa_vShare p).
  - intros id v Hv. subst ms. destruct (decide (id = ca_nIdent cb)) as [->|Hid].
    + rewrite lookup_insert_eq in Hv. injection Hv as <-. apply values_uint.
    + rewrite lookup_insert_ne, lookup_omap in Hv by done.
      destruct (ss_mapParticipant b !! id) as [p|] eqn:E; [|done]. cbn in Hv. unfold f in Hv.
      destruct (rd_only _ _ Hb id p E) as (c & i & Hpl & <- & Hnb).
      destruct (rd_part _ _ Hb c i Hpl Hnb) as (p' & E' & Hpo). rewrite E in E'. injection E' as <-.
      destruct (po_share _ _ _ _ _ Hpo) as [Ev|(_ & Hu & _)]; [by rewrite Ev in Hv|].
      destruct (pa_vShare p) as [|y l]; [done|]. by injection Hv as <-.
Qed.

(** ** Deviations *)

(** A candidate whose box has fewer coefficients than the threshold makes
    [Enroll] read outside the vector of every other node. *)
Lemma Enroll_short_box cs s c :
  NoDup (map ca_nIdent cs) -> Forall (fun c => Candidate_Verify c = true) cs -> Forall (fun c => 0 <= ca_nWeight c) cs ->
  total cs <= 51 -> ss_mapParticipant s = ∅ -> c ∈ cs -> ca_nIdent c <> ss_nIdent s ->
  Z.of_nat (length (vEncryptedCoeff (ca_sBox c))) < thresh cs -> Enroll s cs = Undefined.
Proof.
  intros Hnd Hv Hw Ht Hm Hc Hne Hlen.
  destruct (enroll_foldl cs s 1 Hnd Hv Hw) as (s1 & E1 & H1); [lia|lia|intros; by rewrite Hm|].
  unfold Enroll. rewrite E1. pose proof (total_nonneg _ Hw).
  replace (u64 (u64 (1 + total cs - 1) / 2 + 1)) with (thresh cs).
  2: { unfold thresh. rewrite (u64_small (1 + total cs - 1)), u64_small by (Z.to_euclidean_division_equations; lia). do 2 f_equal. lia. }
  destruct (place_elem 1 cs c Hc) as [i Hpl]. pose proof (en_part _ _ _ H1 c i Hpl Hne) as Hp.
  assert (Hin : (ca_nIdent c, enrolled s c i) ∈ map_list (ss_mapParticipant s1)) by (by apply CWalleveStreamOk.elem_of_map_entries).
  enough (Hu : map_M (fun '(id, p) => p ← PrepareVerification p (thresh cs) (1 + total cs); Return (id, p))
    (map_list (ss_mapParticipant s1)) = Undefined) by (by rewrite Hu).
  clear -Hin Hlen. induction (map_list (ss_mapParticipant s1)) as [|[id p] l IH]; [by apply elem_of_nil in Hin|]. cbn [map_M].
  apply elem_of_cons in Hin as [E|Hin].
  - injection E as <- <-. unfold PrepareVerification, enrolled. cbn [pa_sBox participant_of].
    by rewrite PrecalcPolynomial_short by lia.
  - rewrite (IH Hin). unfold PrepareVerification.
    pose proof (PrecalcPolynomial_no_throw (pa_sBox p) (Z.to_nat (thresh cs)) (Z.to_nat (1 + total cs))) as Hnt.
    destruct (PrecalcPolynomial _ _ _); [done|by destruct (Hnt e)|done].
Qed.

(** A message that was accepted is accepted again. *)
Lemma Collect_again s from ms fC s' :
  Collect s from ms = Return (true, fC, s') -> exists fC' s2, Collect s' from ms = Return (true, fC', s2).
Proof.
  intros H. apply Collect_iff in H as (i & w & Hr & Hall & -> & _).
  set (r := foldl _ _ _). eexists _, _. apply Collect_iff. exists i, w. split; [exact Hr|]. split; [|split; reflexivity].
  intros id v Hv. destruct (Hall id v Hv) as [Hl H]. split; [done|]. cbn [fst snd] in *. by rewrite own_shares_opened.
Qed.

Lemma collected_replicate s from ms fC s1 n :
  Collect s from ms = Return (true, fC, s1) -> exists s', collected s (replicate (S n) (from, ms)) s'.
Proof.
  intros H. cut (exists s0 s' fC', collected s (replicate n (from, ms)) s0 /\ Collect s0 from ms = Return (true, fC', s')).
  { intros (s0 & s' & fC' & Hc & E). exists s'. rewrite replicate_S_end. by apply (collected_one s _ s0 from ms fC'). }
  induction n as [|n (s0 & s' & fC' & Hc & E)]; [exists s, s1, fC; split; [constructor|done]|].
  destruct (Collect_again _ _ _ _ _ E) as (fC2 & s2 & E2). exists s', s2, fC2. split; [|done].
  rewrite replicate_S_end. by apply (collected_one s _ s0 from ms fC').
Qed.

(** the threshold is not enforced.  A witness accepts the same message any
    number of times, and repeated as often as the threshold says one message of
    one delegate is enough: [Reconstruct] then returns a secret for every
    dealer in it, computed from the shares of that one delegate. *)
Theorem threshold_not_enforced (cs : list CMPCandidate) (s s1 : CMPSecretShare) (c : CMPCandidate) (i : Z)
    (ms : gmap Z (list Z)) (fC : bool) :
  candidates_ok cs -> ready cs s -> ss_nIdent s ∉ map ca_nIdent cs -> ss_mapOpenedShare s = ∅ ->
  (c, i) ∈ place 1 cs -> 0 < ca_nWeight c -> Collect s (ca_nIdent c) ms = Return (true, fC, s1) ->
  exists s' m, collected s (replicate (Z.to_nat (thresh cs)) (ca_nIdent c, ms)) s' /\ Reconstruct s' ∅ = Return m /\
    forall d, d ∈ cs -> 0 < ca_nWeight d -> is_Some (ms !! ca_nIdent d) ->
      exists secret, m !! ca_nIdent d = Some (secret, ca_nWeight d).
Proof.
  intros Hok Hr Hwit H0 Hpl Hw Hcol. destruct (thresh_range cs Hok) as [Ht Htot].
  destruct (collected_replicate _ _ _ _ _ (pred (Z.to_nat (thresh cs))) Hcol) as [s' Hc].
  rewrite Nat.succ_pred in Hc by lia. exists s'.
  destruct (collected_opened _ _ _ H0 Hc) as (Es & Hop & Hh).
  assert (Eth : ss_nThresh s' = thresh cs) by (rewrite Es; apply (rd_thresh _ _ Hr)).
  destruct (Reconstruct_spec s') as (m & Em & Hm); [lia| |].
  { intros id v Hv. specialize (Hop id). rewrite Hv in Hop. cbn [default] in Hop. unfold Datatypes.id in Hop. rewrite Hop.
    rewrite fmap_take. by apply Forall_take, (shares_of_range cs). }
  exists m. split; [done|]. split; [done|]. intros d Hd Hwd [v Hv]. destruct (place_elem 1 cs d Hd) as [k Hpd].
  destruct (Hm (ca_nIdent d)) as (data & Ed & ->). rewrite Hop in Ed. unfold secret_of in Ed.
  rewrite Eth, length_take, (rd_thresh _ _ Hr) in Ed.
  assert (Hlen : (Z.to_nat (thresh cs) <= length (shares_of s (ca_nIdent d) (replicate (Z.to_nat (thresh cs)) (ca_nIdent c, ms))))%nat).
  { assert (Hone : (1 <= length (shares_in s (ca_nIdent d) (ca_nIdent c, ms)))%nat).
    { apply Collect_iff in Hcol as (i' & w' & Hr' & Hall & _). rewrite (range_of cs s c i Hok Hr Hpl) in Hr'.
      injection Hr' as <- <-. destruct (Hall _ _ Hv) as [Hl _]. cbn [snd] in Hl. unfold shares_in. cbn [fst snd].
      rewrite (range_of cs s c i Hok Hr Hpl), Hv, length_zip, length_fmap, length_seqZ. lia. }
    clear -Hone. induction (Z.to_nat (thresh cs)) as [|n IH]; [lia|]. cbn [replicate]. unfold shares_of in *. cbn [flat_map].
    rewrite length_app. lia. }
  rewrite (proj2 (Z.eqb_eq _ _)) in Ed by lia.
  assert (Er : GetParticipantRange s' (ca_nIdent d) = Some (k, ca_nWeight d)) by (rewrite Es; exact (range_of cs s d k Hok Hr Hpd)).
  rewrite Er in Ed. destruct (Interpolation.MPNewton _) as [z| |] in Ed; [|done|done]. injection Ed as <-.
  cbn [snd]. rewrite (proj2 (Z.ltb_lt _ _)) by done. by exists z.
Qed.

(** ** An example: two delegates and a witness *)

Definition sample_dealer (id : Z) (b : CMPOpenedBox) : CMPCandidate := mkCandidate id 1 (MakeSealedBox b sealed_null id 4).2.

Definition box_1 : CMPOpenedBox := mkOpenedBox [5; 7] 3.

Definition box_2 : CMPOpenedBox := mkOpenedBox [6; 8] 9.

Definition sample_cs : list CMPCandidate := [sample_dealer 1 box_1; sample_dealer 2 box_2].

Lemma box_1_honest : honest box_1.
Proof.
  split; cbn [nPrivKey vCoeff box_1]; [split; [discriminate|reflexivity]|discriminate| |discriminate].
  repeat (apply Forall_cons_2; [split; [split; [discriminate|reflexivity]|vm_compute; discriminate]|]). apply Forall_nil_2.
Qed.

Lemma box_2_honest : honest box_2.
Proof.
  split; cbn [nPrivKey vCoeff box_2]; [split; [discriminate|reflexivity]|discriminate| |discriminate].
  repeat (apply Forall_cons_2; [split; [split; [discriminate|reflexivity]|vm_compute; discriminate]|]). apply Forall_nil_2.
Qed.

Lemma sample_dealer_ok id b :
  honest b -> is_uint 256 id ->
  Candidate_Verify (sample_dealer id b) = true /\ commits (ca_sBox (sample_dealer id b)) (vCoeff b) /\
  nPubKey (ca_sBox (sample_dealer id b)) = Opened_PubKey b.
Proof.
  intros Hb Hid. destruct (MakeSealedBox_honest b sealed_null id 4 Hb) as (sb & E & Hv & Hc & Hp & _);
    [split; [discriminate|reflexivity]|discriminate|exact Hid|].
  unfold Candidate_Verify, sample_dealer. cbn [ca_sBox ca_nIdent]. rewrite E. cbn [snd]. done.
Qed.

Lemma sample_dealer_1 :
  Candidate_Verify (sample_dealer 1 box_1) = true /\ commits (ca_sBox (sample_dealer 1 box_1)) (vCoeff box_1) /\
  nPubKey (ca_sBox (sample_dealer 1 box_1)) = Opened_PubKey box_1.
Proof. apply sample_dealer_ok; [exact box_1_honest|split; [discriminate|reflexivity]]. Qed.

Lemma sample_dealer_2 :
  Candidate_Verify (sample_dealer 2 box_2) = true /\ commits (ca_sBox (sample_dealer 2 box_2)) (vCoeff box_2) /\
  nPubKey (ca_sBox (sample_dealer 2 box_2)) = Opened_PubKey box_2.
Proof. apply sample_dealer_ok; [exact box_2_honest|split; [discriminate|reflexivity]]. Qed.

Lemma sample_cs_ok : candidates_ok sample_cs.
Proof.
  destruct sample_dealer_1 as (V1 & C1 & _), sample_dealer_2 as (V2 & C2 & _). split.
  - cbn. apply (bool_decide_unpack _). exact I.
  - apply Forall_cons_2; [exact V1|apply Forall_cons_2; [exact V2|apply Forall_nil_2]].
  - apply Forall_cons_2; [discriminate|apply Forall_cons_2; [discriminate|apply Forall_nil_2]].
  - discriminate.
  - change (thresh sample_cs) with 2. unfold sample_cs.
    repeat apply Forall_cons_2; [rewrite (Forall2_length _ _ _ C1)|rewrite (Forall2_length _ _ _ C2)|apply Forall_nil_2];
      cbn; lia.
Qed.

Lemma sample_enroll id b :
  exists s, ready sample_cs s /\ ss_nIdent s = id /\ ss_myBox s = b /\ ss_mapOpenedShare s = ∅.
Proof.
  destruct (Enroll_spec sample_cs (mkSecretShare id b 0 0 0 ∅ ∅) sample_cs_ok eq_refl eq_refl eq_refl) as (s & _ & H1 & H2 & H3 & H4).
  by exists s.
Qed.

Lemma sample_place_1 : (sample_dealer 1 box_1, 1) ∈ place 1 sample_cs.
Proof. left. Qed.

Lemma sample_place_2 : (sample_dealer 2 box_2, 2) ∈ place 1 sample_cs.
Proof. right. left. Qed.

Lemma sample_deals_1 s : ss_nIdent s = 1 -> ss_myBox s = box_1 -> deals s (sample_dealer 1 box_1).
Proof.
  intros Hi Hb. destruct sample_dealer_1 as (_ & C1 & K1). split; [exact (eq_sym Hi)|rewrite Hb; exact box_1_honest|rewrite Hb; exact C1|rewrite Hb; exact K1].
Qed.

Lemma sample_deals_2 s : ss_nIdent s = 2 -> ss_myBox s = box_2 -> deals s (sample_dealer 2 box_2).
Proof.
  intros Hi Hb. destruct sample_dealer_2 as (_ & C2 & K2). split; [exact (eq_sym Hi)|rewrite Hb; exact box_2_honest|rewrite Hb; exact C2|rewrite Hb; exact K2].
Qed.

Lemma ready_opened cs s o : ready cs s -> ready cs (set_opened s o).
Proof.
  intros [H1 H2 H3 H4 H5]. split; try assumption. intros c i Hpl Hne. destruct (H2 c i Hpl Hne) as (p & Hp & Hpo).
  exists p. split; [exact Hp|]. destruct Hpo. split; assumption.
Qed.

(** Delegate 1 deals to delegate 2, both publish, and a witness collects. *)
Lemma sample_run :
  exists w w' ms1 ms2, ready sample_cs w /\ ss_nIdent w = 0 /\ ss_mapOpenedShare w = ∅ /\ collected w [(1, ms1); (2, ms2)] w' /\
    (forall id v, ms1 !! id = Some v -> Forall (is_uint 256) v) /\ (forall id v, ms2 !! id = Some v -> Forall (is_uint 256) v) /\
    length (shares_of w 1 [(1, ms1); (2, ms2)]) = 2%nat.
Proof.
  destruct (sample_enroll 1 box_1) as (a & Ra & Ia & Ba & _), (sample_enroll 2 box_2) as (b & Rb & Ib & Bb & _),
    (sample_enroll 0 (mkOpenedBox [] 0)) as (w & Rw & Iw & _ & Ow).
  pose proof (sample_deals_1 a Ia Ba) as Da. pose proof (sample_deals_2 b Ib Bb) as Db.
  assert (Hwit : 0 ∉ map ca_nIdent sample_cs) by (apply (bool_decide_unpack _); exact I).
  destruct (Accept_spec sample_cs a b _ _ 1 2 sample_cs_ok Ra Rb Da Db sample_place_1 sample_place_2)
    as (ms & v & b' & p & _ & _ & Eacc & Rb' & Hp & Hv); [discriminate|].
  assert (Db' : deals b' (sample_dealer 2 box_2)).
  { unfold Accept in Eacc. destruct (_ =? _); [|discriminate]. destruct (ss_mapParticipant b !! _); [|discriminate].
    destruct (AcceptShare _ _ _) as [ok q]. injection Eacc as _ <-. by apply sample_deals_2. }
  destruct (Publish_spec sample_cs a w _ 1 sample_cs_ok Ra Rw Da sample_place_1) as (ms1 & f1 & w1 & _ & E1 & L1 & _ & U1);
    [by rewrite Iw|].
  assert (Rw1 : ready sample_cs w1 /\ ss_nIdent w1 = 0).
  { pose proof E1 as E. apply Collect_iff in E as (i & x & _ & _ & -> & _). split; [by apply ready_opened|exact Iw]. }
  destruct Rw1 as [Rw1 Iw1].
  destruct (Publish_spec sample_cs b' w1 _ 2 sample_cs_ok Rb' Rw1 Db' sample_place_2) as (ms2 & f2 & w2 & _ & E2 & _ & L2 & U2);
    [by rewrite Iw1|].
  exists w, w2, ms1, ms2. refine (conj Rw (conj Iw (conj Ow (conj _ (conj U1 (conj U2 _)))))).
  - apply (collected_one w [(1, ms1)] w1 2 ms2 f2 w2); [|exact E2].
    apply (collected_one w [] w 1 ms1 f1 w1); [constructor|exact E1].
  - pose proof (L2 _ p Hp) as L2'. rewrite Hv in L2'. unfold shares_of, shares_in. cbn [flat_map fst snd].
    rewrite (range_of sample_cs w _ _ sample_cs_ok Rw sample_place_1 : GetParticipantRange w 1 = _).
    rewrite (range_of sample_cs w _ _ sample_cs_ok Rw sample_place_2 : GetParticipantRange w 2 = _).
    change (ca_nIdent (sample_dealer 1 box_1)) with 1 in *. rewrite L1, L2' by (intros E; apply (f_equal length) in E; rewrite length_values in E; discriminate).
    rewrite length_app, app_nil_r, !length_zip, !length_values. reflexivity.
Qed.

Lemma reconstruct_secrets_witness :
  exists w hist w' m, collected w hist w' /\ Reconstruct w' ∅ = Return m /\ m !! 1 = Some (5, 1).
Proof.
  destruct sample_run as (w & w' & ms1 & ms2 & Rw & Iw & Ow & Hc & U1 & U2 & Hlen).
  destruct (reconstruct_secrets sample_cs w w' [(1, ms1); (2, ms2)]) as (m & Em & Hm).
  - exact sample_cs_ok.
  - exact Rw.
  - rewrite Iw. apply (bool_decide_unpack _). exact I.
  - exact Ow.
  - exact Hc.
  - apply (bool_decide_unpack _). exact I.
  - intros from ms id v Hin Hv. apply elem_of_cons in Hin as [E|Hin]; [injection E as -> ->; exact (U1 id v Hv)|].
    apply list_elem_of_singleton in Hin. injection Hin as -> ->. exact (U2 id v Hv).
  - exists w, [(1, ms1); (2, ms2)], w', m. refine (conj Hc (conj Em _)).
    pose proof (Hm (sample_dealer 1 box_1) [5; 7] ltac:(left) (proj1 (proj2 sample_dealer_1)) eq_refl) as H.
    change (ca_nIdent (sample_dealer 1 box_1)) with 1 in H. rewrite Hlen in H. exact H.
Defined.

Lemma threshold_not_enforced_witness :
  exists w ms w' m, collected w [(1, ms); (1, ms)] w' /\ Reconstruct w' ∅ = Return m.
Proof.
  destruct (sample_enroll 1 box_1) as (a & Ra & Ia & Ba & _), (sample_enroll 0 (mkOpenedBox [] 0)) as (w & Rw & Iw & _ & Ow).
  assert (Hwit : ss_nIdent w ∉ map ca_nIdent sample_cs) by (rewrite Iw; apply (bool_decide_unpack _); exact I).
  destruct (Publish_spec sample_cs a w _ 1 sample_cs_ok Ra Rw (sample_deals_1 a Ia Ba) sample_place_1 Hwit) as (ms & f & w1 & _ & E1 & _).
  destruct (threshold_not_enforced sample_cs w w1 (sample_dealer 1 box_1) 1 ms f) as (w' & m & Hc & Em & _).
  - exact sample_cs_ok.
  - exact Rw.
  - exact Hwit.
  - exact Ow.
  - exact sample_place_1.
  - reflexivity.
  - exact E1.
  - exists w, ms, w', m. exact (conj Hc Em).
Defined.

End MPVSSOk.
