(* ===== verification/Delegate.v ===== *)
(** * The vote of the delegates (src/delegate/mvdelegatevote.cpp,
    mvdelegateverify.cpp, mvdelegate.cpp)

    For every height a vote runs the secret sharing of MPVSS.v among the
    delegates: this node's own delegates and a witness that only collects.  The
    messages are byte strings of the data streams of Stream.v.  The hash is a
    parameter; the numbers of the random generator are arguments. *)

From S2P Require Import Prelude Stream Destination Base25519 SC25519 Tables Interpolation MPBox MPVSS.

Import DataStream.

#[local] Existing Instance Destination.dest_lt_dec.

Record CMvDelegateData : Type := mkDelegateData {
  dd_nIdentFrom : Z;
  dd_mapShare : gmap Z (list Z);
  dd_nR : Z;
  dd_nS : Z;
}.

Record CMvDelegateVote : Type := mkVote {
  dv_mapDelegate : gmap CDestination CMPSecretShare;
  dv_witness : CMPSecretShare;
  dv_vCollected : list CMvDelegateData;
}.

Record CMvDelegateEvolveResult : Type := mkEvolveResult {
  er_mapEnrollData : gmap CDestination (list Z);
  er_mapDistributeData : gmap CDestination (list Z);
  er_mapPublishData : gmap CDestination (list Z);
}.

Record CMvDelegate : Type := mkDelegate {
  de_setDelegate : gset CDestination;
  de_mapVote : gmap Z CMvDelegateVote;
}.

(** [DestToIdentUInt256] and [DestFromIdentUInt256] *)
Definition DestToIdent (dest : CDestination) : Z := Destination.GetTemplateId dest.

Definition DestFromIdent (nIdent : Z) : CDestination := Destination.of_templateid nIdent.

Module Delegate.
Import MPBox MPVSS.

Notation entries := (CWalleveStream.map_entries Destination.dest_lt).

(** ** Messages *)

Definition share_codec : dcodec (gmap Z (list Z)) := d_map Z.lt 8 (d_uint 32) (d_vector (d_uint 32)).

(** [ToDataStream] and [FromDataStream] of [CMvDelegateData] *)
Definition data_fields : dcodec (Z * (gmap Z (list Z) * (Z * Z))) :=
  d_pair (d_uint 32) (d_pair share_codec (d_pair (d_uint 32) (d_uint 32))).

Definition data_codec : dcodec CMvDelegateData := {|
  put d := put data_fields (dd_nIdentFrom d, (dd_mapShare d, (dd_nR d, dd_nS d)));
  get s := '(t, s) ← get data_fields s; Return (mkDelegateData t.1 t.2.1 t.2.2.1 t.2.2.2, s);
  dvalid d := dvalid data_fields (dd_nIdentFrom d, (dd_mapShare d, (dd_nR d, dd_nS d)));
|}.

(** [os << sealed.nPubKey << sealed.vEncryptedCoeff << sealed.nR << sealed.nS] *)
Definition enroll_codec : dcodec (Z * (list Z * (Z * Z))) :=
  d_pair (d_uint 32) (d_pair (d_vector (d_uint 32)) (d_pair (d_uint 32) (d_uint 32))).

Section vote.
Context (CryptoHash : list Z -> Z).

Definition GetHash (d : CMvDelegateData) : Z := CryptoHash (put share_codec (dd_mapShare d)).

(** ** CMvSecretShare: the message with its signature, [r] the random number *)

Definition sign_data (s : CMPSecretShare) (mapShare : gmap Z (list Z)) (r : Z) : CMvDelegateData :=
  let d := mkDelegateData (ss_nIdent s) mapShare 0 0 in
  let '(nR, nS) := MPVSS.Signature s (GetHash d) r in
  mkDelegateData (ss_nIdent s) mapShare nR nS.

Definition Secret_Distribute (s : CMPSecretShare) (r : Z) : outcome CMvDelegateData :=
  mapShare ← MPVSS.Distribute s ∅;
  Return (sign_data s mapShare r).

Definition Secret_Publish (s : CMPSecretShare) (r : Z) : outcome CMvDelegateData :=
  mapShare ← MPVSS.Publish s;
  Return (sign_data s mapShare r).

(** ** CMvDelegateVote *)

Definition vote_init : CMvDelegateVote := mkVote ∅ (SetupWitness (secret_share 0)) [].

Definition set_mapDelegate (v : CMvDelegateVote) (m : gmap CDestination CMPSecretShare) : CMvDelegateVote :=
  mkVote m (dv_witness v) (dv_vCollected v).

Definition set_witness (v : CMvDelegateVote) (w : CMPSecretShare) : CMvDelegateVote :=
  mkVote (dv_mapDelegate v) w (dv_vCollected v).

(** [mapDelegate.insert] keeps a delegate that is there. *)
Definition CreateDelegate (v : CMvDelegateVote) (setDelegate : gset CDestination) : CMvDelegateVote :=
  set_mapDelegate v (dv_mapDelegate v ∪ set_to_map (fun dest => (dest, secret_share (DestToIdent dest))) setDelegate).

(** The loop of [Setup] over the delegates; [rand dest] are the random numbers
    that the delegate [dest] draws. *)
Fixpoint setup_delegates (fuel nMaxThresh : nat) (rand : CDestination -> nat -> Z) (l : list (CDestination * CMPSecretShare))
    (acc : gmap CDestination CMPSecretShare * gmap CDestination (list Z))
    : option (gmap CDestination CMPSecretShare * gmap CDestination (list Z)) :=
  match l with
  | [] => Some acc
  | (dest, s) :: l =>
      '(s, sealed) ← MPVSS.Setup s fuel nMaxThresh (rand dest) sealed_null;
      let bytes := put enroll_codec (nPubKey sealed, (vEncryptedCoeff sealed, (nR sealed, nS sealed))) in
      setup_delegates fuel nMaxThresh rand l
        (<[dest := s]> acc.1, <[dest := default [] (acc.2 !! dest) ++ bytes]> acc.2)
  end.

(** [Setup]: the vote and [mapEnrollData] *)
Definition Setup (v : CMvDelegateVote) (fuel nMaxThresh : nat) (rand : CDestination -> nat -> Z)
    (mapEnrollData : gmap CDestination (list Z)) : option (CMvDelegateVote * gmap CDestination (list Z)) :=
  '(m, mapEnrollData) ← setup_delegates fuel nMaxThresh rand (entries (dv_mapDelegate v)) (dv_mapDelegate v, mapEnrollData);
  Some (set_mapDelegate v m, mapEnrollData).

(** The messages of the enrolled delegates, written behind what is there *)
Fixpoint send_all (send : CMPSecretShare -> Z -> outcome CMvDelegateData) (rand : CDestination -> Z)
    (l : list (CDestination * CMPSecretShare)) (mapData : gmap CDestination (list Z)) : outcome (gmap CDestination (list Z)) :=
  match l with
  | [] => Return mapData
  | (dest, s) :: l =>
      if IsEnrolled s then
        d ← send s (rand dest);
        send_all send rand l (<[dest := default [] (mapData !! dest) ++ put data_codec d]> mapData)
      else send_all send rand l mapData
  end.

Definition Distribute (v : CMvDelegateVote) (rand : CDestination -> Z) (mapDistributeData : gmap CDestination (list Z))
    : outcome (gmap CDestination (list Z)) :=
  send_all Secret_Distribute rand (entries (dv_mapDelegate v)) mapDistributeData.

Definition Publish (v : CMvDelegateVote) (rand : CDestination -> Z) (mapPublishData : gmap CDestination (list Z))
    : outcome (gmap CDestination (list Z)) :=
  send_all Secret_Publish rand (entries (dv_mapDelegate v)) mapPublishData.

(** The candidates in the order of [mapWeight]; one whose data does not parse
    is left out. *)
Fixpoint candidates (mapEnrollData : gmap CDestination (list Z)) (l : list (CDestination * Z)) : outcome (list CMPCandidate) :=
  match l with
  | [] => Return []
  | (dest, nWeight) :: l =>
      match mapEnrollData !! dest with
      | None => candidates mapEnrollData l
      | Some vch =>
          match get enroll_codec vch with
          | Return ((nPubKey, (vEncryptedCoeff, (nR, nS))), _) =>
              cs ← candidates mapEnrollData l;
              Return (mkCandidate (DestToIdent dest) nWeight (sealed_of vEncryptedCoeff nPubKey nR nS) :: cs)
          | Throw _ => candidates mapEnrollData l
          | Undefined => Undefined
          end
      end
  end.

Fixpoint enroll_delegates (vCandidate : list CMPCandidate) (l : list (CDestination * CMPSecretShare))
    : outcome (list (CDestination * CMPSecretShare)) :=
  match l with
  | [] => Return []
  | (dest, s) :: l =>
      s ← MPVSS.Enroll s vCandidate;
      l ← enroll_delegates vCandidate l;
      Return ((dest, s) :: l)
  end.

Definition Enroll (v : CMvDelegateVote) (mapWeight : gmap CDestination Z) (mapEnrollData : gmap CDestination (list Z))
    : outcome CMvDelegateVote :=
  vCandidate ← candidates mapEnrollData (entries mapWeight);
  witness ← MPVSS.Enroll (dv_witness v) vCandidate;
  l ← enroll_delegates vCandidate (entries (dv_mapDelegate v));
  Return (mkVote (list_to_map l) witness (dv_vCollected v)).

Definition VerifySignature (v : CMvDelegateVote) (d : CMvDelegateData) : bool :=
  MPVSS.VerifySignature (dv_witness v) (dd_nIdentFrom d) (GetHash d) (dd_nR d) (dd_nS d).

(** The loop of [Accept] over the delegates of this node *)
Fixpoint accept_delegates (d : CMvDelegateData) (l : list (CDestination * CMPSecretShare))
    (m : gmap CDestination CMPSecretShare) : bool * gmap CDestination CMPSecretShare :=
  match l with
  | [] => (true, m)
  | (dest, s) :: l =>
      if IsEnrolled s then
        match dd_mapShare d !! ss_nIdent s with
        | Some v =>
            let '(ok, s) := MPVSS.Accept s (dd_nIdentFrom d) v in
            if ok then accept_delegates d l (<[dest := s]> m) else (false, <[dest := s]> m)
        | None => accept_delegates d l m
        end
      else accept_delegates d l m
  end.

Definition Accept (v : CMvDelegateVote) (destFrom : CDestination) (vchDistributeData : list Z) : outcome (bool * CMvDelegateVote) :=
  match get data_codec vchDistributeData with
  | Return (d, _) =>
      if negb (dd_nIdentFrom d =? DestToIdent destFrom) || negb (VerifySignature v d) then Return (false, v)
      else
        let '(ok, m) := accept_delegates d (entries (dv_mapDelegate v)) (dv_mapDelegate v) in
        Return (ok, set_mapDelegate v m)
  | Throw _ => Return (false, v)
  | Undefined => Undefined
  end.

(** [Collect]: the result, [fCompleted] (unchanged when the message is refused
    before) and the vote *)
Definition Collect (v : CMvDelegateVote) (destFrom : CDestination) (vchPublishData : list Z) (fCompleted : bool)
    : outcome (bool * bool * CMvDelegateVote) :=
  match get data_codec vchPublishData with
  | Return (d, _) =>
      if (dd_nIdentFrom d =? DestToIdent destFrom) && VerifySignature v d then
        match MPVSS.Collect (dv_witness v) (dd_nIdentFrom d) (dd_mapShare d) with
        | Return (true, fCompleted, w) => Return (true, fCompleted, mkVote (dv_mapDelegate v) w (dv_vCollected v ++ [d]))
        | Return (false, fCompleted, w) => Return (false, fCompleted, set_witness v w)
        | Throw _ => Return (false, false, v)
        | Undefined => Undefined
        end
      else Return (false, fCompleted, v)
  | Throw _ => Return (false, fCompleted, v)
  | Undefined => Undefined
  end.

(** [GetAgreement]: the agreement, its weight and the ballot *)
Definition GetAgreement (w : CMPSecretShare) : outcome (Z * Z * gmap CDestination Z) :=
  mapSecret ← Reconstruct w ∅;
  let l := map_list mapSecret in
  Return (match l with [] => 0 | _ => CryptoHash (flat_map (fun '(_, (secret, _)) => put (d_uint 32) secret) l) end,
    foldl (fun n '(_, (_, weight)) => u64 (n + weight)) 0 l,
    foldl (fun m '(id, (_, weight)) => CWalleveStream.map_insert_new m (DestFromIdent id, weight)) ∅ l).

Definition GetProof (v : CMvDelegateVote) (vchProof : list Z) : list Z := vchProof ++ put (d_vector data_codec) (dv_vCollected v).

(** ** CMvDelegateVerify *)

(** The constructor enrolls the candidates. *)
Definition verify_init (mapWeight : gmap CDestination Z) (mapEnrollData : gmap CDestination (list Z)) : outcome CMvDelegateVote :=
  Enroll vote_init mapWeight mapEnrollData.

(** The loop over [vPublish]; an exception ends it with [false]. *)
Fixpoint verify_loop (w : CMPSecretShare) (vPublish : list CMvDelegateData) : outcome (bool * CMPSecretShare) :=
  match vPublish with
  | [] => Return (true, w)
  | d :: vPublish =>
      if MPVSS.VerifySignature w (dd_nIdentFrom d) (GetHash d) (dd_nR d) (dd_nS d) then
        match MPVSS.Collect w (dd_nIdentFrom d) (dd_mapShare d) with
        | Return (true, _, w) => verify_loop w vPublish
        | Return (false, _, w) => Return (false, w)
        | Throw _ => Return (false, w)
        | Undefined => Undefined
        end
      else Return (false, w)
  end.

(** The weight, the agreement and, unless both are [0], the messages *)
Definition parse_proof (vchProof : list Z) : outcome (Z * Z * list CMvDelegateData) :=
  '(nWeightParse, s) ← get (d_uint 1) vchProof;
  '(nAgreementParse, s) ← get (d_uint 32) s;
  if (nWeightParse =? 0) && (nAgreementParse =? 0) then Return (0, 0, [])
  else
    '(vPublish, _) ← get (d_vector data_codec) s;
    Return (nWeightParse, nAgreementParse, vPublish).

(** [VerifyProof]: the result with the agreement, the weight and the ballot,
    [out] their values before, and the vote *)
Definition VerifyProof (v : CMvDelegateVote) (vchProof : list Z) (out : Z * Z * gmap CDestination Z)
    : outcome (bool * (Z * Z * gmap CDestination Z) * CMvDelegateVote) :=
  match parse_proof vchProof with
  | Return (nWeightParse, nAgreementParse, vPublish) =>
      if (nWeightParse =? 0) && (nAgreementParse =? 0) then Return (true, out, v)
      else
        r ← verify_loop (dv_witness v) vPublish;
        if r.1 : bool then
          a ← GetAgreement r.2;
          Return (a.1.1 =? nAgreementParse, a, set_witness v r.2)
        else Return (false, out, set_witness v r.2)
  | Throw _ => Return (false, out, v)
  | Undefined => Undefined
  end.

(** The proof that [CBlockMaker::PrepareBlock] puts in a block: weight and
    agreement, and the collected messages unless the agreement is [0] *)
Definition PrepareProof (v : CMvDelegateVote) (nAgreement nWeight : Z) : list Z :=
  let vchProof := put (d_pair (d_uint 1) (d_uint 32)) (u8 nWeight, nAgreement) in
  if negb (nAgreement =? 0) then GetProof v vchProof else vchProof.

(** ** CMvDelegate *)

Definition MAX_DELEGATE_THRESH : nat := 50.
Definition MV_CONSENSUS_DISTRIBUTE_INTERVAL : Z := 15.
Definition MV_CONSENSUS_ENROLL_INTERVAL : Z := 30.
Definition MV_CONSENSUS_INTERVAL : Z := MV_CONSENSUS_DISTRIBUTE_INTERVAL + MV_CONSENSUS_ENROLL_INTERVAL + 1.

Definition delegate_init : CMvDelegate := mkDelegate ∅ ∅.

Definition set_mapVote (d : CMvDelegate) (m : gmap Z CMvDelegateVote) : CMvDelegate := mkDelegate (de_setDelegate d) m.

Definition Deinitialize (d : CMvDelegate) : CMvDelegate := set_mapVote d ∅.

Definition AddNewDelegate (d : CMvDelegate) (dest : CDestination) : CMvDelegate :=
  mkDelegate ({[dest]} ∪ de_setDelegate d) (de_mapVote d).

Definition RemoveDelegate (d : CMvDelegate) (dest : CDestination) : CMvDelegate :=
  mkDelegate (de_setDelegate d ∖ {[dest]}) (de_mapVote d).

(** The random numbers of one call of [Evolve] *)
Record rands : Type := mkRands { rand_setup : CDestination -> nat -> Z; rand_distribute : CDestination -> Z; rand_publish : CDestination -> Z }.

(** [Evolve]: a vote for [nTarget] is set up, the one for [nEnrollEnd] enrolls
    and distributes, the one for [nPublish] publishes.  [None] when no round
    of the set-up up to [fuel] makes a box. *)
Definition Evolve (d : CMvDelegate) (fuel : nat) (rand : rands) (nBlockHeight : Z) (mapWeight : gmap CDestination Z)
    (mapEnrollData : gmap CDestination (list Z)) : option (outcome (CMvDelegate * CMvDelegateEvolveResult)) :=
  let nTarget := i32 (nBlockHeight + MV_CONSENSUS_INTERVAL) in
  let nEnrollEnd := i32 (nBlockHeight + MV_CONSENSUS_DISTRIBUTE_INTERVAL + 1) in
  let nPublish := i32 (nBlockHeight + 1) in
  let vote := CreateDelegate (default vote_init (de_mapVote d !! nTarget)) (de_setDelegate d) in
  '(vote, mapEnroll) ← Setup vote fuel MAX_DELEGATE_THRESH (rand_setup rand) ∅;
  let m := <[nTarget := vote]> (de_mapVote d) in
  Some (
    '(m, mapDistribute) ←
      match m !! nEnrollEnd with
      | None => Return (m, ∅)
      | Some vote =>
          vote ← Enroll vote mapWeight mapEnrollData;
          mapDistribute ← Distribute vote (rand_distribute rand) ∅;
          Return (<[nEnrollEnd := vote]> m, mapDistribute)
      end;
    mapPublish ←
      match m !! nPublish with
      | None => Return ∅
      | Some vote => Publish vote (rand_publish rand) ∅
      end;
    Return (set_mapVote d m, mkEvolveResult mapEnroll mapDistribute mapPublish)).

(** [mapVote.erase(upper_bound(lo), upper_bound(hi))] *)
Definition erase_range (lo hi : Z) (m : gmap Z CMvDelegateVote) : gmap Z CMvDelegateVote :=
  filter (fun '(x, _) => ~ (lo < x /\ x <= hi)) m.

Definition Rollback (d : CMvDelegate) (nBlockHeightFrom nBlockHeightTo : Z) : CMvDelegate :=
  let m := filter (fun '(x, _) => x <= i32 (nBlockHeightTo + MV_CONSENSUS_INTERVAL)) (de_mapVote d) in
  let m := erase_range (i32 (nBlockHeightTo + MV_CONSENSUS_DISTRIBUTE_INTERVAL))
             (i32 (nBlockHeightFrom + MV_CONSENSUS_DISTRIBUTE_INTERVAL)) m in
  let m := erase_range (i32 (nBlockHeightTo + 1)) (i32 (nBlockHeightFrom + 1)) m in
  set_mapVote d (delete (i32 (nBlockHeightFrom + 1)) m).

Definition HandleDistribute (d : CMvDelegate) (nTargetHeight : Z) (destFrom : CDestination) (vch : list Z)
    : outcome (bool * CMvDelegate) :=
  match de_mapVote d !! nTargetHeight with
  | None => Return (false, d)
  | Some vote =>
      '(ok, vote) ← Accept vote destFrom vch;
      Return (ok, set_mapVote d (<[nTargetHeight := vote]> (de_mapVote d)))
  end.

Definition HandlePublish (d : CMvDelegate) (nTargetHeight : Z) (destFrom : CDestination) (vch : list Z) (fCompleted : bool)
    : outcome (bool * bool * CMvDelegate) :=
  match de_mapVote d !! nTargetHeight with
  | None => Return (false, fCompleted, d)
  | Some vote =>
      '(ok, fCompleted, vote) ← Collect vote destFrom vch fCompleted;
      Return (ok, fCompleted, set_mapVote d (<[nTargetHeight := vote]> (de_mapVote d)))
  end.

(** [GetAgreement] of a height without a vote leaves the ballot as it was. *)
Definition Delegate_GetAgreement (d : CMvDelegate) (nTargetHeight : Z) (mapBallot : gmap CDestination Z)
    : outcome (Z * Z * gmap CDestination Z) :=
  match de_mapVote d !! nTargetHeight with
  | None => Return (0, 0, mapBallot)
  | Some vote => GetAgreement (dv_witness vote)
  end.

Definition Delegate_GetProof (d : CMvDelegate) (nTargetHeight : Z) (vchProof : list Z) : list Z :=
  match de_mapVote d !! nTargetHeight with
  | None => vchProof
  | Some vote => GetProof vote vchProof
  end.

End vote.

End Delegate.
