(* ===== verification/DelegateOk.v ===== *)
(** * The vote of the delegates is sound

    A block's proof, written by a node that collected the published messages,
    is accepted by every node that enrolled the same delegates, with the same
    agreement; nodes that collected different messages still agree; the
    messages of honest delegates are accepted; and what a rollback of the
    consensus keeps. *)

From S2P Require Import Prelude Stream Destination Base25519 SC25519 Tables Interpolation MPBox MPVSS MPVSSOk Delegate.

Import DataStream.

#[local] Existing Instance Destination.dest_lt_dec.

Module DelegateOk.
Import MPBox MPVSS MPVSSOk Delegate.

(** ** Messages *)

#[local] Instance data_codec_ok : DCodecOk data_codec.
Proof.
  split. intros [id ms r s] rest Hv. cbn [get put data_codec]. rewrite (get_put (c := data_fields)) by exact Hv. done.
Qed.

#[local] Instance data_codec_get : DCodecGet data_codec.
Proof.
  split. intros s. cbn [get put data_codec dvalid]. pose proof (get_read (c := data_fields) s) as H.
  destruct (get data_fields s) as [[[id [ms [r z]]] rest]| |]; cbn [mbind outcome_bind]; [|done|done]. exact H.
Qed.

(** ** What a vote has collected *)

Lemma Collect_refused s from ms fC s' : MPVSS.Collect s from ms = Return (false, fC, s') -> s' = s.
Proof.
  unfold MPVSS.Collect. destruct (GetParticipantRange s from) as [[i w]|]; [|by injection 1].
  destruct (collect_loop _ _ _ _) as [[ps|]| |]; cbn [mbind outcome_bind]; [|by injection 1|done|done].
  destruct (forallb _ ps); [|by injection 1]. by destruct (foldl _ _ _).
Qed.

Section vote.
Context (CryptoHash : list Z -> Z).

(** Messages that a vote has processed since [v0]: of any content, in any order *)
Inductive voted (v0 : CMvDelegateVote) : CMvDelegateVote -> Prop :=
  | voted_none : voted v0 v0
  | voted_accept v destFrom vch ok v' :
      voted v0 v -> Delegate.Accept CryptoHash v destFrom vch = Return (ok, v') -> voted v0 v'
  | voted_collect v destFrom vch fIn ok fCompleted v' :
      voted v0 v -> Forall (is_uint 8) vch ->
      Delegate.Collect CryptoHash v destFrom vch fIn = Return (ok, fCompleted, v') -> voted v0 v'.

Lemma verify_loop_snoc w l d w1 fC w2 :
  verify_loop CryptoHash w l = Return (true, w1) ->
  MPVSS.VerifySignature w1 (dd_nIdentFrom d) (GetHash CryptoHash d) (dd_nR d) (dd_nS d) = true ->
  MPVSS.Collect w1 (dd_nIdentFrom d) (dd_mapShare d) = Return (true, fC, w2) ->
  verify_loop CryptoHash w (l ++ [d]) = Return (true, w2).
Proof.
  revert w. induction l as [|e l IH]; intros w H Hs Hc; cbn [verify_loop app] in *.
  - injection H as <-. by rewrite Hs, Hc.
  - destruct (MPVSS.VerifySignature w _ _ _ _); [|done].
    destruct (MPVSS.Collect w _ _) as [[[[] f] w']| |]; [|done..]. by apply IH.
Qed.

(** Who sent what *)
Definition message (d : CMvDelegateData) : Z * gmap Z (list Z) := (dd_nIdentFrom d, dd_mapShare d).

Lemma verify_loop_collected l w w' :
  verify_loop CryptoHash w l = Return (true, w') -> collected w (map message l) w'.
Proof.
  intros H. assert (Hgen : forall hist w1, collected w hist w1 -> verify_loop CryptoHash w1 l = Return (true, w') ->
    collected w (hist ++ map message l) w').
  { clear H. induction l as [|d l IH]; intros hist w1 Hc H; cbn [verify_loop map] in *.
    - injection H as <-. by rewrite app_nil_r.
    - destruct (MPVSS.VerifySignature w1 _ _ _ _); [|done].
      destruct (MPVSS.Collect w1 _ _) as [[[[] f] w2]| |] eqn:E; [|done..].
      change (hist ++ message d :: map message l) with (hist ++ [message d] ++ map message l).
      rewrite app_assoc. apply (IH _ w2); [|done]. exact (collected_one w hist w1 _ _ f w2 Hc E). }
  apply (Hgen [] w); [constructor|exact H].
Qed.

Lemma voted_inv v0 v :
  voted v0 v -> dv_vCollected v0 = [] ->
  verify_loop CryptoHash (dv_witness v0) (dv_vCollected v) = Return (true, dv_witness v) /\
  Forall (dvalid data_codec) (dv_vCollected v).
Proof.
  intros H H0. induction H as [|v dest vch ok v' _ [IH1 IH2] E|v dest vch fIn ok fC v' _ [IH1 IH2] Hb E].
  - rewrite H0. by split.
  - unfold Delegate.Accept in E. destruct (get data_codec vch) as [[d rest]| |]; [|by injection E as _ <-|done].
    destruct (_ || _); [by injection E as _ <-|]. destruct (accept_delegates _ _ _) as [b m]. by injection E as _ <-.
  - unfold Delegate.Collect in E. pose proof (get_read (c := data_codec) vch) as Hg.
    destruct (get data_codec vch) as [[d rest]| |]; [|by injection E as _ _ <-|done].
    destruct Hg as [_ Hg]. destruct (Hg Hb) as [Hd _].
    destruct (dd_nIdentFrom d =? _); cbn [andb] in E; [|by injection E as _ _ <-].
    destruct (Delegate.VerifySignature CryptoHash v d) eqn:Es; [|by injection E as _ _ <-].
    destruct (MPVSS.Collect (dv_witness v) _ _) as [[[[] f] w]| |] eqn:Ec; [|..|done]; injection E as _ _ <-; cbn.
    + split; [|by apply Forall_app_2; [|apply Forall_cons_2]]. exact (verify_loop_snoc _ _ _ _ _ _ IH1 Es Ec).
    + apply Collect_refused in Ec as ->. done.
    + done.
Qed.

(** ** Proofs *)

(** The witness that enrolled the delegates does not depend on the delegates of
    the node. *)
Lemma Enroll_witness u mapWeight mapEnrollData v0 :
  Delegate.Enroll u mapWeight mapEnrollData = Return v0 -> dv_witness u = dv_witness vote_init ->
  dv_vCollected v0 = dv_vCollected u /\
  exists vf, verify_init mapWeight mapEnrollData = Return vf /\ dv_witness vf = dv_witness v0.
Proof.
  unfold verify_init, Delegate.Enroll. intros E <-.
  destruct (candidates mapEnrollData _) as [cs| |]; cbn [mbind outcome_bind] in *; [|done|done].
  destruct (MPVSS.Enroll (dv_witness u) cs) as [w| |]; cbn [mbind outcome_bind] in *; [|done|done].
  destruct (enroll_delegates cs (entries (dv_mapDelegate u))) as [l| |]; cbn [mbind outcome_bind] in E; [|done|done].
  injection E as <-. split; [done|]. eexists. split; [reflexivity|]. done.
Qed.

Lemma parse_PrepareProof v nAgreement nWeight :
  is_uint 256 nAgreement -> nAgreement <> 0 -> is_uint 64 (Z.of_nat (length (dv_vCollected v))) ->
  Forall (dvalid data_codec) (dv_vCollected v) ->
  parse_proof (PrepareProof v nAgreement nWeight) = Return (u8 nWeight, nAgreement, dv_vCollected v).
Proof.
  intros Ha Hne Hl Hv. unfold PrepareProof, parse_proof, GetProof. rewrite (proj2 (Z.eqb_neq _ _) Hne). cbn [negb].
  cbn [put d_pair fst snd]. fold (put (d_uint 1)) (put (d_uint 32)). rewrite <- app_assoc.
  rewrite (get_put (c := d_uint 1)) by (apply wrap_range; lia). cbn [mbind outcome_bind].
  rewrite (get_put (c := d_uint 32)) by exact Ha. cbn [mbind outcome_bind].
  rewrite (proj2 (Z.eqb_neq _ _) Hne), andb_false_r, <- (app_nil_r (put (d_vector data_codec) _)).
  by rewrite (get_put (c := d_vector data_codec)) by (split; assumption).
Qed.

Lemma proof_accepted (u v0 v : CMvDelegateVote) (mapWeight : gmap CDestination Z) (mapEnrollData : gmap CDestination (list Z))
    (nAgreement nWeight : Z) (mapBallot : gmap CDestination Z) (out : Z * Z * gmap CDestination Z) :
  dv_witness u = dv_witness vote_init -> dv_vCollected u = [] ->
  Delegate.Enroll u mapWeight mapEnrollData = Return v0 -> voted v0 v ->
  Delegate.GetAgreement CryptoHash (dv_witness v) = Return (nAgreement, nWeight, mapBallot) ->
  is_uint 256 nAgreement -> nAgreement <> 0 -> is_uint 64 (Z.of_nat (length (dv_vCollected v))) ->
  exists vf vf', verify_init mapWeight mapEnrollData = Return vf /\
    VerifyProof CryptoHash vf (PrepareProof v nAgreement nWeight) out = Return (true, (nAgreement, nWeight, mapBallot), vf').
Proof.
  intros Hw Hc HE Hv Ha Hu Hne Hl. destruct (Enroll_witness _ _ _ _ HE Hw) as (Hc0 & vf & Evf & Ewf).
  destruct (voted_inv v0 v Hv) as [Hloop Hval]; [congruence|].
  exists vf, (set_witness vf (dv_witness v)). split; [exact Evf|]. unfold VerifyProof. rewrite parse_PrepareProof by assumption.
  rewrite (proj2 (Z.eqb_neq _ _) Hne), andb_false_r, Ewf, Hloop. cbn [mbind outcome_bind fst snd]. rewrite Ha.
  cbn [mbind outcome_bind fst snd]. by rewrite Z.eqb_refl.
Qed.

(** C17: the proof of a block is accepted.  Whatever messages a vote has
    processed since it enrolled the delegates, the proof that the node puts in
    its block is accepted by every node that enrolls the same delegates, which
    computes the same agreement, weight and ballot, if the agreement is not zero. *)
Theorem proof_verifies (u v0 v : CMvDelegateVote) (mapWeight : gmap CDestination Z) (mapEnrollData : gmap CDestination (list Z))
    (nAgreement nWeight : Z) (mapBallot : gmap CDestination Z) (out : Z * Z * gmap CDestination Z) :
  dv_witness u = dv_witness vote_init -> dv_vCollected u = [] ->
  Delegate.Enroll u mapWeight mapEnrollData = Return v0 -> voted v0 v ->
  Delegate.GetAgreement CryptoHash (dv_witness v) = Return (nAgreement, nWeight, mapBallot) ->
  is_uint 256 nAgreement -> nAgreement <> 0 -> is_uint 64 (Z.of_nat (length (dv_vCollected v))) ->
  exists vf vf', verify_init mapWeight mapEnrollData = Return vf /\
    VerifyProof CryptoHash vf (PrepareProof v nAgreement nWeight) out = Return (true, (nAgreement, nWeight, mapBallot), vf').
Proof. exact (proof_accepted u v0 v mapWeight mapEnrollData nAgreement nWeight mapBallot out). Qed.

(** ** Agreement *)

(** The collected messages hold as many shares of the dealer [c] as the
    threshold asks. *)
Definition completed (cs : list CMPCandidate) (v0 v : CMvDelegateVote) (c : CMPCandidate) : bool :=
  thresh cs <=? Z.of_nat (length (shares_of (dv_witness v0) (ca_nIdent c) (map message (dv_vCollected v)))).

(** The delegates whose data enrolls: a valid box that commits to a polynomial,
    a weight and an identity other than that of the witness *)
Record enrolment (mapWeight : gmap CDestination Z) (mapEnrollData : gmap CDestination (list Z)) (cs : list CMPCandidate) : Prop := {
  en_candidates : candidates mapEnrollData (entries mapWeight) = Return cs;
  en_ok : candidates_ok cs;
  en_ident : 0 ∉ map ca_nIdent cs;
  en_commits : forall c, c ∈ cs -> 0 < ca_nWeight c /\ exists poly, commits (ca_sBox c) poly;
}.

(** A vote that has collected nothing yet *)
Record fresh (u : CMvDelegateVote) : Prop := {
  fresh_witness : dv_witness u = dv_witness vote_init;
  fresh_collected : dv_vCollected u = [];
}.

Lemma enrolled_witness mapWeight mapEnrollData cs u v0 :
  enrolment mapWeight mapEnrollData cs -> fresh u -> Delegate.Enroll u mapWeight mapEnrollData = Return v0 ->
  MPVSS.Enroll (dv_witness vote_init) cs = Return (dv_witness v0) /\ dv_vCollected v0 = [] /\
  ready cs (dv_witness v0) /\ ss_nIdent (dv_witness v0) = 0 /\ ss_mapOpenedShare (dv_witness v0) = ∅.
Proof.
  intros [Hc Hok _ _] [Hw Hl] E. unfold Delegate.Enroll in E. rewrite Hc, Hw in E. cbn [mbind outcome_bind] in E.
  destruct (Enroll_spec cs (dv_witness vote_init) Hok) as (w & Ew & Hr & Hi & _ & Ho); [done..|]. rewrite Ew in E.
  cbn [mbind outcome_bind] in E. destruct (enroll_delegates _ _) as [l| |]; cbn [mbind outcome_bind] in E; [|done|done].
  injection E as <-. cbn [dv_witness dv_vCollected]. by split_and!.
Qed.

Lemma message_uint l from ms id v :
  Forall (dvalid data_codec) l -> (from, ms) ∈ map message l -> ms !! id = Some v -> Forall (is_uint 256) v.
Proof.
  intros Hl Hin Hv. apply list_elem_of_fmap in Hin as (d & E & Hd). injection E as -> ->.
  rewrite Forall_forall in Hl. destruct (Hl d Hd) as (_ & [_ Hm] & _). destruct (Hm id v Hv) as [_ [_ Hf]]. exact Hf.
Qed.

(** The secrets reconstructed by a vote *)
Lemma vote_secrets mapWeight mapEnrollData cs u v0 v :
  enrolment mapWeight mapEnrollData cs -> fresh u -> Delegate.Enroll u mapWeight mapEnrollData = Return v0 ->
  voted v0 v -> NoDup (map dd_nIdentFrom (dv_vCollected v)) ->
  exists m, Reconstruct (dv_witness v) ∅ = Return m /\
    (forall c poly, c ∈ cs -> commits (ca_sBox c) poly ->
      m !! ca_nIdent c = if completed cs v0 v c then Some (hd 0 poly mod SC25519.L, ca_nWeight c) else None) /\
    (forall id, id ∉ map ca_nIdent cs -> m !! id = None).
Proof.
  intros Hen Hu HE Hv Hnd. destruct (enrolled_witness _ _ _ _ _ Hen Hu HE) as (_ & Hc0 & Hr & Hi & Ho).
  destruct (voted_inv v0 v Hv Hc0) as [Hloop Hval]. apply verify_loop_collected in Hloop.
  destruct (Reconstruct_collected cs (dv_witness v0) (dv_witness v) (map message (dv_vCollected v))) as (m & Em & Hm & Hno).
  - exact (en_ok _ _ _ Hen).
  - exact Hr.
  - rewrite Hi. apply (en_ident _ _ _ Hen).
  - exact Ho.
  - exact Hloop.
  - rewrite <- list_fmap_compose. exact Hnd.
  - intros from ms id sh. by apply message_uint.
  - exists m. split; [done|]. split; [|done]. intros c poly Hcs Hcom. apply Hm; [done|done|].
    by apply (en_commits _ _ _ Hen).
Qed.

(** C16: the nodes agree.  Two nodes that enrolled the same delegates and
    collected messages, whichever and in whatever order, of different senders
    compute the same agreement, weight and ballot as soon as the same dealers
    are completed in both. *)
Theorem agreement_common (mapWeight : gmap CDestination Z) (mapEnrollData : gmap CDestination (list Z)) (cs : list CMPCandidate)
    (u u' v0 v0' v v' : CMvDelegateVote) :
  enrolment mapWeight mapEnrollData cs -> fresh u -> fresh u' ->
  Delegate.Enroll u mapWeight mapEnrollData = Return v0 -> Delegate.Enroll u' mapWeight mapEnrollData = Return v0' ->
  voted v0 v -> voted v0' v' ->
  NoDup (map dd_nIdentFrom (dv_vCollected v)) -> NoDup (map dd_nIdentFrom (dv_vCollected v')) ->
  (forall c, c ∈ cs -> completed cs v0 v c = completed cs v0' v' c) ->
  exists a, Delegate.GetAgreement CryptoHash (dv_witness v) = Return a /\
            Delegate.GetAgreement CryptoHash (dv_witness v') = Return a.
Proof.
  intros Hen Hu Hu' HE HE' Hv Hv' Hnd Hnd' Hco.
  destruct (vote_secrets _ _ _ _ _ _ Hen Hu HE Hv Hnd) as (m & Em & Hm & Hno).
  destruct (vote_secrets _ _ _ _ _ _ Hen Hu' HE' Hv' Hnd') as (m' & Em' & Hm' & Hno').
  assert (E : m = m').
  { apply map_eq. intros id. destruct (decide (id ∈ map ca_nIdent cs)) as [Hin|Hin]; [|by rewrite Hno, Hno'].
    apply list_elem_of_fmap in Hin as (c & -> & Hc). destruct (en_commits _ _ _ Hen c Hc) as [_ [poly Hp]].
    by rewrite (Hm c poly), (Hm' c poly), Hco by assumption. }
  unfold Delegate.GetAgreement. rewrite Em, Em', E. cbn [mbind outcome_bind]. by eexists.
Qed.

(** ** Messages of honest delegates *)

Lemma PrecalcPolynomial_frame b nThresh nLastIndex b' :
  PrecalcPolynomial b nThresh nLastIndex = Return b' -> vEncryptedCoeff b' = vEncryptedCoeff b /\ nPubKey b' = nPubKey b.
Proof.
  unfold PrecalcPolynomial. destruct (unpack_coeffs nThresh b) as [vP| |]; cbn [mbind outcome_bind]; [|done|done].
  destruct (precalc_loop _ _ _) as [l| |]; cbn [mbind outcome_bind]; [|done|done]. by injection 1 as <-.
Qed.

Lemma RandShare_range r : 0 <= RandShare r < 2 ^ 252.
Proof.
  unfold RandShare. change 0x0FFFFFFF with (Z.ones 28). rewrite !Z.land_ones by lia.
  pose proof (Z.mod_pos_bound r (2 ^ 224) ltac:(lia)). pose proof (Z.mod_pos_bound (Z.shiftr r 224) (2 ^ 28) ltac:(lia)).
  rewrite lor_shiftl by (unfold is_uint; lia). nia.
Qed.

Lemma RandShare_uint r : is_uint 256 (RandShare r).
Proof. pose proof (RandShare_range r). unfold is_uint. lia. Qed.

Lemma Signature_uint s hash r :
  is_uint 256 (nPrivKey (ss_myBox s)) -> is_uint 256 hash ->
  is_uint 256 (MPVSS.Signature s hash r).1 /\ is_uint 256 (MPVSS.Signature s hash r).2.
Proof.
  intros Hk Hh. assert (Hr : is_uint 256 (RandShare r)) by apply RandShare_uint.
  unfold MPVSS.Signature, MPBox.Signature. cbn [fst snd]. split; [by apply pubkey_spec|].
  rewrite MPEccSign_spec by assumption. apply scalar_uint.
Qed.

(** A node that enrolled the candidates verifies the signatures of an honest
    delegate. *)
Lemma Signature_verifies cs s w c j hash r :
  candidates_ok cs -> ready cs w -> deals s c -> (c, j) ∈ place 1 cs -> ca_nIdent c <> ss_nIdent w -> is_uint 256 hash ->
  MPVSS.VerifySignature w (ca_nIdent c) hash (MPVSS.Signature s hash r).1 (MPVSS.Signature s hash r).2 = true.
Proof.
  intros Hok Hw Hd Hpl Hne Hh. unfold MPVSS.VerifySignature. rewrite (proj2 (Z.eqb_neq _ _) Hne).
  destruct (rd_part _ _ Hw c j Hpl Hne) as (p & -> & Hp).
  destruct (PrecalcPolynomial_frame _ _ _ _ (po_box _ _ _ _ _ Hp)) as [E1 E2].
  destruct (place_range _ _ _ _ (co_weight _ Hok) Hpl) as (Hc & _).
  pose proof (co_verify _ Hok) as Hv. rewrite Forall_forall in Hv. specialize (Hv c Hc).
  unfold Candidate_Verify, VerifyIdent in Hv. unfold Sealed_VerifySignature.
  destruct (Sealed_IsNull (ca_sBox c)) eqn:En; [discriminate Hv|].
  assert (En' : Sealed_IsNull (pa_sBox p) = false) by (unfold Sealed_IsNull in *; rewrite E1, E2; exact En).
  rewrite En', E2, (dl_pubkey _ _ Hd).
  apply signature_verifies; [apply (dl_honest _ _ Hd)|apply RandShare_uint|exact Hh].
Qed.

(** Encoding of the messages that a node collects *)
Lemma collected_valid cs w c j ms fC w' :
  candidates_ok cs -> ready cs w -> (c, j) ∈ place 1 cs -> MPVSS.Collect w (ca_nIdent c) ms = Return (true, fC, w') ->
  Forall (is_uint 256) (map ca_nIdent cs) -> is_uint 256 (ss_nIdent w) -> Z.of_nat (length cs) < 2 ^ 63 ->
  (forall id v, ms !! id = Some v -> Forall (is_uint 256) v) -> dvalid share_codec ms.
Proof.
  intros Hok Hw Hpl HC Hid Hwid Hl Hu. apply Collect_iff in HC as (i & n & Hr & He & _).
  rewrite (range_of cs w c j Hok Hw Hpl) in Hr. injection Hr as <- <-.
  destruct (place_range _ _ _ _ (co_weight _ Hok) Hpl) as (_ & Hj & Hj' & Hn). pose proof (co_total _ Hok) as Ht.
  assert (Hdom : forall id v, ms !! id = Some v -> id ∈ ss_nIdent w :: map ca_nIdent cs).
  { intros id v Hv. destruct (He id v Hv) as [_ [[E _]|[Hne (p & Hp & _)]]]; cbn [fst] in *; [rewrite E; left|right].
    destruct (rd_only _ _ Hw id p Hp) as (c' & i' & Hpl' & <- & _).
    destruct (place_range _ _ _ _ (co_weight _ Hok) Hpl') as (Hc' & _). by apply list_elem_of_fmap_2. }
  split.
  - assert (Hs : (size ms <= S (length cs))%nat).
    { rewrite <- length_map_to_list, <- (length_map fst), <- (length_map ca_nIdent cs).
      apply (submseteq_length _ (ss_nIdent w :: map ca_nIdent cs)). apply NoDup_submseteq; [apply NoDup_fst_map_to_list|].
      intros id Hin. apply list_elem_of_fmap in Hin as ([id' v] & -> & Hin). apply elem_of_map_to_list in Hin. by apply (Hdom _ v). }
    unfold is_uint. lia.
  - intros id v Hv. split.
    + specialize (Hdom id v Hv). apply elem_of_cons in Hdom as [->|Hin]; [exact Hwid|].
      rewrite Forall_forall in Hid. by apply Hid.
    + destruct (He id v Hv) as [Hlen _]. cbn [snd] in Hlen. split; [unfold is_uint; lia|by apply (Hu id)].
Qed.

(** The data of a vote that enrolled the candidates *)
Record enrolled_vote (cs : list CMPCandidate) (v : CMvDelegateVote) : Prop := {
  ev_ok : candidates_ok cs;
  ev_ready : ready cs (dv_witness v);
  ev_ident : ss_nIdent (dv_witness v) = 0;
  ev_absent : 0 ∉ map ca_nIdent cs;
  ev_uint : Forall (is_uint 256) (map ca_nIdent cs);
  ev_length : Z.of_nat (length cs) < 2 ^ 63;
}.

Context (hash_uint : forall l, is_uint 256 (CryptoHash l)).

Lemma sign_data_fields s ms r :
  dd_nIdentFrom (sign_data CryptoHash s ms r) = ss_nIdent s /\ dd_mapShare (sign_data CryptoHash s ms r) = ms /\
  GetHash CryptoHash (sign_data CryptoHash s ms r) = CryptoHash (put share_codec ms) /\
  dd_nR (sign_data CryptoHash s ms r) = (MPVSS.Signature s (CryptoHash (put share_codec ms)) r).1 /\
  dd_nS (sign_data CryptoHash s ms r) = (MPVSS.Signature s (CryptoHash (put share_codec ms)) r).2.
Proof.
  unfold sign_data, GetHash. cbn [dd_mapShare]. by destruct (MPVSS.Signature _ _ _).
Qed.

Section signed.
Context (cs : list CMPCandidate) (v : CMvDelegateVote) (s : CMPSecretShare) (c : CMPCandidate) (j r : Z) (ms : gmap Z (list Z)).
Context (Hv : enrolled_vote cs v) (Hd : deals s c) (Hpl : (c, j) ∈ place 1 cs) (Hms : dvalid share_codec ms).

Lemma dealer_uint : is_uint 256 (ca_nIdent c).
Proof.
  destruct (place_range _ _ _ _ (co_weight _ (ev_ok _ _ Hv)) Hpl) as (Hc & _).
  pose proof (ev_uint _ _ Hv) as H. rewrite Forall_forall in H. by apply H, list_elem_of_fmap_2.
Qed.

Lemma sign_data_valid : dvalid data_codec (sign_data CryptoHash s ms r).
Proof.
  destruct (sign_data_fields s ms r) as (E1 & E2 & _ & E4 & E5).
  pose proof (Signature_uint s _ r (honest_key _ (dl_honest _ _ Hd)) (hash_uint (put share_codec ms))) as HS.
  rewrite <- E4, <- E5 in HS. generalize dependent (sign_data CryptoHash s ms r). intros d E1 E2 _ _ [HR HS].
  assert (Hid : is_uint 256 (dd_nIdentFrom d)) by (rewrite E1, <- (dl_ident _ _ Hd); exact dealer_uint).
  rewrite <- E2 in Hms. exact (conj Hid (conj Hms (conj HR HS))).
Qed.

Lemma sign_data_verifies : Delegate.VerifySignature CryptoHash v (sign_data CryptoHash s ms r) = true.
Proof.
  destruct (sign_data_fields s ms r) as (E1 & _ & E3 & E4 & E5).
  assert (Hne : ca_nIdent c <> ss_nIdent (dv_witness v)).
  { rewrite (ev_ident _ _ Hv). intros E. apply (ev_absent _ _ Hv). rewrite <- E. apply list_elem_of_fmap_2.
    by destruct (place_range _ _ _ _ (co_weight _ (ev_ok _ _ Hv)) Hpl). }
  pose proof (Signature_verifies cs s _ c j _ r (ev_ok _ _ Hv) (ev_ready _ _ Hv) Hd Hpl Hne (hash_uint (put share_codec ms))) as H.
  rewrite <- E4, <- E5 in H. unfold Delegate.VerifySignature. rewrite E1, E3, <- (dl_ident _ _ Hd). exact H.
Qed.

Lemma sign_data_arrives : get data_codec (put data_codec (sign_data CryptoHash s ms r)) = Return (sign_data CryptoHash s ms r, []).
Proof. rewrite <- (app_nil_r (put data_codec _)). apply (get_put (c := data_codec)). exact sign_data_valid. Qed.

End signed.

Lemma publish_message (cs : list CMPCandidate) (v : CMvDelegateVote) (s : CMPSecretShare) (c : CMPCandidate)
    (j r : Z) (destFrom : CDestination) (fIn : bool) :
  enrolled_vote cs v -> ready cs s -> deals s c -> (c, j) ∈ place 1 cs -> DestToIdent destFrom = ca_nIdent c ->
  exists d fCompleted w, Secret_Publish CryptoHash s r = Return d /\
    Delegate.Collect CryptoHash v destFrom (put data_codec d) fIn =
      Return (true, fCompleted, mkVote (dv_mapDelegate v) w (dv_vCollected v ++ [d])) /\
    MPVSS.Collect (dv_witness v) (ca_nIdent c) (dd_mapShare d) = Return (true, fCompleted, w) /\
    dd_nIdentFrom d = ca_nIdent c /\
    dd_mapShare d !! ca_nIdent c = Some (values (take (Z.to_nat (thresh cs)) (vCoeff (ss_myBox s))) j (ca_nWeight c)).
Proof.
  intros Hv Hs Hd Hpl Hdest.
  destruct (Publish_spec cs s (dv_witness v) c j (ev_ok _ _ Hv) Hs (ev_ready _ _ Hv) Hd Hpl)
    as (ms & fC & w & Ep & Ec & Hown & _ & Hu); [rewrite (ev_ident _ _ Hv); apply (ev_absent _ _ Hv)|].
  assert (Hms : dvalid share_codec ms).
  { apply (collected_valid cs (dv_witness v) c j ms fC w); [apply Hv..|exact Hpl|exact Ec|apply Hv| |apply Hv|exact Hu].
    rewrite (ev_ident _ _ Hv). split; lia. }
  pose proof (sign_data_arrives cs v s c j r ms Hv Hd Hpl Hms) as Eg. pose proof (sign_data_verifies cs v s c j r ms Hv Hd Hpl) as Es.
  destruct (sign_data_fields s ms r) as (E1 & E2 & _).
  exists (sign_data CryptoHash s ms r), fC, w. unfold Secret_Publish. rewrite Ep. cbn [mbind outcome_bind]. split; [done|].
  unfold Delegate.Collect. rewrite Eg, Es, E1, E2, <- (dl_ident _ _ Hd), Hdest, Z.eqb_refl. cbn [andb]. rewrite Ec. done.
Qed.

(** C19: the message that an honest delegate publishes, signed and sent as
    bytes, is collected by every vote that enrolled the same candidates: the
    signature verifies, the shares pass, and the message joins those of the
    proof. *)
Theorem publish_message_collected (cs : list CMPCandidate) (v : CMvDelegateVote) (s : CMPSecretShare) (c : CMPCandidate)
    (j r : Z) (destFrom : CDestination) (fIn : bool) :
  enrolled_vote cs v -> ready cs s -> deals s c -> (c, j) ∈ place 1 cs -> DestToIdent destFrom = ca_nIdent c ->
  exists d fCompleted w, Secret_Publish CryptoHash s r = Return d /\
    Delegate.Collect CryptoHash v destFrom (put data_codec d) fIn =
      Return (true, fCompleted, mkVote (dv_mapDelegate v) w (dv_vCollected v ++ [d])) /\
    MPVSS.Collect (dv_witness v) (ca_nIdent c) (dd_mapShare d) = Return (true, fCompleted, w) /\
    dd_nIdentFrom d = ca_nIdent c /\
    dd_mapShare d !! ca_nIdent c = Some (values (take (Z.to_nat (thresh cs)) (vCoeff (ss_myBox s))) j (ca_nWeight c)).
Proof. exact (publish_message cs v s c j r destFrom fIn). Qed.

(** A delegate after its part of a distributed message *)
Definition accept_one (d : CMvDelegateData) (b : CMPSecretShare) : bool * CMPSecretShare :=
  if IsEnrolled b then
    match dd_mapShare d !! ss_nIdent b with Some v => MPVSS.Accept b (dd_nIdentFrom d) v | None => (true, b) end
  else (true, b).

Lemma accept_delegates_spec d l m :
  NoDup l.*1 -> (forall dest b, (dest, b) ∈ l -> m !! dest = Some b /\ (accept_one d b).1 = true) ->
  exists m', accept_delegates d l m = (true, m') /\
    (forall dest b, (dest, b) ∈ l -> m' !! dest = Some (accept_one d b).2) /\
    (forall dest, dest ∉ l.*1 -> m' !! dest = m !! dest).
Proof.
  revert m. induction l as [|[dest b] l IH]; intros m Hnd Hall.
  { exists m. split; [done|]. split; [intros dest b Hin; by apply elem_of_nil in Hin|done]. }
  cbn [fmap list_fmap fst] in Hnd. apply NoDup_cons in Hnd as [Hd Hnd]. destruct (Hall dest b) as [Hm Hok]; [left|].
  assert (E : accept_delegates d ((dest, b) :: l) m = accept_delegates d l (<[dest := (accept_one d b).2]> m)).
  { cbn [accept_delegates]. revert Hok. unfold accept_one. destruct (IsEnrolled b); [|by rewrite insert_id].
    destruct (dd_mapShare d !! ss_nIdent b) as [v|]; [|by rewrite insert_id].
    destruct (MPVSS.Accept b _ v) as [[] b']; [done|discriminate]. }
  rewrite E. destruct (IH (<[dest := (accept_one d b).2]> m) Hnd) as (m' & -> & Hin & Hout).
  { intros dest' b' Hl. destruct (Hall dest' b') as [Hm' Hok']; [by right|]. split; [|done].
    rewrite lookup_insert_ne; [done|]. intros ->. apply Hd. by apply list_elem_of_fmap_2 with (f := fst) in Hl. }
  exists m'. split; [done|]. split.
  - intros dest' b' Hl. apply elem_of_cons in Hl as [E'|Hl]; [|by apply Hin]. injection E' as -> ->.
    by rewrite Hout, lookup_insert_eq.
  - intros dest' Hno. cbn [fmap list_fmap fst] in Hno. apply not_elem_of_cons in Hno as [Hne Hno].
    by rewrite Hout, lookup_insert_ne.
Qed.

(** Encoding of the messages that an honest delegate distributes *)
Lemma distributed_valid cs s c ms :
  candidates_ok cs -> ready cs s -> deals s c -> c ∈ cs -> MPVSS.Distribute s ∅ = Return ms ->
  Forall (is_uint 256) (map ca_nIdent cs) -> Z.of_nat (length cs) < 2 ^ 63 -> dvalid share_codec ms.
Proof.
  intros Hok Hs Hd Hc HD Hid Hl. destruct (Distribute_spec cs s c Hok Hs Hd Hc) as (ms' & E & Hin & Hno).
  rewrite HD in E. injection E as <-.
  assert (Hms : forall id v, ms !! id = Some v -> id ∈ map ca_nIdent cs /\ Forall (is_uint 256) v /\ (length v <= 51)%nat).
  { intros id v Hv. destruct (ss_mapParticipant s !! id) as [p|] eqn:E; [|by rewrite (Hno id E) in Hv].
    destruct (rd_only _ _ Hs id p E) as (c' & j & Hpl & <- & Hne). destruct (rd_part _ _ Hs c' j Hpl Hne) as (p' & E' & Hp).
    rewrite E in E'. injection E' as <-. rewrite (Hin c' j p Hpl E Hp) in Hv. injection Hv as <-.
    destruct (place_range _ _ _ _ (co_weight _ Hok) Hpl) as (Hc' & Hj & Hj' & Hn). pose proof (co_total _ Hok).
    split; [by apply list_elem_of_fmap_2|]. split; [|rewrite length_map, length_values; lia].
    apply Forall_forall. intros y Hy. apply list_elem_of_fmap in Hy as (x & -> & Hx).
    apply lxor_uint; [rewrite (po_key _ _ _ _ _ Hp); apply MPEccSharedKey_uint|].
    pose proof (values_uint (take (Z.to_nat (thresh cs)) (vCoeff (ss_myBox s))) j (ca_nWeight c')) as Hvu.
    rewrite Forall_forall in Hvu. by apply Hvu. }
  split.
  - assert (Hsz : (size ms <= length cs)%nat).
    { rewrite <- length_map_to_list, <- (length_map fst), <- (length_map ca_nIdent cs).
      apply submseteq_length, NoDup_submseteq; [apply NoDup_fst_map_to_list|].
      intros id Hm. apply list_elem_of_fmap in Hm as ([id' v] & -> & Hm). apply elem_of_map_to_list in Hm. by apply (Hms _ v). }
    unfold is_uint. lia.
  - intros id v Hv. destruct (Hms id v Hv) as (Hi & Hu & Hlen). rewrite Forall_forall in Hid.
    split; [by apply Hid|]. split; [unfold is_uint; lia|exact Hu].
Qed.

(** The part of an honest dealer's message for another honest delegate *)
Lemma accept_one_spec cs s c i ms r b cb j :
  candidates_ok cs -> ready cs s -> deals s c -> (c, i) ∈ place 1 cs -> MPVSS.Distribute s ∅ = Return ms ->
  ready cs b -> deals b cb -> (cb, j) ∈ place 1 cs -> ca_nIdent c <> ca_nIdent cb ->
  exists b' p, accept_one (sign_data CryptoHash s ms r) b = (true, b') /\ ready cs b' /\
    ss_mapParticipant b' !! ca_nIdent c = Some p /\
    pa_vShare p = values (take (Z.to_nat (thresh cs)) (vCoeff (ss_myBox s))) j (ca_nWeight cb).
Proof.
  intros Hok Hs Hd Hpl HD Hb Hdb Hplb Hne.
  destruct (Accept_spec cs s b c cb i j) as (ms' & v & b' & p & ED & Hv & HA & Hb' & Hp & Hsh); try assumption.
  rewrite HD in ED. injection ED as <-. exists b', p. split; [|done]. unfold accept_one, IsEnrolled.
  destruct (sign_data_fields s ms r) as (-> & -> & _).
  destruct (rd_own _ _ Hb cb j Hplb (dl_ident _ _ Hdb)) as [-> _].
  destruct (place_range _ _ _ _ (co_weight _ Hok) Hplb) as (_ & Hj & _).
  rewrite (proj2 (Z.eqb_neq _ _)) by lia. cbn [negb]. by rewrite <- (dl_ident _ _ Hdb), Hv, <- (dl_ident _ _ Hd).
Qed.

(** C20: the message that an honest delegate distributes, signed and sent as
    bytes, is accepted by a node all of whose delegates are honest and enrolled
    the same candidates: each of them keeps the values of the dealer's
    polynomial at its own indices. *)
Theorem distribute_message_accepted (cs : list CMPCandidate) (v : CMvDelegateVote) (s : CMPSecretShare) (c : CMPCandidate)
    (i r : Z) (destFrom : CDestination) :
  enrolled_vote cs v -> ready cs s -> deals s c -> (c, i) ∈ place 1 cs -> DestToIdent destFrom = ca_nIdent c ->
  (forall dest b, dv_mapDelegate v !! dest = Some b ->
    ready cs b /\ exists cb j, deals b cb /\ (cb, j) ∈ place 1 cs /\ ca_nIdent c <> ca_nIdent cb) ->
  exists d m, Secret_Distribute CryptoHash s r = Return d /\
    Delegate.Accept CryptoHash v destFrom (put data_codec d) = Return (true, set_mapDelegate v m) /\
    forall dest b cb j, dv_mapDelegate v !! dest = Some b -> deals b cb -> (cb, j) ∈ place 1 cs ->
      exists b' p, m !! dest = Some b' /\ ready cs b' /\ ss_mapParticipant b' !! ca_nIdent c = Some p /\
        pa_vShare p = values (take (Z.to_nat (thresh cs)) (vCoeff (ss_myBox s))) j (ca_nWeight cb).
Proof.
  intros Hv Hs Hd Hpl Hdest Hall. destruct (place_range _ _ _ _ (co_weight _ (ev_ok _ _ Hv)) Hpl) as (Hc & _).
  destruct (Distribute_spec cs s c (ev_ok _ _ Hv) Hs Hd Hc) as (ms & HD & _).
  pose proof (distributed_valid cs s c ms (ev_ok _ _ Hv) Hs Hd Hc HD (ev_uint _ _ Hv) (ev_length _ _ Hv)) as Hms.
  destruct (accept_delegates_spec (sign_data CryptoHash s ms r) (entries (dv_mapDelegate v)) (dv_mapDelegate v)) as (m & Em & Hin & _).
  - apply CWalleveStreamOk.NoDup_map_entries.
  - intros dest b Hb. apply CWalleveStreamOk.elem_of_map_entries in Hb. split; [done|].
    destruct (Hall dest b Hb) as (Hrb & cb & j & Hdb & Hplb & Hne).
    destruct (accept_one_spec cs s c i ms r b cb j (ev_ok _ _ Hv) Hs Hd Hpl HD Hrb Hdb Hplb Hne) as (b' & p & -> & _). done.
  - exists (sign_data CryptoHash s ms r), m. unfold Secret_Distribute. rewrite HD. cbn [mbind outcome_bind]. split; [done|].
    split.
    + unfold Delegate.Accept. destruct (sign_data_fields s ms r) as (E1 & _).
      rewrite (sign_data_arrives cs v s c i r ms Hv Hd Hpl Hms), E1, (sign_data_verifies cs v s c i r ms Hv Hd Hpl), Em.
      by rewrite <- (dl_ident _ _ Hd), Hdest, Z.eqb_refl.
    + intros dest b cb j Hb Hdb Hplb. destruct (Hall dest b Hb) as (Hrb & cb' & j' & Hdb' & Hplb' & Hne).
      assert (Hne' : ca_nIdent c <> ca_nIdent cb) by (rewrite (dl_ident _ _ Hdb), <- (dl_ident _ _ Hdb'); exact Hne).
      destruct (accept_one_spec cs s c i ms r b cb j (ev_ok _ _ Hv) Hs Hd Hpl HD Hrb Hdb Hplb Hne') as (b' & p & E & H).
      exists b', p. split; [|exact H]. rewrite (Hin dest b), E; [done|]. by apply CWalleveStreamOk.elem_of_map_entries.
Qed.

End vote.

(** ** Setting up *)

(** The numbers from number [k] on make a box. *)
Definition round_ok (nMaxThresh : nat) (rand : nat -> Z) (k : nat) : bool :=
  Validate (setup_box nMaxThresh rand k) && negb (RandShare (rand (k + 1 + nMaxThresh)%nat) =? 0).

(** The loop ends with the first round whose numbers are not [0]. *)
Lemma setup_loop_spec fuel nMaxThresh rand k nIdent sealed :
  setup_loop fuel nMaxThresh rand k nIdent sealed =
    match find (round_ok nMaxThresh rand) (map (fun i => (k + i * (2 + nMaxThresh))%nat) (seq 0 fuel)) with
    | Some k => Some (setup_box nMaxThresh rand k,
        (MakeSealedBox (setup_box nMaxThresh rand k) sealed nIdent (RandShare (rand (k + 1 + nMaxThresh)%nat))).2)
    | None => None
    end.
Proof.
  revert k. induction fuel as [|fuel IH]; intros k; cbn [setup_loop seq map find]; [done|].
  rewrite Nat.mul_0_l, Nat.add_0_r. unfold round_ok at 1. unfold MakeSealedBox at 1.
  destruct (Validate (setup_box nMaxThresh rand k)) eqn:Ev, (RandShare _ =? 0) eqn:Er; cbn [negb orb andb].
  2: { unfold MakeSealedBox. rewrite Ev, Er. cbn [negb orb]. by destruct (MPBox.Signature _ _ _). }
  all: rewrite IH, <- seq_shift, map_map.
  all: by rewrite (map_ext (fun i => (k + 2 + nMaxThresh + i * (2 + nMaxThresh))%nat) (fun i => (k + S i * (2 + nMaxThresh))%nat)) by lia.
Qed.

(** The fields of a sealed box as they are sent *)
Definition enroll_data (b : CMPSealedBox) : Z * (list Z * (Z * Z)) := (nPubKey b, (vEncryptedCoeff b, (nR b, nS b))).

Lemma MakeSealedBox_valid b nIdent r s :
  honest b -> is_uint 256 r -> is_uint 256 nIdent -> Z.of_nat (length (vCoeff b)) < 2 ^ 64 ->
  MakeSealedBox b sealed_null nIdent r = (true, s) -> dvalid enroll_codec (enroll_data s).
Proof.
  intros Hb Hr Hi Hl E. unfold MakeSealedBox in E. destruct (_ || _); [discriminate E|].
  unfold MPBox.Signature in E. injection E as <-.
  assert (Hp : is_uint 256 (Opened_PubKey b)) by (apply pubkey_spec, Hb).
  assert (HR : is_uint 256 (MPEccPubkey r)) by (apply pubkey_spec, Hr).
  assert (HS : is_uint 256 (MPEccSign (nPrivKey b) r nIdent)) by (rewrite MPEccSign_spec by (assumption || apply Hb); apply scalar_uint).
  assert (Hc : dvalid (d_vector (d_uint 32)) (map MPEccPubkey (vCoeff b))).
  { split; [rewrite length_map; unfold is_uint; lia|]. apply Forall_forall. intros x Hx.
    apply list_elem_of_fmap in Hx as (c & -> & Hx). pose proof (honest_uint b Hb) as Hu. rewrite Forall_forall in Hu.
    exact (proj1 (proj2 (pubkey_spec c (Hu c Hx)))). }
  exact (conj Hp (conj Hc (conj HR HS))).
Qed.

(** What [Setup] leaves: an honest box, and a sealed box that verifies *)
Lemma Setup_spec s fuel nMaxThresh rand s' sealed :
  MPVSS.Setup s fuel nMaxThresh rand sealed_null = Some (s', sealed) -> is_uint 256 (ss_nIdent s) ->
  nPrivKey (ss_myBox s') <> 0 -> Z.of_nat nMaxThresh < 2 ^ 64 ->
  honest (ss_myBox s') /\ VerifyIdent sealed (ss_nIdent s) = true /\ commits sealed (vCoeff (ss_myBox s')) /\
  nPubKey sealed = Opened_PubKey (ss_myBox s') /\ length (vCoeff (ss_myBox s')) = nMaxThresh /\ ss_nIdent s' = ss_nIdent s /\
  vEncryptedShare sealed = [] /\ dvalid enroll_codec (enroll_data sealed).
Proof.
  unfold MPVSS.Setup. rewrite setup_loop_spec. destruct (find _ _) as [k|] eqn:Ef; [|discriminate].
  intros E Hid Hk Hn. cbn in E. injection E as <- <-. cbn [ss_myBox ss_nIdent] in *.
  apply find_some in Ef as [_ Hok]. unfold round_ok in Hok. apply andb_true_iff in Hok as [Hval Hr].
  apply negb_true_iff, Z.eqb_neq in Hr. set (box := setup_box nMaxThresh rand k) in *.
  assert (Hc : Forall (fun c => 0 <= c < 2 ^ 252) (vCoeff box)).
  { apply Forall_forall. intros c Hin. apply list_elem_of_fmap in Hin as (i & -> & _). apply RandShare_range. }
  assert (Hb : honest box).
  { unfold Validate in Hval. apply andb_true_iff in Hval as [Hnz Hne]. split.
    - apply RandShare_uint.
    - exact Hk.
    - apply Forall_forall. intros c Hin. rewrite Forall_forall in Hc. specialize (Hc c Hin).
      rewrite forallb_forall in Hnz. specialize (Hnz c (proj1 (list_elem_of_In _ _) Hin)).
      apply negb_true_iff, Z.eqb_neq in Hnz. split; [unfold is_uint; lia|].
      change SC25519.L with (2 ^ 252 + 27742317777372353535851937790883648493).
      rewrite !Z.mod_small by lia. exact Hnz.
    - intros E. rewrite E in Hne. discriminate Hne. }
  destruct (MakeSealedBox_honest box sealed_null (ss_nIdent s) (RandShare (rand (k + 1 + nMaxThresh)%nat)) Hb) as (sb & E & Hv & Hcm & Hp & Hs);
    [apply RandShare_uint|exact Hr|exact Hid|].
  assert (Hlen : length (vCoeff box) = nMaxThresh) by (subst box; cbn [vCoeff setup_box]; by rewrite length_map, length_seq).
  pose proof (MakeSealedBox_valid box _ _ sb Hb (RandShare_uint _) Hid ltac:(lia) E) as Hev.
  rewrite E. cbn [snd]. refine (conj Hb (conj Hv (conj Hcm (conj Hp (conj Hlen (conj eq_refl (conj Hs Hev))))))).
Qed.

Lemma setup_delegates_spec fuel nMaxThresh rand l acc acc' :
  NoDup l.*1 -> (forall dest, dest ∈ l.*1 -> acc.2 !! dest = None) ->
  setup_delegates fuel nMaxThresh rand l acc = Some acc' ->
  (forall dest s, (dest, s) ∈ l -> exists s' sealed, MPVSS.Setup s fuel nMaxThresh (rand dest) sealed_null = Some (s', sealed) /\
    acc'.1 !! dest = Some s' /\ acc'.2 !! dest = Some (put enroll_codec (enroll_data sealed))) /\
  (forall dest, dest ∉ l.*1 -> acc'.1 !! dest = acc.1 !! dest /\ acc'.2 !! dest = acc.2 !! dest).
Proof.
  revert acc. induction l as [|[dest s] l IH]; intros acc Hnd Hnone E; cbn [setup_delegates] in E.
  { injection E as <-. split; [intros dest s Hin; by apply elem_of_nil in Hin|done]. }
  cbn [fmap list_fmap fst] in Hnd, Hnone. apply NoDup_cons in Hnd as [Hd Hnd].
  destruct (MPVSS.Setup s fuel nMaxThresh (rand dest) sealed_null) as [[s' sealed]|] eqn:ES; [|discriminate E].
  cbn [mbind option_bind] in E. rewrite (Hnone dest) in E by left. cbn [default app] in E.
  apply IH in E as [Hin Hout]; [|exact Hnd|].
  2: { intros dest' Hl. cbn [snd]. rewrite lookup_insert_ne; [apply Hnone; by right|]. intros ->. done. }
  cbn [fst snd] in Hout. split.
  - intros dest' s1 Hl. apply elem_of_cons in Hl as [E'|Hl]; [|by apply Hin]. injection E' as -> ->.
    destruct (Hout dest Hd) as [-> ->]. rewrite !lookup_insert_eq. exists s', sealed. done.
  - intros dest' Hno. cbn [fmap list_fmap fst] in Hno. apply not_elem_of_cons in Hno as [Hne Hno].
    destruct (Hout dest' Hno) as [-> ->]. by rewrite !lookup_insert_ne.
Qed.

(** what [Setup] sends enrolls: the data of each delegate is read back as a
    candidate of the delegate's identity that verifies, with as many
    coefficients as asked, and the delegate deals the polynomial to which the
    candidate commits (unless the private key is the random number [0]). *)
Theorem setup_enrolls (v v' : CMvDelegateVote) (fuel nMaxThresh : nat) (rand : CDestination -> nat -> Z)
    (mapEnrollData : gmap CDestination (list Z)) (dest : CDestination) (s' : CMPSecretShare) (nWeight : Z) :
  Delegate.Setup v fuel nMaxThresh rand ∅ = Some (v', mapEnrollData) -> Z.of_nat nMaxThresh < 2 ^ 64 ->
  (forall dest s, dv_mapDelegate v !! dest = Some s -> ss_nIdent s = DestToIdent dest /\ is_uint 256 (DestToIdent dest)) ->
  dv_mapDelegate v' !! dest = Some s' -> nPrivKey (ss_myBox s') <> 0 ->
  exists c, candidates mapEnrollData [(dest, nWeight)] = Return [c] /\ ca_nIdent c = DestToIdent dest /\ ca_nWeight c = nWeight /\
    Candidate_Verify c = true /\ deals s' c /\ length (vEncryptedCoeff (ca_sBox c)) = nMaxThresh.
Proof.
  intros HS Hn Hid Hs' Hk. unfold Delegate.Setup in HS.
  destruct (setup_delegates _ _ _ _ _) as [[m data]|] eqn:E; [|discriminate HS]. injection HS as <- <-.
  cbn [dv_mapDelegate set_mapDelegate] in Hs'.
  apply setup_delegates_spec in E as [Hin Hout]; [|apply CWalleveStreamOk.NoDup_map_entries|intros; apply lookup_empty].
  cbn [fst snd] in Hin, Hout. destruct (dv_mapDelegate v !! dest) as [s|] eqn:Es.
  2: { destruct (Hout dest) as [E1 _]; [|congruence]. intros Hl. apply list_elem_of_fmap in Hl as ([dest' s1] & E & Hl). cbn in E. subst dest'.
    apply CWalleveStreamOk.elem_of_map_entries in Hl. congruence. }
  destruct (Hin dest s) as (s1 & sealed & ES & E1 & E2); [by apply CWalleveStreamOk.elem_of_map_entries|].
  rewrite Hs' in E1. injection E1 as <-. destruct (Hid dest s Es) as [Eid Hu].
  destruct (Setup_spec s fuel nMaxThresh (rand dest) s' sealed ES) as (Hb & Hv & Hc & Hp & Hl & Hi & Hsh & Hev); [by rewrite Eid|done|done|].
  exists (mkCandidate (DestToIdent dest) nWeight sealed). cbn [candidates]. rewrite E2.
  rewrite <- (app_nil_r (put enroll_codec _)), (get_put (c := enroll_codec)) by exact Hev. cbn [mbind outcome_bind enroll_data].
  split; [do 3 f_equal; unfold sealed_of; rewrite <- Hsh; by destruct sealed|].
  split; [done|]. split; [done|]. split; [unfold Candidate_Verify; cbn; by rewrite <- Eid|].
  split; [|cbn; by rewrite (Forall2_length _ _ _ Hc)].
  split; cbn; [by rewrite Hi|exact Hb|exact Hc|exact Hp].
Qed.

(** ** Rollback *)

(** C22: the votes after a rollback from height [from] to height [to]: those set
    up by a removed block are gone, and so are those at the heights
    [to + 2] .. [from + 1] of the removed blocks' publications; but of the
    votes whose enrolment ended at the heights [to] .. [from], the last one
    stays and the first one, of the block [to] that is kept, goes. *)
Theorem rollback_votes (d : CMvDelegate) (from to x : Z) :
  0 <= to <= from -> from < 2 ^ 30 ->
  de_mapVote (Rollback d from to) !! x =
    if decide (x <= to + MV_CONSENSUS_INTERVAL /\
               ~ (to <= x - MV_CONSENSUS_DISTRIBUTE_INTERVAL - 1 < from) /\ ~ (to < x - 1 <= from) /\ x - 1 <> from)
    then de_mapVote d !! x else None.
Proof.
  intros Ht Hf. unfold Rollback, erase_range, MV_CONSENSUS_INTERVAL, MV_CONSENSUS_DISTRIBUTE_INTERVAL, MV_CONSENSUS_ENROLL_INTERVAL.
  cbn [de_mapVote set_mapVote]. rewrite !(swrap_small 32) by lia.
  destruct (decide (x = from + 1)) as [->|Hx]; [rewrite lookup_delete_eq, decide_False by lia; done|].
  rewrite lookup_delete_ne by done. rewrite !map_lookup_filter.
  destruct (de_mapVote d !! x) as [v|]; cbn; [|by destruct (decide _)].
  repeat (case_guard; cbn); case_decide; done || lia.
Qed.

(** ** An example: one delegate, whose own share reaches the threshold *)

Lemma flat_map_bytes {A} (f : A -> list Z) l : (forall a, Forall (is_uint 8) (f a)) -> Forall (is_uint 8) (flat_map f l).
Proof. intros H. induction l as [|a l IH]; cbn [flat_map]; [constructor|by apply Forall_app_2]. Qed.

Lemma data_bytes d : Forall (is_uint 8) (put data_codec d).
Proof.
  assert (Hu : forall n z, Forall (is_uint 8) (put (d_uint n) z)) by (intros; by apply le_split_range).
  assert (Hv : forall v, Forall (is_uint 8) (put (d_vector (d_uint 32)) v)) by (intros v; apply Forall_app_2; [apply Hu|by apply flat_map_bytes]).
  apply Forall_app_2; [apply Hu|]. apply Forall_app_2; [|apply Forall_app_2; apply Hu].
  apply Forall_app_2; [apply Hu|]. apply flat_map_bytes. intros [k v]. apply Forall_app_2; [apply Hu|apply Hv].
Qed.

Definition one_cs : list CMPCandidate := [sample_dealer 1 box_1].

Definition one_dest : CDestination := DestFromIdent 1.

Definition one_weight : gmap CDestination Z := {[one_dest := 1]}.

Definition one_enroll : gmap CDestination (list Z) := {[one_dest := put enroll_codec (enroll_data (ca_sBox (sample_dealer 1 box_1)))]}.

Definition one_hash (_ : list Z) : Z := 7.

Lemma one_hash_uint l : is_uint 256 (one_hash l).
Proof. split; [discriminate|reflexivity]. Qed.

Lemma one_candidates : candidates one_enroll (entries one_weight) = Return one_cs.
Proof.
  destruct (MakeSealedBox_honest box_1 sealed_null 1 4 box_1_honest) as (sb & E & _ & _ & _ & Hs);
    [split; [discriminate|reflexivity]|discriminate|split; [discriminate|reflexivity]|].
  assert (Hv : dvalid enroll_codec (enroll_data sb)).
  { apply (MakeSealedBox_valid box_1 1 4 sb box_1_honest); [split; [discriminate|reflexivity]..|reflexivity|exact E]. }
  unfold one_enroll, one_cs, sample_dealer. rewrite E. cbn [snd ca_sBox]. clear E.
  change (entries one_weight) with [(one_dest, 1)]. cbn [candidates]. rewrite lookup_singleton_eq.
  rewrite <- (app_nil_r (put enroll_codec _)), (get_put (c := enroll_codec)) by exact Hv. cbn [mbind outcome_bind enroll_data].
  destruct sb as [cf sh k x y]. cbn in Hs |- *. rewrite Hs. reflexivity.
Qed.

Lemma one_cs_ok : candidates_ok one_cs.
Proof.
  destruct sample_dealer_1 as (V1 & C1 & _). split.
  - apply NoDup_singleton.
  - apply Forall_cons_2; [exact V1|apply Forall_nil_2].
  - apply Forall_cons_2; [discriminate|apply Forall_nil_2].
  - discriminate.
  - change (thresh one_cs) with 1. apply Forall_cons_2; [rewrite (Forall2_length _ _ _ C1); discriminate|apply Forall_nil_2].
Qed.

Lemma one_enrolment : enrolment one_weight one_enroll one_cs.
Proof.
  split; [exact one_candidates|exact one_cs_ok|apply (bool_decide_unpack _); exact I|].
  intros c Hc. apply list_elem_of_singleton in Hc. rewrite Hc. split; [reflexivity|]. exists (vCoeff box_1).
  exact (proj1 (proj2 sample_dealer_1)).
Qed.

Lemma vote_init_fresh : fresh vote_init.
Proof. split; reflexivity. Qed.

Lemma one_place : (sample_dealer 1 box_1, 1) ∈ place 1 one_cs.
Proof. left. Qed.

Lemma one_completed w w' d :
  ready one_cs w -> dd_nIdentFrom d = 1 ->
  dd_mapShare d !! 1 = Some (values (take (Z.to_nat (thresh one_cs)) (vCoeff box_1)) 1 1) ->
  completed one_cs (mkVote ∅ w []) (mkVote ∅ w' [d]) (sample_dealer 1 box_1) = true.
Proof.
  intros Hw Hf Hown. pose proof (range_of one_cs w _ _ one_cs_ok Hw one_place) as Hr.
  change (GetParticipantRange w 1 = Some (1, 1)) in Hr.
  assert (E : shares_of w 1 [message d] = zip (map (fun k => u32 (1 + k)) (seqZ 0 1)) (values (take (Z.to_nat (thresh one_cs)) (vCoeff box_1)) 1 1)).
  { unfold shares_of, shares_in, message. cbn [flat_map fst snd]. by rewrite Hf, Hr, Hown, app_nil_r. }
  unfold completed. cbn [dv_witness dv_vCollected map]. change (ca_nIdent (sample_dealer 1 box_1)) with 1.
  rewrite E, length_zip, length_values. reflexivity.
Qed.

Lemma Enroll_init mapWeight mapEnrollData cs w :
  candidates mapEnrollData (entries mapWeight) = Return cs -> MPVSS.Enroll (dv_witness vote_init) cs = Return w ->
  Delegate.Enroll vote_init mapWeight mapEnrollData = Return (mkVote ∅ w []).
Proof. intros E1 E2. unfold Delegate.Enroll. rewrite E1. cbn [mbind outcome_bind]. rewrite E2. reflexivity. Qed.

(** The vote enrolls the delegate and collects its message. *)
Lemma one_run :
  exists v0 s d v, Delegate.Enroll vote_init one_weight one_enroll = Return v0 /\ enrolled_vote one_cs v0 /\
    ready one_cs s /\ deals s (sample_dealer 1 box_1) /\ voted one_hash v0 v /\ dv_vCollected v = [d] /\ dd_nIdentFrom d = 1 /\
    completed one_cs v0 v (sample_dealer 1 box_1) = true.
Proof.
  destruct (Enroll_spec one_cs (mkSecretShare 1 box_1 0 0 0 ∅ ∅) one_cs_ok eq_refl eq_refl eq_refl) as (s & _ & Hs & Hi & Hb & _).
  pose proof (sample_deals_1 s Hi Hb) as Hd.
  destruct (Enroll_spec one_cs (dv_witness vote_init) one_cs_ok eq_refl eq_refl eq_refl) as (w & Ew & Hw & Hwi & _ & _).
  pose proof (Enroll_init _ _ _ _ one_candidates Ew) as E0.
  assert (Hv : enrolled_vote one_cs (mkVote ∅ w [])).
  { split; [exact one_cs_ok|exact Hw|exact Hwi|apply (bool_decide_unpack _); exact I| |reflexivity].
    apply Forall_cons_2; [split; [discriminate|reflexivity]|apply Forall_nil_2]. }
  destruct (publish_message one_hash one_hash_uint one_cs _ s _ 1 4 one_dest false Hv Hs Hd one_place eq_refl)
    as (d & fC & w' & _ & EC & _ & Hf & Hown).
  exists (mkVote ∅ w []), s, d, (mkVote ∅ w' [d]). split; [exact E0|]. split; [exact Hv|]. split; [exact Hs|]. split; [exact Hd|].
  rewrite Hb in Hown. cbn [ss_myBox] in Hown. pose proof (one_completed w w' d Hw Hf Hown) as Hco.
  split; [|split; [reflexivity|split; [exact Hf|exact Hco]]].
  exact (voted_collect one_hash _ _ _ _ _ _ _ _ (voted_none _ _) (data_bytes d) EC).
Qed.

Lemma publish_message_collected_witness :
  exists v s d fCompleted v', Secret_Publish one_hash s 4 = Return d /\
    Delegate.Collect one_hash v one_dest (put data_codec d) false = Return (true, fCompleted, v').
Proof.
  destruct one_run as (v0 & s & _ & _ & _ & Hv & Hs & Hd & _).
  destruct (publish_message_collected one_hash one_hash_uint one_cs v0 s (sample_dealer 1 box_1) 1 4 one_dest false)
    as (d & fC & w & E1 & E2 & _).
  - exact Hv.
  - exact Hs.
  - exact Hd.
  - exact one_place.
  - reflexivity.
  - exists v0, s, d, fC, (mkVote (dv_mapDelegate v0) w (dv_vCollected v0 ++ [d])). exact (conj E1 E2).
Defined.

Lemma distribute_message_accepted_witness :
  exists v s d v', Secret_Distribute one_hash s 4 = Return d /\
    Delegate.Accept one_hash v one_dest (put data_codec d) = Return (true, v').
Proof.
  destruct (sample_enroll 1 box_1) as (s & Hs & Is & Bs & _), (sample_enroll 2 box_2) as (b & Hb & Ib & Bb & _),
    (sample_enroll 0 (mkOpenedBox [] 0)) as (w & Hw & Iw & _ & _).
  destruct (distribute_message_accepted one_hash one_hash_uint sample_cs (mkVote {[DestFromIdent 2 := b]} w []) s (sample_dealer 1 box_1) 1 4 one_dest)
    as (d & m & E1 & E2 & _).
  - split; [exact sample_cs_ok|exact Hw|exact Iw|apply (bool_decide_unpack _); exact I| |reflexivity].
    repeat (apply Forall_cons_2; [split; [discriminate|reflexivity]|]). apply Forall_nil_2.
  - exact Hs.
  - exact (sample_deals_1 s Is Bs).
  - exact sample_place_1.
  - reflexivity.
  - intros dest b0 Hl. cbn [dv_mapDelegate] in Hl. apply lookup_singleton_Some in Hl as [_ <-]. split; [exact Hb|].
    exists (sample_dealer 2 box_2), 2. split; [exact (sample_deals_2 b Ib Bb)|]. split; [exact sample_place_2|discriminate].
  - eexists _, _, _, _. exact (conj E1 E2).
Defined.

Lemma GetAgreement_one w :
  Reconstruct w ∅ = Return {[1 := (5, 1)]} -> Delegate.GetAgreement one_hash w = Return (7, 1, {[one_dest := 1]}).
Proof. intros Em. unfold Delegate.GetAgreement. rewrite Em. reflexivity. Qed.

Lemma one_agreement :
  exists v0 v, Delegate.Enroll vote_init one_weight one_enroll = Return v0 /\ voted one_hash v0 v /\
    length (dv_vCollected v) = 1%nat /\ NoDup (map dd_nIdentFrom (dv_vCollected v)) /\
    Delegate.GetAgreement one_hash (dv_witness v) = Return (7, 1, {[one_dest := 1]}).
Proof.
  destruct one_run as (v0 & s & d & v & HE & _ & _ & _ & Hvo & Hc & Hf & Hco).
  assert (Hnd : NoDup (map dd_nIdentFrom (dv_vCollected v))) by (rewrite Hc; apply NoDup_singleton).
  destruct (vote_secrets one_hash _ _ _ _ _ _ one_enrolment vote_init_fresh HE Hvo Hnd) as (m & Em & Hm & Hno).
  pose proof (Hm (sample_dealer 1 box_1) (vCoeff box_1) ltac:(left) (proj1 (proj2 sample_dealer_1))) as H1. rewrite Hco in H1.
  change (m !! 1 = Some (5, 1)) in H1. assert (E : m = {[1 := (5, 1)]}).
  { apply map_eq. intros id. destruct (decide (id = 1)) as [->|Hid]; [by rewrite lookup_singleton_eq|].
    rewrite lookup_singleton_ne by done. apply Hno. intros Hin. apply list_elem_of_singleton in Hin. contradiction. }
  rewrite E in Em. apply GetAgreement_one in Em.
  exists v0, v. split; [exact HE|]. split; [exact Hvo|]. split; [by rewrite Hc|]. split; [exact Hnd|exact Em].
Qed.

Lemma proof_verifies_witness :
  exists v vf vf', verify_init one_weight one_enroll = Return vf /\
    VerifyProof one_hash vf (PrepareProof v 7 1) (0, 0, ∅) = Return (true, (7, 1, {[one_dest := 1]}), vf').
Proof.
  destruct one_agreement as (v0 & v & HE & Hv & Hl & _ & Ha).
  destruct (proof_verifies one_hash vote_init v0 v one_weight one_enroll 7 1 {[one_dest := 1]} (0, 0, ∅)) as (vf & vf' & E1 & E2).
  - reflexivity.
  - reflexivity.
  - exact HE.
  - exact Hv.
  - exact Ha.
  - split; [discriminate|reflexivity].
  - discriminate.
  - rewrite Hl. split; [discriminate|reflexivity].
  - exists v, vf, vf'. exact (conj E1 E2).
Defined.

Lemma agreement_common_witness :
  exists v v' a, Delegate.GetAgreement one_hash (dv_witness v) = Return a /\ Delegate.GetAgreement one_hash (dv_witness v') = Return a.
Proof.
  destruct one_agreement as (v0 & v & HE & Hv & _ & Hnd & _).
  destruct (agreement_common one_hash one_weight one_enroll one_cs vote_init vote_init v0 v0 v v) as (a & E1 & E2).
  - exact one_enrolment.
  - exact vote_init_fresh.
  - exact vote_init_fresh.
  - exact HE.
  - exact HE.
  - exact Hv.
  - exact Hv.
  - exact Hnd.
  - exact Hnd.
  - intros c _. reflexivity.
  - exists v, v, a. exact (conj E1 E2).
Defined.

Lemma rollback_votes_witness :
  de_mapVote (Rollback (mkDelegate ∅ {[116 := vote_init; 106 := vote_init]}) 100 90) !! 116 = Some vote_init /\
  de_mapVote (Rollback (mkDelegate ∅ {[116 := vote_init; 106 := vote_init]}) 100 90) !! 106 = None.
Proof. split; (rewrite rollback_votes; [reflexivity|lia|lia]). Defined.

Lemma one_setup_vote v fuel n rand s s' sealed :
  dv_mapDelegate v = {[one_dest := s]} -> MPVSS.Setup s fuel n (rand one_dest) sealed_null = Some (s', sealed) ->
  exists v' data, Delegate.Setup v fuel n rand ∅ = Some (v', data) /\ dv_mapDelegate v' !! one_dest = Some s'.
Proof.
  intros Hv Hs. unfold Delegate.Setup. rewrite Hv. change (entries {[one_dest := s]}) with [(one_dest, s)].
  cbn [setup_delegates]. rewrite Hs. eexists _, _. split; [reflexivity|]. apply lookup_insert_eq.
Qed.

Lemma one_setup :
  exists s' sealed, MPVSS.Setup (secret_share 1) 1 1 (fun _ => 1) sealed_null = Some (s', sealed) /\ nPrivKey (ss_myBox s') = 1.
Proof.
  unfold MPVSS.Setup. rewrite setup_loop_spec.
  change (find (round_ok 1 (fun _ => 1)) (map (fun i => (0 + i * (2 + 1))%nat) (seq 0 1))) with (Some 0%nat).
  eexists _, _. split; reflexivity.
Qed.

Lemma setup_enrolls_witness :
  exists v' data s' c, Delegate.Setup (CreateDelegate vote_init {[one_dest]}) 1 1 (fun _ _ => 1) ∅ = Some (v', data) /\
    candidates data [(one_dest, 1)] = Return [c] /\ deals s' c.
Proof.
  assert (ED : dv_mapDelegate (CreateDelegate vote_init {[one_dest]}) = {[one_dest := secret_share 1]}) by reflexivity.
  destruct one_setup as (s' & sealed & Es & Hk).
  destruct (one_setup_vote (CreateDelegate vote_init {[one_dest]}) 1 1 (fun _ _ => 1) _ _ _ ED Es) as (v' & data & E & Hs').
  destruct (setup_enrolls (CreateDelegate vote_init {[one_dest]}) v' 1 1 (fun _ _ => 1) data one_dest s' 1) as (c & E1 & _ & _ & _ & Hd & _).
  - exact E.
  - reflexivity.
  - rewrite ED. intros dest s Hl. apply lookup_singleton_Some in Hl as [<- <-]. split; [reflexivity|split; [discriminate|reflexivity]].
  - exact Hs'.
  - rewrite Hk. discriminate.
  - exists v', data, s', c. exact (conj E (conj E1 Hd)).
Defined.

End DelegateOk.
