(* ===== verification/Schedule.v ===== *)
(** * The schedule of downloads (src/src/schedule.h, schedule.cpp)

    For every fork the network channel keeps a schedule: which blocks and
    transactions the peers have announced, which peer was asked for which of
    them, what has been received, and which received objects wait for another.
    Only inventories of the types [MSG_TX] and [MSG_BLOCK] reach it
    ([CNetChannel::HandleEvent]). *)

From S2P Require Import Prelude Stream Destination Transaction Block.

Inductive msg_type : Type := MSG_TX | MSG_BLOCK.

#[export] Instance msg_type_eq_dec : EqDecision msg_type.
Proof. solve_decision. Defined.

#[export] Instance msg_type_countable : Countable msg_type.
Proof.
  refine (inj_countable' (fun t => match t with MSG_TX => false | MSG_BLOCK => true end)
    (fun b => if b : bool then MSG_BLOCK else MSG_TX) _). by intros [].
Defined.

Record CInv : Type := mkInv { inv_nType : msg_type; inv_nHash : Z }.

#[export] Instance CInv_eq_dec : EqDecision CInv.
Proof. solve_decision. Defined.

#[export] Instance CInv_countable : Countable CInv.
Proof. refine (inj_countable' (fun i => (inv_nType i, inv_nHash i)) (fun p => mkInv p.1 p.2) _). by intros []. Defined.

(** [CInvPeer::CInvPeerState]; a list that holds each hash once *)
Record CInvPeerState : Type := mkPeerState { listKnown : list Z; setAssigned : gset Z }.

(** [invKnown[2]] *)
Record CInvPeer : Type := mkInvPeer { pe_tx : CInvPeerState; pe_block : CInvPeerState }.

(** [boost::variant<CNil,CBlock,CTransaction>] *)
Inductive CInvObject : Type := ObjNil | ObjBlock (block : CBlock) | ObjTx (tx : CTransaction).

Record CInvState : Type := mkInvState { nAssigned : Z; objReceived : CInvObject; setKnownPeer : gset Z }.

(** [mapOrphanByPrev]: a multimap, its entries in the order of insertion *)
Definition COrphan : Type := list (Z * Z).

Record CSchedule : Type := mkSchedule {
  orphanBlock : COrphan;
  orphanTx : COrphan;
  mapPeer : gmap Z CInvPeer;
  mapState : gmap CInv CInvState;
}.

(** ** CInvPeer *)

Module InvPeer.

Definition init : CInvPeer := mkInvPeer (mkPeerState [] ∅) (mkPeerState [] ∅).

Definition known_state (p : CInvPeer) (type : msg_type) : CInvPeerState :=
  match type with MSG_TX => pe_tx p | MSG_BLOCK => pe_block p end.

Definition set_state (p : CInvPeer) (type : msg_type) (st : CInvPeerState) : CInvPeer :=
  match type with MSG_TX => mkInvPeer st (pe_block p) | MSG_BLOCK => mkInvPeer (pe_tx p) st end.

Definition GetKnownList (p : CInvPeer) (type : msg_type) : list Z := listKnown (known_state p type).

Definition GetAssigned (p : CInvPeer) (type : msg_type) : gset Z := setAssigned (known_state p type).

Definition Empty (p : CInvPeer) (type : msg_type) : bool := match GetKnownList p type with [] => true | _ => false end.

Definition GetCount (p : CInvPeer) (type : msg_type) : Z := Z.of_nat (length (GetKnownList p type)).

Definition GetKnownInv (p : CInvPeer) : list CInv :=
  map (mkInv MSG_BLOCK) (GetKnownList p MSG_BLOCK) ++ map (mkInv MSG_TX) (GetKnownList p MSG_TX).

Definition erase (h : Z) (l : list Z) : list Z := filter (fun x => x <> h) l.

(** The hash goes to the end of the list. *)
Definition Peer_AddNewInv (p : CInvPeer) (inv : CInv) : CInvPeer :=
  set_state p (inv_nType inv)
    (mkPeerState (erase (inv_nHash inv) (GetKnownList p (inv_nType inv)) ++ [inv_nHash inv]) (GetAssigned p (inv_nType inv))).

Definition Peer_RemoveInv (p : CInvPeer) (inv : CInv) : CInvPeer :=
  set_state p (inv_nType inv)
    (mkPeerState (erase (inv_nHash inv) (GetKnownList p (inv_nType inv))) (GetAssigned p (inv_nType inv) ∖ {[inv_nHash inv]})).

Definition Assign (p : CInvPeer) (inv : CInv) : CInvPeer :=
  set_state p (inv_nType inv) (mkPeerState (GetKnownList p (inv_nType inv)) ({[inv_nHash inv]} ∪ GetAssigned p (inv_nType inv))).

Definition Completed (p : CInvPeer) (inv : CInv) : CInvPeer :=
  set_state p (inv_nType inv) (mkPeerState (GetKnownList p (inv_nType inv)) (GetAssigned p (inv_nType inv) ∖ {[inv_nHash inv]})).

Definition IsAssigned (p : CInvPeer) : bool :=
  negb (bool_decide (GetAssigned p MSG_TX = ∅)) || negb (bool_decide (GetAssigned p MSG_BLOCK = ∅)).

End InvPeer.

(** ** COrphan *)

Module Orphan.

Definition GetSize (o : COrphan) : Z := Z.of_nat (length o).

Definition AddNew (o : COrphan) (prev hash : Z) : COrphan := o ++ [(prev, hash)].

Definition Remove (o : COrphan) (hash : Z) : COrphan := filter (fun e => e.2 <> hash) o.

Definition GetNext (o : COrphan) (prev : Z) : list Z := (filter (fun e => e.1 = prev) o).*2.

(** [GetNext] into a vector, each hash that is not in [setHash] *)
Fixpoint new_hashes (l : list Z) (vNext : list Z) (setHash : gset Z) : list Z * gset Z :=
  match l with
  | [] => (vNext, setHash)
  | h :: l => if decide (h ∈ setHash) then new_hashes l vNext setHash else new_hashes l (vNext ++ [h]) ({[h]} ∪ setHash)
  end.

Definition GetNextSet (o : COrphan) (prev : Z) (vNext : list Z) (setHash : gset Z) : list Z * gset Z :=
  new_hashes (GetNext o prev) vNext setHash.

(** [mapOrphanByPrev.erase(prev)] *)
Definition RemoveNext (o : COrphan) (prev : Z) : COrphan := filter (fun e => e.1 <> prev) o.

(** The loop of [RemoveBranch] from number [i] on, at most [fuel] rounds *)
Fixpoint branch_loop (fuel : nat) (i : nat) (vBranch : list Z) (setBranch : gset Z) (o : COrphan) : option (list Z * COrphan) :=
  match vBranch !! i with
  | None => Some (vBranch, o)
  | Some hash =>
      match fuel with
      | O => None
      | S fuel =>
          let '(vBranch, setBranch) := GetNextSet o hash vBranch setBranch in
          branch_loop fuel (S i) vBranch setBranch (RemoveNext o hash)
      end
  end.

(** [RemoveBranch(root,vBranch)] on an empty vector *)
Definition RemoveBranch (o : COrphan) (root : Z) : option (list Z * COrphan) :=
  let '(vBranch, setBranch) := GetNextSet o root [] ∅ in
  branch_loop (length o) 0 vBranch setBranch (RemoveNext o root).

End Orphan.

(** ** CSchedule *)

Module Schedule.
Import InvPeer.

Definition MAX_INV_COUNT : Z := 1024 * 256.
Definition MAX_PEER_BLOCK_INV_COUNT : Z := 1024.
Definition MAX_PEER_TX_INV_COUNT : Z := 1024 * 256.

Definition SUPERNODE_INNER_NONCE : Z := 2 ^ 64 - 1.

Definition IsSuperNodeInnerNonce (nNonce : Z) : bool := nNonce =? SUPERNODE_INNER_NONCE.

Definition init : CSchedule := mkSchedule [] [] ∅ ∅.

Definition state_init : CInvState := mkInvState 0 ObjNil ∅.

Definition IsReceived (st : CInvState) : bool := match objReceived st with ObjNil => false | _ => true end.

Definition set_peers (s : CSchedule) (m : gmap Z CInvPeer) : CSchedule := mkSchedule (orphanBlock s) (orphanTx s) m (mapState s).

Definition set_states (s : CSchedule) (m : gmap CInv CInvState) : CSchedule := mkSchedule (orphanBlock s) (orphanTx s) (mapPeer s) m.

(** [mapPeer[nPeerNonce]] and [mapState[inv]], which make what is missing *)
Definition peer_of (s : CSchedule) (nPeerNonce : Z) : CInvPeer := default InvPeer.init (mapPeer s !! nPeerNonce).

Definition state_of (s : CSchedule) (inv : CInv) : CInvState := default state_init (mapState s !! inv).

Definition Exists (s : CSchedule) (inv : CInv) : bool := bool_decide (is_Some (mapState s !! inv)).

(** [setKnownPeer] stays as it was for an unknown inventory. *)
Definition GetKnownPeer (s : CSchedule) (inv : CInv) (known : gset Z) : gset Z :=
  match mapState s !! inv with Some st => setKnownPeer st | None => known end.

Definition RemoveOrphan (s : CSchedule) (inv : CInv) : CSchedule :=
  match inv_nType inv with
  | MSG_TX => mkSchedule (orphanBlock s) (Orphan.Remove (orphanTx s) (inv_nHash inv)) (mapPeer s) (mapState s)
  | MSG_BLOCK => mkSchedule (Orphan.Remove (orphanBlock s) (inv_nHash inv)) (orphanTx s) (mapPeer s) (mapState s)
  end.

(** One round of the loop of [RemovePeer] *)
Definition forget_peer (nPeerNonce : Z) (acc : CSchedule * gset Z) (inv : CInv) : CSchedule * gset Z :=
  let '(s, setSchedPeer) := acc in
  let st := state_of s inv in
  let known := setKnownPeer st ∖ {[nPeerNonce]} in
  if bool_decide (known = ∅) then
    let s := RemoveOrphan s inv in
    (set_states s (delete inv (mapState s)), setSchedPeer)
  else if nAssigned st =? nPeerNonce then
    (set_states s (<[inv := mkInvState 0 ObjNil known]> (mapState s)), setSchedPeer ∪ known)
  else (set_states s (<[inv := mkInvState (nAssigned st) (objReceived st) known]> (mapState s)), setSchedPeer).

Definition RemovePeer (s : CSchedule) (nPeerNonce : Z) (setSchedPeer : gset Z) : CSchedule * gset Z :=
  match mapPeer s !! nPeerNonce with
  | None => (s, setSchedPeer)
  | Some peer =>
      let '(s, setSchedPeer) := foldl (forget_peer nPeerNonce) (s, setSchedPeer) (GetKnownInv peer) in
      (set_peers s (delete nPeerNonce (mapPeer s)), setSchedPeer)
  end.

Definition max_peer_inv (type : msg_type) : Z :=
  match type with MSG_TX => MAX_PEER_TX_INV_COUNT | MSG_BLOCK => MAX_PEER_BLOCK_INV_COUNT end.

Definition AddNewInv (s : CSchedule) (inv : CInv) (nPeerNonce : Z) : CSchedule :=
  let peer := peer_of s nPeerNonce in
  if (Z.of_nat (size (mapState s)) <? MAX_INV_COUNT) && (GetCount peer (inv_nType inv) <? max_peer_inv (inv_nType inv)) then
    let st := state_of s inv in
    mkSchedule (orphanBlock s) (orphanTx s) (<[nPeerNonce := InvPeer.Peer_AddNewInv peer inv]> (mapPeer s))
      (<[inv := mkInvState (nAssigned st) (objReceived st) ({[nPeerNonce]} ∪ setKnownPeer st)]> (mapState s))
  else set_peers s (<[nPeerNonce := peer]> (mapPeer s)).

(** [mapPeer[nPeerNonce].RemoveInv(inv)] of every peer of a set *)
Definition remove_inv_from (s : CSchedule) (inv : CInv) (known : gset Z) : CSchedule :=
  set_peers s (set_fold (fun n m => <[n := InvPeer.Peer_RemoveInv (default InvPeer.init (m !! n)) inv]> m) (mapPeer s) known).

(** [RemoveInv], with the set of known peers that it extends *)
Definition RemoveInv (s : CSchedule) (inv : CInv) (known : gset Z) : CSchedule * gset Z :=
  match mapState s !! inv with
  | None => (s, known)
  | Some st =>
      let s := remove_inv_from s inv (setKnownPeer st) in
      let s := if IsReceived st then RemoveOrphan s inv else s in
      (set_states s (delete inv (mapState s)), known ∪ setKnownPeer st)
  end.

(** [ReceiveBlock] and [ReceiveTx] differ in the object only. *)
Definition Receive (s : CSchedule) (nPeerNonce : Z) (inv : CInv) (obj : CInvObject) (setSchedPeer : gset Z)
    : bool * CSchedule * gset Z :=
  match mapState s !! inv with
  | None => (false, s, setSchedPeer)
  | Some st =>
      let receive (n : Z) : bool * CSchedule * gset Z :=
        (true, mkSchedule (orphanBlock s) (orphanTx s) (<[n := Completed (peer_of s n) inv]> (mapPeer s))
          (<[inv := mkInvState (nAssigned st) obj (setKnownPeer st)]> (mapState s)), setSchedPeer ∪ setKnownPeer st) in
      if negb (IsSuperNodeInnerNonce nPeerNonce) then
        if (nAssigned st =? nPeerNonce) && negb (IsReceived st) then receive nPeerNonce else (false, s, setSchedPeer)
      else
        if negb (IsReceived st) then receive (nAssigned st) else (false, s, setSchedPeer)
  end.

Definition ReceiveBlock (s : CSchedule) (nPeerNonce hash : Z) (block : CBlock) (setSchedPeer : gset Z) : bool * CSchedule * gset Z :=
  Receive s nPeerNonce (mkInv MSG_BLOCK hash) (ObjBlock block) setSchedPeer.

Definition ReceiveTx (s : CSchedule) (nPeerNonce txid : Z) (tx : CTransaction) (setSchedPeer : gset Z) : bool * CSchedule * gset Z :=
  Receive s nPeerNonce (mkInv MSG_TX txid) (ObjTx tx) setSchedPeer.

(** The block with the peer it came from; [boost::get] throws when the object is
    not a block. *)
Definition GetBlock (s : CSchedule) (hash : Z) : outcome (option (CBlock * Z)) :=
  match mapState s !! mkInv MSG_BLOCK hash with
  | None => Return None
  | Some st =>
      match objReceived st with
      | ObjNil => Return None
      | ObjBlock block => Return (Some (block, nAssigned st))
      | ObjTx _ => Throw bad_get
      end
  end.

Definition GetTransaction (s : CSchedule) (txid : Z) : outcome (option (CTransaction * Z)) :=
  match mapState s !! mkInv MSG_TX txid with
  | None => Return None
  | Some st =>
      match objReceived st with
      | ObjNil => Return None
      | ObjTx tx => Return (Some (tx, nAssigned st))
      | ObjBlock _ => Throw bad_get
      end
  end.

Definition AddOrphanBlockPrev (s : CSchedule) (hash prev : Z) : CSchedule :=
  mkSchedule (Orphan.AddNew (orphanBlock s) prev hash) (orphanTx s) (mapPeer s) (mapState s).

Definition AddOrphanTxPrev (s : CSchedule) (txid prev : Z) : CSchedule :=
  mkSchedule (orphanBlock s) (Orphan.AddNew (orphanTx s) prev txid) (mapPeer s) (mapState s).

Definition GetNextBlock (s : CSchedule) (hash : Z) (vNext : list Z) : list Z := vNext ++ Orphan.GetNext (orphanBlock s) hash.

Definition GetNextTx (s : CSchedule) (txid : Z) (vNext : list Z) (setTx : gset Z) : list Z * gset Z :=
  Orphan.GetNextSet (orphanTx s) txid vNext setTx.

(** One round of the loops of [InvalidateBlock] and [InvalidateTx] *)
Definition invalidate_one (type : msg_type) (acc : CSchedule * gset Z) (hash : Z) : CSchedule * gset Z :=
  let '(s, setMisbehavePeer) := acc in
  let inv := mkInv type hash in
  match mapState s !! inv with
  | None => (s, setMisbehavePeer)
  | Some st =>
      let s := remove_inv_from s inv (setKnownPeer st) in
      (set_states s (delete inv (mapState s)), setMisbehavePeer ∪ setKnownPeer st)
  end.

Definition InvalidateBlock (s : CSchedule) (hash : Z) (setMisbehavePeer : gset Z) : option (CSchedule * gset Z) :=
  '(vInvalid, o) ← Orphan.RemoveBranch (orphanBlock s) hash;
  let s := mkSchedule o (orphanTx s) (mapPeer s) (mapState s) in
  let '(s, setMisbehavePeer) := foldl (invalidate_one MSG_BLOCK) (s, setMisbehavePeer) vInvalid in
  Some (RemoveInv s (mkInv MSG_BLOCK hash) setMisbehavePeer).

Definition InvalidateTx (s : CSchedule) (txid : Z) (setMisbehavePeer : gset Z) : option (CSchedule * gset Z) :=
  '(vInvalid, o) ← Orphan.RemoveBranch (orphanTx s) txid;
  let s := mkSchedule (orphanBlock s) o (mapPeer s) (mapState s) in
  let '(s, setMisbehavePeer) := foldl (invalidate_one MSG_TX) (s, setMisbehavePeer) vInvalid in
  Some (RemoveInv s (mkInv MSG_TX txid) setMisbehavePeer).

(** The loop of [ScheduleKnownInv]: the inventories to ask for and the number of
    received ones *)
Fixpoint schedule_loop (nPeerNonce : Z) (type : msg_type) (nMaxCount : nat) (l : list Z) (s : CSchedule) (vInv : list CInv)
    (nReceived : Z) : CSchedule * list CInv * Z :=
  match l with
  | [] => (s, vInv, nReceived)
  | hash :: l =>
      let inv := mkInv type hash in
      let st := state_of s inv in
      if nAssigned st =? 0 then
        let s := mkSchedule (orphanBlock s) (orphanTx s)
          (<[nPeerNonce := Assign (peer_of s nPeerNonce) inv]> (mapPeer s))
          (<[inv := mkInvState nPeerNonce (objReceived st) (setKnownPeer st)]> (mapState s)) in
        let vInv := vInv ++ [inv] in
        if (nMaxCount <=? length vInv)%nat then (s, vInv, nReceived)
        else schedule_loop nPeerNonce type nMaxCount l s vInv nReceived
      else schedule_loop nPeerNonce type nMaxCount l s vInv (if IsReceived st then nReceived + 1 else nReceived)
  end.

(** [ScheduleKnownInv]: the result, [fReceivedAll], the inventories and the
    schedule *)
Definition ScheduleKnownInv (s : CSchedule) (nPeerNonce : Z) (type : msg_type) (nMaxCount : nat)
    : bool * bool * list CInv * CSchedule :=
  let l := GetKnownList (peer_of s nPeerNonce) type in
  let '(s, vInv, nReceived) := schedule_loop nPeerNonce type nMaxCount l s [] 0 in
  (match vInv, l with [], _ :: _ => false | _, _ => true end,
   (nReceived =? Z.of_nat (length l)) && negb (nReceived =? 0), vInv, s).

(** [ScheduleBlockInv]: the result, [fMissingPrev], [fEmpty], the inventories
    ([vInv] when nothing is scheduled) and the schedule *)
Definition ScheduleBlockInv (s : CSchedule) (nPeerNonce : Z) (vInv : list CInv) (nMaxCount : nat)
    : bool * bool * bool * list CInv * CSchedule :=
  match mapPeer s !! nPeerNonce with
  | None => (true, false, true, vInv, s)
  | Some peer =>
      let fEmpty := Empty peer MSG_BLOCK in
      if negb (IsAssigned peer) then
        let '(ok, fReceivedAll, vInv, s) := ScheduleKnownInv s nPeerNonce MSG_BLOCK nMaxCount in
        if ok then (true, false, fEmpty, vInv, s)
        else (negb fReceivedAll || (GetCount peer MSG_BLOCK <? MAX_PEER_BLOCK_INV_COUNT), fReceivedAll, fEmpty, vInv, s)
      else (true, false, fEmpty, vInv, s)
  end.

Definition ScheduleTxInv (s : CSchedule) (nPeerNonce : Z) (vInv : list CInv) (nMaxCount : nat) : bool * list CInv * CSchedule :=
  match mapPeer s !! nPeerNonce with
  | None => (true, vInv, s)
  | Some peer =>
      if negb (IsAssigned peer) then
        let '(ok, fReceivedAll, vInv, s) := ScheduleKnownInv s nPeerNonce MSG_TX nMaxCount in
        if ok then (true, vInv, s)
        else (negb fReceivedAll || (GetCount peer MSG_TX <? MAX_PEER_TX_INV_COUNT), vInv, s)
      else (true, vInv, s)
  end.

End Schedule.

(** ** Theorems *)

Module ScheduleOk.
Import InvPeer Schedule.

(** *** Peers *)

Lemma known_state_set p t st t' : known_state (set_state p t st) t' = if decide (t' = t) then st else known_state p t'.
Proof. by destruct t, t'. Qed.

Lemma elem_of_erase h x l : x ∈ erase h l <-> x <> h /\ x ∈ l.
Proof. unfold erase. by rewrite list_elem_of_filter. Qed.

Lemma NoDup_erase h l : NoDup l -> NoDup (erase h l).
Proof. apply NoDup_filter. Qed.

Lemma length_erase h l : (length (erase h l) <= length l)%nat.
Proof. apply length_filter. Qed.

(** What a peer knows and is asked for *)
Definition Known (s : CSchedule) (n : Z) (t : msg_type) : list Z := GetKnownList (peer_of s n) t.

Definition Asked (s : CSchedule) (n : Z) (t : msg_type) : gset Z := GetAssigned (peer_of s n) t.

Lemma peer_of_insert ob ot m ms n p n' :
  peer_of (mkSchedule ob ot (<[n := p]> m) ms) n' = if decide (n' = n) then p else default InvPeer.init (m !! n').
Proof.
  unfold peer_of. cbn [mapPeer]. destruct (decide (n' = n)) as [->|Hne]; [by rewrite lookup_insert_eq|].
  by rewrite lookup_insert_ne.
Qed.

(** The object received is of the type of the inventory. *)
Definition object_ok (t : msg_type) (o : CInvObject) : Prop :=
  match o, t with ObjBlock _, MSG_TX => False | ObjTx _, MSG_BLOCK => False | _, _ => True end.

(** The schedule is consistent: an inventory is kept while some peer knows it,
    exactly its known peers have it in their lists, once; a peer is asked for an
    inventory only if the inventory is assigned to it, and every assigned
    inventory that is not received is asked of its peer; the limits hold. *)
Record wf (s : CSchedule) : Prop := {
  wf_some : forall inv st, mapState s !! inv = Some st -> setKnownPeer st <> ∅;
  wf_known : forall n t h, h ∈ Known s n t <-> exists st, mapState s !! mkInv t h = Some st /\ n ∈ setKnownPeer st;
  wf_nodup : forall n t, NoDup (Known s n t);
  wf_asked : forall n t h, h ∈ Asked s n t -> n <> 0 /\ exists st, mapState s !! mkInv t h = Some st /\ nAssigned st = n;
  wf_assigned : forall t h st, mapState s !! mkInv t h = Some st -> nAssigned st <> 0 ->
    nAssigned st ∈ setKnownPeer st /\ (IsReceived st = false -> h ∈ Asked s (nAssigned st) t);
  wf_object : forall t h st, mapState s !! mkInv t h = Some st -> object_ok t (objReceived st);
  wf_size : Z.of_nat (size (mapState s)) <= MAX_INV_COUNT;
  wf_count : forall n t, Z.of_nat (length (Known s n t)) <= max_peer_inv t;
}.

Lemma wf_ext s s' :
  (forall n, peer_of s' n = peer_of s n) -> mapState s' = mapState s -> wf s -> wf s'.
Proof.
  intros Hp Hs [H1 H2 H3 H4 H5 H6 H7 H8]. unfold Known, Asked in *.
  split; unfold Known, Asked; rewrite ?Hs; intros; rewrite ?Hp in *; eauto.
Qed.

Lemma wf_init : wf Schedule.init.
Proof.
  split; unfold Known, Asked, peer_of; cbn [mapPeer mapState Schedule.init].
  - intros inv st H. by rewrite lookup_empty in H.
  - intros n t h. rewrite lookup_empty. split; [|intros (st & H & _); by rewrite lookup_empty in H].
    destruct t; intros Hh; by apply elem_of_nil in Hh.
  - intros n t. rewrite lookup_empty. destruct t; apply NoDup_nil_2.
  - intros n t h. rewrite lookup_empty. destruct t; intros Hh; by apply elem_of_empty in Hh.
  - intros t h st H. by rewrite lookup_empty in H.
  - intros t h st H. by rewrite lookup_empty in H.
  - rewrite map_size_empty. unfold MAX_INV_COUNT. lia.
  - intros n t. rewrite lookup_empty. by destruct t.
Qed.

(** The same after a change of one peer and of one state *)
Definition upd (s : CSchedule) (n : Z) (p : CInvPeer) (inv : CInv) (st : CInvState) : CSchedule :=
  mkSchedule (orphanBlock s) (orphanTx s) (<[n := p]> (mapPeer s)) (<[inv := st]> (mapState s)).

Lemma Known_upd s n p inv st n' t : Known (upd s n p inv st) n' t = if decide (n' = n) then GetKnownList p t else Known s n' t.
Proof. unfold Known, upd. rewrite peer_of_insert. by destruct (decide (n' = n)). Qed.

Lemma Asked_upd s n p inv st n' t : Asked (upd s n p inv st) n' t = if decide (n' = n) then GetAssigned p t else Asked s n' t.
Proof. unfold Asked, upd. rewrite peer_of_insert. by destruct (decide (n' = n)). Qed.

Lemma state_upd s n p inv st inv' : mapState (upd s n p inv st) !! inv' = if decide (inv' = inv) then Some st else mapState s !! inv'.
Proof. unfold upd. cbn [mapState]. destruct (decide (inv' = inv)) as [->|Hne]; [apply lookup_insert_eq|by apply lookup_insert_ne]. Qed.

Lemma state_of_upd s n p inv st inv' : state_of (upd s n p inv st) inv' = if decide (inv' = inv) then st else state_of s inv'.
Proof. unfold state_of. rewrite state_upd. by destruct (decide (inv' = inv)). Qed.

(** What is asked of a change of the peer [n] and of the inventory [(t0, h0)] to
    keep the schedule consistent *)
Lemma wf_upd s n p t0 h0 st :
  wf s ->
  (forall t h, (t, h) <> (t0, h0) -> (h ∈ GetKnownList p t <-> h ∈ Known s n t) /\ (h ∈ GetAssigned p t <-> h ∈ Asked s n t)) ->
  (forall t, NoDup (GetKnownList p t) /\ Z.of_nat (length (GetKnownList p t)) <= max_peer_inv t) ->
  (h0 ∈ GetKnownList p t0 <-> n ∈ setKnownPeer st) ->
  (forall m, m <> n -> h0 ∈ Known s m t0 <-> m ∈ setKnownPeer st) ->
  (h0 ∈ GetAssigned p t0 -> n <> 0 /\ nAssigned st = n) ->
  (forall m, m <> n -> h0 ∈ Asked s m t0 -> nAssigned st = m) ->
  (nAssigned st <> 0 -> nAssigned st ∈ setKnownPeer st /\
    (IsReceived st = false -> h0 ∈ if decide (nAssigned st = n) then GetAssigned p t0 else Asked s (nAssigned st) t0)) ->
  setKnownPeer st <> ∅ -> object_ok t0 (objReceived st) ->
  (mapState s !! mkInv t0 h0 = None -> Z.of_nat (size (mapState s)) < MAX_INV_COUNT) ->
  wf (upd s n p (mkInv t0 h0) st).
Proof.
  intros H Hp Hl Hk Hk' Ha Ha' Has Hne Hob Hsz. split.
  - intros inv st' Hst. rewrite state_upd in Hst. case_decide; [by simplify_eq|by apply (wf_some _ H inv)].
  - intros m t h. rewrite Known_upd, state_upd. destruct (decide (mkInv t h = mkInv t0 h0)) as [[= -> ->]|Hne'].
    + transitivity (m ∈ setKnownPeer st); [|naive_solver]. destruct (decide (m = n)) as [->|Hm]; [done|by apply Hk'].
    + rewrite <- (wf_known _ H). destruct (decide (m = n)) as [->|]; [|done]. apply Hp. congruence.
  - intros m t. rewrite Known_upd. destruct (decide (m = n)); [apply Hl|apply (wf_nodup _ H)].
  - intros m t h. rewrite Asked_upd, state_upd. destruct (decide (mkInv t h = mkInv t0 h0)) as [[= -> ->]|Hne'].
    + intros Hh. destruct (decide (m = n)) as [->|Hm]; [destruct (Ha Hh) as [Hz Ea]; split; [done|by exists st]|].
      split; [by apply (wf_asked _ H) in Hh as [Hz _]|]. exists st. split; [done|by apply Ha'].
    + intros Hh. apply (wf_asked _ H). destruct (decide (m = n)) as [->|]; [|done]. apply Hp; [congruence|done].
  - intros t h st'. rewrite state_upd. destruct (decide (mkInv t h = mkInv t0 h0)) as [[= -> ->]|Hne'].
    + intros [= <-] Hn. destruct (Has Hn) as [H1 H2]. split; [done|]. intros Hr. rewrite Asked_upd. specialize (H2 Hr).
      by destruct (decide (nAssigned st = n)).
    + intros Hst Hn. destruct (wf_assigned _ H t h st' Hst Hn) as [H1 H2]. split; [done|]. intros Hr. rewrite Asked_upd.
      specialize (H2 Hr). destruct (decide (nAssigned st' = n)) as [E|]; [|done]. rewrite E in H2. apply Hp; [congruence|done].
  - intros t h st'. rewrite state_upd. destruct (decide (mkInv t h = mkInv t0 h0)) as [[= -> ->]|Hne'];
      [by intros [= <-]|apply (wf_object _ H)].
  - unfold upd. cbn [mapState]. rewrite map_size_insert. pose proof (wf_size _ H).
    destruct (mapState s !! mkInv t0 h0); [done|]. specialize (Hsz eq_refl). lia.
  - intros m t. rewrite Known_upd. destruct (decide (m = n)); [apply Hl|apply (wf_count _ H)].
Qed.

(** The peer [p] for which the list and the set of one type are replaced *)
Lemma lists_set p t0 l a t : GetKnownList (set_state p t0 (mkPeerState l a)) t = if decide (t = t0) then l else GetKnownList p t.
Proof. unfold GetKnownList. rewrite known_state_set. by destruct (decide (t = t0)). Qed.

Lemma sets_set p t0 l a t : GetAssigned (set_state p t0 (mkPeerState l a)) t = if decide (t = t0) then a else GetAssigned p t.
Proof. unfold GetAssigned. rewrite known_state_set. by destruct (decide (t = t0)). Qed.

Lemma AddNewInv_wf s inv n : wf s -> wf (Schedule.AddNewInv s inv n).
Proof.
  intros H. unfold Schedule.AddNewInv. destruct (_ && _) eqn:E.
  2: { apply (wf_ext s); [|done|done]. intros m. unfold set_peers. rewrite peer_of_insert. by destruct (decide (m = n)) as [->|]. }
  apply andb_true_iff in E as [Es Ec]. apply Z.ltb_lt in Es, Ec. destruct inv as [t0 h0]. cbn [inv_nType inv_nHash] in *.
  fold (upd s n (InvPeer.Peer_AddNewInv (peer_of s n) (mkInv t0 h0)) (mkInv t0 h0)
    (mkInvState (nAssigned (state_of s (mkInv t0 h0))) (objReceived (state_of s (mkInv t0 h0))) ({[n]} ∪ setKnownPeer (state_of s (mkInv t0 h0))))).
  unfold InvPeer.Peer_AddNewInv. cbn [inv_nType inv_nHash]. unfold state_of.
  assert (Hknown : forall m, h0 ∈ Known s m t0 <-> m ∈ setKnownPeer (default state_init (mapState s !! mkInv t0 h0))).
  { intros m. rewrite (wf_known _ H). destruct (mapState s !! mkInv t0 h0) as [st|]; cbn; naive_solver set_solver. }
  apply wf_upd; cbn [nAssigned objReceived setKnownPeer].
  - done.
  - intros t h Hne. rewrite lists_set, sets_set. destruct (decide (t = t0)) as [->|]; [|done]. split; [|done].
    rewrite elem_of_app, elem_of_erase, list_elem_of_singleton. unfold Known. assert (h <> h0) by congruence. naive_solver.
  - intros t. rewrite lists_set. destruct (decide (t = t0)) as [->|]; [|split; [apply (wf_nodup _ H)|apply (wf_count _ H)]]. split.
    + apply NoDup_app. split; [apply NoDup_erase, (wf_nodup _ H)|]. split; [|apply NoDup_singleton].
      intros x Hx Hx'. apply elem_of_erase in Hx as [Hx _]. by apply list_elem_of_singleton in Hx'.
    + rewrite length_app. pose proof (length_erase h0 (GetKnownList (peer_of s n) t0)). unfold GetCount in Ec. cbn [length]. lia.
  - rewrite lists_set, decide_True by done. set_solver.
  - intros m Hm. rewrite Hknown. set_solver.
  - rewrite sets_set, decide_True by done. intros Hh. by apply (wf_asked _ H n t0 h0) in Hh as (Hz & st & -> & Hst).
  - intros m Hm Hh. by apply (wf_asked _ H m t0 h0) in Hh as (_ & st & -> & Hst).
  - destruct (mapState s !! mkInv t0 h0) as [st|] eqn:E; cbn; [|done]. intros Hn. destruct (wf_assigned _ H t0 h0 st E Hn) as [H1 H2].
    split; [set_solver|]. intros Hr. specialize (H2 Hr). destruct (decide _) as [E'|]; [|done].
    rewrite sets_set, decide_True by done. by rewrite E' in H2.
  - set_solver.
  - destruct (mapState s !! mkInv t0 h0) as [st|] eqn:E; cbn; [by apply (wf_object _ H t0 h0)|done].
  - done.
Qed.

(** *** Assignments and objects *)

Lemma Assign_wf s n t0 h0 st :
  wf s -> n <> 0 -> mapState s !! mkInv t0 h0 = Some st -> h0 ∈ Known s n t0 -> nAssigned st = 0 ->
  wf (upd s n (Assign (peer_of s n) (mkInv t0 h0)) (mkInv t0 h0) (mkInvState n (objReceived st) (setKnownPeer st))).
Proof.
  intros H Hn0 Hst Hh H0. assert (Hknown : forall m, h0 ∈ Known s m t0 <-> m ∈ setKnownPeer st).
  { intros m. rewrite (wf_known _ H), Hst. naive_solver. }
  unfold Assign. cbn [inv_nType inv_nHash]. apply wf_upd; cbn [nAssigned objReceived setKnownPeer].
  - done.
  - intros t h Hne. rewrite lists_set, sets_set. destruct (decide (t = t0)) as [->|]; [|done]. split; [done|].
    assert (h <> h0) by congruence. unfold Asked. set_solver.
  - intros t. rewrite lists_set. destruct (decide (t = t0)) as [->|]; (split; [apply (wf_nodup _ H)|apply (wf_count _ H)]).
  - rewrite lists_set, decide_True by done. apply Hknown.
  - intros m _. apply Hknown.
  - done.
  - intros m Hm Ha. apply (wf_asked _ H) in Ha as (Hz & st' & E & Ha). congruence.
  - intros _. split; [by apply Hknown|]. intros _. rewrite decide_True, sets_set, decide_True by done. set_solver.
  - apply (wf_some _ H _ _ Hst).
  - by apply (wf_object _ H t0 h0).
  - congruence.
Qed.

Lemma Completed_wf s t0 h0 st obj :
  wf s -> mapState s !! mkInv t0 h0 = Some st -> object_ok t0 obj -> IsReceived (mkInvState 0 obj ∅) = true ->
  wf (upd s (nAssigned st) (Completed (peer_of s (nAssigned st)) (mkInv t0 h0)) (mkInv t0 h0)
        (mkInvState (nAssigned st) obj (setKnownPeer st))).
Proof.
  intros H Hst Hob Hr. assert (Hknown : forall m, h0 ∈ Known s m t0 <-> m ∈ setKnownPeer st).
  { intros m. rewrite (wf_known _ H), Hst. naive_solver. }
  unfold Completed. cbn [inv_nType inv_nHash]. apply wf_upd; cbn [nAssigned objReceived setKnownPeer].
  - done.
  - intros t h Hne. rewrite lists_set, sets_set. destruct (decide (t = t0)) as [->|]; [|done]. split; [done|].
    assert (h <> h0) by congruence. unfold Asked. set_solver.
  - intros t. rewrite lists_set. destruct (decide (t = t0)) as [->|]; (split; [apply (wf_nodup _ H)|apply (wf_count _ H)]).
  - rewrite lists_set, decide_True by done. apply Hknown.
  - intros m _. apply Hknown.
  - rewrite sets_set, decide_True by done. set_solver.
  - intros m Hm Ha. apply (wf_asked _ H) in Ha as (Hz & st' & E & Ha). congruence.
  - intros Hn. split; [by apply (wf_assigned _ H t0 h0 st Hst)|]. unfold IsReceived in *. cbn in *. congruence.
  - apply (wf_some _ H _ _ Hst).
  - done.
  - congruence.
Qed.

(** *** Removal of an inventory *)

Lemma peer_of_remove s inv known n :
  peer_of (remove_inv_from s inv known) n = if decide (n ∈ known) then InvPeer.Peer_RemoveInv (peer_of s n) inv else peer_of s n.
Proof.
  unfold remove_inv_from, set_peers, peer_of. cbn [mapPeer].
  set (f := fun n (m : gmap Z CInvPeer) => <[n := InvPeer.Peer_RemoveInv (default InvPeer.init (m !! n)) inv]> m).
  assert (Hf : forall n, (n ∈ known -> default InvPeer.init (set_fold f (mapPeer s) known !! n) =
      InvPeer.Peer_RemoveInv (default InvPeer.init (mapPeer s !! n)) inv) /\
    (n ∉ known -> set_fold f (mapPeer s) known !! n = mapPeer s !! n)).
  { apply (set_fold_ind_L (fun m X => forall n, (n ∈ X -> default InvPeer.init (m !! n) =
        InvPeer.Peer_RemoveInv (default InvPeer.init (mapPeer s !! n)) inv) /\ (n ∉ X -> m !! n = mapPeer s !! n)) f); [set_solver|].
    intros x X m Hx IH n'. unfold f. destruct (decide (n' = x)) as [->|Hne].
    - split; [|set_solver]. intros _. rewrite lookup_insert_eq. cbn [default]. unfold Datatypes.id. by rewrite (proj2 (IH x) Hx).
    - rewrite lookup_insert_ne by done. destruct (IH n') as [H1 H2]. split; intros Hn; [apply H1|apply H2]; set_solver. }
  destruct (Hf n) as [H1 H2]. destruct (decide (n ∈ known)) as [Hn|Hn]; [by apply H1|by rewrite H2].
Qed.

(** [s] without the inventory [inv] *)
Definition without (s : CSchedule) (inv : CInv) (known : gset Z) : CSchedule :=
  set_states (remove_inv_from s inv known) (delete inv (mapState s)).

Lemma lists_without s t0 h0 known n t :
  Known (without s (mkInv t0 h0) known) n t =
    if decide (n ∈ known /\ t = t0) then erase h0 (Known s n t0) else Known s n t.
Proof.
  unfold Known, without. change (peer_of (set_states ?a ?b) n) with (peer_of a n). rewrite peer_of_remove.
  destruct (decide (n ∈ known)) as [Hn|Hn]; [|by rewrite decide_False by tauto].
  unfold InvPeer.Peer_RemoveInv. cbn [inv_nType inv_nHash]. rewrite lists_set.
  destruct (decide (t = t0)); [by rewrite decide_True|by rewrite decide_False by tauto].
Qed.

Lemma sets_without s t0 h0 known n t :
  Asked (without s (mkInv t0 h0) known) n t =
    if decide (n ∈ known /\ t = t0) then Asked s n t0 ∖ {[h0]} else Asked s n t.
Proof.
  unfold Asked, without. change (peer_of (set_states ?a ?b) n) with (peer_of a n). rewrite peer_of_remove.
  destruct (decide (n ∈ known)) as [Hn|Hn]; [|by rewrite decide_False by tauto].
  unfold InvPeer.Peer_RemoveInv. cbn [inv_nType inv_nHash]. rewrite sets_set.
  destruct (decide (t = t0)); [by rewrite decide_True|by rewrite decide_False by tauto].
Qed.

Lemma state_without s inv known inv' :
  mapState (without s inv known) !! inv' = if decide (inv' = inv) then None else mapState s !! inv'.
Proof.
  unfold without. cbn [mapState set_states]. destruct (decide (inv' = inv)) as [->|]; [apply lookup_delete_eq|by apply lookup_delete_ne].
Qed.

Lemma without_wf s t0 h0 st : wf s -> mapState s !! mkInv t0 h0 = Some st -> wf (without s (mkInv t0 h0) (setKnownPeer st)).
Proof.
  intros H Hst. assert (Hknown : forall m, h0 ∈ Known s m t0 <-> m ∈ setKnownPeer st).
  { intros m. rewrite (wf_known _ H), Hst. naive_solver. }
  split.
  - intros inv st' E. rewrite state_without in E. case_decide; [done|by apply (wf_some _ H inv)].
  - intros n t h. rewrite lists_without, state_without. destruct (decide (mkInv t h = mkInv t0 h0)) as [[= -> ->]|Hne].
    + split; [|naive_solver]. destruct (decide _) as [_|Hno]; [intros Hh; by apply elem_of_erase in Hh as [Hh _]|].
      rewrite Hknown. tauto.
    + rewrite <- (wf_known _ H). destruct (decide _) as [[Hn ->]|_]; [|done]. rewrite elem_of_erase. assert (h <> h0) by congruence. tauto.
  - intros n t. rewrite lists_without. destruct (decide _); [apply NoDup_erase|]; apply (wf_nodup _ H).
  - intros n t h Hh. rewrite sets_without in Hh. rewrite state_without. destruct (decide (mkInv t h = mkInv t0 h0)) as [[= -> ->]|Hne].
    + exfalso. destruct (decide _) as [_|Hno]; [set_solver|]. apply (wf_asked _ H) in Hh as (Hz & st' & E & <-).
      rewrite Hst in E. injection E as <-. destruct (wf_assigned _ H t0 h0 st Hst Hz). tauto.
    + apply (wf_asked _ H). destruct (decide _) as [[_ ->]|_]; [set_solver|done].
  - intros t h st' E Hn. rewrite state_without in E. case_decide as Hd; [done|]. destruct (wf_assigned _ H t h st' E Hn) as [H1 H2].
    split; [done|]. intros Hr. rewrite sets_without. specialize (H2 Hr). destruct (decide _) as [[_ ->]|_]; [|done].
    assert (h <> h0) by congruence. set_solver.
  - intros t h st' E. rewrite state_without in E. case_decide; [done|by apply (wf_object _ H t h)].
  - pose proof (wf_size _ H). unfold without. cbn [mapState set_states]. rewrite map_size_delete, Hst. lia.
  - intros n t. rewrite lists_without. pose proof (wf_count _ H n t). destruct (decide _) as [[_ ->]|_]; [|done].
    pose proof (length_erase h0 (Known s n t0)). lia.
Qed.

Lemma RemoveInv_wf s inv known : wf s -> wf (Schedule.RemoveInv s inv known).1.
Proof.
  intros H. unfold Schedule.RemoveInv. destruct (mapState s !! inv) as [st|] eqn:E; [|done]. destruct inv as [t0 h0].
  apply (wf_ext (without s (mkInv t0 h0) (setKnownPeer st))); [| |by apply without_wf].
  - intros n. by destruct (IsReceived st), t0.
  - by destruct (IsReceived st), t0.
Qed.

Lemma invalidate_wf type l s known : wf s -> wf (foldl (invalidate_one type) (s, known) l).1.
Proof.
  revert s known. induction l as [|h l IH]; intros s known H; [done|]. cbn [foldl invalidate_one].
  destruct (mapState s !! mkInv type h) as [st|] eqn:E; [|by apply IH]. apply IH. exact (without_wf s type h st H E).
Qed.

Lemma InvalidateBlock_wf s hash known s' known' : wf s -> InvalidateBlock s hash known = Some (s', known') -> wf s'.
Proof.
  intros H E. unfold InvalidateBlock in E. destruct (Orphan.RemoveBranch _ _) as [[v o]|]; [|done]. cbn in E.
  pose proof (invalidate_wf MSG_BLOCK v (mkSchedule o (orphanTx s) (mapPeer s) (mapState s)) known) as Hf.
  destruct (foldl _ _ _) as [s1 k1]. injection E as E. apply (f_equal fst) in E. cbn in E. rewrite <- E.
  apply RemoveInv_wf, Hf. by apply (wf_ext s).
Qed.

Lemma InvalidateTx_wf s txid known s' known' : wf s -> InvalidateTx s txid known = Some (s', known') -> wf s'.
Proof.
  intros H E. unfold InvalidateTx in E. destruct (Orphan.RemoveBranch _ _) as [[v o]|]; [|done]. cbn in E.
  pose proof (invalidate_wf MSG_TX v (mkSchedule (orphanBlock s) o (mapPeer s) (mapState s)) known) as Hf.
  destruct (foldl _ _ _) as [s1 k1]. injection E as E. apply (f_equal fst) in E. cbn in E. rewrite <- E.
  apply RemoveInv_wf, Hf. by apply (wf_ext s).
Qed.

Lemma Receive_wf s n t h obj known :
  wf s -> object_ok t obj -> IsReceived (mkInvState 0 obj ∅) = true -> wf (Receive s n (mkInv t h) obj known).1.2.
Proof.
  intros H Ho Hr. unfold Receive. destruct (mapState s !! mkInv t h) as [st|] eqn:E; [|done].
  destruct (IsSuperNodeInnerNonce n); cbn [negb].
  - destruct (IsReceived st); [done|]. by apply Completed_wf.
  - destruct (Z.eqb_spec (nAssigned st) n) as [<-|]; [|done]. destruct (IsReceived st); [done|]. by apply Completed_wf.
Qed.

(** *** Scheduling *)

Lemma schedule_loop_wf n type nMax l s vInv nReceived :
  wf s -> n <> 0 -> (forall h, h ∈ l -> h ∈ Known s n type) -> wf (schedule_loop n type nMax l s vInv nReceived).1.1.
Proof.
  revert s vInv nReceived. induction l as [|h l IH]; intros s vInv nReceived H Hn Hl; [done|]. cbn [schedule_loop].
  assert (Hh : h ∈ Known s n type) by (apply Hl; left). pose proof (proj1 (wf_known _ H n type h) Hh) as (st & Est & _).
  unfold state_of. rewrite Est. cbn [default]. unfold Datatypes.id. destruct (Z.eqb_spec (nAssigned st) 0) as [H0|].
  - pose proof (Assign_wf s n type h st H Hn Est Hh H0) as Hw. unfold upd in Hw.
    destruct (_ <=? _)%nat; [exact Hw|]. apply IH; [exact Hw|done|]. intros x Hx.
    assert (Hx' : x ∈ Known s n type) by (apply Hl; by right).
    fold (upd s n (Assign (peer_of s n) (mkInv type h)) (mkInv type h) (mkInvState n (objReceived st) (setKnownPeer st))).
    rewrite Known_upd, decide_True by done. unfold Assign. cbn [inv_nType inv_nHash]. by rewrite lists_set, decide_True.
  - apply IH; [done|done|]. intros x Hx. apply Hl. by right.
Qed.

Lemma ScheduleKnownInv_wf s n type nMax : wf s -> n <> 0 -> wf (ScheduleKnownInv s n type nMax).2.
Proof.
  intros H Hn. unfold ScheduleKnownInv. pose proof (schedule_loop_wf n type nMax (GetKnownList (peer_of s n) type) s [] 0 H Hn) as Hw.
  destruct (schedule_loop _ _ _ _ _ _ _) as [[s1 vInv] nR]. cbn. by apply Hw.
Qed.

(** *** Removal of a peer *)

(** The orphans of a type *)
Definition orphans (s : CSchedule) (type : msg_type) : COrphan :=
  match type with MSG_TX => orphanTx s | MSG_BLOCK => orphanBlock s end.

(** What becomes of a state when the peer [n] leaves *)
Definition forgotten (n : Z) (st : CInvState) : option CInvState :=
  let known := setKnownPeer st ∖ {[n]} in
  if bool_decide (known = ∅) then None
  else if nAssigned st =? n then Some (mkInvState 0 ObjNil known) else Some (mkInvState (nAssigned st) (objReceived st) known).

Lemma forget_loop n l s sched :
  NoDup l ->
  let r := foldl (forget_peer n) (s, sched) l in
  mapPeer r.1 = mapPeer s /\
  (forall inv, mapState r.1 !! inv = if decide (inv ∈ l) then forgotten n (state_of s inv) else mapState s !! inv) /\
  (forall m, m ∈ r.2 <-> m ∈ sched \/ exists inv, inv ∈ l /\ nAssigned (state_of s inv) = n /\ m ∈ setKnownPeer (state_of s inv) /\ m <> n).
Proof.
  revert s sched. induction l as [|inv l IH]; intros s sched Hnd; cbn [foldl].
  { split; [done|]. split; [intros inv; by rewrite decide_False by apply not_elem_of_nil|]. cbn. intros m. set_solver. }
  apply NoDup_cons in Hnd as [Hinv Hnd].
  destruct (forget_peer n (s, sched) inv) as [s1 sched1] eqn:Ef.
  assert (H1 : mapPeer s1 = mapPeer s /\ mapState s1 !! inv = forgotten n (state_of s inv) /\
    (forall inv', inv' <> inv -> mapState s1 !! inv' = mapState s !! inv') /\
    (forall m, m ∈ sched1 <-> m ∈ sched \/ nAssigned (state_of s inv) = n /\ m ∈ setKnownPeer (state_of s inv) /\ m <> n)).
  { unfold forget_peer in Ef. unfold forgotten. destruct (bool_decide (setKnownPeer (state_of s inv) ∖ {[n]} = ∅)) eqn:Ek.
    - apply bool_decide_eq_true in Ek. injection Ef as <- <-. cbn. split; [by destruct inv as [[] ?]|].
      split; [by destruct inv as [[] ?]; apply lookup_delete_eq|]. split; [|set_solver].
      intros inv' Hne. destruct inv as [[] ?]; by apply lookup_delete_ne.
    - destruct (Z.eqb_spec (nAssigned (state_of s inv)) n) as [Ea|Ea]; injection Ef as <- <-; cbn; (split; [done|]);
        (split; [apply lookup_insert_eq|]); (split; [by intros; apply lookup_insert_ne|set_solver]). }
  destruct H1 as (Hp & Hi & Ho & Hs). destruct (IH s1 sched1 Hnd) as (IHp & IHm & IHs). cbn in *.
  assert (Hst : forall inv', inv' ∈ l -> state_of s1 inv' = state_of s inv').
  { intros inv' Hin. unfold state_of. rewrite Ho; [done|]. intros ->. done. }
  split; [congruence|]. split.
  - intros inv'. rewrite IHm. destruct (decide (inv' ∈ l)) as [Hin|Hin].
    + rewrite decide_True by (by right). by rewrite Hst.
    + destruct (decide (inv' = inv)) as [->|Hne]; [rewrite decide_True by left; exact Hi|].
      rewrite decide_False by (rewrite elem_of_cons; tauto). by apply Ho.
  - intros m. rewrite IHs, Hs. setoid_rewrite elem_of_cons. split.
    + intros [[?|?]|(inv' & Hin & Hrest)]; [by left|right; exists inv; tauto|]. rewrite Hst in Hrest by done. right. exists inv'. tauto.
    + intros [?|(inv' & [->|Hin] & Hrest)]; [tauto|tauto|]. right. exists inv'. rewrite Hst by done. tauto.
Qed.

Lemma orphans_RemoveOrphan s inv t e : e ∈ orphans (RemoveOrphan s inv) t <-> e ∈ orphans s t /\ inv <> mkInv t e.2.
Proof.
  destruct inv as [[] h], t; cbn; unfold Orphan.Remove; rewrite ?list_elem_of_filter; split; try (intros [? ?]; split); naive_solver congruence.
Qed.

Lemma forget_orphans n l s sched t e :
  NoDup l ->
  e ∈ orphans (foldl (forget_peer n) (s, sched) l).1 t <->
  e ∈ orphans s t /\ ~ (mkInv t e.2 ∈ l /\ forgotten n (state_of s (mkInv t e.2)) = None).
Proof.
  revert s sched. induction l as [|inv l IH]; intros s sched Hnd; cbn [foldl].
  { split; [|naive_solver]. intros He. split; [done|]. intros [Hin _]. by apply elem_of_nil in Hin. }
  apply NoDup_cons in Hnd as [Hinv Hnd]. destruct (forget_peer n (s, sched) inv) as [s1 sched1] eqn:Ef. rewrite IH by done.
  assert (H1 : (e ∈ orphans s1 t <-> e ∈ orphans s t /\ ~ (inv = mkInv t e.2 /\ forgotten n (state_of s inv) = None)) /\
    (inv <> mkInv t e.2 -> state_of s1 (mkInv t e.2) = state_of s (mkInv t e.2))).
  { unfold forget_peer in Ef. unfold forgotten. destruct (bool_decide (setKnownPeer (state_of s inv) ∖ {[n]} = ∅)) eqn:Ek.
    - injection Ef as <- <-. split.
      + transitivity (e ∈ orphans (RemoveOrphan s inv) t); [by destruct t|]. rewrite orphans_RemoveOrphan. tauto.
      + intros Hne. unfold state_of. destruct inv as [[] ?]; cbn; by rewrite lookup_delete_ne.
    - destruct (nAssigned (state_of s inv) =? n); injection Ef as <- <-; (split; [split; [intros He; split; [by destruct t|by intros [_ ?]]|by destruct t; intros [? _]]|]);
        intros Hne; unfold state_of; cbn; by rewrite lookup_insert_ne. }
  destruct H1 as [-> Hst]. rewrite elem_of_cons. destruct (decide (inv = mkInv t e.2)) as [->|Hne]; [naive_solver|].
  rewrite Hst by done. naive_solver.
Qed.

Lemma GetKnownInv_elem p inv : inv ∈ GetKnownInv p <-> inv_nHash inv ∈ GetKnownList p (inv_nType inv).
Proof.
  unfold GetKnownInv. rewrite elem_of_app, !list_elem_of_fmap. destruct inv as [[] h]; cbn; naive_solver.
Qed.

Lemma NoDup_GetKnownInv p : (forall t, NoDup (GetKnownList p t)) -> NoDup (GetKnownInv p).
Proof.
  intros H. unfold GetKnownInv. apply NoDup_app. split; [apply NoDup_fmap_2; [by intros x y [= ->]|apply H]|].
  split; [|apply NoDup_fmap_2; [by intros x y [= ->]|apply H]].
  intros inv H1 H2. apply list_elem_of_fmap in H1 as (x & -> & _). by apply list_elem_of_fmap in H2 as (y & [=] & _).
Qed.

(** The states after the peer [n] left *)
Lemma RemovePeer_states s n sched :
  wf s ->
  (forall m, peer_of (RemovePeer s n sched).1 m = if decide (m = n) then InvPeer.init else peer_of s m) /\
  (forall inv, mapState (RemovePeer s n sched).1 !! inv =
    st ← mapState s !! inv; if decide (n ∈ setKnownPeer st) then forgotten n st else Some st) /\
  (forall m, m ∈ (RemovePeer s n sched).2 <-> m ∈ sched \/
    exists inv st, mapState s !! inv = Some st /\ n ∈ setKnownPeer st /\ nAssigned st = n /\ m ∈ setKnownPeer st /\ m <> n).
Proof.
  intros H. assert (Hin : forall inv, inv ∈ GetKnownInv (peer_of s n) <-> exists st, mapState s !! inv = Some st /\ n ∈ setKnownPeer st).
  { intros [t h]. rewrite GetKnownInv_elem. apply (wf_known _ H). }
  unfold RemovePeer. destruct (mapPeer s !! n) as [p|] eqn:Ep.
  - replace p with (peer_of s n) by (unfold peer_of; by rewrite Ep).
    destruct (forget_loop n (GetKnownInv (peer_of s n)) s sched) as (Hp & Hm & Hs); [apply NoDup_GetKnownInv, (wf_nodup _ H)|].
    destruct (foldl _ _ _) as [s1 sched1]. cbn in *. split; [|split].
    + intros m. unfold peer_of at 1. cbn. rewrite Hp. destruct (decide (m = n)) as [->|]; [by rewrite lookup_delete_eq|].
      by rewrite lookup_delete_ne.
    + intros inv. rewrite Hm. unfold state_of. destruct (decide (inv ∈ _)) as [Hi|Hi].
      * apply Hin in Hi as (st & -> & Hk). cbn. by rewrite decide_True.
      * destruct (mapState s !! inv) as [st|] eqn:E; [|done]. cbn. rewrite decide_False; [done|]. intros Hk. apply Hi, Hin. eauto.
    + intros m. rewrite Hs. setoid_rewrite Hin. split; (intros [?|Hex]; [by left|right]).
      * destruct Hex as (inv & (st & E & Hk) & Ha & Hmk & Hne). exists inv, st. unfold state_of in *. rewrite E in *. done.
      * destruct Hex as (inv & st & E & Hk & Ha & Hmk & Hne). exists inv. split; [by exists st|]. unfold state_of. by rewrite E.
  - assert (Hno : forall inv st, mapState s !! inv = Some st -> n ∉ setKnownPeer st).
    { intros inv st E Hk. assert (Hi : inv ∈ GetKnownInv (peer_of s n)) by (apply Hin; eauto).
      unfold peer_of in Hi. rewrite Ep in Hi. by apply elem_of_nil in Hi. }
    cbn. split; [|split].
    + intros m. destruct (decide (m = n)) as [->|]; [|done]. unfold peer_of. by rewrite Ep.
    + intros inv. destruct (mapState s !! inv) as [st|] eqn:E; [|done]. cbn. by rewrite decide_False by (by apply (Hno inv)).
    + intros m. split; [by left|]. intros [?|(inv & st & E & Hk & _)]; [done|]. by apply (Hno inv) in E.
Qed.

(** What only the peer [n] knew *)
Definition only_known (s : CSchedule) (n : Z) (inv : CInv) : Prop := exists st, mapState s !! inv = Some st /\ setKnownPeer st = {[n]}.

Lemma forgotten_none s n inv st :
  wf s -> mapState s !! inv = Some st -> n ∈ setKnownPeer st -> forgotten n st = None <-> setKnownPeer st = {[n]}.
Proof.
  intros H E Hn. unfold forgotten. case_bool_decide as Hd.
  - split; [intros _|done]. apply set_eq. intros x. rewrite elem_of_singleton. split; [|by intros ->]. intros Hx.
    destruct (decide (x = n)); [done|]. assert (Hx' : x ∈ setKnownPeer st ∖ {[n]}) by set_solver. rewrite Hd in Hx'. set_solver.
  - split; [by destruct (nAssigned st =? n)|]. intros Ek. destruct Hd. rewrite Ek. set_solver.
Qed.

Lemma RemovePeer_dropped s n sched :
  wf s ->
  (forall inv, mapState (RemovePeer s n sched).1 !! inv = None <-> mapState s !! inv = None \/ only_known s n inv) /\
  (forall t e, e ∈ orphans (RemovePeer s n sched).1 t <-> e ∈ orphans s t /\ ~ only_known s n (mkInv t e.2)).
Proof.
  intros H. split.
  - intros inv. destruct (RemovePeer_states s n sched H) as (_ & -> & _). unfold only_known.
    destruct (mapState s !! inv) as [st|] eqn:E; cbn; [|split; [by left|done]]. destruct (decide (n ∈ setKnownPeer st)) as [Hn|Hn].
    + rewrite (forgotten_none s n inv st) by done. split; [intros Ek; right; by exists st|]. intros [?|(st' & [= ->] & ?)]; done.
    + split; [done|]. intros [?|(st' & [= ->] & Ek)]; [done|]. set_solver.
  - intros t e. assert (Hin : forall inv, inv ∈ GetKnownInv (peer_of s n) <-> exists st, mapState s !! inv = Some st /\ n ∈ setKnownPeer st).
    { intros [t' h]. rewrite GetKnownInv_elem. apply (wf_known _ H). }
    assert (Hd : forall inv, inv ∈ GetKnownInv (peer_of s n) /\ forgotten n (state_of s inv) = None <-> only_known s n inv).
    { intros inv. rewrite Hin. unfold only_known, state_of. split.
      - intros [(st & E & Hn) Hf]. rewrite E in Hf. exists st. split; [done|]. by apply (forgotten_none s n inv st).
      - intros (st & E & Ek). rewrite E. assert (Hn : n ∈ setKnownPeer st) by set_solver. split; [by exists st|].
        by apply (forgotten_none s n inv st). }
    unfold RemovePeer. destruct (mapPeer s !! n) as [p|] eqn:Ep.
    + replace p with (peer_of s n) by (unfold peer_of; by rewrite Ep).
      pose proof (forget_orphans n (GetKnownInv (peer_of s n)) s sched t e) as Hf. destruct (foldl _ _ _) as [s1 sched1].
      rewrite Hd in Hf. rewrite <- Hf by apply NoDup_GetKnownInv, (wf_nodup _ H). by destruct t.
    + rewrite <- Hd. unfold peer_of. rewrite Ep. split; [|by intros [? _]]. intros He. split; [done|]. intros [Hi _].
      by apply elem_of_nil in Hi.
Qed.

(** A state that is left, and one that stays *)
Lemma RemovePeer_left s n sched inv st' :
  wf s -> mapState (RemovePeer s n sched).1 !! inv = Some st' ->
  exists st, mapState s !! inv = Some st /\ setKnownPeer st' = setKnownPeer st ∖ {[n]} /\ setKnownPeer st' <> ∅ /\
    (nAssigned st' = 0 /\ objReceived st' = ObjNil \/
     nAssigned st' = nAssigned st /\ objReceived st' = objReceived st /\ (nAssigned st <> 0 -> nAssigned st <> n)).
Proof.
  intros H E. destruct (RemovePeer_states s n sched H) as (_ & Hm & _). rewrite Hm in E. clear Hm.
  destruct (mapState s !! inv) as [st|] eqn:Es; [|done]. cbn in E. exists st. split; [done|].
  pose proof (wf_some _ H inv st Es) as Hne. destruct (decide (n ∈ setKnownPeer st)) as [Hk|Hk].
  - unfold forgotten in E. case_bool_decide as Hd; [done|]. destruct (Z.eqb_spec (nAssigned st) n) as [Ea|Ea]; injection E as <-; cbn.
    + split; [done|]. split; [done|]. by left.
    + split; [done|]. split; [done|]. by right.
  - injection E as <-. split; [set_solver|]. split; [done|]. right. split; [done|]. split; [done|].
    intros Hz Ea. destruct inv as [t h]. destruct (wf_assigned _ H t h st Es Hz) as [Hin _]. by rewrite Ea in Hin.
Qed.

Lemma RemovePeer_stays s n sched inv st m :
  wf s -> mapState s !! inv = Some st -> m ∈ setKnownPeer st -> m <> n ->
  exists st', mapState (RemovePeer s n sched).1 !! inv = Some st' /\ setKnownPeer st' = setKnownPeer st ∖ {[n]} /\
    (if decide (n ∈ setKnownPeer st /\ nAssigned st = n) then nAssigned st' = 0 /\ objReceived st' = ObjNil
     else nAssigned st' = nAssigned st /\ objReceived st' = objReceived st).
Proof.
  intros H Es Hm Hne. destruct (RemovePeer_states s n sched H) as (_ & Hst & _). rewrite Hst, Es. clear Hst. cbn.
  destruct (decide (n ∈ setKnownPeer st)) as [Hk|Hk].
  - unfold forgotten. rewrite bool_decide_false by set_solver. destruct (Z.eqb_spec (nAssigned st) n) as [Ea|Ea].
    + eexists. split; [done|]. cbn. rewrite decide_True by done. done.
    + eexists. split; [done|]. cbn. rewrite decide_False by tauto. done.
  - exists st. split; [done|]. rewrite decide_False by tauto. split; [set_solver|done].
Qed.

Lemma RemovePeer_wf s n sched : wf s -> wf (RemovePeer s n sched).1.
Proof.
  intros H. pose proof (fun inv st' => RemovePeer_left s n sched inv st' H) as Hl.
  pose proof (fun inv st m => RemovePeer_stays s n sched inv st m H) as Hs.
  destruct (RemovePeer_states s n sched H) as (Hp & Hm & _). set (s' := (RemovePeer s n sched).1) in *. clearbody s'.
  assert (HK : forall m t, Known s' m t = if decide (m = n) then [] else Known s m t).
  { intros m t. unfold Known. rewrite Hp. destruct (decide (m = n)); [by destruct t|done]. }
  assert (HA : forall m t, Asked s' m t = if decide (m = n) then ∅ else Asked s m t).
  { intros m t. unfold Asked. rewrite Hp. destruct (decide (m = n)); [by destruct t|done]. }
  clear Hp. split.
  - intros inv st' E. by apply Hl in E as (st & _ & _ & ? & _).
  - intros m t h. rewrite HK. destruct (decide (m = n)) as [->|Hne].
    + split; [intros Hh; by apply elem_of_nil in Hh|]. intros (st' & E & Hk). apply Hl in E as (st & _ & E & _). set_solver.
    + rewrite (wf_known _ H). split.
      * intros (st & E & Hk). destruct (Hs _ _ m E Hk Hne) as (st' & E' & Ek & _). exists st'. split; [done|]. set_solver.
      * intros (st' & E & Hk). apply Hl in E as (st & E & Ek & _). exists st. split; [done|]. set_solver.
  - intros m t. rewrite HK. destruct (decide (m = n)); [apply NoDup_nil_2|apply (wf_nodup _ H)].
  - intros m t h. rewrite HA. destruct (decide (m = n)) as [->|Hne]; [set_solver|]. intros Hh.
    apply (wf_asked _ H) in Hh as (Hz & st & E & Ea). split; [done|].
    assert (Hk : m ∈ setKnownPeer st) by (rewrite <- Ea; apply (wf_assigned _ H t h st E); congruence).
    destruct (Hs _ _ m E Hk Hne) as (st' & E' & _ & Hc). exists st'. split; [done|].
    rewrite decide_False in Hc by (intros [_ ?]; congruence). by rewrite (proj1 Hc).
  - intros t h st' E Hz. apply Hl in E as (st & E & Ek & _ & [[? _]|(Ea & Eo & Hn)]); [done|].
    rewrite Ea in *. destruct (wf_assigned _ H t h st E Hz) as [H1 H2]. specialize (Hn Hz). split; [set_solver|].
    intros Hr. rewrite HA, decide_False by done. apply H2. unfold IsReceived in *. by rewrite <- Eo.
  - intros t h st' E. apply Hl in E as (st & E & _ & _ & [[_ Eo]|(_ & Eo & _)]); rewrite Eo; [done|by apply (wf_object _ H t h)].
  - pose proof (wf_size _ H) as Hsz. enough (size (mapState s') <= size (mapState s))%nat by lia.
    rewrite <- !size_dom. apply subseteq_size. intros inv Hin. apply elem_of_dom in Hin as [st' E].
    apply Hl in E as (st & E & _). by apply elem_of_dom_2 in E.
  - intros m t. rewrite HK. destruct (decide (m = n)); [by destruct t|apply (wf_count _ H)].
Qed.

(** *** Reachable schedules *)

Inductive step (s : CSchedule) : CSchedule -> Prop :=
  | step_add inv n : step s (Schedule.AddNewInv s inv n)
  | step_remove_peer n sched : step s (RemovePeer s n sched).1
  | step_remove_inv inv known : step s (Schedule.RemoveInv s inv known).1
  | step_receive_block n hash block sched : step s (ReceiveBlock s n hash block sched).1.2
  | step_receive_tx n txid tx sched : step s (ReceiveTx s n txid tx sched).1.2
  | step_orphan_block hash prev : step s (AddOrphanBlockPrev s hash prev)
  | step_orphan_tx txid prev : step s (AddOrphanTxPrev s txid prev)
  | step_invalidate_block hash bad s' bad' : InvalidateBlock s hash bad = Some (s', bad') -> step s s'
  | step_invalidate_tx txid bad s' bad' : InvalidateTx s txid bad = Some (s', bad') -> step s s'
  | step_schedule_block n vInv nMax : n <> 0 -> step s (ScheduleBlockInv s n vInv nMax).2
  | step_schedule_tx n vInv nMax : n <> 0 -> step s (ScheduleTxInv s n vInv nMax).2.

Definition reachable : CSchedule -> Prop := rtc step Schedule.init.

Lemma step_wf s s' : step s s' -> wf s -> wf s'.
Proof.
  intros Hs H. destruct Hs.
  - by apply AddNewInv_wf.
  - by apply RemovePeer_wf.
  - by apply RemoveInv_wf.
  - by apply Receive_wf.
  - by apply Receive_wf.
  - by apply (wf_ext s).
  - by apply (wf_ext s).
  - by apply (InvalidateBlock_wf s hash bad s' bad').
  - by apply (InvalidateTx_wf s txid bad s' bad').
  - unfold ScheduleBlockInv. destruct (mapPeer s !! n) as [p|]; [|done]. destruct (IsAssigned p); [done|]. cbn [negb].
    pose proof (ScheduleKnownInv_wf s n MSG_BLOCK nMax H H0) as Hw.
    destruct (ScheduleKnownInv _ _ _ _) as [[[[] r] v] s']; exact Hw.
  - unfold ScheduleTxInv. destruct (mapPeer s !! n) as [p|]; [|done]. destruct (IsAssigned p); [done|]. cbn [negb].
    pose proof (ScheduleKnownInv_wf s n MSG_TX nMax H H0) as Hw.
    destruct (ScheduleKnownInv _ _ _ _) as [[[[] r] v] s']; exact Hw.
Qed.

Lemma reachable_wf s : reachable s -> wf s.
Proof.
  revert s. apply (rtc_ind_r wf); [apply wf_init|]. intros s1 s2 _ Hs H. by apply (step_wf s1).
Qed.

(** C23: every reachable schedule is consistent: the peers that know an inventory
    are those that have it in their lists, exactly once, within the limits; an
    inventory is asked of at most one peer, one that knows it, and an assigned
    inventory that has not arrived is being asked of its peer; reading a received
    object never throws. *)
Theorem schedule_consistent (s : CSchedule) :
  reachable s ->
  wf s /\
  (forall n m t h, h ∈ Asked s n t -> h ∈ Asked s m t -> n = m /\ h ∈ Known s n t) /\
  (forall hash, exists r, GetBlock s hash = Return r) /\ (forall txid, exists r, GetTransaction s txid = Return r).
Proof.
  intros H. apply reachable_wf in H. split; [done|]. split; [|split].
  - intros n m t h Hn Hm. apply (wf_asked _ H) in Hn as (Hz & st & E & En), Hm as (_ & st' & E' & Em).
    rewrite E in E'. injection E' as <-. split; [congruence|]. apply (wf_known _ H). exists st. split; [done|].
    rewrite <- En. apply (wf_assigned _ H t h st E). congruence.
  - intros hash. unfold GetBlock. destruct (mapState s !! _) as [st|] eqn:E; [|by eexists].
    pose proof (wf_object _ H _ _ _ E) as Ho. destruct (objReceived st); [by eexists..|done].
  - intros txid. unfold GetTransaction. destruct (mapState s !! _) as [st|] eqn:E; [|by eexists].
    pose proof (wf_object _ H _ _ _ E) as Ho. destruct (objReceived st); [by eexists|done|by eexists].
Qed.

(** C26: when a peer leaves, the inventories that only it knew are dropped, with
    their places among the orphans, and no others.  Nothing stays assigned to it:
    an inventory that it was asked for and others know becomes unassigned and not
    received, any other keeps its state, and the peer is struck from the ones that
    know it.  Beside those it was given, the call returns exactly the other peers
    that know something the peer was asked for, for scheduling. *)
Theorem RemovePeer_reassigns (s : CSchedule) (n : Z) (sched : gset Z) :
  reachable s -> n <> 0 ->
  let '(s', sched') := RemovePeer s n sched in
  (forall t, Known s' n t = [] /\ Asked s' n t = ∅) /\
  (forall inv, mapState s' !! inv = None <-> mapState s !! inv = None \/ only_known s n inv) /\
  (forall t e, e ∈ orphans s' t <-> e ∈ orphans s t /\ ~ only_known s n (mkInv t e.2)) /\
  (forall inv st', mapState s' !! inv = Some st' -> nAssigned st' <> n /\ n ∉ setKnownPeer st') /\
  (forall inv st m, mapState s !! inv = Some st -> m ∈ setKnownPeer st -> m <> n -> nAssigned st = n ->
    mapState s' !! inv = Some (mkInvState 0 ObjNil (setKnownPeer st ∖ {[n]}))) /\
  (forall inv st m, mapState s !! inv = Some st -> m ∈ setKnownPeer st -> m <> n -> nAssigned st <> n ->
    mapState s' !! inv = Some (mkInvState (nAssigned st) (objReceived st) (setKnownPeer st ∖ {[n]}))) /\
  (forall m, m ∈ sched' <-> m ∈ sched \/
    m <> n /\ exists inv st, mapState s !! inv = Some st /\ nAssigned st = n /\ m ∈ setKnownPeer st).
Proof.
  intros H Hn. apply reachable_wf in H. pose proof (RemovePeer_states s n sched H) as (Hp & _ & Hsch).
  pose proof (fun inv st' => RemovePeer_left s n sched inv st' H) as Hl. destruct (RemovePeer_dropped s n sched H) as [Hd Ho].
  pose proof (fun inv st m => RemovePeer_stays s n sched inv st m H) as Hs. destruct (RemovePeer s n sched) as [s' sched']. cbn in *.
  assert (Hkn : forall inv st, mapState s !! inv = Some st -> nAssigned st = n -> n ∈ setKnownPeer st).
  { intros [t h] st E Ea. rewrite <- Ea. apply (wf_assigned _ H t h st E). congruence. }
  split; [|split; [done|split; [done|split; [|split; [|split]]]]].
  - intros t. unfold Known, Asked. rewrite Hp, decide_True by done. by destruct t.
  - intros inv st' E. apply Hl in E as (st & _ & Ek & _ & Hc). split; [|set_solver]. destruct Hc as [[-> _]|(-> & _ & Hc)]; [done|].
    destruct (decide (nAssigned st = 0)); [congruence|by apply Hc].
  - intros inv st m E Hm Hne Ea. destruct (Hs inv st m E Hm Hne) as ([a o k] & E' & Ek & Hc).
    rewrite decide_True in Hc by eauto. cbn in *. destruct Hc as [-> ->]. congruence.
  - intros inv st m E Hm Hne Ea. destruct (Hs inv st m E Hm Hne) as ([a o k] & E' & Ek & Hc).
    rewrite decide_False in Hc by tauto. cbn in *. destruct Hc as [-> ->]. congruence.
  - intros m. rewrite Hsch. naive_solver.
Qed.

(** *** What is scheduled *)

(** The hashes of a list that nobody is asked for *)
Definition unassigned (s : CSchedule) (type : msg_type) (l : list Z) : list Z :=
  filter (fun h => nAssigned (state_of s (mkInv type h)) = 0) l.

Definition received (s : CSchedule) (type : msg_type) (l : list Z) : list Z :=
  filter (fun h => IsReceived (state_of s (mkInv type h)) = true) l.

Lemma filter_ext_in (P Q : Z -> Prop) `{forall x, Decision (P x), forall x, Decision (Q x)} (l : list Z) :
  (forall x, x ∈ l -> P x <-> Q x) -> filter P l = filter Q l.
Proof.
  induction l as [|x l IH]; intros HPQ; [done|]. rewrite !filter_cons, IH by (intros; apply HPQ; by right).
  destruct (decide (P x)), (decide (Q x)); try done; exfalso; destruct (HPQ x); [left| |left|]; tauto.
Qed.

Lemma filter_whole (P : Z -> Prop) `{forall x, Decision (P x)} (l : list Z) : (forall x, x ∈ l -> P x) -> filter P l = l.
Proof.
  induction l as [|x l IH]; intros HP; [done|]. rewrite filter_cons, decide_True by (apply HP; left). f_equal. apply IH.
  intros y Hy. apply HP. by right.
Qed.

Lemma filter_length_whole (P : Z -> Prop) `{forall x, Decision (P x)} (l : list Z) : length (filter P l) = length l -> filter P l = l.
Proof.
  induction l as [|x l IH]; [done|]. rewrite filter_cons. destruct (decide (P x)); cbn [length]; intros E; [f_equal; apply IH; lia|].
  pose proof (length_filter P l). lia.
Qed.

(** The schedule [s'] is [s] with the hashes [picked] asked of the peer [n]. *)
Record assigns (s s' : CSchedule) (n : Z) (type : msg_type) (picked : list Z) : Prop := {
  as_state : forall t h, mapState s' !! mkInv t h =
    if decide (t = type /\ h ∈ picked)
    then Some (mkInvState n (objReceived (state_of s (mkInv t h))) (setKnownPeer (state_of s (mkInv t h))))
    else mapState s !! mkInv t h;
  as_known : forall m t, Known s' m t = Known s m t;
  as_asked : forall m t h, h ∈ Asked s' m t <-> h ∈ Asked s m t \/ m = n /\ t = type /\ h ∈ picked;
}.

Lemma assigns_none s n type : assigns s s n type [].
Proof.
  split; [|done|]; intros.
  - rewrite decide_False; [done|]. intros [_ Hh]. by apply elem_of_nil in Hh.
  - split; [by left|]. intros [?|(_ & _ & Hh)]; [done|by apply elem_of_nil in Hh].
Qed.

Lemma assigns_cons s n type h picked s' :
  h ∉ picked ->
  assigns (upd s n (Assign (peer_of s n) (mkInv type h)) (mkInv type h)
     (mkInvState n (objReceived (state_of s (mkInv type h))) (setKnownPeer (state_of s (mkInv type h))))) s' n type picked ->
  assigns s s' n type (h :: picked).
Proof.
  intros Hh [H1 H2 H3]. split.
  - intros t x. rewrite H1, state_upd, state_of_upd.
    destruct (decide (mkInv t x = mkInv type h)) as [[= -> ->]|Hne].
    + rewrite decide_False by tauto. rewrite decide_True by (split; [done|left]). done.
    + destruct (decide (t = type /\ x ∈ picked)) as [[-> Hx]|Hno].
      * rewrite decide_True by (split; [done|by right]). done.
      * rewrite decide_False; [done|]. rewrite elem_of_cons. intros [-> [->|Hx]]; tauto.
  - intros m t. rewrite H2, Known_upd. destruct (decide (m = n)) as [->|]; [|done]. unfold Assign. cbn [inv_nType inv_nHash].
    rewrite lists_set. by destruct (decide (t = type)) as [->|].
  - intros m t x. rewrite H3, Asked_upd, elem_of_cons. destruct (decide (m = n)) as [->|]; [|tauto]. unfold Assign. cbn [inv_nType inv_nHash].
    rewrite sets_set. unfold Asked. destruct (decide (t = type)) as [->|]; [|tauto]. rewrite elem_of_union, elem_of_singleton. tauto.
Qed.

Lemma schedule_loop_spec n type nMax l s vInv nR :
  NoDup l -> n <> 0 -> (length vInv < Nat.max 1 nMax)%nat ->
  let '(s', vInv', nR') := schedule_loop n type nMax l s vInv nR in
  let picked := take (Nat.max 1 nMax - length vInv) (unassigned s type l) in
  vInv' = vInv ++ map (mkInv type) picked /\ assigns s s' n type picked /\
  (unassigned s type l = [] -> nR' = nR + Z.of_nat (length (received s type l))) /\
  (unassigned s type l <> [] -> nR' < nR + Z.of_nat (length l)) /\ nR' <= nR + Z.of_nat (length l).
Proof.
  revert s vInv nR. induction l as [|h l IH]; intros s vInv nR Hnd Hn Hlen; cbn [schedule_loop].
  { unfold unassigned, received. rewrite !filter_nil, take_nil, app_nil_r. cbn. split; [done|]. split; [apply assigns_none|]. split; [lia|]. split; [done|lia]. }
  apply NoDup_cons in Hnd as [Hh Hnd]. set (st := state_of s (mkInv type h)).
  unfold unassigned, received. rewrite !filter_cons. fold (unassigned s type l) (received s type l). fold st.
  destruct (Z.eqb_spec (nAssigned st) 0) as [H0|H0].
  - rewrite decide_True by done.
    fold (upd s n (Assign (peer_of s n) (mkInv type h)) (mkInv type h) (mkInvState n (objReceived st) (setKnownPeer st))).
    set (s1 := upd s n (Assign (peer_of s n) (mkInv type h)) (mkInv type h) (mkInvState n (objReceived st) (setKnownPeer st))).
    destruct (Nat.leb_spec nMax (length (vInv ++ [mkInv type h]))) as [Hmax|Hmax]; rewrite length_app in Hmax; cbn [length] in Hmax.
    + replace (Nat.max 1 nMax - length vInv)%nat with 1%nat by lia. cbn [take firstn map]. split; [done|].
      split; [apply assigns_cons; [apply not_elem_of_nil|apply assigns_none]|]. split; [done|]. cbn [length]. split; lia.
    + assert (Hst : forall x, x ∈ l -> state_of s1 (mkInv type x) = state_of s (mkInv type x)).
      { intros x Hx. unfold s1. rewrite state_of_upd, decide_False; [done|]. intros [= ->]. done. }
      assert (Hu : unassigned s1 type l = unassigned s type l) by (apply filter_ext_in; intros x Hx; by rewrite Hst).
      specialize (IH s1 (vInv ++ [mkInv type h]) nR Hnd Hn). rewrite length_app in IH. cbn [length] in IH. specialize (IH ltac:(lia)).
      destruct (schedule_loop n type nMax l s1 _ nR) as [[s' vInv'] nR']. rewrite Hu in IH.
      destruct IH as (E & Ha & _ & _ & Hle). cbn [length].
      replace (Nat.max 1 nMax - length vInv)%nat with (S (Nat.max 1 nMax - (length vInv + 1))) by lia. cbn [take firstn map].
      split; [by rewrite E, <- app_assoc|]. split; [|split; [done|split; lia]].
      apply assigns_cons; [|exact Ha]. intros Hin. apply Hh.
      assert (Hin' : h ∈ unassigned s type l) by (rewrite <- (take_drop (Nat.max 1 nMax - (length vInv + 1))); apply elem_of_app; by left).
      by apply list_elem_of_filter in Hin' as [_ Hin'].
  - rewrite decide_False by done. specialize (IH s vInv (if IsReceived st then nR + 1 else nR) Hnd Hn Hlen).
    destruct (schedule_loop n type nMax l s vInv _) as [[s' vInv'] nR']. destruct IH as (E & Ha & H1 & H2 & H3).
    split; [done|]. split; [done|]. cbn [length]. split; [|split; [intros Hne; specialize (H2 Hne)|]].
    + intros Hnil. rewrite (H1 Hnil). destruct (IsReceived st); [rewrite decide_True by done; cbn [length]; lia|by rewrite decide_False].
    + destruct (IsReceived st); lia.
    + destruct (IsReceived st); lia.
Qed.

(** C25: [ScheduleKnownInv] asks the peer for the first inventories of its list
    that nobody is asked for, up to the limit (at least one), and changes
    nothing else; it reports that there was nothing to ask although the list is
    not empty, and whether everything in the list has been received. *)
Theorem ScheduleKnownInv_spec (s : CSchedule) (n : Z) (type : msg_type) (nMaxCount : nat) :
  reachable s -> n <> 0 ->
  let '(ok, fReceivedAll, vInv, s') := ScheduleKnownInv s n type nMaxCount in
  let picked := take (Nat.max 1 nMaxCount) (unassigned s type (Known s n type)) in
  vInv = map (mkInv type) picked /\ assigns s s' n type picked /\
  (ok = true <-> unassigned s type (Known s n type) <> [] \/ Known s n type = []) /\
  (fReceivedAll = true <-> Known s n type <> [] /\
    forall h, h ∈ Known s n type -> exists st, mapState s !! mkInv type h = Some st /\ nAssigned st <> 0 /\ IsReceived st = true).
Proof.
  intros Hre Hn. apply reachable_wf in Hre as H. unfold ScheduleKnownInv. fold (Known s n type).
  pose proof (schedule_loop_spec n type nMaxCount (Known s n type) s [] 0 (wf_nodup _ H n type) Hn ltac:(cbn; lia)) as Hspec.
  destruct (schedule_loop _ _ _ _ _ _ _) as [[s' vInv] nR]. cbn [length] in Hspec. rewrite Nat.sub_0_r in Hspec.
  destruct Hspec as (E & Ha & H1 & H2 & _). cbn in E. split; [done|]. split; [done|]. split.
  - rewrite E. destruct (unassigned s type (Known s n type)) as [|x l] eqn:Eu.
    + rewrite take_nil. cbn. destruct (Known s n type); split; naive_solver.
    + destruct (Nat.max 1 nMaxCount) as [|k] eqn:Ek; [lia|]. cbn. split; [|done]. intros _. by left.
  - assert (Hall : unassigned s type (Known s n type) = [] /\ received s type (Known s n type) = Known s n type <->
      forall h, h ∈ Known s n type -> exists st, mapState s !! mkInv type h = Some st /\ nAssigned st <> 0 /\ IsReceived st = true).
    { split.
      - intros [Hu Hr] h Hh. pose proof (proj1 (wf_known _ H n type h) Hh) as (st & Est & _). exists st. split; [done|].
        assert (Hst : state_of s (mkInv type h) = st) by (unfold state_of; by rewrite Est). split.
        + intros H0. apply (not_elem_of_nil h). rewrite <- Hu. apply list_elem_of_filter. by rewrite Hst.
        + rewrite <- Hr in Hh. apply list_elem_of_filter in Hh as [Hh _]. by rewrite Hst in Hh.
      - intros Hst. split.
        + apply elem_of_nil_inv. intros h Hh. apply list_elem_of_filter in Hh as [H0 Hh]. destruct (Hst h Hh) as (st & Est & Hne & _).
          unfold state_of in H0. by rewrite Est in H0.
        + apply filter_whole. intros h Hh. destruct (Hst h Hh) as (st & Est & _ & Hr). unfold state_of. by rewrite Est. }
    rewrite <- Hall. split.
    + intros Hb. apply andb_true_iff in Hb as [Hb1 Hb2]. apply Z.eqb_eq in Hb1. apply negb_true_iff, Z.eqb_neq in Hb2.
      split; [intros En; rewrite En in Hb1; cbn in Hb1; lia|].
      destruct (decide (unassigned s type (Known s n type) = [])) as [Hu|Hu]; [|specialize (H2 Hu); lia]. split; [done|].
      specialize (H1 Hu). apply filter_length_whole. unfold received in H1. lia.
    + intros [Hne [Hu Hr]]. rewrite (H1 Hu), Hr, Z.add_0_l, Z.eqb_refl. apply negb_true_iff, Z.eqb_neq. destruct (Known s n type); [done|].
      cbn [length]. lia.
Qed.

(** *** Branches of orphans *)

(** [h] waits for [p]. *)
Definition waits (o : COrphan) (p h : Z) : Prop := (p, h) ∈ o.

Lemma GetNext_elem o p h : h ∈ Orphan.GetNext o p <-> waits o p h.
Proof.
  unfold Orphan.GetNext, waits. rewrite list_elem_of_fmap. split.
  - intros ([p' h'] & -> & He). apply list_elem_of_filter in He as [E He]. cbn in *. by subst p'.
  - intros He. exists (p, h). split; [done|]. by apply list_elem_of_filter.
Qed.

Lemma new_hashes_spec l v :
  NoDup v ->
  exists v', Orphan.new_hashes l v (list_to_set v) = (v ++ v', list_to_set (v ++ v')) /\ NoDup (v ++ v') /\
    forall h, h ∈ v ++ v' <-> h ∈ v \/ h ∈ l.
Proof.
  revert v. induction l as [|h l IH]; intros v Hnd; cbn [Orphan.new_hashes].
  { exists []. rewrite app_nil_r. split; [done|]. split; [done|]. intros h. set_solver. }
  destruct (decide (h ∈ list_to_set (C := gset Z) v)) as [Hin|Hin]; rewrite elem_of_list_to_set in Hin.
  - destruct (IH v Hnd) as (v' & E & Hnd' & Hv). exists v'. split; [done|]. split; [done|]. intros x. rewrite Hv. set_solver.
  - destruct (IH (v ++ [h])) as (v' & E & Hnd' & Hv).
    { apply NoDup_app. split; [done|]. split; [|apply NoDup_singleton]. intros x Hx Hx'. apply list_elem_of_singleton in Hx'. by subst x. }
    exists (h :: v'). rewrite <- app_assoc in E, Hnd', Hv. cbn [app] in E, Hnd', Hv. rewrite <- E. split; [|split; [done|]].
    + f_equal. set_solver.
    + intros x. rewrite Hv. set_solver.
Qed.

Lemma tc_last {A} (R : relation A) x y : tc R x y -> exists z, R z y.
Proof. induction 1; eauto. Qed.

Section branch.
Context (o : COrphan) (root : Z).

(** After [i] rounds: what has been found descends from the root and waits for
    it or for something found; the first [i] hashes and the root have been
    followed and removed. *)
Record branch_ok (i : nat) (v : list Z) (oi : COrphan) : Prop := {
  br_nodup : NoDup v;
  br_sound : forall h, h ∈ v -> tc (waits o) root h;
  br_closed : forall p h, p = root \/ p ∈ take i v -> waits o p h -> h ∈ v;
  br_left : oi = filter (fun e => e.1 <> root /\ e.1 ∉ take i v) o;
}.

Lemma branch_length i v oi : branch_ok i v oi -> (length v <= length o)%nat.
Proof.
  intros H. rewrite <- (length_fmap snd o). apply submseteq_length, NoDup_submseteq; [apply (br_nodup _ _ _ H)|].
  intros h Hh. apply (br_sound _ _ _ H), tc_last in Hh as (p & Hw). apply list_elem_of_fmap. by exists (p, h).
Qed.

Lemma branch_step i v oi hash :
  branch_ok i v oi -> v !! i = Some hash ->
  exists v', Orphan.GetNextSet oi hash v (list_to_set v) = (v ++ v', list_to_set (v ++ v')) /\
    branch_ok (S i) (v ++ v') (Orphan.RemoveNext oi hash).
Proof.
  intros [Hnd Hs Hc Hl] Hi. destruct (new_hashes_spec (Orphan.GetNext oi hash) v Hnd) as (v' & E & Hnd' & Hv).
  assert (Ht : take (S i) (v ++ v') = take i v ++ [hash]).
  { rewrite take_app_le by (apply lookup_lt_Some in Hi; lia). by apply take_S_r. }
  exists v'. split; [done|]. split; [done| |..].
  - intros h Hh. apply Hv in Hh as [Hh|Hh]; [by apply Hs|]. apply GetNext_elem in Hh. subst oi.
    apply list_elem_of_filter in Hh as [_ Hh]. apply tc_r with hash; [|done]. by apply Hs, list_elem_of_lookup_2 with i.
  - intros p h Hp Hw. rewrite Ht in Hp. apply Hv.
    destruct (decide (p = root \/ p ∈ take i v)) as [Hold|Hnew]; [left; by apply (Hc p)|]. right. apply GetNext_elem.
    assert (p = hash) as -> by set_solver. subst oi. apply list_elem_of_filter. split; [|done]. cbn. tauto.
  - rewrite Ht. subst oi. etrans; [apply list_filter_filter|]. apply list_filter_iff. intros e. set_solver.
Qed.

Lemma branch_loop_spec fuel : forall i v oi,
  branch_ok i v oi -> (i <= length v)%nat -> (length o <= fuel + i)%nat ->
  exists v' o', Orphan.branch_loop fuel i v (list_to_set v) oi = Some (v', o') /\ branch_ok (length v') v' o'.
Proof.
  induction fuel as [|fuel IH]; intros i v oi H Hi Hf; cbn [Orphan.branch_loop];
    destruct (v !! i) as [hash|] eqn:E; try (apply lookup_ge_None_1 in E; exists v, oi; split; [done|]; by replace (length v) with i by lia).
  - apply lookup_lt_Some in E. pose proof (branch_length _ _ _ H). lia.
  - destruct (branch_step _ _ _ _ H E) as (v' & -> & H'). apply IH; [done| |lia]. apply lookup_lt_Some in E. rewrite length_app. lia.
Qed.

Lemma branch_start :
  exists v, Orphan.GetNextSet o root [] ∅ = (v, list_to_set v) /\ branch_ok 0 v (Orphan.RemoveNext o root).
Proof.
  destruct (new_hashes_spec (Orphan.GetNext o root) [] (NoDup_nil_2)) as (v & E & Hnd & Hv). cbn [app] in *.
  exists v. split; [done|]. split; [done| |..].
  - intros h Hh. apply Hv in Hh as [Hh|Hh]; [by apply elem_of_nil in Hh|]. by apply tc_once, GetNext_elem.
  - intros p h [->|Hp] Hw; [|by apply elem_of_nil in Hp]. apply Hv. right. by apply GetNext_elem.
  - apply list_filter_iff. intros e. set_solver.
Qed.

Lemma branch_all v oi h : branch_ok (length v) v oi -> h ∈ v <-> tc (waits o) root h.
Proof.
  intros H. split; [apply (br_sound _ _ _ H)|]. intros Ht.
  revert h Ht. apply (tc_ind_r (fun h => h ∈ v) root).
  - intros y Hy. apply (br_closed _ _ _ H root); [by left|done].
  - intros y z _ Hyz Hy. apply (br_closed _ _ _ H y); [|done]. right. by rewrite firstn_all.
Qed.

(** [RemoveBranch] always ends, whatever cycles the orphans have. It finds each
    orphan that descends from the root, directly or through others, once, and
    nothing else; it drops the entries under the root and under what it finds,
    and keeps the others in their order. *)
Theorem RemoveBranch_spec :
  exists v o', Orphan.RemoveBranch o root = Some (v, o') /\ NoDup v /\ (forall h, h ∈ v <-> tc (waits o) root h) /\
    o' = filter (fun e => e.1 <> root /\ e.1 ∉ v) o.
Proof.
  destruct branch_start as (v0 & E & H0).
  destruct (branch_loop_spec (length o) 0 _ _ H0) as (v & o' & E' & H); [lia|lia|].
  exists v, o'. split; [unfold Orphan.RemoveBranch; by rewrite E|]. split; [apply (br_nodup _ _ _ H)|].
  split; [intros h; by apply (branch_all v o')|]. rewrite (br_left _ _ _ H). by rewrite firstn_all.
Qed.

End branch.

(** [InvalidateBlock] and [InvalidateTx] as one *)
Definition Invalidate (type : msg_type) : CSchedule -> Z -> gset Z -> option (CSchedule * gset Z) :=
  match type with MSG_TX => InvalidateTx | MSG_BLOCK => InvalidateBlock end.

(** The schedule with other orphans of a type *)
Definition set_orphans (s : CSchedule) (type : msg_type) (o : COrphan) : CSchedule :=
  match type with
  | MSG_TX => mkSchedule (orphanBlock s) o (mapPeer s) (mapState s)
  | MSG_BLOCK => mkSchedule o (orphanTx s) (mapPeer s) (mapState s)
  end.

Lemma Invalidate_unfold type s hash bad v o :
  Orphan.RemoveBranch (orphans s type) hash = Some (v, o) ->
  Invalidate type s hash bad =
    let r := foldl (invalidate_one type) (set_orphans s type o, bad) v in
    Some (Schedule.RemoveInv r.1 (mkInv type hash) r.2).
Proof.
  destruct type; cbn [orphans Invalidate set_orphans]; [unfold InvalidateTx|unfold InvalidateBlock]; intros ->; cbn; by destruct (foldl _ _ _).
Qed.

(** The peers that know an inventory *)
Definition knowers (s : CSchedule) (inv : CInv) : gset Z := setKnownPeer (state_of s inv).

Lemma invalidate_one_spec type s bad h :
  let r := invalidate_one type (s, bad) h in
  mapState r.1 = delete (mkInv type h) (mapState s) /\ r.2 = bad ∪ knowers s (mkInv type h) /\
  orphanBlock r.1 = orphanBlock s /\ orphanTx r.1 = orphanTx s.
Proof.
  cbn. unfold knowers, state_of. destruct (mapState s !! mkInv type h) as [st|] eqn:E; [done|]. cbn.
  rewrite delete_id by done. split; [done|]. split; [set_solver|done].
Qed.

Lemma invalidate_all type l : forall s bad,
  let r := foldl (invalidate_one type) (s, bad) l in
  (forall inv, mapState r.1 !! inv = if decide (inv_nType inv = type /\ inv_nHash inv ∈ l) then None else mapState s !! inv) /\
  (forall m, m ∈ r.2 <-> m ∈ bad \/ exists h, h ∈ l /\ m ∈ knowers s (mkInv type h)) /\
  orphanBlock r.1 = orphanBlock s /\ orphanTx r.1 = orphanTx s.
Proof.
  induction l as [|h l IH]; intros s bad; cbn [foldl].
  { split; [intros inv; rewrite decide_False; [done|set_solver]|]. split; [set_solver|done]. }
  destruct (invalidate_one_spec type s bad h) as (Hs & Hb & Hob & Hot). destruct (invalidate_one type (s, bad) h) as [s1 b1]. cbn in Hs, Hb, Hob, Hot.
  specialize (IH s1 b1). destruct (foldl _ _ _) as [s2 b2]. cbn in *. destruct IH as (I1 & I2 & I3 & I4).
  split; [|split; [|split; congruence]].
  - intros inv. rewrite I1, Hs. destruct (decide (inv = mkInv type h)) as [->|Hne].
    + rewrite lookup_delete_eq. cbn. rewrite (decide_True (P := type = type /\ h ∈ h :: l)) by (split; [done|apply list_elem_of_here]). by case_decide.
    + rewrite lookup_delete_ne by done. apply decide_ext. destruct inv as [t x]. cbn. split; [intros []; split; [done|]; by apply list_elem_of_further|].
      intros [-> Hx]. split; [done|]. apply elem_of_cons in Hx as [->|Hx]; [by destruct Hne|done].
  - intros m. rewrite I2, Hb. assert (Hk : forall x, x <> h -> knowers s1 (mkInv type x) = knowers s (mkInv type x)).
    { intros x Hx. unfold knowers, state_of. rewrite Hs, lookup_delete_ne by congruence. done. }
    assert (Hk0 : knowers s1 (mkInv type h) = ∅) by (unfold knowers, state_of; by rewrite Hs, lookup_delete_eq).
    rewrite elem_of_union. split.
    + intros [[H|H]|(x & Hx & Hm)]; [by left|right; exists h; split; [apply list_elem_of_here|done]|].
      right. exists x. split; [by apply list_elem_of_further|]. destruct (decide (x = h)) as [->|Hne]; [set_solver|]. by rewrite <- Hk.
    + intros [H|(x & Hx & Hm)]; [by left; left|]. destruct (decide (x = h)) as [->|Hne]; [left; by right|].
      right. exists x. split; [set_solver|]. by rewrite Hk.
Qed.

Lemma RemoveInv_spec s inv bad :
  let r := Schedule.RemoveInv s inv bad in
  mapState r.1 = delete inv (mapState s) /\ r.2 = bad ∪ knowers s inv /\
  (forall t e, e ∈ orphans r.1 t -> e ∈ orphans s t) /\
  (forall t e, e ∈ orphans s t -> mkInv t e.2 <> inv -> e ∈ orphans r.1 t).
Proof.
  unfold Schedule.RemoveInv, knowers, state_of. destruct (mapState s !! inv) as [st|] eqn:E; cbn.
  - split; [by destruct (IsReceived st), inv as [[] x]|]. split; [done|].
    destruct (IsReceived st); [|by destruct inv as [[] x]]. destruct inv as [t0 x].
    split; intros t e; destruct t0, t; cbn; try done; unfold Orphan.Remove; rewrite list_elem_of_filter; [tauto..| |];
      intros He Hne; (split; [congruence|done]).
  - rewrite delete_id by done. split; [done|]. split; [set_solver|done].
Qed.

Lemma Invalidate_list type s hash bad v o :
  Orphan.RemoveBranch (orphans s type) hash = Some (v, o) ->
  exists s' bad', Invalidate type s hash bad = Some (s', bad') /\
  (forall inv, mapState s' !! inv = if decide (inv_nType inv = type /\ inv_nHash inv ∈ hash :: v) then None else mapState s !! inv) /\
  (forall m, m ∈ bad' <-> m ∈ bad \/ exists h, h ∈ hash :: v /\ m ∈ knowers s (mkInv type h)) /\
  (forall e, e ∈ orphans s' type -> e ∈ o) /\ (forall e, e ∈ o -> e.2 <> hash -> e ∈ orphans s' type).
Proof.
  intros E. pose proof (Invalidate_unfold type s hash bad v o E) as Hr. cbv zeta in Hr.
  pose proof (invalidate_all type v (set_orphans s type o) bad) as (F1 & F2 & F3 & F4). destruct (foldl _ _ _) as [s1 b1]. cbn in *.
  pose proof (RemoveInv_spec s1 (mkInv type hash) b1) as (R1 & R2 & R3 & R4).
  destruct (Schedule.RemoveInv _ _ _) as [s' bad']. cbn in *. exists s', bad'. split; [done|].
  assert (Hms : mapState (set_orphans s type o) = mapState s) by by destruct type.
  assert (Hk : forall inv, knowers (set_orphans s type o) inv = knowers s inv) by (intros inv; unfold knowers, state_of; by rewrite Hms).
  assert (Hor : orphans s1 type = o) by (destruct type; cbn in *; congruence).
  split; [|split; [|split]].
  - intros inv. rewrite R1. destruct (decide (inv = mkInv type hash)) as [->|Hne].
    + rewrite lookup_delete_eq, decide_True; [done|]. split; [done|apply list_elem_of_here].
    + rewrite lookup_delete_ne, F1, Hms by done. apply decide_ext. destruct inv as [t x]. cbn. rewrite elem_of_cons. naive_solver.
  - intros m. rewrite R2, elem_of_union, F2. assert (H0 : m ∈ knowers s1 (mkInv type hash) -> m ∈ knowers s (mkInv type hash)).
    { unfold knowers, state_of. rewrite F1, Hms. case_decide; [cbn; set_solver|done]. }
    assert (H1 : hash ∉ v -> knowers s1 (mkInv type hash) = knowers s (mkInv type hash)).
    { intros Hv. unfold knowers, state_of. rewrite F1, Hms, decide_False; [done|cbn; tauto]. }
    setoid_rewrite Hk. setoid_rewrite elem_of_cons. split; [naive_solver|].
    intros [H|(h & [->|Hh] & Hm)]; [tauto| |left; right; by exists h]. destruct (decide (hash ∈ v)); [left; right; by exists hash|].
    right. by rewrite H1.
  - intros e He. rewrite <- Hor. by apply R3.
  - intros e He Hne. apply R4; [by rewrite Hor|]. congruence.
Qed.

(** C24: invalidating a block or a transaction always ends. It drops the inventory
    and all that descends from it by the orphans, and no other; the peers it
    reports are those that announced one of the dropped inventories; no orphan
    waits any longer for a dropped one, and what waits for something else still
    waits. *)
Theorem Invalidate_spec (type : msg_type) (s : CSchedule) (hash : Z) (bad : gset Z) :
  let branch := rtc (waits (orphans s type)) hash in
  exists s' bad', Invalidate type s hash bad = Some (s', bad') /\
  (forall inv, mapState s' !! inv = None <-> mapState s !! inv = None \/ inv_nType inv = type /\ branch (inv_nHash inv)) /\
  (forall inv st, mapState s' !! inv = Some st -> mapState s !! inv = Some st) /\
  (forall m, m ∈ bad' <-> m ∈ bad \/ exists h, branch h /\ m ∈ knowers s (mkInv type h)) /\
  (forall p h, waits (orphans s' type) p h -> ~ branch p) /\
  (forall p h, waits (orphans s type) p h -> ~ branch p -> h <> hash -> waits (orphans s' type) p h).
Proof.
  destruct (RemoveBranch_spec (orphans s type) hash) as (v & o & E & _ & Hv & Ho).
  assert (Hbr : forall h, rtc (waits (orphans s type)) hash h <-> h ∈ hash :: v) by (intros h; rewrite rtc_tc, elem_of_cons, Hv; naive_solver).
  destruct (Invalidate_list type s hash bad v o E) as (s' & bad' & E' & Hs & Hb & H1 & H2). cbv zeta. exists s', bad'.
  setoid_rewrite Hbr. split; [done|]. split; [|split; [|split; [done|split]]].
  - intros inv. rewrite Hs. case_decide; tauto.
  - intros inv st. rewrite Hs. by case_decide.
  - intros p h Hw. apply H1 in Hw. rewrite Ho in Hw. apply list_elem_of_filter in Hw. cbn in Hw. rewrite elem_of_cons. tauto.
  - intros p h Hw Hp Hne. apply H2; [|done]. rewrite Ho. apply list_elem_of_filter. cbn. rewrite elem_of_cons in Hp. tauto.
Qed.

(** *** A small schedule *)

(** Peers 5 and 6 announce block 7, and peer 5 is asked for it. *)
Definition block7 : CInv := mkInv MSG_BLOCK 7.

Definition announced : CSchedule := Schedule.AddNewInv (Schedule.AddNewInv Schedule.init block7 5) block7 6.

Definition asked : CSchedule := (ScheduleBlockInv announced 5 [] 16).2.

Lemma announced_reachable : reachable announced.
Proof. eapply rtc_l; [apply (step_add _ block7 5)|]. apply rtc_once, step_add. Qed.

Lemma asked_reachable : reachable asked.
Proof. eapply rtc_r; [apply announced_reachable|]. by apply (step_schedule_block _ 5 [] 16). Qed.

Example schedule_consistent_witness :
  reachable asked /\ 7 ∈ Asked asked 5 MSG_BLOCK /\ 7 ∈ Known asked 5 MSG_BLOCK.
Proof.
  assert (H : 7 ∈ Asked asked 5 MSG_BLOCK) by by vm_compute.
  split; [apply asked_reachable|]. split; [done|].
  destruct (schedule_consistent asked asked_reachable) as (_ & Hone & _). apply (Hone 5 5 MSG_BLOCK 7 H H).
Defined.

Example RemovePeer_reassigns_witness :
  mapState (RemovePeer asked 5 ∅).1 !! block7 = Some (mkInvState 0 ObjNil {[6]}) /\ 6 ∈ (RemovePeer asked 5 ∅).2.
Proof.
  pose proof (RemovePeer_reassigns asked 5 ∅ asked_reachable ltac:(done)) as H.
  destruct (RemovePeer asked 5 ∅) as [s' sched']. destruct H as (_ & _ & _ & _ & H & _ & Hs). cbn [fst snd].
  assert (E0 : mapState asked !! block7 = Some (mkInvState 5 ObjNil {[5; 6]})) by (by vm_compute).
  split; [rewrite (H block7 _ 6 E0); [by vm_compute|set_solver|done|done]|].
  apply Hs. right. split; [done|]. exists block7, (mkInvState 5 ObjNil {[5; 6]}). split; [exact E0|]. split; [done|set_solver].
Defined.

Example ScheduleKnownInv_spec_witness :
  (ScheduleKnownInv announced 6 MSG_BLOCK 16).1.2 = [block7].
Proof.
  pose proof (ScheduleKnownInv_spec announced 6 MSG_BLOCK 16 announced_reachable ltac:(done)) as H.
  destruct (ScheduleKnownInv announced 6 MSG_BLOCK 16) as [[[ok all] vInv] s']. destruct H as (H & _). rewrite H. by vm_compute.
Defined.

(** A block that the node itself hands over before anyone is asked for it is
    kept with no peer assigned. The next peer is asked for it again; its answer
    is refused, and the peer stays busy. *)
Lemma inner_block_asked_again (block : CBlock) :
  let s := (ReceiveBlock announced SUPERNODE_INNER_NONCE 7 block ∅).1.2 in
  let '(_, _, _, vInv, s') := ScheduleBlockInv s 5 [] 16 in
  GetBlock s 7 = Return (Some (block, 0)) /\ vInv = [block7] /\ (ReceiveBlock s' 5 7 block ∅).1.1 = false /\
  IsAssigned (peer_of (ReceiveBlock s' 5 7 block ∅).1.2 5) = true.
Proof. by vm_compute. Qed.

(** A transaction with two missing parents keeps its place under the second one
    when the first is invalidated, though the transaction itself is dropped. *)
Lemma invalid_tx_stays_orphan :
  let s := AddOrphanTxPrev (AddOrphanTxPrev (Schedule.AddNewInv Schedule.init (mkInv MSG_TX 3) 5) 3 1) 3 2 in
  exists s' bad, InvalidateTx s 1 ∅ = Some (s', bad) /\ Exists s' (mkInv MSG_TX 3) = false /\ Orphan.GetNext (orphanTx s') 2 = [3].
Proof. eexists _, _. by vm_compute. Qed.

End ScheduleOk.
