(* ===== verification/Template.v ===== *)
(** * Templates: addresses that are spending conditions
    (src/common/template/, the signature checks of src/common/destination.cpp,
    src/crypto/key.cpp)

    A template is created from its type and the bytes of its parameters; its
    id is the hash of those bytes above the type, and a destination with the
    template prefix holds that id.  To spend from it the signature starts with
    the parameters: they are parsed, hashed and compared with the id, and the
    rest of the signature is checked against the condition the parameters
    state, which may refer to another destination.

    The static prototypes of [setTypeInfo] are the constructors of
    [CTemplateParam]; [dynamic_cast] to one of the marker classes of
    catagory.h is a test on the constructor.  The result of a check is
    [outcome]: [Undefined] where the source would leave a vector. *)

From S2P Require Import Prelude Stream Destination Base25519 SC25519 Crypto.
Import DataStream.

Definition TEMPLATE_MIN : Z := 0.
Definition TEMPLATE_WEIGHTED : Z := 1.
Definition TEMPLATE_MULTISIG : Z := 2.
Definition TEMPLATE_FORK : Z := 3.
Definition TEMPLATE_PROOF : Z := 4.
Definition TEMPLATE_DELEGATE : Z := 5.
Definition TEMPLATE_MAX : Z := 6.

(** The parameters of the concrete templates *)
Inductive CTemplateParam : Type :=
  | CTemplateWeighted (nRequired : Z) (mapPubKeyWeight : gmap Z Z)
  | CTemplateMultiSig (nRequired : Z) (mapPubKeyWeight : gmap Z Z)
  | CTemplateFork (destRedeem : CDestination) (hashFork : Z)
  | CTemplateProof (keyMint : Z) (destSpend : CDestination)
  | CTemplateDelegate (keyDelegate : Z) (destOwner : CDestination).

(** A [CTemplate] object after [BuildTemplateData] and [BuildTemplateId] *)
Record CTemplate : Type := mkTemplate { t_param : CTemplateParam; t_nId : Z; t_vchData : list Z }.

Module Template.
Import Destination.

Definition MAX_KEY_NUMBER : nat := 16.
Definition MORTGAGE_BASE : Z := 10000000000.
Definition MORTGAGE_DECAY_CYCLE : Z := 525600.

(** The [nType] each constructor passes to [CTemplate] *)
Definition GetTemplateType (p : CTemplateParam) : Z :=
  match p with
  | CTemplateWeighted _ _ => TEMPLATE_WEIGHTED
  | CTemplateMultiSig _ _ => TEMPLATE_MULTISIG
  | CTemplateFork _ _ => TEMPLATE_FORK
  | CTemplateProof _ _ => TEMPLATE_PROOF
  | CTemplateDelegate _ _ => TEMPLATE_DELEGATE
  end.

Definition IsValidType (nType : Z) : bool := (TEMPLATE_MIN <? nType) && (nType <? TEMPLATE_MAX).

(** The test of [GetTypeInfoByType] and of the [dynamic_cast]s *)
Definition type_known (nType : Z) : bool := (TEMPLATE_WEIGHTED <=? nType) && (nType <=? TEMPLATE_DELEGATE).

Definition IsTxSpendable (dest : CDestination) : bool :=
  if IsPubKey dest then true
  else if IsTemplate dest then
    let nType := CTemplateId_GetType (GetTemplateId dest) in
    type_known nType && ((nType =? TEMPLATE_WEIGHTED) || (nType =? TEMPLATE_MULTISIG))
  else false.

Definition IsDestInRecorded (dest : CDestination) : bool :=
  if IsTemplate dest then
    let nType := CTemplateId_GetType (GetTemplateId dest) in
    type_known nType && (nType =? TEMPLATE_DELEGATE)
  else false.

Definition IsLockedCoin (dest : CDestination) : bool :=
  if IsTemplate dest then
    let nType := CTemplateId_GetType (GetTemplateId dest) in
    type_known nType && (nType =? TEMPLATE_FORK)
  else false.

(** [(int64)(MORTGAGE_BASE * pow(0.5, nForkHeight / MORTGAGE_DECAY_CYCLE))]:
    the power of two and the product are exact in a double, the conversion
    truncates. *)
Definition LockedCoin (nForkHeight : Z) : Z :=
  Z.shiftr MORTGAGE_BASE (nForkHeight ÷ MORTGAGE_DECAY_CYCLE).

(** [ValidateParam] of the concrete templates *)
Definition weighted_ValidateParam (nRequired : Z) (mapPubKeyWeight : gmap Z Z) : bool :=
  if nRequired =? 0 then false
  else if (size mapPubKeyWeight <=? 1)%nat || (MAX_KEY_NUMBER <? size mapPubKeyWeight)%nat then false
  else
    let weights := (CWalleveStream.map_entries Z.lt mapPubKeyWeight).*2 in
    if existsb (fun w => w =? 0) weights then false
    else negb (foldr Z.add 0 weights <? nRequired).

Definition fork_ValidateParam (destRedeem : CDestination) (hashFork : Z) : bool :=
  if negb (IsTxSpendable destRedeem) then false else if hashFork =? 0 then false else true.

Definition proof_ValidateParam (keyMint : Z) (destSpend : CDestination) : bool :=
  if keyMint =? 0 then false else if negb (IsTxSpendable destSpend) then false else true.

Definition delegate_ValidateParam (keyDelegate : Z) (destOwner : CDestination) : bool :=
  if keyDelegate =? 0 then false else if negb (IsTxSpendable destOwner) then false else true.

(** The virtual call *)
Definition ValidateParam (p : CTemplateParam) : bool :=
  match p with
  | CTemplateWeighted nRequired m | CTemplateMultiSig nRequired m => weighted_ValidateParam nRequired m
  | CTemplateFork destRedeem hashFork => fork_ValidateParam destRedeem hashFork
  | CTemplateProof keyMint destSpend => proof_ValidateParam keyMint destSpend
  | CTemplateDelegate keyDelegate destOwner => delegate_ValidateParam keyDelegate destOwner
  end.

(** [RecordDestIn] and [ParseDestIn] of [CDestInRecordedTemplate] *)
Definition RecordDestIn (destIn : CDestination) (vchPreSig : list Z) : list Z :=
  put dest_dcodec (prefix destIn, data destIn) ++ vchPreSig.

Definition ParseDestIn (vchSig : list Z) : outcome (option (CDestination * list Z)) :=
  match get dest_dcodec vchSig with
  | Return ((p, d), _) =>
      if (length vchSig <? Z.to_nat DESTINATION_SIZE)%nat then Undefined
      else Return (Some (mkDest p d, drop (Z.to_nat DESTINATION_SIZE) vchSig))
  | Throw _ => Return None
  | Undefined => Undefined
  end.

Section template.
Context (CryptoHash : list Z -> Z) (verify_detached : list Z -> list Z -> Z -> bool) `{IEdwards}.
(** The width of [WeightedMap::size_type], which the allocator of weighted.h
    leaves to the library *)
Context (size_type : nat).

(** [CPubKey::Verify] *)
Definition PubKey_Verify (pubkey hash : Z) (vchSig : list Z) : bool :=
  Crypto.CryptoVerify verify_detached pubkey (le_split 8 32 hash) vchSig.

Definition weighted_dcodec : dcodec (Z * gmap Z Z) :=
  d_pair (d_uint 1) (d_map Z.lt size_type (d_uint 32) (d_uint 1)).

Definition fork_dcodec : dcodec (Z * Z * Z) := d_pair dest_dcodec (d_uint 32).

Definition key_dest_dcodec : dcodec (Z * (Z * Z)) := d_pair (d_uint 32) dest_dcodec.

(** [BuildTemplateData] of the concrete templates *)
Definition weighted_BuildTemplateData (nRequired : Z) (mapPubKeyWeight : gmap Z Z) : list Z :=
  put weighted_dcodec (nRequired, mapPubKeyWeight).

Definition fork_BuildTemplateData (destRedeem : CDestination) (hashFork : Z) : list Z :=
  put fork_dcodec (prefix destRedeem, data destRedeem, hashFork).

Definition proof_BuildTemplateData (keyMint : Z) (destSpend : CDestination) : list Z :=
  put key_dest_dcodec (keyMint, (prefix destSpend, data destSpend)).

Definition delegate_BuildTemplateData (keyDelegate : Z) (destOwner : CDestination) : list Z :=
  put key_dest_dcodec (keyDelegate, (prefix destOwner, data destOwner)).

Definition BuildTemplateData (p : CTemplateParam) : list Z :=
  match p with
  | CTemplateWeighted nRequired m | CTemplateMultiSig nRequired m => weighted_BuildTemplateData nRequired m
  | CTemplateFork destRedeem hashFork => fork_BuildTemplateData destRedeem hashFork
  | CTemplateProof keyMint destSpend => proof_BuildTemplateData keyMint destSpend
  | CTemplateDelegate keyDelegate destOwner => delegate_BuildTemplateData keyDelegate destOwner
  end.

Definition BuildTemplateId (p : CTemplateParam) : Z :=
  CTemplateId (GetTemplateType p) (CryptoHash (BuildTemplateData p)).

(** The [try] block of [SetTemplateData]: an exception makes it fail. *)
Definition try_read {A} (f : A -> CTemplateParam) (o : outcome (A * list Z)) : outcome (option CTemplateParam) :=
  match o with
  | Return (a, _) => Return (Some (f a))
  | Throw _ => Return None
  | Undefined => Undefined
  end.

(** [SetTemplateData] of the concrete templates; the multisig template inherits
    that of the weighted one, [make] is its constructor. *)
Definition weighted_SetTemplateData (make : Z -> gmap Z Z -> CTemplateParam) (vchData : list Z)
    : outcome (option CTemplateParam) :=
  try_read (fun t => make t.1 t.2) (get weighted_dcodec vchData).

Definition fork_SetTemplateData (vchData : list Z) : outcome (option CTemplateParam) :=
  try_read (fun t => CTemplateFork (mkDest t.1.1 t.1.2) t.2) (get fork_dcodec vchData).

Definition proof_SetTemplateData (vchData : list Z) : outcome (option CTemplateParam) :=
  try_read (fun t => CTemplateProof t.1 (mkDest t.2.1 t.2.2)) (get key_dest_dcodec vchData).

Definition delegate_SetTemplateData (vchData : list Z) : outcome (option CTemplateParam) :=
  try_read (fun t => CTemplateDelegate t.1 (mkDest t.2.1 t.2.2)) (get key_dest_dcodec vchData).

(** [SetTemplateData] of the prototype [setTypeInfo] holds for [nType] *)
Definition SetTemplateData (nType : Z) (vchData : list Z) : outcome (option CTemplateParam) :=
  if nType =? TEMPLATE_WEIGHTED then weighted_SetTemplateData CTemplateWeighted vchData
  else if nType =? TEMPLATE_MULTISIG then weighted_SetTemplateData CTemplateMultiSig vchData
  else if nType =? TEMPLATE_FORK then fork_SetTemplateData vchData
  else if nType =? TEMPLATE_PROOF then proof_SetTemplateData vchData
  else if nType =? TEMPLATE_DELEGATE then delegate_SetTemplateData vchData
  else Return None.

Definition template_of (p : CTemplateParam) : CTemplate :=
  mkTemplate p (BuildTemplateId p) (BuildTemplateData p).

(** [CreateTemplatePtr(CTemplate ptr)] *)
Definition CreateTemplatePtr_param (p : CTemplateParam) : option CTemplate :=
  if ValidateParam p then Some (template_of p) else None.

(** [CreateTemplatePtr(nTypeIn,vchDataIn)] *)
Definition CreateTemplatePtr (nType : Z) (vchData : list Z) : outcome (option CTemplate) :=
  p ← SetTemplateData nType vchData;
  Return (p ≫= CreateTemplatePtr_param).

Definition Export (t : CTemplate) : list Z :=
  let nType := GetTemplateType (t_param t) in
  Z.land nType 0xff :: Z.shiftr nType 8 :: t_vchData t.

Definition Import (vchTemplate : list Z) : outcome (option CTemplate) :=
  match vchTemplate with
  | b0 :: b1 :: vchData => CreateTemplatePtr (Z.lor b0 (u16 (Z.shiftl b1 8))) vchData
  | _ => Return None
  end.

(** The vector [(vchSig.begin() + n, vchSig.end())] *)
Definition vec_from (vchSig : list Z) (n : nat) : outcome (list Z) :=
  if (length vchSig <? n)%nat then Undefined else Return (drop n vchSig).

(** [CTemplateWeighted::VerifyTxSignature]: the result and [fCompleted] *)
Definition weighted_verify (nRequired : Z) (mapPubKeyWeight : gmap Z Z) (hash hashAnchor : Z) (vchSig : list Z)
    (fCompleted : bool) : bool * bool :=
  match Crypto.CryptoMultiVerify CryptoHash (dom mapPubKeyWeight) (le_split 8 32 hashAnchor) (le_split 8 32 hash)
          vchSig ∅ with
  | (false, _) => (false, fCompleted)
  | (true, setPartKey) =>
      let nWeight := foldr Z.add 0 (map (fun key => default 0 (mapPubKeyWeight !! key)) (Crypto.set_list setPartKey)) in
      (true, nRequired <=? nWeight)
  end.

(** The other overrides of [VerifyTxSignature]; [verify] is
    [CDestination::VerifyTxSignature] for the same transaction. *)
Definition fork_verify (verify : CDestination -> list Z -> outcome (bool * bool)) (destRedeem : CDestination)
    (vchSig : list Z) : outcome (bool * bool) := verify destRedeem vchSig.

Definition proof_verify (verify : CDestination -> list Z -> outcome (bool * bool)) (destSpend : CDestination)
    (vchSig : list Z) : outcome (bool * bool) := verify destSpend vchSig.

Definition delegate_verify (verify : CDestination -> list Z -> outcome (bool * bool)) (keyDelegate nId : Z)
    (destTo : CDestination) (vchSig : list Z) : outcome (bool * bool) :=
  if GetTemplateId destTo =? nId then verify (of_pubkey keyDelegate) vchSig else verify destTo vchSig.

(** The virtual call *)
Definition template_verify (verify : CDestination -> list Z -> outcome (bool * bool)) (p : CTemplateParam) (nId : Z)
    (hash hashAnchor : Z) (destTo : CDestination) (vchSig : list Z) (fCompleted : bool) : outcome (bool * bool) :=
  match p with
  | CTemplateWeighted nRequired m | CTemplateMultiSig nRequired m =>
      Return (weighted_verify nRequired m hash hashAnchor vchSig fCompleted)
  | CTemplateFork destRedeem _ => fork_verify verify destRedeem vchSig
  | CTemplateProof _ destSpend => proof_verify verify destSpend vchSig
  | CTemplateDelegate keyDelegate _ => delegate_verify verify keyDelegate nId destTo vchSig
  end.

(** [CDestination::VerifyTxSignature] and [CTemplate::VerifyTxSignature] call
    each other with ever shorter signatures; [fuel] bounds the depth, and
    [S (length vchSig)] is always enough (theorem [VerifyTxSignature_total]). *)
Fixpoint verify_fuel (fuel : nat) (hash hashAnchor : Z) (destTo : CDestination) (fCompleted : bool)
    (dest : CDestination) (vchSig : list Z) : outcome (bool * bool) :=
  match fuel with
  | O => Undefined
  | S fuel =>
      if IsPubKey dest then
        let ok := PubKey_Verify (GetPubKey dest) hash vchSig in Return (ok, ok)
      else if IsTemplate dest then
        let nIdIn := GetTemplateId dest in
        ptr ← CreateTemplatePtr (CTemplateId_GetType nIdIn) vchSig;
        match ptr with
        | None => Return (false, fCompleted)
        | Some t =>
            if negb (t_nId t =? nIdIn) then Return (false, fCompleted)
            else
              vchSubSig ← vec_from vchSig (length (t_vchData t));
              template_verify (verify_fuel fuel hash hashAnchor destTo fCompleted)
                (t_param t) (t_nId t) hash hashAnchor destTo vchSubSig fCompleted
        end
      else Return (false, fCompleted)
  end.

Definition VerifyTxSignature_full (hash hashAnchor : Z) (destTo : CDestination) (fCompleted : bool)
    (dest : CDestination) (vchSig : list Z) : outcome (bool * bool) :=
  verify_fuel (S (length vchSig)) hash hashAnchor destTo fCompleted dest vchSig.

(** The overload without [fCompleted] *)
Definition VerifyTxSignature (dest : CDestination) (hash hashAnchor : Z) (destTo : CDestination)
    (vchSig : list Z) : outcome bool :=
  '(ok, fCompleted) ← VerifyTxSignature_full hash hashAnchor destTo false dest vchSig;
  Return (ok && fCompleted).

(** [CTemplate::BuildTxSignature]: the result, [vchSig] and [fCompleted] *)
Definition BuildTxSignature (t : CTemplate) (hash hashAnchor : Z) (destTo : CDestination) (vchPreSig : list Z)
    (fCompleted : bool) : outcome (bool * list Z * bool) :=
  '(ok, fCompleted) ← template_verify (VerifyTxSignature_full hash hashAnchor destTo fCompleted)
    (t_param t) (t_nId t) hash hashAnchor destTo vchPreSig fCompleted;
  if negb ok then Return (false, t_vchData t, fCompleted)
  else Return (true, t_vchData t ++ vchPreSig, fCompleted).

(** The key a minting template checks a block with *)
Definition mint_key (p : CTemplateParam) : option Z :=
  match p with
  | CTemplateProof keyMint _ => Some keyMint
  | CTemplateDelegate keyDelegate _ => Some keyDelegate
  | _ => None
  end.

(** [CTemplateMint::VerifyBlockSignature(nIdIn,hash,vchSig)] *)
Definition Mint_VerifyBlockSignature (nIdIn hash : Z) (vchSig : list Z) : outcome bool :=
  let nType := CTemplateId_GetType nIdIn in
  if negb (nType =? TEMPLATE_PROOF) && negb (nType =? TEMPLATE_DELEGATE) then Return false
  else
    ptr ← CreateTemplatePtr nType vchSig;
    match ptr with
    | None => Return false
    | Some t =>
        match mint_key (t_param t) with
        | None => Return false
        | Some key =>
            vchSubSig ← vec_from vchSig (length (t_vchData t));
            Return (PubKey_Verify key hash vchSubSig)
        end
    end.

(** [CTemplateMint::BuildBlockSignature]: the result and [vchSig] *)
Definition BuildBlockSignature (t : CTemplate) (hash : Z) (vchPreSig : list Z) : bool * list Z :=
  match mint_key (t_param t) with
  | Some key => if PubKey_Verify key hash vchPreSig then (true, t_vchData t ++ vchPreSig) else (false, t_vchData t)
  | None => (false, t_vchData t)
  end.

(** [CTemplateDelegate::BuildVssSignature]: the signature when it succeeds *)
Definition BuildVssSignature (t : CTemplate) (hash : Z) (vchVssSig : list Z) : option (list Z) :=
  match t_param t with
  | CTemplateDelegate keyDelegate _ =>
      if PubKey_Verify keyDelegate hash vchVssSig
      then Some (put dest_dcodec (PREFIX_TEMPLATE, t_nId t) ++ t_vchData t ++ vchVssSig)
      else None
  | _ => None
  end.

(** [CDestination::VerifyBlockSignature] *)
Definition VerifyBlockSignature (dest : CDestination) (hash : Z) (vchSig : list Z) : outcome bool :=
  if IsPubKey dest then Return (PubKey_Verify (GetPubKey dest) hash vchSig)
  else if IsTemplate dest then Mint_VerifyBlockSignature (GetTemplateId dest) hash vchSig
  else Return false.

(** [GetSignDestination] of the base class: the part of the signature that is
    the signers'; it is left as it was when there is no signature yet. *)
Definition base_GetSignDestination (t : CTemplate) (vchSig vchSubSig : list Z) : option (list Z) :=
  match vchSig with
  | [] => Some vchSubSig
  | _ => if (length vchSig <? length (t_vchData t))%nat then None else Some (drop (length (t_vchData t)) vchSig)
  end.

Definition weighted_GetSignDestination (t : CTemplate) (mapPubKeyWeight : gmap Z Z) (vchSig vchSubSig : list Z)
    : option (gset CDestination * list Z) :=
  sub ← base_GetSignDestination t vchSig vchSubSig; Some (set_map of_pubkey (dom mapPubKeyWeight), sub).

Definition fork_GetSignDestination (t : CTemplate) (destRedeem : CDestination) (vchSig vchSubSig : list Z)
    : option (gset CDestination * list Z) :=
  sub ← base_GetSignDestination t vchSig vchSubSig; Some ({[destRedeem]}, sub).

Definition proof_GetSignDestination (t : CTemplate) (destSpend : CDestination) (vchSig vchSubSig : list Z)
    : option (gset CDestination * list Z) :=
  sub ← base_GetSignDestination t vchSig vchSubSig; Some ({[destSpend]}, sub).

(** It returns before its body. *)
Definition delegate_GetSignDestination : option (gset CDestination * list Z) := None.

(** The destinations whose signatures are needed, and the part of the
    signature that is theirs *)
Definition GetSignDestination (t : CTemplate) (vchSig vchSubSig : list Z) : option (gset CDestination * list Z) :=
  match t_param t with
  | CTemplateWeighted _ m | CTemplateMultiSig _ m => weighted_GetSignDestination t m vchSig vchSubSig
  | CTemplateFork destRedeem _ => fork_GetSignDestination t destRedeem vchSig vchSubSig
  | CTemplateProof _ destSpend => proof_GetSignDestination t destSpend vchSig vchSubSig
  | CTemplateDelegate _ _ => delegate_GetSignDestination
  end.

(** ** Reading and writing the parameters *)

Definition param_wf (p : CTemplateParam) : Prop :=
  match p with
  | CTemplateWeighted nRequired m | CTemplateMultiSig nRequired m => dvalid weighted_dcodec (nRequired, m)
  | CTemplateFork destRedeem hashFork => dvalid fork_dcodec (prefix destRedeem, data destRedeem, hashFork)
  | CTemplateProof key dest | CTemplateDelegate key dest => dvalid key_dest_dcodec (key, (prefix dest, data dest))
  end.

#[local] Instance weighted_dcodec_ok : DCodecOk weighted_dcodec := _.
#[local] Instance weighted_dcodec_get : DCodecGet weighted_dcodec := _.
#[local] Instance fork_dcodec_ok : DCodecOk fork_dcodec := _.
#[local] Instance fork_dcodec_get : DCodecGet fork_dcodec := _.
#[local] Instance key_dest_dcodec_ok : DCodecOk key_dest_dcodec := _.
#[local] Instance key_dest_dcodec_get : DCodecGet key_dest_dcodec := _.

Lemma try_read_spec {A} (c : dcodec A) (f : A -> CTemplateParam) s `{!DCodecGet c} :
  match try_read f (get c s) with
  | Return (Some p) => exists a, p = f a /\ (length (put c a) <= length s)%nat /\ (Forall (is_uint 8) s -> dvalid c a)
  | Return None => True
  | _ => False
  end.
Proof.
  pose proof (get_read (c := c) s) as Hr. destruct (get c s) as [[a rest]| |]; simpl; [|done|done].
  destruct Hr as [Hl Hv]. exists a. split; [done|]. split; [lia|]. intros Hs. by apply Hv.
Qed.

(** The data of a template is never empty. *)
Lemma BuildTemplateData_pos p : (0 < length (BuildTemplateData p))%nat.
Proof.
  destruct p; cbn [BuildTemplateData weighted_BuildTemplateData fork_BuildTemplateData proof_BuildTemplateData
    delegate_BuildTemplateData put d_pair weighted_dcodec fork_dcodec key_dest_dcodec dest_dcodec d_uint];
    rewrite ?length_app, ?length_le_split; simpl; rewrite ?length_le_split; lia.
Qed.

(** Reading parameters from any bytes: no undefined behaviour, the parameters
    have the type asked for and were read from no more bytes than they are
    written with. *)
Lemma SetTemplateData_read nType s :
  match SetTemplateData nType s with
  | Return (Some p) => GetTemplateType p = nType /\ (length (BuildTemplateData p) <= length s)%nat /\
      (Forall (is_uint 8) s -> param_wf p)
  | Return None => True
  | _ => False
  end.
Proof.
  unfold SetTemplateData, weighted_SetTemplateData, fork_SetTemplateData, proof_SetTemplateData, delegate_SetTemplateData.
  repeat case_match_eqn; bool_to_prop; subst; try done;
  match goal with
  | E : try_read ?f (get ?c ?s) = _ |- _ =>
      pose proof (try_read_spec c f s) as Hr; rewrite E in Hr; try done;
      destruct Hr as ([[? ?] ?] & -> & Hl & Hv) || destruct Hr as ([? [? ?]] & -> & Hl & Hv) ||
      destruct Hr as ([? ?] & -> & Hl & Hv); done
  end.
Qed.

Lemma SetTemplateData_build p rest :
  param_wf p -> SetTemplateData (GetTemplateType p) (BuildTemplateData p ++ rest) = Return (Some p).
Proof.
  intros Hp. unfold SetTemplateData, weighted_SetTemplateData, fork_SetTemplateData, proof_SetTemplateData,
    delegate_SetTemplateData. destruct p as [r m|r m|[pf d] h|k [pf d]|k [pf d]];
    cbn [GetTemplateType BuildTemplateData param_wf] in *;
    unfold weighted_BuildTemplateData, fork_BuildTemplateData, proof_BuildTemplateData, delegate_BuildTemplateData;
    rewrite get_put by done; done.
Qed.

Lemma BuildTemplateData_inj p q :
  param_wf p -> param_wf q -> GetTemplateType p = GetTemplateType q -> BuildTemplateData p = BuildTemplateData q -> p = q.
Proof.
  intros Hp Hq Ht E. pose proof (SetTemplateData_build p [] Hp) as E1.
  rewrite Ht, E, (SetTemplateData_build q [] Hq) in E1. congruence.
Qed.

Lemma CreateTemplatePtr_read nType s :
  exists r, CreateTemplatePtr nType s = Return r /\
    forall t, r = Some t -> t = template_of (t_param t) /\ GetTemplateType (t_param t) = nType /\
      (0 < length (t_vchData t) <= length s)%nat /\ (Forall (is_uint 8) s -> param_wf (t_param t)) /\
      ValidateParam (t_param t) = true.
Proof.
  unfold CreateTemplatePtr. pose proof (SetTemplateData_read nType s) as Hr.
  destruct (SetTemplateData nType s) as [[p|]| |]; cbn [mbind outcome_bind]; [|by eexists|done|done].
  eexists. split; [reflexivity|]. intros t Ht. simpl in Ht. unfold CreateTemplatePtr_param in Ht.
  destruct (ValidateParam p) eqn:Ev; [|done]. injection Ht as <-. cbn [t_param t_vchData template_of].
  pose proof (BuildTemplateData_pos p). split_and!; naive_solver lia.
Qed.

Lemma CreateTemplatePtr_build p rest :
  param_wf p -> ValidateParam p = true ->
  CreateTemplatePtr (GetTemplateType p) (BuildTemplateData p ++ rest) = Return (Some (template_of p)).
Proof.
  intros Hp Hv. unfold CreateTemplatePtr. rewrite SetTemplateData_build by done. cbn [mbind outcome_bind].
  simpl. unfold CreateTemplatePtr_param. by rewrite Hv.
Qed.

(** ** The recursion ends *)

Lemma verify_fuel_enough n m hash hashAnchor destTo fC dest sig :
  (length sig < n)%nat -> (length sig < m)%nat ->
  exists r, verify_fuel n hash hashAnchor destTo fC dest sig = Return r /\
            verify_fuel m hash hashAnchor destTo fC dest sig = Return r.
Proof.
  revert m dest sig. induction n as [|n IH]; intros m dest sig Hn Hm; [lia|]. destruct m as [|m]; [lia|].
  cbn [verify_fuel]. destruct (IsPubKey dest); [by eexists|]. destruct (IsTemplate dest); [|by eexists].
  destruct (CreateTemplatePtr_read (CTemplateId_GetType (GetTemplateId dest)) sig) as (r & -> & Hr).
  cbn [mbind outcome_bind]. destruct r as [t|]; [|by eexists]. destruct (Hr t eq_refl) as (_ & _ & Hl & _).
  destruct (negb _); [by eexists|]. unfold vec_from. rewrite (proj2 (Nat.ltb_ge _ _)) by lia. cbn [mbind outcome_bind].
  unfold template_verify, fork_verify, proof_verify, delegate_verify. repeat case_match; try (by eexists); apply IH; rewrite length_drop; lia.
Qed.

Lemma VerifyTxSignature_fuel n hash hashAnchor destTo fC dest sig :
  (length sig < n)%nat ->
  verify_fuel n hash hashAnchor destTo fC dest sig = VerifyTxSignature_full hash hashAnchor destTo fC dest sig.
Proof.
  intros Hn. destruct (verify_fuel_enough n (S (length sig)) hash hashAnchor destTo fC dest sig) as (r & E1 & E2);
    [lia|lia|]. unfold VerifyTxSignature_full. congruence.
Qed.

(** The call of a template's check through [CDestination::VerifyTxSignature] *)
Lemma VerifyTxSignature_template hash hashAnchor destTo fC nId sig :
  VerifyTxSignature_full hash hashAnchor destTo fC (of_templateid nId) sig =
  ptr ← CreateTemplatePtr (CTemplateId_GetType nId) sig;
  match ptr with
  | None => Return (false, fC)
  | Some t =>
      if negb (t_nId t =? nId) then Return (false, fC)
      else template_verify (VerifyTxSignature_full hash hashAnchor destTo fC) (t_param t) (t_nId t)
             hash hashAnchor destTo (drop (length (t_vchData t)) sig) fC
  end.
Proof.
  unfold VerifyTxSignature_full at 1. cbn [verify_fuel].
  change (IsPubKey (of_templateid nId)) with false. change (IsTemplate (of_templateid nId)) with true.
  change (GetTemplateId (of_templateid nId)) with nId. cbv iota zeta.
  destruct (CreateTemplatePtr_read (CTemplateId_GetType nId) sig) as (r & -> & Hr). cbn [mbind outcome_bind].
  destruct r as [t|]; [|done]. destruct (Hr t eq_refl) as (_ & _ & Hl & _).
  destruct (negb _); [done|]. unfold vec_from. rewrite (proj2 (Nat.ltb_ge _ _)) by lia. cbn [mbind outcome_bind].
  unfold template_verify, fork_verify, proof_verify, delegate_verify. repeat case_match; try done; apply VerifyTxSignature_fuel; rewrite length_drop; lia.
Qed.

Lemma BuildTemplateId_type p : CTemplateId_GetType (BuildTemplateId p) = GetTemplateType p.
Proof.
  unfold BuildTemplateId. apply CTemplateId_type. destruct p; split; (discriminate || reflexivity).
Qed.

Lemma drop_data p rest : drop (length (BuildTemplateData p)) (BuildTemplateData p ++ rest) = rest.
Proof. apply drop_app_length. Qed.

(** What the check of a template's own id amounts to on the template's data *)
Lemma VerifyTxSignature_own p hash hashAnchor destTo fC rest :
  param_wf p -> ValidateParam p = true ->
  VerifyTxSignature_full hash hashAnchor destTo fC (of_templateid (BuildTemplateId p)) (BuildTemplateData p ++ rest) =
  template_verify (VerifyTxSignature_full hash hashAnchor destTo fC) p (BuildTemplateId p) hash hashAnchor destTo rest fC.
Proof.
  intros Hp Hv. rewrite VerifyTxSignature_template, BuildTemplateId_type, CreateTemplatePtr_build by done.
  cbn [mbind outcome_bind]. cbn [t_nId t_param t_vchData template_of]. rewrite Z.eqb_refl, drop_data. done.
Qed.

(** What the check of a minting template amounts to, whatever its id *)
Lemma Mint_VerifyBlockSignature_data p nIdIn hash key rest :
  param_wf p -> ValidateParam p = true -> mint_key p = Some key ->
  CTemplateId_GetType nIdIn = GetTemplateType p ->
  Mint_VerifyBlockSignature nIdIn hash (BuildTemplateData p ++ rest) = Return (PubKey_Verify key hash rest).
Proof.
  intros Hp Hv Hk Ht. unfold Mint_VerifyBlockSignature. rewrite Ht, CreateTemplatePtr_build by done.
  replace (negb (GetTemplateType p =? TEMPLATE_PROOF) && negb (GetTemplateType p =? TEMPLATE_DELEGATE))
    with false by (destruct p; done).
  cbn [mbind outcome_bind]. cbn [t_param t_vchData template_of]. rewrite Hk.
  unfold vec_from. rewrite length_app, (proj2 (Nat.ltb_ge _ _)) by lia. cbn [mbind outcome_bind].
  by rewrite drop_data.
Qed.

Lemma Mint_VerifyBlockSignature_total nIdIn hash sig : exists ok, Mint_VerifyBlockSignature nIdIn hash sig = Return ok.
Proof.
  unfold Mint_VerifyBlockSignature. destruct (_ && _); [by eexists|].
  destruct (CreateTemplatePtr_read (CTemplateId_GetType nIdIn) sig) as (r & -> & Hr). cbn [mbind outcome_bind].
  destruct r as [t|]; [|by eexists]. destruct (Hr t eq_refl) as (_ & _ & Hl & _).
  destruct (mint_key _); [|by eexists]. unfold vec_from. rewrite (proj2 (Nat.ltb_ge _ _)) by lia. by eexists.
Qed.

Lemma VerifyTxSignature_returns dest hash hashAnchor destTo sig :
  exists ok, VerifyTxSignature dest hash hashAnchor destTo sig = Return ok.
Proof.
  unfold VerifyTxSignature, VerifyTxSignature_full.
  destruct (verify_fuel_enough (S (length sig)) (S (length sig)) hash hashAnchor destTo false dest sig)
    as ([ok c] & -> & _); [lia|lia|]. by eexists.
Qed.

Lemma VerifyBlockSignature_returns dest hash sig : exists ok, VerifyBlockSignature dest hash sig = Return ok.
Proof.
  unfold VerifyBlockSignature. destruct (IsPubKey dest); [by eexists|].
  destruct (IsTemplate dest); [apply Mint_VerifyBlockSignature_total|by eexists].
Qed.

(** A signature accepted for a template starts with the template's data. *)
Lemma VerifyTxSignature_created dest hash hashAnchor destTo sig :
  IsTemplate dest = true -> VerifyTxSignature dest hash hashAnchor destTo sig = Return true ->
  exists t, CreateTemplatePtr (CTemplateId_GetType (GetTemplateId dest)) sig = Return (Some t) /\
    t_nId t = GetTemplateId dest.
Proof.
  intros Ht. unfold VerifyTxSignature, VerifyTxSignature_full. cbn [verify_fuel].
  assert (IsPubKey dest = false) as -> by (unfold IsPubKey, IsTemplate in *; apply Z.eqb_eq in Ht; by rewrite Ht).
  rewrite Ht. destruct (CreateTemplatePtr_read (CTemplateId_GetType (GetTemplateId dest)) sig) as (r & -> & _).
  cbn [mbind outcome_bind]. destruct r as [t|]; [|done]. destruct (Z.eqb_spec (t_nId t) (GetTemplateId dest)); [|done].
  eauto.
Qed.

End template.

Lemma ParseDestIn_returns sig : exists r, ParseDestIn sig = Return r.
Proof.
  unfold ParseDestIn. pose proof (get_read (c := dest_dcodec) sig) as Hr.
  destruct (get dest_dcodec sig) as [[[p d] rest]| |]; [|by eexists|done]. destruct Hr as [Hl _].
  unfold dest_dcodec in Hl. cbn [put d_pair d_uint fst snd] in Hl. rewrite length_app, !length_le_split in Hl.
  change (Z.to_nat DESTINATION_SIZE) with 33%nat. rewrite (proj2 (Nat.ltb_ge _ _)) by lia. by eexists.
Qed.

Lemma LockedCoin_range h : 0 <= h -> 0 <= LockedCoin h <= MORTGAGE_BASE.
Proof.
  intros Hh. unfold LockedCoin. assert (0 <= h ÷ MORTGAGE_DECAY_CYCLE) by (apply Z.quot_pos; [done|]; unfold MORTGAGE_DECAY_CYCLE; lia).
  rewrite Z.shiftr_div_pow2 by done. unfold MORTGAGE_BASE. split; [apply Z.div_pos; lia|].
  apply Z.div_le_upper_bound; [lia|]. nia.
Qed.

(** ** Properties *)

(** checking a signature always gives an answer: whatever the destination
    and the bytes of the signature are, the mutual recursion of
    [CDestination::VerifyTxSignature] and the templates ends, no read leaves
    the signature vector, and so does the check of a block signature. *)
Theorem VerifyTxSignature_total (CryptoHash : list Z -> Z) (verify_detached : list Z -> list Z -> Z -> bool)
    `{IEdwards} (size_type : nat) (dest destTo : CDestination) (hash hashAnchor : Z) (vchSig : list Z) :
  (exists ok, VerifyTxSignature CryptoHash verify_detached size_type dest hash hashAnchor destTo vchSig = Return ok) /\
  (exists ok, VerifyBlockSignature CryptoHash verify_detached size_type dest hash vchSig = Return ok).
Proof.
  split; [apply VerifyTxSignature_returns|apply VerifyBlockSignature_returns].
Qed.

(** a template survives its export: importing what [Export] wrote of a
    template with valid parameters gives the same parameters, id and data. *)
Theorem Import_Export (CryptoHash : list Z -> Z) (size_type : nat) (p : CTemplateParam) :
  param_wf size_type p -> ValidateParam p = true ->
  Import CryptoHash size_type (Export (template_of CryptoHash size_type p)) =
    Return (Some (template_of CryptoHash size_type p)).
Proof.
  intros Hp Hv. unfold Export, Import. cbn [t_param t_vchData template_of].
  assert (E : Z.lor (Z.land (GetTemplateType p) 255) (u16 (Z.shiftl (Z.shiftr (GetTemplateType p) 8) 8)) = GetTemplateType p)
    by (destruct p; reflexivity).
  rewrite E. rewrite <- (app_nil_r (BuildTemplateData size_type p)) at 1. by apply CreateTemplatePtr_build.
Qed.

Definition sample_weights : gmap Z Z := <[7 := 2]> (<[9 := 1]> ∅).

Lemma Import_Export_witness :
  let t := template_of (fun l => le_combine 8 (take 32 l)) 8 (CTemplateWeighted 3 sample_weights) in
  length (Export t) = 77%nat /\ Import (fun l => le_combine 8 (take 32 l)) 8 (Export t) = Return (Some t).
Proof.
  split; [vm_compute; reflexivity|]. apply Import_Export; [|vm_compute; reflexivity].
  apply (bool_decide_unpack _). vm_compute. exact I.
Defined.

Section properties.
Context (CryptoHash : list Z -> Z) (verify_detached : list Z -> list Z -> Z -> bool) `{IEdwards} (size_type : nat).

(** C35: a signature a template builds is accepted from it: when
    [BuildTxSignature] of a template with valid parameters succeeds, the check
    of the signature against the template's address succeeds with the same
    [fCompleted]. *)
Theorem BuildTxSignature_verifies (p : CTemplateParam) (hash hashAnchor : Z) (destTo : CDestination)
    (vchPreSig vchSig : list Z) (fC fC' : bool) :
  param_wf size_type p -> ValidateParam p = true ->
  BuildTxSignature CryptoHash verify_detached size_type (template_of CryptoHash size_type p) hash hashAnchor destTo
    vchPreSig fC = Return (true, vchSig, fC') ->
  VerifyTxSignature_full CryptoHash verify_detached size_type hash hashAnchor destTo fC
    (of_templateid (BuildTemplateId CryptoHash size_type p)) vchSig = Return (true, fC').
Proof.
  intros Hp Hv. unfold BuildTxSignature. cbn [t_param t_nId t_vchData template_of].
  destruct (template_verify _ _ _ _ _ _ _ _ _) as [[ok c]| |] eqn:E; cbn [mbind outcome_bind]; [|done|done].
  destruct ok; cbn [negb]; [|done]. intros [= <- <-]. rewrite VerifyTxSignature_own by done. exact E.
Qed.

(** What the rest [sub] of a signature behind the data of the template has to
    prove: participants whose weights reach the required weight (weighted,
    multisig), the redeem destination (fork), the spend destination (mint proof).
    For a delegate it is the delegate key if the coins go to the template itself,
    and otherwise the recipient of the coins; the owner is never asked. *)
Definition spend_condition (p : CTemplateParam) (hash hashAnchor : Z) (destTo : CDestination) (sub : list Z) : Prop :=
  let accepted dest := VerifyTxSignature CryptoHash verify_detached size_type dest hash hashAnchor destTo sub = Return true in
  match p with
  | CTemplateWeighted nRequired m | CTemplateMultiSig nRequired m =>
      exists part, Crypto.CryptoMultiVerify CryptoHash (dom m) (le_split 8 32 hashAnchor) (le_split 8 32 hash) sub ∅ =
          (true, part) /\
        nRequired <= foldr Z.add 0 (map (fun key => default 0 (m !! key)) (Crypto.set_list part))
  | CTemplateFork destRedeem _ => accepted destRedeem
  | CTemplateProof _ destSpend => accepted destSpend
  | CTemplateDelegate keyDelegate _ =>
      if GetTemplateId destTo =? BuildTemplateId CryptoHash size_type p then accepted (of_pubkey keyDelegate) else accepted destTo
  end.

Lemma template_verify_condition p hash hashAnchor destTo sub :
  ('(ok, c) ← template_verify CryptoHash (VerifyTxSignature_full CryptoHash verify_detached size_type hash hashAnchor destTo false) p
      (BuildTemplateId CryptoHash size_type p) hash hashAnchor destTo sub false; Return (ok && c)) = Return true <->
  spend_condition p hash hashAnchor destTo sub.
Proof.
  unfold template_verify, spend_condition, weighted_verify, fork_verify, proof_verify, delegate_verify, VerifyTxSignature.
  assert (Hw : forall nRequired (m : gmap Z Z), ('(ok, c) ← Return (match Crypto.CryptoMultiVerify CryptoHash (dom m) (le_split 8 32 hashAnchor) (le_split 8 32 hash) sub ∅ with
      | (true, part) => (true, nRequired <=? foldr Z.add 0 (map (fun key => default 0 (m !! key)) (Crypto.set_list part)))
      | (false, _) => (false, false) end); Return (ok && c)) = Return true <->
    exists part, Crypto.CryptoMultiVerify CryptoHash (dom m) (le_split 8 32 hashAnchor) (le_split 8 32 hash) sub ∅ = (true, part) /\
      nRequired <= foldr Z.add 0 (map (fun key => default 0 (m !! key)) (Crypto.set_list part))).
  { intros nR m. destruct (Crypto.CryptoMultiVerify _ _ _ _ _ _) as [[] part]; cbn [mbind outcome_bind andb]; [|naive_solver].
    split; [intros [= E%Z.leb_le]; by exists part|]. intros (? & [= <-] & E). f_equal. by apply Z.leb_le. }
  destruct p as [nR m|nR m|d h|k d|k d]; [apply Hw|apply Hw|done|done|]. by destruct (_ =? _).
Qed.

(** C34: what a signature has to prove to spend from a template address.  If the
    check accepts, and the parameters the signature carries do not collide with
    the template's own under the id, then the rest of the signature behind the
    data of the template fulfils [spend_condition]: enough weight of the keys
    (weighted, multisig), the redeem destination (fork), the spend destination
    (mint proof); for a delegate template the delegate key if the coins stay in
    the template, else the signature of whoever receives them, not the owner's.
    Conversely, the data of a valid template followed by anything that fulfils
    the condition is accepted. *)
Theorem template_spend_condition (p : CTemplateParam) (hash hashAnchor : Z) (destTo : CDestination) (vchSig : list Z) :
  param_wf size_type p -> Forall (is_uint 8) vchSig ->
  (forall q, SetTemplateData size_type (GetTemplateType p) vchSig = Return (Some q) ->
     BuildTemplateId CryptoHash size_type q = BuildTemplateId CryptoHash size_type p ->
     BuildTemplateData size_type q = BuildTemplateData size_type p) ->
  let dest := of_templateid (BuildTemplateId CryptoHash size_type p) in
  (VerifyTxSignature CryptoHash verify_detached size_type dest hash hashAnchor destTo vchSig = Return true ->
   spend_condition p hash hashAnchor destTo (drop (length (BuildTemplateData size_type p)) vchSig)) /\
  (forall sub, ValidateParam p = true -> spend_condition p hash hashAnchor destTo sub ->
   VerifyTxSignature CryptoHash verify_detached size_type dest hash hashAnchor destTo (BuildTemplateData size_type p ++ sub) = Return true).
Proof.
  intros Hp Hb Hcol dest. split.
  - subst dest. unfold VerifyTxSignature at 1. rewrite VerifyTxSignature_template, BuildTemplateId_type.
    destruct (CreateTemplatePtr_read CryptoHash size_type (GetTemplateType p) vchSig) as (r & Er & Hr).
    rewrite Er. cbn [mbind outcome_bind]. destruct r as [t|]; [|done].
    destruct (Hr t eq_refl) as (Ht & Hty & Hl & Hwf & _). destruct (Z.eqb_spec (t_nId t)
      (BuildTemplateId CryptoHash size_type p)) as [Eid|]; cbn [negb]; [|done].
    assert (t_param t = p) as Ep.
    { apply (BuildTemplateData_inj size_type); [by apply Hwf|done|done|]. apply Hcol; [|by rewrite Ht in Eid].
      unfold CreateTemplatePtr in Er. destruct (SetTemplateData size_type (GetTemplateType p) vchSig) as [[q|]| |];
        [|done|done|done]. cbn [mbind outcome_bind option_bind] in Er. unfold CreateTemplatePtr_param in Er.
      destruct (ValidateParam q); [|done]. injection Er as <-. done. }
    rewrite Ht. cbn [t_param t_nId t_vchData template_of]. rewrite Ep. apply template_verify_condition.
  - intros sub Hv Hs. unfold dest, VerifyTxSignature. rewrite VerifyTxSignature_own by done. by apply template_verify_condition.
Qed.

End properties.

(** A fork template redeemed by a public key, a hash that keeps 32 bytes and a
    signature scheme that accepts 64 bytes *)
Definition sample_hash (l : list Z) : Z := le_combine 8 (take 32 l).

Definition sample_verify (sig md : list Z) (pubkey : Z) : bool := bool_decide (take 32 sig = le_split 8 32 pubkey).

Definition sample_fork : CTemplateParam := CTemplateFork (of_pubkey 5) 7.

Definition sample_sig (pubkey : Z) : list Z := le_split 8 64 pubkey.

Lemma sample_fork_wf : param_wf 8 sample_fork.
Proof. apply (bool_decide_unpack _). vm_compute. exact I. Qed.

Lemma BuildTxSignature_verifies_witness :
  @VerifyTxSignature_full sample_hash sample_verify Crypto.toy_curve 8 1 2 (of_pubkey 9) false
    (of_templateid (BuildTemplateId sample_hash 8 sample_fork)) (BuildTemplateData 8 sample_fork ++ sample_sig 5) =
  Return (true, true).
Proof.
  apply (@BuildTxSignature_verifies sample_hash sample_verify Crypto.toy_curve 8 sample_fork 1 2 (of_pubkey 9) (sample_sig 5)).
  - apply sample_fork_wf.
  - reflexivity.
  - vm_compute. reflexivity.
Defined.

Lemma template_spend_condition_witness :
  @VerifyTxSignature sample_hash sample_verify Crypto.toy_curve 8 (of_pubkey 5) 1 2 (of_pubkey 9) (sample_sig 5) = Return true.
Proof.
  apply (proj1 (@template_spend_condition sample_hash sample_verify Crypto.toy_curve 8 sample_fork 1 2 (of_pubkey 9)
    (BuildTemplateData 8 sample_fork ++ sample_sig 5) sample_fork_wf ltac:(apply (bool_decide_unpack _); vm_compute; exact I)
    ltac:(intros q Hq _; rewrite SetTemplateData_build in Hq by apply sample_fork_wf; injection Hq as <-; reflexivity))).
  vm_compute. reflexivity.
Defined.

(** coins of a delegate template can be taken by anyone: a transaction
    that sends them to a public key is accepted with the template's data and a
    signature by that same key; neither the owner nor the delegate key signs. *)
Theorem delegate_spend_by_recipient (CryptoHash : list Z -> Z) (verify_detached : list Z -> list Z -> Z -> bool)
    `{IEdwards} (size_type : nat) (keyDelegate pubkey hash hashAnchor : Z) (destOwner : CDestination) (sig : list Z) :
  let p := CTemplateDelegate keyDelegate destOwner in
  param_wf size_type p -> ValidateParam p = true ->
  PubKey_Verify verify_detached pubkey hash sig = true ->
  VerifyTxSignature CryptoHash verify_detached size_type (of_templateid (BuildTemplateId CryptoHash size_type p))
    hash hashAnchor (of_pubkey pubkey) (BuildTemplateData size_type p ++ sig) = Return true.
Proof.
  intros p Hp Hv Hs. pose proof (BuildTemplateId_type CryptoHash size_type p) as Hid.
  unfold VerifyTxSignature. rewrite VerifyTxSignature_own by done. subst p.
  cbn [template_verify]. unfold delegate_verify. change (GetTemplateId (of_pubkey pubkey)) with 0.
  rewrite (proj2 (Z.eqb_neq _ _)) by (intros E; rewrite <- E in Hid; discriminate).
  unfold VerifyTxSignature_full. cbn [verify_fuel]. change (IsPubKey (of_pubkey pubkey)) with true.
  change (GetPubKey (of_pubkey pubkey)) with pubkey. cbv iota zeta. rewrite Hs. reflexivity.
Qed.

Lemma delegate_spend_by_recipient_witness :
  let p := CTemplateDelegate 11 (of_pubkey 12) in
  @VerifyTxSignature sample_hash sample_verify Crypto.toy_curve 8 (of_templateid (BuildTemplateId sample_hash 8 p))
    1 2 (of_pubkey 666) (BuildTemplateData 8 p ++ sample_sig 666) = Return true.
Proof.
  apply (@delegate_spend_by_recipient sample_hash sample_verify Crypto.toy_curve 8 11 666 1 2 (of_pubkey 12)).
  - apply (bool_decide_unpack _). vm_compute. exact I.
  - reflexivity.
  - vm_compute. reflexivity.
Defined.

(** the check of a block signature of a minting template does not compare
    the id: a block that pays any mint-proof template is accepted when it is
    signed with any key, carried by the parameters of another mint-proof
    template. *)
Theorem mint_signature_any_key (CryptoHash : list Z -> Z) (verify_detached : list Z -> list Z -> Z -> bool)
    (size_type : nat) (nId hash keyMint : Z) (destSpend : CDestination) (sig : list Z) :
  let p := CTemplateProof keyMint destSpend in
  param_wf size_type p -> ValidateParam p = true -> CTemplateId_GetType nId = TEMPLATE_PROOF ->
  PubKey_Verify verify_detached keyMint hash sig = true ->
  VerifyBlockSignature CryptoHash verify_detached size_type (of_templateid nId) hash
    (BuildTemplateData size_type p ++ sig) = Return true.
Proof.
  intros p Hp Hv Ht Hs. unfold VerifyBlockSignature.
  change (IsPubKey (of_templateid nId)) with false. change (IsTemplate (of_templateid nId)) with true.
  change (GetTemplateId (of_templateid nId)) with nId. cbv iota.
  rewrite (Mint_VerifyBlockSignature_data CryptoHash verify_detached size_type p nId hash keyMint) by done.
  by rewrite Hs.
Qed.

Lemma mint_signature_any_key_witness :
  VerifyBlockSignature sample_hash sample_verify 8 (of_templateid (2 ^ 100 + 4)) 1
    (BuildTemplateData 8 (CTemplateProof 666 (of_pubkey 666)) ++ sample_sig 666) = Return true.
Proof.
  apply (mint_signature_any_key sample_hash sample_verify 8 (2 ^ 100 + 4) 1 666 (of_pubkey 666)).
  - apply (bool_decide_unpack _). vm_compute. exact I.
  - reflexivity.
  - reflexivity.
  - vm_compute. reflexivity.
Defined.

(** the destination recorded in a signature is read back with the rest of
    the signature, and reading never leaves the vector. *)
Theorem ParseDestIn_RecordDestIn (destIn : CDestination) (vchSig : list Z) :
  dest_wf destIn ->
  ParseDestIn (RecordDestIn destIn vchSig) = Return (Some (destIn, vchSig)) /\ ParseDestIn vchSig <> Undefined.
Proof.
  intros [Hp Hd]. split.
  - unfold ParseDestIn, RecordDestIn. rewrite get_put by done.
    assert (length (put dest_dcodec (prefix destIn, data destIn)) = 33%nat) as El
      by (unfold dest_dcodec; cbn [put d_pair d_uint fst snd]; by rewrite length_app, !length_le_split).
    rewrite length_app, El. change (Z.to_nat DESTINATION_SIZE) with 33%nat.
    rewrite (proj2 (Nat.ltb_ge _ _)), <- El, drop_app_length by lia. by destruct destIn.
  - destruct (ParseDestIn_returns vchSig) as [r ->]. done.
Qed.

Lemma ParseDestIn_RecordDestIn_witness :
  ParseDestIn (RecordDestIn (of_pubkey 5) [1; 2]) = Return (Some (of_pubkey 5, [1; 2])).
Proof. apply (ParseDestIn_RecordDestIn (of_pubkey 5) [1; 2]). split; split; (discriminate || reflexivity). Defined.

(** the coins a fork locks: at most the base, never negative, never more
    at a later height, and halved by every decay cycle until nothing is
    locked. *)
Theorem LockedCoin_decay (h h' : Z) :
  0 <= h <= h' ->
  0 <= LockedCoin h' <= LockedCoin h /\ LockedCoin h <= MORTGAGE_BASE /\
  LockedCoin (h + MORTGAGE_DECAY_CYCLE) = LockedCoin h / 2 /\
  (34 * MORTGAGE_DECAY_CYCLE <= h -> LockedCoin h = 0).
Proof.
  unfold LockedCoin, MORTGAGE_DECAY_CYCLE. intros Hh. rewrite !Z.quot_div_nonneg by lia.
  assert (0 <= h / 525600) by (apply Z.div_pos; lia).
  assert (h / 525600 <= h' / 525600) by (apply Z.div_le_mono; lia).
  replace (h + 525600) with (h + 1 * 525600) by lia. rewrite Z.div_add by lia.
  rewrite !Z.shiftr_div_pow2 by lia. rewrite Z.pow_add_r, <- Z.div_div by lia.
  change (2 ^ 1) with 2. unfold MORTGAGE_BASE. refine (conj _ (conj _ (conj eq_refl _))).
  - split; [apply Z.div_pos; lia|]. apply Z.div_le_compat_l; [lia|]. split; [lia|]. apply Z.pow_le_mono_r; lia.
  - apply Z.div_le_upper_bound; [lia|]. nia.
  - intros Hge. apply Z.div_small. split; [lia|]. apply Z.lt_le_trans with (2 ^ 34); [lia|].
    apply Z.pow_le_mono_r; [lia|]. apply Z.div_le_lower_bound; lia.
Qed.

Lemma LockedCoin_decay_witness : LockedCoin (1000 + MORTGAGE_DECAY_CYCLE) = 5000000000.
Proof.
  destruct (LockedCoin_decay 1000 2000) as (_ & _ & -> & _); [lia|]. reflexivity.
Defined.

End Template.
