(* ===== verification/Profile.v ===== *)
(** * Fork profiles and their compact encoding
    (src/walleve/walleve/compacttv.h, src/common/profile.h, profile.cpp)

    A profile travels in the proof of an origin block as a list of tagged
    values.  [mapTagValue] is a map from the tag to the wire type and the
    variant of an integer and a byte vector; readers and writers are
    [outcome]s: the decoder of compacttv.h has no bounds checks, so that
    truncated input is [Undefined]. *)

From S2P Require Import Prelude Stream Destination.

Module CompactTV.
Import CWalleveStream.

Definition WALLEVE_COMPACT_TYPE_FALSE : Z := 0.
Definition WALLEVE_COMPACT_TYPE_TRUE : Z := 32.
Definition WALLEVE_COMPACT_TYPE_INT8 : Z := 64.
Definition WALLEVE_COMPACT_TYPE_INT16 : Z := 96.
Definition WALLEVE_COMPACT_TYPE_INT32 : Z := 128.
Definition WALLEVE_COMPACT_TYPE_INT64 : Z := 160.
Definition WALLEVE_COMPACT_TYPE_INT256 : Z := 192.
Definition WALLEVE_COMPACT_TYPE_BINARY : Z := 224.

(** [CWalleveCompactTVType], a [boost::variant] *)
Inductive CTVType : Type :=
  | TVInt (v : Z)
  | TVVec (vch : list Z).

#[export] Instance CTVType_eq_dec : EqDecision CTVType.
Proof. solve_decision. Defined.

Notation tagmap := (gmap Z (Z * CTVType)).

(** The checks of [Push(nTag,t)] before the overload for its type *)
Definition push_check (m : tagmap) (nTag : Z) : outcome unit :=
  if 31 <? nTag then Throw range_error
  else match m !! nTag with Some _ => Throw range_error | None => Return () end.

Definition Push_vec (m : tagmap) (nTag : Z) (vch : list Z) : outcome tagmap :=
  _ ← push_check m nTag;
  if 255 <? Z.of_nat (length vch) then Throw range_error
  else Return (<[nTag := (WALLEVE_COMPACT_TYPE_BINARY, TVVec vch)]> m).

Definition Push_uint256 (m : tagmap) (nTag t : Z) : outcome tagmap :=
  _ ← push_check m nTag;
  Return (<[nTag := (WALLEVE_COMPACT_TYPE_INT256, TVVec (le_split 8 32 t))]> m).

Definition type_of_size (n : nat) : Z :=
  match n with
  | 1%nat => WALLEVE_COMPACT_TYPE_INT8
  | 2%nat => WALLEVE_COMPACT_TYPE_INT16
  | 4%nat => WALLEVE_COMPACT_TYPE_INT32
  | _ => WALLEVE_COMPACT_TYPE_INT64
  end.

(** A fundamental integer of [n] bytes, 1, 2, 4 or 8 *)
Definition Push_int (n : nat) (m : tagmap) (nTag t : Z) : outcome tagmap :=
  _ ← push_check m nTag;
  Return (<[nTag := (type_of_size n, TVInt (i64 t))]> m).

(** [Get]: [None] when the tag is missing *)
Definition Get_vec (m : tagmap) (nTag : Z) : outcome (option (list Z)) :=
  match m !! nTag with
  | None => Return None
  | Some (type, v) =>
      if negb (type =? WALLEVE_COMPACT_TYPE_BINARY) then Throw range_error
      else match v with TVVec vch => Return (Some vch) | TVInt _ => Throw bad_get end
  end.

Definition Get_uint256 (m : tagmap) (nTag : Z) : outcome (option Z) :=
  match m !! nTag with
  | None => Return None
  | Some (type, v) =>
      if negb (type =? WALLEVE_COMPACT_TYPE_INT256) then Throw range_error
      else match v with TVVec vch => Return (Some (le_combine 8 (take 32 vch))) | TVInt _ => Throw bad_get end
  end.

(** A [T] of [n] bytes, at most 8: the low bytes of the stored [int64] *)
Definition Get_uint (n : nat) (m : tagmap) (nTag : Z) : outcome (option Z) :=
  match m !! nTag with
  | None => Return None
  | Some (type, v) =>
      if type =? WALLEVE_COMPACT_TYPE_INT256 then Throw range_error
      else match v with TVInt v => Return (Some (wrap (8 * Z.of_nat n) v)) | TVVec _ => Throw bad_get end
  end.

Definition Get_int (n : nat) (m : tagmap) (nTag : Z) : outcome (option Z) :=
  v ← Get_uint n m nTag; Return (option_map (swrap (8 * Z.of_nat n)) v).

Definition type_size (type : Z) : nat :=
  if type =? WALLEVE_COMPACT_TYPE_INT8 then 1
  else if type =? WALLEVE_COMPACT_TYPE_INT16 then 2
  else if type =? WALLEVE_COMPACT_TYPE_INT32 then 4
  else if type =? WALLEVE_COMPACT_TYPE_INT64 then 8
  else 0.

(** One turn of the loop of [Encode]; a variant that does not hold what the
    type says would throw. *)
Definition encode_entry (e : Z * (Z * CTVType)) : outcome (list Z) :=
  let '(tag, (type, v)) := e in
  let c := u8 (Z.lor tag type) in
  if type =? WALLEVE_COMPACT_TYPE_BINARY then
    match v with TVVec vch => Return (c :: u8 (Z.of_nat (length vch)) :: vch) | TVInt _ => Throw bad_get end
  else if type =? WALLEVE_COMPACT_TYPE_INT256 then
    match v with TVVec vch => Return (c :: vch) | TVInt _ => Throw bad_get end
  else
    match v with TVInt value => Return (c :: le_split 8 (type_size type) value) | TVVec _ => Throw bad_get end.

Fixpoint encode_entries (l : list (Z * (Z * CTVType))) (vchEncode : list Z) : outcome (list Z) :=
  match l with
  | [] => Return vchEncode
  | e :: l => b ← encode_entry e; encode_entries l (vchEncode ++ b)
  end.

(** [Encode] appends to [vchEncode]. *)
Definition Encode (m : tagmap) (vchEncode : list Z) : outcome (list Z) :=
  encode_entries (map_entries Z.lt m) vchEncode.

(** [n] bytes from the vector; the source reads them without a check. *)
Definition read_bytes (n : nat) (s : list Z) : outcome (list Z * list Z) :=
  if (length s <? n)%nat then Undefined else Return (take n s, drop n s).

(** The value after the first byte of an entry *)
Definition decode_value (type : Z) (s : list Z) : outcome (CTVType * list Z) :=
  if type =? WALLEVE_COMPACT_TYPE_BINARY then
    '(b, s) ← read_bytes 1 s;
    '(vch, s) ← read_bytes (Z.to_nat (nth 0 b 0)) s;
    Return (TVVec vch, s)
  else if type =? WALLEVE_COMPACT_TYPE_INT256 then
    '(vch, s) ← read_bytes 32 s;
    Return (TVVec vch, s)
  else
    '(b, s) ← read_bytes (type_size type) s;
    Return (TVInt (if type =? WALLEVE_COMPACT_TYPE_INT64 then i64 (le_combine 8 b) else le_combine 8 b), s).

(** The loop of [Decode]: [offset] advances with every turn, so that [fuel]
    of the length of the input is enough. *)
Fixpoint decode_loop (fuel : nat) (s : list Z) (m : tagmap) : outcome tagmap :=
  match s with
  | [] => Return m
  | c :: s =>
      match fuel with
      | O => Undefined
      | S fuel =>
          let tag := Z.land c 0x1f in
          let type := Z.land c 0xe0 in
          '(v, s) ← decode_value type s;
          match m !! tag with
          | Some _ => Throw range_error
          | None => decode_loop fuel s (<[tag := (type, v)]> m)
          end
      end
  end.

Definition Decode (vchEncoded : list Z) : outcome tagmap := decode_loop (length vchEncoded) vchEncoded ∅.

(** ** Round trip *)

(** What [Push] stores: a tag of five bits, a variant that matches its type,
    and integers that are unsigned except for the 64-bit ones, as the decoder
    reads them. *)
Definition entry_wf (e : Z * (Z * CTVType)) : Prop :=
  let '(tag, (type, v)) := e in
  0 <= tag <= 31 /\
  match v with
  | TVVec vch => (type = WALLEVE_COMPACT_TYPE_BINARY /\ (length vch <= 255)%nat \/
                  type = WALLEVE_COMPACT_TYPE_INT256 /\ length vch = 32%nat) /\ Forall (is_uint 8) vch
  | TVInt v => type ∈ [WALLEVE_COMPACT_TYPE_INT8; WALLEVE_COMPACT_TYPE_INT16; WALLEVE_COMPACT_TYPE_INT32] /\
                 is_uint (8 * Z.of_nat (type_size type)) v \/
               type = WALLEVE_COMPACT_TYPE_INT64 /\ - 2 ^ 63 <= v < 2 ^ 63
  end.

Lemma read_bytes_app l rest : read_bytes (length l) (l ++ rest) = Return (l, rest).
Proof.
  unfold read_bytes. rewrite length_app, (proj2 (Nat.ltb_ge _ _)) by lia.
  by rewrite take_app_length, drop_app_length.
Qed.

Lemma read_byte c s : read_bytes 1 (c :: s) = Return ([c], s).
Proof. apply (read_bytes_app [c] s). Qed.

(** The first byte of an entry carries the tag and the type. *)
Lemma tag_byte tag k :
  0 <= tag <= 31 -> 0 <= k <= 7 ->
  Z.land (u8 (Z.lor tag (Z.shiftl k 5))) 0x1f = tag /\ Z.land (u8 (Z.lor tag (Z.shiftl k 5))) 0xe0 = Z.shiftl k 5.
Proof.
  intros Ht Hk.
  assert (Hall : forallb (fun tag => forallb (fun k =>
    (Z.land (u8 (Z.lor tag (Z.shiftl k 5))) 0x1f =? tag) &&
    (Z.land (u8 (Z.lor tag (Z.shiftl k 5))) 0xe0 =? Z.shiftl k 5)) (seqZ 0 8)) (seqZ 0 32) = true)
    by (vm_compute; reflexivity).
  rewrite forallb_forall in Hall. specialize (Hall tag). rewrite <- list_elem_of_In, elem_of_seqZ in Hall.
  specialize (Hall ltac:(lia)). rewrite forallb_forall in Hall. specialize (Hall k).
  rewrite <- list_elem_of_In, elem_of_seqZ in Hall. specialize (Hall ltac:(lia)). bool_to_prop. done.
Qed.

Lemma encode_entry_spec e rest :
  entry_wf e ->
  exists c b, encode_entry e = Return (c :: b) /\ Z.land c 0x1f = e.1 /\ Z.land c 0xe0 = e.2.1 /\
    decode_value e.2.1 (b ++ rest) = Return (e.2.2, rest).
Proof.
  destruct e as [tag [type v]]. intros [Ht Hv]. cbn [fst snd].
  assert (Hk : exists k, type = Z.shiftl k 5 /\ 0 <= k <= 7).
  { exists (type / 32). destruct v.
    - destruct Hv as [[Hin _]|[-> _]]; [|by vm_compute]. rewrite !elem_of_cons, elem_of_nil in Hin.
      destruct Hin as [->|[->|[->|[]]]]; by vm_compute.
    - destruct Hv as [[[-> _]|[-> _]] _]; by vm_compute. }
  destruct Hk as (k & Ek & Hk). destruct (tag_byte tag k Ht Hk) as [H1 H2]. rewrite <- Ek in H1, H2.
  unfold encode_entry, decode_value. destruct v as [v|vch].
  - assert (Hd : forall n, (if type =? WALLEVE_COMPACT_TYPE_INT64 then i64 (le_combine 8 (le_split 8 n v))
      else le_combine 8 (le_split 8 n v)) = v \/ n <> type_size type).
    { intros n. destruct (decide (n = type_size type)) as [->|]; [left|by right].
      rewrite le_combine_split by lia. destruct Hv as [[Hin Hu]|[-> Hu]].
      - rewrite Z.mod_small by done. rewrite !elem_of_cons, elem_of_nil in Hin. by destruct Hin as [->|[->|[->|[]]]].
      - cbn [Z.eqb WALLEVE_COMPACT_TYPE_INT64 Pos.eqb]. change (8 * Z.of_nat _) with 64.
        unfold swrap. rewrite Zplus_mod_idemp_l, Z.mod_small by lia. change (64 - 1) with 63. lia. }
    assert (Hne : type <> WALLEVE_COMPACT_TYPE_BINARY /\ type <> WALLEVE_COMPACT_TYPE_INT256).
    { destruct Hv as [[Hin _]|[-> _]]; [|done]. rewrite !elem_of_cons, elem_of_nil in Hin. by destruct Hin as [->|[->|[->|[]]]]. }
    rewrite !(proj2 (Z.eqb_neq type _)) by apply Hne.
    eexists _, _. split; [reflexivity|]. split; [done|]. split; [done|].
    rewrite <- (length_le_split 8 (type_size type) v) at 1. rewrite read_bytes_app. cbn [mbind outcome_bind].
    destruct (Hd (type_size type)) as [E|]; [by rewrite E|done].
  - destruct Hv as [[[-> Hl]|[-> Hl]] Hb]; (eexists _, _; split; [reflexivity|]; split; [done|]; split; [done|]).
    + cbn [Z.eqb WALLEVE_COMPACT_TYPE_BINARY Pos.eqb app].
      rewrite read_byte. cbn [mbind outcome_bind nth].
      rewrite wrap_small, Nat2Z.id, read_bytes_app by (unfold is_uint; lia). done.
    + cbn [Z.eqb WALLEVE_COMPACT_TYPE_INT256 Pos.eqb]. rewrite <- Hl at 1. by rewrite read_bytes_app.
Qed.

Lemma encode_entries_spec l acc :
  Forall entry_wf l -> exists b, encode_entries l acc = Return (acc ++ b) /\
    forall m fuel, (length b <= fuel)%nat -> NoDup l.*1 -> (forall k, k ∈ l.*1 -> m !! k = None) ->
      decode_loop fuel b m = Return (foldl map_insert_new m l).
Proof.
  intros Hl. revert acc. induction Hl as [|e l He Hl IH]; intros acc.
  { exists []. simpl. rewrite app_nil_r. split; [done|]. by intros m [|]. }
  destruct (encode_entry_spec e [] He) as (c & b & E & _). destruct (IH (acc ++ c :: b)) as (b' & E' & Hd).
  exists (c :: b ++ b'). cbn [encode_entries]. rewrite E. cbn [mbind outcome_bind]. rewrite E', <- app_assoc.
  split; [done|]. intros m fuel Hf Hnd Hm. destruct fuel as [|fuel]; [simpl in Hf; lia|].
  destruct (encode_entry_spec e b' He) as (c' & b'' & E'' & H1 & H2 & H3). rewrite E in E''. injection E'' as <- <-.
  cbn [decode_loop]. rewrite H2, H3, H1. cbn [mbind outcome_bind]. cbn [fmap list_fmap] in Hnd.
  inversion Hnd as [|? ? Hk Hnd']; subst. rewrite Hm by left. cbn [foldl].
  rewrite Hd; [|simpl in Hf; rewrite length_app in Hf; lia|done|].
  - f_equal. f_equal. unfold map_insert_new. rewrite Hm by left. by destruct e as [k [ty v]].
  - intros k Hk'. rewrite lookup_insert_ne by (intros <-; done). apply Hm. by right.
Qed.

Lemma Decode_Encode m :
  Forall entry_wf (map_entries Z.lt m) -> exists b, Encode m [] = Return b /\ Decode b = Return m.
Proof.
  intros Hm. destruct (encode_entries_spec _ [] Hm) as (b & E & Hd). exists b. split; [exact E|].
  unfold Decode. rewrite Hd; [by rewrite map_entries_load|done|apply NoDup_map_entries|]. intros. apply lookup_empty.
Qed.

End CompactTV.

(** ** Profiles *)

Record CProfile : Type := mkProfile {
  pf_nVersion : Z;
  pf_strName : list Z;
  pf_strSymbol : list Z;
  pf_nFlag : Z;
  pf_nMinTxFee : Z;
  pf_nMintReward : Z;
  pf_destOwner : CDestination;
  pf_hashParent : Z;
  pf_nJointHeight : Z;
}.

Module Profile.
Import CompactTV.

Definition PROFILE_VERSION : Z := 0.
Definition PROFILE_NAME : Z := 1.
Definition PROFILE_SYMBOL : Z := 2.
Definition PROFILE_FLAG : Z := 3.
Definition PROFILE_MINTXFEE : Z := 4.
Definition PROFILE_MINTREWARD : Z := 5.
Definition PROFILE_OWNER : Z := 6.
Definition PROFILE_PARENT : Z := 7.
Definition PROFILE_JOINTHEIGHT : Z := 8.

Definition PROFILE_FLAG_ISOLATED : Z := 1.
Definition PROFILE_FLAG_PRIVATE : Z := 2.
Definition PROFILE_FLAG_ENCLOSED : Z := 4.

Definition SetNull : CProfile := mkProfile 1 [] [] 0 0 0 Destination.SetNull 0 (-1).

Definition IsNull (p : CProfile) : bool := bool_decide (pf_strName p = []).

Definition IsIsolated (p : CProfile) : bool := negb (Z.land (pf_nFlag p) PROFILE_FLAG_ISOLATED =? 0).

Definition IsPrivate (p : CProfile) : bool := negb (Z.land (pf_nFlag p) PROFILE_FLAG_PRIVATE =? 0).

Definition IsEnclosed (p : CProfile) : bool := negb (Z.land (pf_nFlag p) PROFILE_FLAG_ENCLOSED =? 0).

(** [SetFlag(fIsolated,fPrivate,fEnclosed)]: the new flags *)
Definition SetFlag (fIsolated fPrivate fEnclosed : bool) : Z :=
  Z.lor (Z.lor (if fIsolated then PROFILE_FLAG_ISOLATED else 0) (if fPrivate then PROFILE_FLAG_PRIVATE else 0))
        (if fEnclosed then PROFILE_FLAG_ENCLOSED else 0).

(** The pushes of [Save] *)
Definition save_map (p : CProfile) : outcome tagmap :=
  m ← Push_int 2 ∅ PROFILE_VERSION (pf_nVersion p);
  m ← Push_vec m PROFILE_NAME (pf_strName p);
  m ← Push_vec m PROFILE_SYMBOL (pf_strSymbol p);
  m ← Push_int 1 m PROFILE_FLAG (pf_nFlag p);
  m ← Push_int 8 m PROFILE_MINTXFEE (pf_nMinTxFee p);
  m ← Push_int 8 m PROFILE_MINTREWARD (pf_nMintReward p);
  m ← Push_vec m PROFILE_OWNER
        (DataStream.put Destination.dest_dcodec (prefix (pf_destOwner p), data (pf_destOwner p)));
  if negb (pf_hashParent p =? 0) then
    m ← Push_uint256 m PROFILE_PARENT (pf_hashParent p);
    Push_int 4 m PROFILE_JOINTHEIGHT (pf_nJointHeight p)
  else Return m.

(** [Save]: the result and [vchProfile] *)
Definition Save (p : CProfile) (vchProfile : list Z) : bool * list Z :=
  match m ← save_map p; Encode m vchProfile with
  | Return b => (true, b)
  | _ => (false, vchProfile)
  end.

(** The [try] block of [Load]; [None] is [return false].  The object a failed
    [Load] leaves is dropped by its callers. *)
Definition load_map (vchProfile : list Z) : outcome (option CProfile) :=
  m ← Decode vchProfile;
  version ← Get_uint 2 m PROFILE_VERSION;
  match version with None => Return None | Some version =>
  if negb (version =? 1) then Return None else
  name ← Get_vec m PROFILE_NAME;
  match name with None => Return None | Some name =>
  symbol ← Get_vec m PROFILE_SYMBOL;
  match symbol with None => Return None | Some symbol =>
  flag ← Get_uint 1 m PROFILE_FLAG;
  match flag with None => Return None | Some flag =>
  fee ← Get_int 8 m PROFILE_MINTXFEE;
  match fee with None => Return None | Some fee =>
  reward ← Get_int 8 m PROFILE_MINTREWARD;
  match reward with None => Return None | Some reward =>
  parent ← Get_uint256 m PROFILE_PARENT;
  let parent := default 0 parent in
  height ← Get_int 4 m PROFILE_JOINTHEIGHT;
  if bool_decide (height = None) && negb (parent =? 0) then Return None else
  let height := default (-1) height in
  owner ← Get_vec m PROFILE_OWNER;
  match owner with
  | None => Return (Some (mkProfile version name symbol flag fee reward Destination.SetNull parent height))
  | Some vch =>
      '((p, d), _) ← DataStream.get Destination.dest_dcodec vch;
      Return (Some (mkProfile version name symbol flag fee reward (mkDest p d) parent height))
  end end end end end end end.

Definition Load (vchProfile : list Z) : outcome (option CProfile) :=
  match load_map vchProfile with
  | Throw _ => Return None
  | r => r
  end.

(** ** Properties *)

Definition profile_wf (p : CProfile) : Prop :=
  pf_nVersion p = 1 /\
  (length (pf_strName p) <= 255)%nat /\ Forall (is_uint 8) (pf_strName p) /\
  (length (pf_strSymbol p) <= 255)%nat /\ Forall (is_uint 8) (pf_strSymbol p) /\
  is_uint 8 (pf_nFlag p) /\
  - 2 ^ 63 <= pf_nMinTxFee p < 2 ^ 63 /\ - 2 ^ 63 <= pf_nMintReward p < 2 ^ 63 /\
  Destination.dest_wf (pf_destOwner p) /\ is_uint 256 (pf_hashParent p) /\
  if pf_hashParent p =? 0 then pf_nJointHeight p = -1 else 0 <= pf_nJointHeight p < 2 ^ 31.

Lemma owner_bytes d : Destination.dest_wf d ->
  let b := DataStream.put Destination.dest_dcodec (prefix d, data d) in
  (length b <= 255)%nat /\ Forall (is_uint 8) b.
Proof.
  intros _. cbn [DataStream.put Destination.dest_dcodec DataStream.d_pair DataStream.d_uint fst snd].
  rewrite length_app, !length_le_split. split; [lia|]. apply Forall_app. split; apply le_split_range; lia.
Qed.

Lemma i64_id z : - 2 ^ 63 <= z < 2 ^ 63 -> i64 z = z.
Proof. intros. apply swrap_small; [lia|]. done. Qed.

Lemma wf_int_entry tag n v :
  0 <= tag <= 31 -> n = 1%nat \/ n = 2%nat \/ n = 4%nat -> is_uint (8 * Z.of_nat n) v ->
  entry_wf (tag, (type_of_size n, TVInt v)).
Proof.
  intros Ht Hn Hv. split; [done|]. left. rewrite !elem_of_cons.
  destruct Hn as [-> | [-> | ->] ]; (split; [tauto|exact Hv]).
Qed.

Lemma push_fresh m tag : tag <= 31 -> m !! tag = None -> push_check m tag = Return ().
Proof. intros Ht Hm. unfold push_check. by rewrite (proj2 (Z.ltb_ge _ _)), Hm by lia. Qed.

(** The next push of a chain with distinct tags, the entries of such a chain,
    and a lookup in it *)
Ltac push_next :=
  rewrite push_fresh by (done || (rewrite ?lookup_insert_ne by discriminate; apply lookup_empty));
  cbn [mbind outcome_bind]; rewrite ?(proj2 (Z.ltb_ge 255 _)) by lia; cbn [mbind outcome_bind].

Ltac wf_entries :=
  repeat apply map_Forall_insert_2; try apply map_Forall_empty;
  first
    [ apply wf_int_entry; [done|tauto|try done; split; lia]
    | split; [done|]; first
        [ right; split; [reflexivity|lia]
        | split; [left; split; [reflexivity|done]|done]
        | split; [right; split; [reflexivity|apply length_le_split]|apply le_split_range; lia] ] ].

Ltac tag_lookup :=
  rewrite ?lookup_insert_ne by discriminate; first [apply lookup_insert_eq | apply lookup_empty].

(** The tag map of a profile *)
Lemma save_map_spec p :
  profile_wf p -> exists m, save_map p = Return m /\ map_Forall (fun k v => entry_wf (k, v)) m /\
    m !! PROFILE_VERSION = Some (WALLEVE_COMPACT_TYPE_INT16, TVInt 1) /\
    m !! PROFILE_NAME = Some (WALLEVE_COMPACT_TYPE_BINARY, TVVec (pf_strName p)) /\
    m !! PROFILE_SYMBOL = Some (WALLEVE_COMPACT_TYPE_BINARY, TVVec (pf_strSymbol p)) /\
    m !! PROFILE_FLAG = Some (WALLEVE_COMPACT_TYPE_INT8, TVInt (pf_nFlag p)) /\
    m !! PROFILE_MINTXFEE = Some (WALLEVE_COMPACT_TYPE_INT64, TVInt (pf_nMinTxFee p)) /\
    m !! PROFILE_MINTREWARD = Some (WALLEVE_COMPACT_TYPE_INT64, TVInt (pf_nMintReward p)) /\
    m !! PROFILE_OWNER = Some (WALLEVE_COMPACT_TYPE_BINARY,
      TVVec (DataStream.put Destination.dest_dcodec (prefix (pf_destOwner p), data (pf_destOwner p)))) /\
    m !! PROFILE_PARENT = (if pf_hashParent p =? 0 then None
      else Some (WALLEVE_COMPACT_TYPE_INT256, TVVec (le_split 8 32 (pf_hashParent p)))) /\
    m !! PROFILE_JOINTHEIGHT = (if pf_hashParent p =? 0 then None
      else Some (WALLEVE_COMPACT_TYPE_INT32, TVInt (pf_nJointHeight p))).
Proof.
  intros (Hv & Hn & Hnb & Hs & Hsb & Hf & Hfee & Hrew & Ho & Hp & Hj). destruct (owner_bytes _ Ho) as [Hol Hob].
  unfold save_map, Push_int, Push_vec, Push_uint256.
  repeat push_next. rewrite Hv, (i64_id 1), (i64_id (pf_nFlag p)), (i64_id (pf_nMinTxFee p)), (i64_id (pf_nMintReward p))
    by (unfold is_uint in *; lia).
  destruct (Z.eqb_spec (pf_hashParent p) 0) as [E0|E0]; cbn [negb].
  - eexists. split; [reflexivity|]. split; [wf_entries|]. split_and!; tag_lookup.
  - rewrite (i64_id (pf_nJointHeight p)) by lia. repeat push_next.
    eexists. split; [reflexivity|]. split; [wf_entries|]. split_and!; tag_lookup.
Qed.

Lemma Get_vec_at m tag vch :
  m !! tag = Some (WALLEVE_COMPACT_TYPE_BINARY, TVVec vch) -> Get_vec m tag = Return (Some vch).
Proof. unfold Get_vec. by intros ->. Qed.

Lemma Get_uint_at n m tag type v :
  m !! tag = Some (type, TVInt v) -> type <> WALLEVE_COMPACT_TYPE_INT256 -> is_uint (8 * Z.of_nat n) v ->
  Get_uint n m tag = Return (Some v).
Proof. unfold Get_uint. intros -> Ht Hv. by rewrite (proj2 (Z.eqb_neq _ _) Ht), wrap_small. Qed.

Lemma Get_int_at n m tag type v :
  m !! tag = Some (type, TVInt v) -> type <> WALLEVE_COMPACT_TYPE_INT256 -> (0 < n)%nat ->
  - 2 ^ (8 * Z.of_nat n - 1) <= v < 2 ^ (8 * Z.of_nat n - 1) -> Get_int n m tag = Return (Some v).
Proof.
  unfold Get_int, Get_uint. intros -> Ht Hn Hv. rewrite (proj2 (Z.eqb_neq _ _) Ht). cbn [mbind outcome_bind option_map].
  do 2 f_equal. unfold wrap. unfold swrap. rewrite Zplus_mod_idemp_l. apply (swrap_small _ v); lia.
Qed.

Lemma Get_absent m tag :
  m !! tag = None -> Get_int 4 m tag = Return None /\ Get_uint256 m tag = Return None.
Proof. unfold Get_int, Get_uint, Get_uint256. by intros ->. Qed.

(** a profile with a name and a symbol of at most 255 bytes is loaded back
    from what [Save] wrote of it; a profile without parent comes back with the
    joint height -1. *)
Theorem profile_roundtrip (p : CProfile) :
  profile_wf p -> exists b, Save p [] = (true, b) /\ Load b = Return (Some p).
Proof.
  intros Hp. destruct (save_map_spec p Hp) as (m & E & Hm & L0 & L1 & L2 & L3 & L4 & L5 & L6 & L7 & L8).
  destruct (Decode_Encode m) as (b & Eb & Ed).
  { apply Forall_forall. intros [k v] Hkv. apply CWalleveStreamOk.elem_of_map_entries in Hkv. by apply Hm. }
  exists b. unfold Save. rewrite E. cbn [mbind outcome_bind]. rewrite Eb. split; [done|].
  destruct Hp as (Hv & _ & _ & _ & _ & Hf & Hfee & Hrew & Ho & Hh & Hj).
  unfold Load, load_map. rewrite Ed. cbn [mbind outcome_bind].
  rewrite (Get_uint_at _ _ _ _ _ L0) by done. cbn [mbind outcome_bind Z.eqb Pos.eqb negb].
  rewrite (Get_vec_at _ _ _ L1). cbn [mbind outcome_bind]. rewrite (Get_vec_at _ _ _ L2). cbn [mbind outcome_bind].
  rewrite (Get_uint_at _ _ _ _ _ L3) by done. cbn [mbind outcome_bind].
  rewrite (Get_int_at _ _ _ _ _ L4) by (done || lia). cbn [mbind outcome_bind].
  rewrite (Get_int_at _ _ _ _ _ L5) by (done || lia). cbn [mbind outcome_bind].
  destruct p as [v n sy fl fee rew [pfx dt] par jh]. cbn [pf_nVersion pf_strName pf_strSymbol pf_nFlag pf_nMinTxFee
    pf_nMintReward pf_destOwner pf_hashParent pf_nJointHeight prefix data] in *. subst v.
  destruct (Z.eqb_spec par 0) as [->|E0].
  - rewrite (proj2 (Get_absent _ _ L7)). cbn [mbind outcome_bind]. rewrite (proj1 (Get_absent _ _ L8)). cbn [mbind outcome_bind].
    change (bool_decide (@None Z = None) && negb (default 0 (@None Z) =? 0)) with false. cbv iota.
    rewrite (Get_vec_at _ _ _ L6). cbn [mbind outcome_bind].
    pose proof (DataStream.get_put (c := Destination.dest_dcodec) (pfx, dt) [] Ho) as Hg. rewrite app_nil_r in Hg.
    rewrite Hg. cbn [mbind outcome_bind default]. by subst jh.
  - unfold Get_uint256. rewrite L7. cbn [Z.eqb Pos.eqb negb WALLEVE_COMPACT_TYPE_INT256 mbind outcome_bind].
    rewrite (Get_int_at _ _ _ _ _ L8) by (done || (change (8 * Z.of_nat 4 - 1) with 31; lia)). cbn [mbind outcome_bind].
    change (bool_decide (Some jh = None)) with false. cbn [andb].
    rewrite (Get_vec_at _ _ _ L6). cbn [mbind outcome_bind].
    pose proof (DataStream.get_put (c := Destination.dest_dcodec) (pfx, dt) [] Ho) as Hg. rewrite app_nil_r in Hg.
    rewrite Hg. cbn [mbind outcome_bind default]. rewrite take_ge by (rewrite length_le_split; lia).
    rewrite le_combine_split, Z.mod_small by (done || lia). done.
Qed.

Lemma profile_roundtrip_witness :
  let p := mkProfile 1 [70; 78] [70] 1 100 15000000 (mkDest 1 77) 5 9 in
  exists b, Save p [] = (true, b) /\ length b = 103%nat /\ Load b = Return (Some p).
Proof.
  intros p. destruct (profile_roundtrip p) as (b & E & El).
  - unfold profile_wf. cbn. split_and!; try done; try lia; apply (bool_decide_unpack _); vm_compute; exact I.
  - exists b. split; [exact E|]. split; [|exact El]. vm_compute in E. injection E as <-. reflexivity.
Defined.

(** [Load] does not defend itself against a truncated profile: a value
    whose announced bytes are not there is read from outside the vector. *)
Theorem profile_overread (tag : Z) (s : list Z) :
  0 <= tag <= 31 -> (length s < 8)%nat ->
  Load (Z.lor tag WALLEVE_COMPACT_TYPE_INT64 :: s) = Undefined.
Proof.
  intros Ht Hs. unfold Load, load_map, Decode. cbn [length decode_loop].
  destruct (tag_byte tag 5 Ht) as [_ E]; [lia|]. change (Z.shiftl 5 5) with WALLEVE_COMPACT_TYPE_INT64 in E.
  assert (Hu : u8 (Z.lor tag WALLEVE_COMPACT_TYPE_INT64) = Z.lor tag WALLEVE_COMPACT_TYPE_INT64).
  { apply wrap_small. change WALLEVE_COMPACT_TYPE_INT64 with (Z.shiftl 5 5).
    rewrite lor_shiftl by (unfold is_uint; lia). unfold is_uint. lia. }
  assert (Hr : decode_value WALLEVE_COMPACT_TYPE_INT64 s = Undefined).
  { change (decode_value WALLEVE_COMPACT_TYPE_INT64 s) with
      ('(b, s) ← read_bytes 8 s; Return (TVInt (i64 (le_combine 8 b)), s)).
    unfold read_bytes. by rewrite (proj2 (Nat.ltb_lt _ _)). }
  rewrite Hu in E. rewrite E, Hr. done.
Qed.

Lemma profile_overread_witness : Load [164; 1; 2; 3] = Undefined.
Proof. apply (profile_overread 4 [1; 2; 3]); [lia|simpl; lia]. Defined.

End Profile.
