(* ===== verification/BlockIndex.v ===== *)
(** * Block indexes (class CBlockIndex of src/common/block.h)

    The node keeps one [CBlockIndex] per block in the map [mapIndex] of the
    block base, and the indexes point to one another.  A pointer is the hash of
    the block it leads to, the key of [mapIndex]; [None] is [NULL].  A chain is
    the list of the indexes reached from one through [pPrev], that one first:
    it is what the functions that only walk back receive. *)

From S2P Require Import Prelude Stream Destination Transaction Block.

Record CBlockIndex : Type := mkIndex {
  bi_hash : Z;
  bi_pOrigin : Z;
  bi_pPrev : option Z;
  bi_pNext : option Z;
  bi_txidMint : Z;
  bi_nMintType : Z;
  bi_nVersion : Z;
  bi_nType : Z;
  bi_nTimeStamp : Z;
  bi_nHeight : Z;
  bi_nRandBeacon : Z;
  bi_nChainTrust : Z;
  bi_nMoneySupply : Z;
  bi_nProofAlgo : Z;
  bi_nProofBits : Z;
  bi_nFile : Z;
  bi_nOffset : Z;
}.

#[export] Instance CBlockIndex_eq_dec : EqDecision CBlockIndex.
Proof. solve_decision. Defined.

Module BlockIndex.

(** [CBlockIndex(block,nFileIn,nOffsetIn)] of the block with hash [hash] *)
Definition of_block (CryptoHash : list Z -> Z) (hash : Z) (block : CBlock) (nFile nOffset : Z) : CBlockIndex :=
  let nMintType := tx_nType (b_txMint block) in
  let '(nAlgo, nBits) :=
    if (nMintType =? Tx.TX_WORK) && (Block.PROOFHASHWORK_SIZE <=? length (b_vchProof block))%nat then
      match Block.compact_Load (b_vchProof block) with
      | Some (nAlgo, nBits, _) => (nAlgo, nBits)
      | None => (0, 0)
      end
    else (0, 0) in
  mkIndex hash hash None None
    (if Block.IsVacant block then 0 else Tx.GetHash CryptoHash (b_txMint block))
    nMintType (b_nVersion block) (b_nType block) (b_nTimeStamp block) 0 0 0 0 nAlgo nBits nFile nOffset.

Definition IsOrigin (i : CBlockIndex) : bool := Block.type_IsOrigin (bi_nType i).

Definition IsPrimary (i : CBlockIndex) : bool := Block.type_IsPrimary (bi_nType i).

Definition IsExtended (i : CBlockIndex) : bool := Block.type_IsExtended (bi_nType i).

Definition IsVacant (i : CBlockIndex) : bool := Block.type_IsVacant (bi_nType i).

Definition IsProofOfWork (i : CBlockIndex) : bool := bi_nMintType i =? Tx.TX_WORK.

Definition GetBlockTime (i : CBlockIndex) : Z := bi_nTimeStamp i.

Definition GetBlockHeight (i : CBlockIndex) : Z := bi_nHeight i.

End BlockIndex.
