(* ===== verification/Core.v ===== *)
(** * Consensus rules (src/src/core.cpp, class CMvCoreProtocol; the delegate
    agreement of src/src/mvtype.h; [CHttpUtil::Base64Decode])

    The checks of transactions and blocks, the proof-of-work target and its
    decay, the windows of delegated blocks and the ballot drawn from an
    agreement.  The network time is an argument; the hash, the signature
    scheme, the curve and boost's base64 iterators are parameters.  A result is
    an [outcome]: [Undefined] where the source reads outside a vector. *)

From Stdlib Require Import String.
From S2P Require Import Prelude Stream Destination Transaction Block Base.
From S2P Require Import Base25519 SC25519 Crypto Template Profile BlockIndex.

Record CDelegateAgreement : Type := mkAgreement {
  ag_nAgreement : Z;
  ag_nWeight : Z;
  ag_vBallot : list CDestination;
}.

Module Core.

Definition MAX_CLOCK_DRIFT : Z := 10 * 60.
Definition PROOF_OF_WORK_BITS_LIMIT : Z := 16.
Definition PROOF_OF_WORK_BITS_INIT : Z := 20.
Definition PROOF_OF_WORK_ADJUST_COUNT : nat := 16.
Definition PROOF_OF_WORK_ADJUST_DEBOUNCE : Z := 10.
Definition PROOF_OF_WORK_TARGET_SPACING : Z := BLOCK_TARGET_SPACING + BLOCK_TARGET_SPACING / 2.

(** The members the constructor sets *)
Definition nProofOfWorkLimit : Z := PROOF_OF_WORK_BITS_LIMIT.
Definition nProofOfWorkInit : Z := PROOF_OF_WORK_BITS_INIT.
Definition nProofOfWorkUpperTarget : Z := PROOF_OF_WORK_TARGET_SPACING + PROOF_OF_WORK_ADJUST_DEBOUNCE.
Definition nProofOfWorkLowerTarget : Z := PROOF_OF_WORK_TARGET_SPACING - PROOF_OF_WORK_ADJUST_DEBOUNCE.

(** ** Delegate agreements *)

Definition agreement_IsProofOfWork (a : CDelegateAgreement) : bool :=
  match ag_vBallot a with [] => true | _ => false end.

(** [vBallot[nIndex % vBallot.size()]] *)
Definition GetBallot (a : CDelegateAgreement) (nIndex : Z) : CDestination :=
  match ag_vBallot a with
  | [] => Destination.SetNull
  | _ => ag_vBallot a !!! Z.to_nat (u64 nIndex mod Z.of_nat (length (ag_vBallot a)))
  end.

(** ** Proof of work *)

Definition GetProofOfWorkReward : Z := 15 * COIN.

Definition GetDelegatedProofOfStakeReward : Z := 15 * COIN.

(** [while ((!pIndex->IsProofOfWork() || pIndex->nProofAlgo != nAlgo) && pIndex->pPrev != NULL)] *)
Fixpoint skip_to_work (nAlgo : Z) (chain : list CBlockIndex) : list CBlockIndex :=
  match chain with
  | i :: (_ :: _) as rest =>
      if negb (BlockIndex.IsProofOfWork i) || negb (bi_nProofAlgo i =? nAlgo) then skip_to_work nAlgo rest else chain
  | _ => chain
  end.

(** The loop that sums the spacings, [nWIndex] counting down; it dereferences
    [pPrev] of every proof-of-work block it visits. *)
Fixpoint spacing_loop (nWIndex : nat) (nAlgo : Z) (chain : list CBlockIndex) (nSpacing nWeight : Z) : outcome (Z * Z) :=
  match chain with
  | [] => Return (nSpacing, nWeight)
  | i :: rest =>
      if BlockIndex.IsProofOfWork i then
        match rest with
        | [] => Undefined
        | p :: _ =>
            let nSpacing := i64 (nSpacing + Z.shiftl (BlockIndex.GetBlockTime i - BlockIndex.GetBlockTime p) (Z.of_nat nWIndex)) in
            let nWeight := i64 (nWeight + Z.shiftl 1 (Z.of_nat nWIndex)) in
            match nWIndex with
            | O => Return (nSpacing, nWeight)
            | S nWIndex => spacing_loop nWIndex nAlgo (skip_to_work nAlgo rest) nSpacing nWeight
            end
        end
      else Return (nSpacing, nWeight)
  end.

(** [GetProofOfWorkTarget]: the bits and the reward, [None] when it fails *)
Definition GetProofOfWorkTarget (chain : list CBlockIndex) (nAlgo : Z) : outcome (option (Z * Z)) :=
  match chain with
  | [] => Undefined
  | i :: _ =>
      if (nAlgo <=? 0) || (CM_MAX <=? nAlgo) || negb (BlockIndex.IsPrimary i) then Return None
      else
        let chain := skip_to_work nAlgo chain in
        match chain with
        | [] => Undefined
        | i :: _ =>
            if negb (BlockIndex.IsProofOfWork i) then Return (Some (nProofOfWorkInit, GetProofOfWorkReward))
            else
              let nBits := bi_nProofBits i in
              '(nSpacing, nWeight) ← spacing_loop (PROOF_OF_WORK_ADJUST_COUNT - 1) nAlgo chain 0 0;
              if nWeight =? 0 then Undefined else
              let nSpacing := nSpacing ÷ nWeight in
              let nBits :=
                if (nProofOfWorkUpperTarget <? nSpacing) && (nProofOfWorkLimit <? nBits) then nBits - 1
                else if nSpacing <? nProofOfWorkLowerTarget then nBits + 1
                else nBits in
              Return (Some (nBits, GetProofOfWorkReward))
        end
  end.

Definition GetProofOfWorkRunTimeBits (nBits nTime nPrevTime : Z) : Z :=
  if nTime - nPrevTime <? BLOCK_TARGET_SPACING then nBits + 1
  else
    let nBits := i32 (nBits - (nTime - nPrevTime - BLOCK_TARGET_SPACING) ÷ PROOF_OF_WORK_DECAY_STEP) in
    if nBits <? nProofOfWorkLimit then nProofOfWorkLimit else nBits.

(** [~uint256(uint64(0)) >> nBits] *)
Definition hash_target (nBits : Z) : Z := Z.shiftr (2 ^ 256 - 1) nBits.

(** ** The ballot of an agreement *)

#[local] Existing Instance Destination.dest_lt_dec.

(** The loop over [mapBallot] that finds whose weight [n] falls into *)
Fixpoint ballot_of (entries : list (CDestination * Z)) (n : Z) : option CDestination :=
  match entries with
  | [] => None
  | (dest, w) :: entries => if n <? w then Some dest else ballot_of entries (n - w)
  end.

Fixpoint ballot_loop (bytes : list Z) (nSelected nWeight nTrust : Z) (entries : list (CDestination * Z))
    (vBallot : list CDestination) : list CDestination :=
  match bytes with
  | [] => vBallot
  | p :: bytes =>
      if nTrust =? 0 then vBallot
      else
        let nSelected := nSelected + p in
        let n := nSelected mod nWeight in
        let vBallot := match ballot_of entries n with Some d => vBallot ++ [d] | None => vBallot end in
        ballot_loop bytes nSelected nWeight (Z.shiftr nTrust 1) entries vBallot
  end.

(** The quotient by [nWeightWork + nWeight] is undefined when that is zero. *)
Definition GetDelegatedBallot (nAgreement nWeight : Z) (mapBallot : gmap CDestination Z) : outcome (list CDestination) :=
  let bytes := le_split 8 32 nAgreement in
  let nSelected := foldl Z.lxor 0 bytes in
  let d := u64 (DELEGATE_THRESH - nWeight) in
  let nWeightWork := u64 (d * d * d) / (DELEGATE_THRESH * DELEGATE_THRESH) in
  if u64 (nWeightWork + nWeight) =? 0 then Undefined
  else if u64 (nWeightWork * 256) / u64 (nWeightWork + nWeight) <=? nSelected
  then Return (ballot_loop bytes nSelected nWeight nWeight (CWalleveStream.map_entries Destination.dest_lt mapBallot) [])
  else Return [].

(** ** The genesis block *)

(** [GetGenesisBlock] of the main and of the test network: they differ in the
    owner and in the names of the profile. *)
Definition genesis_block (owner : Z) (strName strSymbol : list Z) : CBlock :=
  let destOwner := Destination.of_pubkey owner in
  let profile := mkProfile (pf_nVersion Profile.SetNull) strName strSymbol (Profile.SetFlag true false false) MIN_TX_FEE (15 * COIN)
    destOwner (pf_hashParent Profile.SetNull) (pf_nJointHeight Profile.SetNull) in
  let txMint := mkTx (tx_nVersion Tx.SetNull) Tx.TX_GENESIS 1515745156 (tx_nLockUntil Tx.SetNull)
    (tx_hashAnchor Tx.SetNull) (tx_vInput Tx.SetNull) destOwner (745000000 * COIN) (tx_nTxFee Tx.SetNull)
    (tx_vchData Tx.SetNull) (tx_vchSig Tx.SetNull) in
  mkBlock 1 Block.BLOCK_GENESIS 1515745156 0 (b_hashMerkle Block.SetNull)
    (Profile.Save profile (b_vchProof Block.SetNull)).2 txMint (b_vtx Block.SetNull) (b_vchSig Block.SetNull).

Definition ascii_bytes (s : string) : list Z :=
  map (fun c => Z.of_N (Ascii.N_of_ascii c)) (String.list_ascii_of_string s).

Definition GetGenesisBlock : CBlock :=
  genesis_block 0x575f2041770496489120bb102d9dd55f5e75b0c4aa528d5762b92b59acd6d939
    (ascii_bytes "Fission And Fusion Network"%string) (ascii_bytes "FnFn"%string).

Definition TestNet_GetGenesisBlock : CBlock :=
  genesis_block 0x75490d20c9b270d36e019016f154bdfb6f19ff03fa7c09e3280ccc3ad8a1992e
    (ascii_bytes "Fission And Fusion Test Network"%string) (ascii_bytes "FnFnTest"%string).

Section core.
Context (CryptoHash : list Z -> Z) (verify_detached : list Z -> list Z -> Z -> bool) `{IEdwards} (size_type : nat).
(** boost's [base64dec] on a string: [None] when the iterators throw *)
Context (base64dec : list Z -> option (list Z)).

(** [CHttpUtil::Base64Decode]: the decoded string when it succeeds *)
Definition Base64Decode (strEncoded : list Z) : option (list Z) :=
  let nPadding := length (filter (fun c => c = 61) strEncoded) in
  let first := from_option fst (length strEncoded) (list_find (fun c => c = 61) strEncoded) in
  if negb (nPadding =? 0)%nat && ((2 <? nPadding)%nat || negb (first =? length strEncoded - nPadding)%nat) then None
  else
    d ← base64dec (take (length strEncoded - nPadding) strEncoded ++ replicate nPadding 65);
    if (length d <? nPadding)%nat then None else Some (take (length d - nPadding) d).

(** ** Transactions *)

Definition description_required (tx : CTransaction) : bool :=
  (tx_nType tx =? Tx.TX_TOKEN) &&
  (Destination.IsPubKey (tx_sendTo tx) ||
   (Destination.IsTemplate (tx_sendTo tx) &&
    ((Destination.GetTemplateId (tx_sendTo tx) =? TEMPLATE_WEIGHTED) ||
     (Destination.GetTemplateId (tx_sendTo tx) =? TEMPLATE_MULTISIG)))) &&
  negb (bool_decide (tx_vchData tx = [])).

Definition description_ok (vchData : list Z) : bool :=
  if (length vchData <? 21)%nat then false
  else
    let szDesc := nth 20 vchData 0 in
    if 0 <? szDesc then
      if Z.of_nat (length vchData) <? 20 + 1 + szDesc then false
      else bool_decide (is_Some (Base64Decode (take (Z.to_nat szDesc) (drop 21 vchData))))
    else true.

(** The loop over the inputs *)
Fixpoint inputs_ok (setInOutPoints : gset CTxOutPoint) (vin : list CTxIn) : bool :=
  match vin with
  | [] => true
  | txin :: vin =>
      if Tx.outpoint_IsNull (prevout txin) || (1 <? op_n (prevout txin)) then false
      else if bool_decide (prevout txin ∈ setInOutPoints) then false
      else inputs_ok ({[prevout txin]} ∪ setInOutPoints) vin
  end.

Definition is_reward_type (nType : Z) : bool :=
  (nType =? Tx.TX_GENESIS) || (nType =? Tx.TX_WORK) || (nType =? Tx.TX_STAKE).

Definition ValidateTransaction (tx : CTransaction) : MvErr :=
  if description_required tx && negb (description_ok (tx_vchData tx)) then MV_ERR_TRANSACTION_INVALID
  else if bool_decide (tx_vInput tx = []) && negb (is_reward_type (tx_nType tx)) then MV_ERR_TRANSACTION_INVALID
  else if negb (bool_decide (tx_vInput tx = [])) && is_reward_type (tx_nType tx) then MV_ERR_TRANSACTION_INVALID
  else if negb (bool_decide (tx_vchSig tx = [])) && Tx.IsMintTx tx then MV_ERR_TRANSACTION_INVALID
  else if Destination.IsNull (tx_sendTo tx) then MV_ERR_TRANSACTION_OUTPUT_INVALID
  else if negb (MoneyRange (tx_nAmount tx)) then MV_ERR_TRANSACTION_OUTPUT_INVALID
  else if negb (MoneyRange (tx_nTxFee tx))
       || (negb (tx_nType tx =? Tx.TX_TOKEN) && negb (tx_nTxFee tx =? 0))
       || ((tx_nType tx =? Tx.TX_TOKEN) && (tx_nTxFee tx <? MIN_TX_FEE)) then MV_ERR_TRANSACTION_OUTPUT_INVALID
  else if negb (inputs_ok ∅ (tx_vInput tx)) then MV_ERR_TRANSACTION_INPUT_INVALID
  else if MAX_TX_SIZE <? ser_size Tx.tx_codec tx then MV_ERR_TRANSACTION_OVERSIZE
  else MV_OK.

(** The part [VerifyBlockTx] and [VerifyTransaction] share: the signature to
    check, after the recorded destination is taken off; [None] is the error. *)
Definition recorded_signature (tx : CTransaction) (destIn : CDestination) : outcome (option (list Z)) :=
  if Template.IsDestInRecorded (tx_sendTo tx) then
    r ← Template.ParseDestIn (tx_vchSig tx);
    Return (match r with
            | Some (recordedDestIn, vchSig) => if bool_decide (recordedDestIn = destIn) then Some vchSig else None
            | None => None
            end)
  else Return (Some (tx_vchSig tx)).

Definition check_signature (tx : CTransaction) (destIn : CDestination) (vchSig : list Z) : outcome bool :=
  Template.VerifyTxSignature CryptoHash verify_detached size_type destIn
    (Tx.GetSignatureHash CryptoHash tx) (tx_hashAnchor tx) (tx_sendTo tx) vchSig.

(** The loop over [txContxt.vin]: [None] is the early return *)
Fixpoint contxt_value (nTimeStamp nHeight : Z) (vin : list CTxInContxt) (nValueIn : Z) : option Z :=
  match vin with
  | [] => Some nValueIn
  | i :: vin =>
      if nTimeStamp <? inc_nTxTime i then None
      else if Tx.incontxt_IsLocked i nHeight then None
      else contxt_value nTimeStamp nHeight vin (i64 (nValueIn + inc_nAmount i))
  end.

Definition VerifyBlockTx (tx : CTransaction) (txContxt : CTxContxt) (nPrevHeight : Z) : outcome MvErr :=
  let destIn := ctx_destIn txContxt in
  match contxt_value (tx_nTimeStamp tx) nPrevHeight (ctx_vin txContxt) 0 with
  | None => Return MV_ERR_TRANSACTION_INPUT_INVALID
  | Some nValueIn =>
      if negb (MoneyRange nValueIn) then Return MV_ERR_TRANSACTION_INPUT_INVALID
      else if nValueIn <? i64 (tx_nAmount tx + tx_nTxFee tx) then Return MV_ERR_TRANSACTION_INPUT_INVALID
      else
        sig ← recorded_signature tx destIn;
        match sig with
        | None => Return MV_ERR_TRANSACTION_SIGNATURE_INVALID
        | Some vchSig =>
            ok ← check_signature tx destIn vchSig;
            Return (if ok : bool then MV_OK else MV_ERR_TRANSACTION_SIGNATURE_INVALID)
        end
  end.

(** The loop over [vPrevOutput] *)
Fixpoint prevout_value (destIn : CDestination) (nTimeStamp nHeight : Z) (outs : list CTxOutput) (nValueIn : Z) : option Z :=
  match outs with
  | [] => Some nValueIn
  | o :: outs =>
      if negb (bool_decide (destIn = out_destTo o)) then None
      else if nTimeStamp <? out_nTxTime o then None
      else if Tx.output_IsLocked o nHeight then None
      else prevout_value destIn nTimeStamp nHeight outs (i64 (nValueIn + out_nAmount o))
  end.

(** [LockedCoin] of the template a signature carries, for the locked-coin
    templates; [None] when the template cannot be created *)
Definition locked_coin (destIn : CDestination) (vchSig : list Z) (nForkHeight : Z) : outcome (option Z) :=
  ptr ← Template.CreateTemplatePtr CryptoHash size_type (CTemplateId_GetType (Destination.GetTemplateId destIn)) vchSig;
  Return (match ptr with None => None | Some _ => Some (Template.LockedCoin nForkHeight) end).

Definition VerifyTransaction (tx : CTransaction) (vPrevOutput : list CTxOutput) (nForkHeight : Z) : outcome MvErr :=
  match vPrevOutput with
  | [] => Undefined
  | o0 :: _ =>
      let destIn := out_destTo o0 in
      match prevout_value destIn (tx_nTimeStamp tx) nForkHeight vPrevOutput 0 with
      | None => Return MV_ERR_TRANSACTION_INPUT_INVALID
      | Some nValueIn =>
          if negb (MoneyRange nValueIn) then Return MV_ERR_TRANSACTION_INPUT_INVALID
          else if nValueIn <? i64 (tx_nAmount tx + tx_nTxFee tx) then Return MV_ERR_TRANSACTION_INPUT_INVALID
          else
            sig ← recorded_signature tx destIn;
            match sig with
            | None => Return MV_ERR_TRANSACTION_SIGNATURE_INVALID
            | Some vchSig =>
                ok ← check_signature tx destIn vchSig;
                if negb ok then Return MV_ERR_TRANSACTION_SIGNATURE_INVALID
                else if Template.IsLockedCoin destIn then
                  locked ← locked_coin destIn vchSig nForkHeight;
                  match locked with
                  | None => Return MV_ERR_TRANSACTION_SIGNATURE_INVALID
                  | Some nLockedCoin =>
                      if nValueIn <? i64 (tx_nAmount tx + tx_nTxFee tx + nLockedCoin)
                      then Return MV_ERR_TRANSACTION_INPUT_INVALID else Return MV_OK
                  end
                else Return MV_OK
            end
      end
  end.

(** ** Blocks *)

(** [CheckBlockSignature]; [hashGenesisBlock] is the member of that name *)
Definition CheckBlockSignature (hashGenesisBlock : Z) (block : CBlock) : outcome bool :=
  let hash := Block.GetHash CryptoHash block in
  if negb (hash =? hashGenesisBlock)
  then Template.VerifyBlockSignature CryptoHash verify_detached size_type (tx_sendTo (b_txMint block)) hash (b_vchSig block)
  else Return true.

Definition ValidateVacantBlock (block : CBlock) : MvErr :=
  if negb (b_hashMerkle block =? 0) || negb (bool_decide (b_txMint block = Tx.SetNull))
     || negb (bool_decide (b_vtx block = [])) then MV_ERR_BLOCK_TRANSACTIONS_INVALID
  else if negb (bool_decide (b_vchProof block = [])) || negb (bool_decide (b_vchSig block = []))
  then MV_ERR_BLOCK_SIGNATURE_INVALID
  else MV_OK.

Definition valid_mint (tx : CTransaction) : bool := Tx.IsMintTx tx && bool_decide (ValidateTransaction tx = MV_OK).

Definition valid_vtx (tx : CTransaction) : bool := negb (Tx.IsMintTx tx) && bool_decide (ValidateTransaction tx = MV_OK).

(** [ValidateBlock] at the network time [nNetTime] *)
Definition ValidateBlock (nNetTime hashGenesisBlock : Z) (block : CBlock) : outcome MvErr :=
  if nNetTime + MAX_CLOCK_DRIFT <? b_nTimeStamp block then Return MV_ERR_BLOCK_TIMESTAMP_OUT_OF_RANGE
  else if (b_nType block =? Block.BLOCK_EXTENDED) && bool_decide (b_vtx block = [])
  then Return MV_ERR_BLOCK_TRANSACTIONS_INVALID
  else if b_nType block =? Block.BLOCK_VACANT then Return (ValidateVacantBlock block)
  else if negb (valid_mint (b_txMint block)) then Return MV_ERR_BLOCK_TRANSACTIONS_INVALID
  else if MAX_BLOCK_SIZE <? ser_size Block.block_codec block then Return MV_ERR_BLOCK_OVERSIZE
  else if (b_nType block =? Block.BLOCK_ORIGIN) && negb (bool_decide (b_vtx block = []))
  then Return MV_ERR_BLOCK_TRANSACTIONS_INVALID
  else
    match Block.BuildMerkleTree CryptoHash (map (Tx.GetHash CryptoHash) (b_vtx block)) with
    | None => Undefined
    | Some vMerkleTree =>
        if negb (b_hashMerkle block =? Block.merkle_back vMerkleTree) then Return MV_ERR_BLOCK_TXHASH_MISMATCH
        else
          let setTx : gset Z := list_to_set (take (length (b_vtx block)) vMerkleTree) in
          if negb (size setTx =? length (b_vtx block))%nat then Return MV_ERR_BLOCK_DUPLICATED_TRANSACTION
          else if negb (forallb valid_vtx (b_vtx block)) then Return MV_ERR_BLOCK_TRANSACTIONS_INVALID
          else
            ok ← CheckBlockSignature hashGenesisBlock block;
            Return (if ok : bool then MV_OK else MV_ERR_BLOCK_SIGNATURE_INVALID)
    end.

(** [ValidateOrigin]: the error and the profile of the fork it loads *)
Definition ValidateOrigin (block : CBlock) (parentProfile : CProfile) : outcome (MvErr * option CProfile) :=
  r ← Profile.Load (b_vchProof block);
  match r with
  | None => Return (MV_ERR_BLOCK_INVALID_FORK, None)
  | Some forkProfile =>
      if Profile.IsNull forkProfile then Return (MV_ERR_BLOCK_INVALID_FORK, Some forkProfile)
      else if Profile.IsPrivate parentProfile
              && (negb (Profile.IsPrivate forkProfile) || negb (bool_decide (pf_destOwner parentProfile = pf_destOwner forkProfile)))
      then Return (MV_ERR_BLOCK_INVALID_FORK, Some forkProfile)
      else Return (MV_OK, Some forkProfile)
  end.

(** [VerifyProofOfWork]: the error and the reward; the chain starts at [pIndexPrev] *)
Definition VerifyProofOfWork (block : CBlock) (chain : list CBlockIndex) (nReward : Z) : outcome (MvErr * Z) :=
  match chain with
  | [] => Undefined
  | pIndexPrev :: _ =>
      match Block.compact_Load (b_vchProof block) with
      | None => Return (MV_ERR_BLOCK_PROOF_OF_WORK_INVALID, nReward)
      | Some (nAlgo, nProofBits, _) =>
          if b_nTimeStamp block <? BlockIndex.GetBlockTime pIndexPrev
          then Return (MV_ERR_BLOCK_TIMESTAMP_OUT_OF_RANGE, nReward)
          else
            target ← GetProofOfWorkTarget chain nAlgo;
            match target with
            | None => Return (MV_ERR_BLOCK_PROOF_OF_WORK_INVALID, nReward)
            | Some (nBits, nReward) =>
                if negb (nBits =? nProofBits) || negb (nAlgo =? CM_BLAKE512)
                then Return (MV_ERR_BLOCK_PROOF_OF_WORK_INVALID, nReward)
                else
                  let hashTarget := hash_target
                    (GetProofOfWorkRunTimeBits nBits (b_nTimeStamp block) (BlockIndex.GetBlockTime pIndexPrev)) in
                  let hash := CryptoHash (Block.GetSerializedProofOfWorkData block) in
                  if hashTarget <? hash then Return (MV_ERR_BLOCK_PROOF_OF_WORK_INVALID, nReward)
                  else Return (MV_OK, nReward)
            end
      end
  end.

End core.

(** [VerifyDelegatedProofOfStake]: the error and the reward *)
Definition VerifyDelegatedProofOfStake (block : CBlock) (pIndexPrev : CBlockIndex) (agreement : CDelegateAgreement)
    (nReward : Z) : outcome (MvErr * Z) :=
  if (b_nTimeStamp block <? BlockIndex.GetBlockTime pIndexPrev + BLOCK_TARGET_SPACING)
     || (BlockIndex.GetBlockTime pIndexPrev + BLOCK_TARGET_SPACING * 3 / 2 <=? b_nTimeStamp block)
  then Return (MV_ERR_BLOCK_TIMESTAMP_OUT_OF_RANGE, nReward)
  else
    match ag_vBallot agreement with
    | [] => Undefined
    | b0 :: _ =>
        if negb (bool_decide (tx_sendTo (b_txMint block) = b0)) then Return (MV_ERR_BLOCK_PROOF_OF_STAKE_INVALID, nReward)
        else Return (MV_OK, GetDelegatedProofOfStakeReward)
    end.

(** [VerifySubsidiary]: the error and the reward *)
Definition VerifySubsidiary (block : CBlock) (pIndexPrev pIndexRef : CBlockIndex) (agreement : CDelegateAgreement)
    (nReward : Z) : MvErr * Z :=
  let t := b_nTimeStamp block in
  let ref := BlockIndex.GetBlockTime pIndexRef in
  let ballot nReward :=
    let nIndex := i32 ((t - ref) ÷ EXTENDED_BLOCK_SPACING) in
    if negb (bool_decide (tx_sendTo (b_txMint block) = GetBallot agreement nIndex))
    then (MV_ERR_BLOCK_PROOF_OF_STAKE_INVALID, nReward) else (MV_OK, nReward) in
  if t <? BlockIndex.GetBlockTime pIndexPrev then (MV_ERR_BLOCK_TIMESTAMP_OUT_OF_RANGE, nReward)
  else if negb (Block.IsExtended block) then
    if negb (t =? ref) then (MV_ERR_BLOCK_TIMESTAMP_OUT_OF_RANGE, nReward)
    else ballot GetDelegatedProofOfStakeReward
  else if (t <=? ref) || (ref + BLOCK_TARGET_SPACING <=? t) then (MV_ERR_BLOCK_TIMESTAMP_OUT_OF_RANGE, nReward)
  else ballot 0.

(** ** Transactions: what [ValidateTransaction] accepts *)

Section validate.
Context (base64dec : list Z -> option (list Z)).

(** The rules of a transaction that need no context *)
Record tx_valid (tx : CTransaction) : Prop := {
  valid_description : description_required tx = true -> description_ok base64dec (tx_vchData tx) = true;
  valid_mint_inputs : Tx.IsMintTx tx = true <-> tx_vInput tx = [];
  valid_mint_sig : Tx.IsMintTx tx = true -> tx_vchSig tx = [];
  valid_sendTo : Destination.IsNull (tx_sendTo tx) = false;
  valid_amount : 0 <= tx_nAmount tx <= MAX_MONEY;
  valid_fee : 0 <= tx_nTxFee tx <= MAX_MONEY;
  valid_token_fee : if tx_nType tx =? Tx.TX_TOKEN then MIN_TX_FEE <= tx_nTxFee tx else tx_nTxFee tx = 0;
  valid_prevouts : Forall (fun i => Tx.outpoint_IsNull (prevout i) = false /\ op_n (prevout i) <= 1) (tx_vInput tx);
  valid_distinct : NoDup (prevout <$> tx_vInput tx);
  valid_size : ser_size Tx.tx_codec tx <= MAX_TX_SIZE;
}.

Lemma inputs_ok_spec vin s :
  inputs_ok s vin = true <->
  Forall (fun i => Tx.outpoint_IsNull (prevout i) = false /\ op_n (prevout i) <= 1) vin /\
  NoDup (prevout <$> vin) /\ (forall i, i ∈ vin -> prevout i ∉ s).
Proof.
  revert s. induction vin as [|i vin IH]; intros s; cbn [inputs_ok fmap list_fmap].
  { split; [|done]. intros _. refine (conj _ (conj _ _)); [constructor..|]. by intros i ?%elem_of_nil. }
  rewrite Forall_cons, NoDup_cons. destruct (Tx.outpoint_IsNull (prevout i)); cbn [orb].
  { split; [done|]. intros [[[? _] _] _]. done. }
  destruct (Z.ltb_spec 1 (op_n (prevout i))). { split; [done|]. intros [[[_ ?] _] _]. lia. }
  case_bool_decide as Hin. { split; [done|]. intros (_ & _ & Hs). by destruct (Hs i ltac:(left)). }
  rewrite IH. split.
  - intros (HF & HN & Hs). refine (conj (conj (conj eq_refl _) HF) (conj (conj _ HN) _)); [lia|..].
    + intros (j & Ej & Hj)%list_elem_of_fmap. apply (Hs j Hj). rewrite <- Ej. set_solver.
    + intros j [-> | Hj]%elem_of_cons; [done|]. specialize (Hs j Hj). set_solver.
  - intros ([_ HF] & [Hni HN] & Hs). refine (conj HF (conj HN _)). intros j Hj [Ej%elem_of_singleton|Hj']%elem_of_union.
    + apply Hni. rewrite <- Ej. by apply list_elem_of_fmap_2.
    + by apply (Hs j ltac:(by right)).
Qed.

Lemma is_reward_mint tx : is_reward_type (tx_nType tx) = Tx.IsMintTx tx.
Proof. unfold is_reward_type, Tx.IsMintTx. by rewrite <- !orb_assoc, (orb_comm (_ =? Tx.TX_WORK)). Qed.

Lemma MoneyRange_spec z : MoneyRange z = true <-> 0 <= z <= MAX_MONEY.
Proof. unfold MoneyRange. rewrite andb_true_iff, !Z.leb_le. done. Qed.

Lemma guard_ok (b : bool) (err k : MvErr) : err <> MV_OK -> (if b then err else k) = MV_OK <-> b = false /\ k = MV_OK.
Proof. destruct b; naive_solver. Qed.

Lemma ValidateTransaction_ok tx : ValidateTransaction base64dec tx = MV_OK <-> tx_valid tx.
Proof.
  unfold ValidateTransaction. rewrite is_reward_mint, !guard_ok by discriminate.
  rewrite !orb_false_iff, !andb_false_iff, !negb_false_iff, !MoneyRange_spec, !bool_decide_eq_true, !bool_decide_eq_false,
    inputs_ok_spec, !Z.ltb_ge, !Z.eqb_eq, !Z.eqb_neq.
  split.
  - intros (Hd & Hi & Hi' & Hs & Ht & Ha & [[Hf Hf'] Hf''] & (Hp & Hn & _) & Hz & _).
    constructor; try tauto.
    + intros E. by destruct Hd as [Hd|Hd]; [congruence|].
    + destruct (Tx.IsMintTx tx); intuition congruence.
    + destruct (Tx.IsMintTx tx); intuition congruence.
    + destruct (Z.eqb_spec (tx_nType tx) Tx.TX_TOKEN); tauto.
  - intros [Hd Hi Hs Ht Ha Hf Hf' Hp Hn Hz]. split_and!; try done; try apply Ha; try apply Hf.
    + destruct (description_required tx); auto.
    + destruct (Tx.IsMintTx tx); intuition congruence.
    + destruct (Tx.IsMintTx tx); intuition congruence.
    + destruct (Tx.IsMintTx tx); intuition congruence.
    + destruct (Z.eqb_spec (tx_nType tx) Tx.TX_TOKEN); tauto.
    + destruct (Z.eqb_spec (tx_nType tx) Tx.TX_TOKEN); tauto.
Qed.

(** The rules in the order in which they are tried, with the error of each *)
Definition tx_rules (tx : CTransaction) : list (Prop * MvErr) := [
  (description_required tx = true -> description_ok base64dec (tx_vchData tx) = true, MV_ERR_TRANSACTION_INVALID);
  (Tx.IsMintTx tx = false -> tx_vInput tx <> [], MV_ERR_TRANSACTION_INVALID);
  (Tx.IsMintTx tx = true -> tx_vInput tx = [], MV_ERR_TRANSACTION_INVALID);
  (Tx.IsMintTx tx = true -> tx_vchSig tx = [], MV_ERR_TRANSACTION_INVALID);
  (Destination.IsNull (tx_sendTo tx) = false, MV_ERR_TRANSACTION_OUTPUT_INVALID);
  (0 <= tx_nAmount tx <= MAX_MONEY, MV_ERR_TRANSACTION_OUTPUT_INVALID);
  (0 <= tx_nTxFee tx <= MAX_MONEY /\ (tx_nType tx <> Tx.TX_TOKEN -> tx_nTxFee tx = 0) /\
     (tx_nType tx = Tx.TX_TOKEN -> MIN_TX_FEE <= tx_nTxFee tx), MV_ERR_TRANSACTION_OUTPUT_INVALID);
  (Forall (fun i => Tx.outpoint_IsNull (prevout i) = false /\ op_n (prevout i) <= 1) (tx_vInput tx) /\
     NoDup (prevout <$> tx_vInput tx), MV_ERR_TRANSACTION_INPUT_INVALID);
  (ser_size Tx.tx_codec tx <= MAX_TX_SIZE, MV_ERR_TRANSACTION_OVERSIZE)
].

(** The error of the first rule that is broken *)
Inductive first_broken : list (Prop * MvErr) -> MvErr -> Prop :=
  | fb_none : first_broken [] MV_OK
  | fb_here P e l : ~ P -> first_broken ((P, e) :: l) e
  | fb_later P e l e' : P -> first_broken l e' -> first_broken ((P, e) :: l) e'.

Lemma first_broken_unique l e1 e2 : first_broken l e1 -> first_broken l e2 -> e1 = e2.
Proof. intros H. revert e2. induction H; inversion 1; subst; [done|done|done|done|by apply IHfirst_broken]. Qed.

Lemma first_guard (b : bool) (P : Prop) err l k :
  (b = false <-> P) -> first_broken l k -> first_broken ((P, err) :: l) (if b then err else k).
Proof. intros Hb Hk. destruct b; [apply fb_here|apply fb_later]; naive_solver. Qed.

Lemma ValidateTransaction_first tx : first_broken (tx_rules tx) (ValidateTransaction base64dec tx).
Proof.
  unfold tx_rules, ValidateTransaction. rewrite is_reward_mint. repeat apply first_guard; [..|apply fb_none].
  - rewrite andb_false_iff, negb_false_iff. destruct (description_required tx); naive_solver.
  - rewrite andb_false_iff, negb_false_iff, bool_decide_eq_false. destruct (Tx.IsMintTx tx); naive_solver.
  - rewrite andb_false_iff, negb_false_iff, bool_decide_eq_true. destruct (Tx.IsMintTx tx); naive_solver.
  - rewrite andb_false_iff, negb_false_iff, bool_decide_eq_true. destruct (Tx.IsMintTx tx); naive_solver.
  - done.
  - by rewrite negb_false_iff, MoneyRange_spec.
  - rewrite !orb_false_iff, !andb_false_iff, !negb_false_iff, MoneyRange_spec, Z.ltb_ge, !Z.eqb_eq, Z.eqb_neq.
    destruct (decide (tx_nType tx = Tx.TX_TOKEN)); tauto.
  - rewrite negb_false_iff, inputs_ok_spec. set_solver.
  - apply Z.ltb_ge.
Qed.

End validate.

(** ** Transactions in context *)

Section verify.
Context (CryptoHash : list Z -> Z) (verify_detached : list Z -> list Z -> Z -> bool) `{IEdwards} (size_type : nat).

Definition total_value (outs : list CTxOutput) : Z := foldr Z.add 0 (out_nAmount <$> outs).

Definition spendable_at (destIn : CDestination) (nTimeStamp nHeight : Z) (o : CTxOutput) : Prop :=
  out_destTo o = destIn /\ out_nTxTime o <= nTimeStamp /\ Tx.output_IsLocked o nHeight = false.

Definition money (o : CTxOutput) : Prop := 0 <= out_nAmount o <= MAX_MONEY.

Lemma total_value_range outs :
  Forall money outs -> 0 <= total_value outs <= Z.of_nat (length outs) * MAX_MONEY.
Proof.
  unfold total_value. induction 1 as [|o outs Ho _ IH]; [done|]. cbn [fmap list_fmap foldr length].
  unfold money in Ho. rewrite Nat2Z.inj_succ. fold (fmap out_nAmount outs). lia.
Qed.

Lemma prevout_value_spec destIn t h outs acc v :
  Forall money outs -> 0 <= acc -> acc + Z.of_nat (length outs) * MAX_MONEY < 2 ^ 63 ->
  prevout_value destIn t h outs acc = Some v <-> Forall (spendable_at destIn t h) outs /\ v = acc + total_value outs.
Proof.
  intros Hm. revert acc. induction Hm as [|o outs Ho Hm IH]; intros acc Ha Hb.
  { cbn. rewrite Z.add_0_r. split; [intros [= ->]; done|intros [_ ->]; done]. }
  cbn [prevout_value length] in *. rewrite Forall_cons. unfold spendable_at at 1. unfold money in Ho.
  pose proof (total_value_range outs Hm). unfold MAX_MONEY, COIN in *.
  case_bool_decide as Hd; cbn [negb]; [|naive_solver].
  destruct (Z.ltb_spec t (out_nTxTime o)); [split; [done|]; intros [[(_ & ? & _) _] _]; lia|].
  destruct (Tx.output_IsLocked o h); [naive_solver|].
  rewrite swrap_small by lia. rewrite IH by lia. unfold total_value. cbn [fmap list_fmap foldr].
  fold (fmap out_nAmount outs). rewrite Z.add_assoc. naive_solver lia.
Qed.

Lemma prevout_contxt destIn t h outs acc :
  Forall (fun o => out_destTo o = destIn) outs ->
  prevout_value destIn t h outs acc = contxt_value t h (Tx.incontxt_of_output <$> outs) acc.
Proof.
  intros Hd. revert acc. induction Hd as [|o outs Ho Hd IH]; intros acc; [done|].
  cbn [prevout_value contxt_value fmap list_fmap]. rewrite bool_decide_eq_true_2 by done. cbn [negb].
  change (Tx.incontxt_IsLocked (Tx.incontxt_of_output o) h) with (Tx.output_IsLocked o h).
  cbn [Tx.incontxt_of_output inc_nTxTime inc_nAmount]. by rewrite IH.
Qed.

Lemma contxt_value_total t h vin acc v :
  contxt_value t h vin acc = Some v -> v = foldl (fun n i => i64 (n + inc_nAmount i)) acc vin.
Proof.
  revert acc. induction vin as [|i vin IH]; intros acc; cbn [contxt_value foldl]; [congruence|].
  repeat case_match; try done. apply IH.
Qed.

Lemma recorded_signature_returns tx destIn : exists r, recorded_signature tx destIn = Return r.
Proof.
  unfold recorded_signature. destruct (Template.IsDestInRecorded _); [|by eexists].
  destruct (Template.ParseDestIn_returns (tx_vchSig tx)) as [r ->]. by eexists.
Qed.

Lemma check_signature_returns tx destIn sig :
  exists ok, check_signature CryptoHash verify_detached size_type tx destIn sig = Return ok.
Proof. apply Template.VerifyTxSignature_returns. Qed.

(** A template whose signature was accepted can be created again. *)
Lemma locked_coin_signed tx destIn sig h :
  Template.IsLockedCoin destIn = true -> check_signature CryptoHash verify_detached size_type tx destIn sig = Return true ->
  locked_coin CryptoHash size_type destIn sig h = Return (Some (Template.LockedCoin h)).
Proof.
  intros Hl Hc. unfold locked_coin. apply Template.VerifyTxSignature_created in Hc as (t & -> & _); [done|].
  unfold Template.IsLockedCoin in Hl. by destruct (Destination.IsTemplate destIn).
Qed.

Lemma VerifyBlockTx_returns tx txContxt h :
  exists err, VerifyBlockTx CryptoHash verify_detached size_type tx txContxt h = Return err.
Proof.
  unfold VerifyBlockTx. destruct (contxt_value _ _ _ _) as [nValueIn|]; [|by eexists].
  destruct (negb _); [by eexists|]. destruct (_ <? _); [by eexists|].
  destruct (recorded_signature_returns tx (ctx_destIn txContxt)) as [[sig|] ->]; cbn [mbind outcome_bind]; [|by eexists].
  destruct (check_signature_returns tx (ctx_destIn txContxt) sig) as [ok ->]. by eexists.
Qed.

Lemma VerifyTransaction_returns tx outs h :
  outs <> [] -> exists e, VerifyTransaction CryptoHash verify_detached size_type tx outs h = Return e.
Proof.
  destruct outs as [|o outs]; [done|]. intros _. unfold VerifyTransaction.
  destruct (prevout_value _ _ _ _ _) as [v|]; [|by eexists]. do 2 (case_match; [by eexists|]).
  destruct (recorded_signature_returns tx (out_destTo o)) as [[sig|] ->]; cbn [mbind outcome_bind]; [|by eexists].
  destruct (check_signature_returns tx (out_destTo o) sig) as [[] E]; rewrite E; cbn [mbind outcome_bind negb]; [|by eexists].
  destruct (Template.IsLockedCoin _) eqn:El; [|by eexists].
  rewrite (locked_coin_signed _ _ _ _ El E). cbn [mbind outcome_bind]. case_match; by eexists.
Qed.

Definition accepted_by (tx : CTransaction) (outs : list CTxOutput) (h : Z) (destIn : CDestination) : Prop :=
  exists sig,
    Forall (spendable_at destIn (tx_nTimeStamp tx) h) outs /\
    total_value outs <= MAX_MONEY /\
    tx_nAmount tx + tx_nTxFee tx + (if Template.IsLockedCoin destIn then Template.LockedCoin h else 0) <= total_value outs /\
    recorded_signature tx destIn = Return (Some sig) /\
    check_signature CryptoHash verify_detached size_type tx destIn sig = Return true.

Lemma VerifyTransaction_ok tx outs h :
  outs <> [] -> Forall money outs -> Z.of_nat (length outs) * MAX_MONEY < 2 ^ 63 -> 0 <= h ->
  0 <= tx_nAmount tx <= MAX_MONEY -> 0 <= tx_nTxFee tx <= MAX_MONEY ->
  VerifyTransaction CryptoHash verify_detached size_type tx outs h = Return MV_OK <->
  exists destIn, accepted_by tx outs h destIn.
Proof.
  intros Hne Hm Hlen Hh Ha Hf. destruct outs as [|o outs]; [done|].
  pose proof (total_value_range _ Hm). pose proof (Template.LockedCoin_range h Hh).
  assert (Hdest : forall destIn, accepted_by tx (o :: outs) h destIn -> destIn = out_destTo o).
  { intros destIn (sig & Hs & _). apply Forall_cons_1 in Hs as [[Hs _] _]. done. }
  unfold VerifyTransaction. set (destIn := out_destTo o) in *.
  assert (Hpv := prevout_value_spec destIn (tx_nTimeStamp tx) h (o :: outs) 0).
  set (total := total_value (o :: outs)) in *.
  unfold MAX_MONEY, COIN, Template.MORTGAGE_BASE in *.
  transitivity (accepted_by tx (o :: outs) h destIn).
  2:{ split; [eauto|]. intros (d & Hd). by rewrite <- (Hdest d Hd). }
  unfold accepted_by, MAX_MONEY, COIN. fold total. destruct (prevout_value _ _ _ _ _) as [v|] eqn:Ev.
  2:{ split; [done|]. intros (sig & Hs & _). 
      discriminate (proj2 (Hpv total Hm ltac:(lia) Hlen) (conj Hs eq_refl)). }
  clear Ev. destruct (proj1 (Hpv v Hm ltac:(lia) Hlen) eq_refl) as [Hs Ev]. rewrite Z.add_0_l in Ev. subst v.
  destruct (MoneyRange total) eqn:Er.
  2:{ split; [done|]. intros (sig & _ & Ht & _). apply not_true_iff_false in Er. destruct Er. apply MoneyRange_spec.
      unfold MAX_MONEY, COIN. lia. }
  apply MoneyRange_spec in Er. unfold MAX_MONEY, COIN in Er. cbn [negb].
  rewrite (swrap_small 64 (tx_nAmount tx + tx_nTxFee tx)) by lia. destruct (Z.ltb_spec total (tx_nAmount tx + tx_nTxFee tx)).
  { split; [done|]. intros (sig & _ & _ & Hc & _). destruct (Template.IsLockedCoin destIn); lia. }
  destruct (recorded_signature_returns tx destIn) as [[sig|] ->]; cbn [mbind outcome_bind]; [|naive_solver].
  destruct (check_signature_returns tx destIn sig) as [[] E]; rewrite E; cbn [mbind outcome_bind negb].
  2:{ split; [done|]. intros (sig' & _ & _ & _ & [= <-] & E'). congruence. }
  destruct (Template.IsLockedCoin destIn) eqn:El.
  - rewrite (locked_coin_signed _ _ _ _ El E). cbn [mbind outcome_bind]. rewrite swrap_small by lia.
    case_match_eqn; bool_to_prop; [|naive_solver lia]. split; [done|]. intros (sig' & _ & _ & Hc & _). lia.
  - split; [|done]. intros _. exists sig. split_and!; (done || lia).
Qed.

End verify.

(** The inputs a serialized transaction has room for *)
Lemma tx_inputs_bound tx : 33 * Z.of_nat (length (tx_vInput tx)) <= ser_size Tx.tx_codec tx.
Proof.
  assert (Hv : forall z, 0 <= CWalleveStream.CVarInt_size z) by (intros z; unfold CWalleveStream.CVarInt_size; repeat case_match; lia).
  pose proof (Hv (Z.of_nat (length (tx_vInput tx)))). pose proof (Hv (Z.of_nat (length (tx_vchData tx)))).
  pose proof (Hv (Z.of_nat (length (tx_vchSig tx)))).
  assert (foldr (fun a n => ser_size Tx.txin_codec a + n) 0 (tx_vInput tx) = 33 * Z.of_nat (length (tx_vInput tx))) as E.
  { clear. induction (tx_vInput tx) as [|i l IH]; [done|]. cbn [foldr length]. rewrite IH. change (ser_size Tx.txin_codec i) with 33. lia. }
  unfold Tx.tx_codec, Tx.tx_body_codec, Tx.tx_body.
  cbn [ser_size CWalleveStream.object_codec CWalleveStream.pair_codec CWalleveStream.vector_codec CWalleveStream.string_codec
    CWalleveStream.uint_codec CWalleveStream.sint_codec CWalleveStream.CVarInt Destination.dest_codec fst snd].
  rewrite E. lia.
Qed.

(** ** Blocks *)

Lemma size_list_to_set_NoDup (l : list Z) : size (list_to_set l : gset Z) = length l <-> NoDup l.
Proof.
  split; [|apply size_list_to_set]. induction l as [|x l IH]; [constructor|]. cbn [list_to_set length].
  assert (Hle : forall k : list Z, (size (list_to_set k : gset Z) <= length k)%nat).
  { clear. induction k as [|y k IH]; [done|]. cbn [list_to_set length].
    pose proof (size_union_alt ({[y]} : gset Z) (list_to_set k)) as E. rewrite size_singleton in E.
    pose proof (subseteq_size (list_to_set k ∖ {[y]}) (list_to_set k : gset Z) ltac:(set_solver)). lia. }
  specialize (Hle l). intros E. destruct (decide (x ∈ l)) as [Hin|Hin].
  - replace ({[x]} ∪ list_to_set l : gset Z) with (list_to_set l : gset Z) in E by set_solver. lia.
  - constructor; [done|]. apply IH. rewrite size_union, size_singleton in E by set_solver. lia.
Qed.

Section validate_block.
Context (CryptoHash : list Z -> Z) (verify_detached : list Z -> list Z -> Z -> bool) (size_type : nat).
Context (base64dec : list Z -> option (list Z)).

(** The rules of a block that need no chain *)
Record block_valid (nNetTime hashGenesisBlock : Z) (block : CBlock) : Prop := {
  block_time : b_nTimeStamp block <= nNetTime + MAX_CLOCK_DRIFT;
  block_extended : b_nType block = Block.BLOCK_EXTENDED -> b_vtx block <> [];
  block_origin : b_nType block = Block.BLOCK_ORIGIN -> b_vtx block = [];
  block_mint : Tx.IsMintTx (b_txMint block) = true /\ tx_valid base64dec (b_txMint block);
  block_vtx : Forall (fun tx => Tx.IsMintTx tx = false /\ tx_valid base64dec tx) (b_vtx block);
  block_merkle : Block.merkle_root CryptoHash (map (Tx.GetHash CryptoHash) (b_vtx block)) (b_hashMerkle block);
  block_distinct : NoDup (map (Tx.GetHash CryptoHash) (b_vtx block));
  block_size : ser_size Block.block_codec block <= MAX_BLOCK_SIZE;
  block_signature : CheckBlockSignature CryptoHash verify_detached size_type hashGenesisBlock block = Return true;
}.

(** A vacant block carries nothing. *)
Definition vacant_valid (nNetTime : Z) (block : CBlock) : Prop :=
  b_nTimeStamp block <= nNetTime + MAX_CLOCK_DRIFT /\ b_hashMerkle block = 0 /\ b_txMint block = Tx.SetNull /\
  b_vtx block = [] /\ b_vchProof block = [] /\ b_vchSig block = [].

Lemma CheckBlockSignature_returns hashGenesisBlock block :
  exists ok, CheckBlockSignature CryptoHash verify_detached size_type hashGenesisBlock block = Return ok.
Proof.
  unfold CheckBlockSignature. destruct (negb _); [|by eexists]. apply Template.VerifyBlockSignature_returns.
Qed.

Lemma guard_return (b : bool) (err : MvErr) (k : outcome MvErr) :
  err <> MV_OK -> (if b then Return err else k) = Return MV_OK <-> b = false /\ k = Return MV_OK.
Proof. destruct b; naive_solver. Qed.

Lemma valid_vtx_spec tx : valid_vtx base64dec tx = true <-> Tx.IsMintTx tx = false /\ tx_valid base64dec tx.
Proof. unfold valid_vtx. by rewrite andb_true_iff, negb_true_iff, bool_decide_eq_true, ValidateTransaction_ok. Qed.

Lemma valid_mint_spec tx : valid_mint base64dec tx = true <-> Tx.IsMintTx tx = true /\ tx_valid base64dec tx.
Proof. unfold valid_mint. by rewrite andb_true_iff, bool_decide_eq_true, ValidateTransaction_ok. Qed.

Lemma ValidateVacantBlock_ok block :
  ValidateVacantBlock block = MV_OK <-> b_hashMerkle block = 0 /\ b_txMint block = Tx.SetNull /\
    b_vtx block = [] /\ b_vchProof block = [] /\ b_vchSig block = [].
Proof.
  unfold ValidateVacantBlock. rewrite !guard_ok by discriminate.
  rewrite !orb_false_iff, !negb_false_iff, !bool_decide_eq_true, Z.eqb_eq. naive_solver.
Qed.

End validate_block.

(** ** The proof-of-work target: reference definition *)

Definition is_work (nAlgo : Z) (i : CBlockIndex) : bool := BlockIndex.IsProofOfWork i && (bi_nProofAlgo i =? nAlgo).

(** The spacings of the proof-of-work blocks of a chain, the latest first *)
Fixpoint work_spacings (nAlgo : Z) (chain : list CBlockIndex) : list Z :=
  match chain with
  | i :: (p :: _) as rest =>
      if is_work nAlgo i then BlockIndex.GetBlockTime i - BlockIndex.GetBlockTime p :: work_spacings nAlgo rest
      else work_spacings nAlgo rest
  | _ => []
  end.

(** The sum of [l] with the weights 2^n, 2^(n-1), ..., 1 *)
Fixpoint weighted (n : nat) (l : list Z) : Z :=
  match l with
  | [] => 0
  | x :: l => x * 2 ^ Z.of_nat n + match n with O => 0 | S n => weighted n l end
  end.

Definition average_spacing (l : list Z) : Z := weighted 15 l ÷ weighted 15 ((fun _ => 1) <$> l).

Definition adjust_bits (nBits nSpacing : Z) : Z :=
  if (100 <? nSpacing) && (16 <? nBits) then nBits - 1 else if nSpacing <? 80 then nBits + 1 else nBits.

Definition target_bits (nAlgo : Z) (chain : list CBlockIndex) : Z :=
  match filter (fun i => is_work nAlgo i = true) chain with
  | [] => nProofOfWorkInit
  | i :: _ => adjust_bits (bi_nProofBits i) (average_spacing (work_spacings nAlgo chain))
  end.

(** A chain that ends in a block that is not proof of work, the genesis block *)
Definition chain_wf (chain : list CBlockIndex) : Prop :=
  (exists g, last chain = Some g /\ BlockIndex.IsProofOfWork g = false) /\
  Forall (fun i => is_uint 32 (bi_nTimeStamp i)) chain.

Lemma chain_wf_tail i p rest : chain_wf (i :: p :: rest) -> chain_wf (p :: rest).
Proof. intros [Hg Ht]. split; [exact Hg|]. by apply Forall_cons_1 in Ht as [_ ?]. Qed.

Lemma skip_to_work_cons nAlgo i p rest :
  skip_to_work nAlgo (i :: p :: rest) = if is_work nAlgo i then i :: p :: rest else skip_to_work nAlgo (p :: rest).
Proof. cbn [skip_to_work]. unfold is_work. rewrite <- negb_andb. by destruct (_ && _). Qed.

Lemma work_spacings_cons nAlgo i p rest :
  work_spacings nAlgo (i :: p :: rest) =
  if is_work nAlgo i then BlockIndex.GetBlockTime i - BlockIndex.GetBlockTime p :: work_spacings nAlgo (p :: rest)
  else work_spacings nAlgo (p :: rest).
Proof. done. Qed.

(** Where skipping ends: at a block of work with a predecessor, or at the end *)
Lemma skip_to_work_cases nAlgo chain :
  chain_wf chain ->
  filter (fun i => is_work nAlgo i = true) (skip_to_work nAlgo chain) = filter (fun i => is_work nAlgo i = true) chain /\
  work_spacings nAlgo (skip_to_work nAlgo chain) = work_spacings nAlgo chain /\
  chain_wf (skip_to_work nAlgo chain) /\
  ((exists i p rest, skip_to_work nAlgo chain = i :: p :: rest /\ is_work nAlgo i = true) \/
   (exists g, skip_to_work nAlgo chain = [g] /\ BlockIndex.IsProofOfWork g = false)).
Proof.
  induction chain as [|i chain IH]; intros Hwf; [destruct Hwf as [(g & Hg & _) _]; done|].
  destruct chain as [|p rest].
  { refine (conj eq_refl (conj eq_refl (conj Hwf (or_intror _)))).
    destruct Hwf as [(g & [= ->] & Hg) _]. by exists g. }
  specialize (IH (chain_wf_tail _ _ _ Hwf)). rewrite skip_to_work_cons, work_spacings_cons.
  destruct (is_work nAlgo i) eqn:Ei.
  { rewrite work_spacings_cons, Ei. refine (conj eq_refl (conj eq_refl (conj Hwf (or_introl _)))). by exists i, p, rest. }
  rewrite (filter_cons_False _ i) by (by rewrite Ei). exact IH.
Qed.

Lemma weighted_cons n x l :
  weighted n (x :: l) = x * 2 ^ Z.of_nat n + match n with O => 0 | S n => weighted n l end.
Proof. by destruct n. Qed.

Lemma spacing_loop_spec n nAlgo chain s w :
  chain_wf chain -> Z.abs s + 2 ^ 32 * 2 ^ (Z.of_nat n + 1) <= 2 ^ 62 -> 0 <= w -> w + 2 ^ (Z.of_nat n + 1) <= 2 ^ 62 ->
  spacing_loop n nAlgo (skip_to_work nAlgo chain) s w =
  Return (s + weighted n (work_spacings nAlgo chain), w + weighted n ((fun _ => 1) <$> work_spacings nAlgo chain)).
Proof.
  revert chain s w. induction n as [n IH] using lt_wf_ind; intros chain s w Hwf Hs Hw0 Hw.
  destruct (skip_to_work_cases nAlgo chain Hwf) as (_ & E & Hwf' & [(i & p & rest & Ec & Ei)|(g & Ec & Eg)]);
    rewrite <- E, Ec in *; clear Hwf E Ec chain.
  2:{ destruct n; cbn [spacing_loop]; rewrite Eg; cbn; by rewrite !Z.add_0_r. }
  assert (Hpow : BlockIndex.IsProofOfWork i = true) by (unfold is_work in Ei; by destruct (BlockIndex.IsProofOfWork i)).
  assert (is_uint 32 (bi_nTimeStamp i) /\ is_uint 32 (bi_nTimeStamp p)) as [Hi Hp].
  { destruct Hwf' as [_ Ht]. by apply Forall_cons_1 in Ht as [? [? _]%Forall_cons_1]. }
  rewrite work_spacings_cons, Ei. cbn [fmap list_fmap]. rewrite !weighted_cons.
  unfold is_uint in *. change (BlockIndex.GetBlockTime i) with (bi_nTimeStamp i). change (BlockIndex.GetBlockTime p) with (bi_nTimeStamp p).
  rewrite (Z.pow_add_r 2 (Z.of_nat n) 1) in Hs, Hw by lia. change (2 ^ 1) with 2 in Hs, Hw.
  assert (0 < 2 ^ Z.of_nat n) by (apply Z.pow_pos_nonneg; lia).
  destruct n as [|n]; cbn [spacing_loop]; rewrite Hpow; cbv zeta; unfold BlockIndex.GetBlockTime;
    set (d := bi_nTimeStamp i - bi_nTimeStamp p) in *; assert (Z.abs d < 2 ^ 32) by lia; clearbody d; rewrite !Z.shiftl_mul_pow2 by lia.
  - change (2 ^ Z.of_nat 0) with 1 in *. rewrite !swrap_small by lia. do 2 f_equal; lia.
  - set (q := 2 ^ Z.of_nat (S n)) in *. assert (Z.abs (d * q) <= 2 ^ 32 * q) by (rewrite Z.abs_mul, (Z.abs_eq q) by lia; nia).
    rewrite !swrap_small by lia. assert (q = 2 ^ (Z.of_nat n + 1)) as Eq by (subst q; f_equal; lia).
    rewrite IH by (rewrite <- ?Eq; lia || (by apply chain_wf_tail in Hwf')). do 2 f_equal; lia.
Qed.

Lemma weighted_ones_pos n (l : list Z) : l <> [] -> 0 < weighted n ((fun _ => 1) <$> l).
Proof.
  assert (Hn : forall n (l : list Z), 0 <= weighted n ((fun _ => 1) <$> l)).
  { clear. induction n as [|n IH]; intros [|x l]; cbn [fmap list_fmap weighted]; try lia.
    assert (0 < 2 ^ Z.of_nat (S n)) by (apply Z.pow_pos_nonneg; lia). specialize (IH l). lia. }
  destruct l as [|x l]; [done|]. intros _. cbn [fmap list_fmap]. rewrite weighted_cons.
  assert (0 < 2 ^ Z.of_nat n) by (apply Z.pow_pos_nonneg; lia). destruct n as [|n]; [lia|]. specialize (Hn n l). lia.
Qed.

Lemma GetProofOfWorkTarget_reference chain nAlgo i :
  chain_wf chain -> head chain = Some i -> BlockIndex.IsPrimary i = true -> 0 < nAlgo < CM_MAX ->
  GetProofOfWorkTarget chain nAlgo = Return (Some (target_bits nAlgo chain, GetProofOfWorkReward)).
Proof.
  intros Hwf Hh Hp Ha. destruct chain as [|i' chain]; [done|]. injection Hh as ->. unfold GetProofOfWorkTarget.
  rewrite Hp, (proj2 (Z.leb_gt _ _)), (proj2 (Z.leb_gt _ _)) by lia. cbn [orb negb].
  unfold target_bits. set (c := i :: chain) in *. clearbody c.
  pose proof (spacing_loop_spec 15 nAlgo c 0 0 Hwf ltac:(lia) ltac:(lia) ltac:(lia)) as Hl.
  destruct (skip_to_work_cases nAlgo c Hwf) as (E1 & E2 & Hwf' & Hc). rewrite <- E1, <- E2 in *. clear E1 E2.
  destruct Hc as [(w & p & rest & Ec & Ew)|(g & Ec & Eg)].
  - change (PROOF_OF_WORK_ADJUST_COUNT - 1)%nat with 15%nat. rewrite Ec in Hl |- *. cbv zeta.
    assert (Hpow : BlockIndex.IsProofOfWork w = true) by (unfold is_work in Ew; by destruct (BlockIndex.IsProofOfWork w)).
    rewrite Hpow, Hl. cbn [negb mbind outcome_bind]. rewrite filter_cons_True, !Z.add_0_l by done.
    rewrite (proj2 (Z.eqb_neq _ _)); [done|]. apply Z.neq_sym, Z.lt_neq, weighted_ones_pos.
    rewrite work_spacings_cons, Ew. done.
  - rewrite Ec. cbv zeta. rewrite Eg. cbn [negb]. rewrite filter_cons_False; [done|]. unfold is_work. by rewrite Eg.
Qed.

Lemma RunTimeBits_decay nBits t prev :
  0 <= nBits < 2 ^ 30 -> prev <= t < prev + 2 ^ 32 ->
  GetProofOfWorkRunTimeBits nBits t prev =
  if t - prev <? 60 then nBits + 1 else Z.max 16 (nBits - (t - prev - 60) / 60).
Proof.
  intros Hb Ht. unfold GetProofOfWorkRunTimeBits, PROOF_OF_WORK_DECAY_STEP, BLOCK_TARGET_SPACING, nProofOfWorkLimit, PROOF_OF_WORK_BITS_LIMIT.
  destruct (Z.ltb_spec (t - prev) 60); [done|]. rewrite Z.quot_div_nonneg by lia.
  assert (0 <= (t - prev - 60) / 60 < 2 ^ 30) by (split; [apply Z.div_pos; lia|apply Z.div_lt_upper_bound; lia]).
  rewrite swrap_small by lia. case_match_eqn; bool_to_prop; lia.
Qed.

Lemma hash_target_spec nBits hash : 0 <= nBits <= 256 -> (hash <= hash_target nBits <-> hash * 2 ^ nBits < 2 ^ 256).
Proof.
  intros Hb. unfold hash_target. rewrite Z.shiftr_div_pow2 by lia.
  assert (0 < 2 ^ nBits) by (apply Z.pow_pos_nonneg; lia). split; intros Hh.
  - pose proof (Z.mul_div_le (2 ^ 256 - 1) (2 ^ nBits) ltac:(lia)). nia.
  - apply Z.div_le_lower_bound; [done|]. lia.
Qed.

(** ** The ballot *)

Definition weight_sum (entries : list (CDestination * Z)) : Z := foldr (fun e n => e.2 + n) 0 entries.

Lemma ballot_of_spec entries n :
  Forall (fun e => 0 <= e.2) entries -> 0 <= n < weight_sum entries ->
  exists d w, ballot_of entries n = Some d /\ (d, w) ∈ entries /\ 0 < w.
Proof.
  unfold weight_sum. intros Hp. revert n. induction Hp as [|[d w] l Hw Hp IH]; intros n Hn; cbn [foldr snd] in *; [lia|].
  cbn [ballot_of]. destruct (Z.ltb_spec n w).
  - exists d, w. split; [done|]. split; [by left|lia].
  - destruct (IH (n - w)) as (d' & w' & -> & Hin & Hpos); [lia|]. exists d', w'. split; [done|]. split; [by right|done].
Qed.

(** The number of rounds the halved trust allows *)
Definition trust_rounds (nTrust : Z) : nat := if nTrust =? 0 then 0 else S (Z.to_nat (Z.log2 nTrust)).

Lemma trust_rounds_half n : 0 < n -> trust_rounds n = S (trust_rounds (Z.shiftr n 1)).
Proof.
  intros Hn. unfold trust_rounds. rewrite (proj2 (Z.eqb_neq n 0)) by lia. f_equal.
  rewrite Z.shiftr_div_pow2 by lia. change (2 ^ 1) with 2.
  destruct (Z.eqb_spec (n / 2) 0) as [E|E].
  - assert (n = 1) as -> by (apply Z.div_small_iff in E; lia). done.
  - assert (0 <= n / 2) by (apply Z.div_pos; lia). rewrite <- (Z.div2_div n) in *.
    rewrite <- Z2Nat.inj_succ by apply Z.log2_nonneg. f_equal.
    rewrite (Zdiv2_odd_eqn n) at 1. destruct (Z.odd n).
    + rewrite Z.log2_succ_double by lia. done.
    + rewrite Z.add_0_r, Z.log2_double by lia. done.
Qed.

Lemma ballot_loop_spec bytes nSelected nWeight nTrust entries acc :
  Forall (fun e => 0 <= e.2) entries -> weight_sum entries = nWeight -> 0 < nWeight ->
  0 <= nSelected -> Forall (fun b => 0 <= b) bytes -> 0 <= nTrust -> (trust_rounds nTrust <= length bytes)%nat ->
  exists l, ballot_loop bytes nSelected nWeight nTrust entries acc = acc ++ l /\ length l = trust_rounds nTrust /\
    Forall (fun d => exists w, (d, w) ∈ entries /\ 0 < w) l.
Proof.
  intros Hp Hsum Hw. revert nSelected nTrust acc.
  induction bytes as [|b bytes IH]; intros nSelected nTrust acc Hs Hb Ht Hlen; cbn [ballot_loop].
  { exists []. rewrite app_nil_r. split; [done|]. split; [cbn in *; lia|constructor]. }
  destruct (Z.eqb_spec nTrust 0) as [->|E]. { exists []. by rewrite app_nil_r. }
  apply Forall_cons_1 in Hb as [Hb1 Hb]. rewrite trust_rounds_half in Hlen |- * by lia. cbn [length] in Hlen.
  destruct (ballot_of_spec entries ((nSelected + b) mod nWeight) Hp) as (d & w & -> & Hin & Hpos).
  { rewrite Hsum. apply Z.mod_pos_bound. lia. }
  destruct (IH (nSelected + b) (Z.shiftr nTrust 1) (acc ++ [d])) as (l & -> & Hl & Hf); [lia|done| |lia|].
  { rewrite Z.shiftr_nonneg. done. }
  exists (d :: l). rewrite <- app_assoc. split; [done|]. split; [cbn; lia|]. constructor; [eauto|done].
Qed.

Lemma xor_bytes_nonneg l a : Forall (is_uint 8) l -> 0 <= a -> 0 <= foldl Z.lxor a l.
Proof.
  intros Hl. revert a. induction Hl as [|b l [Hb _] Hl IH]; intros a Ha; [done|]. apply IH, Z.lxor_nonneg. lia.
Qed.

Lemma weight_work nWeight :
  0 <= nWeight <= 50 ->
  0 <= u64 ((50 - nWeight) * (50 - nWeight) * (50 - nWeight)) / (50 * 50) <= 50 /\
  (nWeight = 0 -> u64 ((50 - nWeight) * (50 - nWeight) * (50 - nWeight)) / (50 * 50) = 50).
Proof.
  intros Hw. set (x := 50 - nWeight). assert (0 <= x <= 50) by lia.
  assert (0 <= x * x <= 2500) by nia. assert (0 <= x * x * x <= 125000) by nia.
  rewrite wrap_small by (unfold is_uint; lia). split; [|intros ->; reflexivity].
  split; [apply Z.div_pos; lia|apply Z.div_le_upper_bound; lia].
Qed.

(** ** Properties *)

(** C33: the context-free check of a transaction returns the error of the first
    rule that the transaction breaks, in this order: a description that has to be
    checked decodes; a mint transaction and no other has no inputs, and no
    signature; the destination is not null; the amount is in the money range; so
    is the fee, which is at least the minimum for a token transaction and zero
    otherwise; the inputs are distinct outputs 0 or 1; the size fits.  It accepts
    exactly the transactions that obey all of them. *)
Theorem ValidateTransaction_spec (base64dec : list Z -> option (list Z)) (tx : CTransaction) :
  (forall err, ValidateTransaction base64dec tx = err <-> first_broken (tx_rules base64dec tx) err) /\
  (ValidateTransaction base64dec tx = MV_OK <-> tx_valid base64dec tx).
Proof.
  split; [|apply ValidateTransaction_ok]. intros err. split; [intros <-; apply ValidateTransaction_first|].
  intros H. apply (first_broken_unique (tx_rules base64dec tx)); [apply ValidateTransaction_first|done].
Qed.

(** C5: a well-formed transaction is accepted against its previous outputs
    exactly when all of them go to one destination, none is locked or younger
    than the transaction, their sum is in the money range and covers amount, fee
    and the coins the destination locks, and the signature is accepted for that
    destination.  The 64-bit sums cannot overflow, the check always answers, and
    what is accepted conserves value: amount, fee and a change that is not
    negative add up to the value spent. *)
Theorem VerifyTransaction_spec (CryptoHash : list Z -> Z) (verify_detached : list Z -> list Z -> Z -> bool) `{IEdwards}
    (size_type : nat) (base64dec : list Z -> option (list Z)) (tx : CTransaction) (outs : list CTxOutput) (h : Z) :
  ValidateTransaction base64dec tx = MV_OK -> outs <> [] -> length outs = length (tx_vInput tx) ->
  Forall money outs -> 0 <= h < 2 ^ 31 ->
  (exists e, VerifyTransaction CryptoHash verify_detached size_type tx outs h = Return e) /\
  (VerifyTransaction CryptoHash verify_detached size_type tx outs h = Return MV_OK <->
   exists destIn, accepted_by CryptoHash verify_detached size_type tx outs h destIn) /\
  (VerifyTransaction CryptoHash verify_detached size_type tx outs h = Return MV_OK ->
   0 <= Tx.GetChange tx (total_value outs) /\
   tx_nAmount tx + tx_nTxFee tx + Tx.GetChange tx (total_value outs) = total_value outs).
Proof.
  intros Hv Hne Hlen Hm Hh. apply ValidateTransaction_ok in Hv.
  pose proof (tx_inputs_bound tx) as Hb. pose proof (valid_size _ _ Hv) as Hs. rewrite <- Hlen in Hb.
  pose proof (valid_amount _ _ Hv) as Ha. pose proof (valid_fee _ _ Hv) as Hf.
  assert (Z.of_nat (length outs) * MAX_MONEY < 2 ^ 63)
    by (unfold MAX_TX_SIZE, MAX_BLOCK_SIZE in Hs; change (2000000 / 20) with 100000 in Hs; unfold MAX_MONEY, COIN; lia).
  assert (Hok := VerifyTransaction_ok CryptoHash verify_detached size_type tx outs h Hne Hm ltac:(done) ltac:(lia) Ha Hf).
  split; [by apply VerifyTransaction_returns|]. split; [exact Hok|].
  intros (destIn & sig & _ & Ht & Hc & _)%Hok. pose proof (Template.LockedCoin_range h ltac:(lia)).
  unfold Tx.GetChange, MAX_MONEY, COIN in *.
  assert (0 <= if Template.IsLockedCoin destIn then Template.LockedCoin h else 0) by (destruct (Template.IsLockedCoin destIn); lia).
  rewrite swrap_small by lia. lia.
Qed.

(** A token transaction that spends one output of 1000 to a public key *)
Definition sample_tx (sendTo : CDestination) (sig : list Z) : CTransaction :=
  mkTx 1 Tx.TX_TOKEN 50 0 2 [mkTxIn (mkOutPoint 3 0)] sendTo 700 100 [] sig.

Definition sample_out (dest : CDestination) : CTxOutput := mkTxOutput dest 1000 40 0.

Lemma VerifyTransaction_spec_witness :
  @VerifyTransaction Template.sample_hash Template.sample_verify Crypto.toy_curve 8
    (sample_tx (Destination.of_pubkey 9) (Template.sample_sig 5)) [sample_out (Destination.of_pubkey 5)] 10 = Return MV_OK.
Proof.
  apply (@VerifyTransaction_spec Template.sample_hash Template.sample_verify Crypto.toy_curve 8 Some
    (sample_tx (Destination.of_pubkey 9) (Template.sample_sig 5)) [sample_out (Destination.of_pubkey 5)] 10).
  - vm_compute. reflexivity.
  - discriminate.
  - reflexivity.
  - repeat constructor; discriminate.
  - split; [discriminate|reflexivity].
  - exists (Destination.of_pubkey 5), (Template.sample_sig 5). split; [repeat constructor; discriminate|].
    split; [discriminate|]. split; [vm_compute; discriminate|]. split; vm_compute; reflexivity.
Defined.

(** the check of a transaction inside a block and the check of the pool
    differ in one thing.  On previous outputs that go to one destination,
    [VerifyTransaction] gives the result of [VerifyBlockTx], except that it also
    rejects a transaction that does not leave the coins its destination locks. *)
Theorem VerifyTransaction_BlockTx (CryptoHash : list Z -> Z) (verify_detached : list Z -> list Z -> Z -> bool) `{IEdwards}
    (size_type : nat) (tx : CTransaction) (destIn : CDestination) (outs : list CTxOutput) (h : Z) :
  outs <> [] -> Forall (fun o => out_destTo o = destIn) outs ->
  let ctx := mkTxContxt destIn (Tx.incontxt_of_output <$> outs) in
  VerifyTransaction CryptoHash verify_detached size_type tx outs h =
  (e ← VerifyBlockTx CryptoHash verify_detached size_type tx ctx h;
   Return (if bool_decide (e = MV_OK) && Template.IsLockedCoin destIn
              && (Tx.contxt_GetValueIn ctx <? i64 (tx_nAmount tx + tx_nTxFee tx + Template.LockedCoin h))
           then MV_ERR_TRANSACTION_INPUT_INVALID else e)).
Proof.
  intros Hne Hd ctx. destruct outs as [|o outs]; [done|]. unfold VerifyTransaction, VerifyBlockTx.
  assert (out_destTo o = destIn) as -> by (by apply Forall_cons_1 in Hd as [? _]).
  rewrite prevout_contxt by done. cbn [ctx ctx_destIn ctx_vin].
  destruct (contxt_value _ _ _ _) as [v|] eqn:Ev; cbn [mbind outcome_bind]; [|done].
  assert (v = Tx.contxt_GetValueIn ctx) as -> by (by apply contxt_value_total in Ev).
  subst ctx. clear Ev. set (v := Tx.contxt_GetValueIn _).
  do 2 (case_match; [done|]).
  destruct (recorded_signature_returns tx destIn) as [[sig|] ->]; cbn [mbind outcome_bind]; [|done].
  destruct (check_signature_returns CryptoHash verify_detached size_type tx destIn sig) as [[] E]; rewrite E;
    cbn [mbind outcome_bind negb]; [|done]. rewrite bool_decide_eq_true_2 by done. cbn [andb].
  destruct (Template.IsLockedCoin destIn) eqn:El; [|done].
  rewrite (locked_coin_signed _ _ _ _ _ _ _ El E). cbn [mbind outcome_bind andb]. by case_match.
Qed.

(** A fork template that locks 10^10 coins, redeemed by the public key 5 *)
Definition fork_dest : CDestination :=
  Destination.of_templateid (Template.BuildTemplateId Template.sample_hash 8 Template.sample_fork).

Definition fork_sig : list Z := Template.BuildTemplateData 8 Template.sample_fork ++ Template.sample_sig 5.

Lemma VerifyTransaction_BlockTx_witness :
  @VerifyTransaction Template.sample_hash Template.sample_verify Crypto.toy_curve 8
    (sample_tx (Destination.of_pubkey 9) fork_sig) [sample_out fork_dest] 10 =
  Return MV_ERR_TRANSACTION_INPUT_INVALID.
Proof.
  rewrite (@VerifyTransaction_BlockTx Template.sample_hash Template.sample_verify Crypto.toy_curve 8
    (sample_tx (Destination.of_pubkey 9) fork_sig) fork_dest [sample_out fork_dest] 10).
  - vm_compute. reflexivity.
  - discriminate.
  - repeat constructor.
Defined.

(** a block may spend the coins a fork template locks.  There are a
    transaction and its previous output, with a signature scheme and a hash,
    such that the pool's check rejects it for the locked coins and the check of
    a transaction inside a block accepts it. *)
Theorem block_spends_locked_coin :
  let tx := sample_tx (Destination.of_pubkey 9) fork_sig in
  let outs := [sample_out fork_dest] in
  @VerifyTransaction Template.sample_hash Template.sample_verify Crypto.toy_curve 8 tx outs 10 =
    Return MV_ERR_TRANSACTION_INPUT_INVALID /\
  @VerifyBlockTx Template.sample_hash Template.sample_verify Crypto.toy_curve 8 tx
    (mkTxContxt fork_dest (Tx.incontxt_of_output <$> outs)) 10 = Return MV_OK.
Proof. split; vm_compute; reflexivity. Qed.

Lemma ValidateBlock_rules (CryptoHash : list Z -> Z) (verify_detached : list Z -> list Z -> Z -> bool)
    (size_type : nat) (base64dec : list Z -> option (list Z)) (nNetTime hashGenesisBlock : Z) (block : CBlock) :
  (exists e, ValidateBlock CryptoHash verify_detached size_type base64dec nNetTime hashGenesisBlock block = Return e) /\
  (ValidateBlock CryptoHash verify_detached size_type base64dec nNetTime hashGenesisBlock block = Return MV_OK <->
   if b_nType block =? Block.BLOCK_VACANT then vacant_valid nNetTime block
   else block_valid CryptoHash verify_detached size_type base64dec nNetTime hashGenesisBlock block).
Proof.
  unfold ValidateBlock.
  destruct (Block.BuildMerkleTree_tree CryptoHash (map (Tx.GetHash CryptoHash) (b_vtx block))) as (tree & -> & Et & Hr).
  rewrite length_map in Et. rewrite Et.
  destruct (CheckBlockSignature_returns CryptoHash verify_detached size_type hashGenesisBlock block) as [ok Hok].
  split; [rewrite Hok; repeat case_match; by eexists|].
  rewrite !guard_return, Z.ltb_ge, andb_false_iff by discriminate. destruct (Z.eqb_spec (b_nType block) Block.BLOCK_VACANT) as [Ev|Ev].
  - unfold vacant_valid. rewrite Ev, <- ValidateVacantBlock_ok. split.
    + intros (? & _ & [= ->]). done.
    + intros [? ->]. split; [done|]. split; [by left|done].
  - rewrite !guard_return by discriminate. cbv zeta.
    rewrite !negb_false_iff, andb_false_iff, !Z.ltb_ge, !Z.eqb_neq, !Z.eqb_eq, !bool_decide_eq_false, negb_false_iff,
      bool_decide_eq_true, Nat.eqb_eq, valid_mint_spec, forallb_forall.
    rewrite Hok. cbn [mbind outcome_bind].
    rewrite <- (length_map (Tx.GetHash CryptoHash) (b_vtx block)), size_list_to_set_NoDup.
    split.
    + intros (H1 & H2 & H3 & H4 & H5 & H6 & H7 & H8 & H9). constructor; try done; try tauto.
      * apply Forall_forall. intros tx Htx. apply valid_vtx_spec, H8, list_elem_of_In, Htx.
      * by rewrite H6.
      * destruct ok; [done|discriminate].
    + intros [H1 H2 H3 H4 H5 H6 H7 H8 H9]. rewrite Hok in H9. injection H9 as ->. refine (conj H1 _).
      refine (conj _ (conj H4 (conj H8 (conj _ (conj _ (conj H7 (conj _ eq_refl))))))).
      * destruct (decide (b_nType block = Block.BLOCK_EXTENDED)); auto.
      * destruct (decide (b_nType block = Block.BLOCK_ORIGIN)); auto.
      * by apply (Block.merkle_root_unique CryptoHash _ _ _ H6).
      * intros tx Htx. apply valid_vtx_spec. rewrite Forall_forall in H5. by apply H5, list_elem_of_In.
Qed.

(** C7: [ValidateBlock] always answers, and accepts exactly the blocks that
    obey the rules: not ahead of the clock by more than the drift, a valid mint
    transaction, valid other transactions none of which mints, the Merkle root
    of the transactions in the header, no transaction twice, a size within the
    limit, an extended block with and an origin block without transactions, and
    a block signature accepted for the destination of the mint transaction; a
    vacant block carries nothing at all. *)
Theorem ValidateBlock_spec (CryptoHash : list Z -> Z) (verify_detached : list Z -> list Z -> Z -> bool)
    (size_type : nat) (base64dec : list Z -> option (list Z)) (nNetTime hashGenesisBlock : Z) (block : CBlock) :
  (exists e, ValidateBlock CryptoHash verify_detached size_type base64dec nNetTime hashGenesisBlock block = Return e) /\
  (ValidateBlock CryptoHash verify_detached size_type base64dec nNetTime hashGenesisBlock block = Return MV_OK <->
   if b_nType block =? Block.BLOCK_VACANT then vacant_valid nNetTime block
   else block_valid CryptoHash verify_detached size_type base64dec nNetTime hashGenesisBlock block).
Proof. apply ValidateBlock_rules. Qed.

(** C32: above a primary block, the proof-of-work target of a chain that goes back
    to the genesis block is what the reference computes: the initial bits before
    any work, else the bits of the latest work block moved by at most one against
    the average spacing of the latest sixteen work blocks, each weighing twice the
    one before it; the walk over the chain never leaves it and the sums do not
    overflow.  If the bits of the latest work block respect the limit, so does the
    target; an average between 80 and 100 seconds keeps it. *)
Theorem GetProofOfWorkTarget_spec (chain : list CBlockIndex) (i : CBlockIndex) (nAlgo : Z) :
  chain_wf chain -> head chain = Some i -> BlockIndex.IsPrimary i = true -> 0 < nAlgo < CM_MAX ->
  let nSpacing := average_spacing (work_spacings nAlgo chain) in
  exists nBits, GetProofOfWorkTarget chain nAlgo = Return (Some (nBits, GetProofOfWorkReward)) /\
    match head (filter (fun i => is_work nAlgo i = true) chain) with
    | None => nBits = nProofOfWorkInit
    | Some w =>
        nBits = adjust_bits (bi_nProofBits w) nSpacing /\ Z.abs (nBits - bi_nProofBits w) <= 1 /\
        (nProofOfWorkLimit <= bi_nProofBits w -> nProofOfWorkLimit <= nBits) /\
        (80 <= nSpacing <= 100 -> nBits = bi_nProofBits w)
    end.
Proof.
  intros Hwf Hh Hp Ha nSpacing. rewrite (GetProofOfWorkTarget_reference chain nAlgo i) by done.
  eexists. split; [reflexivity|]. unfold target_bits. destruct (filter _ chain) as [|w l]; [done|]. cbn [head].
  fold nSpacing. split; [done|]. unfold adjust_bits, nProofOfWorkLimit, PROOF_OF_WORK_BITS_LIMIT in *.
  repeat case_match_eqn; bool_to_prop; lia.
Qed.

(** A primary chain of two work blocks, 200 seconds apart, on a genesis block *)
Definition sample_index (nMintType nTimeStamp nProofAlgo nProofBits : Z) : CBlockIndex :=
  mkIndex 0 0 None None 0 nMintType 1 Block.BLOCK_PRIMARY nTimeStamp 0 0 0 0 nProofAlgo nProofBits 0 0.

Definition sample_chain : list CBlockIndex :=
  [sample_index Tx.TX_WORK 1400 1 21; sample_index Tx.TX_WORK 1200 1 20; sample_index Tx.TX_GENESIS 1000 0 0].

Lemma sample_chain_wf : chain_wf sample_chain.
Proof. split; [eexists; split; reflexivity|]. repeat constructor; discriminate. Qed.

Lemma GetProofOfWorkTarget_spec_witness :
  exists nBits, GetProofOfWorkTarget sample_chain 1 = Return (Some (nBits, GetProofOfWorkReward)) /\
    nBits = adjust_bits 21 (average_spacing [200; 200]) /\ Z.abs (nBits - 21) <= 1 /\ (16 <= 21 -> 16 <= nBits) /\
    (80 <= average_spacing [200; 200] <= 100 -> nBits = 21).
Proof.
  apply (GetProofOfWorkTarget_spec sample_chain (sample_index Tx.TX_WORK 1400 1 21) 1).
  - apply sample_chain_wf.
  - reflexivity.
  - reflexivity.
  - vm_compute. split; reflexivity.
Defined.

(** a block is accepted as proof of work exactly when it is not older than
    its predecessor, names the only proof-of-work algorithm and the bits of the
    target, and the hash of its work data starts with as many zero bits as the
    target decayed at the time of the block; the reward is then 15 coins. *)
Theorem VerifyProofOfWork_spec (CryptoHash : list Z -> Z) (block : CBlock) (chain : list CBlockIndex) (i : CBlockIndex)
    (nAlgo nBits nNonce nReward0 nReward : Z) :
  chain_wf chain -> head chain = Some i -> BlockIndex.IsPrimary i = true ->
  is_uint 32 (b_nTimeStamp block) -> is_uint 8 nBits ->
  Block.compact_Load (b_vchProof block) = Some (nAlgo, nBits, nNonce) ->
  VerifyProofOfWork CryptoHash block chain nReward0 = Return (MV_OK, nReward) <->
  bi_nTimeStamp i <= b_nTimeStamp block /\ nAlgo = CM_BLAKE512 /\ nBits = target_bits nAlgo chain /\ nReward = 15 * COIN /\
  let nRunTimeBits := if b_nTimeStamp block - bi_nTimeStamp i <? 60 then nBits + 1
                      else Z.max 16 (nBits - (b_nTimeStamp block - bi_nTimeStamp i - 60) / 60) in
  CryptoHash (Block.GetSerializedProofOfWorkData block) * 2 ^ nRunTimeBits < 2 ^ 256.
Proof.
  intros Hwf Hh Hp Ht Hb Hl.
  assert (is_uint 32 (bi_nTimeStamp i)) as Hti
    by (destruct chain; [done|]; injection Hh as ->; destruct Hwf as [_ Hwf]; by apply Forall_cons_1 in Hwf as [? _]).
  assert (Hrun := fun Hle => RunTimeBits_decay nBits (b_nTimeStamp block) (bi_nTimeStamp i) Hle).
  unfold VerifyProofOfWork. destruct chain as [|i' chain]; [done|]. injection Hh as ->. rewrite Hl.
  unfold BlockIndex.GetBlockTime, is_uint in *. set (c := i :: chain) in *.
  destruct (Z.ltb_spec (b_nTimeStamp block) (bi_nTimeStamp i)); [split; [done|]; intros [? _]; lia|].
  destruct (decide (0 < nAlgo < CM_MAX)) as [Ha|Ha].
  2:{ assert (GetProofOfWorkTarget c nAlgo = Return None) as ->.
      { unfold GetProofOfWorkTarget, c. replace ((nAlgo <=? 0) || (CM_MAX <=? nAlgo)) with true; [done|].
        symmetry. apply orb_true_iff. rewrite !Z.leb_le. lia. }
      cbn [mbind outcome_bind]. split; [done|]. intros (_ & -> & _). destruct Ha. done. }
  rewrite (GetProofOfWorkTarget_reference c nAlgo i) by done. cbn [mbind outcome_bind].
  destruct (Z.eqb_spec (target_bits nAlgo c) nBits) as [<-|]; cbn [negb orb]; [|naive_solver].
  destruct (Z.eqb_spec nAlgo CM_BLAKE512) as [->|]; cbn [negb]; [|naive_solver].
  rewrite Hrun by lia. set (rt := if _ <? 60 then _ else _).
  assert (0 <= rt <= 256) as Hrt.
  { subst rt. destruct (Z.ltb_spec (b_nTimeStamp block - bi_nTimeStamp i) 60); [lia|].
    assert (0 <= (b_nTimeStamp block - bi_nTimeStamp i - 60) / 60) by (apply Z.div_pos; lia). lia. }
  pose proof (hash_target_spec rt (CryptoHash (Block.GetSerializedProofOfWorkData block)) Hrt) as Hhash.
  destruct (Z.ltb_spec (hash_target rt) (CryptoHash (Block.GetSerializedProofOfWorkData block))).
  - split; [done|]. intros (_ & _ & _ & _ & Hf%Hhash). lia.
  - split; [intros [= <-]|intros (_ & _ & _ & -> & _); done]. refine (conj _ (conj eq_refl (conj eq_refl (conj eq_refl _)))); [lia|].
    by apply Hhash.
Qed.

(** A block with the algorithm 1 and 20 bits in its proof, mined by a hash that
    gives 1 *)
Definition sample_work : CBlock :=
  mkBlock 1 Block.BLOCK_PRIMARY 1450 0 0 (1 :: 20 :: replicate 32 0) Tx.SetNull [] [].

Lemma VerifyProofOfWork_spec_witness :
  VerifyProofOfWork (fun _ => 1) sample_work sample_chain 0 = Return (MV_OK, 15 * COIN).
Proof.
  apply (VerifyProofOfWork_spec (fun _ => 1) sample_work sample_chain (sample_index Tx.TX_WORK 1400 1 21) 1 20 0 0 (15 * COIN)).
  - apply sample_chain_wf.
  - reflexivity.
  - reflexivity.
  - split; [discriminate|reflexivity].
  - split; [discriminate|reflexivity].
  - vm_compute. reflexivity.
  - split; [discriminate|]. split; [reflexivity|]. split; [vm_compute; reflexivity|]. split; reflexivity.
Defined.

(** the work a block needs falls while it is awaited: for a block within 60
    seconds of its predecessor it is one bit above the target, it never grows
    with the time of the block, loses a bit every 60 seconds, and stays at the
    limit in the end. *)
Theorem RunTimeBits_monotone (nBits t t' prev : Z) :
  nProofOfWorkLimit <= nBits <= 255 -> prev <= t <= t' -> t' < prev + 2 ^ 32 ->
  GetProofOfWorkRunTimeBits nBits t' prev <= GetProofOfWorkRunTimeBits nBits t prev <= nBits + 1 /\
  nProofOfWorkLimit <= GetProofOfWorkRunTimeBits nBits t' prev /\
  (prev + 60 * (nBits + 1) <= t' -> GetProofOfWorkRunTimeBits nBits t' prev = nProofOfWorkLimit).
Proof.
  unfold nProofOfWorkLimit, PROOF_OF_WORK_BITS_LIMIT. intros Hb Ht Ht'. rewrite !RunTimeBits_decay by lia.
  assert (Hm : (t - prev - 60) / 60 <= (t' - prev - 60) / 60) by (apply Z.div_le_mono; lia).
  destruct (Z.ltb_spec (t - prev) 60), (Z.ltb_spec (t' - prev) 60); try lia.
  - assert (0 <= (t' - prev - 60) / 60) by (apply Z.div_pos; lia). split; [lia|]. split; [lia|]. intros Hl.
    assert (nBits <= (t' - prev - 60) / 60) by (apply Z.div_le_lower_bound; lia). lia.
  - assert (0 <= (t - prev - 60) / 60) by (apply Z.div_pos; lia). split; [lia|]. split; [lia|]. intros Hl.
    assert (nBits <= (t' - prev - 60) / 60) by (apply Z.div_le_lower_bound; lia). lia.
Qed.

Lemma RunTimeBits_monotone_witness : GetProofOfWorkRunTimeBits 20 1300 10 = 16.
Proof.
  apply (RunTimeBits_monotone 20 10 1300 10); [split; discriminate|split; discriminate|reflexivity|discriminate].
Defined.

(** the ballot drawn from an agreement.  With delegates whose weights sum
    to [nWeight], at most the threshold of 50, there is no division by zero; the
    ballot is empty, which means proof of work, or has one destination for every
    binary digit of [nWeight], each a delegate of positive weight.  With no
    weight at all it is empty. *)
Theorem GetDelegatedBallot_spec (nAgreement nWeight : Z) (mapBallot : gmap CDestination Z) :
  map_Forall (fun _ w => 0 <= w) mapBallot ->
  weight_sum (CWalleveStream.map_entries Destination.dest_lt mapBallot) = nWeight -> nWeight <= DELEGATE_THRESH ->
  exists vBallot, GetDelegatedBallot nAgreement nWeight mapBallot = Return vBallot /\
    (vBallot = [] \/ length vBallot = S (Z.to_nat (Z.log2 nWeight))) /\
    Forall (fun d => exists w, mapBallot !! d = Some w /\ 0 < w) vBallot /\
    (nWeight = 0 -> vBallot = []).
Proof.
  intros Hp Hsum Hle. set (entries := CWalleveStream.map_entries Destination.dest_lt mapBallot) in *.
  assert (Hpos : Forall (fun e => 0 <= e.2) entries).
  { apply Forall_forall. intros [k v] Hkv. apply CWalleveStreamOk.elem_of_map_entries in Hkv. by apply (Hp k). }
  assert (0 <= nWeight).
  { subst nWeight. unfold weight_sum. clear -Hpos. induction Hpos; cbn [foldr]; lia. }
  unfold GetDelegatedBallot. fold entries. set (bytes := le_split 8 32 nAgreement).
  assert (Hbytes : Forall (is_uint 8) bytes) by (apply le_split_range; lia).
  set (sel := foldl Z.lxor 0 bytes).
  assert (0 <= sel) by (by apply xor_bytes_nonneg).
  cbv zeta. unfold DELEGATE_THRESH in *. rewrite (wrap_small 64 (50 - nWeight)) by (unfold is_uint; lia).
  destruct (weight_work nWeight ltac:(lia)) as [Hwork Hw0]. set (work := u64 (_ * _) / _) in *. clearbody work sel.
  rewrite !(wrap_small 64) by (unfold is_uint; lia). rewrite (proj2 (Z.eqb_neq _ _)) by lia.
  destruct (Z.leb_spec (work * 256 / (work + nWeight)) sel) as [Hsel|Hsel].
  2:{ exists []. split; [done|]. split; [by left|]. split; [constructor|done]. }
  destruct (decide (nWeight = 0)) as [E0|E0].
  { rewrite E0. exists []. split; [|split; [by left|split; [constructor|done]]]. unfold bytes. by destruct (le_split 8 32 nAgreement). }
  assert (trust_rounds nWeight = S (Z.to_nat (Z.log2 nWeight))) as Et
    by (unfold trust_rounds; by rewrite (proj2 (Z.eqb_neq _ _))).
  assert (Z.log2 nWeight <= 5) by (change 5 with (Z.log2 50); by apply Z.log2_le_mono).
  destruct (ballot_loop_spec bytes sel nWeight nWeight entries []) as (l & -> & Hl & Hf); [done|done|lia|lia| |lia| |].
  { eapply Forall_impl; [exact Hbytes|]. by intros z [? _]. }
  { unfold bytes. rewrite length_le_split, Et. lia. }
  exists l. split; [done|]. split; [right; congruence|]. split; [|done].
  eapply Forall_impl; [exact Hf|]. intros d (w & Hin%CWalleveStreamOk.elem_of_map_entries & Hw). eauto.
Qed.

Lemma GetDelegatedBallot_spec_witness :
  exists vBallot, GetDelegatedBallot (2 ^ 200 * 255) 50 (<[Destination.of_pubkey 7 := 50]> ∅) = Return vBallot /\
    (vBallot = [] \/ length vBallot = 6%nat) /\
    Forall (fun d => exists w, (<[Destination.of_pubkey 7 := 50]> ∅ : gmap CDestination Z) !! d = Some w /\ 0 < w) vBallot /\
    (50 = 0 -> vBallot = []).
Proof.
  apply (GetDelegatedBallot_spec (2 ^ 200 * 255) 50 (<[Destination.of_pubkey 7 := 50]> ∅)).
  - apply map_Forall_insert_2; [discriminate|apply map_Forall_empty].
  - vm_compute. reflexivity.
  - discriminate.
Defined.

(** the slots of delegated blocks.  A primary block of the first delegate
    of the ballot falls in the window from 60 to 90 seconds after its
    predecessor; a subsidiary block has the time of its reference block and is
    minted by the first delegate; an extended block lies strictly within the 60
    seconds after the reference block, in the slot of one second of the delegate
    at that offset, the ballot repeating, and has no reward. *)
Theorem delegated_slots (block : CBlock) (pIndexPrev pIndexRef : CBlockIndex) (a : CDelegateAgreement) (d0 : CDestination)
    (ballot : list CDestination) (nReward0 nReward : Z) :
  ag_vBallot a = d0 :: ballot ->
  let t := b_nTimeStamp block in
  let dt := t - bi_nTimeStamp pIndexRef in
  (VerifyDelegatedProofOfStake block pIndexPrev a nReward0 = Return (MV_OK, nReward) <->
   bi_nTimeStamp pIndexPrev + 60 <= t < bi_nTimeStamp pIndexPrev + 90 /\
   tx_sendTo (b_txMint block) = d0 /\ nReward = 15 * COIN) /\
  (VerifySubsidiary block pIndexPrev pIndexRef a nReward0 = (MV_OK, nReward) <->
   bi_nTimeStamp pIndexPrev <= t /\
   if Block.IsExtended block
   then 0 < dt < 60 /\ (ag_vBallot a) !! (Z.to_nat dt mod length (ag_vBallot a))%nat = Some (tx_sendTo (b_txMint block)) /\
        nReward = 0
   else dt = 0 /\ tx_sendTo (b_txMint block) = d0 /\ nReward = 15 * COIN).
Proof.
  intros Ea t dt. split.
  - unfold VerifyDelegatedProofOfStake, BlockIndex.GetBlockTime, BLOCK_TARGET_SPACING. rewrite Ea. fold t.
    change (60 * 3 / 2) with 90. destruct (Z.ltb_spec t (bi_nTimeStamp pIndexPrev + 60)); cbn [orb].
    { split; [done|lia]. }
    destruct (Z.leb_spec (bi_nTimeStamp pIndexPrev + 90) t). { split; [done|lia]. }
    case_bool_decide as Hd; cbn [negb]; [|naive_solver]. split; [intros [= <-]|intros (_ & _ & ->); done].
    split; [lia|]. done.
  - unfold VerifySubsidiary, BlockIndex.GetBlockTime, BLOCK_TARGET_SPACING, EXTENDED_BLOCK_SPACING. fold t. cbv zeta.
    destruct (Z.ltb_spec t (bi_nTimeStamp pIndexPrev)). { split; [done|lia]. }
    fold dt. rewrite Z.quot_1_r. destruct (Block.IsExtended block); cbn [negb].
    + destruct (Z.leb_spec t (bi_nTimeStamp pIndexRef)); cbn [orb]. { split; [done|lia]. }
      destruct (Z.leb_spec (bi_nTimeStamp pIndexRef + 60) t). { split; [done|lia]. }
      assert (0 < dt < 60) by lia. rewrite swrap_small by lia.
      assert (GetBallot a dt = ag_vBallot a !!! (Z.to_nat dt mod length (ag_vBallot a))%nat) as ->.
      { unfold GetBallot. rewrite Ea at 1. rewrite wrap_small by (unfold is_uint; lia).
        rewrite Z2Nat.inj_mod, Nat2Z.id by lia. done. }
      assert (Z.to_nat dt mod length (ag_vBallot a) < length (ag_vBallot a))%nat as Hlt
        by (apply Nat.mod_upper_bound; rewrite Ea; done).
      apply list_lookup_lookup_total_lt in Hlt as ->.
      case_bool_decide as Hd; cbn [negb]; [rewrite Hd|]; naive_solver lia.
    + destruct (Z.eqb_spec t (bi_nTimeStamp pIndexRef)); cbn [negb]; [|split; [done|lia]].
      assert (dt = 0) as -> by lia. assert (GetBallot a (i32 0) = d0) as -> by (unfold GetBallot; by rewrite Ea).
      case_bool_decide as Hd; cbn [negb]; naive_solver lia.
Qed.

Lemma delegated_slots_witness :
  let block := mkBlock 1 Block.BLOCK_EXTENDED 1005 0 0 [] (sample_tx (Destination.of_pubkey 8) []) [] [] in
  VerifySubsidiary block (sample_index 0 1004 0 0) (sample_index 0 1000 0 0)
    (mkAgreement 0 2 [Destination.of_pubkey 7; Destination.of_pubkey 8]) 0 = (MV_OK, 0).
Proof.
  intros block. apply (delegated_slots block (sample_index 0 1004 0 0) (sample_index 0 1000 0 0)
    (mkAgreement 0 2 [Destination.of_pubkey 7; Destination.of_pubkey 8]) (Destination.of_pubkey 7)
    [Destination.of_pubkey 8] 0 0).
  - reflexivity.
  - split; [discriminate|]. split; [split; reflexivity|]. split; reflexivity.
Defined.

(** the genesis blocks of both networks are valid once the clock has
    reached their time: they mint 745,000,000 coins, and their proof holds the
    profile of an isolated fork owned by the destination of the mint
    transaction. *)
Theorem genesis_valid (CryptoHash : list Z -> Z) (verify_detached : list Z -> list Z -> Z -> bool)
    (size_type : nat) (base64dec : list Z -> option (list Z)) (nNetTime : Z) :
  1515745156 <= nNetTime ->
  Forall (fun g =>
    ValidateBlock CryptoHash verify_detached size_type base64dec nNetTime (Block.GetHash CryptoHash g) g = Return MV_OK /\
    Block.GetBlockMint g = 745000000 * COIN /\
    exists p, Profile.Load (b_vchProof g) = Return (Some p) /\ Profile.IsIsolated p = true /\ Profile.IsPrivate p = false /\
      Profile.IsEnclosed p = false /\ pf_destOwner p = tx_sendTo (b_txMint g) /\ pf_hashParent p = 0)
  [GetGenesisBlock; TestNet_GetGenesisBlock].
Proof.
  intros Ht. rewrite !Forall_cons, Forall_nil.
  assert (Hd : forall g, b_nTimeStamp g = 1515745156 -> (nNetTime + MAX_CLOCK_DRIFT <? b_nTimeStamp g) = false)
    by (intros g ->; apply Z.ltb_ge; unfold MAX_CLOCK_DRIFT; lia).
  split; [|split; [|done]]; refine (conj _ (conj _ _)).
  1,4: unfold ValidateBlock, CheckBlockSignature; rewrite Z.eqb_refl, Hd by reflexivity; vm_compute; reflexivity.
  1,3: vm_compute; reflexivity.
  all: eexists; split; [vm_compute; reflexivity|]; repeat split; vm_compute; reflexivity.
Qed.

Lemma genesis_valid_witness :
  Forall (fun g =>
    ValidateBlock Template.sample_hash Template.sample_verify 8 Some 1600000000 (Block.GetHash Template.sample_hash g) g = Return MV_OK /\
    Block.GetBlockMint g = 745000000 * COIN /\
    exists p, Profile.Load (b_vchProof g) = Return (Some p) /\ Profile.IsIsolated p = true /\ Profile.IsPrivate p = false /\
      Profile.IsEnclosed p = false /\ pf_destOwner p = tx_sendTo (b_txMint g) /\ pf_hashParent p = 0)
  [GetGenesisBlock; TestNet_GetGenesisBlock].
Proof. apply (genesis_valid Template.sample_hash Template.sample_verify 8 Some 1600000000). discriminate. Defined.

(** the description of a transaction to a template is not checked.  The
    test compares the whole template id with the numbers of the weighted and
    multisig types, and the id of a template is its hash above its type: it is
    equal to one of them only when 240 bits of the hash are zero. *)
Theorem template_description_unchecked (tx : CTransaction) (nType hash : Z) :
  is_uint 16 nType -> tx_sendTo tx = Destination.of_templateid (CTemplateId nType hash) -> hash mod 2 ^ 240 <> 0 ->
  description_required tx = false.
Proof.
  intros Ht Hs Hh. unfold description_required. rewrite Hs.
  change (Destination.IsPubKey (Destination.of_templateid _)) with false.
  change (Destination.GetTemplateId (Destination.of_templateid ?t)) with t.
  assert (Hid : Z.shiftr (CTemplateId nType hash) 16 <> 0).
  { unfold CTemplateId, wrap. rewrite Z.shiftr_lor. intros [E _]%Z.lor_eq_0_iff. apply Hh. rewrite <- E.
    rewrite Z.shiftr_div_pow2, Z.shiftl_mul_pow2 by lia. change (2 ^ 256) with (2 ^ 240 * 2 ^ 16).
    rewrite Z.mul_mod_distr_r, Z.div_mul by lia. done. }
  rewrite !(proj2 (Z.eqb_neq (CTemplateId nType hash) _)) by (intros E; rewrite E in Hid; done).
  by rewrite !andb_false_r.
Qed.

Lemma template_description_unchecked_witness :
  let sendTo := Destination.of_templateid (CTemplateId TEMPLATE_WEIGHTED 5) in
  description_required (mkTx 1 Tx.TX_TOKEN 50 0 2 [mkTxIn (mkOutPoint 3 0)] sendTo 700 100 [1; 2; 3] []) = false.
Proof.
  apply (template_description_unchecked
    (mkTx 1 Tx.TX_TOKEN 50 0 2 [mkTxIn (mkOutPoint 3 0)] (Destination.of_templateid (CTemplateId TEMPLATE_WEIGHTED 5)) 700 100 [1; 2; 3] [])
    TEMPLATE_WEIGHTED 5).
  - split; [discriminate|reflexivity].
  - reflexivity.
  - discriminate.
Defined.

End Core.
