(* ===== verification/Dispatcher.v ===== *)
(** * A transaction entering the node (src/src/dispatcher.cpp, CDispatcher::AddNewTx)

    The dispatcher validates a transaction with the core protocol, pushes it
    into the pool, which looks up its inputs in the pool and in the chain and
    verifies it with the core protocol, and tells the other components.  Here
    the pool of TxPool.v runs with the consensus rules of Core.v as its
    [ICoreProtocol]; the chain is an [IWorldLine], and the wallet, the service,
    the network and the consensus object are seen through the calls they get. *)

From S2P Require Import Prelude Stream Destination Transaction Block Base TxPool TxPoolSync.
From S2P Require Import Base25519 SC25519 Crypto Template Profile BlockIndex Core.

Module Dispatcher.
Import TxPool TxPoolViewOk TxPoolOk.


Section dispatcher.
Context (CryptoHash : list Z -> Z) (verify_detached : list Z -> list Z -> Z -> bool) `{IEdwards} (size_type : nat).
Context (base64dec : list Z -> option (list Z)).
Context `{IWorldLine}.



(** ** The outputs of a pool are amounts of money *)












End dispatcher.







End Dispatcher.
