(* ===== verification/UnspentDB.v ===== *)
(** * The database of unspent outputs (src/storage/unspentdb.h, unspentdb.cpp)

    [CForkUnspentDB] keeps the unspent outputs of one fork in a key-value store
    with two write caches in front of it: [UpdateUnspent] writes to the upper
    cache, [Flush] writes the lower one to the store and then exchanges them.
    An output that is null in a cache is a deletion not yet written.
    [CUnspentDB] holds the databases of all forks and flushes them from a
    thread of its own.

    [content] is what a database means: one finite map.  The first group of
    theorems shows that every operation implements its counterpart on that
    map.  [Module UnspentSync] is the concurrent part: what a reader sees while
    updates and a flush run beside it, and what the two locks allow.

    The key-value store (CKVDB over leveldb) appears by its documented
    behaviour: a map whose batch is written at once or not at all; whether a
    call to it succeeds is an argument of the operations. *)

From S2P Require Import Prelude RWLock Stream Destination Transaction.

Import CWalleveStream.

#[local] Existing Instance Tx.outpoint_lt_dec.

(** [CForkUnspentDB::MapType] *)
Notation MapType := (gmap CTxOutPoint CTxOutput).

(** [CForkUnspentDB::CDblMap] *)
Record CDblMap : Type := mkDbl {
  mapCache0 : MapType;
  mapCache1 : MapType;
  nIdxUpper : Z;
}.

(** The store is [None] when its engine is closed. *)
Record CForkUnspentDB : Type := mkForkUnspent {
  fu_kv : option MapType;
  fu_dblCache : CDblMap;
}.

Module DblMap.

Definition init : CDblMap := mkDbl ∅ ∅ 0.

Definition mapCache (d : CDblMap) (idx : Z) : MapType :=
  if idx =? 0 then mapCache0 d else mapCache1 d.

Definition set_mapCache (d : CDblMap) (idx : Z) (m : MapType) : CDblMap :=
  if idx =? 0 then mkDbl m (mapCache1 d) (nIdxUpper d) else mkDbl (mapCache0 d) m (nIdxUpper d).

Definition GetUpperMap (d : CDblMap) : MapType := mapCache d (nIdxUpper d).

Definition GetLowerMap (d : CDblMap) : MapType := mapCache d (Z.lxor (nIdxUpper d) 1).

Definition Flip (d : CDblMap) : CDblMap :=
  let d := set_mapCache d (Z.lxor (nIdxUpper d) 1) ∅ in
  mkDbl (mapCache0 d) (mapCache1 d) (Z.lxor (nIdxUpper d) 1).

Definition Clear (d : CDblMap) : CDblMap := init.

(** The index is 0 or 1. *)
Definition wf (d : CDblMap) : Prop := nIdxUpper d = 0 \/ nIdxUpper d = 1.

Lemma upper_set d m : wf d -> GetUpperMap (set_mapCache d (nIdxUpper d) m) = m.
Proof. destruct d as [a b i]; intros [E|E]; cbn in E; subst i; done. Qed.

Lemma lower_set d m : wf d -> GetLowerMap (set_mapCache d (nIdxUpper d) m) = GetLowerMap d.
Proof. destruct d as [a b i]; intros [E|E]; cbn in E; subst i; done. Qed.

Lemma wf_set d i m : wf d -> wf (set_mapCache d i m).
Proof. unfold set_mapCache. by case_match. Qed.

Lemma upper_flip d : wf d -> GetUpperMap (Flip d) = ∅.
Proof. destruct d as [a b i]; intros [E|E]; cbn in E; subst i; done. Qed.

Lemma lower_flip d : wf d -> GetLowerMap (Flip d) = GetUpperMap d.
Proof. destruct d as [a b i]; intros [E|E]; cbn in E; subst i; done. Qed.

Lemma wf_flip d : wf d -> wf (Flip d).
Proof. destruct d as [a b i]; intros [E|E]; cbn in E; subst i; [by right|by left]. Qed.

End DblMap.

Module ForkUnspentDB.

Definition upper (db : CForkUnspentDB) : MapType := DblMap.GetUpperMap (fu_dblCache db).

Definition lower (db : CForkUnspentDB) : MapType := DblMap.GetLowerMap (fu_dblCache db).

(** ** The store *)

(** [CKVDB::Read], [Write] and [Erase] outside a transaction; [ok] is the
    status of the engine. *)
Definition kv_Read (kv : option MapType) (out : CTxOutPoint) : option CTxOutput :=
  kv ≫= fun m => m !! out.

Definition kv_Write (kv : option MapType) (ok : bool) (out : CTxOutPoint) (output : CTxOutput)
    : bool * option MapType :=
  match kv with
  | Some m => if ok then (true, Some (<[out := output]> m)) else (false, kv)
  | None => (false, None)
  end.

(** [CKVDB::RemoveAll]: a failure closes the store. *)
Definition kv_RemoveAll (kv : option MapType) (ok : bool) : bool * option MapType :=
  match kv with
  | Some _ => if ok then (true, Some ∅) else (false, None)
  | None => (false, None)
  end.

(** [CKVDB::WalkThrough(fnWalker)]: a walker that returns false stops the walk,
    which is not reported. *)
Fixpoint kv_walk {W : Type} (fnWalker : W -> CTxOutPoint -> CTxOutput -> bool * W)
    (l : list (CTxOutPoint * CTxOutput)) (w : W) : W :=
  match l with
  | [] => w
  | (k, v) :: l => let '(b, w) := fnWalker w k v in if b then kv_walk fnWalker l w else w
  end.

(** ** Operations *)

Definition RemoveAll (db : CForkUnspentDB) (ok : bool) : bool * CForkUnspentDB :=
  let '(b, kv) := kv_RemoveAll (fu_kv db) ok in
  if b then (true, mkForkUnspent kv (DblMap.Clear (fu_dblCache db)))
  else (false, mkForkUnspent kv (fu_dblCache db)).

Definition add_unspent (m : MapType) (unspent : CTxUnspent) : MapType :=
  <[uns_out unspent := uns_output unspent]> m.

(** [mapUpper[txout].SetNull()] *)
Definition null_unspent (m : MapType) (txout : CTxOutPoint) : MapType :=
  <[txout := Tx.output_null]> m.

Definition UpdateUnspent (db : CForkUnspentDB) (vAddNew : list CTxUnspent) (vRemove : list CTxOutPoint)
    : CForkUnspentDB :=
  let mapUpper := foldl add_unspent (upper db) vAddNew in
  let mapUpper := foldl null_unspent mapUpper vRemove in
  mkForkUnspent (fu_kv db) (DblMap.set_mapCache (fu_dblCache db) (nIdxUpper (fu_dblCache db)) mapUpper).

Definition WriteUnspent (db : CForkUnspentDB) (ok : bool) (txout : CTxOutPoint) (output : CTxOutput)
    : bool * CForkUnspentDB :=
  let '(b, kv) := kv_Write (fu_kv db) ok txout output in (b, mkForkUnspent kv (fu_dblCache db)).

(** A cache hit: a null output means the key is deleted. *)
Definition cache_hit (output : CTxOutput) : option CTxOutput :=
  if Tx.output_IsNull output then None else Some output.

(** [fTryLock] is the result of [rwLower.ReadTryLock()]. *)
Definition ReadUnspent (db : CForkUnspentDB) (fTryLock : bool) (txout : CTxOutPoint) : option CTxOutput :=
  match upper db !! txout with
  | Some output => cache_hit output
  | None =>
      match (if fTryLock then lower db !! txout else None) with
      | Some output => cache_hit output
      | None => kv_Read (fu_kv db) txout
      end
  end.

(** The two lists [Flush] makes of the lower cache *)
Definition flush_lists (mapLower : MapType) : list (CTxOutPoint * CTxOutput) * list CTxOutPoint :=
  let l := map_entries Tx.outpoint_lt mapLower in
  (List.filter (fun e => negb (Tx.output_IsNull e.2)) l,
   map fst (List.filter (fun e => Tx.output_IsNull e.2) l)).

(** The batch of [Flush]: the writes, then the erasures *)
Definition write_batch (m : MapType) (vAddNew : list (CTxOutPoint * CTxOutput)) (vRemove : list CTxOutPoint)
    : MapType :=
  foldl (fun m k => delete k m) (foldl (fun m e => <[e.1 := e.2]> m) m vAddNew) vRemove.

(** [fBegin] and [fCommit] are the results of [TxnBegin] and [TxnCommit]. *)
Definition Flush (db : CForkUnspentDB) (fBegin fCommit : bool) : bool * CForkUnspentDB :=
  let '(vAddNew, vRemove) := flush_lists (lower db) in
  match fu_kv db with
  | Some m =>
      if fBegin && fCommit then
        (true, mkForkUnspent (Some (write_batch m vAddNew vRemove)) (DblMap.Flip (fu_dblCache db)))
      else (false, db)
  | None => (false, db)
  end.

Section walk.
(** The order in which the store's iterator visits its entries: by the bytes of
    the keys. *)
Context (kv_order : MapType -> list (CTxOutPoint * CTxOutput)).

(** [CopyWalker]; [ok] is the status of the write. *)
Definition CopyWalker (ok : CTxOutPoint -> bool) (dbUnspent : CForkUnspentDB) (txout : CTxOutPoint)
    (output : CTxOutput) : bool * CForkUnspentDB :=
  WriteUnspent dbUnspent (ok txout) txout output.

Definition SetCache (db : CForkUnspentDB) (dblCacheIn : CDblMap) : CForkUnspentDB :=
  mkForkUnspent (fu_kv db) dblCacheIn.

(** [Copy(dbUnspent)]: the database copied to *)
Definition Copy (db dbUnspent : CForkUnspentDB) (fRemove : bool) (ok : CTxOutPoint -> bool)
    : bool * CForkUnspentDB :=
  let '(b, dbUnspent) := RemoveAll dbUnspent fRemove in
  if negb b then (false, dbUnspent)
  else
    match fu_kv db with
    | None => (false, dbUnspent)
    | Some m => (true, SetCache (kv_walk (CopyWalker ok) (kv_order m) dbUnspent) (fu_dblCache db))
    end.

Context {W : Type} (Walk : W -> CTxOutPoint -> CTxOutput -> bool * W).

Definition LoadWalker (mapUpper mapLower : MapType) (w : W) (txout : CTxOutPoint) (output : CTxOutput)
    : bool * W :=
  if bool_decide (is_Some (mapUpper !! txout)) || bool_decide (is_Some (mapLower !! txout)) then (true, w)
  else Walk w txout output.

(** A loop over a cache: the entries that satisfy [p]; a walker that returns
    false makes the whole function return false. *)
Fixpoint walk_cache (p : CTxOutPoint -> CTxOutput -> bool) (l : list (CTxOutPoint * CTxOutput)) (w : W)
    : bool * W :=
  match l with
  | [] => (true, w)
  | (k, v) :: l =>
      if p k v then let '(b, w) := Walk w k v in if b then walk_cache p l w else (false, w)
      else walk_cache p l w
  end.

Definition WalkThroughUnspent (db : CForkUnspentDB) (w : W) : bool * W :=
  match fu_kv db with
  | None => (false, w)
  | Some m =>
      let w := kv_walk (LoadWalker (upper db) (lower db)) (kv_order m) w in
      let '(b, w) :=
        walk_cache (fun txout output => negb (bool_decide (is_Some (upper db !! txout))) &&
                                        negb (Tx.output_IsNull output))
          (map_entries Tx.outpoint_lt (lower db)) w in
      if negb b then (false, w)
      else walk_cache (fun _ output => negb (Tx.output_IsNull output))
             (map_entries Tx.outpoint_lt (upper db)) w
  end.
End walk.

(** ** Specification *)

(** The unspent outputs a database stands for *)
Definition present (m : MapType) : MapType := filter (fun e => Tx.output_IsNull e.2 = false) m.

Definition content (db : CForkUnspentDB) : MapType :=
  present (upper db ∪ (lower db ∪ default ∅ (fu_kv db))).

(** What an update of a fork does to its unspent outputs *)
Definition apply_changes (m : MapType) (vAddNew : list CTxUnspent) (vRemove : list CTxOutPoint) : MapType :=
  foldl (fun m k => delete k m)
    (foldl (fun m u => if Tx.output_IsNull (uns_output u) then delete (uns_out u) m else add_unspent m u) m vAddNew)
    vRemove.

(** An open store holds no null output. *)
Record db_ok (db : CForkUnspentDB) : Prop := {
  ok_wf : DblMap.wf (fu_dblCache db);
  ok_open : is_Some (fu_kv db);
  ok_nonnull : forall k v, kv_Read (fu_kv db) k = Some v -> Tx.output_IsNull v = false;
}.

(** ** Lemmas *)

Lemma lookup_present m k : present m !! k = m !! k ≫= cache_hit.
Proof.
  unfold present, cache_hit. destruct (m !! k) as [v|] eqn:E; cbn.
  - destruct (Tx.output_IsNull v) eqn:Ev.
    + apply map_lookup_filter_None. right. intros v' E' Hv. cbn in Hv. congruence.
    + by apply map_lookup_filter_Some.
  - apply map_lookup_filter_None. by left.
Qed.

Lemma present_insert m k v :
  present (<[k := v]> m) = if Tx.output_IsNull v then delete k (present m) else <[k := v]> (present m).
Proof.
  apply map_eq. intros k'. rewrite lookup_present. destruct (decide (k = k')) as [<-|Hne].
  - rewrite lookup_insert_eq. cbn. unfold cache_hit.
    case_match; [by rewrite lookup_delete_eq|by rewrite lookup_insert_eq].
  - rewrite lookup_insert_ne by done.
    case_match; [rewrite lookup_delete_ne|rewrite lookup_insert_ne]; by rewrite ?lookup_present.
Qed.

Lemma lookup_content db k :
  content db !! k =
  match upper db !! k with
  | Some v => cache_hit v
  | None => match lower db !! k with Some v => cache_hit v | None => kv_Read (fu_kv db) k ≫= cache_hit end
  end.
Proof.
  unfold content. rewrite lookup_present, !lookup_union. unfold kv_Read.
  destruct (upper db !! k), (lower db !! k), (fu_kv db) as [m|]; cbn; rewrite ?lookup_empty; try done;
    destruct (m !! k); done.
Qed.

Lemma content_hit db k : content db !! k ≫= cache_hit = content db !! k.
Proof.
  unfold content. rewrite lookup_present. destruct (_ !! k) as [v|]; [|done]. cbn.
  unfold cache_hit at 2 3. destruct (Tx.output_IsNull v) eqn:E; [done|]. cbn. unfold cache_hit. by rewrite E.
Qed.

Lemma kv_Read_hit db k : db_ok db -> kv_Read (fu_kv db) k ≫= cache_hit = kv_Read (fu_kv db) k.
Proof.
  intros [_ _ Hn]. destruct (kv_Read (fu_kv db) k) as [v|] eqn:E; [|done]. cbn. unfold cache_hit.
  by rewrite (Hn _ _ E).
Qed.

(** Folding inserts over the upper map, seen from [content] *)
Lemma present_add_unspents (m r : MapType) vAddNew :
  present (foldl add_unspent m vAddNew ∪ r) =
  foldl (fun m u => if Tx.output_IsNull (uns_output u) then delete (uns_out u) m else add_unspent m u)
    (present (m ∪ r)) vAddNew.
Proof.
  revert m. induction vAddNew as [|u l IH]; intros m; cbn [foldl]; [done|].
  rewrite IH. change (add_unspent m u) with (<[uns_out u := uns_output u]> m). by rewrite <- insert_union_l, present_insert.
Qed.

Lemma present_null_unspents (m r : MapType) vRemove :
  present (foldl null_unspent m vRemove ∪ r) = foldl (fun m k => delete k m) (present (m ∪ r)) vRemove.
Proof.
  revert m. induction vRemove as [|k l IH]; intros m; cbn [foldl]; [done|].
  rewrite IH. unfold null_unspent. by rewrite <- insert_union_l, present_insert.
Qed.

Lemma UpdateUnspent_content db vAddNew vRemove :
  DblMap.wf (fu_dblCache db) ->
  content (UpdateUnspent db vAddNew vRemove) = apply_changes (content db) vAddNew vRemove.
Proof.
  intros Hwf. unfold content, UpdateUnspent, upper at 1, lower at 1. cbn [fu_dblCache fu_kv].
  rewrite DblMap.upper_set, DblMap.lower_set by done.
  by rewrite present_null_unspents, present_add_unspents.
Qed.

Lemma UpdateUnspent_ok db vAddNew vRemove : db_ok db -> db_ok (UpdateUnspent db vAddNew vRemove).
Proof. intros [H1 H2 H3]. split; cbn; [by apply DblMap.wf_set|done|done]. Qed.

(** *** The batch of [Flush] *)

Lemma lookup_flush (mapLower m : MapType) k :
  let '(vAddNew, vRemove) := flush_lists mapLower in
  write_batch m vAddNew vRemove !! k =
  match mapLower !! k with Some v => cache_hit v | None => m !! k end.
Proof.
  unfold flush_lists, write_batch. set (l := map_entries Tx.outpoint_lt mapLower).
  assert (Hl : forall e, e ∈ l <-> mapLower !! e.1 = Some e.2)
    by (intros [? ?]; apply elem_of_map_entries).
  pose proof (NoDup_map_entries Tx.outpoint_lt mapLower) as Hnd. fold l in Hnd.
  rewrite lookup_erases, lookup_writes by (by apply NoDup_fst_filter).
  destruct (mapLower !! k) as [v|] eqn:Ek; unfold cache_hit.
  - destruct (Tx.output_IsNull v) eqn:Ev.
    + rewrite decide_True; [done|]. apply list_elem_of_fmap. exists (k, v). split; [done|].
      apply list_elem_of_In, filter_In. rewrite <- list_elem_of_In. split; [by apply Hl|done].
    + rewrite decide_False.
      * erewrite elem_of_list_to_map_1; [done|by apply NoDup_fst_filter|].
        apply list_elem_of_In, filter_In. rewrite <- list_elem_of_In. split; [by apply Hl|cbn; by rewrite Ev].
      * intros ([k' v'] & -> & H)%list_elem_of_fmap. apply list_elem_of_In, filter_In in H as [H1 H2].
        apply list_elem_of_In, Hl in H1. cbn in *. congruence.
  - rewrite decide_False, not_elem_of_list_to_map_1; [done| |].
    all: intros ([k' v'] & -> & H)%list_elem_of_fmap; apply list_elem_of_In, filter_In in H as [H1 H2];
      apply list_elem_of_In, Hl in H1; cbn in *; congruence.
Qed.

(** A flush that commits: the store takes in the lower cache, the caches are
    exchanged.  One that does not leaves everything as it was. *)
Lemma Flush_cases db fBegin fCommit :
  db_ok db ->
  (fBegin && fCommit = true /\
   exists db', Flush db fBegin fCommit = (true, db') /\ db_ok db' /\ upper db' = ∅ /\ lower db' = upper db /\
     (forall k, kv_Read (fu_kv db') k =
        match lower db !! k with Some v => cache_hit v | None => kv_Read (fu_kv db) k end)) \/
  (fBegin && fCommit = false /\ Flush db fBegin fCommit = (false, db)).
Proof.
  intros [Hwf [m Hm] Hn]. unfold Flush. pose proof (lookup_flush (lower db) m) as Hk.
  destruct (flush_lists (lower db)) as [vA vR]. rewrite Hm in *.
  destruct (fBegin && fCommit); [left|by right]. split; [done|].
  set (db' := mkForkUnspent _ _). exists db'.
  assert (Hkv : forall k, kv_Read (fu_kv db') k =
    match lower db !! k with Some v => cache_hit v | None => m !! k end) by exact Hk.
  split; [done|]. split.
  { split; [by apply DblMap.wf_flip|by eexists|]. intros k v. rewrite Hkv. unfold cache_hit.
    destruct (lower db !! k) as [v'|]; [case_match; intros; by simplify_eq|]. apply Hn. }
  split; [by apply DblMap.upper_flip|]. split; [by apply DblMap.lower_flip|]. done.
Qed.

Lemma Flush_ok db b c : db_ok db -> db_ok (Flush db b c).2.
Proof. intros Hok. destruct (Flush_cases db b c Hok) as [(_ & db' & -> & ? & _)|[_ ->]]; done. Qed.

Lemma Flush_content db b c : db_ok db -> content (Flush db b c).2 = content db.
Proof.
  intros Hok. destruct (Flush_cases db b c Hok) as [(_ & db' & -> & Hok' & Hu & Hl & Hk)|[_ ->]]; [|done].
  apply map_eq. intros k. cbn [snd]. rewrite !lookup_content, Hu, Hl, (kv_Read_hit db'), Hk by done.
  rewrite lookup_empty, (kv_Read_hit db) by done. done.
Qed.

(** Two flushes write everything out. *)
Lemma Flush_twice db :
  db_ok db ->
  let db' := (Flush (Flush db true true).2 true true).2 in
  upper db' = ∅ /\ lower db' = ∅ /\ fu_kv db' = Some (content db).
Proof.
  intros Hok. cbv zeta.
  destruct (Flush_cases db true true Hok) as [(_ & db1 & E1 & Hok1 & Hu1 & Hl1 & Hk1)|[? _]]; [|done].
  rewrite E1. cbn [snd].
  destruct (Flush_cases db1 true true Hok1) as [(_ & db2 & E2 & Hok2 & Hu2 & Hl2 & Hk2)|[? _]]; [|done].
  rewrite E2. cbn [snd]. split; [done|]. split; [by rewrite Hl2|].
  destruct Hok2 as [_ [m Hm] _]. rewrite Hm. f_equal. apply map_eq. intros k.
  specialize (Hk2 k). rewrite Hm in Hk2. cbn in Hk2. rewrite Hk2, Hl1, Hk1, lookup_content.
  by rewrite (kv_Read_hit db _ Hok).
Qed.

(** the database of a fork implements one map of unspent outputs, [content].
    [ReadUnspent] is the lookup in it; [UpdateUnspent] applies the additions and
    then the removals to it; [Flush], whether it commits or fails, does not
    change it; and after two successful flushes the store alone is that map and
    both caches are empty, which is what [Deinitialize] relies on. *)
Theorem unspent_refines (db : CForkUnspentDB) (Hok : db_ok db) :
  (forall txout, ReadUnspent db true txout = content db !! txout) /\
  (forall vAddNew vRemove,
     db_ok (UpdateUnspent db vAddNew vRemove) /\
     content (UpdateUnspent db vAddNew vRemove) = apply_changes (content db) vAddNew vRemove) /\
  (forall fBegin fCommit,
     db_ok (Flush db fBegin fCommit).2 /\ content (Flush db fBegin fCommit).2 = content db) /\
  (let db' := (Flush (Flush db true true).2 true true).2 in
   upper db' = ∅ /\ lower db' = ∅ /\ fu_kv db' = Some (content db)).
Proof.
  split.
  { intros k. unfold ReadUnspent. rewrite lookup_content, (kv_Read_hit db _ Hok). done. }
  split; [intros; split; [by apply UpdateUnspent_ok|by apply UpdateUnspent_content, ok_wf]|].
  split; [intros; split; [by apply Flush_ok|by apply Flush_content]|]. by apply Flush_twice.
Qed.

(** A database with an output in the store, deleted in the lower cache, and
    another one in the upper cache *)
Definition sample_output : CTxOutput := mkTxOutput (Destination.of_pubkey 5) 10 100 0.

Definition sample_db : CForkUnspentDB :=
  mkForkUnspent (Some {[mkOutPoint 1 0 := sample_output]})
    (mkDbl {[mkOutPoint 2 0 := sample_output]} {[mkOutPoint 1 0 := Tx.output_null]} 0).

Lemma sample_db_ok : db_ok sample_db.
Proof.
  split; [by left|by eexists|]. intros k v. cbn. intros [_ <-]%lookup_singleton_Some. reflexivity.
Defined.

Lemma unspent_refines_witness :
  ReadUnspent sample_db true (mkOutPoint 1 0) = None /\
  content sample_db !! mkOutPoint 1 0 = None /\
  content (Flush sample_db true true).2 = content sample_db.
Proof.
  destruct (unspent_refines sample_db sample_db_ok) as (H1 & _ & H3 & _).
  split; [|split]; [rewrite H1| |apply H3]; vm_compute; reflexivity.
Defined.

(** ** Walks *)

Section walk_lemmas.
Context (kv_order : MapType -> list (CTxOutPoint * CTxOutput)).
Hypothesis kv_order_perm : forall m, kv_order m ≡ₚ map_to_list m.

(** The walker that records what it is given *)
Definition log_walk (l : list (CTxOutPoint * CTxOutput)) (k : CTxOutPoint) (v : CTxOutput) :=
  (true, l ++ [(k, v)]).

Lemma kv_walk_log u d l acc :
  kv_walk (LoadWalker log_walk u d) l acc =
  acc ++ List.filter (fun e => negb (bool_decide (is_Some (u !! e.1)) || bool_decide (is_Some (d !! e.1)))) l.
Proof.
  revert acc. induction l as [|[k v] l IH]; intros acc; cbn [kv_walk List.filter]; [by rewrite app_nil_r|].
  unfold LoadWalker at 1. cbn [fst].
  destruct (bool_decide (is_Some (u !! k)) || bool_decide (is_Some (d !! k))); cbn [negb log_walk].
  - apply IH.
  - by rewrite IH, <- app_assoc.
Qed.

Lemma walk_cache_log p l acc :
  walk_cache log_walk p l acc = (true, acc ++ List.filter (fun e => p e.1 e.2) l).
Proof.
  revert acc. induction l as [|[k v] l IH]; intros acc; cbn [walk_cache List.filter fst snd]; [by rewrite app_nil_r|].
  destruct (p k v); cbn [log_walk]; rewrite IH; [|done]. by rewrite <- app_assoc.
Qed.

Lemma NoDup_of_fst {A B} (l : list (A * B)) : NoDup l.*1 -> NoDup l.
Proof. apply NoDup_fmap_1. Qed.

(** [WalkThroughUnspent] shows the walker every unspent output of the fork
    exactly once: with a walker that records its calls and accepts them all, the
    record is a permutation of the entries of [content], although they are spread
    over two caches and the store and shadow one another. *)
Theorem WalkThroughUnspent_content (db : CForkUnspentDB) (Hok : db_ok db) :
  exists l, WalkThroughUnspent kv_order log_walk db [] = (true, l) /\ l ≡ₚ map_to_list (content db).
Proof.
  pose proof Hok as [_ [m Hm] Hn]. unfold WalkThroughUnspent. rewrite Hm in *.
  rewrite kv_walk_log, walk_cache_log. cbn [negb]. rewrite walk_cache_log. eexists. split; [done|].
  cbn [app]. rewrite <- app_assoc.
  assert (Hfst : forall f (l : list (CTxOutPoint * CTxOutput)), NoDup l.*1 -> NoDup (List.filter f l))
    by (intros; by apply NoDup_of_fst, NoDup_fst_filter).
  apply NoDup_Permutation; [|apply NoDup_map_to_list|].
  - apply NoDup_app. split; [|split].
    + apply Hfst. rewrite kv_order_perm. apply NoDup_fst_map_to_list.
    + intros [k v] [_ H1]%elem_of_List_filter [[H2 _]%elem_of_List_filter|[H2 _]%elem_of_List_filter]%elem_of_app.
      all: apply elem_of_map_entries in H2; cbn [fst] in H1; rewrite H2 in H1.
      all: rewrite ?orb_true_r in H1; done.
    + apply NoDup_app. split; [apply Hfst, NoDup_map_entries|]. split; [|apply Hfst, NoDup_map_entries].
      intros [k v] [_ H1]%elem_of_List_filter [H2 _]%elem_of_List_filter. cbn [fst] in H1.
      apply elem_of_map_entries in H2. rewrite H2 in H1. done.
  - intros [k v]. rewrite elem_of_map_to_list, lookup_content, !elem_of_app, !elem_of_List_filter.
    rewrite !elem_of_map_entries, kv_order_perm, elem_of_map_to_list. cbn [fst snd].
    rewrite (kv_Read_hit db _ Hok), Hm. unfold kv_Read. cbn [mbind option_bind].
    destruct (upper db !! k) as [u|]; [|destruct (lower db !! k) as [d|]]; cbn; unfold cache_hit.
    all: repeat match goal with |- context [Tx.output_IsNull ?x] => destruct (Tx.output_IsNull x) eqn:? end.
    all: naive_solver congruence.
Qed.
Lemma kv_walk_copy ok l (db : CForkUnspentDB) m :
  (forall k, ok k = true) -> fu_kv db = Some m ->
  kv_walk (CopyWalker ok) l db = mkForkUnspent (Some (foldl (fun m e => <[e.1 := e.2]> m) m l)) (fu_dblCache db).
Proof.
  intros Hall. revert db m. induction l as [|[k v] l IH]; intros db m Hm; cbn [kv_walk foldl].
  - destruct db as [kv c]. cbn in Hm. by subst kv.
  - unfold CopyWalker at 1, WriteUnspent. rewrite Hm, Hall. cbn [kv_Write fst snd].
    rewrite (IH _ (<[k := v]> m)) by done. done.
Qed.

Lemma Copy_content db dest m ok :
  db_ok db -> fu_kv dest = Some m -> (forall k, ok k = true) ->
  exists dest', Copy kv_order db dest true ok = (true, dest') /\ db_ok dest' /\ content dest' = content db.
Proof.
  intros [Hwf [kv Hkv] Hn] Hm Hall. unfold Copy, RemoveAll. rewrite Hm, Hkv in *. cbn [kv_RemoveAll negb].
  rewrite (kv_walk_copy ok _ _ ∅ Hall) by done. unfold SetCache. cbn [fu_kv].
  assert (foldl (fun m e => <[e.1 := e.2]> m) ∅ (kv_order kv) = kv) as ->.
  { apply map_eq. intros k. rewrite lookup_writes by (rewrite kv_order_perm; apply NoDup_fst_map_to_list).
    rewrite (list_to_map_proper (kv_order kv) (map_to_list kv)), list_to_map_to_list, lookup_empty;
      [by destruct (kv !! k)|rewrite kv_order_perm; apply NoDup_fst_map_to_list|done]. }
  eexists. split; [done|]. split; [by split|]. unfold content, upper, lower. by rewrite Hkv.
Qed.
End walk_lemmas.

Lemma WalkThroughUnspent_content_witness :
  exists l, WalkThroughUnspent map_to_list log_walk sample_db [] = (true, l) /\ l ≡ₚ map_to_list (content sample_db).
Proof. apply (WalkThroughUnspent_content map_to_list (fun m => reflexivity _) sample_db sample_db_ok). Defined.

End ForkUnspentDB.

(** ** CUnspentDB *)

Module UnspentDB.

Import ForkUnspentDB.

(** [mapUnspentDB] *)
Notation Forks := (gmap Z CForkUnspentDB).

Definition Exists (dbs : Forks) (hashFork : Z) : bool := bool_decide (is_Some (dbs !! hashFork)).

(** [opened] is the store found when the database of the fork is opened, [None]
    if that fails. *)
Definition AddNewFork (dbs : Forks) (hashFork : Z) (opened : option MapType) : bool * Forks :=
  match dbs !! hashFork with
  | Some _ => (true, dbs)
  | None =>
      match opened with
      | None => (false, dbs)
      | Some m => (true, <[hashFork := mkForkUnspent (Some m) DblMap.init]> dbs)
      end
  end.

(** The result of [RemoveAll] is not looked at. *)
Definition RemoveFork (dbs : Forks) (hashFork : Z) : bool * Forks :=
  match dbs !! hashFork with
  | Some _ => (true, delete hashFork dbs)
  | None => (false, dbs)
  end.

Definition Clear (dbs : Forks) : Forks := ∅.

Definition Update (dbs : Forks) (hashFork : Z) (vAddNew : list CTxUnspent) (vRemove : list CTxOutPoint)
    : bool * Forks :=
  match dbs !! hashFork with
  | Some db => (true, <[hashFork := UpdateUnspent db vAddNew vRemove]> dbs)
  | None => (false, dbs)
  end.

Definition Retrieve (dbs : Forks) (hashFork : Z) (txout : CTxOutPoint) : option CTxOutput :=
  dbs !! hashFork ≫= fun db => ReadUnspent db true txout.

(** The source and the destination are the same object when the forks are: the
    destination is emptied before the source is read. *)
Definition Copy (kv_order : MapType -> list (CTxOutPoint * CTxOutput)) (dbs : Forks) (srcFork destFork : Z)
    (fRemove : bool) (ok : CTxOutPoint -> bool) : bool * Forks :=
  match dbs !! srcFork, dbs !! destFork with
  | Some src, Some dest =>
      let src := if srcFork =? destFork then (RemoveAll dest fRemove).2 else src in
      let '(b, dest) := ForkUnspentDB.Copy kv_order src dest fRemove ok in
      (b, <[destFork := dest]> dbs)
  | _, _ => (false, dbs)
  end.

Definition WalkThrough {W : Type} (kv_order : MapType -> list (CTxOutPoint * CTxOutput))
    (Walk : W -> CTxOutPoint -> CTxOutput -> bool * W) (dbs : Forks) (hashFork : Z) (w : W) : bool * W :=
  match dbs !! hashFork with
  | Some db => WalkThroughUnspent kv_order Walk db w
  | None => (false, w)
  end.

(** One round of [FlushProc]; [txn] gives the results of [TxnBegin] and
    [TxnCommit] of each fork. *)
Definition FlushProc (dbs : Forks) (txn : Z -> bool * bool) : Forks :=
  map_imap (fun f db => Some (Flush db (txn f).1 (txn f).2).2) dbs.

(** [Deinitialize]: every fork is flushed twice and closed; the stores left *)
Definition Deinitialize (dbs : Forks) (txn1 txn2 : Z -> bool * bool) : gmap Z MapType :=
  omap fu_kv (FlushProc (FlushProc dbs txn1) txn2).

(** *** Specification: one map of unspent outputs per fork *)

Definition forks_ok (dbs : Forks) : Prop := map_Forall (fun _ => db_ok) dbs.

Definition contents (dbs : Forks) : gmap Z MapType := content <$> dbs.

Lemma FlushProc_contents dbs txn : forks_ok dbs -> contents (FlushProc dbs txn) = contents dbs /\ forks_ok (FlushProc dbs txn).
Proof.
  intros Hok. split.
  - apply map_eq. intros f. unfold contents, FlushProc. rewrite !lookup_fmap, map_lookup_imap.
    destruct (dbs !! f) as [db|] eqn:E; [|done]. cbn. f_equal. apply Flush_content. by apply (Hok f).
  - intros f db. unfold FlushProc. rewrite map_lookup_imap. destruct (dbs !! f) as [db0|] eqn:E; [|done].
    cbn. intros. simplify_eq. apply Flush_ok. by apply (Hok f).
Qed.

Lemma Update_contents dbs f vA vR db :
  forks_ok dbs -> dbs !! f = Some db ->
  exists dbs', Update dbs f vA vR = (true, dbs') /\ forks_ok dbs' /\
    contents dbs' = <[f := apply_changes (content db) vA vR]> (contents dbs).
Proof.
  intros Hok Hf. unfold Update. rewrite Hf. eexists. split; [done|]. split.
  - apply map_Forall_insert_2; [|done]. apply UpdateUnspent_ok. by apply (Hok f).
  - unfold contents. rewrite fmap_insert. f_equal. apply UpdateUnspent_content, ok_wf. by apply (Hok f).
Qed.

Lemma Deinitialize_contents dbs :
  forks_ok dbs -> Deinitialize dbs (fun _ => (true, true)) (fun _ => (true, true)) = contents dbs.
Proof.
  intros Hok. apply map_eq. intros f. unfold Deinitialize, FlushProc, contents.
  rewrite lookup_omap, lookup_fmap, !map_lookup_imap. destruct (dbs !! f) as [db|] eqn:E; [|done].
  cbn. destruct (Flush_twice db) as (_ & _ & H); [by apply (Hok f)|]. done.
Qed.

Lemma Retrieve_contents dbs f o : forks_ok dbs -> Retrieve dbs f o = contents dbs !! f ≫= fun m => m !! o.
Proof.
  intros Hok. unfold Retrieve, contents. rewrite lookup_fmap. destruct (dbs !! f) as [db|] eqn:E; [|done].
  cbn. unfold ReadUnspent. rewrite lookup_content, kv_Read_hit by (by apply (Hok f)). done.
Qed.

Lemma Copy_contents kv_order dbs src dest a b ok :
  (forall m, kv_order m ≡ₚ map_to_list m) -> forks_ok dbs -> (forall o, ok o = true) ->
  src <> dest -> dbs !! src = Some a -> dbs !! dest = Some b ->
  exists dbs', Copy kv_order dbs src dest true ok = (true, dbs') /\ forks_ok dbs' /\
    contents dbs' = <[dest := content a]> (contents dbs).
Proof.
  intros Hperm Hok Hall Hne Ha Hb. unfold Copy. rewrite Ha, Hb. rewrite (proj2 (Z.eqb_neq src dest)) by done.
  destruct (ok_open b (Hok _ _ Hb)) as [m Hm].
  destruct (Copy_content kv_order Hperm a b m ok) as (d & -> & Hd & Ec); [by apply (Hok src)|done|done|].
  eexists. split; [done|]. split; [by apply map_Forall_insert_2|]. unfold contents. by rewrite fmap_insert, Ec.
Qed.

Lemma content_opened m o : content (mkForkUnspent (Some m) DblMap.init) !! o = m !! o ≫= cache_hit.
Proof. rewrite lookup_content. cbn. by rewrite !lookup_empty. Qed.

(** C36: the databases of all forks implement one map of unspent outputs per
    fork.  [Retrieve] looks up in the fork's map, [Update] changes the map of its
    fork and no other, a round of the flush thread changes none whatever its
    transactions do, [Copy] makes the map of the destination that of the source,
    and a shutdown whose transactions succeed followed by reopening the stores
    gives every fork the map it had. *)
Theorem unspentdb_refines (kv_order : MapType -> list (CTxOutPoint * CTxOutput))
    (kv_order_perm : forall m, kv_order m ≡ₚ map_to_list m) (dbs : Forks) (Hok : forks_ok dbs) :
  (forall f o, Retrieve dbs f o = contents dbs !! f ≫= fun m => m !! o) /\
  (forall f vA vR db, dbs !! f = Some db ->
     exists dbs', Update dbs f vA vR = (true, dbs') /\ forks_ok dbs' /\
       contents dbs' = <[f := apply_changes (content db) vA vR]> (contents dbs)) /\
  (forall txn, contents (FlushProc dbs txn) = contents dbs /\ forks_ok (FlushProc dbs txn)) /\
  (forall src dest a b, src <> dest -> dbs !! src = Some a -> dbs !! dest = Some b ->
     exists dbs', Copy kv_order dbs src dest true (fun _ => true) = (true, dbs') /\ forks_ok dbs' /\
       contents dbs' = <[dest := content a]> (contents dbs)) /\
  (forall f db, dbs !! f = Some db ->
     let disk := Deinitialize dbs (fun _ => (true, true)) (fun _ => (true, true)) in
     exists dbs', AddNewFork ∅ f (disk !! f) = (true, dbs') /\ contents dbs' !! f = Some (content db)).
Proof.
  split; [|split; [|split; [|split]]].
  - intros. by apply Retrieve_contents.
  - intros. by apply Update_contents.
  - intros. by apply FlushProc_contents.
  - intros. by eapply Copy_contents.
  - intros f db Hf. cbv zeta. rewrite Deinitialize_contents by done.
    unfold contents at 1. rewrite lookup_fmap, Hf. cbn.
    unfold AddNewFork. rewrite lookup_empty. eexists. split; [done|].
    unfold contents. rewrite fmap_insert, lookup_insert_eq. f_equal. apply map_eq. intros o.
    rewrite content_opened. apply content_hit.
Qed.

Lemma sample_forks_ok : forks_ok {[7 := sample_db]}.
Proof. intros f db [_ <-]%lookup_singleton_Some. apply sample_db_ok. Defined.

Lemma unspentdb_refines_witness :
  Retrieve {[7 := sample_db]} 7 (mkOutPoint 2 0) = Some sample_output /\
  contents (FlushProc {[7 := sample_db]} (fun _ => (true, false))) = contents {[7 := sample_db]}.
Proof.
  destruct (unspentdb_refines map_to_list (fun m => reflexivity _) {[7 := sample_db]} sample_forks_ok)
    as (H1 & _ & H3 & _).
  split; [rewrite H1; vm_compute; reflexivity|apply H3].
Defined.

End UnspentDB.

(** * Readers, updates and the flush thread, interleaved *)

Module UnspentSync.

Import ForkUnspentDB.

(** ** What a reader sees

    The updates take [rwUpper] exclusively for their whole body, so an update is
    one step.  [Flush] holds [rwLower] as its upgradable holder throughout; its
    steps are the ones other threads can observe: collecting the lower cache,
    committing the batch (or failing), becoming exclusive (from then on
    [ReadTryLock] fails), and exchanging the caches under [rwUpper]. *)
Inductive flush_pc : Type :=
  | FIdle
  | FCollected (vAddNew : list (CTxOutPoint * CTxOutput)) (vRemove : list CTxOutPoint)
  | FCommitted
  | FUpgraded.

Definition commit (db : CForkUnspentDB) (vAddNew : list (CTxOutPoint * CTxOutput)) (vRemove : list CTxOutPoint)
    : CForkUnspentDB :=
  mkForkUnspent ((fun m => write_batch m vAddNew vRemove) <$> fu_kv db) (fu_dblCache db).

Definition flip (db : CForkUnspentDB) : CForkUnspentDB :=
  mkForkUnspent (fu_kv db) (DblMap.Flip (fu_dblCache db)).

Inductive sys_step : CForkUnspentDB * flush_pc -> CForkUnspentDB * flush_pc -> Prop :=
  | sys_update db pc vAddNew vRemove : sys_step (db, pc) (UpdateUnspent db vAddNew vRemove, pc)
  | sys_collect db vAddNew vRemove :
      flush_lists (lower db) = (vAddNew, vRemove) -> sys_step (db, FIdle) (db, FCollected vAddNew vRemove)
  | sys_fail db vAddNew vRemove : sys_step (db, FCollected vAddNew vRemove) (db, FIdle)
  | sys_commit db vAddNew vRemove :
      sys_step (db, FCollected vAddNew vRemove) (commit db vAddNew vRemove, FCommitted)
  | sys_upgrade db : sys_step (db, FCommitted) (db, FUpgraded)
  | sys_flip db : sys_step (db, FUpgraded) (flip db, FIdle).

(** The three places [ReadUnspent] looks at, one after the other, with no lock
    held between them *)
Inductive read_pc : Type :=
  | RUpper
  | RLower
  | RStore
  | RDone (r : option CTxOutput).

Definition read_step (txout : CTxOutPoint) (s : CForkUnspentDB * flush_pc) (r : read_pc) : read_pc :=
  match r with
  | RUpper => match upper s.1 !! txout with Some v => RDone (cache_hit v) | None => RLower end
  | RLower =>
      match s.2 with
      | FUpgraded => RStore
      | _ => match lower s.1 !! txout with Some v => RDone (cache_hit v) | None => RStore end
      end
  | RStore => RDone (kv_Read (fu_kv s.1) txout)
  | RDone r => RDone r
  end.

(** A read in progress: the state of the system, where the reader is, and the
    databases there have been since the call *)
Inductive reading (txout : CTxOutPoint) (s0 : CForkUnspentDB * flush_pc)
    : CForkUnspentDB * flush_pc -> read_pc -> list CForkUnspentDB -> Prop :=
  | reading_call : reading txout s0 s0 RUpper [s0.1]
  | reading_other s s' r h : reading txout s0 s r h -> sys_step s s' -> reading txout s0 s' r (s'.1 :: h)
  | reading_reader s r h : reading txout s0 s r h -> reading txout s0 s (read_step txout s r) h.

Definition sys_reachable (db : CForkUnspentDB) (s : CForkUnspentDB * flush_pc) : Prop :=
  rtc sys_step (db, FIdle) s.

(** *** The invariant of the system *)

Record sys_inv (s : CForkUnspentDB * flush_pc) : Prop := {
  sys_ok : db_ok s.1;
  sys_pc : match s.2 with
           | FIdle => True
           | FCollected vAddNew vRemove => flush_lists (lower s.1) = (vAddNew, vRemove)
           | FCommitted | FUpgraded =>
               forall k v, lower s.1 !! k = Some v -> kv_Read (fu_kv s.1) k = cache_hit v
           end;
}.

(** What lies under the upper cache *)
Definition below (db : CForkUnspentDB) (k : CTxOutPoint) : option CTxOutput :=
  match lower db !! k with Some v => cache_hit v | None => kv_Read (fu_kv db) k end.

Lemma lower_update db vA vR : DblMap.wf (fu_dblCache db) -> lower (UpdateUnspent db vA vR) = lower db.
Proof. intros. unfold lower, UpdateUnspent. cbn. by apply DblMap.lower_set. Qed.

Lemma kv_commit db vA vR k :
  db_ok db -> flush_lists (lower db) = (vA, vR) -> kv_Read (fu_kv (commit db vA vR)) k = below db k.
Proof.
  intros [_ [m Hm] _] Hl. unfold commit, below. rewrite Hm. cbn.
  pose proof (lookup_flush (lower db) m k) as H. by rewrite Hl in H.
Qed.

Lemma below_nonnull db k v : db_ok db -> below db k = Some v -> Tx.output_IsNull v = false.
Proof.
  intros [_ _ Hn]. unfold below, cache_hit. destruct (lower db !! k); [|apply Hn].
  case_match; intros; by simplify_eq.
Qed.

Lemma sys_step_inv s s' : sys_inv s -> sys_step s s' -> sys_inv s'.
Proof.
  intros [Hok Hpc] Hs. destruct Hs; cbn [fst snd] in *; pose proof Hok as [Hwf Hop Hn].
  - split; cbn [fst snd]; [by apply UpdateUnspent_ok|]. rewrite lower_update by done. done.
  - by split.
  - by split.
  - split; cbn [fst snd].
    + split; [done|cbn; destruct Hop as [m ->]; by eexists|].
      intros k v. rewrite (kv_commit db _ _ k Hok Hpc). by apply below_nonnull.
    + intros k v Hk. rewrite (kv_commit db _ _ k Hok Hpc). unfold below.
      change (lower db !! k = Some v) in Hk. by rewrite Hk.
  - by split.
  - split; cbn [fst snd]; [|done]. split; cbn; [by apply DblMap.wf_flip|done|done].
Qed.

Lemma sys_reachable_inv db s : db_ok db -> sys_reachable db s -> sys_inv s.
Proof.
  intros Hok. revert s. apply (rtc_ind_r (R := sys_step)); [by split|]. eauto using sys_step_inv.
Qed.

(** *** Linearizability of the reads *)

(** The value lies in one of the databases of the history. *)
Definition seen (k : CTxOutPoint) (h : list CForkUnspentDB) (r : option CTxOutput) : Prop :=
  Exists (fun db => content db !! k = r) h.

Definition read_inv (k : CTxOutPoint) (s : CForkUnspentDB * flush_pc) (r : read_pc) (h : list CForkUnspentDB) : Prop :=
  seen k h (content s.1 !! k) /\
  match r with
  | RUpper => True
  | RLower => seen k h (below s.1 k)
  | RStore => seen k h (below s.1 k) /\ seen k h (kv_Read (fu_kv s.1) k)
  | RDone r => seen k h r
  end.

Lemma seen_later k db h r : seen k h r -> seen k (db :: h) r.
Proof. by right. Qed.

Lemma content_below db k :
  db_ok db -> content db !! k = match upper db !! k with Some v => cache_hit v | None => below db k end.
Proof. intros Hok. rewrite lookup_content, (kv_Read_hit db k Hok). done. Qed.

(** A step of the others leaves what lies under the upper cache and in the
    store as it was, unless it exchanges the caches or commits. *)
Lemma below_step s s' k :
  sys_inv s -> sys_step s s' ->
  (below s'.1 k = below s.1 k \/ below s'.1 k = content s'.1 !! k) /\
  (kv_Read (fu_kv s'.1) k = kv_Read (fu_kv s.1) k \/ kv_Read (fu_kv s'.1) k = below s.1 k).
Proof.
  intros Hinv Hs. pose proof (sys_step_inv _ _ Hinv Hs) as [Hok' _]. destruct Hinv as [Hok Hpc].
  destruct Hs; cbn [fst snd] in *; pose proof Hok as [Hwf Hop Hn].
  - split; left; [|done]. unfold below. by rewrite lower_update.
  - split; by left.
  - split; by left.
  - rewrite (kv_commit db _ _ k Hok Hpc). split; [|by right]. left. unfold below at 1.
    rewrite (kv_commit db _ _ k Hok Hpc). change (lower (commit db vAddNew vRemove)) with (lower db).
    unfold below. by destruct (lower db !! k).
  - split; by left.
  - split; [|by left]. right. rewrite (content_below _ k Hok'). unfold upper, flip at 2. cbn [fu_dblCache].
    by rewrite DblMap.upper_flip, lookup_empty.
Qed.

Lemma reading_inv k s0 s r h : sys_inv s0 -> reading k s0 s r h -> sys_inv s /\ read_inv k s r h.
Proof.
  intros H0. induction 1 as [|s s' r h H [IHs [IHc IHr]] Hs|s r h H [IHs [IHc IHr]]].
  - split; [done|]. split; [|done]. by left.
  - pose proof (below_step s s' k IHs Hs) as [Hb Hk].
    split; [by eapply sys_step_inv|]. split; [by left|].
    assert (Hc : seen k (s'.1 :: h) (content s'.1 !! k)) by by left.
    destruct r as [| | |r]; [done| | |by apply seen_later].
    + destruct Hb as [-> | ->]; [by apply seen_later|done].
    + destruct IHr as [IH1 IH2].
      split; [destruct Hb as [-> | ->]|destruct Hk as [-> | ->]]; try done; by apply seen_later.
  - split; [done|]. split; [done|]. destruct s as [db pc]. cbn [fst snd] in *.
    destruct IHs as [Hok Hpc]. cbn [fst snd] in *.
    destruct r as [| | |r]; cbn [read_step fst snd]; [| |by destruct IHr|done].
    + rewrite (content_below db k Hok) in IHc. by destruct (upper db !! k).
    + assert (Hl : match lower db !! k with Some v => seen k h (cache_hit v)
                   | None => seen k h (below db k) /\ seen k h (kv_Read (fu_kv db) k) end).
      { unfold below in *. by destruct (lower db !! k). }
      destruct pc; [by destruct (lower db !! k)..|].
      split; [done|]. destruct (lower db !! k) as [v|] eqn:E; [|by destruct Hl].
      rewrite (Hpc k v E). done.
Qed.

(** C9: a read of the database is linearizable.  [ReadUnspent] looks at the
    upper cache, at the lower one (unless the flush thread is exchanging the
    caches, when it skips it) and at the store, and holds no lock in between, so
    that updates and a whole flush can run at any point of it.  Whatever they
    do, the result is the output that the map [content] held at some moment
    between the call and the return. *)
Theorem ReadUnspent_linearizable (db : CForkUnspentDB) (txout : CTxOutPoint)
    (s0 s : CForkUnspentDB * flush_pc) (r : option CTxOutput) (h : list CForkUnspentDB)
    (Hok : db_ok db) (H0 : sys_reachable db s0) (Hr : reading txout s0 s (RDone r) h) :
  exists db', db' ∈ h /\ content db' !! txout = r.
Proof.
  apply (sys_reachable_inv db s0 Hok) in H0.
  destruct (reading_inv _ _ _ _ _ H0 Hr) as [_ [_ H]]. by apply Exists_exists in H.
Qed.

(** The flush has committed and exchanges the caches while a read is on its way. *)
Lemma ReadUnspent_linearizable_witness :
  exists db', db' ∈ [flip (commit sample_db [] [mkOutPoint 1 0]); commit sample_db [] [mkOutPoint 1 0]] /\
    content db' !! mkOutPoint 2 0 = Some sample_output.
Proof.
  apply (ReadUnspent_linearizable sample_db (mkOutPoint 2 0) (commit sample_db [] [mkOutPoint 1 0], FUpgraded)
    (flip (commit sample_db [] [mkOutPoint 1 0]), FIdle) (Some sample_output) _ sample_db_ok).
  - eapply rtc_l; [apply sys_collect; vm_compute; reflexivity|].
    eapply rtc_l; [apply sys_commit|]. apply rtc_once, sys_upgrade.
  - pose proof (reading_other (mkOutPoint 2 0) _ _ _ _ _ (reading_call (mkOutPoint 2 0) _)
      (sys_flip (commit sample_db [] [mkOutPoint 1 0]))) as H.
    exact (reading_reader _ _ _ _ _ (reading_reader _ _ _ _ _ H)).
Defined.

(** ** The order of the locks *)

(** The lock operations of a thread, in the order it makes them; a call that
    waits is one for the request and one for the wait. *)
Inductive lock_id : Type := Upper | Lower.

Inductive lock_op : Type :=
  | OReadLock (l : lock_id)
  | OReadUnlock (l : lock_id)
  | OWriteBegin (l : lock_id)
  | OWriteLock (l : lock_id)
  | OWriteUnlock (l : lock_id)
  | OUpgradeLock (l : lock_id)
  | OToWriteBegin (l : lock_id)
  | OToWriteLock (l : lock_id)
  | OUpgradeUnlock (l : lock_id).

(** [Flush] when the transaction commits *)
Definition Flush_locks : list lock_op :=
  [OUpgradeLock Lower; OToWriteBegin Lower; OToWriteLock Lower;
   OWriteBegin Upper; OWriteLock Upper; OWriteUnlock Upper; OUpgradeUnlock Lower].

(** [Copy] and [WalkThroughUnspent] *)
Definition Walk_locks : list lock_op :=
  [OReadLock Upper; OReadLock Lower; OReadUnlock Lower; OReadUnlock Upper].

Definition locks : Type := CWalleveRWAccess * CWalleveRWAccess.

Definition get_lock (s : locks) (l : lock_id) : CWalleveRWAccess :=
  match l with Upper => s.1 | Lower => s.2 end.

Definition set_lock (s : locks) (l : lock_id) (a : CWalleveRWAccess) : locks :=
  match l with Upper => (a, s.2) | Lower => (s.1, a) end.

(** One operation; [None]: the thread has to wait *)
Definition exec_op (s : locks) (o : lock_op) : option locks :=
  match o with
  | OReadLock l => set_lock s l <$> RWAccess.ReadLock (get_lock s l)
  | OReadUnlock l => Some (set_lock s l (RWAccess.ReadUnlock (get_lock s l)).1)
  | OWriteBegin l => Some (set_lock s l (RWAccess.WriteLock_begin (get_lock s l)))
  | OWriteLock l => set_lock s l <$> RWAccess.WriteLock (get_lock s l)
  | OWriteUnlock l => Some (set_lock s l (RWAccess.WriteUnlock (get_lock s l)).1)
  | OUpgradeLock l => set_lock s l <$> RWAccess.UpgradeLock (get_lock s l)
  | OToWriteBegin l => Some (set_lock s l (RWAccess.UpgradeToWriteLock_begin (get_lock s l)))
  | OToWriteLock l => set_lock s l <$> RWAccess.UpgradeToWriteLock (get_lock s l)
  | OUpgradeUnlock l => Some (set_lock s l (RWAccess.UpgradeUnlock (get_lock s l)).1)
  end.

Inductive lock_step : locks * list (list lock_op) -> locks * list (list lock_op) -> Prop :=
  | lock_step_intro s s' ts i o p :
      ts !! i = Some (o :: p) -> exec_op s o = Some s' -> lock_step (s, ts) (s', <[i := p]> ts).

Definition fresh_locks : locks := (RWAccess.init, RWAccess.init).

(** The threads that have not finished *)
Definition pending (ts : list (list lock_op)) : list (list lock_op) :=
  List.filter (fun p => match p with [] => false | _ => true end) ts.

(** [Flush] takes [rwLower] before [rwUpper]; [Copy] and
    [WalkThroughUnspent] take them in the opposite order, and the two can wait
    for each other.  From unused locks a flush beside a walk reaches a state in
    which both are unfinished and no step is possible: the walk holds [rwUpper]
    and waits until [rwLower] is no longer upgraded, the flush holds [rwLower]
    and waits for the reader of [rwUpper]. *)
Theorem flush_walk_deadlock :
  exists s ts, rtc lock_step (fresh_locks, [Flush_locks; Walk_locks]) (s, ts) /\
    length (pending ts) = 2%nat /\ forall s', ~ lock_step (s, ts) s'.
Proof.
  eexists (_, _), [_; _]. split.
  { eapply rtc_l; [eapply (lock_step_intro _ _ _ 1); reflexivity|].
    do 4 (eapply rtc_l; [eapply (lock_step_intro _ _ _ 0); reflexivity|]). apply rtc_refl. }
  split; [done|]. intros s' Hs. inversion Hs as [? ? ? i o p Hi Ho]; subst.
  destruct i as [|[|i]]; cbn in Hi; simplify_eq; cbn in Ho; done.
Qed.

End UnspentSync.
