(* ===== verification/BlockView.v ===== *)
(** * The view of a fork at a block (class CBlockView of src/storage/blockbase.h)

    A [CBlockView] is a set of changes over the database of unspent outputs of
    a fork: the node builds one when a block arrives, by removing the blocks of
    the best chain that the new one leaves and adding those of its branch, and
    commits it if the branch wins.  [CUnspent::nOpt] counts the enabling and
    disabling of an output, so that one that ends where it was in the database
    is not written.

    The abstract counterpart is a chain of transactions replayed on a map of
    unspent outputs ([apply_txs]).  The theorems show that a view built over a
    reorganisation is the replay of the new branch and that its commit makes the
    database that map; [total_apply] says what a transaction does to the sum of the
    unspent outputs. *)

From S2P Require Import Prelude RWLock Stream Destination Transaction Block Base UnspentDB.

Import CWalleveStream.

#[local] Existing Instance Tx.outpoint_lt_dec.

(** [CBlockView::CUnspent] *)
Record CUnspent : Type := mkUnspent { cu_output : CTxOutput; cu_nOpt : Z }.

Record CBlockView : Type := mkBlockView {
  bv_mapTx : gmap Z CTransaction;
  bv_mapUnspent : gmap CTxOutPoint CUnspent;
  bv_vTxRemove : list Z;
  bv_vTxAddNew : list Z;
}.

Module BlockView.

(** ** CUnspent *)

Definition new_unspent : CUnspent := mkUnspent Tx.output_null 0.

Definition Enable (u : CUnspent) (output : CTxOutput) : CUnspent := mkUnspent output (cu_nOpt u + 1).

Definition Disable (u : CUnspent) : CUnspent := mkUnspent Tx.output_null (cu_nOpt u - 1).

Definition IsModified (u : CUnspent) : bool := negb (cu_nOpt u =? 0).

(** ** CBlockView *)

Definition empty : CBlockView := mkBlockView ∅ ∅ [] [].

(** [mapUnspent[out].Disable()] and [mapUnspent[out].Enable(output)] *)
Definition disable_out (m : gmap CTxOutPoint CUnspent) (out : CTxOutPoint) : gmap CTxOutPoint CUnspent :=
  <[out := Disable (default new_unspent (m !! out))]> m.

Definition enable_out (m : gmap CTxOutPoint CUnspent) (out : CTxOutPoint) (output : CTxOutput)
    : gmap CTxOutPoint CUnspent :=
  <[out := Enable (default new_unspent (m !! out)) output]> m.

Definition enable_nonnull (m : gmap CTxOutPoint CUnspent) (out : CTxOutPoint) (output : CTxOutput)
    : gmap CTxOutPoint CUnspent :=
  if Tx.output_IsNull output then m else enable_out m out output.

Definition input_outs (tx : CTransaction) : list CTxOutPoint := map prevout (tx_vInput tx).

Definition AddTx (v : CBlockView) (txid : Z) (tx : CTransaction) (destIn : CDestination) (nValueIn : Z)
    : CBlockView :=
  let m := foldl disable_out (bv_mapUnspent v) (input_outs tx) in
  let m := enable_nonnull m (mkOutPoint txid 0) (Tx.output_of_tx tx) in
  let m := enable_nonnull m (mkOutPoint txid 1) (Tx.output_change tx destIn nValueIn) in
  mkBlockView (<[txid := tx]> (bv_mapTx v)) m (bv_vTxRemove v) (bv_vTxAddNew v ++ [txid]).

(** [CTxOutput(txContxt.destIn,in.nAmount,in.nTxTime,in.nLockUntil)] *)
Definition contxt_output (txContxt : CTxContxt) (c : CTxInContxt) : CTxOutput :=
  mkTxOutput (ctx_destIn txContxt) (inc_nAmount c) (inc_nTxTime c) (inc_nLockUntil c).

(** The inputs with their contexts; [txContxt.vin] has one entry per input. *)
Definition RemoveTx (v : CBlockView) (txid : Z) (tx : CTransaction) (txContxt : CTxContxt) : CBlockView :=
  let m := foldl (fun m e => enable_out m e.1 (contxt_output txContxt e.2)) (bv_mapUnspent v)
             (zip (input_outs tx) (ctx_vin txContxt)) in
  let m := disable_out m (mkOutPoint txid 0) in
  let m := disable_out m (mkOutPoint txid 1) in
  mkBlockView (<[txid := Tx.SetNull]> (bv_mapTx v)) m (bv_vTxRemove v ++ [txid]) (bv_vTxAddNew v).

Section base.
(** What the block base knows: [ExistsTx], [RetrieveTx] and [GetTxUnspent] of
    the fork *)
Context (base_ExistsTx : Z -> bool) (base_RetrieveTx : Z -> option CTransaction)
  (base_GetTxUnspent : CTxOutPoint -> option CTxOutput).

Definition ExistsTx (v : CBlockView) (txid : Z) : bool :=
  match bv_mapTx v !! txid with
  | Some tx => negb (Tx.IsNull tx)
  | None => base_ExistsTx txid
  end.

Definition RetrieveTx (v : CBlockView) (txid : Z) : option CTransaction :=
  match bv_mapTx v !! txid with
  | Some tx => if Tx.IsNull tx then None else Some tx
  | None => base_RetrieveTx txid
  end.

Definition RetrieveUnspent (v : CBlockView) (out : CTxOutPoint) : option CTxOutput :=
  match bv_mapUnspent v !! out with
  | Some u => if Tx.output_IsNull (cu_output u) then None else Some (cu_output u)
  | None => base_GetTxUnspent out
  end.
End base.

Definition GetUnspentChanges (v : CBlockView) : list CTxUnspent * list CTxOutPoint :=
  let l := List.filter (fun e => IsModified e.2) (map_entries Tx.outpoint_lt (bv_mapUnspent v)) in
  (map (fun e => mkTxUnspent e.1 (cu_output e.2)) (List.filter (fun e => negb (Tx.output_IsNull (cu_output e.2))) l),
   map fst (List.filter (fun e => Tx.output_IsNull (cu_output e.2)) l)).

(** [mapTx[txid]] of an id in [vTxRemove]: it has an entry. *)
Definition tx_null (v : CBlockView) (txid : Z) : bool := Tx.IsNull (default Tx.SetNull (bv_mapTx v !! txid)).

Definition GetTxUpdated (v : CBlockView) : gset Z :=
  list_to_set (List.filter (fun txid => negb (tx_null v txid)) (bv_vTxRemove v)).

Definition GetTxRemoved (v : CBlockView) : list Z := List.filter (tx_null v) (bv_vTxRemove v).

(** ** Specification: replaying transactions on a map of unspent outputs *)

(** A transaction of the chain with its id and the context it was accepted in *)
Record LinkedTx : Type := mkLinked { lt_id : Z; lt_tx : CTransaction; lt_contxt : CTxContxt }.

Definition change_of (t : LinkedTx) : CTxOutput :=
  Tx.output_change (lt_tx t) (ctx_destIn (lt_contxt t)) (Tx.contxt_GetValueIn (lt_contxt t)).

Definition add_out (m : MapType) (out : CTxOutPoint) (output : CTxOutput) : MapType :=
  if Tx.output_IsNull output then m else <[out := output]> m.

Definition spend (m : MapType) (out : CTxOutPoint) : MapType := delete out m.

Definition apply_tx (m : MapType) (t : LinkedTx) : MapType :=
  let m := foldl spend m (input_outs (lt_tx t)) in
  let m := add_out m (mkOutPoint (lt_id t) 0) (Tx.output_of_tx (lt_tx t)) in
  add_out m (mkOutPoint (lt_id t) 1) (change_of t).

Definition apply_txs (m : MapType) (l : list LinkedTx) : MapType := foldl apply_tx m l.

(** The transaction spends distinct outputs of [m], which its context describes,
    and its own outputs are new. *)
Record applies (m : MapType) (t : LinkedTx) : Prop := {
  ap_nodup : NoDup (input_outs (lt_tx t));
  ap_inputs : Forall2 (fun o c => m !! o = Some (contxt_output (lt_contxt t) c))
                (input_outs (lt_tx t)) (ctx_vin (lt_contxt t));
  ap_new0 : m !! mkOutPoint (lt_id t) 0 = None;
  ap_new1 : m !! mkOutPoint (lt_id t) 1 = None;
}.

Fixpoint all_apply (m : MapType) (l : list LinkedTx) : Prop :=
  match l with
  | [] => True
  | t :: l => applies m t /\ all_apply (apply_tx m t) l
  end.

(** What adding and removing a list of transactions does to a view *)
Definition add_linked (v : CBlockView) (t : LinkedTx) : CBlockView :=
  AddTx v (lt_id t) (lt_tx t) (ctx_destIn (lt_contxt t)) (Tx.contxt_GetValueIn (lt_contxt t)).

Definition remove_linked (v : CBlockView) (t : LinkedTx) : CBlockView :=
  RemoveTx v (lt_id t) (lt_tx t) (lt_contxt t).

(** ** The blocks of a branch, as [CBlockBase::GetBlockView] visits them *)

Definition null_contxt : CTxContxt := mkTxContxt Destination.SetNull [].

(** The contexts of a stored block: [vTxContxt] has one per transaction. *)
Definition linked_vtx (CryptoHash : list Z -> Z) (b : CBlockEx) : list LinkedTx :=
  zip_with (fun tx c => mkLinked (Tx.GetHash CryptoHash tx) tx c) (b_vtx (bex_block b)) (bex_vTxContxt b).

Definition linked_mint (CryptoHash : list Z -> Z) (b : CBlockEx) : LinkedTx :=
  mkLinked (Tx.GetHash CryptoHash (b_txMint (bex_block b))) (b_txMint (bex_block b)) null_contxt.

(** The transactions of a block in the order they are applied *)
Definition linked_txs (CryptoHash : list Z -> Z) (b : CBlockEx) : list LinkedTx :=
  linked_mint CryptoHash b :: linked_vtx CryptoHash b.

(** A block of the old branch: its transactions backwards, then the mint
    transaction unless the block is vacant *)
Definition remove_block (CryptoHash : list Z -> Z) (v : CBlockView) (b : CBlockEx) : CBlockView :=
  let v := foldl remove_linked v (rev (linked_vtx CryptoHash b)) in
  if Tx.IsNull (b_txMint (bex_block b)) then v else remove_linked v (linked_mint CryptoHash b).

Definition add_block (CryptoHash : list Z -> Z) (v : CBlockView) (b : CBlockEx) : CBlockView :=
  foldl add_linked v (linked_txs CryptoHash b).

(** The transactions of a branch, oldest block first *)
Definition branch_txs (CryptoHash : list Z -> Z) (bs : list CBlockEx) : list LinkedTx :=
  concat (map (linked_txs CryptoHash) bs).

Section content.
(** The output an outpoint names, whenever it exists: the id of a transaction
    determines the transaction and with it its outputs and its context. *)
Context (output_at : CTxOutPoint -> CTxOutput).

Record named (t : LinkedTx) : Prop := {
  nm_out0 : output_at (mkOutPoint (lt_id t) 0) = Tx.output_of_tx (lt_tx t);
  nm_out1 : output_at (mkOutPoint (lt_id t) 1) = change_of t;
  nm_inputs : Forall2 (fun o c => output_at o = contxt_output (lt_contxt t) c)
                (input_outs (lt_tx t)) (ctx_vin (lt_contxt t));
}.

Definition well_named (m : MapType) : Prop :=
  forall o x, m !! o = Some x -> x = output_at o /\ Tx.output_IsNull x = false.

(** The number of outputs at a lookup: 0 or 1 *)
Definition pres (x : option CTxOutput) : Z := match x with Some _ => 1 | None => 0 end.

(** The view, whose database holds [m0], stands for [m]. *)
Record view_of (m0 : MapType) (v : gmap CTxOutPoint CUnspent) (m : MapType) : Prop := {
  vo_base : well_named m0;
  vo_named : well_named m;
  vo_entry : forall o,
    match v !! o with
    | None => m !! o = m0 !! o
    | Some u =>
        m !! o = ForkUnspentDB.cache_hit (cu_output u) /\
        (Tx.output_IsNull (output_at o) = false -> cu_nOpt u = pres (m !! o) - pres (m0 !! o))
    end;
}.

(** *** One entry *)

Lemma cache_hit_spec x : ForkUnspentDB.cache_hit x = if Tx.output_IsNull x then None else Some x.
Proof. done. Qed.

Lemma view_disable m0 v m o :
  view_of m0 v m ->
  (Tx.output_IsNull (output_at o) = false -> is_Some (m !! o)) ->
  view_of m0 (disable_out v o) (spend m o).
Proof.
  intros [Hb Hn He] Hpres. split; [done| |].
  - intros o' x Hx. unfold spend in Hx. apply lookup_delete_Some in Hx as [_ Hx]. by apply Hn.
  - intros o'. unfold disable_out, spend. destruct (decide (o = o')) as [<-|Hne].
    + rewrite lookup_insert_eq, lookup_delete_eq. split; [done|]. intros Ho. cbn [cu_nOpt Disable pres].
      specialize (He o). specialize (Hpres Ho) as [x Hx]. rewrite Hx in He. cbn in He.
      destruct (v !! o) as [u|]; cbn in *; [destruct He as [_ He]; rewrite (He Ho); lia|].
      rewrite <- He. cbn. lia.
    + rewrite lookup_insert_ne, lookup_delete_ne by done. apply He.
Qed.

Lemma view_enable m0 v m o :
  view_of m0 v m -> Tx.output_IsNull (output_at o) = false -> m !! o = None ->
  view_of m0 (enable_out v o (output_at o)) (<[o := output_at o]> m).
Proof.
  intros [Hb Hn He] Ho Hm. split; [done| |].
  - intros o' x [[-> <-]|[_ Hx]]%lookup_insert_Some; [done|by apply Hn].
  - intros o'. unfold enable_out. destruct (decide (o = o')) as [<-|Hne].
    + rewrite !lookup_insert_eq. cbn [cu_output cu_nOpt Enable pres]. rewrite cache_hit_spec, Ho.
      split; [done|]. intros _. specialize (He o). rewrite Hm in He. cbn in He.
      destruct (v !! o) as [u|]; cbn in *; [destruct He as [_ He]; rewrite (He Ho); lia|].
      rewrite <- He. cbn. lia.
    + rewrite !lookup_insert_ne by done. apply He.
Qed.

Lemma view_enable_nonnull m0 v m o :
  view_of m0 v m -> m !! o = None ->
  view_of m0 (enable_nonnull v o (output_at o)) (add_out m o (output_at o)).
Proof.
  intros Hv Hm. unfold enable_nonnull, add_out. destruct (Tx.output_IsNull _) eqn:E; [done|].
  by apply view_enable.
Qed.

(** *** A transaction *)

Lemma lookup_spends os m o : foldl spend m os !! o = if decide (o ∈ os) then None else m !! o.
Proof. apply lookup_erases. Qed.

Lemma lookup_add_out m o x o' :
  add_out m o x !! o' = if decide (o = o') then if Tx.output_IsNull x then m !! o' else Some x else m !! o'.
Proof.
  unfold add_out. case_decide as E; [subst|]; case_match; rewrite ?lookup_insert_eq, ?lookup_insert_ne; done.
Qed.

Lemma view_spends m0 v m os :
  NoDup os -> (forall o, o ∈ os -> is_Some (m !! o)) ->
  view_of m0 v m -> view_of m0 (foldl disable_out v os) (foldl spend m os).
Proof.
  revert v m. induction os as [|o os IH]; intros v m Hnd Hp Hv; cbn [foldl]; [done|].
  apply NoDup_cons in Hnd as [Ho Hnd]. apply IH; [done| |].
  - intros o' Ho'. unfold spend. rewrite lookup_delete_ne by (intros ->; done). apply Hp. by right.
  - apply view_disable; [done|]. intros _. apply Hp. by left.
Qed.

Lemma ap_present m t o : applies m t -> o ∈ input_outs (lt_tx t) -> is_Some (m !! o).
Proof.
  intros [_ Hi _ _] [i Ho]%list_elem_of_lookup.
  destruct (Forall2_lookup_l _ _ _ _ _ Hi Ho) as (c & _ & E). by eexists.
Qed.

Lemma view_add m0 v m t :
  named t -> applies m t -> view_of m0 (bv_mapUnspent v) m ->
  view_of m0 (bv_mapUnspent (add_linked v t)) (apply_tx m t).
Proof.
  intros [N0 N1 _] Ha Hv. unfold add_linked, AddTx, apply_tx. cbn [bv_mapUnspent]. fold (change_of t).
  rewrite <- N0, <- N1. apply view_enable_nonnull; [apply view_enable_nonnull; [apply view_spends|]|].
  - apply Ha.
  - intros o. by apply ap_present.
  - done.
  - rewrite lookup_spends. case_decide; [done|]. apply Ha.
  - rewrite lookup_add_out, decide_False by done. rewrite lookup_spends. case_decide; [done|]. apply Ha.
Qed.

(** The inputs of a transaction given back *)
Definition unspend (m : MapType) (t : LinkedTx) : MapType :=
  foldl (fun m e => <[e.1 := contxt_output (lt_contxt t) e.2]> m) m (zip (input_outs (lt_tx t)) (ctx_vin (lt_contxt t))).

Definition undo_tx (m : MapType) (t : LinkedTx) : MapType :=
  spend (spend (unspend m t) (mkOutPoint (lt_id t) 0)) (mkOutPoint (lt_id t) 1).

Lemma view_unspends m0 v m ctx os cs :
  NoDup os -> Forall2 (fun o c => output_at o = contxt_output ctx c) os cs ->
  Forall2 (fun o c => Tx.output_IsNull (contxt_output ctx c) = false) os cs ->
  (forall o, o ∈ os -> m !! o = None) ->
  view_of m0 v m ->
  view_of m0 (foldl (fun m e => enable_out m e.1 (contxt_output ctx e.2)) v (zip os cs))
    (foldl (fun m e => <[e.1 := contxt_output ctx e.2]> m) m (zip os cs)).
Proof.
  intros Hnd Hf. revert v m. induction Hf as [|o c os cs Ho Hf IH]; intros v m Hn Hp Hv; cbn [foldl zip zip_with]; [done|].
  apply NoDup_cons in Hnd as [Hos Hnd]. inversion Hn; subst. apply IH; [done|done| |].
  - intros o' Ho'. cbn. rewrite lookup_insert_ne by (intros ->; done). apply Hp. by right.
  - cbn. rewrite <- Ho. apply view_enable; [done|by rewrite Ho|]. apply Hp. by left.
Qed.

Lemma lookup_unspend (m : MapType) t os cs o :
  NoDup os -> length os = length cs ->
  foldl (fun m e => <[e.1 := contxt_output (lt_contxt t) e.2]> m) m (zip os cs) !! o =
  match (list_to_map (zip os cs) : gmap CTxOutPoint CTxInContxt) !! o with
  | Some c => Some (contxt_output (lt_contxt t) c)
  | None => m !! o
  end.
Proof.
  intros Hnd. revert m cs. induction os as [|o' os IH]; intros m [|c cs] Hl; try done.
  apply NoDup_cons in Hnd as [Ho Hnd]. cbn [zip zip_with foldl list_to_map foldr]. cbn.
  rewrite (IH Hnd) by (cbn in Hl; lia).
  destruct (decide (o' = o)) as [->|Hne].
  - rewrite !lookup_insert_eq. rewrite not_elem_of_list_to_map_1; [done|].
    rewrite fst_zip; [done|]. cbn in Hl. lia.
  - by rewrite !lookup_insert_ne.
Qed.

(** Undoing a transaction where it was applied *)
Lemma undo_apply m t : applies m t -> undo_tx (apply_tx m t) t = m.
Proof.
  intros Ha. pose proof Ha as [Hnd Hi Hn0 Hn1]. pose proof (Forall2_length _ _ _ Hi) as Hl.
  apply map_eq. intros o. unfold undo_tx, spend.
  destruct (decide (mkOutPoint (lt_id t) 1 = o)) as [<-|Ho1]; [by rewrite lookup_delete_eq, Hn1|].
  rewrite lookup_delete_ne by done.
  destruct (decide (mkOutPoint (lt_id t) 0 = o)) as [<-|Ho0]; [by rewrite lookup_delete_eq, Hn0|].
  rewrite lookup_delete_ne by done. unfold unspend. rewrite lookup_unspend by done.
  destruct (list_to_map _ !! o) as [c|] eqn:E.
  - apply elem_of_list_to_map_2, elem_of_lookup_zip_with in E as (i & o' & c' & E' & E1 & E2).
    simplify_eq. symmetry. by eapply (Forall2_lookup_lr _ _ _ _ _ _ Hi).
  - apply not_elem_of_list_to_map_2 in E. rewrite fst_zip in E by lia.
    unfold apply_tx. rewrite !lookup_add_out, !decide_False by done.
    by rewrite lookup_spends, decide_False.
Qed.

Lemma apply_named m t : named t -> well_named m -> well_named (apply_tx m t).
Proof.
  intros [N0 N1 _] Hm o x. unfold apply_tx. rewrite !lookup_add_out, lookup_spends, <- N0, <- N1.
  repeat case_decide; subst; repeat case_match; try apply Hm; intros; by simplify_eq.
Qed.

Lemma view_remove m0 v m t :
  named t -> applies m t -> well_named m -> view_of m0 (bv_mapUnspent v) (apply_tx m t) ->
  view_of m0 (bv_mapUnspent (remove_linked v t)) m.
Proof.
  intros Hnm Ha Hm Hv. pose proof Ha as [Hnd Hi Hn0 Hn1]. pose proof Hnm as [N0 N1 Ni].
  pose proof (undo_apply m t Ha) as Hu. unfold undo_tx in Hu. rewrite <- Hu.
  set (m1 := unspend (apply_tx m t) t) in *.
  assert (Hsame : forall o, o ∈ input_outs (lt_tx t) -> apply_tx m t !! o = None).
  { intros o Ho. destruct (ap_present m t o Ha Ho) as [x Hx]. unfold apply_tx.
    rewrite !lookup_add_out, !decide_False, lookup_spends, decide_True by (done || (intros <-; congruence)). done. }
  assert (Hout : forall n x, n = 0 \/ n = 1 -> output_at (mkOutPoint (lt_id t) n) = x ->
    Tx.output_IsNull x = false -> is_Some (m1 !! mkOutPoint (lt_id t) n)).
  { intros n x Hn <- Hx. unfold m1, unspend. rewrite lookup_unspend by (done || by eapply Forall2_length).
    destruct (list_to_map _ !! _); [by eexists|]. unfold apply_tx.
    rewrite !lookup_add_out, <- N0, <- N1. destruct Hn as [-> | ->].
    - rewrite decide_False, decide_True, Hx by done. by eexists.
    - rewrite decide_True, Hx by done. by eexists. }
  apply view_disable; [apply view_disable|].
  - apply view_unspends; [done|done| |done|done].
    eapply Forall2_impl; [exact Hi|]. intros o c Ho. by destruct (Hm _ _ Ho).
  - intros Ho. exact (Hout 0 _ (or_introl eq_refl) eq_refl Ho).
  - intros Ho. unfold spend. rewrite lookup_delete_ne by done. exact (Hout 1 _ (or_intror eq_refl) eq_refl Ho).
Qed.

(** *** Lists of transactions *)

Lemma apply_txs_app m l1 l2 : apply_txs m (l1 ++ l2) = apply_txs (apply_txs m l1) l2.
Proof. apply foldl_app. Qed.

Lemma all_apply_app m l1 l2 : all_apply m (l1 ++ l2) <-> all_apply m l1 /\ all_apply (apply_txs m l1) l2.
Proof.
  revert m. induction l1 as [|t l1 IH]; intros m; cbn; [tauto|]. rewrite IH. unfold apply_txs. cbn. tauto.
Qed.

Lemma apply_txs_named m l : Forall named l -> well_named m -> well_named (apply_txs m l).
Proof. intros Hl. revert m. induction Hl; intros m Hm; cbn; [done|]. by apply IHHl, apply_named. Qed.

Lemma view_add_all m0 v m l :
  Forall named l -> all_apply m l -> view_of m0 (bv_mapUnspent v) m ->
  view_of m0 (bv_mapUnspent (foldl add_linked v l)) (apply_txs m l).
Proof.
  intros Hl. revert v m. induction Hl as [|t l Ht Hl IH]; intros v m Ha Hv; cbn; [done|].
  destruct Ha as [Ha1 Ha2]. apply IH; [done|]. by apply view_add.
Qed.

Lemma view_remove_all m0 v m l :
  Forall named l -> all_apply m l -> well_named m -> view_of m0 (bv_mapUnspent v) (apply_txs m l) ->
  view_of m0 (bv_mapUnspent (foldl remove_linked v (rev l))) m.
Proof.
  revert v. induction l as [|t l IH] using rev_ind; intros v Hl Ha Hm Hv; cbn; [done|].
  apply Forall_app in Hl as [Hl Ht]. apply all_apply_app in Ha as [Ha [Hat _]].
  rewrite rev_app_distr. cbn. apply IH; [done..|]. rewrite apply_txs_app in Hv. cbn in Hv.
  apply view_remove; [by inversion Ht|done|by apply apply_txs_named|done].
Qed.

Lemma view_empty m : well_named m -> view_of m (bv_mapUnspent empty) m.
Proof. intros Hm. split; [done|done|]. intros o. cbn. by rewrite lookup_empty. Qed.

(** *** Reading and committing a view *)

Lemma view_Retrieve m0 v m o : view_of m0 (bv_mapUnspent v) m -> RetrieveUnspent (fun o => m0 !! o) v o = m !! o.
Proof.
  intros [_ _ He]. specialize (He o). unfold RetrieveUnspent. destruct (bv_mapUnspent v !! o); [|done].
  by destruct He as [-> _].
Qed.

Lemma lookup_adds (l : list CTxUnspent) (m : MapType) o :
  NoDup (map uns_out l) -> Forall (fun u => Tx.output_IsNull (uns_output u) = false) l ->
  foldl (fun m u => if Tx.output_IsNull (uns_output u) then delete (uns_out u) m else ForkUnspentDB.add_unspent m u) m l !! o =
  match (list_to_map (map (fun u => (uns_out u, uns_output u)) l) : MapType) !! o with
  | Some x => Some x
  | None => m !! o
  end.
Proof.
  intros Hnd Hf. revert m Hnd. induction Hf as [|u l Hu Hf IH]; intros m Hnd; cbn [foldl map list_to_map foldr].
  - done.
  - cbn in Hnd. apply NoDup_cons in Hnd as [Ho Hnd]. rewrite IH, Hu by done. unfold ForkUnspentDB.add_unspent. cbn.
    destruct (decide (uns_out u = o)) as [<-|Hne].
    + rewrite !lookup_insert_eq. rewrite not_elem_of_list_to_map_1; [done|].
      by rewrite <- list_fmap_compose.
    + by rewrite !lookup_insert_ne.
Qed.

Lemma list_to_map_outputs (l : list (CTxOutPoint * CUnspent)) o :
  (list_to_map (map (fun e => (e.1, cu_output e.2)) l) : MapType) !! o =
  cu_output <$> (list_to_map l : gmap CTxOutPoint CUnspent) !! o.
Proof.
  induction l as [|[o' u] l IH]; cbn; [done|].
  destruct (decide (o' = o)) as [->|Hne]; [by rewrite !lookup_insert_eq|]. by rewrite !lookup_insert_ne.
Qed.

Lemma lookup_changes v (m0 : MapType) o :
  let '(vAddNew, vRemove) := GetUnspentChanges v in
  ForkUnspentDB.apply_changes m0 vAddNew vRemove !! o =
  match bv_mapUnspent v !! o with
  | Some u => if IsModified u then ForkUnspentDB.cache_hit (cu_output u) else m0 !! o
  | None => m0 !! o
  end.
Proof.
  unfold GetUnspentChanges, ForkUnspentDB.apply_changes.
  pose proof (NoDup_map_entries Tx.outpoint_lt (bv_mapUnspent v)) as Hnd.
  set (l := map_entries Tx.outpoint_lt (bv_mapUnspent v)) in *.
  assert (Hl : forall o u, (o, u) ∈ l <-> bv_mapUnspent v !! o = Some u) by (intros; apply elem_of_map_entries).
  set (la := List.filter (fun e => negb _) _). set (lr := List.filter (fun e => Tx.output_IsNull _) _).
  assert (Hla : forall o u, (o, u) ∈ la <->
    bv_mapUnspent v !! o = Some u /\ IsModified u = true /\ Tx.output_IsNull (cu_output u) = false).
  { intros. unfold la. rewrite !elem_of_List_filter, Hl, negb_true_iff. cbn. tauto. }
  assert (Hlr : forall o u, (o, u) ∈ lr <->
    bv_mapUnspent v !! o = Some u /\ IsModified u = true /\ Tx.output_IsNull (cu_output u) = true).
  { intros. unfold lr. rewrite !elem_of_List_filter, Hl. cbn. tauto. }
  assert (Hnda : NoDup la.*1) by (by do 2 apply NoDup_fst_filter).
  clearbody la lr. rewrite lookup_erases, lookup_adds.
  - rewrite map_map. cbn [uns_out uns_output]. rewrite list_to_map_outputs.
    assert (Hr : o ∈ map fst lr <-> exists u, (o, u) ∈ lr).
    { rewrite list_elem_of_fmap. split; [intros ([? u] & -> & ?); by exists u|]. intros [u ?]. by exists (o, u). }
    destruct (list_to_map la !! o) as [u|] eqn:Ea.
    + apply elem_of_list_to_map_2, Hla in Ea as (E & Em & En). rewrite E, Em, cache_hit_spec, En.
      rewrite decide_False; [done|]. rewrite Hr. intros [u' (? & ? & ?)%Hlr]. congruence.
    + apply not_elem_of_list_to_map_2 in Ea. cbn [fmap option_fmap option_map]. case_decide as Hd.
      * apply Hr in Hd as [u (-> & -> & En)%Hlr]. by rewrite cache_hit_spec, En.
      * destruct (bv_mapUnspent v !! o) as [u|] eqn:E; [|done]. destruct (IsModified u) eqn:Em; [|done].
        rewrite cache_hit_spec. destruct (Tx.output_IsNull (cu_output u)) eqn:En.
        -- destruct Hd. apply Hr. exists u. by apply Hlr.
        -- destruct Ea. apply list_elem_of_fmap. exists (o, u). split; [done|]. by apply Hla.
  - rewrite map_map. exact Hnda.
  - apply Forall_map, Forall_forall. intros [o' u] H. apply Hla in H as (_ & _ & H). exact H.
Qed.

(** Committing the changes of a view makes the database what the view stands
    for. *)
Lemma view_commit m0 v m :
  view_of m0 (bv_mapUnspent v) m ->
  ForkUnspentDB.apply_changes m0 (GetUnspentChanges v).1 (GetUnspentChanges v).2 = m.
Proof.
  intros [Hb Hn He]. apply map_eq. intros o. pose proof (lookup_changes v m0 o) as H.
  destruct (GetUnspentChanges v) as [vA vR]. cbn [fst snd]. rewrite H. clear H. specialize (He o).
  destruct (bv_mapUnspent v !! o) as [u|]; [|by symmetry]. destruct He as [He1 He2].
  destruct (IsModified u) eqn:Em; [by symmetry|]. unfold IsModified in Em. bool_to_prop.
  destruct (m0 !! o) as [x|] eqn:E0, (m !! o) as [y|] eqn:E1; try done.
  - destruct (Hb _ _ E0) as [-> _], (Hn _ _ E1) as [-> _]. done.
  - destruct (Hb _ _ E0) as [-> Hx]. rewrite Em in He2. cbn in He2. specialize (He2 Hx). lia.
  - destruct (Hn _ _ E1) as [-> Hx]. rewrite Em in He2. cbn in He2. specialize (He2 Hx). lia.
Qed.

(** *** Blocks *)

Context (CryptoHash : list Z -> Z).

Lemma apply_null_mint m b : Tx.IsNull (b_txMint (bex_block b)) = true -> apply_tx m (linked_mint CryptoHash b) = m.
Proof.
  intros Hn. unfold Tx.IsNull in Hn. apply andb_true_iff in Hn as [Hi Hd].
  unfold apply_tx, linked_mint, input_outs. cbn [lt_tx lt_id lt_contxt].
  destruct (tx_vInput _) eqn:E; [|done]. cbn [map foldl].
  unfold add_out, change_of, Tx.output_IsNull. cbn. by rewrite Hd.
Qed.

Lemma view_remove_block m0 v m b :
  Forall named (linked_txs CryptoHash b) -> all_apply m (linked_txs CryptoHash b) -> well_named m ->
  view_of m0 (bv_mapUnspent v) (apply_txs m (linked_txs CryptoHash b)) ->
  view_of m0 (bv_mapUnspent (remove_block CryptoHash v b)) m.
Proof.
  intros Hn [Ha1 Ha2] Hm Hv. unfold linked_txs in Hn, Hv. inversion Hn as [|? ? Hn1 Hn2]; subst.
  unfold apply_txs in Hv. cbn [foldl] in Hv.
  assert (Hv' : view_of m0 (bv_mapUnspent (foldl remove_linked v (rev (linked_vtx CryptoHash b))))
    (apply_tx m (linked_mint CryptoHash b))).
  { apply view_remove_all; [done|done|by apply apply_named|done]. }
  unfold remove_block. destruct (Tx.IsNull (b_txMint (bex_block b))) eqn:E.
  - by rewrite apply_null_mint in Hv'.
  - by apply view_remove.
Qed.

Lemma view_remove_branch m0 v m bs :
  Forall named (branch_txs CryptoHash bs) -> all_apply m (branch_txs CryptoHash bs) -> well_named m ->
  view_of m0 (bv_mapUnspent v) (apply_txs m (branch_txs CryptoHash bs)) ->
  view_of m0 (bv_mapUnspent (foldl (remove_block CryptoHash) v (rev bs))) m.
Proof.
  revert v. induction bs as [|b bs IH] using rev_ind; intros v Hn Ha Hm Hv; [done|].
  unfold branch_txs in *. rewrite map_app, concat_app in Hn, Ha, Hv. cbn [map concat] in *.
  rewrite app_nil_r in *. apply Forall_app in Hn as [Hn1 Hn2]. apply all_apply_app in Ha as [Ha1 Ha2].
  rewrite apply_txs_app in Hv. rewrite rev_app_distr. cbn [rev app foldl].
  apply IH; [done..|]. apply view_remove_block; [done|done|by apply apply_txs_named|done].
Qed.

Lemma view_add_branch m0 v m bs :
  Forall named (branch_txs CryptoHash bs) -> all_apply m (branch_txs CryptoHash bs) ->
  view_of m0 (bv_mapUnspent v) m ->
  view_of m0 (bv_mapUnspent (foldl (add_block CryptoHash) v bs)) (apply_txs m (branch_txs CryptoHash bs)).
Proof.
  revert v m. induction bs as [|b bs IH]; intros v m Hn Ha Hv; cbn [foldl]; [done|].
  unfold branch_txs in *. cbn [map concat] in *. apply Forall_app in Hn as [Hn1 Hn2].
  apply all_apply_app in Ha as [Ha1 Ha2]. rewrite apply_txs_app. apply IH; [done|done|]. by apply view_add_all.
Qed.

End content.

(** The view [GetBlockView] builds when the chain leaves the blocks [vRemove]
    and takes the blocks [vAdd], oldest first *)
Definition reorg_view (CryptoHash : list Z -> Z) (vRemove vAdd : list CBlockEx) : CBlockView :=
  foldl (add_block CryptoHash) (foldl (remove_block CryptoHash) empty (rev vRemove)) vAdd.

(** C4: a reorganisation is replaying the new branch.  Let [m] be the unspent
    outputs at the block where two branches part; the database holds [m] with
    the old branch applied.  If every transaction of either branch applies where
    it stands, and an outpoint names the same output in both, then the view that
    removes the blocks of the old branch and adds those of the new one shows
    exactly the outputs of [m] with the new branch applied, and committing its
    changes makes the database that map, though outputs that end as they began
    are skipped. *)
Theorem reorg_replays (CryptoHash : list Z -> Z) (output_at : CTxOutPoint -> CTxOutput) (m : MapType)
    (vRemove vAdd : list CBlockEx)
    (Hm : well_named output_at m)
    (Hn : Forall (named output_at) (branch_txs CryptoHash vRemove ++ branch_txs CryptoHash vAdd))
    (Hr : all_apply m (branch_txs CryptoHash vRemove)) (Ha : all_apply m (branch_txs CryptoHash vAdd)) :
  let db := apply_txs m (branch_txs CryptoHash vRemove) in
  let view := reorg_view CryptoHash vRemove vAdd in
  (forall out, RetrieveUnspent (fun o => db !! o) view out = apply_txs m (branch_txs CryptoHash vAdd) !! out) /\
  (let '(vAddNew, vRemoved) := GetUnspentChanges view in
   ForkUnspentDB.apply_changes db vAddNew vRemoved = apply_txs m (branch_txs CryptoHash vAdd)).
Proof.
  apply Forall_app in Hn as [Hn1 Hn2]. cbv zeta.
  set (db := apply_txs m (branch_txs CryptoHash vRemove)).
  assert (Hv : view_of output_at db (bv_mapUnspent (reorg_view CryptoHash vRemove vAdd))
    (apply_txs m (branch_txs CryptoHash vAdd))).
  { apply view_add_branch; [done|done|]. apply view_remove_branch; [done|done|done|].
    apply view_empty. by apply apply_txs_named. }
  split; [intros out; by apply view_Retrieve with (output_at := output_at)|].
  pose proof (view_commit _ _ _ _ Hv) as Hc. by destruct (GetUnspentChanges _).
Qed.

(** ** Money *)

(** The sum of the amounts of a map of unspent outputs *)
Definition total (m : MapType) : Z := map_fold (fun _ o s => out_nAmount o + s) 0 m.

Definition sum_in (c : CTxContxt) : Z := foldr (fun i s => inc_nAmount i + s) 0 (ctx_vin c).

Lemma total_insert m o x : m !! o = None -> total (<[o := x]> m) = out_nAmount x + total m.
Proof. intros. unfold total. rewrite map_fold_insert_L; [done|intros; lia|done]. Qed.

Lemma total_delete m o x : m !! o = Some x -> total (delete o m) = total m - out_nAmount x.
Proof.
  intros Ho. rewrite <- (insert_delete_id m o x Ho) at 2. rewrite total_insert by apply lookup_delete_eq. lia.
Qed.

Lemma total_add_out m o x :
  m !! o = None -> (Tx.output_IsNull x = true -> out_nAmount x = 0) -> total (add_out m o x) = total m + out_nAmount x.
Proof.
  intros Ho Hx. unfold add_out. destruct (Tx.output_IsNull x); [rewrite Hx by done; lia|].
  rewrite total_insert by done. lia.
Qed.

Lemma total_spends m c os cs :
  NoDup os -> Forall2 (fun o i => m !! o = Some (contxt_output c i)) os cs ->
  total (foldl spend m os) = total m - foldr (fun i s => inc_nAmount i + s) 0 cs.
Proof.
  intros Hnd Hf. revert m Hf. induction cs as [|i cs IH] in os, Hnd |- *; intros m Hf;
    destruct os as [|o os]; inversion Hf as [|? ? ? ? Hi Hf']; subst; cbn [foldl foldr]; [lia|].
  apply NoDup_cons in Hnd as [Ho Hnd]. rewrite (IH os Hnd).
  - unfold spend. rewrite (total_delete _ _ _ Hi). cbn [out_nAmount contxt_output]. lia.
  - apply Forall2_same_length_lookup_2; [by eapply Forall2_length|].
    intros n o' i' Hn1 Hn2. unfold spend. rewrite lookup_delete_ne.
    + by eapply (Forall2_lookup_lr _ _ _ _ _ _ Hf').
    + intros ->. apply Ho. by eapply list_elem_of_lookup_2.
Qed.

Lemma applies_fresh m t : applies m t ->
  foldl spend m (input_outs (lt_tx t)) !! mkOutPoint (lt_id t) 0 = None /\
  foldl spend m (input_outs (lt_tx t)) !! mkOutPoint (lt_id t) 1 = None.
Proof.
  intros [_ _ H0 H1]. rewrite !lookup_spends. by repeat case_decide.
Qed.

(** The outputs of a transaction added to the map its inputs were taken from *)
Lemma total_apply m t :
  applies m t ->
  (Tx.output_IsNull (Tx.output_of_tx (lt_tx t)) = true -> tx_nAmount (lt_tx t) = 0) ->
  total (apply_tx m t) = total m - sum_in (lt_contxt t) + tx_nAmount (lt_tx t) +
    (if Tx.output_IsNull (change_of t) then 0 else out_nAmount (change_of t)).
Proof.
  intros Ha Ho. pose proof (applies_fresh m t Ha) as [F0 F1]. unfold apply_tx.
  set (m1 := foldl spend m (input_outs (lt_tx t))) in *.
  assert (Hm1 : total m1 = total m - sum_in (lt_contxt t)) by (by eapply total_spends; apply Ha).
  assert (Hm2 : total (add_out m1 (mkOutPoint (lt_id t) 0) (Tx.output_of_tx (lt_tx t))) =
    total m1 + tx_nAmount (lt_tx t)) by (by apply total_add_out).
  set (m2 := add_out m1 _ _) in *.
  assert (F1' : m2 !! mkOutPoint (lt_id t) 1 = None).
  { unfold m2. rewrite lookup_add_out, decide_False by done. done. }
  unfold add_out. destruct (Tx.output_IsNull (change_of t)); [lia|]. rewrite total_insert by done. lia.
Qed.

(** ** A reorganisation of one block by another that holds the same transaction *)

Definition sample_hash (l : list Z) : Z := foldl (fun a b => (a * 257 + b) mod 1000003) 0 l.

Definition sample_coin : CTxOutput := mkTxOutput (Destination.of_pubkey 5) 1000 90 0.

Definition sample_utxo : MapType := {[mkOutPoint 1 0 := sample_coin]}.

(** 400 of the 1000 go to another key, with a fee of 100 *)
Definition sample_spend : CTransaction :=
  mkTx 1 Tx.TX_TOKEN 100 0 7 [mkTxIn (mkOutPoint 1 0)] (Destination.of_pubkey 6) 400 100 [] [].

Definition sample_contxt : CTxContxt := mkTxContxt (Destination.of_pubkey 5) [mkTxInContxt 1000 90 0].

Definition sample_mint (key nTime : Z) : CTransaction :=
  mkTx 1 Tx.TX_WORK nTime 0 7 [] (Destination.of_pubkey key) 50 0 [] [].

Definition sample_block (key nTime : Z) : CBlockEx :=
  mkBlockEx (mkBlock 1 Block.BLOCK_PRIMARY nTime 7 0 [] (sample_mint key nTime) [sample_spend] []) [sample_contxt].

Definition sample_old : list CBlockEx := [sample_block 8 101].

Definition sample_new : list CBlockEx := [sample_block 9 102].

Definition sample_output_at (o : CTxOutPoint) : CTxOutput :=
  match List.find (fun t => lt_id t =? op_hash o) (branch_txs sample_hash (sample_old ++ sample_new)) with
  | Some t => if op_n o =? 0 then Tx.output_of_tx (lt_tx t) else change_of t
  | None => default Tx.output_null (sample_utxo !! o)
  end.

Lemma sample_well_named : well_named sample_output_at sample_utxo.
Proof.
  intros o x Ho. unfold sample_utxo in Ho. apply lookup_singleton_Some in Ho as [<- <-]. split; vm_compute; reflexivity.
Defined.

Lemma sample_named :
  Forall (named sample_output_at) (branch_txs sample_hash sample_old ++ branch_txs sample_hash sample_new).
Proof.
  assert (Hmint : forall k t, bool_decide (k = 8 /\ t = 101 \/ k = 9 /\ t = 102) = true ->
    Forall (named sample_output_at) (linked_txs sample_hash (sample_block k t))).
  { intros k t H%bool_decide_eq_true_1. destruct H as [[-> ->]|[-> ->]].
    all: apply Forall_cons; split; [|apply Forall_singleton].
    all: split; [vm_compute; reflexivity|vm_compute; reflexivity|].
    all: first [apply List.Forall2_nil|apply List.Forall2_cons; [vm_compute; reflexivity|apply List.Forall2_nil]]. }
  apply Forall_app. split; apply Forall_app; (split; [by apply Hmint|constructor]).
Defined.

Lemma sample_old_applies : all_apply sample_utxo (branch_txs sample_hash sample_old).
Proof.
  split; [|split; [|exact I]].
  all: split; [apply (bool_decide_unpack _); vm_compute; exact I| |vm_compute; reflexivity..].
  all: first [apply List.Forall2_nil|apply List.Forall2_cons; [vm_compute; reflexivity|apply List.Forall2_nil]].
Defined.

Lemma sample_new_applies : all_apply sample_utxo (branch_txs sample_hash sample_new).
Proof.
  split; [|split; [|exact I]].
  all: split; [apply (bool_decide_unpack _); vm_compute; exact I| |vm_compute; reflexivity..].
  all: first [apply List.Forall2_nil|apply List.Forall2_cons; [vm_compute; reflexivity|apply List.Forall2_nil]].
Defined.

Lemma reorg_replays_witness :
  let view := reorg_view sample_hash sample_old sample_new in
  let db := apply_txs sample_utxo (branch_txs sample_hash sample_old) in
  length (GetUnspentChanges view).1 = 1%nat /\ length (GetUnspentChanges view).2 = 2%nat /\
  (let '(vAddNew, vRemoved) := GetUnspentChanges view in
   ForkUnspentDB.apply_changes db vAddNew vRemoved = apply_txs sample_utxo (branch_txs sample_hash sample_new)).
Proof.
  split; [|split]; [vm_compute; reflexivity..|].
  exact (proj2 (reorg_replays sample_hash sample_output_at sample_utxo sample_old sample_new
    sample_well_named sample_named sample_old_applies sample_new_applies)).
Defined.

End BlockView.
