(* ===== verification/Chain.v ===== *)
(** * The index of blocks (src/storage/blockbase.cpp, blockbase.h;
    the walks of src/src/worldline.cpp)

    [CBlockBase::mapIndex] maps the hash of every stored block to its
    [CBlockIndex]; the indexes point to their predecessor, their origin and, on
    the best chain of a fork, to their successor.  The map is a [gmap], a pointer
    a key of it.  A function that only walks back receives the chain its pointer
    starts, the list of the indexes reached through [pPrev]; [ancestry] is the
    chain of a pointer.

    [GetBranch] and [GetBlockChanges] find where two chains part by comparing
    block times.  The theorems show that what they return is a common ancestor
    with the two paths to it, when they end, and that they end when the root is
    strictly older than all other blocks; without that they run past it. *)

From S2P Require Import Prelude Stream Destination Transaction Block BlockIndex.

(** [CBlockBase::mapIndex] *)
Notation Indexes := (gmap Z CBlockIndex).

Module Chain.

(** ** Walking back *)

(** The chain a pointer starts; [fuel] bounds its length. *)
Fixpoint walk_back (fuel : nat) (st : Indexes) (p : option Z) : list CBlockIndex :=
  match fuel, p with
  | S fuel, Some h =>
      match st !! h with
      | Some i => i :: walk_back fuel st (bi_pPrev i)
      | None => []
      end
  | _, _ => []
  end.

(** A chain visits no index twice. *)
Definition ancestry (st : Indexes) (p : option Z) : list CBlockIndex := walk_back (size st) st p.

(** Two pointers are equal when both are [NULL] or lead to one block. *)
Definition same_ptr (c1 c2 : list CBlockIndex) : bool :=
  match c1, c2 with
  | [], [] => true
  | a :: _, b :: _ => bi_hash a =? bi_hash b
  | _, _ => false
  end.

(** [CBlockBase::GetBranch]: the branch and [vPath].  A time read through a
    [NULL] pointer is undefined. *)
Fixpoint get_branch (fuel : nat) (pIndexRef pIndex : list CBlockIndex)
    : outcome (list CBlockIndex * list CBlockIndex) :=
  if same_ptr pIndex pIndexRef then Return (pIndex, [])
  else
    match fuel, pIndexRef, pIndex with
    | S fuel, r :: pIndexRef', i :: pIndex' =>
        if BlockIndex.GetBlockTime i <? BlockIndex.GetBlockTime r then get_branch fuel pIndexRef' pIndex
        else if BlockIndex.GetBlockTime r <? BlockIndex.GetBlockTime i then
          '(b, vPath) ← get_branch fuel pIndexRef pIndex'; Return (b, i :: vPath)
        else
          '(b, vPath) ← get_branch fuel pIndexRef' pIndex'; Return (b, i :: vPath)
    | _, _, _ => Undefined
    end.

(** Every turn moves a pointer. *)
Definition GetBranch (pIndexRef pIndex : list CBlockIndex) : outcome (list CBlockIndex * list CBlockIndex) :=
  get_branch (length pIndexRef + length pIndex) pIndexRef pIndex.

(** [CWorldLine::GetBlockChanges]: the indexes of [vBlockAddNew] and
    [vBlockRemove]; a fork without blocks has the time -1. *)
Fixpoint block_changes (fuel : nat) (pIndexNew pIndexFork : list CBlockIndex)
    : outcome (list CBlockIndex * list CBlockIndex) :=
  if same_ptr pIndexNew pIndexFork then Return ([], [])
  else
    match fuel with
    | O => Undefined
    | S fuel =>
        let nLastBlockTime := match pIndexFork with f :: _ => BlockIndex.GetBlockTime f | [] => -1 end in
        match pIndexNew with
        | [] => Undefined
        | n :: pIndexNew' =>
            if nLastBlockTime <=? BlockIndex.GetBlockTime n then
              '(vAdd, vRemove) ← block_changes fuel pIndexNew' pIndexFork; Return (n :: vAdd, vRemove)
            else
              match pIndexFork with
              | [] => Undefined
              | f :: pIndexFork' =>
                  '(vAdd, vRemove) ← block_changes fuel pIndexNew pIndexFork'; Return (vAdd, f :: vRemove)
              end
        end
    end.

Definition GetBlockChanges (pIndexNew pIndexFork : list CBlockIndex) : outcome (list CBlockIndex * list CBlockIndex) :=
  block_changes (length pIndexNew + length pIndexFork) pIndexNew pIndexFork.

(** [CBlockIndex::IsEquivalent]: [pIndexCompare] is reached from the block
    through vacant blocks above its height. *)
Fixpoint IsEquivalent (pIndex : list CBlockIndex) (pIndexCompare : option CBlockIndex) : bool :=
  match pIndexCompare, pIndex with
  | Some c, i :: pPrev =>
      if bi_hash i =? bi_hash c then true
      else if negb (BlockIndex.IsVacant i) || (bi_nHeight i <=? bi_nHeight c) then false
      else IsEquivalent pPrev pIndexCompare
  | _, _ => false
  end.

(** ** Queries of the world line *)

Definition GetBlockCount (chain : list CBlockIndex) : Z := Z.of_nat (length chain).

(** [while (pIndex != NULL && pIndex->GetBlockHeight() > nHeight)] *)
Fixpoint down_to_height (nHeight : Z) (chain : list CBlockIndex) : list CBlockIndex :=
  match chain with
  | i :: rest => if nHeight <? bi_nHeight i then down_to_height nHeight rest else chain
  | [] => []
  end.

(** [while (pIndex != NULL && pIndex->GetBlockHeight() == nHeight && pIndex->IsExtended())] *)
Fixpoint skip_extended (nHeight : Z) (chain : list CBlockIndex) : list CBlockIndex :=
  match chain with
  | i :: rest => if (bi_nHeight i =? nHeight) && BlockIndex.IsExtended i then skip_extended nHeight rest else chain
  | [] => []
  end.

(** [GetBlockHash(hashFork,nHeight,hashBlock)] on the chain of the fork's last
    block: the hash, if one is found *)
Definition GetBlockHash (chain : list CBlockIndex) (nHeight : Z) : option Z :=
  match chain with
  | [] => None
  | i :: _ =>
      if bi_nHeight i <? nHeight then None
      else bi_hash <$> head (skip_extended nHeight (down_to_height nHeight chain))
  end.

(** [while (pIndex != NULL && pIndex->GetBlockHeight() == nHeight)] *)
Fixpoint at_height (nHeight : Z) (chain : list CBlockIndex) : list Z :=
  match chain with
  | i :: rest => if bi_nHeight i =? nHeight then bi_hash i :: at_height nHeight rest else []
  | [] => []
  end.

(** [GetBlockHash(hashFork,nHeight,vBlockHash)] with an empty vector *)
Definition GetBlockHashes (chain : list CBlockIndex) (nHeight : Z) : bool * list Z :=
  match chain with
  | [] => (false, [])
  | i :: _ =>
      if bi_nHeight i <? nHeight then (false, [])
      else
        let vBlockHash := rev (at_height nHeight (down_to_height nHeight chain)) in
        (negb (bool_decide (vBlockHash = [])), vBlockHash)
  end.

(** [GetLastBlockTime] *)
Fixpoint GetLastBlockTime (nDepth : Z) (chain : list CBlockIndex) : list Z :=
  match chain with
  | i :: rest =>
      if 0 <? nDepth then
        BlockIndex.GetBlockTime i ::
        GetLastBlockTime (if BlockIndex.IsExtended i then nDepth else nDepth - 1) rest
      else []
  | [] => []
  end.

(** ** Locators *)

(** [for (int i = 0; pIndex && i < nStep; i++) pIndex = pIndex->pPrev;] is
    [drop nStep]; the vector starts empty and grows by one each turn. *)
Fixpoint locator_loop (fuel : nat) (hashFork : Z) (chain : list CBlockIndex) (nStep : nat) (nSize : nat) : list Z :=
  match fuel, chain with
  | S fuel, i :: _ =>
      if (bi_pOrigin i =? hashFork) && negb (BlockIndex.IsOrigin i) then
        bi_hash i ::
        locator_loop fuel hashFork (drop nStep chain) (if (10 <? S nSize)%nat then 2 * nStep else nStep) (S nSize)
      else []
  | _, _ => []
  end.

Definition GetForkBlockLocator (hashFork : Z) (chain : list CBlockIndex) : list Z :=
  locator_loop (length chain) hashFork chain 1 0.

(** The first hash of the locator that is on the best chain of its fork; the
    index it leaves in [pIndex], and whether the loop returned false *)
Fixpoint find_locator (st : Indexes) (hashFork hashLast : Z) (vBlockHash : list Z) (pIndex : option CBlockIndex)
    : option (option CBlockIndex) :=
  match vBlockHash with
  | [] => Some pIndex
  | hash :: rest =>
      match st !! hash with
      | Some i =>
          if (bi_hash i =? hashLast) || negb (bool_decide (bi_pNext i = None))
          then if negb (bi_pOrigin i =? hashFork) then None else Some (Some i)
          else find_locator st hashFork hashLast rest (Some i)
      | None => find_locator st hashFork hashLast rest None
      end
  end.

(** [while(pIndex != NULL && vBlockHash.size() < nMaxCount - 1)] *)
Fixpoint inv_loop (fuel : nat) (st : Indexes) (p : option Z) : list Z * option Z :=
  match fuel, p with
  | S fuel, Some h =>
      match st !! h with
      | Some i => let '(l, p) := inv_loop fuel st (bi_pNext i) in (h :: l, p)
      | None => ([], None)
      end
  | _, _ => ([], p)
  end.

(** [GetForkBlockInv] with an empty vector; [None] is the return of false.  With
    [nMaxCount = 0] the bound [nMaxCount - 1] is the largest [size_t]. *)
Definition GetForkBlockInv (st : Indexes) (hashFork hashLast : Z) (locator : list Z) (nMaxCount : nat)
    : option (list Z) :=
  match find_locator st hashFork hashLast locator None with
  | None => None
  | Some pIndex =>
      let start := match pIndex with
                   | Some i => bi_pNext i
                   | None => st !! hashFork ≫= bi_pNext
                   end in
      let '(vBlockHash, p) := inv_loop (if (nMaxCount =? 0)%nat then size st else nMaxCount - 1) st start in
      Some (match p with
            | Some h => if h =? hashLast then vBlockHash else vBlockHash ++ [hashLast]
            | None => vBlockHash
            end)
  end.

(** ** Where two chains part *)

(** In two chains of one index a hash is followed by the same blocks. *)
Definition joined (c1 c2 : list CBlockIndex) : Prop :=
  forall p1 p2 a b r1 r2,
    c1 = p1 ++ a :: r1 -> c2 = p2 ++ b :: r2 -> bi_hash a = bi_hash b -> a :: r1 = b :: r2.

(** The chain leads to [g] and from there along [rest], and the blocks before
    [g] are strictly younger than [g]. *)
Definition rooted (g : CBlockIndex) (rest c : list CBlockIndex) : Prop :=
  exists l, c = l ++ g :: rest /\ Forall (fun i => BlockIndex.GetBlockTime g < BlockIndex.GetBlockTime i) l.

Lemma joined_tail_l a c1 c2 : joined (a :: c1) c2 -> joined c1 c2.
Proof. intros H p1 p2 x y r1 r2 E1 E2 E. apply (H (a :: p1) p2); [by rewrite E1|done|done]. Qed.

Lemma joined_sym c1 c2 : joined c1 c2 -> joined c2 c1.
Proof. intros H p1 p2 x y r1 r2 E1 E2 E. symmetry. by apply (H p2 p1). Qed.

Lemma joined_tail_r a c1 c2 : joined c1 (a :: c2) -> joined c1 c2.
Proof. intros H%joined_sym. by apply joined_sym, (joined_tail_l a). Qed.

Lemma same_ptr_joined c1 c2 : joined c1 c2 -> same_ptr c1 c2 = true -> c1 = c2.
Proof.
  intros Hj. destruct c1 as [|a c1], c2 as [|b c2]; cbn; try done.
  intros E%Z.eqb_eq. by apply (Hj [] []).
Qed.

Lemma same_ptr_sym c1 c2 : same_ptr c1 c2 = same_ptr c2 c1.
Proof. destruct c1, c2; cbn; try done. apply Z.eqb_sym. Qed.

Lemma rooted_inv g rest c :
  rooted g rest c -> c = g :: rest \/
    exists i c', c = i :: c' /\ BlockIndex.GetBlockTime g < BlockIndex.GetBlockTime i /\ rooted g rest c'.
Proof.
  intros ([|i l] & -> & Hl); [by left|]. right. inversion Hl; subst. exists i, (l ++ g :: rest).
  split; [done|]. split; [done|]. by exists l.
Qed.

Lemma get_branch_sound n ref idx b path :
  joined ref idx -> get_branch n ref idx = Return (b, path) ->
  idx = path ++ b /\ exists rem, ref = rem ++ b.
Proof.
  revert ref idx path. induction n as [|n IH]; intros ref idx path Hj E; cbn in E;
    (destruct (same_ptr idx ref) eqn:Es;
     [apply same_ptr_joined in Es; [|by apply joined_sym]; simplify_eq; split; [done|by exists []]|]); [done|].
  destruct ref as [|r ref], idx as [|i idx]; try done. case_match.
  - apply IH in E as [-> [rem ->]]; [|by eapply joined_tail_l]. split; [done|by exists (r :: rem)].
  - case_match; (destruct (get_branch n _ _) as [[b' p']| |] eqn:Eb; cbn in E; simplify_eq).
    + apply IH in Eb as [-> [rem ->]]; [|by eapply joined_tail_r]. split; [done|by exists rem].
    + apply IH in Eb as [-> [rem ->]]; [|by eapply joined_tail_l, joined_tail_r].
      split; [done|by exists (r :: rem)].
Qed.

Lemma get_branch_total g rest n ref idx :
  rooted g rest ref -> rooted g rest idx -> (length ref + length idx <= n)%nat ->
  exists b path, get_branch n ref idx = Return (b, path) /\ rooted g rest b.
Proof.
  revert ref idx. induction n as [|n IH]; intros ref idx Hr Hi Hn.
  { destruct Hr as (l & -> & _). rewrite length_app in Hn. cbn in Hn. lia. }
  cbn. destruct (same_ptr idx ref) eqn:Es; [by eexists _, _|].
  destruct (rooted_inv _ _ _ Hr) as [Er | (r & ref' & Er & Htr & Hr')];
    destruct (rooted_inv _ _ _ Hi) as [Ei | (i & idx' & Ei & Hti & Hi')]; subst ref idx; cbn in Es, Hn.
  - by rewrite Z.eqb_refl in Es.
  - rewrite (proj2 (Z.ltb_ge _ _)), (proj2 (Z.ltb_lt _ _)) by lia.
    destruct (IH (g :: rest) idx') as (b & p & -> & Hb); [done|done|cbn; lia|]. by eexists _, _.
  - rewrite (proj2 (Z.ltb_lt _ _)) by lia. apply IH; [done|done|cbn; lia].
  - destruct (Z.ltb_spec (BlockIndex.GetBlockTime i) (BlockIndex.GetBlockTime r)).
    + apply IH; [done|done|cbn; lia].
    + destruct (Z.ltb_spec (BlockIndex.GetBlockTime r) (BlockIndex.GetBlockTime i)).
      * destruct (IH (r :: ref') idx') as (b & p & -> & Hb); [done|done|cbn; lia|]. by eexists _, _.
      * destruct (IH ref' idx') as (b & p & -> & Hb); [done|done|lia|]. by eexists _, _.
Qed.

Lemma block_changes_sound n new fork va vr :
  joined new fork -> block_changes n new fork = Return (va, vr) ->
  exists b, new = va ++ b /\ fork = vr ++ b.
Proof.
  revert new fork va vr. induction n as [|n IH]; intros new fork va vr Hj E; cbn in E;
    (destruct (same_ptr new fork) eqn:Es;
     [apply same_ptr_joined in Es; [|done]; simplify_eq; by exists fork|]); [done|].
  destruct new as [|i new]; [done|]. case_match.
  - destruct (block_changes n _ _) as [[a' r']| |] eqn:Eb; cbn in E; simplify_eq.
    apply IH in Eb as (b & -> & ->); [|by eapply joined_tail_l]. by exists b.
  - destruct fork as [|f fork]; [done|].
    destruct (block_changes n _ _) as [[a' r']| |] eqn:Eb; cbn in E; simplify_eq.
    apply IH in Eb as (b & -> & ->); [|by eapply joined_tail_r]. by exists b.
Qed.

Lemma block_changes_total g rest n new fork :
  rooted g rest new -> rooted g rest fork -> (length new + length fork <= n)%nat ->
  exists va vr, block_changes n new fork = Return (va, vr).
Proof.
  revert new fork. induction n as [|n IH]; intros new fork Hw Hf Hn.
  { destruct Hw as (l & -> & _). rewrite length_app in Hn. cbn in Hn. lia. }
  cbn. destruct (same_ptr new fork) eqn:Es; [by eexists _, _|].
  destruct (rooted_inv _ _ _ Hw) as [Ew | (i & new' & Ew & Htw & Hw')];
    destruct (rooted_inv _ _ _ Hf) as [Ef | (f & fork' & Ef & Htf & Hf')]; subst new fork; cbn in Es, Hn.
  - by rewrite Z.eqb_refl in Es.
  - rewrite (proj2 (Z.leb_gt _ _)) by lia.
    destruct (IH (g :: rest) fork') as (va & vr & ->); [done|done|cbn; lia|]. by eexists _, _.
  - rewrite (proj2 (Z.leb_le _ _)) by lia.
    destruct (IH new' (g :: rest)) as (va & vr & ->); [done|done|cbn; lia|]. by eexists _, _.
  - case_match.
    + destruct (IH new' (f :: fork')) as (va & vr & ->); [done|done|cbn; lia|]. by eexists _, _.
    + destruct (IH (i :: new') fork') as (va & vr & ->); [done|done|cbn; lia|]. by eexists _, _.
Qed.

Lemma GetBranch_paths g rest ref idx :
  joined ref idx -> rooted g rest ref -> rooted g rest idx ->
  exists b vPath vRemove, GetBranch ref idx = Return (b, vPath) /\ rooted g rest b /\ idx = vPath ++ b /\ ref = vRemove ++ b.
Proof.
  intros Hj Hr Hi. destruct (get_branch_total g rest (length ref + length idx) ref idx) as (b & path & E & Hb); [done|done|lia|].
  destruct (get_branch_sound _ _ _ _ _ Hj E) as [Ep [rem Er]]. exists b, path, rem. done.
Qed.

Lemma GetBlockChanges_paths g rest new fork :
  joined new fork -> rooted g rest new -> rooted g rest fork ->
  exists b vAdd vRemove, GetBlockChanges new fork = Return (vAdd, vRemove) /\ new = vAdd ++ b /\ fork = vRemove ++ b.
Proof.
  intros Hj Hn Hf. destruct (block_changes_total g rest (length new + length fork) new fork) as (va & vr & E); [done|done|lia|].
  destruct (block_changes_sound _ _ _ _ _ Hj E) as (b & E1 & E2). by exists b, va, vr.
Qed.

(** [GetBranch] and [GetBlockChanges] find where two chains part.  On two
    chains of one index that go back to a block older than all blocks before it,
    both loops end; [GetBranch] returns a block both chains reach, with the path
    from it to the second chain's end, and [GetBlockChanges] the blocks to add
    and to remove, so that putting them on the common rest gives the two chains
    back. *)
Theorem branch_spec (g : CBlockIndex) (rest pIndexRef pIndex : list CBlockIndex)
    (Hj : joined pIndexRef pIndex) (Hr : rooted g rest pIndexRef) (Hi : rooted g rest pIndex) :
  (exists b vPath vRemove, GetBranch pIndexRef pIndex = Return (b, vPath) /\ rooted g rest b /\
     pIndex = vPath ++ b /\ pIndexRef = vRemove ++ b) /\
  (exists b vAdd vRemove, GetBlockChanges pIndex pIndexRef = Return (vAdd, vRemove) /\
     pIndex = vAdd ++ b /\ pIndexRef = vRemove ++ b).
Proof. split; [by eapply GetBranch_paths|]. eapply GetBlockChanges_paths; [by apply joined_sym|done|done]. Qed.

(** when a block has the time of the genesis block, [GetBranch] runs past
    the genesis block and reads through a null pointer.  The core protocol only
    asks that a block is not older than its predecessor. *)
Theorem branch_past_root (g a : CBlockIndex) (Hh : bi_hash a <> bi_hash g)
    (Ht : BlockIndex.GetBlockTime a = BlockIndex.GetBlockTime g) :
  GetBranch [g] [a; g] = Undefined.
Proof.
  unfold GetBranch. cbn. rewrite (proj2 (Z.eqb_neq _ _)) by done. rewrite Ht, Z.ltb_irrefl. done.
Qed.

(** ** Two branches on one root *)

Definition sample_index (hash : Z) (pPrev : option Z) (nTime : Z) : CBlockIndex :=
  mkIndex hash 1 pPrev None 0 0 1 (if hash =? 1 then 65535 else 1) nTime (nTime - 100) 0 0 0 0 0 1 0.

Definition sample_root : CBlockIndex := sample_index 1 None 100.

Definition sample_ref : list CBlockIndex := [sample_index 3 (Some 2) 102; sample_index 2 (Some 1) 101; sample_root].

Definition sample_new : list CBlockIndex :=
  [sample_index 6 (Some 5) 104; sample_index 5 (Some 4) 103; sample_index 4 (Some 2) 102; sample_index 2 (Some 1) 101;
   sample_root].

(** Chains are joined when every pair of suffixes that start with one hash is equal. *)
Definition suffixes {A : Type} (l : list A) : list (list A) := map (fun n => drop n l) (seq 0 (length l)).

Lemma joined_check c1 c2 :
  Forall (fun s1 => Forall (fun s2 => same_ptr s1 s2 = true -> s1 = s2) (suffixes c2)) (suffixes c1) -> joined c1 c2.
Proof.
  intros H p1 p2 a b r1 r2 E1 E2 E.
  assert (Hs : forall (c p : list CBlockIndex) x r, c = p ++ x :: r -> x :: r ∈ suffixes c).
  { intros c p x r ->. apply list_elem_of_fmap. exists (length p). rewrite drop_app_length. split; [done|].
    apply elem_of_seq. rewrite length_app. cbn. lia. }
  rewrite Forall_forall in H. specialize (H _ (Hs _ _ _ _ E1)). rewrite Forall_forall in H.
  apply (H _ (Hs _ _ _ _ E2)). cbn. by apply Z.eqb_eq.
Defined.

Lemma branch_spec_witness :
  joined sample_ref sample_new /\ rooted sample_root [] sample_ref /\ rooted sample_root [] sample_new /\
  GetBranch sample_ref sample_new =
    Return (drop 3 sample_new, take 3 sample_new) /\
  exists b vPath vRemove, GetBranch sample_ref sample_new = Return (b, vPath) /\ rooted sample_root [] b /\
     sample_new = vPath ++ b /\ sample_ref = vRemove ++ b.
Proof.
  assert (Hj : joined sample_ref sample_new).
  { apply joined_check. repeat apply List.Forall_cons; cbn; try apply List.Forall_nil; intros [=]; reflexivity. }
  assert (Hr : rooted sample_root [] sample_ref).
  { exists (take 2 sample_ref). split; [reflexivity|]. repeat apply List.Forall_cons; cbn; try apply List.Forall_nil; lia. }
  assert (Hn : rooted sample_root [] sample_new).
  { exists (take 4 sample_new). split; [reflexivity|]. repeat apply List.Forall_cons; cbn; try apply List.Forall_nil; lia. }
  split; [exact Hj|]. split; [exact Hr|]. split; [exact Hn|]. split; [vm_compute; reflexivity|].
  exact (proj1 (branch_spec sample_root [] sample_ref sample_new Hj Hr Hn)).
Defined.

End Chain.
