(* ===== verification/BlockFork.v ===== *)
(** * The best chain of a fork (class CBlockFork of src/storage/blockbase.h)

    A fork keeps its last block; the [pNext] pointers of its blocks lead from
    its origin to it.  [UpdateLast] moves the last block to another branch and
    repairs these pointers in place: it clears those of the old branch and sets
    those of the new one down to the block where the two part.  [fork_chain] is
    the chain of a block down to the origin of its fork, [linked] says that the
    [pNext] pointers of all blocks of a fork are those of a chain.

    The theorems show that [UpdateLast] keeps [linked], that an inventory for a
    locator is the run of the best chain after the newest locator block on it,
    and that locators are logarithmically short. *)

From S2P Require Import Prelude Stream Destination Transaction Block BlockIndex Chain.

Module BlockFork.

(** ** Updating the last block *)

(** [p->pNext = next] *)
Definition with_next (next : option Z) (i : CBlockIndex) : CBlockIndex :=
  mkIndex (bi_hash i) (bi_pOrigin i) (bi_pPrev i) next (bi_txidMint i) (bi_nMintType i) (bi_nVersion i) (bi_nType i)
    (bi_nTimeStamp i) (bi_nHeight i) (bi_nRandBeacon i) (bi_nChainTrust i) (bi_nMoneySupply i) (bi_nProofAlgo i)
    (bi_nProofBits i) (bi_nFile i) (bi_nOffset i).

Definition set_next (st : Indexes) (h : Z) (next : option Z) : Indexes := alter (with_next next) h st.

(** [p->pPrev] as a pointer that is followed *)
Definition prev_of (st : Indexes) (h : Z) : option Z := st !! h ≫= bi_pPrev.

(** [while (p != NULL) { p->pPrev->pNext = NULL; p = p->pNext; }] *)
Fixpoint clear_next (fuel : nat) (st : Indexes) (p : option Z) : outcome Indexes :=
  match p with
  | None => Return st
  | Some h =>
      match fuel, prev_of st h with
      | S fuel, Some q =>
          let st := set_next st q None in
          clear_next fuel st (st !! h ≫= bi_pNext)
      | _, _ => Undefined
      end
  end.

(** The loop of [UpdateNext] from [pIndexNext = h] *)
Fixpoint update_next (fuel : nat) (st : Indexes) (h : Z) : outcome Indexes :=
  match fuel, st !! h with
  | S fuel, Some i =>
      if BlockIndex.IsOrigin i then Return st
      else
        match bi_pPrev i ≫= fun q => st !! q with
        | None => Undefined
        | Some pIndex =>
            let q := default 0 (bi_pPrev i) in
            if bool_decide (bi_pNext pIndex = Some h) then Return st
            else
              st ← clear_next (size st) st (bi_pNext pIndex);
              update_next fuel (set_next st q (Some h)) q
        end
  | _, _ => Undefined
  end.

(** Both loops visit an index at most once. *)
Definition UpdateNext (st : Indexes) (pIndexLast : Z) : outcome Indexes :=
  let st := set_next st pIndexLast None in
  update_next (size st) st pIndexLast.

(** ** Specification *)

Inductive fork_chain (st : Indexes) (o : Z) : Z -> list Z -> Prop :=
  | fc_origin i :
      st !! o = Some i -> BlockIndex.IsOrigin i = true -> bi_pOrigin i = o -> fork_chain st o o [o]
  | fc_prev h i q l :
      st !! h = Some i -> BlockIndex.IsOrigin i = false -> bi_pOrigin i = o -> bi_pPrev i = Some q ->
      fork_chain st o q l -> fork_chain st o h (h :: l).

(** The block after [h] in a chain, given from its last block back *)
Fixpoint next_of (l : list Z) (h : Z) : option Z :=
  match l with
  | a :: ((b :: _) as l') => if b =? h then Some a else next_of l' h
  | _ => None
  end.

(** The [pNext] pointers of the blocks of fork [o] are given by [nx]. *)
Definition next_is (st : Indexes) (o : Z) (nx : Z -> option Z) : Prop :=
  forall h i, st !! h = Some i -> bi_pOrigin i = o -> bi_pNext i = nx h.

(** [st'] is [st] but for the [pNext] pointers of the fork [o]. *)
Definition next_only (o : Z) (st st' : Indexes) : Prop :=
  forall h, match st !! h, st' !! h with
            | Some i, Some i' => with_next None i' = with_next None i /\ (bi_pOrigin i <> o -> i' = i)
            | None, None => True
            | _, _ => False
            end.

(** ** Chains *)

Lemma fork_chain_det st o h l1 l2 : fork_chain st o h l1 -> fork_chain st o h l2 -> l1 = l2.
Proof.
  intros H1. revert l2. induction H1 as [i Hi Ho Hp|h i q l Hi Ho Hp Hq H1 IH]; intros l2 H2;
    inversion H2; subst; simplify_eq; try congruence. f_equal. by apply IH.
Qed.

Lemma fork_chain_head st o h l : fork_chain st o h l -> exists l', l = h :: l'.
Proof. intros []; eauto. Qed.

Lemma fork_chain_suffix st o h p x r : fork_chain st o h (p ++ x :: r) -> fork_chain st o x (x :: r).
Proof.
  intros H. remember (p ++ x :: r) as l eqn:E. revert p E. induction H as [i|h i q l Hi Ho Hp Hq H IH]; intros p E.
  - destruct p as [|a [|]]; cbn in E; simplify_eq. by eapply fc_origin.
  - destruct p as [|a p]; cbn in E; simplify_eq; [by eapply fc_prev|]. by apply (IH p).
Qed.

Lemma fork_chain_NoDup st o h l : fork_chain st o h l -> NoDup l.
Proof.
  induction 1 as [i|h i q l Hi Ho Hp Hq H IH]; [apply NoDup_singleton|].
  apply NoDup_cons. split; [|done]. intros (p & r & ->)%list_elem_of_split.
  apply fork_chain_suffix in H as H'. assert (Hh : fork_chain st o h (h :: p ++ h :: r)) by (by eapply fc_prev).
  pose proof (fork_chain_det _ _ _ _ _ H' Hh) as E. apply (f_equal length) in E. cbn in E.
  rewrite length_app in E. cbn in E. lia.
Qed.

Lemma fork_chain_origin st o h l : fork_chain st o h l -> exists p, l = p ++ [o].
Proof.
  induction 1 as [|h i q l _ _ _ _ _ [p ->]]; [by exists []|]. by exists (h :: p).
Qed.

Lemma fork_chain_elem st o h l x : fork_chain st o h l -> x ∈ l -> exists i, st !! x = Some i /\ bi_pOrigin i = o.
Proof.
  induction 1 as [i Hi|h i q l Hi Ho Hp Hq H IH]; intros Hx.
  - apply list_elem_of_singleton in Hx as ->. eauto.
  - apply elem_of_cons in Hx as [->|Hx]; eauto.
Qed.

Lemma fork_chain_length st o h l : fork_chain st o h l -> (length l <= size st)%nat.
Proof.
  intros H. rewrite <- (size_dom (D := gset Z) st), <- (size_list_to_set (C := gset Z) l) by by eapply fork_chain_NoDup.
  apply subseteq_size. intros x Hx%elem_of_list_to_set. apply elem_of_dom.
  destruct (fork_chain_elem _ _ _ _ _ H Hx) as (i & -> & _). eauto.
Qed.

(** Two chains of a fork part somewhere, at the latest at the origin. *)
Lemma fork_chain_join st o h1 l1 h2 l2 :
  fork_chain st o h1 l1 -> fork_chain st o h2 l2 ->
  exists nb ob q rest, l1 = nb ++ q :: rest /\ l2 = ob ++ q :: rest /\ Forall (fun x => x ∉ l2) nb.
Proof.
  intros H1 H2. induction H1 as [i Hi Ho Hp|h i q l Hi Ho Hp Hq H1 IH].
  - destruct (fork_chain_origin _ _ _ _ H2) as [p ->]. exists [], p, o, []. done.
  - destruct (decide (h ∈ l2)) as [(p & r & ->)%list_elem_of_split|Hn].
    + apply fork_chain_suffix in H2 as H2'. assert (Hh : fork_chain st o h (h :: l)) by (by eapply fc_prev).
      rewrite (fork_chain_det _ _ _ _ _ Hh H2'). exists [], p, h, r. done.
    + destruct IH as (nb & ob & q' & rest & -> & -> & Hd). exists (h :: nb), ob, q', rest.
      split; [done|]. split; [done|]. by apply List.Forall_cons.
Qed.

(** ** Stores that differ in next pointers *)

Lemma with_next_idem a b i : with_next a (with_next b i) = with_next a i.
Proof. done. Qed.

Lemma next_only_refl o st : next_only o st st.
Proof. intros h. destruct (st !! h); done. Qed.

Lemma next_only_trans o st1 st2 st3 : next_only o st1 st2 -> next_only o st2 st3 -> next_only o st1 st3.
Proof.
  intros H1 H2 h. specialize (H1 h). specialize (H2 h).
  destruct (st1 !! h) as [i1|], (st2 !! h) as [i2|], (st3 !! h) as [i3|]; try done.
  destruct H1 as [E1 F1], H2 as [E2 F2]. split; [congruence|]. intros Ho. rewrite <- F1 by done. apply F2.
  by rewrite F1.
Qed.

Lemma next_only_lookup o st st' h i :
  next_only o st st' -> st !! h = Some i -> exists i', st' !! h = Some i' /\ with_next None i' = with_next None i.
Proof. intros H Hi. specialize (H h). rewrite Hi in H. destruct (st' !! h) as [i'|]; [|done]. exists i'. split; [done|apply H]. Qed.

Lemma with_next_fields i i' : with_next None i' = with_next None i ->
  bi_hash i' = bi_hash i /\ bi_pOrigin i' = bi_pOrigin i /\ bi_pPrev i' = bi_pPrev i /\
  bi_nType i' = bi_nType i.
Proof. destruct i, i'. cbn. intros [=]. by subst. Qed.

Lemma next_only_chain o o' st st' h l : next_only o st st' -> fork_chain st o' h l -> fork_chain st' o' h l.
Proof.
  intros Hn. induction 1 as [i Hi Ho Hp|h i q l Hi Ho Hp Hq H IH];
    destruct (next_only_lookup _ _ _ _ _ Hn Hi) as (i' & Hi' & E);
    apply with_next_fields in E as (_ & Eo & Eq & Et).
  - eapply fc_origin; [done| |congruence]. unfold BlockIndex.IsOrigin in *. by rewrite Et.
  - apply (fc_prev _ _ _ i' q); [done| |congruence|congruence|done]. unfold BlockIndex.IsOrigin in *. by rewrite Et.
Qed.

Lemma next_only_size o st st' : next_only o st st' -> size st' = size st.
Proof.
  intros H. rewrite <- !(size_dom (D := gset Z)). f_equal. apply set_eq. intros h. rewrite !elem_of_dom.
  specialize (H h). destruct (st !! h), (st' !! h); try done; split; intros []; eauto; done.
Qed.

Lemma set_next_only o st h i next :
  st !! h = Some i -> bi_pOrigin i = o -> next_only o st (set_next st h next).
Proof.
  intros Hi Ho h'. unfold set_next. destruct (decide (h = h')) as [<-|Hne].
  - rewrite lookup_alter_eq, Hi. cbn. done.
  - rewrite lookup_alter_ne by done. apply next_only_refl.
Qed.

Lemma set_next_is st o h next nx :
  next_is st o nx -> next_is (set_next st h next) o (fun x => if decide (x = h) then next else nx x).
Proof.
  intros H x i. unfold set_next. destruct (decide (x = h)) as [->|Hne].
  - rewrite lookup_alter_eq. intros (j & _ & ->)%fmap_Some. done.
  - rewrite lookup_alter_ne by done. apply H.
Qed.

Lemma next_is_ext st o nx nx' : next_is st o nx -> (forall h, nx h = nx' h) -> next_is st o nx'.
Proof. intros H E h i Hi Ho. rewrite <- E. by apply H. Qed.

(** ** Next pointers along a chain *)

Lemma next_of_notin l x : x ∉ tail l -> next_of l x = None.
Proof.
  induction l as [|a [|b l] IH]; intros Hx; [done|done|]. cbn [tail] in Hx. cbn [next_of].
  apply not_elem_of_cons in Hx as [Hb Hx]. rewrite (proj2 (Z.eqb_neq b x)) by done. by apply IH.
Qed.

Lemma next_of_at p a x r : x ∉ p -> x <> a -> next_of (p ++ a :: x :: r) x = Some a.
Proof.
  induction p as [|b p IH]; intros Hx Ha; cbn [app next_of].
  - by rewrite Z.eqb_refl.
  - apply not_elem_of_cons in Hx as [Hb Hx]. destruct p as [|c p]; cbn [app next_of] in *.
    + rewrite (proj2 (Z.eqb_neq a x)) by done. by apply IH.
    + rewrite (proj2 (Z.eqb_neq c x)); [by apply IH|]. intros ->. apply Hx. by left.
Qed.

Lemma next_of_below p a r x : x ∉ p -> x <> a -> next_of (p ++ a :: r) x = next_of (a :: r) x.
Proof.
  induction p as [|b p IH]; intros Hx Ha; [done|]. apply not_elem_of_cons in Hx as [Hb Hx].
  rewrite <- IH by done. destruct p as [|c p]; cbn [app next_of].
  - by rewrite (proj2 (Z.eqb_neq a x)).
  - rewrite (proj2 (Z.eqb_neq c x)); [done|]. intros ->. apply Hx. by left.
Qed.

(** ** Clearing the old branch *)

(** [w] leads up from [q]: every block is the successor of the one before. *)
Fixpoint climbs (st : Indexes) (o : Z) (nx : Z -> option Z) (q : Z) (w : list Z) : Prop :=
  (exists i, st !! q = Some i /\ bi_pOrigin i = o) /\
  match w with
  | [] => nx q = None
  | a :: w => nx q = Some a /\ prev_of st a = Some q /\ climbs st o nx a w
  end.

Lemma climbs_mono st st' o nx nx' q w :
  next_only o st st' -> (forall x, x ∈ q :: w -> nx' x = nx x) -> climbs st o nx q w -> climbs st' o nx' q w.
Proof.
  intros Hn. revert q. induction w as [|a w IH]; intros q Hx [(i & Hi & Ho) Hc].
  - split; [|rewrite Hx by (by left); done].
    destruct (next_only_lookup _ _ _ _ _ Hn Hi) as (i' & Hi' & E). exists i'. split; [done|].
    apply with_next_fields in E as (_ & -> & _). done.
  - destruct Hc as (Ha & Hp & Hc). split; [|split; [|split]].
    + destruct (next_only_lookup _ _ _ _ _ Hn Hi) as (i' & Hi' & E). exists i'. split; [done|].
      apply with_next_fields in E as (_ & -> & _). done.
    + rewrite Hx by (by left). done.
    + unfold prev_of in *. destruct (st !! a) as [j|] eqn:Ej; [|done].
      destruct (next_only_lookup _ _ _ _ _ Hn Ej) as (j' & -> & E). cbn in *.
      apply with_next_fields in E as (_ & _ & -> & _). done.
    + apply IH; [|done]. intros x Hx'. apply Hx. by right.
Qed.

Lemma climbs_lookup st o nx q w : climbs st o nx q w -> exists i, st !! q = Some i /\ bi_pOrigin i = o.
Proof. destruct w; intros [? _]; done. Qed.

Lemma clear_next_spec o fuel st nx q w :
  next_is st o nx -> climbs st o nx q w -> NoDup (q :: w) -> (length w <= fuel)%nat ->
  exists st', clear_next fuel st (head w) = Return st' /\ next_only o st st' /\
    next_is st' o (fun x => if decide (x ∈ q :: w) then None else nx x).
Proof.
  revert st nx q w. induction fuel as [|fuel IH]; intros st nx q w Hnx Hc Hnd Hl.
  - destruct w; [|cbn in Hl; lia]. exists st. split; [done|]. split; [apply next_only_refl|].
    eapply next_is_ext; [done|]. intros h. case_decide as Hh; [|done].
    apply list_elem_of_singleton in Hh as ->. apply Hc.
  - destruct w as [|a w].
    { exists st. split; [done|]. split; [apply next_only_refl|]. eapply next_is_ext; [done|].
      intros h. case_decide as Hh; [|done]. apply list_elem_of_singleton in Hh as ->. apply Hc. }
    destruct Hc as [(i & Hi & Ho) (Ha & Hp & Hc)]. apply NoDup_cons in Hnd as [Hq Hnd].
    pose proof (set_next_only o st q i None Hi Ho) as Hn1. pose proof (set_next_is st o q None nx Hnx) as Hx1.
    set (st1 := set_next st q None) in *.
    assert (Hc1 : climbs st1 o (fun x => if decide (x = q) then None else nx x) a w).
    { eapply climbs_mono; [done| |done]. intros x Hx. cbn. rewrite decide_False; [done|]. intros ->. done. }
    destruct (climbs_lookup _ _ _ _ _ Hc1) as (j & Hj & Hjo).
    assert (En : st1 !! a ≫= bi_pNext = head w).
    { rewrite Hj. cbn. rewrite (Hx1 a j Hj Hjo). destruct w; [apply Hc1|destruct Hc1 as (_ & E & _); apply E]. }
    destruct (IH st1 _ a w Hx1 Hc1 Hnd) as (st' & E' & Hn' & Hx'); [cbn in Hl; lia|].
    exists st'. split.
    { cbn [clear_next head]. rewrite Hp. fold st1. by rewrite En. }
    split; [by eapply next_only_trans|]. eapply next_is_ext; [done|].
    intros h. cbn. destruct (decide (h = q)) as [->|Hne].
    + rewrite (decide_True (P := q ∈ q :: a :: w)) by by left. by case_decide.
    + destruct (decide (h ∈ a :: w)) as [Hin|Hin].
      * rewrite decide_True by (by right). done.
      * rewrite decide_False; [done|]. by apply not_elem_of_cons.
Qed.

(** The old branch [ob] above [q], read upwards *)
Lemma chain_climbs st o nx h ob q rest :
  fork_chain st o h (ob ++ q :: rest) -> (forall x, x ∈ ob ++ [q] -> nx x = next_of (ob ++ q :: rest) x) ->
  climbs st o nx q (rev ob).
Proof.
  intros Hc Hnx. pose proof (fork_chain_NoDup _ _ _ _ Hc) as Hnd.
  assert (G : forall top low b, ob ++ [q] = top ++ b :: low -> climbs st o nx b (rev top)).
  { intros top. induction top as [|a top IH] using rev_ind; intros low b E; cbn [rev].
    - split.
      + apply (fork_chain_elem _ _ _ _ b Hc). rewrite (app_assoc ob [q] rest : ob ++ q :: rest = _), E. by left.
      + rewrite Hnx by (rewrite E; by left). apply next_of_notin. intros Hb.
        rewrite (app_assoc ob [q] rest : ob ++ q :: rest = _), E in Hb, Hnd. cbn in Hb, Hnd.
        apply NoDup_cons in Hnd. naive_solver.
    - rewrite rev_app_distr. cbn [rev app].
      assert (El : ob ++ q :: rest = top ++ a :: b :: low ++ rest).
      { rewrite (app_assoc ob [q] rest : ob ++ q :: rest = _), E, <- !app_assoc. done. }
      assert (Hab : b ∉ top /\ b <> a).
      { rewrite El in Hnd. apply NoDup_app in Hnd as (_ & Hd & Hnd). apply NoDup_cons in Hnd as [Ha _].
        split; [intros Hb; apply (Hd _ Hb); right; by left|]. intros ->. apply Ha. by left. }
      split; [|split; [|split]].
      + apply (fork_chain_elem _ _ _ _ b Hc). rewrite El. apply elem_of_app. right. right. by left.
      + rewrite Hnx, El by (rewrite E; apply elem_of_app; right; by left). apply next_of_at; apply Hab.
      + rewrite El in Hc. apply fork_chain_suffix in Hc. inversion Hc as [|? i q' l Hi Ho Hp Hq Hc']; subst.
        destruct (fork_chain_head _ _ _ _ Hc') as [l' E']. simplify_eq. unfold prev_of. rewrite Hi. done.
      + apply (IH (b :: low)). rewrite E, <- app_assoc. done. }
  by apply (G ob []).
Qed.

(** ** Setting the new branch *)

Lemma update_next_stop fuel st o nx h rest :
  fork_chain st o h (h :: rest) -> next_is st o nx -> (forall q r, rest = q :: r -> nx q = Some h) -> (0 < fuel)%nat ->
  update_next fuel st h = Return st.
Proof.
  intros Hc Hnx Hq Hf. destruct fuel as [|fuel]; [lia|]. cbn.
  inversion Hc as [i Hi Ho|? i q l Hi Ho Hp Hpq Hc']; subst; rewrite Hi, Ho; [done|].
  rewrite Hpq. cbn. destruct (fork_chain_head _ _ _ _ Hc') as [l' ->].
  destruct (fork_chain_elem _ _ _ _ q Hc') as (j & Hj & Hjo); [by left|].
  rewrite Hj, (Hnx q j Hj Hjo), (Hq q l') by done. by rewrite bool_decide_eq_true_2.
Qed.

(** A step to a block whose next pointer is not set to [h] *)
Lemma update_next_step fuel st o nx h q rest w :
  fork_chain st o h (h :: q :: rest) -> next_is st o nx -> climbs st o nx q w -> NoDup (q :: w) -> h ∉ w ->
  (length w <= size st)%nat ->
  exists st', update_next (S fuel) st h = update_next fuel st' q /\ next_only o st st' /\
    next_is st' o (fun x => if decide (x = q) then Some h else if decide (x ∈ w) then None else nx x).
Proof.
  intros Hc Hnx Hcl Hnd Hh Hl. inversion Hc as [|? i q' l Hi Ho Hp Hpq Hc']; subst.
  destruct (fork_chain_head _ _ _ _ Hc') as [l' E]. simplify_eq.
  destruct (climbs_lookup _ _ _ _ _ Hcl) as (j & Hj & Hjo).
  assert (En : bi_pNext j = head w).
  { rewrite (Hnx q' j Hj Hjo). destruct w; [apply Hcl|destruct Hcl as (_ & E & _); apply E]. }
  destruct (clear_next_spec _ (size st) _ _ _ _ Hnx Hcl Hnd Hl) as (st1 & E1 & Hn1 & Hx1).
  destruct (next_only_lookup _ _ _ _ _ Hn1 Hj) as (j1 & Hj1 & Ej).
  apply with_next_fields in Ej as (_ & Ej & _).
  exists (set_next st1 q' (Some h)). split; [|split].
  - cbn [update_next]. rewrite Hi, Ho, Hpq. cbn. rewrite Hj. cbn. rewrite En.
    rewrite bool_decide_eq_false_2; [by rewrite E1|]. intros Hw. apply Hh. destruct w; [done|]. cbn in Hw. simplify_eq. by left.
  - eapply next_only_trans; [done|]. eapply set_next_only; [done|]. congruence.
  - eapply next_is_ext; [by apply set_next_is|]. intros x. cbn. case_decide as Hx; [done|].
    destruct (decide (x ∈ w)) as [Hw|Hw].
    + by rewrite decide_True by (by right).
    + rewrite decide_False; [done|]. by apply not_elem_of_cons.
Qed.

(** The step at the last block of the new branch clears the old one and ends. *)
Lemma update_next_last o fuel st nx h ob top q rest :
  fork_chain st o h (h :: q :: rest) -> fork_chain st o top (ob ++ q :: rest) -> next_is st o nx ->
  (forall x, x ∈ ob ++ q :: rest -> nx x = next_of (ob ++ q :: rest) x) ->
  h ∉ ob ++ q :: rest -> (2 <= fuel)%nat ->
  exists st', update_next fuel st h = Return st' /\ next_only o st st' /\
    next_is st' o (fun x => if decide (x = q) then Some h else if decide (x ∈ ob) then None else nx x).
Proof.
  intros Hc Hold Hnx Hob Hd Hf. destruct fuel as [|fuel]; [lia|].
  pose proof (fork_chain_NoDup _ _ _ _ Hold) as Hndo. apply NoDup_app in Hndo as (Hn1 & Hd1 & Hn2).
  apply NoDup_cons in Hn2 as [Hq2 _].
  assert (Hcl : climbs st o nx q (rev ob)).
  { eapply chain_climbs; [done|]. intros x Hx. apply Hob. apply elem_of_app in Hx as [Hx|Hx]; apply elem_of_app; [by left|].
    right. apply list_elem_of_singleton in Hx as ->. by left. }
  destruct (update_next_step fuel st o nx h q rest (rev ob)) as (st' & E' & Hn' & Hx'); [done|done|done| | | |].
  { apply NoDup_cons. split; [|by apply NoDup_ListNoDup, List.NoDup_rev, NoDup_ListNoDup].
    rewrite elem_of_rev. intros Hq. apply (Hd1 _ Hq). by left. }
  { rewrite elem_of_rev. intros Hh. apply Hd. apply elem_of_app. by left. }
  { rewrite length_rev. pose proof (fork_chain_length _ _ _ _ Hold) as Hl. rewrite length_app in Hl. lia. }
  assert (Hx2 : next_is st' o (fun x => if decide (x = q) then Some h else if decide (x ∈ ob) then None else nx x)).
  { eapply next_is_ext; [done|]. intros x. cbn. case_decide; [done|].
    destruct (decide (x ∈ ob)) as [Hx|Hx].
    - by rewrite decide_True by (by apply elem_of_rev).
    - by rewrite decide_False by (by rewrite elem_of_rev). }
  exists st'. split; [|done]. rewrite E'. apply fork_chain_suffix with (p := [h]) in Hc.
  eapply update_next_stop; [by eapply next_only_chain|done| |lia].
  intros r l ->. cbn. rewrite decide_False by (intros ->; apply Hq2; by left).
  assert (Hro : r ∉ ob) by (intros Hr; apply (Hd1 _ Hr); right; by left). rewrite decide_False by done.
  rewrite Hob by (apply elem_of_app; right; right; by left).
  apply next_of_at; [done|]. intros ->. apply Hq2. by left.
Qed.

Lemma update_next_spec o nb : forall fuel st nx h a ob top q rest,
  fork_chain st o h (a :: nb ++ q :: rest) -> fork_chain st o top (ob ++ q :: rest) -> next_is st o nx ->
  (forall x, x ∈ nb -> nx x = None) -> (forall x, x ∈ ob ++ q :: rest -> nx x = next_of (ob ++ q :: rest) x) ->
  (forall x, x ∈ a :: nb -> x ∉ ob ++ q :: rest) -> (S (S (length nb)) <= fuel)%nat ->
  exists st', update_next fuel st h = Return st' /\ next_only o st st' /\
    next_is st' o (fun x => if decide (x ∈ ob) then None
                            else if decide (x ∈ nb ++ [q]) then next_of (a :: nb ++ q :: rest) x else nx x).
Proof.
  induction nb as [|b nb IH]; intros fuel st nx h a ob top q rest Hc Hold Hnx Hnb Hob Hd Hf;
    destruct (fork_chain_head _ _ _ _ Hc) as [l0 El0]; simplify_eq; cbn [app] in *;
    pose proof (fork_chain_NoDup _ _ _ _ Hc) as Hnd.
  - destruct (update_next_last o fuel st nx h ob top q rest) as (st' & E' & Hn' & Hx'); [done|done|done|done| |done|].
    { apply Hd. by left. }
    exists st'. split; [done|]. split; [done|]. eapply next_is_ext; [done|]. intros x. cbn beta.
    pose proof (fork_chain_NoDup _ _ _ _ Hold) as (_ & Hd1 & _)%NoDup_app.
    destruct (decide (x = q)) as [->|Hxq].
    + rewrite decide_False by (intros Hq; apply (Hd1 _ Hq); by left). rewrite decide_True by by left.
      cbn. by rewrite Z.eqb_refl.
    + by rewrite (decide_False (P := x ∈ [q])) by (by rewrite list_elem_of_singleton).
  - destruct fuel as [|fuel]; [cbn in Hf; lia|].
    destruct (update_next_step fuel st o nx h b (nb ++ q :: rest) []) as (st' & E' & Hn' & Hx'); [done|done| | | | |].
    { split; [|apply Hnb; by left]. apply (fork_chain_elem _ _ _ _ b Hc). right. by left. }
    { apply NoDup_singleton. }
    { apply not_elem_of_nil. }
    { cbn. lia. }
    apply fork_chain_suffix with (p := [h]) in Hc as Hc'.
    apply NoDup_cons in Hnd as [Hh Hnd]. apply NoDup_cons in Hnd as [Hb Hnd].
    destruct (IH fuel st' (fun x => if decide (x = b) then Some h else nx x) b b ob top q rest) as (st2 & E2 & Hn2 & Hx2).
    { by eapply next_only_chain. }
    { by eapply next_only_chain. }
    { eapply next_is_ext; [done|]. intros x. cbn. case_decide; [done|]. by rewrite decide_False by apply not_elem_of_nil. }
    { intros x Hx. rewrite decide_False; [apply Hnb; by right|]. intros ->. apply Hb. apply elem_of_app. by left. }
    { intros x Hx. rewrite decide_False; [by apply Hob|]. intros ->. apply (Hd b); [right; by left|done]. }
    { intros x Hx. apply Hd. by right. }
    { cbn in Hf. lia. }
    exists st2. split; [by rewrite E'|]. split; [by eapply next_only_trans|].
    eapply next_is_ext; [done|]. intros x. cbn beta. destruct (decide (x ∈ ob)) as [Hx|Hx]; [done|].
    destruct (decide (x = b)) as [->|Hxb].
    + rewrite (decide_False (P := b ∈ nb ++ [q])).
      * rewrite decide_True by by left. cbn. by rewrite Z.eqb_refl.
      * intros Hb'. apply Hb. rewrite elem_of_app in *. destruct Hb' as [?|?%list_elem_of_singleton]; [by left|right; subst; by left].
    + destruct (decide (x ∈ nb ++ [q])) as [Hxn|Hxn].
      * rewrite decide_True by (by right). cbn. by rewrite (proj2 (Z.eqb_neq b x)).
      * by rewrite decide_False by (by apply not_elem_of_cons).
Qed.

Lemma next_of_head a l : NoDup (a :: l) -> next_of (a :: l) a = None.
Proof. intros [Ha _]%NoDup_cons. by apply next_of_notin. Qed.

(** The loops of [UpdateNext] on a fork whose pointers follow the old chain *)
Lemma UpdateNext_links (st : Indexes) (o old new : Z) (lo ln : list Z)
    (Hold : fork_chain st o old lo) (Hnew : fork_chain st o new ln)
    (Hnx : next_is st o (next_of lo)) (Hpos : new ∉ tail lo) :
  exists st', UpdateNext st new = Return st' /\ next_only o st st' /\ next_is st' o (next_of ln).
Proof.
  destruct (fork_chain_head _ _ _ _ Hnew) as [ln' ->]. destruct (fork_chain_elem _ _ _ _ new Hnew) as (i & Hi & Hio); [by left|].
  pose proof (set_next_only o st new i None Hi Hio) as Hn1. pose proof (set_next_is st o new None _ Hnx) as Hx1.
  unfold UpdateNext. cbv zeta. set (st1 := set_next st new None) in *. clear Hio.
  apply (next_only_chain _ _ _ _ _ _ Hn1) in Hold, Hnew.
  pose proof (fork_chain_NoDup _ _ _ _ Hold) as Hndo. pose proof (fork_chain_NoDup _ _ _ _ Hnew) as Hndn.
  assert (Hx2 : next_is st1 o (next_of lo)).
  { eapply next_is_ext; [done|]. intros x. cbn. case_decide; [|done]. subst. by rewrite next_of_notin. }
  pose proof (fork_chain_length _ _ _ _ Hnew) as Hl.
  destruct (fork_chain_join _ _ _ _ _ _ Hnew Hold) as (nb & ob & q & rest & En & -> & Hd).
  rewrite En in *. destruct nb as [|a nb]; cbn [app] in En; simplify_eq; cbn [app] in *.
  - destruct ob as [|b ob]; cbn in Hpos; [|exfalso; apply Hpos, elem_of_app; right; by left].
    exists st1. split; [|split; done]. eapply update_next_stop; [done|done| |cbn in Hl; lia].
    intros r l ->. cbn. by rewrite Z.eqb_refl.
  - rewrite Forall_forall in Hd.
    destruct (update_next_spec o nb (size st1) st1 (next_of (ob ++ q :: rest)) a a ob old q rest)
      as (st' & E' & Hn' & Hx'); [done|done|done| |done|done| |].
    { intros x Hx. apply next_of_notin. intros Hx'. apply (Hd x); [by right|]. destruct ob; [by right|]. by right. }
    { cbn in Hl. rewrite length_app in Hl. cbn in Hl. lia. }
    exists st'. split; [done|]. split; [by eapply next_only_trans|]. eapply next_is_ext; [done|].
    intros x. cbn beta. apply NoDup_app in Hndo as (_ & Hdo & Hn2). apply NoDup_cons in Hn2 as [Hq Hn2].
    destruct (decide (x ∈ ob)) as [Hx|Hx].
    { symmetry. apply next_of_notin. cbn. intros [Hxn|Hxn]%elem_of_app; [|by apply (Hdo x)].
      apply (Hd x); [by right|]. apply elem_of_app. by left. }
    destruct (decide (x ∈ nb ++ [q])) as [Hxn|Hxn]; [done|].
    apply not_elem_of_app in Hxn as [Hxn Hxq]. rewrite list_elem_of_singleton in Hxq.
    rewrite next_of_below by done. destruct (decide (x = a)) as [->|Hxa].
    + rewrite next_of_head by done. apply next_of_notin. cbn. intros Hr. apply (Hd a); [by left|].
      apply elem_of_app. right. by right.
    + change (a :: nb ++ q :: rest) with ((a :: nb) ++ q :: rest). rewrite next_of_below; [done| |done]. by apply not_elem_of_cons.
Qed.

(** [UpdateLast] repairs the next pointers of a fork.  If they lead along
    the chain of the old last block and along no other block of the fork, and the
    new last block is not below the old one, then the loops end and leave next
    pointers that lead along the chain of the new last block and no other; nothing
    else of the index changes, and no other fork's pointers. *)
Theorem UpdateLast_links (st : Indexes) (o old new : Z) (lo ln : list Z)
    (Hold : fork_chain st o old lo) (Hnew : fork_chain st o new ln)
    (Hnx : next_is st o (next_of lo)) (Hpos : new ∉ tail lo) :
  exists st', UpdateNext st new = Return st' /\ next_only o st st' /\ next_is st' o (next_of ln).
Proof. exact (UpdateNext_links st o old new lo ln Hold Hnew Hnx Hpos). Qed.

(** ** Inventories *)

Lemma next_of_split newer h older : NoDup (newer ++ h :: older) -> next_of (newer ++ h :: older) h = head (rev newer).
Proof.
  destruct newer as [|b newer _] using rev_ind; intros Hnd; [by apply next_of_head|].
  rewrite rev_app_distr, <- app_assoc in *. cbn in *. apply NoDup_app in Hnd as (_ & Hd & Hnd).
  apply NoDup_cons in Hnd as [Hb _]. apply next_of_at.
  - intros Hh. apply (Hd _ Hh). right. by left.
  - intros ->. apply Hb. by left.
Qed.

(** Walking the next pointers from [h] visits the blocks above it. *)
Lemma inv_loop_spec n st o last newer h older :
  fork_chain st o last (newer ++ h :: older) -> next_is st o (next_of (newer ++ h :: older)) ->
  Chain.inv_loop n st (next_of (newer ++ h :: older) h) = (take n (rev newer), rev newer !! n).
Proof.
  intros Hc Hnx. rewrite next_of_split by by eapply fork_chain_NoDup. remember (newer ++ h :: older) as l eqn:El.
  revert newer h older El. induction n as [|n IH]; intros newer h older El; [by rewrite head_lookup|].
  destruct newer as [|b newer _] using rev_ind; [done|].
  rewrite rev_app_distr. cbn [rev app take lookup list_lookup head Chain.inv_loop].
  rewrite <- app_assoc in El. cbn in El.
  destruct (fork_chain_elem _ _ _ _ b Hc) as (i & Hi & Ho).
  { rewrite El. apply elem_of_app. right. by left. }
  rewrite Hi, (Hnx b i Hi Ho), El, next_of_split, (IH newer b (h :: older)); [done|done|].
  rewrite <- El. by eapply fork_chain_NoDup.
Qed.

(** The block is not on the best chain of a fork. *)
Definition off_chain (st : Indexes) (last x : Z) : Prop :=
  forall i, st !! x = Some i -> x <> last /\ bi_pNext i = None.

Definition named_by_key (st : Indexes) : Prop := forall h i, st !! h = Some i -> bi_hash i = h.

Lemma find_locator_skip st o last p rest pIndex :
  named_by_key st -> Forall (off_chain st last) p ->
  exists pIndex', Chain.find_locator st o last (p ++ rest) pIndex = Chain.find_locator st o last rest pIndex' /\
    pIndex' = match list.last p with None => pIndex | Some x => st !! x end.
Proof.
  intros Hk Hp. revert pIndex. induction Hp as [|x p Hx Hp IH]; intros pIndex; [by exists pIndex|].
  cbn [app Chain.find_locator]. destruct (st !! x) as [i|] eqn:Ei.
  - destruct (Hx i Ei) as [Hl Hn]. rewrite (Hk _ _ Ei), (proj2 (Z.eqb_neq x last)) by done.
    rewrite Hn. cbn. destruct (IH (Some i)) as (p' & -> & E). exists p'. split; [done|].
    rewrite last_cons. by destruct (list.last p); rewrite ?Ei.
  - destruct (IH None) as (p' & -> & E). exists p'. split; [done|].
    rewrite last_cons. by destruct (list.last p); rewrite ?Ei.
Qed.

(** What [GetForkBlockInv] sends when [s] is left of the chain *)
Definition inventory (last : Z) (nMaxCount : nat) (s : list Z) : list Z :=
  take (nMaxCount - 1) s ++ (if (nMaxCount <? length s)%nat then [last] else []).

Lemma inventory_spec st o last newer h older n pIndex :
  named_by_key st -> fork_chain st o last (newer ++ h :: older) -> next_is st o (next_of (newer ++ h :: older)) ->
  (0 < n)%nat -> st !! h ≫= bi_pNext = pIndex ->
  (let '(v, p) := Chain.inv_loop (if (n =? 0)%nat then size st else n - 1) st pIndex in
   Some (match p with Some x => if x =? last then v else v ++ [last] | None => v end)) =
  Some (inventory last n (rev newer)).
Proof.
  intros Hk Hc Hnx Hn <-. destruct (fork_chain_elem _ _ _ _ h Hc) as (i & Hi & Ho).
  { apply elem_of_app. right. by left. }
  rewrite Hi. cbn [mbind option_bind]. rewrite (Hnx h i Hi Ho), (proj2 (Nat.eqb_neq n 0)) by lia.
  rewrite (inv_loop_spec _ _ _ _ _ _ _ Hc Hnx). unfold inventory. f_equal.
  destruct (fork_chain_head _ _ _ _ Hc) as [l' El]. pose proof (fork_chain_NoDup _ _ _ _ Hc) as Hnd.
  destruct (Nat.ltb_spec n (length (rev newer))) as [Hlt|Hge].
  - destruct (rev newer !! (n - 1)%nat) as [x|] eqn:Ex; [|apply lookup_ge_None in Ex; lia].
    rewrite (proj2 (Z.eqb_neq x last)); [done|]. intros ->.
    destruct newer as [|a newer]; [cbn in Hlt; lia|]. cbn [app] in El. simplify_eq.
    cbn [rev] in Ex, Hlt. rewrite length_app in Hlt. cbn in Hlt. rewrite lookup_app_l in Ex by lia.
    apply list_elem_of_lookup_2 in Ex. rewrite elem_of_rev in Ex. cbn in Hnd. apply NoDup_cons in Hnd as [Ha _].
    apply Ha, elem_of_app. by left.
  - rewrite app_nil_r. destruct (rev newer !! (n - 1)%nat) as [x|] eqn:Ex; [|done].
    assert (El2 : (n = length newer)%nat).
    { apply lookup_lt_Some in Ex. rewrite length_rev in *. lia. }
    destruct newer as [|a newer]; [cbn in El2; lia|]. cbn [app] in El. simplify_eq. cbn [rev] in Ex.
    rewrite lookup_app_r in Ex by (rewrite length_rev; cbn; lia). rewrite length_rev in Ex. cbn in Ex.
    replace (length newer - 0 - length newer)%nat with 0%nat in Ex by lia. cbn in Ex. simplify_eq. by rewrite Z.eqb_refl.
Qed.

(** an inventory continues the chain of whoever sent the locator.  On a fork
    whose next pointers lead along its best chain, [GetForkBlockInv] returns, for a
    locator whose first hash on a best chain is [h], the blocks that follow [h] on
    the fork's best chain in order, the first [nMaxCount - 1] of them, and the last
    block of the fork at the end if more than [nMaxCount] follow; when no hash of
    the locator is stored it returns the blocks that follow the origin; but when
    the locator ends in a stored block that is off the best chains it returns none. *)
Theorem GetForkBlockInv_spec (st : Indexes) (o last : Z) (l : list Z) (nMaxCount : nat)
    (Hk : named_by_key st) (Hc : fork_chain st o last l) (Hnx : next_is st o (next_of l)) (Hn : (0 < nMaxCount)%nat) :
  (forall newer h older p rest, l = newer ++ h :: older -> Forall (off_chain st last) p ->
     Chain.GetForkBlockInv st o last (p ++ h :: rest) nMaxCount = Some (inventory last nMaxCount (rev newer))) /\
  (forall newer p, l = newer ++ [o] -> Forall (fun x => st !! x = None) p ->
     Chain.GetForkBlockInv st o last p nMaxCount = Some (inventory last nMaxCount (rev newer))) /\
  (forall p x, Forall (off_chain st last) (p ++ [x]) -> is_Some (st !! x) ->
     Chain.GetForkBlockInv st o last (p ++ [x]) nMaxCount = Some []).
Proof.
  split; [|split].
  - intros newer h older p rest -> Hp. unfold Chain.GetForkBlockInv.
    destruct (find_locator_skip st o last p (h :: rest) None Hk Hp) as (p' & -> & _).
    destruct (fork_chain_elem _ _ _ _ h Hc) as (i & Hi & Ho); [apply elem_of_app; right; by left|].
    cbn [Chain.find_locator]. rewrite Hi, (Hk _ _ Hi), Ho, Z.eqb_refl, (Hnx h i Hi Ho).
    rewrite next_of_split by by eapply fork_chain_NoDup.
    assert (E : (h =? last) || negb (bool_decide (head (rev newer) = None)) = true).
    { destruct newer as [|b newer _] using rev_ind.
      - destruct (fork_chain_head _ _ _ _ Hc) as [l' E]. cbn in E. simplify_eq. by rewrite Z.eqb_refl.
      - rewrite rev_app_distr. cbn. by rewrite orb_true_r. }
    rewrite E. cbn [negb]. eapply inventory_spec; [done|done|done|done|]. by rewrite Hi.
  - intros newer p -> Hp. unfold Chain.GetForkBlockInv.
    destruct (find_locator_skip st o last p [] None Hk) as (p' & E & Ep).
    { eapply Forall_impl; [done|]. intros x Hx i Hi. cbn in Hx. congruence. }
    rewrite app_nil_r in E. rewrite E. cbn [Chain.find_locator].
    assert (p' = None) as ->.
    { rewrite Ep. destruct p as [|x p _] using rev_ind; [done|]. rewrite last_snoc.
      apply Forall_app in Hp as [_ Hp]. by inversion Hp. }
    by eapply inventory_spec.
  - intros p x Hp [i Hi]. unfold Chain.GetForkBlockInv.
    destruct (find_locator_skip st o last (p ++ [x]) [] None Hk Hp) as (p' & E & Ep).
    rewrite app_nil_r in E. rewrite E. cbn [Chain.find_locator].
    rewrite Ep, last_snoc, Hi.
    apply Forall_app in Hp as [_ Hp]. inversion Hp as [|? ? Hx]; subst. destruct (Hx i Hi) as [_ ->].
    by destruct (if (nMaxCount =? 0)%nat then _ else _).
Qed.

(** ** Locators *)

(** Once the locator has ten hashes every further one doubles the distance. *)
Lemma locator_far fuel f chain nStep nSize r :
  (10 <= nSize)%nat -> (1 <= nStep)%nat -> length (Chain.locator_loop fuel f chain nStep nSize) = S r ->
  (nStep * (2 ^ r - 1) < length chain)%nat.
Proof.
  revert chain nStep nSize r. induction fuel as [|fuel IH]; intros chain nStep nSize r Hs Hn Hl; [done|].
  destruct chain as [|i chain]; [done|]. cbn [Chain.locator_loop] in Hl. case_match; [|done].
  cbn [length] in Hl. injection Hl as Hl. destruct r as [|r]; [cbn; lia|].
  rewrite (proj2 (Nat.ltb_lt 10 (S nSize))) in Hl by lia.
  apply IH in Hl; [|lia|lia]. rewrite length_drop in Hl. rewrite Nat.pow_succ_r'.
  pose proof (Nat.pow_nonzero 2 r). nia.
Qed.

Lemma locator_near fuel f chain nSize r :
  (nSize <= 10)%nat -> length (Chain.locator_loop fuel f chain 1 nSize) = (10 - nSize + S r)%nat ->
  (10 - nSize + (2 ^ r - 1) < length chain)%nat.
Proof.
  revert chain nSize. induction fuel as [|fuel IH]; intros chain nSize Hs Hl; [cbn in Hl; lia|].
  destruct (decide (nSize = 10%nat)) as [->|Hne].
  { replace (10 - 10)%nat with 0%nat in * by lia. apply locator_far in Hl; [|lia|lia]. lia. }
  destruct chain as [|i chain]; [cbn in Hl; lia|]. cbn [Chain.locator_loop] in Hl. case_match; [|cbn in Hl; lia].
  cbn [length] in Hl. rewrite (proj2 (Nat.ltb_ge 10 (S nSize))) in Hl by lia.
  specialize (IH chain (S nSize)). cbn [drop length] in *. rewrite drop_0 in Hl. lia.
Qed.

Lemma locator_sublist fuel f chain nStep nSize :
  (1 <= nStep)%nat -> Chain.locator_loop fuel f chain nStep nSize `sublist_of` map bi_hash chain.
Proof.
  revert chain nStep nSize. induction fuel as [|fuel IH]; intros chain nStep nSize Hn; [apply sublist_nil_l|].
  destruct chain as [|i chain]; [apply sublist_nil_l|]. cbn [Chain.locator_loop map]. case_match; [|apply sublist_nil_l].
  apply sublist_skip. destruct nStep as [|nStep]; [lia|]. cbn [drop]. etrans; [apply IH; case_match; lia|].
  apply (fmap_sublist bi_hash). apply sublist_drop.
Qed.

Lemma locator_elem fuel f chain nStep nSize x :
  x ∈ Chain.locator_loop fuel f chain nStep nSize ->
  exists i, i ∈ chain /\ bi_hash i = x /\ bi_pOrigin i = f /\ BlockIndex.IsOrigin i = false.
Proof.
  revert chain nStep nSize. induction fuel as [|fuel IH]; intros chain nStep nSize Hx; [by apply not_elem_of_nil in Hx|].
  destruct chain as [|i chain]; [by apply not_elem_of_nil in Hx|]. cbn [Chain.locator_loop] in Hx.
  case_match eqn:E; [|by apply not_elem_of_nil in Hx]. bool_to_prop. apply elem_of_cons in Hx as [->|Hx].
  - exists i. split; [by left|done].
  - apply IH in Hx as (j & Hj & Hr). exists j. split; [|done]. eapply elem_of_sublist; [|apply sublist_drop]. done.
Qed.

(** a locator lists blocks of the fork's chain from the last one back, never
    the origin, and at most eleven more than the logarithm of the chain's length. *)
Theorem GetForkBlockLocator_spec (hashFork : Z) (chain : list CBlockIndex) :
  let locator := Chain.GetForkBlockLocator hashFork chain in
  locator `sublist_of` map bi_hash chain /\
  (length locator <= 11 + Nat.log2 (length chain))%nat /\
  forall x, x ∈ locator -> exists i, i ∈ chain /\ bi_hash i = x /\ bi_pOrigin i = hashFork /\ BlockIndex.IsOrigin i = false.
Proof.
  cbv zeta. unfold Chain.GetForkBlockLocator. split; [by apply locator_sublist|]. split; [|apply locator_elem].
  set (n := length (Chain.locator_loop _ _ _ _ _)). destruct (decide (n <= 11)%nat); [lia|].
  assert (H : (2 ^ (n - 11) <= length chain)%nat).
  { pose proof (locator_near (length chain) hashFork chain 0 (n - 11)) as H. subst n. lia. }
  apply Nat.log2_le_pow2 in H; [lia|]. pose proof (Nat.pow_nonzero 2 (n - 11)). lia.
Qed.

(** ** A fork of two branches *)

Definition sample_store : Indexes :=
  list_to_map (map (fun i => (bi_hash i, i))
    [with_next (Some 2) Chain.sample_root; with_next (Some 3) (Chain.sample_index 2 (Some 1) 101);
     Chain.sample_index 3 (Some 2) 102; Chain.sample_index 4 (Some 2) 102; Chain.sample_index 5 (Some 4) 103]).

Ltac chain_compute :=
  repeat first [eapply fc_prev; [vm_compute; reflexivity|vm_compute; reflexivity|vm_compute; reflexivity|vm_compute; reflexivity|]
               |eapply fc_origin; vm_compute; reflexivity].

Lemma sample_old_chain : fork_chain sample_store 1 3 [3; 2; 1].
Proof. chain_compute. Defined.

Lemma sample_new_chain : fork_chain sample_store 1 5 [5; 4; 2; 1].
Proof. chain_compute. Defined.

Lemma sample_linked : next_is sample_store 1 (next_of [3; 2; 1]).
Proof.
  intros h i Hi _. unfold sample_store in Hi. apply elem_of_list_to_map_2 in Hi.
  cbn in Hi. rewrite !elem_of_cons in Hi.
  destruct Hi as [[= -> ->]|[[= -> ->]|[[= -> ->]|[[= -> ->]|[[= -> ->]|Hi]]]]]; try (vm_compute; reflexivity).
  by apply not_elem_of_nil in Hi.
Defined.

Lemma UpdateLast_links_witness :
  exists st', UpdateNext sample_store 5 = Return st' /\ next_only 1 sample_store st' /\
    next_is st' 1 (next_of [5; 4; 2; 1]) /\ (st' !! 2 ≫= bi_pNext) = Some 4 /\ (st' !! 3 ≫= bi_pNext) = None.
Proof.
  destruct (UpdateLast_links sample_store 1 3 5 [3; 2; 1] [5; 4; 2; 1] sample_old_chain sample_new_chain sample_linked)
    as (st' & E & Hn & Hx).
  { intros H. cbn in H. rewrite !elem_of_cons in H. destruct H as [?|[?|H]]; [lia|lia|by apply not_elem_of_nil in H]. }
  exists st'. split; [exact E|]. split; [exact Hn|]. split; [exact Hx|].
  vm_compute in E. injection E as <-. split; vm_compute; reflexivity.
Defined.

Lemma sample_store_named : named_by_key sample_store.
Proof.
  intros h i Hi. unfold sample_store in Hi. apply elem_of_list_to_map_2 in Hi. cbn in Hi. rewrite !elem_of_cons in Hi.
  destruct Hi as [[= -> ->]|[[= -> ->]|[[= -> ->]|[[= -> ->]|[[= -> ->]|Hi]]]]]; try reflexivity.
  by apply not_elem_of_nil in Hi.
Defined.

Lemma GetForkBlockInv_spec_witness :
  Chain.GetForkBlockInv sample_store 1 3 [9; 5; 4; 1] 10 = Some [2; 3] /\
  Chain.GetForkBlockInv sample_store 1 3 [9; 5; 4; 1] 10 = Some (inventory 3 10 [2; 3]) /\
  Chain.GetForkBlockInv sample_store 1 3 [9; 5; 4] 10 = Some [].
Proof.
  destruct (GetForkBlockInv_spec sample_store 1 3 [3; 2; 1] 10 sample_store_named sample_old_chain sample_linked)
    as (H1 & _ & H3); [lia|].
  assert (Hoff : forall x, x ∈ [9; 5; 4] -> off_chain sample_store 3 x).
  { intros x Hx i Hi. rewrite !elem_of_cons in Hx.
    destruct Hx as [->|[->|[->|Hx]]]; [| | |by apply not_elem_of_nil in Hx]; vm_compute in Hi; simplify_eq; done. }
  split; [vm_compute; reflexivity|]. split.
  - apply (H1 [3; 2] 1 [] [9; 5; 4] []); [reflexivity|]. apply Forall_forall. exact Hoff.
  - apply (H3 [9; 5] 4); [apply Forall_forall; exact Hoff|]. vm_compute. eauto.
Defined.

End BlockFork.
