(* ===== verification/BlockTree.v ===== *)
(** * The tree of blocks

    What the index of the block base keeps while blocks are added: every
    block leads back to a root, a block that is not an origin belongs to the
    fork of its predecessor, and the origin of a fork is strictly older than
    the other blocks of the fork.  [root_chain] is the chain of a block through
    [pPrev] with no bound on its length; in a tree it is what the walks of
    [Chain] follow.  A new leaf and a change of next pointers keep the tree. *)

From S2P Require Import Prelude Stream Destination Transaction Block BlockIndex Chain BlockFork.

Module BlockTree.

Import BlockFork.

Inductive root_chain (st : Indexes) : Z -> list CBlockIndex -> Prop :=
  | rc_root h i : st !! h = Some i -> bi_pPrev i = None -> root_chain st h [i]
  | rc_prev h i q l : st !! h = Some i -> bi_pPrev i = Some q -> root_chain st q l -> root_chain st h (i :: l).

Record tree_ok (st : Indexes) : Prop := {
  tr_key : named_by_key st;
  tr_chain : forall h i, st !! h = Some i -> exists l, root_chain st h l;
  tr_origin : forall h i, st !! h = Some i -> BlockIndex.IsOrigin i = true -> bi_pOrigin i = h;
  tr_prev : forall h i, st !! h = Some i -> BlockIndex.IsOrigin i = false ->
    exists q j, bi_pPrev i = Some q /\ st !! q = Some j /\ bi_pOrigin i = bi_pOrigin j;
  tr_young : forall h i o, st !! h = Some i -> BlockIndex.IsOrigin i = false -> st !! bi_pOrigin i = Some o ->
    BlockIndex.GetBlockTime o < BlockIndex.GetBlockTime i;
}.

(** ** Chains *)

Lemma root_chain_det st h l1 l2 : root_chain st h l1 -> root_chain st h l2 -> l1 = l2.
Proof.
  intros H1. revert l2. induction H1 as [h i Hi Hp|h i q l Hi Hp H1 IH]; intros l2 H2; inversion H2; subst; simplify_eq; [done|].
  f_equal. by apply IH.
Qed.

Lemma root_chain_head st h l : root_chain st h l -> exists i l', l = i :: l' /\ st !! h = Some i.
Proof. intros []; eauto. Qed.

Section tree.
Context (st : Indexes) (Hk : named_by_key st).

Lemma root_chain_suffix h p x r : root_chain st h (p ++ x :: r) -> root_chain st (bi_hash x) (x :: r).
Proof.
  revert h. induction p as [|a p IH]; intros h H; cbn in H.
  - destruct (root_chain_head _ _ _ H) as (i & l' & E & Hi). simplify_eq. by rewrite (Hk _ _ Hi).
  - inversion H as [h' i Hi Hp E|h' i q l Hi Hp Hl E]; subst; [by destruct p|]. by apply (IH q).
Qed.

Lemma root_chain_elem h l x : root_chain st h l -> x ∈ l -> st !! bi_hash x = Some x.
Proof.
  induction 1 as [h i Hi|h i q l Hi Hp H IH]; intros Hx.
  - apply list_elem_of_singleton in Hx as ->. by rewrite (Hk _ _ Hi).
  - apply elem_of_cons in Hx as [->|Hx]; [by rewrite (Hk _ _ Hi)|]. by apply IH.
Qed.

Lemma root_chain_NoDup h l : root_chain st h l -> NoDup (map bi_hash l).
Proof.
  intros H. induction H as [h i Hi Hp|h i q l Hi Hp H IH]; [apply NoDup_singleton|]. cbn. apply NoDup_cons. split; [|done].
  intros (x & E & Hx)%list_elem_of_fmap. apply list_elem_of_split in Hx as (p & r & ->).
  pose proof (root_chain_suffix _ _ _ _ H) as H1. rewrite <- E, (Hk _ _ Hi) in H1.
  pose proof (root_chain_det _ _ _ _ H1 (rc_prev st h i q _ Hi Hp H)) as E1.
  apply (f_equal length) in E1. cbn in E1. rewrite length_app in E1. cbn in E1. lia.
Qed.

Lemma root_chain_length h l : root_chain st h l -> (length l <= size st)%nat.
Proof.
  intros H. rewrite <- (length_map bi_hash l), <- (size_dom (D := gset Z) st).
  rewrite <- (size_list_to_set (C := gset Z) (map bi_hash l)) by by eapply root_chain_NoDup.
  apply subseteq_size. intros x (i & -> & Hi)%elem_of_list_to_set%list_elem_of_fmap. apply elem_of_dom.
  rewrite (root_chain_elem _ _ _ H Hi). eauto.
Qed.

Lemma walk_back_chain h l n : root_chain st h l -> (length l <= n)%nat -> Chain.walk_back n st (Some h) = l.
Proof.
  intros H. revert n. induction H as [h i Hi Hp|h i q l Hi Hp H IH]; intros [|n] Hn; cbn in Hn |- *; try lia; rewrite Hi, Hp.
  - by destruct n.
  - f_equal. apply IH. lia.
Qed.

(** The walks follow the chain. *)
Lemma ancestry_chain h l : root_chain st h l -> Chain.ancestry st (Some h) = l.
Proof. intros H. apply walk_back_chain; [done|]. by apply (root_chain_length h). Qed.

Lemma root_chain_joined h1 l1 h2 l2 : root_chain st h1 l1 -> root_chain st h2 l2 -> Chain.joined l1 l2.
Proof.
  intros H1 H2 p1 p2 a b r1 r2 -> -> E. apply root_chain_suffix in H1, H2. rewrite E in H1. by eapply root_chain_det.
Qed.
End tree.

(** ** Forks *)

Section forks.
Context (st : Indexes) (Ht : tree_ok st).

Lemma tree_fork_chain h i : st !! h = Some i -> exists l, fork_chain st (bi_pOrigin i) h l.
Proof.
  intros Hi. destruct (tr_chain _ Ht _ _ Hi) as [l Hl]. revert i Hi.
  induction Hl as [h i' Hi' Hp|h i' q l Hi' Hp Hl IH]; intros i Hi; (assert (i' = i) as -> by congruence).
  - destruct (BlockIndex.IsOrigin i) eqn:Eo.
    + pose proof (tr_origin _ Ht _ _ Hi Eo) as E. rewrite E. exists [h]. by eapply fc_origin.
    + destruct (tr_prev _ Ht _ _ Hi Eo) as (q & j & E & _). congruence.
  - destruct (BlockIndex.IsOrigin i) eqn:Eo.
    + pose proof (tr_origin _ Ht _ _ Hi Eo) as E. rewrite E. exists [h]. by eapply fc_origin.
    + destruct (tr_prev _ Ht _ _ Hi Eo) as (q' & j & E & Hj & Ep). assert (q' = q) as -> by congruence.
      destruct (IH j Hj) as [lf Hf]. exists (h :: lf). rewrite Ep in *. eapply fc_prev; eauto.
Qed.

Lemma fork_root h i : st !! h = Some i -> exists g, st !! bi_pOrigin i = Some g /\ BlockIndex.IsOrigin g = true /\ bi_pOrigin g = bi_pOrigin i.
Proof.
  intros Hi. destruct (tree_fork_chain h i Hi) as [l Hl]. clear Hi. remember (bi_pOrigin i) as o eqn:Eo. clear Eo i.
  induction Hl as [i Hi Ho Hp|h i q l Hi Ho Hp Hq Hl IH]; [by exists i|done].
Qed.

(** The chain of a block goes back to the origin of its fork through younger
    blocks. *)
Lemma tree_rooted h i l :
  st !! h = Some i -> root_chain st h l ->
  exists g rest, st !! bi_pOrigin i = Some g /\ root_chain st (bi_pOrigin i) (g :: rest) /\ Chain.rooted g rest l.
Proof.
  intros Hi Hl. destruct (fork_root h i Hi) as (g & Hg & Hgo & _).
  destruct (tr_chain _ Ht _ _ Hg) as [lo Hlo]. destruct (root_chain_head _ _ _ Hlo) as (g' & rest & -> & Hg').
  assert (g' = g) as -> by congruence. clear Hg'.
  exists g, rest. split; [done|]. split; [done|]. clear Hgo. revert i Hi Hg Hlo.
  induction Hl as [h i' Hi' Hp|h i' q l Hi' Hp Hl IH]; intros i Hi Hg Hlo; (assert (i' = i) as -> by congruence).
  - destruct (BlockIndex.IsOrigin i) eqn:Eo; [|destruct (tr_prev _ Ht _ _ Hi Eo) as (q & ? & E & _); congruence].
    pose proof (tr_origin _ Ht _ _ Hi Eo) as E. rewrite E in *. assert (g = i) as -> by congruence.
    exists []. split; [|constructor].
    by rewrite (root_chain_det _ _ _ _ (rc_root st h i Hi Hp) Hlo).
  - destruct (BlockIndex.IsOrigin i) eqn:Eo.
    + pose proof (tr_origin _ Ht _ _ Hi Eo) as E. rewrite E in *. assert (g = i) as -> by congruence.
      exists []. split; [|constructor]. by rewrite (root_chain_det _ _ _ _ (rc_prev st h i q l Hi Hp Hl) Hlo).
    + destruct (tr_prev _ Ht _ _ Hi Eo) as (q' & j & E & Hj & Ep). assert (q' = q) as -> by congruence.
      pose proof (tr_young _ Ht _ _ _ Hi Eo Hg) as Hy. rewrite Ep in *.
      destruct (IH j Hj Hg Hlo) as (p & -> & Hyp). exists (i :: p). split; [done|]. by constructor.
Qed.

(** Where two chains of one fork part *)
Lemma tree_branch h1 h2 i1 i2 :
  st !! h1 = Some i1 -> st !! h2 = Some i2 -> bi_pOrigin i1 = bi_pOrigin i2 ->
  exists b vPath vRemove g rest,
    Chain.GetBranch (Chain.ancestry st (Some h1)) (Chain.ancestry st (Some h2)) = Return (b, vPath) /\
    st !! bi_pOrigin i1 = Some g /\ Chain.rooted g rest b /\
    root_chain st h2 (vPath ++ b) /\ root_chain st h1 (vRemove ++ b).
Proof.
  intros H1 H2 Ho. destruct (tr_chain _ Ht _ _ H1) as [l1 Hl1]. destruct (tr_chain _ Ht _ _ H2) as [l2 Hl2].
  destruct (tree_rooted _ _ _ H1 Hl1) as (g & rest & Hg & Hlg & Hr1). destruct (tree_rooted _ _ _ H2 Hl2) as (g' & rest' & Hg' & Hlg' & Hr2).
  rewrite Ho in *. assert (g' = g) as -> by congruence.
  assert (rest' = rest) as -> by (pose proof (root_chain_det _ _ _ _ Hlg Hlg'); congruence).
  pose proof (tr_key _ Ht) as Hk.
  rewrite (ancestry_chain _ Hk _ _ Hl1), (ancestry_chain _ Hk _ _ Hl2).
  destruct (Chain.GetBranch_paths g rest l1 l2) as (b & p & r & E & Hb & -> & ->); [by eapply root_chain_joined|done|done|].
  exists b, p, r, g, rest. done.
Qed.

Lemma tree_changes h1 h2 i1 i2 :
  st !! h1 = Some i1 -> st !! h2 = Some i2 -> bi_pOrigin i1 = bi_pOrigin i2 ->
  exists b vAdd vRemove,
    Chain.GetBlockChanges (Chain.ancestry st (Some h1)) (Chain.ancestry st (Some h2)) = Return (vAdd, vRemove) /\
    root_chain st h1 (vAdd ++ b) /\ root_chain st h2 (vRemove ++ b).
Proof.
  intros H1 H2 Ho. destruct (tr_chain _ Ht _ _ H1) as [l1 Hl1]. destruct (tr_chain _ Ht _ _ H2) as [l2 Hl2].
  destruct (tree_rooted _ _ _ H1 Hl1) as (g & rest & Hg & Hlg & Hr1). destruct (tree_rooted _ _ _ H2 Hl2) as (g' & rest' & Hg' & Hlg' & Hr2).
  rewrite Ho in *. assert (g' = g) as -> by congruence.
  assert (rest' = rest) as -> by (pose proof (root_chain_det _ _ _ _ Hlg Hlg'); congruence).
  pose proof (tr_key _ Ht) as Hk.
  rewrite (ancestry_chain _ Hk _ _ Hl1), (ancestry_chain _ Hk _ _ Hl2).
  destruct (Chain.GetBlockChanges_paths g rest l1 l2) as (b & p & r & E & -> & ->); [by eapply root_chain_joined|done|done|].
  exists b, p, r. done.
Qed.
End forks.

(** ** Changes of the index *)

(** A new leaf *)
Section leaf.
Context (st : Indexes) (Ht : tree_ok st) (h : Z) (i : CBlockIndex) (Hnew : st !! h = None).

Lemma root_chain_leaf x l : root_chain st x l -> root_chain (<[h := i]> st) x l.
Proof.
  induction 1 as [x j Hj Hp|x j q l Hj Hp H IH].
  - apply rc_root; [|done]. rewrite lookup_insert_ne by congruence. done.
  - apply (rc_prev _ _ _ q); [|done|done]. rewrite lookup_insert_ne by congruence. done.
Qed.

Lemma fork_chain_leaf o x l : fork_chain st o x l -> fork_chain (<[h := i]> st) o x l.
Proof.
  induction 1 as [j Hj Ho Hp|x j q l Hj Ho Hp Hq H IH].
  - eapply fc_origin; [|done|done]. rewrite lookup_insert_ne by congruence. done.
  - eapply fc_prev; [|done|done|done|done]. rewrite lookup_insert_ne by congruence. done.
Qed.

(** above a block of the tree, as an origin or in the fork of that block *)
Lemma tree_leaf q j :
  bi_hash i = h -> bi_pPrev i = Some q -> st !! q = Some j ->
  (BlockIndex.IsOrigin i = true -> bi_pOrigin i = h) ->
  (BlockIndex.IsOrigin i = false -> bi_pOrigin i = bi_pOrigin j /\
     forall o, st !! bi_pOrigin j = Some o -> BlockIndex.GetBlockTime o < BlockIndex.GetBlockTime i) ->
  tree_ok (<[h := i]> st).
Proof.
  intros Hh Hq Hj Ho Hf. assert (Hqh : q <> h) by congruence.
  assert (Hold : forall x y, (<[h := i]> st) !! x = Some y -> x = h /\ y = i \/ x <> h /\ st !! x = Some y).
  { intros x y [[<- <-]|[? ?]]%lookup_insert_Some; [by left|right; split; congruence]. }
  assert (Hkeep : forall x y, st !! x = Some y -> (<[h := i]> st) !! x = Some y).
  { intros x y Hx. rewrite lookup_insert_ne by congruence. done. }
  split.
  - intros x y [[-> ->]|[_ Hx]]%Hold; [done|]. by apply (tr_key _ Ht).
  - intros x y [[-> ->]|[_ Hx]]%Hold.
    + destruct (tr_chain _ Ht _ _ Hj) as [l Hl]. exists (i :: l). eapply rc_prev; [apply lookup_insert_eq|done|].
      by apply root_chain_leaf.
    + destruct (tr_chain _ Ht _ _ Hx) as [l Hl]. exists l. by apply root_chain_leaf.
  - intros x y [[-> ->]|[_ Hx]]%Hold; [done|]. by apply (tr_origin _ Ht).
  - intros x y [[-> ->]|[_ Hx]]%Hold Eo.
    + exists q, j. split; [done|]. split; [by apply Hkeep|]. by apply Hf.
    + destruct (tr_prev _ Ht _ _ Hx Eo) as (q' & j' & E & Hj' & Ep). exists q', j'. auto.
  - intros x y o [[-> ->]|[_ Hx]]%Hold Eo Hoo.
    + destruct (Hf Eo) as [Ep Hy]. rewrite Ep in Hoo. apply Hold in Hoo as [[E _]|[_ Hoo]]; [|by apply Hy].
      destruct (fork_root _ Ht _ _ Hj) as (g & Hg & _). congruence.
    + apply Hold in Hoo as [[E _]|[_ Hoo]]; [|by apply (tr_young _ Ht _ _ _ Hx Eo)].
      destruct (fork_root _ Ht _ _ Hx) as (g & Hg & _). congruence.
Qed.
End leaf.

(** Next pointers *)
Lemma with_next_fields_all i i' : with_next None i' = with_next None i ->
  bi_hash i' = bi_hash i /\ bi_pOrigin i' = bi_pOrigin i /\ bi_pPrev i' = bi_pPrev i /\ bi_nType i' = bi_nType i /\
  bi_nTimeStamp i' = bi_nTimeStamp i /\ bi_nHeight i' = bi_nHeight i /\ bi_nChainTrust i' = bi_nChainTrust i /\
  bi_nMoneySupply i' = bi_nMoneySupply i /\ bi_nFile i' = bi_nFile i /\ bi_nOffset i' = bi_nOffset i.
Proof. destruct i, i'. cbn. intros [=]. subst. repeat split. Qed.

Section next.
Context (o : Z) (st st' : Indexes) (Hn : next_only o st st').

Lemma next_only_back h i' : st' !! h = Some i' -> exists i, st !! h = Some i /\ with_next None i' = with_next None i.
Proof.
  intros Hi. specialize (Hn h). rewrite Hi in Hn. destruct (st !! h) as [i|]; [|done]. exists i. split; [done|apply Hn].
Qed.

Lemma next_only_root_chain h l : root_chain st h l -> exists l', root_chain st' h l'.
Proof.
  induction 1 as [h i Hi Hp|h i q l Hi Hp H [l' IH]];
    destruct (next_only_lookup _ _ _ _ _ Hn Hi) as (i' & Hi' & E); apply with_next_fields in E as (_ & _ & Eq & _).
  - exists [i']. apply rc_root; [done|congruence].
  - exists (i' :: l'). eapply rc_prev; [done| |done]. congruence.
Qed.

Lemma tree_next : tree_ok st -> tree_ok st'.
Proof.
  intros Ht. split.
  - intros h i' Hi'. destruct (next_only_back _ _ Hi') as (i & Hi & E). apply with_next_fields in E as (-> & _).
    by apply (tr_key _ Ht).
  - intros h i' Hi'. destruct (next_only_back _ _ Hi') as (i & Hi & _). destruct (tr_chain _ Ht _ _ Hi) as [l Hl].
    by eapply next_only_root_chain.
  - intros h i' Hi' Eo. destruct (next_only_back _ _ Hi') as (i & Hi & E). apply with_next_fields in E as (_ & -> & _ & Et).
    apply (tr_origin _ Ht _ _ Hi). unfold BlockIndex.IsOrigin in *. by rewrite <- Et.
  - intros h i' Hi' Eo. destruct (next_only_back _ _ Hi') as (i & Hi & E). apply with_next_fields in E as (_ & Ep & Eq & Et).
    destruct (tr_prev _ Ht _ _ Hi) as (q & j & Hq & Hj & Epj); [unfold BlockIndex.IsOrigin in *; by rewrite <- Et|].
    destruct (next_only_lookup _ _ _ _ _ Hn Hj) as (j' & Hj' & E). apply with_next_fields in E as (_ & Epj' & _).
    exists q, j'. split; [congruence|]. split; [done|congruence].
  - intros h i' g' Hi' Eo Hg'. destruct (next_only_back _ _ Hi') as (i & Hi & E).
    destruct (next_only_back _ _ Hg') as (g & Hg & Eg). apply with_next_fields_all in E as (_ & Ep & _ & Et & Ets & _).
    apply with_next_fields_all in Eg as (_ & _ & _ & _ & Egs & _). unfold BlockIndex.GetBlockTime. rewrite Ets, Egs.
    apply (tr_young _ Ht _ _ _ Hi); [unfold BlockIndex.IsOrigin in *; by rewrite <- Et|]. by rewrite <- Ep.
Qed.
End next.

End BlockTree.
