(* ===== verification/Circular.v ===== *)
(** * The circular stream (src/walleve/walleve/stream/circular.h, circular.cpp;
      class CWalleveCircularStream of stream.h)

    [circularbuf] is a [std::streambuf] over a ring of [buf_size_] bytes: what
    is written is kept until [consume] gives up its oldest bytes, and
    [seekpos] starts reading anywhere in what is kept.  The put and get areas of
    the streambuf are pieces of the ring without a wrap; when one is used up,
    [overflow] or [underflow] moves it.  Pointers are offsets from the start of
    the ring; a byte is written and read as by [sputc] and [sbumpc], which is
    how the library defines writing and reading several.

    [holds cb l] says that the ring keeps the bytes [l], the oldest first,
    [reads cb l] that the bytes left to read are [l].  The theorem shows that the
    stream is a bounded queue of bytes that can be read from every position. *)

From S2P Require Import Prelude Stream.

Record circularbuf : Type := mkCircular {
  buf_size_ : Z;
  buffer_ : list Z;
  begin_ : Z;
  pptr : Z;
  epptr : Z;
  gptr : Z;
  egptr : Z;
}.

Module Circular.

(** ** The streambuf *)

Definition MIN_SIZE : Z := 8.

(** [while(buf_size_ < maximum_size) buf_size_ <<= 1;] *)
Fixpoint grow (fuel : nat) (buf_size maximum_size : Z) : Z :=
  match fuel with
  | O => buf_size
  | S fuel => if buf_size <? maximum_size then grow fuel (Z.shiftl buf_size 1) maximum_size else buf_size
  end.

(** The constructor; 64 doublings exceed every [size_t]. *)
Definition init (maximum_size : Z) : circularbuf :=
  let n := grow 64 MIN_SIZE maximum_size in
  mkCircular n (replicate (Z.to_nat n) 0) 0 0 (n - 1) 0 0.

Definition size_mask_ (cb : circularbuf) : Z := buf_size_ cb - 1.

Definition set_put (cb : circularbuf) (p e : Z) : circularbuf :=
  mkCircular (buf_size_ cb) (buffer_ cb) (begin_ cb) p e (gptr cb) (egptr cb).

Definition setg (cb : circularbuf) (g e : Z) : circularbuf :=
  mkCircular (buf_size_ cb) (buffer_ cb) (begin_ cb) (pptr cb) (epptr cb) g e.

Definition set_begin (cb : circularbuf) (b : Z) : circularbuf :=
  mkCircular (buf_size_ cb) (buffer_ cb) b (pptr cb) (epptr cb) (gptr cb) (egptr cb).

(** [*pptr() = c; pbump(1);] *)
Definition put (cb : circularbuf) (c : Z) : circularbuf :=
  mkCircular (buf_size_ cb) (<[Z.to_nat (pptr cb) := c]> (buffer_ cb)) (begin_ cb) (pptr cb + 1) (epptr cb)
    (gptr cb) (egptr cb).

(** [*gptr()] *)
Definition peek (cb : circularbuf) : Z := nth (Z.to_nat (gptr cb)) (buffer_ cb) 0.

Definition ppos (cb : circularbuf) : Z := Z.land (pptr cb) (size_mask_ cb).

Definition gpos (cb : circularbuf) : Z := Z.land (gptr cb) (size_mask_ cb).

Definition size (cb : circularbuf) : Z := Z.land (pptr cb - begin_ cb) (size_mask_ cb).

Definition freespace (cb : circularbuf) : Z := buf_size_ cb - size cb - 1.

Definition putpos (cb : circularbuf) : Z := Z.land (pptr cb) (size_mask_ cb).

Definition consume (cb : circularbuf) (n : Z) : circularbuf :=
  let p := ppos cb in
  let g := gpos cb in
  let b := if size cb <=? n then p else Z.land (begin_ cb + n) (size_mask_ cb) in
  let cb := set_begin cb b in
  if ((b <=? p) && ((g <? b) || (p <? g))) || ((p <? b) && ((g <? b) && (p <? g))) then
    if b <=? p then setg cb b p else setg cb b (buf_size_ cb)
  else cb.

(** [eof] is [None]. *)
Definition underflow (cb : circularbuf) : option Z * circularbuf :=
  let p := ppos cb in
  let g := gpos cb in
  if g <? p then let cb := setg cb g p in (Some (peek cb), cb)
  else if p <? g then let cb := setg cb g (buf_size_ cb) in (Some (peek cb), cb)
  else (None, cb).

(** [overflow(c)] for a character; false is [eof]. *)
Definition overflow (cb : circularbuf) (c : Z) : bool * circularbuf :=
  let p := ppos cb in
  let pend := Z.land (begin_ cb - 1) (size_mask_ cb) in
  if p =? pend then (false, cb)
  else
    let cb := if pend <? p then set_put cb p (buf_size_ cb) else set_put cb p pend in
    (true, put cb c).

(** [std::streambuf::sputc] and [sbumpc] *)
Definition sputc (cb : circularbuf) (c : Z) : bool * circularbuf :=
  if pptr cb <? epptr cb then (true, put cb c) else overflow cb c.

Definition sbumpc (cb : circularbuf) : option Z * circularbuf :=
  if gptr cb <? egptr cb then (Some (peek cb), setg cb (gptr cb + 1) (egptr cb))
  else match underflow cb with
       | (Some c, cb) => (Some c, setg cb (gptr cb + 1) (egptr cb))
       | r => r
       end.

(** [seekpos(pos,in)]; -1 is a failure. *)
Definition seekpos (cb : circularbuf) (pos : Z) : Z * circularbuf :=
  let p := ppos cb in
  let g := Z.land pos (size_mask_ cb) in
  if ((begin_ cb <=? p) && ((begin_ cb <=? g) && (g <=? p))) || ((p <? begin_ cb) && ((begin_ cb <=? g) || (g <=? p)))
  then (g, if g <=? p then setg cb g p else setg cb g (buf_size_ cb))
  else (-1, cb).

(** [seekoff(off,way,in)]: from the oldest byte, the next one to read or the end *)
Inductive seekdir : Type := beg | cur | end_.

Definition seekoff (cb : circularbuf) (off : Z) (way : seekdir) : Z * circularbuf :=
  let pos :=
    match way with
    | beg => Z.land (begin_ cb + off) (size_mask_ cb)
    | cur => Z.land (gptr cb + off) (size_mask_ cb)
    | end_ => Z.land (pptr cb + off) (size_mask_ cb)
    end in
  seekpos cb pos.

(** The call of [CWalleveCircularStream::Rewind] *)
Definition seek_begin (cb : circularbuf) : Z * circularbuf := seekoff cb 0 beg.

(** The bytes that can be read *)
Definition showmanyc (cb : circularbuf) : Z := Z.land (pptr cb - gptr cb) (size_mask_ cb).

(** [sputn] stops at the first character that does not fit. *)
Fixpoint sputn (cb : circularbuf) (s : list Z) : bool * circularbuf :=
  match s with
  | [] => (true, cb)
  | c :: s => let '(b, cb) := sputc cb c in if b then sputn cb s else (false, cb)
  end.

(** Up to [n] bytes, and the buffer after them *)
Fixpoint sgetn (n : nat) (cb : circularbuf) : list Z * circularbuf :=
  match n with
  | O => ([], cb)
  | S n =>
      match sbumpc cb with
      | (Some c, cb) => let '(s, cb) := sgetn n cb in (c :: s, cb)
      | (None, cb) => ([], cb)
      end
  end.

(** ** Specification *)

(** The byte at offset [i] of the ring *)
Definition at_ (cb : circularbuf) (i : Z) : Z := nth (Z.to_nat (i mod buf_size_ cb)) (buffer_ cb) 0.

(** The bytes of [l] lie in the ring from [from] on. *)
Definition slice (cb : circularbuf) (from : Z) (l : list Z) : Prop :=
  forall i c, l !! i = Some c -> at_ cb (from + Z.of_nat i) = c.

(** The ring keeps the bytes [l]; the put area lies in the free part. *)
Record holds (cb : circularbuf) (l : list Z) : Prop := {
  h_pow : exists k, 0 <= k /\ buf_size_ cb = 2 ^ k;
  h_min : 2 <= buf_size_ cb;
  h_len : Z.of_nat (length (buffer_ cb)) = buf_size_ cb;
  h_begin : 0 <= begin_ cb < buf_size_ cb;
  h_put : 0 <= pptr cb <= epptr cb /\ epptr cb <= buf_size_ cb;
  h_size : (pptr cb - begin_ cb) mod buf_size_ cb = Z.of_nat (length l);
  h_free : Z.of_nat (length l) + (epptr cb - pptr cb) <= buf_size_ cb - 1;
  h_slice : slice cb (begin_ cb) l;
}.

(** The bytes left to read are [l], the end of what is kept. *)
Record reads (cb : circularbuf) (l : list Z) : Prop := {
  r_get : 0 <= gptr cb <= egptr cb /\ egptr cb <= buf_size_ cb;
  r_size : (pptr cb - gptr cb) mod buf_size_ cb = Z.of_nat (length l);
  r_area : egptr cb - gptr cb <= Z.of_nat (length l);
  r_slice : slice cb (gptr cb) l;
}.

(** ** Arithmetic in the ring *)

Lemma land_mask cb l x : holds cb l -> Z.land x (size_mask_ cb) = x mod buf_size_ cb.
Proof.
  intros [(k & Hk & E) _ _ _ _ _ _ _]. unfold size_mask_. rewrite E.
  replace (2 ^ k - 1) with (Z.ones k) by (rewrite Z.ones_equiv; lia). by apply Z.land_ones.
Qed.

Lemma ring_mod n x : 0 < n -> - n <= x < 2 * n ->
  x mod n = if x <? 0 then x + n else if x <? n then x else x - n.
Proof.
  intros Hn Hx. destruct (Z.ltb_spec x 0); [|destruct (Z.ltb_spec x n)].
  - rewrite <- (Z.mod_add x 1 n), Z.mod_small by lia. lia.
  - apply Z.mod_small. lia.
  - rewrite <- (Z.mod_add x (-1) n), Z.mod_small by lia. lia.
Qed.

(** Case analysis on all comparisons *)
Ltac ring_cases :=
  repeat match goal with
  | H : context [?a <? ?b] |- _ => destruct (Z.ltb_spec a b)
  | |- context [?a <? ?b] => destruct (Z.ltb_spec a b)
  | |- context [?a <=? ?b] => destruct (Z.leb_spec a b)
  | |- context [?a =? ?b] => destruct (Z.eqb_spec a b)
  end; cbn [andb orb] in *; try lia.

(** An offset of the ring is determined by its distance from another. *)
Lemma ring_distance n a b d : 0 < n -> (a - b) mod n = d -> a mod n = (b + d) mod n.
Proof. intros Hn <-. rewrite Z.add_mod_idemp_r by lia. f_equal. lia. Qed.

Lemma ring_distance_unique n a b i : 0 < n -> 0 <= i < n -> a mod n = (b + i) mod n -> (a - b) mod n = i.
Proof.
  intros Hn Hi E. rewrite <- Zminus_mod_idemp_l, E, Zminus_mod_idemp_l.
  replace (b + i - b) with i by lia. by apply Z.mod_small.
Qed.

(** ** Writing *)

Lemma put_holds cb l c :
  (exists k, 0 <= k /\ buf_size_ cb = 2 ^ k) -> 2 <= buf_size_ cb -> Z.of_nat (length (buffer_ cb)) = buf_size_ cb ->
  0 <= begin_ cb < buf_size_ cb -> 0 <= pptr cb < epptr cb -> epptr cb <= buf_size_ cb ->
  (pptr cb - begin_ cb) mod buf_size_ cb = Z.of_nat (length l) ->
  Z.of_nat (length l) + (epptr cb - pptr cb) <= buf_size_ cb - 1 ->
  slice cb (begin_ cb) l -> holds (put cb c) (l ++ [c]).
Proof.
  intros Hk Hm Hl Hb Hp He Hs Hf Hsl.
  assert (Ep : pptr cb mod buf_size_ cb = pptr cb) by (apply Z.mod_small; lia).
  apply ring_distance in Hs as Ed; [|lia]. rewrite Ep in Ed.
  split; cbn [put buf_size_ buffer_ begin_ pptr epptr]; rewrite ?length_insert, ?length_app; cbn [length]; [done|done|done|done|lia| |lia|].
  - replace (pptr cb + 1 - begin_ cb) with (pptr cb - begin_ cb + 1) by lia.
    rewrite <- Z.add_mod_idemp_l, Hs, Z.mod_small by lia. lia.
  - intros i d Hi. unfold at_. cbn [put buf_size_ buffer_].
    apply lookup_app_Some in Hi as [Hi|[Hge Hi]].
    + apply lookup_lt_Some in Hi as Hlt.
      rewrite <- (Hsl i d Hi). unfold at_. rewrite !nth_lookup, list_lookup_insert_ne; [done|].
      intros E. apply Z2Nat.inj in E; [|lia|apply Z.mod_pos_bound; lia].
      assert (Hd : (pptr cb - begin_ cb) mod buf_size_ cb = Z.of_nat i).
      { apply ring_distance_unique; [lia|lia|congruence]. }
      lia.
    + apply list_lookup_singleton_Some in Hi as [E <-].
      replace (Z.of_nat i) with (Z.of_nat (length l)) by lia. rewrite <- Ed, nth_lookup.
      rewrite list_lookup_insert_eq; [done|lia].
Qed.

Lemma ppos_range cb l : holds cb l -> 0 <= pptr cb mod buf_size_ cb < buf_size_ cb.
Proof. intros H. apply Z.mod_pos_bound. pose proof (h_min _ _ H). lia. Qed.

Lemma sputc_spec cb l c :
  holds cb l -> Z.of_nat (length l) < buf_size_ cb - 1 ->
  exists cb', sputc cb c = (true, cb') /\ holds cb' (l ++ [c]) /\ begin_ cb' = begin_ cb /\ buf_size_ cb' = buf_size_ cb.
Proof.
  intros H Hl. pose proof (ppos_range _ _ H) as Hpr. unfold sputc. destruct (Z.ltb_spec (pptr cb) (epptr cb)).
  - exists (put cb c). split; [done|]. split; [|done]. apply put_holds; try apply H. split; [apply H|done].
  - unfold overflow. cbv zeta. unfold ppos. rewrite !(land_mask _ _ _ H).
    pose proof (h_min _ _ H) as Hm. pose proof (h_begin _ _ H) as Hb. pose proof (h_size _ _ H) as Hs.
    set (N := buf_size_ cb) in *. set (p := pptr cb mod N) in *.
    assert (Hps : (p - begin_ cb) mod N = Z.of_nat (length l)).
    { unfold p. by rewrite Zminus_mod_idemp_l. }
    rewrite (ring_mod N (p - begin_ cb)) in Hps by lia. rewrite (ring_mod N (begin_ cb - 1)) by lia.
    ring_cases; (eexists; split; [reflexivity|]; split; [|done]);
      apply put_holds; cbn [set_put buf_size_ buffer_ begin_ pptr epptr]; fold N; try apply H; try lia;
      rewrite ring_mod by lia; ring_cases.
Qed.

Lemma sputc_full cb l c : holds cb l -> Z.of_nat (length l) = buf_size_ cb - 1 -> sputc cb c = (false, cb).
Proof.
  intros H Hl. pose proof (ppos_range _ _ H) as Hpr. pose proof (h_free _ _ H). pose proof (h_put _ _ H).
  pose proof (h_min _ _ H) as Hm. pose proof (h_begin _ _ H) as Hb. pose proof (h_size _ _ H) as Hs.
  unfold sputc, overflow. cbv zeta. unfold ppos. rewrite !(land_mask _ _ _ H).
  rewrite <- Zminus_mod_idemp_l in Hs. set (N := buf_size_ cb) in *. set (p := pptr cb mod N) in *.
  rewrite (ring_mod N (p - begin_ cb)) in Hs by lia. rewrite (ring_mod N (begin_ cb - 1)) by lia. ring_cases; done.
Qed.

Lemma sputn_spec s cb l :
  holds cb l -> Z.of_nat (length l + length s) <= buf_size_ cb - 1 ->
  exists cb', sputn cb s = (true, cb') /\ holds cb' (l ++ s) /\ begin_ cb' = begin_ cb /\ buf_size_ cb' = buf_size_ cb.
Proof.
  revert cb l. induction s as [|c s IH]; intros cb l H Hl; cbn [sputn].
  - exists cb. by rewrite app_nil_r.
  - cbn [length] in Hl. destruct (sputc_spec cb l c H) as (cb1 & -> & H1 & Eb & En); [lia|].
    destruct (IH cb1 (l ++ [c]) H1) as (cb2 & -> & H2 & Eb2 & En2); [rewrite length_app; cbn; lia|].
    exists cb2. rewrite <- app_assoc in H2. split; [done|]. split; [done|]. split; congruence.
Qed.

(** ** Sizes *)

Lemma size_spec cb l : holds cb l -> size cb = Z.of_nat (length l).
Proof. intros H. unfold size. rewrite (land_mask _ _ _ H). apply H. Qed.

Lemma freespace_spec cb l : holds cb l -> freespace cb = buf_size_ cb - 1 - Z.of_nat (length l).
Proof. intros H. unfold freespace. rewrite (size_spec _ _ H). lia. Qed.

Lemma putpos_spec cb l : holds cb l -> putpos cb = (begin_ cb + Z.of_nat (length l)) mod buf_size_ cb.
Proof.
  intros H. unfold putpos. rewrite (land_mask _ _ _ H). apply ring_distance; [|apply H].
  pose proof (h_min _ _ H). lia.
Qed.

Lemma holds_length cb l : holds cb l -> Z.of_nat (length l) < buf_size_ cb.
Proof. intros H. rewrite <- (h_size _ _ H). apply Z.mod_pos_bound. pose proof (h_min _ _ H). lia. Qed.

(** ** Giving up bytes *)

Lemma holds_setg cb l g e : holds cb l -> holds (setg cb g e) l.
Proof. intros []. by split. Qed.

Lemma slice_drop cb from l n : slice cb from l -> slice cb (from + Z.of_nat n) (drop n l).
Proof. intros H i c. rewrite lookup_drop. intros E. rewrite <- (H _ _ E). f_equal. lia. Qed.

Lemma slice_mod cb from l : 0 < buf_size_ cb -> slice cb from l -> slice cb (from mod buf_size_ cb) l.
Proof.
  intros Hn H i c E. rewrite <- (H i c E). unfold at_. by rewrite Z.add_mod_idemp_l by lia.
Qed.

Lemma set_begin_holds cb l n :
  holds cb l -> (n <= length l)%nat -> holds (set_begin cb ((begin_ cb + Z.of_nat n) mod buf_size_ cb)) (drop n l).
Proof.
  intros H Hn. pose proof (h_min _ _ H) as Hm. pose proof (holds_length _ _ H) as Hl. pose proof (h_free _ _ H) as Hf.
  split; cbn [set_begin buf_size_ buffer_ begin_ pptr epptr]; try apply H; rewrite ?length_drop.
  - apply Z.mod_pos_bound. lia.
  - rewrite Zminus_mod_idemp_r. replace (pptr cb - (begin_ cb + Z.of_nat n)) with (pptr cb - begin_ cb - Z.of_nat n) by lia.
    rewrite <- Zminus_mod_idemp_l, (h_size _ _ H), Z.mod_small by lia. lia.
  - lia.
  - change (slice cb ((begin_ cb + Z.of_nat n) mod buf_size_ cb) (drop n l)).
    apply slice_mod; [lia|]. by apply slice_drop, H.
Qed.

Lemma consume_spec cb l n :
  holds cb l -> 0 <= n ->
  holds (consume cb n) (drop (Z.to_nat n) l) /\ buf_size_ (consume cb n) = buf_size_ cb /\
  (n <= Z.of_nat (length l) -> begin_ (consume cb n) = (begin_ cb + n) mod buf_size_ cb).
Proof.
  intros H Hn. unfold consume. cbv zeta. rewrite (size_spec _ _ H). unfold ppos. rewrite !(land_mask _ _ _ H).
  set (b := if Z.of_nat (length l) <=? n then _ else _).
  assert (Hb : holds (set_begin cb b) (drop (Z.to_nat n) l)).
  { subst b. destruct (Z.leb_spec (Z.of_nat (length l)) n).
    - rewrite drop_ge by lia. rewrite <- (drop_all l).
      replace (pptr cb mod buf_size_ cb) with ((begin_ cb + Z.of_nat (length l)) mod buf_size_ cb); [by apply set_begin_holds|].
      rewrite <- (putpos_spec _ _ H). unfold putpos. by rewrite (land_mask _ _ _ H).
    - replace n with (Z.of_nat (Z.to_nat n)) at 1 by lia. apply set_begin_holds; [done|lia]. }
  assert (Eb : n <= Z.of_nat (length l) -> b = (begin_ cb + n) mod buf_size_ cb).
  { intros Hle. subst b. destruct (Z.leb_spec (Z.of_nat (length l)) n); [|done].
    replace n with (Z.of_nat (length l)) by lia. rewrite <- (putpos_spec _ _ H). unfold putpos.
    by rewrite (land_mask _ _ _ H). }
  destruct (_ || _); [destruct (b <=? _)|]; (split; [try apply holds_setg; done|]); split; try done; apply Eb.
Qed.

(** ** Reading *)

Lemma seekpos_spec cb a b :
  holds cb (a ++ b) ->
  exists cb', seekpos cb ((begin_ cb + Z.of_nat (length a)) mod buf_size_ cb) =
                ((begin_ cb + Z.of_nat (length a)) mod buf_size_ cb, cb') /\
    holds cb' (a ++ b) /\ reads cb' b /\ begin_ cb' = begin_ cb /\ buf_size_ cb' = buf_size_ cb.
Proof.
  intros H. pose proof (h_min _ _ H) as Hm. pose proof (h_begin _ _ H) as Hb. pose proof (h_size _ _ H) as Hs.
  pose proof (holds_length _ _ H) as Hl. pose proof (ppos_range _ _ H) as Hpr.
  unfold seekpos. cbv zeta. unfold ppos. rewrite !(land_mask _ _ _ H), Z.mod_mod by lia.
  rewrite length_app in Hs, Hl. rewrite <- Zminus_mod_idemp_l in Hs.
  assert (Hsl : slice cb ((begin_ cb + Z.of_nat (length a)) mod buf_size_ cb) b).
  { apply slice_mod; [lia|]. rewrite <- (drop_app_length a b). by apply slice_drop, H. }
  assert (Hlen : forall g e, g = (begin_ cb + Z.of_nat (length a)) mod buf_size_ cb ->
            0 <= g <= e -> e <= buf_size_ cb -> e - g <= Z.of_nat (length b) -> reads (setg cb g e) b).
  { intros g e -> Hg He Ha. split; cbn [setg buf_size_ gptr egptr pptr]; [done| |done|exact Hsl].
    rewrite Zminus_mod_idemp_r, <- Zminus_mod_idemp_l.
    replace (pptr cb mod buf_size_ cb - (begin_ cb + Z.of_nat (length a)))
      with (pptr cb mod buf_size_ cb - begin_ cb - Z.of_nat (length a)) by lia.
    rewrite <- Zminus_mod_idemp_l, Hs, Z.mod_small by lia. lia. }
  rewrite (ring_mod _ (pptr cb mod buf_size_ cb - begin_ cb)) in Hs by lia.
  pose proof (ring_mod (buf_size_ cb) (begin_ cb + Z.of_nat (length a)) ltac:(lia) ltac:(lia)) as Hg.
  set (N := buf_size_ cb) in *. set (p := pptr cb mod N) in *. set (g := (begin_ cb + Z.of_nat (length a)) mod N) in *.
  ring_cases; (eexists; split; [reflexivity|]; split; [by apply holds_setg|]; split; [|done]); apply Hlen; lia.
Qed.

Lemma peek_reads cb c b : 0 <= gptr cb < buf_size_ cb -> slice cb (gptr cb) (c :: b) -> peek cb = c.
Proof.
  intros Hg H. unfold peek. rewrite <- (H 0%nat c) by done. unfold at_. rewrite Z.add_0_r, Z.mod_small by done. done.
Qed.

(** Moving past a byte of the get area *)
Lemma bump_reads cb c b :
  0 < buf_size_ cb -> gptr cb < egptr cb -> Z.of_nat (S (length b)) < buf_size_ cb ->
  reads cb (c :: b) -> reads (setg cb (gptr cb + 1) (egptr cb)) b.
Proof.
  intros Hn Hlt Hl [Hg Hs Ha Hsl]. split; cbn [setg buf_size_ gptr egptr pptr] in *; [lia| |cbn in Ha; lia|].
  - replace (pptr cb - (gptr cb + 1)) with (pptr cb - gptr cb - 1) by lia.
    rewrite <- Zminus_mod_idemp_l, Hs. cbn [length] in *. rewrite Z.mod_small; lia.
  - change (slice cb (gptr cb + 1) b). apply (slice_drop _ _ _ 1) in Hsl. done.
Qed.

Lemma sbumpc_spec cb l c b :
  holds cb l -> reads cb (c :: b) ->
  exists cb', sbumpc cb = (Some c, cb') /\ holds cb' l /\ reads cb' b /\ begin_ cb' = begin_ cb /\
    buf_size_ cb' = buf_size_ cb.
Proof.
  intros H R. pose proof (h_min _ _ H) as Hm. pose proof (r_get _ _ R) as Hg. pose proof (r_size _ _ R) as Hs.
  assert (Hl : Z.of_nat (length (c :: b)) < buf_size_ cb) by (rewrite <- Hs; apply Z.mod_pos_bound; lia).
  unfold sbumpc. destruct (Z.ltb_spec (gptr cb) (egptr cb)).
  - eexists. rewrite (peek_reads _ c b); [|lia|apply R]. split; [reflexivity|].
    split; [by apply holds_setg|]. split; [|done]. apply (bump_reads _ c); [lia|done|done|done].
  - pose proof (ppos_range _ _ H) as Hpr. unfold underflow. cbv zeta. unfold ppos, gpos. rewrite !(land_mask _ _ _ H).
    assert (Hgr : 0 <= gptr cb mod buf_size_ cb < buf_size_ cb) by (apply Z.mod_pos_bound; lia).
    assert (Hsl : slice cb (gptr cb mod buf_size_ cb) (c :: b)) by (apply slice_mod; [lia|apply R]).
    rewrite <- Zminus_mod_idemp_l, <- Zminus_mod_idemp_r in Hs. pose proof Hs as Hs'.
    rewrite ring_mod in Hs by lia. set (N := buf_size_ cb) in *. set (p := pptr cb mod N) in *.
    set (g := gptr cb mod N) in *. cbn [length] in *.
    assert (G : forall e, g < e -> e <= N -> e - g <= Z.of_nat (S (length b)) ->
      exists cb', (Some (peek (setg cb g e)), setg (setg cb g e) (g + 1) e) = (Some c, cb') /\ holds cb' l /\ reads cb' b /\
        begin_ cb' = begin_ cb /\ buf_size_ cb' = N).
    { intros e H1 H2 H3. eexists. rewrite (peek_reads _ c b); [|done|exact Hsl]. split; [reflexivity|].
      split; [by apply holds_setg, holds_setg|]. split; [|done].
      apply (bump_reads (setg cb g e) c); cbn [setg buf_size_ gptr egptr]; [fold N; lia|lia|done|].
      split; cbn [setg buf_size_ gptr egptr pptr length]; fold N; [lia| |lia|exact Hsl].
      unfold p in Hs'. by rewrite Zminus_mod_idemp_l in Hs'. }
    ring_cases; [apply (G N); lia|apply (G p); lia].
Qed.

Lemma sbumpc_eof cb l : holds cb l -> reads cb [] -> sbumpc cb = (None, cb).
Proof.
  intros H R. pose proof (h_min _ _ H) as Hm. pose proof (r_get _ _ R). pose proof (r_area _ _ R) as Ha.
  pose proof (r_size _ _ R) as Hs. cbn in Ha, Hs. unfold sbumpc, underflow. cbv zeta. unfold ppos, gpos.
  rewrite !(land_mask _ _ _ H). rewrite (proj2 (Z.ltb_ge (gptr cb) (egptr cb))) by lia.
  apply ring_distance in Hs; [|lia]. rewrite Z.add_0_r in Hs. rewrite Hs, Z.ltb_irrefl. done.
Qed.

Lemma sgetn_spec n cb l b :
  holds cb l -> reads cb b ->
  exists cb', sgetn n cb = (take n b, cb') /\ holds cb' l /\ reads cb' (drop n b) /\ begin_ cb' = begin_ cb /\
    buf_size_ cb' = buf_size_ cb.
Proof.
  revert cb b. induction n as [|n IH]; intros cb b H R; cbn [sgetn].
  - exists cb. done.
  - destruct b as [|c b].
    + rewrite (sbumpc_eof _ _ H R). exists cb. done.
    + destruct (sbumpc_spec _ _ _ _ H R) as (cb1 & -> & H1 & R1 & E1 & N1).
      destruct (IH _ _ H1 R1) as (cb2 & -> & H2 & R2 & E2 & N2). exists cb2. cbn.
      split; [done|]. split; [done|]. split; [done|]. split; congruence.
Qed.

Lemma showmanyc_spec cb l b : holds cb l -> reads cb b -> showmanyc cb = Z.of_nat (length b).
Proof. intros H R. unfold showmanyc. rewrite (land_mask _ _ _ H). apply R. Qed.

(** ** Construction *)

Lemma grow_pow fuel n m k : n = 2 ^ k -> 3 <= k -> exists k', grow fuel n m = 2 ^ k' /\ 3 <= k'.
Proof.
  revert n k. induction fuel as [|fuel IH]; intros n k E Hk; cbn [grow]; [by exists k|].
  destruct (n <? m); [|by exists k]. apply (IH _ (k + 1)); [|lia].
  rewrite Z.shiftl_mul_pow2, E, <- Z.pow_add_r by lia. done.
Qed.

Lemma grow_ge fuel n m : 0 < n -> m <= n * 2 ^ Z.of_nat fuel -> m <= grow fuel n m.
Proof.
  revert n. induction fuel as [|fuel IH]; intros n Hn Hm; cbn [grow]; [cbn in Hm; lia|].
  destruct (Z.ltb_spec n m); [|done]. rewrite Z.shiftl_mul_pow2 by lia. apply IH; [lia|].
  rewrite Nat2Z.inj_succ, Z.pow_succ_r in Hm by lia. lia.
Qed.

Lemma init_holds max : 0 <= max < 2 ^ 64 -> holds (init max) [] /\ max <= buf_size_ (init max).
Proof.
  intros Hm. unfold init. cbv zeta. destruct (grow_pow 64 MIN_SIZE max 3 eq_refl ltac:(lia)) as (k & E & Hk).
  assert (8 <= 2 ^ k) by (change 8 with (2 ^ 3); apply Z.pow_le_mono_r; lia).
  split.
  - rewrite E. split; cbn [buf_size_ buffer_ begin_ pptr epptr length]; try lia.
    + exists k. split; [lia|done].
    + rewrite length_replicate. lia.
    + rewrite Z.sub_diag. apply Z.mod_0_l. lia.
    + intros i c. by rewrite lookup_nil.
  - cbn [buf_size_]. apply grow_ge; [done|]. unfold MIN_SIZE. lia.
Qed.

(** the circular stream is a bounded queue of bytes.  A stream made for a
    size starts empty and has room for it (less one byte); when the ring keeps the
    bytes [l] it reports its size and its free space, takes what fits and refuses
    a byte when it is full, gives up its oldest bytes, and read from any position
    inside what it keeps it returns the bytes from there on in order, across the
    end of the ring. *)
Theorem circular_refines :
  (forall max, 0 <= max < 2 ^ 64 -> holds (init max) [] /\ max <= buf_size_ (init max)) /\
  (forall cb l, holds cb l ->
     size cb = Z.of_nat (length l) /\ freespace cb = buf_size_ cb - 1 - Z.of_nat (length l) /\
     (forall s, Z.of_nat (length l + length s) <= buf_size_ cb - 1 ->
        exists cb', sputn cb s = (true, cb') /\ holds cb' (l ++ s)) /\
     (forall c, Z.of_nat (length l) = buf_size_ cb - 1 -> sputc cb c = (false, cb)) /\
     (forall n, 0 <= n -> holds (consume cb n) (drop (Z.to_nat n) l)) /\
     (forall a b n, l = a ++ b ->
        exists pos cb' cb'', seekpos cb ((begin_ cb + Z.of_nat (length a)) mod buf_size_ cb) = (pos, cb') /\ 0 <= pos /\
          sgetn n cb' = (take n b, cb'') /\ holds cb'' l)).
Proof.
  split; [exact init_holds|]. intros cb l H. split; [by apply size_spec|]. split; [by apply freespace_spec|].
  split; [|split; [|split]].
  - intros s Hs. destruct (sputn_spec s cb l H Hs) as (cb' & E & H' & _). eauto.
  - intros c. by apply sputc_full.
  - intros n Hn. by apply consume_spec.
  - intros a b n ->. destruct (seekpos_spec _ _ _ H) as (cb' & E & H' & R & _).
    destruct (sgetn_spec n _ _ _ H' R) as (cb'' & E' & H'' & _).
    eexists _, cb', cb''. split; [exact E|]. split; [apply Z.mod_pos_bound; pose proof (h_min _ _ H); lia|]. done.
Qed.

(** ** Bytes across the end of a ring of eight *)

Definition sample_ring : circularbuf :=
  (sputn (consume (sputn (init 8) [1; 2; 3; 4; 5; 6]).2 4) [7; 8; 9; 10]).2.

Lemma circular_refines_witness :
  holds sample_ring [5; 6; 7; 8; 9; 10] /\ pptr sample_ring = 2 /\
  (sgetn 4 (seekpos sample_ring 5).2).1 = [6; 7; 8; 9] /\
  exists pos cb' cb'', seekpos sample_ring 5 = (pos, cb') /\ 0 <= pos /\ sgetn 4 cb' = ([6; 7; 8; 9], cb'') /\
    holds cb'' [5; 6; 7; 8; 9; 10].
Proof.
  destruct circular_refines as [Hi Hr].
  assert (H : holds sample_ring [5; 6; 7; 8; 9; 10]).
  { destruct (Hi 8) as [H0 _]; [lia|].
    destruct (Hr _ _ H0) as (_ & _ & Hp & _).
    destruct (Hp [1; 2; 3; 4; 5; 6]) as (cb1 & E1 & H1); [vm_compute; discriminate|].
    destruct (Hr _ _ H1) as (_ & _ & _ & _ & Hc & _). pose proof (Hc 4 ltac:(lia)) as H2.
    destruct (Hr _ _ H2) as (_ & _ & Hp2 & _).
    vm_compute in E1. injection E1 as <-.
    destruct (Hp2 [7; 8; 9; 10]) as (cb2 & E2 & H3); [vm_compute; discriminate|].
    vm_compute in E2. injection E2 as <-. exact H3. }
  split; [exact H|]. split; [vm_compute; reflexivity|]. split; [vm_compute; reflexivity|].
  destruct (Hr _ _ H) as (_ & _ & _ & _ & _ & Hg). exact (Hg [5] [6; 7; 8; 9; 10] 4%nat eq_refl).
Defined.

End Circular.
