(* ===== verification/TimeSeries.v ===== *)
(** * Time series files (src/storage/timeseries.h, timeseries.cpp)

    The block store keeps its objects one after the other in numbered files,
    each behind a magic number and its size, and refers to them by file and
    offset ([CDiskPos]).  [CTimeSeriesCached] puts a cache before the files: a
    circular stream of the objects used last and a map from disk positions to
    positions in the stream.  [CTimeSeriesChunk] writes batches and has no cache.

    A file is the list of its bytes; writing to a file is taken to succeed.
    The streams of the program do not throw, so a load that runs into the end
    leaves the object in a state the caller did not ask for: it is the argument
    [left] of the definitions that read.  [None] as a result is a call that does
    not return.

    [stored ts ty] says that the files hold, at every position of [ty], the
    bytes [ty] maps it to and that the cache agrees; the theorems show that writing
    extends [ty] at a new position, and that reading returns what was written,
    whatever was evicted. *)

From S2P Require Import Prelude Stream Circular.

Import CWalleveStream.

Record CDiskPos : Type := mkDiskPos { dp_nFile : Z; dp_nOffset : Z }.

#[export] Instance CDiskPos_eq_dec : EqDecision CDiskPos.
Proof. solve_decision. Defined.

#[export] Instance CDiskPos_countable : Countable CDiskPos.
Proof.
  apply (inj_countable' (fun p => (dp_nFile p, dp_nOffset p)) (fun p => mkDiskPos p.1 p.2)). by intros [].
Defined.

(** [CWalleveCircularStream]: the buffer and whether the stream is good *)
Record CircularStream : Type := mkStream { cs_buf : circularbuf; cs_good : bool }.

Record CTimeSeriesBase : Type := mkTimeSeries { ts_nLastFile : Z; ts_files : gmap Z (list Z) }.

Record CTimeSeriesCached : Type := mkCached {
  tc_base : CTimeSeriesBase;
  tc_cacheStream : CircularStream;
  tc_mapCachePos : gmap CDiskPos Z;
}.

Module TimeSeries.

Definition diskpos_codec : codec CDiskPos :=
  object_codec (fun p => (dp_nFile p, dp_nOffset p)) (fun p => mkDiskPos p.1 p.2) (uint_codec 4 ** uint_codec 4).

#[export] Instance diskpos_codec_ok : CodecOk diskpos_codec.
Proof. unfold diskpos_codec. apply _. Qed.

(** ** The circular stream *)

Definition Clear (s : CircularStream) : CircularStream :=
  mkStream (Circular.consume (cs_buf s) (Circular.size (cs_buf s))) true.

Definition GetBufFreeSpace (s : CircularStream) : Z := Circular.freespace (cs_buf s).

Definition GetWritePos (s : CircularStream) : Z := Circular.putpos (cs_buf s).

Definition Seek (s : CircularStream) (nPos : Z) : bool * CircularStream :=
  let '(pos, buf) := Circular.seekpos (cs_buf s) nPos in (0 <=? pos, mkStream buf true).

Definition Rewind (s : CircularStream) : CircularStream :=
  mkStream (Circular.seek_begin (cs_buf s)).2 true.

Definition Consume (s : CircularStream) (nSize : Z) : CircularStream :=
  mkStream (Circular.consume (cs_buf s) nSize) (cs_good s).

(** [s << t]: nothing is written when the stream is not good. *)
Definition out {T : Type} (C : codec T) (s : CircularStream) (t : T) : CircularStream :=
  if cs_good s then
    let '(b, buf) := Circular.sputn (cs_buf s) (save C t) in mkStream buf b
  else s.

(** [s >> t]: the bytes are read as far as [t] needs them. *)
Definition inp {T : Type} (C : codec T) (s : CircularStream) (left : T) : T * CircularStream :=
  if cs_good s then
    let all := (Circular.sgetn (Z.to_nat (Circular.showmanyc (cs_buf s))) (cs_buf s)).1 in
    match load C all with
    | Some (t, rest) =>
        (t, mkStream (Circular.sgetn (length all - length rest) (cs_buf s)).2 true)
    | None => (left, mkStream (Circular.sgetn (length all) (cs_buf s)).2 false)
    end
  else (left, s).

(** ** Files *)

Definition MAX_FILE_SIZE : Z := 0x7F000000.
Definition MAX_CHUNK_SIZE : Z := 0x200000.
Definition nMagicNum : Z := 0x5E33A1EF.

Definition file (ts : CTimeSeriesBase) (nFile : Z) : list Z := default [] (ts_files ts !! nFile).

Definition has_room (bytes : list Z) : bool :=
  Z.of_nat (length bytes) <? MAX_FILE_SIZE - MAX_CHUNK_SIZE - 8.

(** [GetLastFilePath]: the file is created when it is not there; false when that
    fails. *)
Fixpoint get_last_file (fuel : nat) (can_create : bool) (ts : CTimeSeriesBase) : option (bool * CTimeSeriesBase) :=
  match fuel with
  | O => None
  | S fuel =>
      let n := ts_nLastFile ts in
      match ts_files ts !! n with
      | None => if can_create then Some (true, mkTimeSeries n (<[n := []]> (ts_files ts))) else Some (false, ts)
      | Some bytes =>
          if has_room bytes then Some (true, ts)
          else get_last_file fuel can_create (mkTimeSeries (u32 (n + 1)) (ts_files ts))
      end
  end.

(** Every turn but the last finds a file. *)
Definition GetLastFilePath (can_create : bool) (ts : CTimeSeriesBase) : option (bool * CTimeSeriesBase) :=
  get_last_file (S (size (ts_files ts))) can_create ts.

(** [fs << nMagicNum << nSize; nOffset = fs.GetCurPos(); fs << t;] at the end of
    the last file *)
Definition append {T : Type} (C : codec T) (ts : CTimeSeriesBase) (t : T) : CDiskPos * CTimeSeriesBase :=
  let n := ts_nLastFile ts in
  let header := file ts n ++ save (uint_codec 4) nMagicNum ++ save (uint_codec 4) (u32 (ser_size C t)) in
  (mkDiskPos n (u32 (Z.of_nat (length header))),
   mkTimeSeries n (<[n := header ++ save C t]> (ts_files ts))).

(** [fs.Seek(nOffset); fs >> t;] *)
Definition read_file {T : Type} (C : codec T) (bytes : list Z) (nOffset : Z) (left : T) : T :=
  match load C (drop (Z.to_nat nOffset) bytes) with
  | Some (t, _) => t
  | None => left
  end.

(** ** The cache *)

Definition ResetCache (ts : CTimeSeriesCached) : CTimeSeriesCached :=
  mkCached (tc_base ts) (Clear (tc_cacheStream ts)) ∅.

Definition nHdrSize : Z := 12.

(** [VacateCache]; [diskpos] and [nSize] are what the constructor and the
    initialisation leave when there is nothing to read. *)
Fixpoint vacate (fuel : nat) (nNeeded : Z) (ts : CTimeSeriesCached) : option CTimeSeriesCached :=
  if GetBufFreeSpace (tc_cacheStream ts) <? nNeeded + nHdrSize then
    match fuel with
    | O => None
    | S fuel =>
        let s := Rewind (tc_cacheStream ts) in
        let '(diskpos, s) := inp diskpos_codec s (mkDiskPos 0 0) in
        let '(nSize, s) := inp (uint_codec 4) s 0 in
        vacate fuel nNeeded
          (mkCached (tc_base ts) (Consume s (nSize + nHdrSize)) (delete diskpos (tc_mapCachePos ts)))
    end
  else Some ts.

(** A turn erases an entry of the map. *)
Definition VacateCache (nNeeded : Z) (ts : CTimeSeriesCached) : option CTimeSeriesCached :=
  vacate (size (tc_mapCachePos ts)) nNeeded ts.

Definition WriteToCache {T : Type} (C : codec T) (ts : CTimeSeriesCached) (t : T) (diskpos : CDiskPos)
    : option CTimeSeriesCached :=
  match tc_mapCachePos ts !! diskpos with
  | Some _ => Some ts
  | None =>
      let nSize := u32 (ser_size C t) in
      ts ← VacateCache nSize ts;
      let s := out (uint_codec 4) (out diskpos_codec (tc_cacheStream ts) diskpos) nSize in
      let nPos := GetWritePos s in
      Some (mkCached (tc_base ts) (out C s t) (<[diskpos := nPos]> (tc_mapCachePos ts)))
  end.

Definition ReadFromCache {T : Type} (C : codec T) (ts : CTimeSeriesCached) (diskpos : CDiskPos) (left : T)
    : bool * T * CTimeSeriesCached :=
  match tc_mapCachePos ts !! diskpos with
  | None => (false, left, ts)
  | Some nPos =>
      let '(b, s) := Seek (tc_cacheStream ts) nPos in
      let ts := mkCached (tc_base ts) s (tc_mapCachePos ts) in
      if b then
        let '(t, s) := inp C s left in (true, t, mkCached (tc_base ts) s (tc_mapCachePos ts))
      else (false, left, ResetCache ts)
  end.

(** ** Objects in the cached files *)

Definition init (nCacheSize : Z) (files : gmap Z (list Z)) : CTimeSeriesCached :=
  mkCached (mkTimeSeries 1 files) (Clear (mkStream (Circular.init nCacheSize) true)) ∅.

Definition Write {T : Type} (C : codec T) (can_create : bool) (ts : CTimeSeriesCached) (t : T) (fWriteCache : bool)
    : option (bool * CDiskPos * CTimeSeriesCached) :=
  '(ok, base) ← GetLastFilePath can_create (tc_base ts);
  if (ok : bool) then
    let '(pos, base) := append C base t in
    let ts := mkCached base (tc_cacheStream ts) (tc_mapCachePos ts) in
    ts ← (if fWriteCache then WriteToCache C ts t pos else Some ts);
    Some (true, pos, ts)
  else Some (false, mkDiskPos 0 0, mkCached base (tc_cacheStream ts) (tc_mapCachePos ts)).

Definition Read {T : Type} (C : codec T) (ts : CTimeSeriesCached) (pos : CDiskPos) (left : T) (fWriteCache : bool)
    : option (bool * T * CTimeSeriesCached) :=
  let '(hit, t, ts) := ReadFromCache C ts pos left in
  if (hit : bool) then Some (true, t, ts)
  else
    match ts_files (tc_base ts) !! dp_nFile pos with
    | None => Some (false, left, ts)
    | Some bytes =>
        let t := read_file C bytes (dp_nOffset pos) left in
        ts ← (if fWriteCache then WriteToCache C ts t pos else Some ts);
        Some (true, t, ts)
    end.

Definition ReadDirect {T : Type} (C : codec T) (ts : CTimeSeriesCached) (pos : CDiskPos) (left : T) : bool * T :=
  match ts_files (tc_base ts) !! dp_nFile pos with
  | None => (false, left)
  | Some bytes => (true, read_file C bytes (dp_nOffset pos) left)
  end.

(** ** CTimeSeriesChunk *)

Module Chunk.

(** The inner loop of [WriteBatch]: objects are written to the file that is open
    while the offset of the last one leaves room. *)
Fixpoint write_file {T : Type} (C : codec T) (ts : CTimeSeriesBase) (vBatch : list T)
    : list CDiskPos * list T * CTimeSeriesBase :=
  match vBatch with
  | [] => ([], [], ts)
  | t :: vBatch =>
      let '(pos, ts) := append C ts t in
      if dp_nOffset pos <? MAX_FILE_SIZE - MAX_CHUNK_SIZE - 8 then
        let '(vPos, rest, ts) := write_file C ts vBatch in (pos :: vPos, rest, ts)
      else ([pos], vBatch, ts)
  end.

Fixpoint write_batch {T : Type} (C : codec T) (can_create : bool) (fuel : nat) (ts : CTimeSeriesBase) (vBatch : list T)
    : option (bool * list CDiskPos * CTimeSeriesBase) :=
  match vBatch, fuel with
  | [], _ => Some (true, [], ts)
  | _, O => None
  | _, S fuel =>
      '(ok, ts) ← GetLastFilePath can_create ts;
      if (ok : bool) then
        let '(vPos, rest, ts) := write_file C ts vBatch in
        '(b, vPos', ts) ← write_batch C can_create fuel ts rest;
        Some (b, vPos ++ vPos', ts)
      else Some (false, [], ts)
  end.

(** The positions are appended to an empty vector. *)
Definition WriteBatch {T : Type} (C : codec T) (can_create : bool) (ts : CTimeSeriesBase) (vBatch : list T)
    : option (bool * list CDiskPos * CTimeSeriesBase) :=
  write_batch C can_create (length vBatch) ts vBatch.

Definition Write {T : Type} (C : codec T) (can_create : bool) (ts : CTimeSeriesBase) (t : T)
    : option (bool * CDiskPos * CTimeSeriesBase) :=
  '(ok, ts) ← GetLastFilePath can_create ts;
  if (ok : bool) then let '(pos, ts) := append C ts t in Some (true, pos, ts) else Some (false, mkDiskPos 0 0, ts).

Definition Read {T : Type} (C : codec T) (ts : CTimeSeriesBase) (pos : CDiskPos) (left : T) : bool * T :=
  match ts_files ts !! dp_nFile pos with
  | None => (false, left)
  | Some bytes => (true, read_file C bytes (dp_nOffset pos) left)
  end.

End Chunk.

(** ** Specification *)

(** The file of [pos] has the bytes [bs] from its offset on. *)
Definition file_at (ts : CTimeSeriesBase) (pos : CDiskPos) (bs : list Z) : Prop :=
  valid diskpos_codec pos /\
  exists bytes pre post, ts_files ts !! dp_nFile pos = Some bytes /\ bytes = pre ++ bs ++ post /\
    Z.of_nat (length pre) = dp_nOffset pos.

(** The objects at the positions of [ty], in the files *)
Definition on_disk (ts : CTimeSeriesBase) (ty : gmap CDiskPos (list Z)) : Prop :=
  map_Forall (file_at ts) ty.

(** The bytes of a cache entry *)
Definition entry_bytes (e : CDiskPos * list Z) : list Z :=
  save diskpos_codec e.1 ++ save (uint_codec 4) (Z.of_nat (length e.2)) ++ e.2.

Definition entries_bytes (es : list (CDiskPos * list Z)) : list Z := flat_map entry_bytes es.

(** The position in the stream of the object after the entries [es] *)
Definition cache_pos (cb : circularbuf) (es : list (CDiskPos * list Z)) : Z :=
  (begin_ cb + Z.of_nat (length (entries_bytes es)) + nHdrSize) mod buf_size_ cb.

Definition entry_ok (ty : gmap CDiskPos (list Z)) (e : CDiskPos * list Z) : Prop :=
  ty !! e.1 = Some e.2 /\ is_uint 32 (Z.of_nat (length e.2)).

(** The cache holds the entries [es], which are objects of [ty]. *)
Record cached (ts : CTimeSeriesCached) (ty : gmap CDiskPos (list Z)) (es : list (CDiskPos * list Z)) : Prop := {
  ca_good : cs_good (tc_cacheStream ts) = true;
  ca_holds : Circular.holds (cs_buf (tc_cacheStream ts)) (entries_bytes es);
  ca_nodup : NoDup (map fst es);
  ca_ok : Forall (entry_ok ty) es;
  ca_map : forall pos p, tc_mapCachePos ts !! pos = Some p <->
             exists es1 bs es2, es = es1 ++ (pos, bs) :: es2 /\ p = cache_pos (cs_buf (tc_cacheStream ts)) es1;
}.

Record stored (ts : CTimeSeriesCached) (ty : gmap CDiskPos (list Z)) : Prop := {
  st_disk : on_disk (tc_base ts) ty;
  st_cache : exists es, cached ts ty es;
}.

(** The largest object the cache can take *)
Definition capacity (ts : CTimeSeriesCached) : Z := buf_size_ (cs_buf (tc_cacheStream ts)) - 1 - nHdrSize.

(** ** The stream *)

Definition stream_holds (s : CircularStream) (l : list Z) : Prop := cs_good s = true /\ Circular.holds (cs_buf s) l.

Lemma inp_spec {T : Type} (C : codec T) `{!CodecOk C} s l t rest (left : T) :
  stream_holds s l -> Circular.reads (cs_buf s) (save C t ++ rest) -> valid C t ->
  exists s', inp C s left = (t, s') /\ stream_holds s' l /\ Circular.reads (cs_buf s') rest /\
    begin_ (cs_buf s') = begin_ (cs_buf s) /\ buf_size_ (cs_buf s') = buf_size_ (cs_buf s).
Proof.
  intros [Hg Hh] Hr Hv. unfold inp. rewrite Hg, (Circular.showmanyc_spec _ _ _ Hh Hr), Nat2Z.id.
  destruct (Circular.sgetn_spec (length (save C t ++ rest)) _ _ _ Hh Hr) as (cb1 & E1 & _). rewrite E1. cbn [fst].
  rewrite take_ge, load_save by done.
  replace (length (save C t ++ rest) - length rest)%nat with (length (save C t)) by (rewrite length_app; lia).
  destruct (Circular.sgetn_spec (length (save C t)) _ _ _ Hh Hr) as (cb2 & E2 & H2 & R2 & B2 & N2). rewrite E2.
  rewrite drop_app_length in R2. eexists. done.
Qed.

Lemma out_spec {T : Type} (C : codec T) s l (t : T) :
  stream_holds s l -> Z.of_nat (length l + length (save C t)) <= buf_size_ (cs_buf s) - 1 ->
  stream_holds (out C s t) (l ++ save C t) /\ begin_ (cs_buf (out C s t)) = begin_ (cs_buf s) /\
  buf_size_ (cs_buf (out C s t)) = buf_size_ (cs_buf s).
Proof.
  intros [Hg Hh] Hl. unfold out. rewrite Hg.
  destruct (Circular.sputn_spec (save C t) _ _ Hh Hl) as (cb & -> & H & B & N). done.
Qed.

(** Rewinding to read everything from the oldest byte *)
Lemma Rewind_spec s l :
  Circular.holds (cs_buf s) l ->
  stream_holds (Rewind s) l /\ Circular.reads (cs_buf (Rewind s)) l /\
  begin_ (cs_buf (Rewind s)) = begin_ (cs_buf s) /\ buf_size_ (cs_buf (Rewind s)) = buf_size_ (cs_buf s).
Proof.
  intros H. unfold Rewind, Circular.seek_begin, Circular.seekoff. rewrite (Circular.land_mask _ _ _ H).
  destruct (Circular.seekpos_spec _ [] _ H) as (cb & E & H' & R & B & N). cbn [length] in E.
  change (Z.of_nat 0) with 0 in E. rewrite E. done.
Qed.

(** ** Entries *)

Lemma length_entry e : length (entry_bytes e) = (12 + length e.2)%nat.
Proof.
  unfold entry_bytes. rewrite length_app, length_app. cbn [save diskpos_codec object_codec pair_codec uint_codec fst snd].
  rewrite length_app, !length_le_split. lia.
Qed.

Lemma entries_app es1 es2 : entries_bytes (es1 ++ es2) = entries_bytes es1 ++ entries_bytes es2.
Proof. apply flat_map_app. Qed.

Lemma entries_cons e es : entries_bytes (e :: es) = entry_bytes e ++ entries_bytes es.
Proof. done. Qed.

Lemma on_disk_valid ts ty pos bs : on_disk ts ty -> ty !! pos = Some bs -> valid diskpos_codec pos.
Proof. intros H E. apply (H _ _ E). Qed.

(** The positions in the stream are those of the objects. *)
Lemma cache_pos_spec cb es1 pos bs es2 :
  Circular.holds cb (entries_bytes (es1 ++ (pos, bs) :: es2)) ->
  cache_pos cb es1 = (begin_ cb + Z.of_nat (length (entries_bytes es1 ++ take 12 (entry_bytes (pos, bs))))) mod buf_size_ cb.
Proof.
  intros _. unfold cache_pos, nHdrSize. f_equal. rewrite length_app, length_take, length_entry. lia.
Qed.

Lemma entry_split e : entry_bytes e = take 12 (entry_bytes e) ++ e.2.
Proof.
  unfold entry_bytes. rewrite app_assoc. rewrite take_app_length'; [done|].
  rewrite length_app. cbn [save diskpos_codec object_codec pair_codec uint_codec fst snd].
  rewrite length_app, !length_le_split. lia.
Qed.

Lemma cache_pos_cons cb cb' e es1 :
  0 < buf_size_ cb -> buf_size_ cb' = buf_size_ cb ->
  begin_ cb' = (begin_ cb + Z.of_nat (length (entry_bytes e))) mod buf_size_ cb ->
  cache_pos cb' es1 = cache_pos cb (e :: es1).
Proof.
  intros Hn En Eb. unfold cache_pos. rewrite En, Eb, entries_cons, length_app, <- !Z.add_assoc, Z.add_mod_idemp_l by lia.
  f_equal. lia.
Qed.

(** ** Evicting *)

(** One turn of [VacateCache] gives up the oldest entry. *)
Lemma evict_cached ts ty e es :
  on_disk (tc_base ts) ty -> cached ts ty (e :: es) ->
  exists s1 s2,
    inp diskpos_codec (Rewind (tc_cacheStream ts)) (mkDiskPos 0 0) = (e.1, s1) /\
    inp (uint_codec 4) s1 0 = (Z.of_nat (length e.2), s2) /\
    let ts' := mkCached (tc_base ts) (Consume s2 (Z.of_nat (length e.2) + nHdrSize)) (delete e.1 (tc_mapCachePos ts)) in
    cached ts' ty es /\ capacity ts' = capacity ts.
Proof.
  intros Hd [Hg Hh Hnd Hok Hm]. inversion Hok as [|? ? [Hty Hlen] Hok']; subst. cbn [map] in Hnd.
  apply NoDup_cons in Hnd as [He Hnd].
  destruct (Rewind_spec _ _ Hh) as (H0 & R0 & B0 & N0). rewrite entries_cons in H0, R0, Hh.
  unfold entry_bytes at 1 in R0. rewrite <- !app_assoc in R0.
  destruct (inp_spec diskpos_codec _ _ e.1 _ (mkDiskPos 0 0) H0 R0) as (s1 & E1 & H1 & R1 & B1 & N1);
    [by eapply on_disk_valid|].
  destruct (inp_spec (uint_codec 4) _ _ (Z.of_nat (length e.2)) _ 0 H1 R1) as (s2 & E2 & H2 & R2 & B2 & N2); [done|].
  exists s1, s2. split; [done|]. split; [done|]. cbv zeta. destruct H2 as [G2 H2].
  destruct (Circular.consume_spec _ _ (Z.of_nat (length e.2) + nHdrSize) H2) as (H3 & N3 & B3); [unfold nHdrSize; lia|].
  replace (Z.to_nat (Z.of_nat (length e.2) + nHdrSize)) with (length (entry_bytes e)) in H3
    by (rewrite length_entry; unfold nHdrSize; lia).
  rewrite drop_app_length in H3. rewrite length_app, length_entry in B3. specialize (B3 ltac:(unfold nHdrSize; lia)).
  split.
  - split; cbn [tc_base tc_cacheStream tc_mapCachePos Consume cs_buf cs_good]; [done|done|done|done|].
    assert (Ep : forall es1, cache_pos (Circular.consume (cs_buf s2) (Z.of_nat (length e.2) + nHdrSize)) es1 =
                        cache_pos (cs_buf (tc_cacheStream ts)) (e :: es1)).
    { intros es1. apply cache_pos_cons; [pose proof (Circular.h_min _ _ Hh); lia|congruence|].
      rewrite B3, length_entry. unfold nHdrSize. f_equal; [|congruence]. rewrite B2, B1, B0. lia. }
    intros pos p. rewrite lookup_delete_Some, Hm. split.
    + intros (Hne & es1 & bs & es2 & E & ->). destruct es1 as [|e' es1]; cbn in E; simplify_eq.
      exists es1, bs, es2. split; [done|]. symmetry. apply Ep.
    + intros (es1 & bs & es2 & -> & ->). split.
      * intros <-. apply He. rewrite map_app. apply elem_of_app. right. by left.
      * exists (e :: es1), bs, es2. split; [done|]. apply Ep.
  - unfold capacity. cbn [tc_cacheStream Consume cs_buf]. congruence.
Qed.

Lemma vacate_spec fuel nNeeded ts ty es :
  on_disk (tc_base ts) ty -> cached ts ty es -> (length es <= fuel)%nat -> nNeeded <= capacity ts ->
  exists ts' es', vacate fuel nNeeded ts = Some ts' /\ cached ts' ty es' /\ tc_base ts' = tc_base ts /\
    capacity ts' = capacity ts /\ es' `suffix_of` es /\
    nNeeded + nHdrSize <= GetBufFreeSpace (tc_cacheStream ts').
Proof.
  revert ts es. induction fuel as [|fuel IH]; intros ts es Hd Hc Hf Hn; cbn [vacate];
    destruct (Z.ltb_spec (GetBufFreeSpace (tc_cacheStream ts)) (nNeeded + nHdrSize)) as [Hlt|Hge];
    try (exists ts, es; split_and!; [done|done|done|done|done|lia]).
  - destruct es as [|e es]; [|cbn in Hf; lia]. unfold GetBufFreeSpace in Hlt.
    rewrite (Circular.freespace_spec _ _ (ca_holds _ _ _ Hc)) in Hlt. cbn in Hlt. unfold capacity in Hn. lia.
  - destruct es as [|e es].
    { unfold GetBufFreeSpace in Hlt. rewrite (Circular.freespace_spec _ _ (ca_holds _ _ _ Hc)) in Hlt.
      cbn in Hlt. unfold capacity in Hn. lia. }
    destruct (evict_cached _ _ _ _ Hd Hc) as (s1 & s2 & -> & -> & Hc' & Hcap).
    destruct (IH (mkCached _ _ _) es Hd Hc') as (ts' & es' & E & Hc2 & Hb & Hcap2 & Hsuf & Hfree); [cbn in Hf; lia|lia|].
    exists ts', es'. split_and!; [done|done|done|congruence| |done]. by apply suffix_cons_r.
Qed.

(** The map has an entry per object. *)
Lemma cached_size ts ty es : cached ts ty es -> (length es <= size (tc_mapCachePos ts))%nat.
Proof.
  intros Hc. rewrite <- (length_map fst es), <- (size_list_to_set (C := gset CDiskPos)) by apply Hc.
  rewrite <- (size_dom (D := gset CDiskPos)). apply subseteq_size. intros pos Hp%elem_of_list_to_set.
  apply list_elem_of_fmap in Hp as ([pos' bs] & -> & (es1 & es2 & E)%list_elem_of_split).
  apply elem_of_dom. eexists. apply (ca_map _ _ _ Hc). by exists es1, bs, es2.
Qed.

(** ** Filling the cache *)

Lemma cached_mono ts ty ty' es base :
  cached ts ty es -> ty ⊆ ty' -> cached (mkCached base (tc_cacheStream ts) (tc_mapCachePos ts)) ty' es.
Proof.
  intros [Hg Hh Hnd Hok Hm] Hs. split; cbn; try done. eapply Forall_impl; [done|].
  intros e [He Hl]. split; [|done]. by eapply lookup_weaken.
Qed.

(** Writing an entry to the stream *)
Lemma out_entry {T : Type} (C : codec T) s l pos (t : T) :
  stream_holds s l -> Z.of_nat (length l + 12 + length (save C t)) <= buf_size_ (cs_buf s) - 1 ->
  let s2 := out (uint_codec 4) (out diskpos_codec s pos) (Z.of_nat (length (save C t))) in
  stream_holds (out C s2 t) (l ++ entry_bytes (pos, save C t)) /\
  begin_ (cs_buf (out C s2 t)) = begin_ (cs_buf s) /\ buf_size_ (cs_buf (out C s2 t)) = buf_size_ (cs_buf s) /\
  GetWritePos s2 = (begin_ (cs_buf s) + Z.of_nat (length l) + nHdrSize) mod buf_size_ (cs_buf s).
Proof.
  intros Hs Hl. cbv zeta. set (n := Z.of_nat (length (save C t))) in *.
  assert (L1 : length (save diskpos_codec pos) = 8%nat).
  { cbn [save diskpos_codec object_codec pair_codec uint_codec]. by rewrite length_app, !length_le_split. }
  assert (L2 : length (save (uint_codec 4) n) = 4%nat) by (cbn; done).
  destruct (out_spec diskpos_codec s l pos Hs) as (H1 & B1 & N1); [lia|].
  destruct (out_spec (uint_codec 4) _ _ n H1) as (H2 & B2 & N2); [rewrite length_app; lia|].
  destruct (out_spec C _ _ t H2) as (H3 & B3 & N3); [rewrite !length_app; lia|].
  split; [unfold entry_bytes; rewrite !app_assoc; done|]. split; [congruence|]. split; [congruence|].
  unfold GetWritePos. rewrite (Circular.putpos_spec _ _ (proj2 H2)), B2, B1, N2, N1. unfold nHdrSize. f_equal.
  rewrite !length_app. lia.
Qed.

Lemma cached_snoc ts ty es s pos bs :
  cached ts ty es -> pos ∉ map fst es -> entry_ok ty (pos, bs) ->
  stream_holds s (entries_bytes es ++ entry_bytes (pos, bs)) ->
  begin_ (cs_buf s) = begin_ (cs_buf (tc_cacheStream ts)) -> buf_size_ (cs_buf s) = buf_size_ (cs_buf (tc_cacheStream ts)) ->
  cached (mkCached (tc_base ts) s (<[pos := cache_pos (cs_buf (tc_cacheStream ts)) es]> (tc_mapCachePos ts))) ty
    (es ++ [(pos, bs)]).
Proof.
  intros [Hg Hh Hnd Hok Hm] Hnew Hbs [G3 H3] B N.
  assert (Epos : forall es0, cache_pos (cs_buf s) es0 = cache_pos (cs_buf (tc_cacheStream ts)) es0).
  { intros es0. unfold cache_pos. by rewrite B, N. }
  split; cbn [tc_cacheStream tc_mapCachePos]; [done|by rewrite entries_app, entries_cons, app_nil_r| | |].
  - rewrite map_app. apply NoDup_app. split; [done|]. split; [|apply NoDup_singleton].
    intros x Hx ->%list_elem_of_singleton. done.
  - apply Forall_app. split; [done|]. by apply Forall_singleton.
  - intros pos' p. rewrite lookup_insert_Some, Hm. split.
    + intros [[<- <-]|(Hne & ea & bs' & eb & -> & ->)].
      * exists es, bs, []. split; [done|]. by rewrite Epos.
      * exists ea, bs', (eb ++ [(pos, bs)]). split; [by rewrite <- app_assoc|]. by rewrite Epos.
    + intros (ea & bs' & eb & E & ->). destruct eb as [|e eb _] using rev_ind.
      * apply app_inj_tail in E as [<- [= <- <-]]. left. split; [done|]. by rewrite Epos.
      * rewrite app_comm_cons, app_assoc in E. apply app_inj_tail in E as [-> <-]. right. split.
        -- intros <-. apply Hnew. rewrite map_app. apply elem_of_app. right. by left.
        -- exists ea, bs', eb. split; [done|]. by rewrite Epos.
Qed.

Lemma WriteToCache_spec {T : Type} (C : codec T) `{!CodecOk C} ts ty (t : T) pos :
  on_disk (tc_base ts) ty -> (exists es, cached ts ty es) -> ty !! pos = Some (save C t) -> valid C t ->
  is_uint 32 (Z.of_nat (length (save C t))) -> Z.of_nat (length (save C t)) <= capacity ts ->
  exists ts', WriteToCache C ts t pos = Some ts' /\ tc_base ts' = tc_base ts /\ capacity ts' = capacity ts /\
    exists es, cached ts' ty es.
Proof.
  intros Hd [es Hc] Hty Hv Hu Hcap. unfold WriteToCache.
  destruct (tc_mapCachePos ts !! pos) as [p|] eqn:Ep; [by exists ts; eauto|].
  rewrite size_save, wrap_small by done. unfold VacateCache.
  destruct (vacate_spec (size (tc_mapCachePos ts)) _ ts ty es Hd Hc (cached_size _ _ _ Hc) Hcap)
    as (ts1 & es1 & E1 & Hc1 & Hb1 & Hcap1 & Hsuf & Hfree).
  rewrite E1. cbn [mbind option_bind]. unfold GetBufFreeSpace in Hfree.
  rewrite (Circular.freespace_spec _ _ (ca_holds _ _ _ Hc1)) in Hfree. unfold nHdrSize in Hfree.
  destruct (out_entry C (tc_cacheStream ts1) (entries_bytes es1) pos t) as (H3 & B3 & N3 & P3);
    [split; apply Hc1|lia|]. cbv zeta in *. rewrite P3.
  eexists. split; [done|]. split; [done|]. split; [unfold capacity in *; cbn [tc_cacheStream]; lia|].
  eexists. apply (cached_snoc ts1 ty es1); [done| |done|done|done|done].
  intros ([pos' bs] & -> & (a & b & E)%list_elem_of_split)%list_elem_of_fmap. destruct Hsuf as [pre ->].
  assert (Hs : tc_mapCachePos ts !! pos' = Some (cache_pos (cs_buf (tc_cacheStream ts)) (pre ++ a))).
  { apply (ca_map _ _ _ Hc). exists (pre ++ a), bs, b. rewrite E. by rewrite <- app_assoc. }
  cbn in Ep. congruence.
Qed.

(** ** Reading the cache *)

Lemma cached_stream ts ty es s :
  cached ts ty es -> stream_holds s (entries_bytes es) ->
  begin_ (cs_buf s) = begin_ (cs_buf (tc_cacheStream ts)) -> buf_size_ (cs_buf s) = buf_size_ (cs_buf (tc_cacheStream ts)) ->
  cached (mkCached (tc_base ts) s (tc_mapCachePos ts)) ty es.
Proof.
  intros [Hg Hh Hnd Hok Hm] [G H] B N. split; cbn [tc_cacheStream tc_mapCachePos]; [done|done|done|done|].
  intros pos p. rewrite Hm. unfold cache_pos. by rewrite B, N.
Qed.

Lemma ReadFromCache_spec {T : Type} (C : codec T) `{!CodecOk C} ts ty es pos (t left : T) tail :
  cached ts ty es -> ty !! pos = Some (save C t ++ tail) -> valid C t ->
  ReadFromCache C ts pos left = (false, left, ts) \/
  exists ts', ReadFromCache C ts pos left = (true, t, ts') /\ tc_base ts' = tc_base ts /\ capacity ts' = capacity ts /\
    cached ts' ty es.
Proof.
  intros Hc Hty Hv. unfold ReadFromCache.
  destruct (tc_mapCachePos ts !! pos) as [p|] eqn:Ep; [|by left]. right.
  apply (ca_map _ _ _ Hc) in Ep as (es1 & bs & es2 & E & ->).
  assert (bs = save C t ++ tail) as ->.
  { pose proof (ca_ok _ _ _ Hc) as Hok. rewrite E in Hok. apply Forall_app in Hok as [_ Hok].
    inversion Hok as [|? ? [Hty' _] _]; subst. cbn in Hty'. congruence. }
  pose proof (ca_holds _ _ _ Hc) as Hh. rewrite E in Hh. rewrite (cache_pos_spec _ _ _ _ _ Hh).
  rewrite entries_app, entries_cons, entry_split in Hh. cbn [snd] in Hh.
  rewrite <- !app_assoc, (app_assoc (entries_bytes es1)) in Hh.
  destruct (Circular.seekpos_spec _ _ _ Hh) as (cb & Es & H1 & R1 & B1 & N1). unfold Seek. rewrite Es.
  rewrite (proj2 (Z.leb_le 0 _)) by (apply Z.mod_pos_bound; pose proof (Circular.h_min _ _ Hh); lia).
  cbn [tc_base tc_mapCachePos].
  destruct (inp_spec C (mkStream cb true) _ t _ left (conj eq_refl H1) R1 Hv) as (s' & -> & H2 & _ & B2 & N2).
  eexists. split; [done|]. split; [done|]. cbn in B2, N2. split; [unfold capacity; cbn [tc_cacheStream]; congruence|].
  apply cached_stream; [done| |congruence|congruence].
  rewrite E, entries_app, entries_cons, entry_split. cbn [snd]. by rewrite <- !app_assoc, (app_assoc (entries_bytes es1)).
Qed.

(** ** Files *)

(** The files have numbers up to [k]. *)
Definition files_ok (k : Z) (ts : CTimeSeriesBase) : Prop :=
  0 <= ts_nLastFile ts <= k /\ forall n, is_Some (ts_files ts !! n) -> 0 <= n <= k.

Definition files_from (ts : CTimeSeriesBase) : gset Z :=
  filter (fun n => ts_nLastFile ts <= n) (dom (ts_files ts)).

Lemma get_last_file_spec fuel k ts :
  0 <= ts_nLastFile ts <= k + 1 -> (forall n, is_Some (ts_files ts !! n) -> 0 <= n <= k) -> k + 1 < 2 ^ 32 ->
  (size (files_from ts) < fuel)%nat ->
  exists ts' bytes, get_last_file fuel true ts = Some (true, ts') /\ 0 <= ts_nLastFile ts' <= k + 1 /\
    ts_files ts' !! ts_nLastFile ts' = Some bytes /\ has_room bytes = true /\
    (ts_files ts' = ts_files ts \/ ts_files ts !! ts_nLastFile ts' = None /\
                                   ts_files ts' = <[ts_nLastFile ts' := []]> (ts_files ts)).
Proof.
  intros Hu Hn Hk. revert ts Hu Hn. induction fuel as [|fuel IH]; intros ts Hu Hn Hf; [lia|]. cbn [get_last_file].
  destruct (ts_files ts !! ts_nLastFile ts) as [bytes|] eqn:E.
  - destruct (has_room bytes) eqn:Er; [by exists ts, bytes; split_and!; auto; lia|].
    destruct (Hn (ts_nLastFile ts)) as [_ Hlt]; [by rewrite E|].
    assert (Ew : u32 (ts_nLastFile ts + 1) = ts_nLastFile ts + 1) by (apply wrap_small; split; lia).
    apply (IH (mkTimeSeries (u32 (ts_nLastFile ts + 1)) (ts_files ts))); [cbn; lia|done|].
    assert (Hsub : files_from (mkTimeSeries (u32 (ts_nLastFile ts + 1)) (ts_files ts)) ⊂ files_from ts).
    { rewrite Ew. apply strict_spec_alt. split.
      - intros n. unfold files_from. cbn. rewrite !elem_of_filter. intros [? ?]. split; [lia|done].
      - intros Eq. assert (Hin : ts_nLastFile ts ∈ files_from ts).
        { unfold files_from. apply elem_of_filter. split; [lia|]. apply elem_of_dom. by rewrite E. }
        rewrite <- Eq in Hin. unfold files_from in Hin. cbn in Hin. apply elem_of_filter in Hin as [? _]. lia. }
    apply subset_size in Hsub. lia.
  - eexists _, []. split; [done|]. cbn. rewrite lookup_insert_eq. split_and!; auto; lia.
Qed.

Lemma GetLastFilePath_spec k ts ty :
  files_ok k ts -> k + 1 < 2 ^ 32 -> on_disk ts ty ->
  exists ts' bytes, GetLastFilePath true ts = Some (true, ts') /\ files_ok (k + 1) ts' /\
    ts_files ts' !! ts_nLastFile ts' = Some bytes /\ has_room bytes = true /\ on_disk ts' ty.
Proof.
  intros [Hl Hn] Hk Hd. destruct (get_last_file_spec (S (size (ts_files ts))) k ts) as (ts' & bytes & E & Hu & Hb & Hr & Hf);
    [lia|done|done| |].
  { rewrite <- (size_dom (D := gset Z)). apply Nat.lt_succ_r, subseteq_size. unfold files_from. set_solver. }
  exists ts', bytes. split; [done|]. split; [|split; [done|split; [done|]]].
  - split; [done|]. intros n. destruct Hf as [-> | [_ ->]]; [intros H%Hn; lia|].
    destruct (decide (n = ts_nLastFile ts')) as [->|Hne]; [lia|]. rewrite lookup_insert_ne by done. intros H%Hn. lia.
  - intros pos bs Hty.
    destruct (Hd pos bs Hty) as (Hv & bytes' & pre & post & E' & Es & El). split; [done|].
    exists bytes', pre, post. split_and!; try done. destruct Hf as [-> | [Hnone ->]]; [done|].
    rewrite lookup_insert_ne; [done|]. intros Heq. rewrite Heq in Hnone. congruence.
Qed.

Lemma has_room_lt bytes : has_room bytes = true -> Z.of_nat (length bytes) < MAX_FILE_SIZE - MAX_CHUNK_SIZE - 8.
Proof. apply Z.ltb_lt. Qed.

(** Nothing is at the position or behind it in its file. *)
Definition free_from (ty : gmap CDiskPos (list Z)) (pos : CDiskPos) : Prop :=
  forall n, 0 <= n -> ty !! mkDiskPos (dp_nFile pos) (dp_nOffset pos + n) = None.

Lemma free_from_here ty pos : free_from ty pos -> ty !! pos = None.
Proof. intros H. specialize (H 0 ltac:(lia)). rewrite Z.add_0_r in H. by destruct pos. Qed.

Lemma append_spec {T : Type} (C : codec T) k ts ty (t : T) bytes :
  files_ok k ts -> k < 2 ^ 32 -> ts_files ts !! ts_nLastFile ts = Some bytes -> Z.of_nat (length bytes) + 8 < 2 ^ 32 ->
  on_disk ts ty ->
  free_from ty (append C ts t).1 /\ on_disk (append C ts t).2 (<[(append C ts t).1 := save C t]> ty) /\
  dp_nOffset (append C ts t).1 = Z.of_nat (length bytes) + 8 /\ files_ok k (append C ts t).2 /\
  ts_files (append C ts t).2 !! ts_nLastFile (append C ts t).2 = Some (file (append C ts t).2 (ts_nLastFile ts)) /\
  Z.of_nat (length (file (append C ts t).2 (ts_nLastFile ts))) = Z.of_nat (length bytes) + 8 + Z.of_nat (length (save C t)).
Proof.
  intros Hf Hk Hb Hr Hd. unfold append. cbv zeta. unfold file. rewrite Hb. cbn [default id].
  set (hdr := save (uint_codec 4) nMagicNum ++ save (uint_codec 4) (u32 (ser_size C t))).
  assert (Lh : length hdr = 8%nat) by (subst hdr; rewrite length_app; done).
  assert (El : u32 (Z.of_nat (length (bytes ++ hdr))) = Z.of_nat (length bytes) + 8).
  { rewrite length_app, Lh, wrap_small; [lia|]. split; lia. }
  rewrite El. cbn [fst snd dp_nOffset ts_files ts_nLastFile]. destruct Hf as [Hl Hn].
  split; [|split; [|split; [done|split; [|split]]]].
  - intros n Hn0. destruct (ty !! _) as [bs|] eqn:E; [|done].
    destruct (Hd _ _ E) as (_ & bytes' & pre & post & E' & -> & Ep). cbn in E', Ep. rewrite Hb in E'. simplify_eq.
    rewrite !length_app in Ep. lia.
  - apply map_Forall_insert_2.
    + split; [split; [|done]; split; cbn; [split; lia|split; lia]|].
      exists ((bytes ++ hdr) ++ save C t), (bytes ++ hdr), []. cbn [dp_nFile dp_nOffset ts_files].
      rewrite lookup_insert_eq, app_nil_r, length_app, Lh. split_and!; [done|done|lia].
    + intros pos bs Hty. destruct (Hd _ _ Hty) as (Hvp & bytes' & pre & post & E' & Es & Ep). split; [done|].
      destruct (decide (ts_nLastFile ts = dp_nFile pos)) as [Heq|Hne].
      * rewrite <- Heq, Hb in E'. simplify_eq. exists (((pre ++ bs ++ post) ++ hdr) ++ save C t), pre, (post ++ hdr ++ save C t).
        cbn [ts_files]. rewrite Heq, lookup_insert_eq, <- !app_assoc. done.
      * exists bytes', pre, post. cbn [ts_files]. rewrite lookup_insert_ne by done. done.
  - split; [done|]. cbn. intros n. destruct (decide (n = ts_nLastFile ts)) as [->|Hne]; [done|].
    rewrite lookup_insert_ne by done. apply Hn.
  - by rewrite lookup_insert_eq.
  - rewrite lookup_insert_eq. cbn [default id]. rewrite !length_app, Lh. lia.
Qed.

Lemma read_file_spec {T : Type} (C : codec T) `{!CodecOk C} ts pos (t left : T) tail :
  file_at ts pos (save C t ++ tail) -> valid C t ->
  exists bytes, ts_files ts !! dp_nFile pos = Some bytes /\ read_file C bytes (dp_nOffset pos) left = t.
Proof.
  intros (_ & bytes & pre & post & E & -> & El) Hv. exists (pre ++ (save C t ++ tail) ++ post). split; [done|].
  unfold read_file. rewrite <- El, Nat2Z.id, drop_app_length, <- app_assoc, load_save by done. done.
Qed.

Lemma stored_base ts ty base :
  stored ts ty -> on_disk base ty -> stored (mkCached base (tc_cacheStream ts) (tc_mapCachePos ts)) ty.
Proof. intros [_ [es Hc]] Hd. split; [done|]. exists es. by apply (cached_mono ts ty). Qed.

(** The object goes where nothing was, nor behind it, and well within the file. *)
Lemma Write_place {T : Type} (C : codec T) `{!CodecOk C} k ts ty (t : T) fWriteCache :
  stored ts ty -> files_ok k (tc_base ts) -> k + 1 < 2 ^ 32 -> valid C t -> is_uint 32 (Z.of_nat (length (save C t))) ->
  (fWriteCache = true -> Z.of_nat (length (save C t)) <= capacity ts) ->
  exists pos ts', Write C true ts t fWriteCache = Some (true, pos, ts') /\
    free_from ty pos /\ 0 <= dp_nOffset pos < MAX_FILE_SIZE /\
    stored ts' (<[pos := save C t]> ty) /\ capacity ts' = capacity ts /\ files_ok (k + 1) (tc_base ts').
Proof.
  intros [Hd [es Hc]] Hf Hk Hv Hu Hcap. unfold Write.
  destruct (GetLastFilePath_spec k _ _ Hf Hk Hd) as (b1 & bytes & -> & Hf1 & Hb1 & Hr1 & Hd1). cbn [mbind option_bind].
  apply has_room_lt in Hr1. unfold MAX_FILE_SIZE, MAX_CHUNK_SIZE in Hr1.
  destruct (append_spec C (k + 1) b1 ty t bytes Hf1 ltac:(lia) Hb1 ltac:(lia) Hd1) as (Hnew & Hd2 & Eoff & Hf2 & _).
  destruct (append C b1 t) as [pos b2]. cbn [fst snd] in *.
  pose proof (free_from_here _ _ Hnew) as Hpos.
  assert (Hoff : 0 <= dp_nOffset pos < MAX_FILE_SIZE) by (unfold MAX_FILE_SIZE; lia).
  assert (Hc2 : exists es, cached (mkCached b2 (tc_cacheStream ts) (tc_mapCachePos ts)) (<[pos := save C t]> ty) es).
  { exists es. apply (cached_mono ts ty); [done|]. by apply insert_subseteq. }
  destruct fWriteCache.
  - destruct (WriteToCache_spec C (mkCached b2 (tc_cacheStream ts) (tc_mapCachePos ts)) (<[pos := save C t]> ty) t pos)
      as (ts' & -> & Eb & Ec & Hc'); [done|done|by rewrite lookup_insert_eq|done|done|by apply Hcap|].
    cbn [mbind option_bind]. exists pos, ts'. split; [done|]. split; [done|]. split; [done|]. split; [split; [by rewrite Eb|done]|].
    split; [done|]. by rewrite Eb.
  - cbn [mbind option_bind]. eexists pos, _. split; [done|]. split; [done|]. split; [done|]. split; [by split|]. done.
Qed.

Lemma Write_spec {T : Type} (C : codec T) `{!CodecOk C} k ts ty (t : T) fWriteCache :
  stored ts ty -> files_ok k (tc_base ts) -> k + 1 < 2 ^ 32 -> valid C t -> is_uint 32 (Z.of_nat (length (save C t))) ->
  (fWriteCache = true -> Z.of_nat (length (save C t)) <= capacity ts) ->
  exists pos ts', Write C true ts t fWriteCache = Some (true, pos, ts') /\ ty !! pos = None /\
    stored ts' (<[pos := save C t]> ty) /\ capacity ts' = capacity ts /\ files_ok (k + 1) (tc_base ts').
Proof.
  intros Hs Hf Hk Hv Hu Hc. destruct (Write_place C k ts ty t fWriteCache) as (pos & ts' & E & Hn & _ & H); [done..|].
  exists pos, ts'. split; [done|]. split; [by apply free_from_here|done].
Qed.

Lemma Read_spec {T : Type} (C : codec T) `{!CodecOk C} ts ty pos (t left : T) tail fWriteCache :
  stored ts ty -> ty !! pos = Some (save C t ++ tail) -> valid C t ->
  (fWriteCache = true -> tail = [] /\ is_uint 32 (Z.of_nat (length (save C t))) /\
                         Z.of_nat (length (save C t)) <= capacity ts) ->
  exists ts', Read C ts pos left fWriteCache = Some (true, t, ts') /\ stored ts' ty /\ tc_base ts' = tc_base ts /\
    capacity ts' = capacity ts.
Proof.
  intros [Hd [es Hc]] Hty Hv Hfw. unfold Read.
  destruct (ReadFromCache_spec C ts ty es pos t left tail Hc Hty Hv) as [-> | (ts' & -> & Eb & Ec & Hc')].
  - destruct (read_file_spec C _ _ t left tail (Hd _ _ Hty) Hv) as (bytes & -> & ->). destruct fWriteCache.
    + destruct (Hfw eq_refl) as (-> & Hu & Hcap). rewrite app_nil_r in Hty.
      destruct (WriteToCache_spec C ts ty t pos Hd) as (ts' & -> & Eb & Ec & Hc'); [eauto|done|done|done|done|].
      cbn [mbind option_bind]. exists ts'. split; [done|]. split; [|done]. split; [by rewrite Eb|done].
    + cbn [mbind option_bind]. exists ts. split; [done|]. split; [|done]. split; eauto.
  - exists ts'. split; [done|]. split; [|done]. split; [by rewrite Eb|eauto].
Qed.

(** A part of an object can be addressed on its own. *)
Lemma stored_inside ts ty pos a bs b :
  stored ts ty -> ty !! pos = Some (a ++ bs ++ b) ->
  let pos' := mkDiskPos (dp_nFile pos) (dp_nOffset pos + Z.of_nat (length a)) in
  valid diskpos_codec pos' -> ty !! pos' = None -> stored ts (<[pos' := bs]> ty).
Proof.
  intros [Hd [es Hc]] Hty pos' Hv Hn. split.
  - apply map_Forall_insert_2; [|done]. split; [done|].
    destruct (Hd _ _ Hty) as (_ & bytes & pre & post & E & -> & El).
    exists (pre ++ (a ++ bs ++ b) ++ post), (pre ++ a), (b ++ post). split; [done|].
    rewrite <- !app_assoc. split; [done|]. rewrite length_app. cbn. lia.
  - exists es. destruct ts. apply (cached_mono _ ty _ _ _ Hc). by apply insert_subseteq.
Qed.

(** C38: the cached files implement a store of objects.  Let the files hold the
    objects of [ty] and the cache agree.  Writing an object the cache can take puts
    it at a position that is not in use, and all objects written before stay where
    they are; reading a position returns the object that was written there (or the
    object that its bytes begin with), whether it comes from the cache or from the
    file, and whatever reading and writing did to the cache. *)
Theorem timeseries_refines {T : Type} (C : codec T) (HC : CodecOk C) (ts : CTimeSeriesCached)
    (ty : gmap CDiskPos (list Z)) (Hs : stored ts ty) :
  (forall k t fWriteCache, files_ok k (tc_base ts) -> k + 1 < 2 ^ 32 -> valid C t ->
     is_uint 32 (Z.of_nat (length (save C t))) ->
     (fWriteCache = true -> Z.of_nat (length (save C t)) <= capacity ts) ->
     exists pos ts', Write C true ts t fWriteCache = Some (true, pos, ts') /\ ty !! pos = None /\
       stored ts' (<[pos := save C t]> ty) /\ capacity ts' = capacity ts /\ files_ok (k + 1) (tc_base ts')) /\
  (forall pos t left tail fWriteCache, ty !! pos = Some (save C t ++ tail) -> valid C t ->
     (fWriteCache = true -> tail = [] /\ is_uint 32 (Z.of_nat (length (save C t))) /\
                            Z.of_nat (length (save C t)) <= capacity ts) ->
     exists ts', Read C ts pos left fWriteCache = Some (true, t, ts') /\ stored ts' ty /\ capacity ts' = capacity ts) /\
  (forall pos t left tail, ty !! pos = Some (save C t ++ tail) -> valid C t ->
     ReadDirect C ts pos left = (true, t)).
Proof.
  split; [|split].
  - intros k t fw. by apply Write_spec.
  - intros pos t left tail fw Hty Hv Hfw.
    destruct (Read_spec C ts ty pos t left tail fw Hs Hty Hv Hfw) as (ts' & E & H & _ & Ec). eauto.
  - intros pos t left tail Hty Hv. unfold ReadDirect.
    destruct (read_file_spec C _ _ t left tail (st_disk _ _ Hs _ _ Hty) Hv) as (bytes & -> & ->). done.
Qed.

(** An object that the empty cache cannot take keeps [VacateCache] looping. *)
Lemma vacate_diverges fuel nNeeded ts :
  Circular.holds (cs_buf (tc_cacheStream ts)) [] -> capacity ts < nNeeded -> vacate fuel nNeeded ts = None.
Proof.
  revert ts. induction fuel as [|fuel IH]; intros ts Hh Hn; cbn [vacate];
    unfold GetBufFreeSpace; rewrite (Circular.freespace_spec _ _ Hh); unfold capacity, nHdrSize in *;
    rewrite (proj2 (Z.ltb_lt _ _)) by (cbn; lia); [done|].
  destruct (Rewind_spec _ _ Hh) as ([G0 H0] & R0 & B0 & N0).
  assert (E : inp diskpos_codec (Rewind (tc_cacheStream ts)) (mkDiskPos 0 0) =
              (mkDiskPos 0 0, mkStream (cs_buf (Rewind (tc_cacheStream ts))) false)).
  { unfold inp. rewrite G0, (Circular.showmanyc_spec _ _ _ H0 R0). done. }
  rewrite E. cbn [inp cs_good]. destruct (Circular.consume_spec _ _ (0 + 12) H0) as (H1 & N1 & _); [lia|].
  apply IH; cbn [tc_cacheStream Consume cs_buf]; [done|]. rewrite N1, N0. done.
Qed.

(** ** Batches *)

(** Objects a batch writes *)
Definition chunk_ok {T : Type} (C : codec T) (t : T) : Prop := Z.of_nat (length (save C t)) <= MAX_CHUNK_SIZE.

Lemma write_file_spec {T : Type} (C : codec T) k vBatch : forall ts ty bytes,
  files_ok k ts -> k < 2 ^ 32 -> ts_files ts !! ts_nLastFile ts = Some bytes ->
  Z.of_nat (length bytes) < MAX_FILE_SIZE - 8 -> on_disk ts ty -> Forall (chunk_ok C) vBatch ->
  exists vPos fst rest ts' ty', Chunk.write_file C ts vBatch = (vPos, rest, ts') /\ vBatch = fst ++ rest /\
    (vBatch <> [] -> fst <> []) /\ files_ok k ts' /\ on_disk ts' ty' /\ ty ⊆ ty' /\
    Forall2 (fun pos t => ty' !! pos = Some (save C t)) vPos fst.
Proof.
  unfold MAX_FILE_SIZE. induction vBatch as [|t vBatch IH]; intros ts ty bytes Hf Hk Hb Hr Hd Hc; cbn [Chunk.write_file].
  - by exists [], [], [], ts, ty.
  - inversion Hc as [|? ? Ht Hc']; subst. unfold chunk_ok, MAX_CHUNK_SIZE in Ht.
    destruct (append_spec C k ts ty t bytes Hf Hk Hb ltac:(lia) Hd) as (Hnew & Hd1 & Ho & Hf1 & Hb1 & Hl1).
    destruct (append C ts t) as [pos ts1] eqn:Ea. cbn [fst snd] in *. rewrite Ho. apply free_from_here in Hnew.
    unfold MAX_FILE_SIZE, MAX_CHUNK_SIZE. destruct (Z.ltb_spec (Z.of_nat (length bytes) + 8) (0x7F000000 - 0x200000 - 8)).
    + destruct (IH ts1 (<[pos := save C t]> ty) _ Hf1 Hk Hb1) as (vPos & l & rest & ts' & ty' & -> & -> & _ & Hf' & Hd' & Hs & Hv);
        [lia|done|done|].
      exists (pos :: vPos), (t :: l), rest, ts', ty'. split_and!; try done.
      * etrans; [|done]. by apply insert_subseteq.
      * apply Forall2_cons. split; [|done]. eapply lookup_weaken; [|done]. apply lookup_insert_eq.
    + exists [pos], [t], vBatch, ts1, (<[pos := save C t]> ty). split_and!; try done.
      * by apply insert_subseteq.
      * apply Forall2_cons. split; [apply lookup_insert_eq|by apply Forall2_nil].
Qed.

(** Without the right to create files, the last file is found as with it, or the
    search fails and leaves the files as they are. *)
Lemma GetLastFilePath_fails k ts ty :
  files_ok k ts -> k + 1 < 2 ^ 32 -> on_disk ts ty ->
  GetLastFilePath false ts = GetLastFilePath true ts \/
  exists ts', GetLastFilePath false ts = Some (false, ts') /\ files_ok (k + 1) ts' /\ on_disk ts' ty.
Proof.
  intros Hf Hk Hd. unfold GetLastFilePath. destruct (GetLastFilePath_spec k ts ty Hf Hk Hd) as (ts0 & _ & E0 & _). unfold GetLastFilePath in E0.
  assert (G : forall fuel ts1, ts_files ts1 = ts_files ts -> 0 <= ts_nLastFile ts1 <= k + 1 -> get_last_file fuel true ts1 = Some (true, ts0) ->
    get_last_file fuel false ts1 = get_last_file fuel true ts1 \/
    exists n, 0 <= n <= k + 1 /\ get_last_file fuel false ts1 = Some (false, mkTimeSeries n (ts_files ts))).
  { destruct Hf as [_ Hn]. induction fuel as [|fuel IH]; intros ts1 Ef Hu E; [done|]. cbn [get_last_file] in E |- *. rewrite Ef in E |- *.
    destruct (ts_files ts !! ts_nLastFile ts1) as [bytes|] eqn:El.
    - destruct (has_room bytes); [by left|]. destruct (Hn (ts_nLastFile ts1)) as [_ Hlt]; [by rewrite El|].
      apply IH; [done|cbn; rewrite wrap_small by (split; lia); lia|done].
    - right. exists (ts_nLastFile ts1). split; [done|]. f_equal. f_equal. rewrite <- Ef. by destruct ts1. }
  destruct (G _ ts eq_refl ltac:(destruct Hf; lia) E0) as [E|(n & Hn & E)]; [by left|]. right. eexists. split; [exact E|]. split; [|exact Hd].
  split; [done|]. cbn. intros m Hm%(proj2 Hf). lia.
Qed.

(** [WriteBatch] ends and keeps what the files held, whether new files can be
    created or not; if it succeeds, and it does if they can, each object is at
    the position it reports. *)
Lemma WriteBatch_spec {T : Type} (C : codec T) can_create k ts ty vBatch :
  files_ok k ts -> k + Z.of_nat (length vBatch) < 2 ^ 32 -> on_disk ts ty -> Forall (chunk_ok C) vBatch ->
  exists b vPos ts' ty', Chunk.WriteBatch C can_create ts vBatch = Some (b, vPos, ts') /\
    files_ok (k + Z.of_nat (length vBatch)) ts' /\ on_disk ts' ty' /\ ty ⊆ ty' /\
    (b = true -> Forall2 (fun pos t => ty' !! pos = Some (save C t)) vPos vBatch) /\ (can_create = true -> b = true).
Proof.
  unfold Chunk.WriteBatch.
  assert (G : forall fuel k ts ty vBatch, (length vBatch <= fuel)%nat ->
    files_ok k ts -> k + Z.of_nat (length vBatch) < 2 ^ 32 -> on_disk ts ty -> Forall (chunk_ok C) vBatch ->
    exists b vPos ts' ty', Chunk.write_batch C can_create fuel ts vBatch = Some (b, vPos, ts') /\
      files_ok (k + Z.of_nat (length vBatch)) ts' /\ on_disk ts' ty' /\ ty ⊆ ty' /\
      (b = true -> Forall2 (fun pos t => ty' !! pos = Some (save C t)) vPos vBatch) /\ (can_create = true -> b = true)); [|by apply G].
  clear k ts ty vBatch. induction fuel as [|fuel IH]; intros k ts ty vBatch Hfuel Hf Hk Hd Hc;
    (destruct vBatch as [|t vBatch];
     [exists true, [], ts, ty; cbn; by rewrite Z.add_0_r|]); [cbn in Hfuel; lia|].
  cbn [length] in Hk, Hfuel. cbn [Chunk.write_batch].
  destruct (GetLastFilePath_spec k _ _ Hf ltac:(lia) Hd) as (b1 & bytes & E1 & Hf1 & Hb1 & Hr1 & Hd1).
  apply has_room_lt in Hr1.
  assert (Hcase : GetLastFilePath can_create ts = Some (true, b1) \/
    can_create = false /\ exists ts', GetLastFilePath can_create ts = Some (false, ts') /\ files_ok (k + 1) ts' /\ on_disk ts' ty).
  { destruct can_create; [by left|]. destruct (GetLastFilePath_fails k ts ty Hf ltac:(lia) Hd) as [E|E]; [left; congruence|by right]. }
  destruct Hcase as [-> | (-> & ts' & -> & Hf' & Hd')]; cbn [mbind option_bind].
  2: { exists false, [], ts', ty. split; [done|]. split; [|by split_and!]. destruct Hf' as [Hl Hn]. cbn [length]. split; [lia|]. intros n Hm%Hn. lia. }
  destruct (write_file_spec C (k + 1) (t :: vBatch) b1 ty bytes Hf1 ltac:(lia) Hb1) as (vPos & l & rest & ts' & ty' & E2 & El & Hne & Hf2 & Hd2 & Hs2 & Hv2);
    [unfold MAX_CHUNK_SIZE in Hr1; lia|done|done|].
  assert (Hlen : (length rest <= length vBatch)%nat).
  { apply (f_equal length) in El. cbn in El. rewrite length_app in El. destruct l; [by destruct Hne|]. cbn in El. lia. }
  destruct (IH (k + 1) ts' ty' rest) as (b & vPos' & ts2 & ty2 & E3 & Hf3 & Hd3 & Hs3 & Hv3 & Hb3); [lia|done|lia|done| |].
  { rewrite El in Hc. by apply Forall_app in Hc as [_ Hc]. }
  exists b, (vPos ++ vPos'), ts2, ty2. rewrite E2, E3. cbn [mbind option_bind]. split; [done|].
  split; [|split; [done|split; [by etrans|split; [|done]]]].
  - destruct Hf3 as [Hl3 Hn3]. cbn [length]. split; [lia|]. intros n Hn%Hn3. lia.
  - intros Hb. rewrite El. apply Forall2_app; [|by apply Hv3]. eapply Forall2_impl; [done|]. cbn. intros pos x Hx. by eapply lookup_weaken.
Qed.

(** ** An object in an empty store *)

(** A series without files holds nothing. *)
Lemma init_stored n : 0 <= n < 2 ^ 64 -> stored (init n ∅) ∅ /\ n - 1 - nHdrSize <= capacity (init n ∅).
Proof.
  intros Hn. destruct (Circular.init_holds n Hn) as [H Hle].
  destruct (Circular.consume_spec _ _ (Circular.size (Circular.init n)) H) as (H' & Eb & _); [rewrite (Circular.size_spec _ _ H); done|].
  split.
  - split; [apply map_Forall_empty|]. exists []. split; cbn [init tc_cacheStream tc_mapCachePos Clear cs_good cs_buf map].
    + reflexivity.
    + rewrite drop_nil in H'. exact H'.
    + apply NoDup_nil_2.
    + apply Forall_nil_2.
    + intros pos p. rewrite lookup_empty. split; [done|]. intros ([|] & bs & es2 & E & _); done.
  - unfold capacity. cbn [init tc_cacheStream Clear cs_buf]. rewrite Eb. lia.
Qed.

Lemma init_files n : files_ok 1 (tc_base (init n ∅)).
Proof. split; [cbn; lia|]. intros f [x Hx]. discriminate Hx. Qed.

Definition sample_series : CTimeSeriesCached := init 64 ∅.

Lemma sample_series_stored : stored sample_series ∅ /\ capacity sample_series = 51.
Proof. split; [apply (init_stored 64); lia|vm_compute; reflexivity]. Qed.

Lemma timeseries_refines_witness :
  exists pos ts', Write string_codec true sample_series (replicate 20 1) true = Some (true, pos, ts') /\
    stored ts' {[pos := save string_codec (replicate 20 1)]} /\
    exists ts'', Read string_codec ts' pos [] true = Some (true, replicate 20 1, ts'').
Proof.
  destruct sample_series_stored as [Hs Hcap].
  assert (Hv : valid string_codec (replicate 20 1)).
  { split; [vm_compute; split; [discriminate|reflexivity]|]. repeat apply List.Forall_cons; try apply List.Forall_nil; split; lia. }
  assert (Hu : is_uint 32 (Z.of_nat (length (save string_codec (replicate 20 1))))) by (vm_compute; split; [discriminate|reflexivity]).
  destruct (timeseries_refines string_codec _ sample_series ∅ Hs) as (HW & _ & _).
  destruct (HW 1 (replicate 20 1) true) as (pos & ts' & E & _ & Hst & Hcap' & _).
  { split; [cbn; lia|]. cbn. intros n [x Hx]. discriminate Hx. }
  { lia. }
  { exact Hv. }
  { exact Hu. }
  { intros _. rewrite Hcap. vm_compute. discriminate. }
  exists pos, ts'. split; [exact E|]. split; [exact Hst|].
  destruct (timeseries_refines string_codec _ ts' _ Hst) as (_ & HR & _).
  destruct (HR pos (replicate 20 1) [] [] true) as (ts'' & E' & _ & _).
  { rewrite lookup_insert_eq, app_nil_r. reflexivity. }
  { exact Hv. }
  { intros _. split; [reflexivity|]. split; [exact Hu|]. rewrite Hcap', Hcap. vm_compute. discriminate. }
  exists ts''. exact E'.
Defined.

End TimeSeries.
