(* ===== verification/CTSDB.v ===== *)
(** * The chunked time series database (src/storage/ctsdb.h, ctsdb.cpp) and the
      index of transactions over it (txindexdb.h, txindexdb.cpp)

    [CCTSDB] maps a time and a key to a value.  The values of one time are a
    chunk: a sorted array in the chunk files, found through a key-value table of
    disk positions and searched by bisection.  Changes are collected by time in
    the upper one of two maps; a flush writes the lower map to new chunks,
    commits their positions, and flips the maps.  An update first fetches all
    values of its time into the upper map.

    The key is a [Z] (the 224 bits of a transaction id behind its time); snappy,
    which compresses the chunks, is a parameter with the law that uncompressing
    undoes compressing.  [time_map db t] is what the database means: the map of
    the keys of the time [t].  The theorems show that bisection finds what a chunk
    holds, and that the database implements its meaning through updates, erasures
    and flushes that succeed, fail or are halfway. *)

From S2P Require Import Prelude Stream Transaction TimeSeries.

Import CWalleveStream.

Section types.
Context (V : Type).

(** [CCTSDB::CDblMap] *)
Record CDblMeta : Type := mkMeta {
  dm_mapCache0 : gmap Z (gmap Z V);
  dm_mapCache1 : gmap Z (gmap Z V);
  dm_nIdxUpper : Z;
}.

Record CCTSDB : Type := mkCTSDB {
  ct_dbIndex : gmap Z CDiskPos;
  ct_tsChunk : CTimeSeriesBase;
  ct_dblMeta : CDblMeta;
}.
End types.

Arguments mkMeta {V}.
Arguments dm_mapCache0 {V}.
Arguments dm_mapCache1 {V}.
Arguments dm_nIdxUpper {V}.
Arguments mkCTSDB {V}.
Arguments ct_dbIndex {V}.
Arguments ct_tsChunk {V}.
Arguments ct_dblMeta {V}.

Module CTSChunk.

(** ** Chunks *)

(** [CCTSChunk]: the memory of the pairs behind their number *)
Definition chunk_codec {V : Type} (cv : codec V) : codec (list (Z * V)) := vector_codec (uint_codec 28 ** cv).

(** [CCTSChunkSnappy]: the memory of the pairs compressed, as a string; the
    number of pairs is the uncompressed size over the size of a pair. *)
Definition snappy_codec {V : Type} (Compress : list Z -> list Z) (Uncompress : list Z -> option (list Z))
    (cv : codec V) (sizeof : Z) : codec (list (Z * V)) := {|
  save l := save string_codec (Compress (flat_map (save (uint_codec 28 ** cv)) l));
  load s :=
    '(strSnappy, s) ← load string_codec s;
    raw ← Uncompress strSnappy;
    '(l, _) ← load_n (uint_codec 28 ** cv) (Z.to_nat (Z.of_nat (length raw) / sizeof)) raw;
    Some (l, s);
  ser_size l := ser_size string_codec (Compress (flat_map (save (uint_codec 28 ** cv)) l));
  valid l := Forall (valid (uint_codec 28 ** cv)) l /\
             valid string_codec (Compress (flat_map (save (uint_codec 28 ** cv)) l));
|}.

(** [Find] with the bounds [s] and [e]; [at] throws outside the vector. *)
Fixpoint find_loop {V : Type} (fuel : nat) (chunk : list (Z * V)) (k s e : Z) : outcome (option V) :=
  match fuel with
  | O => Undefined
  | S fuel =>
      if s <=? e then
        let m := Z.shiftr (i32 (s + e)) 1 in
        if m <? 0 then Throw out_of_range
        else
          match chunk !! Z.to_nat m with
          | None => Throw out_of_range
          | Some (k', v) =>
              if k' <? k then find_loop fuel chunk k (m + 1) e
              else if k <? k' then find_loop fuel chunk k s (m - 1)
              else Return (Some v)
          end
      else Return None
  end.

(** Every turn shortens the range. *)
Definition Find {V : Type} (chunk : list (Z * V)) (k : Z) : outcome (option V) :=
  find_loop (S (length chunk)) chunk k 0 (Z.of_nat (length chunk) - 1).

(** Snappy and the memory of a pair of fixed size *)
Class SnappyOk {V : Type} (Compress : list Z -> list Z) (Uncompress : list Z -> option (list Z)) (cv : codec V)
    (sizeof : Z) : Prop := {
  uncompress_compress : forall s, Uncompress (Compress s) = Some s;
  sizeof_pair : forall e, valid (uint_codec 28 ** cv) e -> Z.of_nat (length (save (uint_codec 28 ** cv) e)) = sizeof;
  sizeof_pos : 0 < sizeof;
}.

#[export] Instance snappy_codec_ok {V : Type} Compress Uncompress (cv : codec V) sizeof
    `{!CodecOk cv, !SnappyOk Compress Uncompress cv sizeof} : CodecOk (snappy_codec Compress Uncompress cv sizeof).
Proof.
  assert (El : forall l, Forall (valid (uint_codec 28 ** cv)) l ->
    Z.of_nat (length (flat_map (save (uint_codec 28 ** cv)) l)) = sizeof * Z.of_nat (length l)).
  { induction 1 as [|e l He Hl IH]; [cbn; lia|]. cbn [flat_map length]. rewrite length_app, Nat2Z.inj_add, IH, sizeof_pair by done. lia. }
  split; cbn [save load ser_size valid snappy_codec].
  - intros l rest [Hl Hs]. rewrite (load_save (c := string_codec)) by done. cbn [mbind option_bind].
    rewrite uncompress_compress. cbn [mbind option_bind]. rewrite El by done.
    rewrite (Z.mul_comm sizeof), Z.div_mul, Nat2Z.id by (pose proof sizeof_pos; lia).
    pose proof (CWalleveStreamOk.load_n_save (uint_codec 28 ** cv) l [] Hl) as E. rewrite app_nil_r in E. by rewrite E.
  - intros l [_ Hs]. by apply size_save.
  - intros l [_ Hs]. by apply save_bytes.
Qed.

(** ** Bisection *)

Definition sorted {V : Type} (chunk : list (Z * V)) : Prop := StronglySorted (fun a b => a.1 < b.1) chunk.

Lemma sorted_lookup {V : Type} (chunk : list (Z * V)) (i j : nat) a b :
  sorted chunk -> chunk !! i = Some a -> chunk !! j = Some b -> (i < j)%nat -> a.1 < b.1.
Proof.
  intros Hs. revert i j. induction Hs as [|x l Hs IH Hx]; intros i j Hi Hj Hij; [done|].
  destruct j as [|j]; [lia|]. destruct i as [|i]; cbn in *.
  - simplify_eq. rewrite Forall_forall in Hx. apply Hx. by apply list_elem_of_lookup_2 in Hj.
  - apply (IH i j); [done|done|lia].
Qed.

Lemma find_loop_spec {V : Type} (fuel : nat) (chunk : list (Z * V)) k s e :
  sorted chunk -> Z.of_nat (length chunk) <= 2 ^ 30 -> 0 <= s -> e < Z.of_nat (length chunk) -> s <= e + 1 ->
  e - s + 1 < Z.of_nat fuel ->
  (forall i a, chunk !! i = Some a -> Z.of_nat i < s -> a.1 < k) ->
  (forall i a, chunk !! i = Some a -> e < Z.of_nat i -> k < a.1) ->
  (exists v, find_loop fuel chunk k s e = Return (Some v) /\ (k, v) ∈ chunk) \/
  (find_loop fuel chunk k s e = Return None /\ forall v, (k, v) ∉ chunk).
Proof.
  intros Hs Hlen. revert s e. induction fuel as [|fuel IH]; intros s e H0 He Hse Hf Hlo Hhi; [lia|]. cbn [find_loop].
  destruct (Z.leb_spec s e) as [Hle|Hgt].
  - rewrite swrap_small by lia. rewrite Z.shiftr_div_pow2 by lia. change (2 ^ 1) with 2.
    set (m := (s + e) / 2). assert (Hm : s <= m <= e) by (subst m; split; [apply Z.div_le_lower_bound|apply Z.div_le_upper_bound]; lia).
    rewrite (proj2 (Z.ltb_ge m 0)) by lia.
    destruct (chunk !! Z.to_nat m) as [[k' v]|] eqn:Em; [|apply lookup_ge_None in Em; lia].
    destruct (Z.ltb_spec k' k) as [H1|H1]; [|destruct (Z.ltb_spec k k') as [H2|H2]].
    + apply IH; try lia; [|done]. intros i a Hi Hlt. destruct (decide (i = Z.to_nat m)) as [->|Hne]; [simplify_eq; done|].
      pose proof (sorted_lookup _ _ _ _ _ Hs Hi Em ltac:(lia)). cbn in *. lia.
    + apply IH; try lia; [done|]. intros i a Hi Hlt. destruct (decide (i = Z.to_nat m)) as [->|Hne]; [simplify_eq; done|].
      pose proof (sorted_lookup _ _ _ _ _ Hs Em Hi ltac:(lia)). cbn in *. lia.
    + left. exists v. split; [done|]. replace k with k' by lia. by apply list_elem_of_lookup_2 in Em.
  - right. split; [done|]. intros v [i Hi]%list_elem_of_lookup_1.
    destruct (Z.lt_ge_cases (Z.of_nat i) s) as [Hlt|Hge].
    + specialize (Hlo i _ Hi Hlt). cbn in Hlo. lia.
    + specialize (Hhi i _ Hi ltac:(lia)). cbn in Hhi. lia.
Qed.

(** bisection finds exactly what a chunk holds.  On the array of the entries
    of a map in key order, [Find] ends without leaving the array and returns the
    value of the key in the map, or nothing when the key is not in it. *)
Theorem Find_spec {V : Type} (m : gmap Z V) (k : Z) (Hlen : Z.of_nat (size m) <= 2 ^ 30) :
  Find (map_entries Z.lt m) k = Return (m !! k).
Proof.
  assert (El : length (map_entries Z.lt m) = size m).
  { rewrite (CWalleveStreamOk.map_entries_Permutation Z.lt m). apply length_map_to_list. }
  unfold Find. destruct (find_loop_spec (S (length (map_entries Z.lt m))) (map_entries Z.lt m) k 0
    (Z.of_nat (length (map_entries Z.lt m)) - 1)) as [(v & -> & Hv)|(-> & Hv)]; try lia.
  - apply CWalleveStreamOk.map_entries_sorted.
  - intros i a Hi Hgt. apply lookup_lt_Some in Hi. lia.
  - apply (CWalleveStreamOk.elem_of_map_entries Z.lt) in Hv. by rewrite Hv.
  - destruct (m !! k) as [v|] eqn:E; [|done]. destruct (Hv v). by apply (CWalleveStreamOk.elem_of_map_entries Z.lt).
Qed.

Lemma Find_spec_witness :
  Z.of_nat (size ({[3 := 30; 5 := 50; 9 := 90]} : gmap Z Z)) <= 2 ^ 30 /\
  Find (map_entries Z.lt ({[3 := 30; 5 := 50; 9 := 90]} : gmap Z Z)) 9 = Return (Some 90) /\
  Find (map_entries Z.lt ({[3 := 30; 5 := 50; 9 := 90]} : gmap Z Z)) 4 = Return None.
Proof.
  split; [vm_compute; discriminate|]. split; rewrite Find_spec by (vm_compute; discriminate); vm_compute; reflexivity.
Defined.

End CTSChunk.

Module CTSDB.

(** ** Two maps *)

Section meta.
Context {V : Type}.

Notation MapType := (gmap Z (gmap Z V)).

Definition meta_init : CDblMeta V := mkMeta ∅ ∅ 0.

Definition mapCache (d : CDblMeta V) (idx : Z) : MapType := if idx =? 0 then dm_mapCache0 d else dm_mapCache1 d.

Definition set_mapCache (d : CDblMeta V) (idx : Z) (m : MapType) : CDblMeta V :=
  if idx =? 0 then mkMeta m (dm_mapCache1 d) (dm_nIdxUpper d) else mkMeta (dm_mapCache0 d) m (dm_nIdxUpper d).

Definition GetUpperMap (d : CDblMeta V) : MapType := mapCache d (dm_nIdxUpper d).

Definition GetLowerMap (d : CDblMeta V) : MapType := mapCache d (Z.lxor (dm_nIdxUpper d) 1).

Definition Flip (d : CDblMeta V) : CDblMeta V :=
  let d := set_mapCache d (Z.lxor (dm_nIdxUpper d) 1) ∅ in
  mkMeta (dm_mapCache0 d) (dm_mapCache1 d) (Z.lxor (dm_nIdxUpper d) 1).

Definition meta_wf (d : CDblMeta V) : Prop := dm_nIdxUpper d = 0 \/ dm_nIdxUpper d = 1.

Lemma meta_upper_set d m : meta_wf d -> GetUpperMap (set_mapCache d (dm_nIdxUpper d) m) = m.
Proof. destruct d as [a b i]; intros [E|E]; cbn in E; subst i; done. Qed.

Lemma meta_lower_set d m : meta_wf d -> GetLowerMap (set_mapCache d (dm_nIdxUpper d) m) = GetLowerMap d.
Proof. destruct d as [a b i]; intros [E|E]; cbn in E; subst i; done. Qed.

Lemma meta_wf_set d i m : meta_wf d -> meta_wf (set_mapCache d i m).
Proof. unfold set_mapCache. by case_match. Qed.

Lemma meta_flip d : meta_wf d -> GetUpperMap (Flip d) = ∅ /\ GetLowerMap (Flip d) = GetUpperMap d /\ meta_wf (Flip d).
Proof. destruct d as [a b i]; intros [E|E]; cbn in E; subst i; unfold meta_wf; cbn; auto. Qed.
End meta.

(** ** The database *)

Section db.
Context {V : Type} (C : codec (list (Z * V))).

Definition init (dbIndex : gmap Z CDiskPos) (files : gmap Z (list Z)) : CCTSDB V :=
  mkCTSDB dbIndex (mkTimeSeries 1 files) meta_init.

Definition RemoveAll (db : CCTSDB V) : CCTSDB V := mkCTSDB ∅ (ct_tsChunk db) meta_init.

(** [LoadFromFile]: the chunk starts empty. *)
Definition LoadFromFile (db : CCTSDB V) (nTime : Z) : option (list (Z * V)) :=
  match ct_dbIndex db !! nTime with
  | None => None
  | Some pos =>
      match TimeSeries.Chunk.Read C (ct_tsChunk db) pos [] with
      | (true, chunk) => Some chunk
      | (false, _) => None
      end
  end.

(** [GetUpdateMap]; [fLower] is the result of [ReadTryLock].  The map, and the
    database with it as the upper map's entry for the time *)
Definition GetUpdateMap (db : CCTSDB V) (fLower : bool) (nTime : Z) : gmap Z V * CCTSDB V :=
  let d := ct_dblMeta db in
  match GetUpperMap d !! nTime with
  | Some m => (m, db)
  | None =>
      let m := match (if fLower then GetLowerMap d !! nTime else None) with
               | Some m => m
               | None => match LoadFromFile db nTime with
                         | Some chunk => foldl map_insert_new ∅ chunk
                         | None => ∅
                         end
               end in
      (m, mkCTSDB (ct_dbIndex db) (ct_tsChunk db)
            (set_mapCache d (dm_nIdxUpper d) (<[nTime := m]> (GetUpperMap d))))
  end.

Definition set_time (db : CCTSDB V) (nTime : Z) (m : gmap Z V) : CCTSDB V :=
  let d := ct_dblMeta db in
  mkCTSDB (ct_dbIndex db) (ct_tsChunk db) (set_mapCache d (dm_nIdxUpper d) (<[nTime := m]> (GetUpperMap d))).

Definition Update (db : CCTSDB V) (fLower : bool) (nTime key : Z) (value : V) : CCTSDB V :=
  let '(m, db) := GetUpdateMap db fLower nTime in set_time db nTime (<[key := value]> m).

Definition Erase (db : CCTSDB V) (fLower : bool) (nTime key : Z) : CCTSDB V :=
  let '(m, db) := GetUpdateMap db fLower nTime in set_time db nTime (delete key m).

Definition Retrieve (db : CCTSDB V) (fLower : bool) (nTime key : Z) : outcome (option V) :=
  match GetUpperMap (ct_dblMeta db) !! nTime with
  | Some mapValue => Return (mapValue !! key)
  | None =>
      match (if fLower then GetLowerMap (ct_dblMeta db) !! nTime else None) with
      | Some mapValue => Return (mapValue !! key)
      | None => match LoadFromFile db nTime with
                | Some chunk => CTSChunk.Find chunk key
                | None => Return None
                end
      end
  end.

(** The two lists [Flush] makes of the lower map *)
Definition flush_lists (mapFlush : gmap Z (gmap Z V)) : list (Z * list (Z * V)) * list Z :=
  let l := map_entries Z.lt mapFlush in
  (map (fun e => (e.1, map_entries Z.lt e.2)) (List.filter (fun e => negb (bool_decide (e.2 = ∅))) l),
   map fst (List.filter (fun e => bool_decide (e.2 = ∅)) l)).

(** [CCTSIndex::Update]; [txn] says whether the transaction is committed. *)
Definition index_Update (dbIndex : gmap Z CDiskPos) (vTime : list Z) (vPos : list CDiskPos) (vDel : list Z) (txn : bool)
    : bool * gmap Z CDiskPos :=
  if negb (length vTime =? length vPos)%nat then (false, dbIndex)
  else if txn then
    (true, foldl (fun m t => delete t m) (foldl (fun m e => <[e.1 := e.2]> m) dbIndex (zip vTime vPos)) vDel)
  else (false, dbIndex).

(** The first part of [Flush], with the lower map locked for upgrading: the
    chunks are written and their positions committed. *)
Definition flush_save (db : CCTSDB V) (can_create txn : bool) : option (bool * CCTSDB V) :=
  let '(vChunk, vDel) := flush_lists (GetLowerMap (ct_dblMeta db)) in
  '(ok, vPos, ts) ← (if bool_decide (vChunk = []) then Some (true, [], ct_tsChunk db)
                     else TimeSeries.Chunk.WriteBatch C can_create (ct_tsChunk db) (map snd vChunk));
  if negb ok then Some (false, mkCTSDB (ct_dbIndex db) ts (ct_dblMeta db))
  else if bool_decide (vPos = []) && bool_decide (vDel = []) then Some (true, mkCTSDB (ct_dbIndex db) ts (ct_dblMeta db))
  else
    let '(b, dbIndex) := index_Update (ct_dbIndex db) (map fst vChunk) vPos vDel txn in
    Some (b, mkCTSDB dbIndex ts (ct_dblMeta db)).

(** The second part, with both maps locked for writing *)
Definition flush_flip (db : CCTSDB V) : CCTSDB V :=
  mkCTSDB (ct_dbIndex db) (ct_tsChunk db) (Flip (ct_dblMeta db)).

Definition Flush (db : CCTSDB V) (can_create txn : bool) : option (bool * CCTSDB V) :=
  '(b, db) ← flush_save db can_create txn;
  Some (if (b : bool) then (true, flush_flip db) else (false, db)).

(** ** Specification *)

(** The chunk of a time on disk *)
Definition disk_map (db : CCTSDB V) (nTime : Z) : gmap Z V :=
  match LoadFromFile db nTime with Some chunk => list_to_map chunk | None => ∅ end.

(** The keys of a time and their values *)
Definition time_map (db : CCTSDB V) (nTime : Z) : gmap Z V :=
  match GetUpperMap (ct_dblMeta db) !! nTime with
  | Some m => m
  | None => match GetLowerMap (ct_dblMeta db) !! nTime with
            | Some m => m
            | None => disk_map db nTime
            end
  end.

(** A map whose entries are a chunk that can be saved and searched *)
Definition chunk_valid (m : gmap Z V) : Prop :=
  valid C (map_entries Z.lt m) /\ TimeSeries.chunk_ok C (map_entries Z.lt m) /\ Z.of_nat (size m) <= 2 ^ 30.

Record db_ok (k : Z) (db : CCTSDB V) : Prop := {
  ok_meta : meta_wf (ct_dblMeta db);
  ok_files : TimeSeries.files_ok k (ct_tsChunk db);
  ok_disk : exists ty, TimeSeries.on_disk (ct_tsChunk db) ty /\
    map_Forall (fun _ pos => exists m, chunk_valid m /\ ty !! pos = Some (save C (map_entries Z.lt m))) (ct_dbIndex db);
}.

(** The lower map can be flushed: the entries of every time are a chunk. *)
Definition lower_valid (db : CCTSDB V) : Prop := map_Forall (fun _ m => chunk_valid m) (GetLowerMap (ct_dblMeta db)).

(** The lower map is on disk: the state between the two parts of a flush *)
Definition lower_saved (db : CCTSDB V) : Prop :=
  forall t m, GetLowerMap (ct_dblMeta db) !! t = Some m -> disk_map db t = m.

(** ** Chunks on disk *)

Context `{!CodecOk C}.

Lemma entries_map (m : gmap Z V) : list_to_map (map_entries Z.lt m) = m.
Proof.
  rewrite <- (list_to_map_to_list m) at 2. apply list_to_map_proper; [apply CWalleveStreamOk.NoDup_map_entries|].
  apply CWalleveStreamOk.map_entries_Permutation.
Qed.

Lemma LoadFromFile_at (db : CCTSDB V) ty t pos m :
  TimeSeries.on_disk (ct_tsChunk db) ty -> ct_dbIndex db !! t = Some pos -> chunk_valid m ->
  ty !! pos = Some (save C (map_entries Z.lt m)) -> LoadFromFile db t = Some (map_entries Z.lt m) /\ disk_map db t = m.
Proof.
  intros Hd Hi [Hv _] Hty. assert (E : LoadFromFile db t = Some (map_entries Z.lt m)).
  { unfold LoadFromFile, TimeSeries.Chunk.Read. rewrite Hi.
    destruct (TimeSeries.read_file_spec C (ct_tsChunk db) pos (map_entries Z.lt m) [] []) as (bytes & -> & ->); [|done|done].
    rewrite app_nil_r. by apply Hd. }
  split; [done|]. unfold disk_map. rewrite E. apply entries_map.
Qed.

Lemma LoadFromFile_cases k db t :
  db_ok k db ->
  (LoadFromFile db t = None /\ disk_map db t = ∅) \/
  (exists m, chunk_valid m /\ LoadFromFile db t = Some (map_entries Z.lt m) /\ disk_map db t = m).
Proof.
  intros [_ _ (ty & Hd & Hi)]. destruct (ct_dbIndex db !! t) as [pos|] eqn:E.
  - right. destruct (Hi _ _ E) as (m & Hm & Hty). exists m. split; [done|]. by eapply LoadFromFile_at.
  - left. unfold disk_map, LoadFromFile. by rewrite E.
Qed.

(** The map fetched for an update is the meaning of the time. *)
Lemma GetUpdateMap_spec k db fLower t :
  db_ok k db -> (fLower = false -> lower_saved db) -> (GetUpdateMap db fLower t).1 = time_map db t.
Proof.
  intros Hok Hl. unfold GetUpdateMap, time_map. destruct (GetUpperMap (ct_dblMeta db) !! t) as [m|]; [done|]. cbn [fst].
  assert (Hdisk : match LoadFromFile db t with Some chunk => foldl map_insert_new ∅ chunk | None => ∅ end = disk_map db t).
  { destruct (LoadFromFile_cases k db t Hok) as [[-> ->]|(m & _ & -> & ->)]; [done|]. apply CWalleveStreamOk.map_entries_load. }
  destruct fLower.
  - by destruct (GetLowerMap (ct_dblMeta db) !! t).
  - rewrite Hdisk. destruct (GetLowerMap (ct_dblMeta db) !! t) as [m|] eqn:E; [|done]. by apply Hl.
Qed.

Lemma set_time_spec k db t m :
  db_ok k db ->
  db_ok k (set_time db t m) /\
  (forall t', time_map (set_time db t m) t' = if decide (t' = t) then m else time_map db t') /\
  (lower_saved db -> lower_saved (set_time db t m)).
Proof.
  intros [Hm Hf Hd]. unfold set_time. cbv zeta. split; [|split].
  - split; cbn [ct_dblMeta ct_tsChunk ct_dbIndex]; [by apply meta_wf_set|done|done].
  - intros t'. unfold time_map. cbn [ct_dblMeta]. rewrite meta_upper_set, meta_lower_set by done.
    case_decide; [subst; by rewrite lookup_insert_eq|]. by rewrite lookup_insert_ne by done.
  - intros Hl t' m' H. cbn [ct_dblMeta] in H. rewrite meta_lower_set in H by done. by apply Hl.
Qed.

Lemma fetched_spec k db fLower t m :
  db_ok k db -> set_time (GetUpdateMap db fLower t).2 t m = set_time db t m.
Proof.
  intros [Hm _ _]. unfold GetUpdateMap. destruct (GetUpperMap (ct_dblMeta db) !! t) as [m0|] eqn:E; [done|].
  unfold set_time. cbn [snd ct_dblMeta ct_dbIndex ct_tsChunk]. f_equal.
  rewrite meta_upper_set, insert_insert_eq by done. destruct (ct_dblMeta db) as [a b i]. unfold meta_wf in Hm. cbn in Hm.
  by destruct Hm as [-> | ->].
Qed.

Lemma Retrieve_spec k db fLower t key :
  db_ok k db -> (fLower = false -> lower_saved db) -> Retrieve db fLower t key = Return (time_map db t !! key).
Proof.
  intros Hok Hl. unfold Retrieve, time_map. destruct (GetUpperMap (ct_dblMeta db) !! t) as [m|]; [done|].
  assert (Hdisk : match LoadFromFile db t with Some chunk => CTSChunk.Find chunk key | None => Return None end =
                  Return (disk_map db t !! key)).
  { destruct (LoadFromFile_cases k db t Hok) as [[-> ->]|(m & Hv & -> & ->)]; [by rewrite lookup_empty|].
    apply CTSChunk.Find_spec, Hv. }
  destruct fLower.
  - by destruct (GetLowerMap (ct_dblMeta db) !! t).
  - rewrite Hdisk. destruct (GetLowerMap (ct_dblMeta db) !! t) as [m|] eqn:E; [|done]. by rewrite (Hl eq_refl _ _ E).
Qed.

(** ** Flushing *)

Lemma flush_lists_spec (m : gmap Z (gmap Z V)) :
  let '(vChunk, vDel) := flush_lists m in
  NoDup vChunk.*1 /\
  (forall t l, (t, l) ∈ vChunk <-> exists v, m !! t = Some v /\ v <> ∅ /\ l = map_entries Z.lt v) /\
  (forall t, t ∈ vDel <-> m !! t = Some ∅) /\
  (length vChunk <= size m)%nat.
Proof.
  unfold flush_lists. cbv zeta. split; [|split; [|split]].
  - rewrite <- list_fmap_compose. apply (NoDup_fst_filter _ (map_entries Z.lt m)), CWalleveStreamOk.NoDup_map_entries.
  - intros t l. rewrite list_elem_of_fmap. split.
    + intros ([t' v] & [= -> ->] & [H1 H2]%elem_of_List_filter). apply CWalleveStreamOk.elem_of_map_entries in H1.
      cbn in H2. bool_to_prop. by exists v.
    + intros (v & H1 & H2 & ->). exists (t, v). split; [done|]. apply elem_of_List_filter.
      split; [by apply CWalleveStreamOk.elem_of_map_entries|]. cbn. by rewrite bool_decide_eq_false_2.
  - intros t. rewrite list_elem_of_fmap. split.
    + intros ([t' v] & -> & [H1 H2]%elem_of_List_filter). apply CWalleveStreamOk.elem_of_map_entries in H1.
      cbn in *. bool_to_prop. by subst.
    + intros H. exists (t, ∅). split; [done|]. apply elem_of_List_filter.
      split; [by apply CWalleveStreamOk.elem_of_map_entries|]. done.
  - rewrite length_map. etrans; [apply filter_length_le|].
    rewrite (CWalleveStreamOk.map_entries_Permutation Z.lt m), length_map_to_list. done.
Qed.

Lemma index_lookup (dbIndex : gmap Z CDiskPos) vTime vPos vDel t :
  NoDup vTime -> length vTime = length vPos ->
  (index_Update dbIndex vTime vPos vDel true).2 !! t =
  if decide (t ∈ vDel) then None
  else match (list_to_map (zip vTime vPos) : gmap Z CDiskPos) !! t with Some p => Some p | None => dbIndex !! t end.
Proof.
  intros Hnd Hl. unfold index_Update. rewrite (proj2 (Nat.eqb_eq _ _)) by done. cbn [negb snd].
  rewrite lookup_erases. case_decide; [done|]. rewrite lookup_writes; [done|].
  rewrite fst_zip by lia. done.
Qed.

(** What the index says of a time after the commit: the entry of the lower map,
    or what it said before *)
Lemma committed_index (lower : gmap Z (gmap Z V)) (dbIndex : gmap Z CDiskPos) (ty : gmap CDiskPos (list Z)) vPos t :
  let '(vChunk, vDel) := flush_lists lower in
  Forall2 (fun pos c => ty !! pos = Some (save C c)) vPos (map snd vChunk) ->
  let dbIndex' := (index_Update dbIndex (map fst vChunk) vPos vDel true).2 in
  match lower !! t with
  | None => dbIndex' !! t = dbIndex !! t
  | Some m => if bool_decide (m = ∅) then dbIndex' !! t = None
              else exists pos, dbIndex' !! t = Some pos /\ ty !! pos = Some (save C (map_entries Z.lt m))
  end.
Proof.
  pose proof (flush_lists_spec lower) as H. destruct (flush_lists lower) as [vChunk vDel].
  destruct H as (Hnd & Hch & Hdel & _). intros Hf. cbv zeta.
  assert (El : length (map fst vChunk) = length vPos).
  { apply Forall2_length in Hf. rewrite !length_map in *. lia. }
  rewrite (index_lookup dbIndex (map fst vChunk) vPos vDel t Hnd El).
  destruct (lower !! t) as [m|] eqn:Em; [destruct (decide (m = ∅)) as [->|Hne]|].
  - rewrite bool_decide_eq_true_2 by done. by rewrite decide_True by (by apply Hdel).
  - rewrite bool_decide_eq_false_2 by done. rewrite decide_False by (rewrite Hdel; naive_solver).
    assert (Hin : (t, map_entries Z.lt m) ∈ vChunk) by (apply Hch; by exists m).
    apply list_elem_of_lookup_1 in Hin as [i Hi].
    destruct (Forall2_lookup_r _ _ _ i (map_entries Z.lt m) Hf) as (pos & Hpos & Hty).
    { rewrite list_lookup_fmap, Hi. done. }
    exists pos. split; [|done]. erewrite elem_of_list_to_map_1; [done| |].
    + rewrite fst_zip by lia. done.
    + apply list_elem_of_lookup. exists i. rewrite lookup_zip_with, Hpos, list_lookup_fmap, Hi. done.
  - rewrite decide_False by (rewrite Hdel; congruence). rewrite not_elem_of_list_to_map_1; [done|].
    rewrite fst_zip by lia. intros ([t' l] & -> & Hin)%list_elem_of_fmap. apply Hch in Hin as (v & Hv & _). cbn in *. congruence.
Qed.

Lemma files_ok_mono k k' ts : k <= k' -> TimeSeries.files_ok k ts -> TimeSeries.files_ok k' ts.
Proof. intros Hk [Hl Hn]. split; [lia|]. intros n H%Hn. lia. Qed.

Lemma disk_map_index (db db' : CCTSDB V) t ty ty' :
  TimeSeries.on_disk (ct_tsChunk db) ty -> TimeSeries.on_disk (ct_tsChunk db') ty' -> ty ⊆ ty' ->
  (forall pos, ct_dbIndex db !! t = Some pos -> exists m, chunk_valid m /\ ty !! pos = Some (save C (map_entries Z.lt m))) ->
  ct_dbIndex db' !! t = ct_dbIndex db !! t -> disk_map db' t = disk_map db t.
Proof.
  intros Hd Hd' Hs Hi E. destruct (ct_dbIndex db !! t) as [pos|] eqn:Ep.
  - destruct (Hi pos eq_refl) as (m & Hv & Hty).
    rewrite (proj2 (LoadFromFile_at db ty t pos m Hd Ep Hv Hty)).
    apply (proj2 (LoadFromFile_at db' ty' t pos m Hd' E Hv (lookup_weaken _ _ _ _ Hty Hs))).
  - unfold disk_map, LoadFromFile. by rewrite E, Ep.
Qed.

(** Writing the chunks without committing changes nothing that is read. *)
Lemma uncommitted_spec k k' db ts ty ty' :
  db_ok k db -> TimeSeries.on_disk (ct_tsChunk db) ty ->
  map_Forall (fun _ pos => exists m, chunk_valid m /\ ty !! pos = Some (save C (map_entries Z.lt m))) (ct_dbIndex db) ->
  TimeSeries.files_ok k' ts -> TimeSeries.on_disk ts ty' -> ty ⊆ ty' ->
  let db' := mkCTSDB (ct_dbIndex db) ts (ct_dblMeta db) in
  db_ok k' db' /\ forall t, time_map db' t = time_map db t.
Proof.
  intros [Hm _ _] Hd Hi Hf Hd' Hs. cbv zeta. split.
  - split; [done|done|]. exists ty'. split; [done|]. eapply map_Forall_impl; [done|]. cbn.
    intros t pos (m & Hv & Hty). exists m. split; [done|]. by eapply lookup_weaken.
  - intros t. unfold time_map. cbn [ct_dblMeta]. do 2 (case_match; [done|]).
    eapply disk_map_index; [done|done|done| |done]. intros pos. apply Hi.
Qed.

Lemma committed_spec k' db ts ty ty' vPos :
  meta_wf (ct_dblMeta db) -> lower_valid db -> TimeSeries.on_disk (ct_tsChunk db) ty ->
  map_Forall (fun _ pos => exists m, chunk_valid m /\ ty !! pos = Some (save C (map_entries Z.lt m))) (ct_dbIndex db) ->
  TimeSeries.files_ok k' ts -> TimeSeries.on_disk ts ty' -> ty ⊆ ty' ->
  let '(vChunk, vDel) := flush_lists (GetLowerMap (ct_dblMeta db)) in
  Forall2 (fun pos c => ty' !! pos = Some (save C c)) vPos (map snd vChunk) ->
  let db' := mkCTSDB (index_Update (ct_dbIndex db) (map fst vChunk) vPos vDel true).2 ts (ct_dblMeta db) in
  db_ok k' db' /\ (forall t, time_map db' t = time_map db t) /\ lower_saved db'.
Proof.
  intros Hm Hval Hd Hi Hf Hd' Hs.
  pose proof (fun t => committed_index (GetLowerMap (ct_dblMeta db)) (ct_dbIndex db) ty' vPos t) as Hc.
  destruct (flush_lists _) as [vChunk vDel]. intros Hp. specialize (fun t => Hc t Hp). cbv zeta in *.
  set (idx := (index_Update _ _ _ _ _).2) in *. set (db' := mkCTSDB idx ts (ct_dblMeta db)).
  assert (Hlow : lower_saved db').
  { intros t m Hl. specialize (Hc t). cbn [db' ct_dblMeta] in Hl. rewrite Hl in Hc. case_bool_decide as Em.
    - unfold disk_map, LoadFromFile. cbn [db' ct_dbIndex]. by rewrite Hc, Em.
    - destruct Hc as (pos & Hpos & Hty). apply (LoadFromFile_at db' ty' t pos m Hd' Hpos (Hval _ _ Hl) Hty). }
  split; [|split; [|done]].
  - split; [done|done|]. exists ty'. split; [done|]. intros t pos Hpos. cbn [db' ct_dbIndex] in Hpos. specialize (Hc t).
    destruct (GetLowerMap (ct_dblMeta db) !! t) as [m|] eqn:El; [case_bool_decide; [congruence|]|].
    + destruct Hc as (pos' & Hpos' & Hty). simplify_eq. exists m. split; [by apply (Hval t)|done].
    + rewrite Hc in Hpos. destruct (Hi _ _ Hpos) as (m & Hv & Hty). exists m. split; [done|]. by eapply lookup_weaken.
  - intros t. unfold time_map. cbn [db' ct_dblMeta]. case_match; [done|]. case_match eqn:El; [done|].
    eapply disk_map_index; [done|done|done|intros pos; apply Hi|]. specialize (Hc t). by rewrite El in Hc.
Qed.

Lemma flush_save_spec k db can_create txn :
  db_ok k db -> lower_valid db -> k + Z.of_nat (size (GetLowerMap (ct_dblMeta db))) < 2 ^ 32 ->
  exists b db', flush_save db can_create txn = Some (b, db') /\
    db_ok (k + Z.of_nat (size (GetLowerMap (ct_dblMeta db)))) db' /\ ct_dblMeta db' = ct_dblMeta db /\
    (forall t, time_map db' t = time_map db t) /\ (b = true -> lower_saved db') /\ (can_create = true -> txn = true -> b = true).
Proof.
  intros Hok Hval Hk. pose proof Hok as [Hm Hf (ty & Hd & Hi)]. set (n := size (GetLowerMap (ct_dblMeta db))) in *.
  pose proof (flush_lists_spec (GetLowerMap (ct_dblMeta db))) as Hfl.
  pose proof (fun k' ts ty' vPos => committed_spec k' db ts ty ty' vPos Hm Hval Hd Hi) as Hcom.
  unfold flush_save. destruct (flush_lists _) as [vChunk vDel]. destruct Hfl as (Hnd & Hch & Hdel & Hlen). fold n in Hlen.
  assert (Hw : exists ok vPos ts ty', (if bool_decide (vChunk = []) then Some (true, [], ct_tsChunk db)
      else TimeSeries.Chunk.WriteBatch C can_create (ct_tsChunk db) (map snd vChunk)) = Some (ok, vPos, ts) /\
      TimeSeries.files_ok (k + Z.of_nat n) ts /\ TimeSeries.on_disk ts ty' /\ ty ⊆ ty' /\
      (ok = true -> Forall2 (fun pos c => ty' !! pos = Some (save C c)) vPos (map snd vChunk)) /\ (can_create = true -> ok = true)).
  { case_bool_decide as Ev.
    - exists true, [], (ct_tsChunk db), ty. subst. split_and!; try done. by eapply files_ok_mono; [|done]; lia.
    - destruct (TimeSeries.WriteBatch_spec C can_create k (ct_tsChunk db) ty (map snd vChunk)) as (ok & vPos & ts & ty' & E & Hf' & H);
        [done|rewrite length_map; lia|done| |].
      { apply Forall_map, Forall_forall. intros [t l] (v & Hv & _ & ->)%Hch. apply (Hval _ _ Hv). }
      exists ok, vPos, ts, ty'. rewrite length_map in Hf'. split; [done|]. split; [|done]. eapply files_ok_mono; [|done]. lia. }
  destruct Hw as (ok & vPos & ts & ty' & -> & Hf' & Hd' & Hs & Hp & Hcc). cbn [mbind option_bind].
  destruct (uncommitted_spec k _ db ts ty ty' Hok Hd Hi Hf' Hd' Hs) as [Ho Ht].
  destruct ok; cbn [negb]; [|eexists false, _; split; [done|]; split; [done|]; split_and!; try done; by intros Hc; specialize (Hcc Hc)].
  specialize (Hp eq_refl). destruct (bool_decide (vPos = []) && bool_decide (vDel = [])) eqn:E0.
  - bool_to_prop. subst. eexists true, _. split; [done|]. split; [done|]. split; [done|]. split; [done|]. split; [|done].
    intros _ t m Hl. exfalso. cbn [ct_dblMeta] in Hl. destruct (decide (m = ∅)) as [->|Hne].
    + by apply Hdel, not_elem_of_nil in Hl.
    + apply Forall2_nil_inv_l in Hp. apply map_eq_nil in Hp. subst.
      apply (not_elem_of_nil (t, map_entries Z.lt m)), Hch. by exists m.
  - assert (El : length (map fst vChunk) = length vPos).
    { apply Forall2_length in Hp. rewrite !length_map in *. lia. }
    destruct txn.
    + destruct (Hcom _ ts ty' vPos Hf' Hd' Hs Hp) as (Ho' & Ht' & Hl). unfold index_Update in *.
      rewrite (proj2 (Nat.eqb_eq _ _)) in * by done. cbn [negb snd] in *. eexists true, _. split; [done|]. done.
    + unfold index_Update. rewrite (proj2 (Nat.eqb_eq _ _)) by done. cbn [negb]. eexists false, _. split; [done|]. done.
Qed.

Lemma flush_flip_spec k db :
  db_ok k db -> lower_saved db -> db_ok k (flush_flip db) /\ forall t, time_map (flush_flip db) t = time_map db t.
Proof.
  intros [Hm Hf Hd] Hl. destruct (meta_flip _ Hm) as (Eu & El & Hw). split; [by split|].
  intros t. unfold time_map, flush_flip. cbn [ct_dblMeta]. rewrite Eu, El, lookup_empty.
  destruct (GetUpperMap (ct_dblMeta db) !! t); [done|].
  destruct (GetLowerMap (ct_dblMeta db) !! t) as [m|] eqn:E; [|done]. by apply Hl.
Qed.

Lemma modify_spec k db fLower t f :
  db_ok k db -> (fLower = false -> lower_saved db) ->
  let db' := (let '(m, db) := GetUpdateMap db fLower t in set_time db t (f m)) in
  db_ok k db' /\ (lower_saved db -> lower_saved db') /\
  forall t', time_map db' t' = if decide (t' = t) then f (time_map db t) else time_map db t'.
Proof.
  intros Hok Hl. cbv zeta. pose proof (GetUpdateMap_spec k db fLower t Hok Hl) as E1.
  pose proof (fetched_spec k db fLower t (f (time_map db t)) Hok) as E2.
  destruct (GetUpdateMap db fLower t) as [m db1]. cbn [fst snd] in *. subst m. rewrite E2.
  destruct (set_time_spec k db t (f (time_map db t)) Hok) as (H1 & H2 & H3). done.
Qed.

(** the database implements one map per time.  In a well-formed state,
    [Retrieve] returns what the meaning of the time says of the key, [Update] and
    [Erase] change the meaning of their time at their key and no other, also while a
    flush holds the lower map but has committed it; the first part of a flush
    always ends and changes no meaning, whether files can be created and its
    transaction commits or not, and
    if it succeeds the lower map is on disk; then the flip changes no meaning. *)
Theorem cts_refines (k : Z) (db : CCTSDB V) (Hok : db_ok k db) :
  (forall fLower t key, (fLower = false -> lower_saved db) ->
     Retrieve db fLower t key = Return (time_map db t !! key)) /\
  (forall fLower t key v, (fLower = false -> lower_saved db) ->
     let db' := Update db fLower t key v in
     db_ok k db' /\ (lower_saved db -> lower_saved db') /\
     forall t', time_map db' t' = if decide (t' = t) then <[key := v]> (time_map db t) else time_map db t') /\
  (forall fLower t key, (fLower = false -> lower_saved db) ->
     let db' := Erase db fLower t key in
     db_ok k db' /\ (lower_saved db -> lower_saved db') /\
     forall t', time_map db' t' = if decide (t' = t) then delete key (time_map db t) else time_map db t') /\
  (forall can_create txn, lower_valid db -> k + Z.of_nat (size (GetLowerMap (ct_dblMeta db))) < 2 ^ 32 ->
     exists b db', flush_save db can_create txn = Some (b, db') /\
       db_ok (k + Z.of_nat (size (GetLowerMap (ct_dblMeta db)))) db' /\
       (forall t, time_map db' t = time_map db t) /\ (b = true -> lower_saved db') /\ (can_create = true -> txn = true -> b = true)) /\
  (lower_saved db -> db_ok k (flush_flip db) /\ forall t, time_map (flush_flip db) t = time_map db t).
Proof.
  split; [|split; [|split; [|split]]].
  - intros. by apply (Retrieve_spec k).
  - intros fLower t key v Hl. apply (modify_spec k db fLower t (fun m => <[key := v]> m) Hok Hl).
  - intros fLower t key Hl. apply (modify_spec k db fLower t (fun m => delete key m) Hok Hl).
  - intros can_create txn Hv Hk. destruct (flush_save_spec k db can_create txn Hok Hv Hk) as (b & db' & E & H1 & _ & H2). eauto.
  - by apply flush_flip_spec.
Qed.

End db.

End CTSDB.

(** ** The index of transactions *)

Module TxIndexDB.

Import CTSDB.

Section txindex.
Context (C : codec (list (Z * CTxIndex))).

(** [mapTxDB] *)
Notation Forks := (gmap Z (CCTSDB CTxIndex)).

(** [opened] is the index and the files found when the database of the fork is
    opened, [None] if that fails. *)
Definition LoadFork (dbs : Forks) (hashFork : Z) (opened : option (gmap Z CDiskPos * gmap Z (list Z))) : bool * Forks :=
  match dbs !! hashFork with
  | Some _ => (true, dbs)
  | None => match opened with
            | None => (false, dbs)
            | Some (dbIndex, files) => (true, <[hashFork := init dbIndex files]> dbs)
            end
  end.

Definition update_tx (fLower : bool) (db : CCTSDB CTxIndex) (e : Z * CTxIndex) : CCTSDB CTxIndex :=
  CTSDB.Update C db fLower (Tx.txid_GetTxTime e.1) (Tx.txid_GetTxHash e.1) e.2.

Definition erase_tx (fLower : bool) (db : CCTSDB CTxIndex) (txid : Z) : CCTSDB CTxIndex :=
  CTSDB.Erase C db fLower (Tx.txid_GetTxTime txid) (Tx.txid_GetTxHash txid).

(** [fLower] is the result of the [ReadTryLock]s: the flush thread does not
    change over while the database is updated. *)
Definition Update (dbs : Forks) (fLower : bool) (hashFork : Z) (vTxNew : list (Z * CTxIndex)) (vTxDel : list Z)
    : bool * Forks :=
  match dbs !! hashFork with
  | None => (false, dbs)
  | Some db => (true, <[hashFork := foldl (erase_tx fLower) (foldl (update_tx fLower) db vTxNew) vTxDel]> dbs)
  end.

Definition RetrieveIn (dbs : Forks) (fLower : bool) (hashFork txid : Z) : outcome (option CTxIndex) :=
  match dbs !! hashFork with
  | None => Return None
  | Some db => CTSDB.Retrieve C db fLower (Tx.txid_GetTxTime txid) (Tx.txid_GetTxHash txid)
  end.

(** [Retrieve(txid,txIndex,hashFork)]: the first fork, in the order of the map,
    that has the transaction; [fLower] for the database of each fork *)
Fixpoint find_fork (fLower : Z -> bool) (l : list (Z * CCTSDB CTxIndex)) (txid : Z) : outcome (option (Z * CTxIndex)) :=
  match l with
  | [] => Return None
  | (hashFork, db) :: l =>
      r ← CTSDB.Retrieve C db (fLower hashFork) (Tx.txid_GetTxTime txid) (Tx.txid_GetTxHash txid);
      match r with
      | Some txIndex => Return (Some (hashFork, txIndex))
      | None => find_fork fLower l txid
      end
  end.

Definition Retrieve (dbs : Forks) (fLower : Z -> bool) (txid : Z) : outcome (option (Z * CTxIndex)) :=
  find_fork fLower (map_entries Z.lt dbs) txid.

(** *** Specification *)

(** The entry of a transaction in a fork *)
Definition entry (dbs : Forks) (hashFork txid : Z) : option CTxIndex :=
  dbs !! hashFork ≫= fun db => time_map C db (Tx.txid_GetTxTime txid) !! Tx.txid_GetTxHash txid.

Definition forks_ok (k : Z) (dbs : Forks) : Prop := map_Forall (fun _ db => db_ok C k db) dbs.

(** What [Update] leaves of a transaction: nothing if it is in [vTxDel], its last
    entry in [vTxNew], or what was there *)
Definition updated (vTxNew : list (Z * CTxIndex)) (vTxDel : list Z) (old : option CTxIndex) (txid : Z) : option CTxIndex :=
  if bool_decide (txid ∈ vTxDel) then None
  else foldl (fun r e => if e.1 =? txid then Some e.2 else r) old vTxNew.

Context `{!CodecOk C}.

Lemma txid_split_inj a b :
  is_uint 256 a -> is_uint 256 b -> Tx.txid_GetTxTime a = Tx.txid_GetTxTime b -> Tx.txid_GetTxHash a = Tx.txid_GetTxHash b ->
  a = b.
Proof.
  unfold is_uint, Tx.txid_GetTxTime, Tx.txid_GetTxHash, wrap. intros Ha Hb. rewrite !Z.shiftr_div_pow2 by lia. intros E1 E2.
  assert (Hd : forall x, 0 <= x < 2 ^ 256 -> 0 <= x / 2 ^ 224 < 2 ^ 32).
  { intros x Hx. split; [apply Z.div_pos; lia|]. apply Z.div_lt_upper_bound; lia. }
  rewrite !Z.mod_small in E1 by (by apply Hd).
  rewrite (Z.div_mod a (2 ^ 224)), (Z.div_mod b (2 ^ 224)) by lia. by rewrite E1, E2.
Qed.

Definition tx_entry (db : CCTSDB CTxIndex) (txid : Z) : option CTxIndex :=
  time_map C db (Tx.txid_GetTxTime txid) !! Tx.txid_GetTxHash txid.

(** The lower map is at hand, or it is on disk. *)
Definition readable (fLower : bool) (db : CCTSDB CTxIndex) : Prop := fLower = false -> lower_saved C db.

Lemma update_tx_spec k fLower db e :
  is_uint 256 e.1 -> db_ok C k db -> readable fLower db ->
  let db' := update_tx fLower db e in
  db_ok C k db' /\ (lower_saved C db -> lower_saved C db') /\
  forall txid, is_uint 256 txid -> tx_entry db' txid = if e.1 =? txid then Some e.2 else tx_entry db txid.
Proof.
  intros He Hok Hl. destruct (modify_spec C k db fLower (Tx.txid_GetTxTime e.1) (fun m => <[Tx.txid_GetTxHash e.1 := e.2]> m) Hok Hl)
    as (Hok' & Hs & Ht). split; [exact Hok'|]. split; [exact Hs|]. intros txid Htx.
  unfold tx_entry, update_tx, CTSDB.Update. rewrite Ht. destruct (Z.eqb_spec e.1 txid) as [->|Hne].
  - rewrite decide_True by done. apply lookup_insert_eq.
  - case_decide as Et; [|done]. rewrite lookup_insert_ne; [by rewrite Et|]. intros Eh. apply Hne. symmetry.
    by apply txid_split_inj.
Qed.

Lemma erase_tx_spec k fLower db x :
  is_uint 256 x -> db_ok C k db -> readable fLower db ->
  let db' := erase_tx fLower db x in
  db_ok C k db' /\ (lower_saved C db -> lower_saved C db') /\
  forall txid, is_uint 256 txid -> tx_entry db' txid = if decide (txid = x) then None else tx_entry db txid.
Proof.
  intros Hx Hok Hl. destruct (modify_spec C k db fLower (Tx.txid_GetTxTime x) (fun m => delete (Tx.txid_GetTxHash x) m) Hok Hl)
    as (Hok' & Hs & Ht). split; [exact Hok'|]. split; [exact Hs|]. intros txid Htx.
  unfold tx_entry, erase_tx, CTSDB.Erase. rewrite Ht. destruct (decide (txid = x)) as [->|Hne].
  - rewrite decide_True by done. apply lookup_delete_eq.
  - case_decide as Et; [|done]. rewrite lookup_delete_ne; [by rewrite Et|]. intros Eh. apply Hne. by apply txid_split_inj.
Qed.

Lemma update_txs_spec k fLower vTxNew db :
  Forall (fun e => is_uint 256 e.1) vTxNew -> db_ok C k db -> readable fLower db ->
  let db' := foldl (update_tx fLower) db vTxNew in
  db_ok C k db' /\ (lower_saved C db -> lower_saved C db') /\
  forall txid, is_uint 256 txid -> tx_entry db' txid = foldl (fun r e => if e.1 =? txid then Some e.2 else r) (tx_entry db txid) vTxNew.
Proof.
  intros Hu. revert db. induction Hu as [|e l He _ IH]; intros db Hok Hl; [done|]. cbn [foldl].
  destruct (update_tx_spec k fLower db e He Hok Hl) as (Hok' & Hs' & Ht). destruct (IH _ Hok') as (Hok2 & Hs2 & Hf); [intros E; auto|].
  split; [done|]. split; [auto|]. intros txid Htx. by rewrite Hf, Ht.
Qed.

Lemma erase_txs_spec k fLower vTxDel db :
  Forall (is_uint 256) vTxDel -> db_ok C k db -> readable fLower db ->
  let db' := foldl (erase_tx fLower) db vTxDel in
  db_ok C k db' /\ (lower_saved C db -> lower_saved C db') /\
  forall txid, is_uint 256 txid -> tx_entry db' txid = if bool_decide (txid ∈ vTxDel) then None else tx_entry db txid.
Proof.
  intros Hu. revert db. induction Hu as [|x l Hx _ IH]; intros db Hok Hl; [done|]. cbn [foldl].
  destruct (erase_tx_spec k fLower db x Hx Hok Hl) as (Hok' & Hs' & Ht). destruct (IH _ Hok') as (Hok2 & Hs2 & Hf); [intros E; auto|].
  split; [done|]. split; [auto|]. intros txid Htx. rewrite Hf, Ht by done. destruct (decide (txid = x)) as [->|Hne].
  - rewrite (bool_decide_eq_true_2 (x ∈ x :: l)) by by left. by case_bool_decide.
  - rewrite (bool_decide_ext (txid ∈ x :: l) (txid ∈ l)); [done|]. rewrite elem_of_cons. tauto.
Qed.

(** The update of one database *)
Lemma update_db_spec k fLower vTxNew vTxDel db :
  Forall (fun e => is_uint 256 e.1) vTxNew -> Forall (is_uint 256) vTxDel -> db_ok C k db -> readable fLower db ->
  let db' := foldl (erase_tx fLower) (foldl (update_tx fLower) db vTxNew) vTxDel in
  db_ok C k db' /\ (lower_saved C db -> lower_saved C db') /\
  forall txid, is_uint 256 txid -> tx_entry db' txid = updated vTxNew vTxDel (tx_entry db txid) txid.
Proof.
  intros Hn Hd Hok Hl. destruct (update_txs_spec k fLower vTxNew db Hn Hok Hl) as (Hok1 & Hs1 & H1).
  destruct (erase_txs_spec k fLower vTxDel _ Hd Hok1) as (Hok2 & Hs2 & H2); [intros E; auto|]. split; [done|]. split; [auto|].
  intros txid Htx. rewrite H2, H1 by done. done.
Qed.

Lemma Update_entries k dbs hashFork vTxNew vTxDel :
  forks_ok k dbs -> is_Some (dbs !! hashFork) ->
  Forall (fun e => is_uint 256 e.1) vTxNew -> Forall (is_uint 256) vTxDel ->
  exists dbs', Update dbs true hashFork vTxNew vTxDel = (true, dbs') /\ forks_ok k dbs' /\ dom dbs' = dom dbs /\
    forall f txid, is_uint 256 txid ->
      entry dbs' f txid = if f =? hashFork then updated vTxNew vTxDel (entry dbs f txid) txid else entry dbs f txid.
Proof.
  intros Hok [db Hdb] Hn Hd. unfold Update. rewrite Hdb. eexists. split; [done|].
  destruct (update_db_spec k true vTxNew vTxDel db Hn Hd (Hok _ _ Hdb)) as (Hok1 & _ & H1); [done|]. split; [by apply map_Forall_insert_2|].
  split; [rewrite dom_insert_lookup_L by eauto; done|].
  intros f txid Htx. unfold entry. destruct (Z.eqb_spec f hashFork) as [->|Hne].
  - rewrite lookup_insert_eq, Hdb. cbn [mbind option_bind]. by apply H1.
  - by rewrite lookup_insert_ne by done.
Qed.

(** *** The index and its flush thread *)

(** What the index stands for: for every fork that is loaded, the entries of the
    transactions *)
Notation Entries := (gmap Z (Z -> option CTxIndex)).

Definition spec_entry (M : Entries) (hashFork txid : Z) : option CTxIndex := M !! hashFork ≫= fun m => m txid.

Definition spec_update (hashFork : Z) (vTxNew : list (Z * CTxIndex)) (vTxDel : list Z) (M : Entries) : Entries :=
  alter (fun m txid => updated vTxNew vTxDel (m txid) txid) hashFork M.

Definition spec_load (hashFork : Z) (M : Entries) : Entries :=
  match M !! hashFork with Some _ => M | None => <[hashFork := fun _ => None]> M end.

(** [ReadTryLock] on the lower map of a fork fails while the flush thread, having
    saved that map, holds it for writing; [busy] is the fork where it does. *)
Definition try_lower (busy : option Z) (hashFork : Z) : bool := negb (bool_decide (busy = Some hashFork)).

(** The states the index and its flush thread go through, from no fork on, with
    what they stand for.  A flush is two steps, between which the others can take
    theirs: the lower map is saved, which can fail because no file can be created
    or the table does not commit, and then ends the flush; after that the maps
    are flipped.  [k] bounds the number of files. *)
Inductive runs : Z -> Forks -> option Z -> Entries -> Prop :=
  | runs_start : runs 1 ∅ None ∅
  | runs_load k dbs busy M hashFork :
      runs k dbs busy M -> runs k (LoadFork dbs hashFork (Some (∅, ∅))).2 busy (spec_load hashFork M)
  | runs_update k dbs busy M hashFork vTxNew vTxDel :
      runs k dbs busy M -> Forall (fun e => is_uint 256 e.1) vTxNew -> Forall (is_uint 256) vTxDel ->
      runs k (Update dbs (try_lower busy hashFork) hashFork vTxNew vTxDel).2 busy (spec_update hashFork vTxNew vTxDel M)
  | runs_save k dbs M hashFork db can_create txn b db' :
      runs k dbs None M -> dbs !! hashFork = Some db -> lower_valid C db ->
      k + Z.of_nat (size (GetLowerMap (ct_dblMeta db))) < 2 ^ 32 -> flush_save C db can_create txn = Some (b, db') ->
      runs (k + Z.of_nat (size (GetLowerMap (ct_dblMeta db)))) (<[hashFork := db']> dbs) (if b : bool then Some hashFork else None) M
  | runs_flip k dbs M hashFork db :
      runs k dbs (Some hashFork) M -> dbs !! hashFork = Some db -> runs k (<[hashFork := flush_flip db]> dbs) None M.

(** The state [dbs] stands for [M]. *)
Record stands_for (k : Z) (dbs : Forks) (busy : option Z) (M : Entries) : Prop := {
  sf_files : 1 <= k;
  sf_forks : forks_ok k dbs;
  sf_busy : forall f db, busy = Some f -> dbs !! f = Some db -> lower_saved C db;
  sf_loaded : forall f, is_Some (dbs !! f) <-> is_Some (M !! f);
  sf_entries : forall f db m txid, dbs !! f = Some db -> M !! f = Some m -> is_uint 256 txid -> tx_entry db txid = m txid;
}.

Lemma db_ok_mono k k' (db : CCTSDB CTxIndex) : k <= k' -> db_ok C k db -> db_ok C k' db.
Proof. intros Hk [Hm Hf Hd]. split; [done|by eapply files_ok_mono|done]. Qed.

Lemma init_ok k : 1 <= k -> db_ok C k (init ∅ ∅).
Proof.
  intros Hk. split; [by left|split; [cbn; lia|]; intros n [x Hx]; discriminate Hx|].
  exists ∅. split; apply map_Forall_empty.
Qed.

Lemma busy_readable k dbs busy M f db :
  stands_for k dbs busy M -> dbs !! f = Some db -> readable (try_lower busy f) db.
Proof.
  intros H Hdb E. unfold try_lower in E. apply negb_false_iff, bool_decide_eq_true in E. by apply (sf_busy _ _ _ _ H f).
Qed.

(** A change of one database that keeps what it stands for *)
Lemma stands_for_set k k' dbs busy busy' M f db db' :
  stands_for k dbs busy M -> dbs !! f = Some db -> k <= k' -> db_ok C k' db' -> (forall t, time_map C db' t = time_map C db t) ->
  (forall f', busy' = Some f' -> f' = f /\ lower_saved C db') -> stands_for k' (<[f := db']> dbs) busy' M.
Proof.
  intros [H1 H2 H3 H4 H5] Hdb Hk Hok Ht Hb. split; [lia| | |..].
  - apply map_Forall_insert_2; [done|]. intros f' db0 E. by apply (db_ok_mono k), (H2 f').
  - intros f' db0 E. destruct (Hb f' E) as [-> Hs]. rewrite lookup_insert_eq. by intros [= <-].
  - intros f'. rewrite <- H4. destruct (decide (f' = f)) as [->|Hne]; [|by rewrite lookup_insert_ne].
    rewrite lookup_insert_eq, Hdb. split; by eexists.
  - intros f' db0 m txid E Em Htx. destruct (decide (f' = f)) as [->|Hne].
    + rewrite lookup_insert_eq in E. injection E as <-. unfold tx_entry. rewrite Ht. by apply (H5 f).
    + rewrite lookup_insert_ne in E by done. by apply (H5 f').
Qed.

Lemma load_stands k dbs busy M f :
  stands_for k dbs busy M -> stands_for k (LoadFork dbs f (Some (∅, ∅))).2 busy (spec_load f M).
Proof.
  intros H. pose proof H as [H1 H2 H3 H4 H5]. unfold LoadFork, spec_load. destruct (dbs !! f) as [db|] eqn:E.
  { destruct (proj1 (H4 f)) as [m Em]; [by rewrite E|]. by rewrite Em. }
  destruct (M !! f) as [m|] eqn:Em; [destruct (proj2 (H4 f)) as [? ?]; [by rewrite Em|congruence]|]. cbn [snd].
  split; [done|apply map_Forall_insert_2; [by apply init_ok|done]| |..].
  - intros f' db Eb. destruct (decide (f' = f)) as [->|Hne]; [|rewrite lookup_insert_ne by done; by apply H3].
    rewrite lookup_insert_eq. intros [= <-] t m Hm. discriminate Hm.
  - intros f'. destruct (decide (f' = f)) as [->|Hne]; [rewrite !lookup_insert_eq; split; by eexists|by rewrite !lookup_insert_ne].
  - intros f' db m txid E' Em' Htx. destruct (decide (f' = f)) as [->|Hne].
    + rewrite lookup_insert_eq in E'. rewrite lookup_insert_eq in Em'. injection E' as <-. injection Em' as <-. reflexivity.
    + rewrite lookup_insert_ne in E' by done. rewrite lookup_insert_ne in Em' by done. by apply (H5 f').
Qed.

Lemma update_stands k dbs busy M f vTxNew vTxDel :
  stands_for k dbs busy M -> Forall (fun e => is_uint 256 e.1) vTxNew -> Forall (is_uint 256) vTxDel ->
  stands_for k (Update dbs (try_lower busy f) f vTxNew vTxDel).2 busy (spec_update f vTxNew vTxDel M).
Proof.
  intros H Hn Hd. pose proof H as [H1 H2 H3 H4 H5]. unfold Update, spec_update. destruct (dbs !! f) as [db|] eqn:E.
  2: { rewrite alter_id; [done|]. intros m Em. exfalso. destruct (proj2 (H4 f)) as [? ?]; [by rewrite Em|congruence]. }
  destruct (proj1 (H4 f)) as [m Em]; [by rewrite E|]. cbn [snd].
  destruct (update_db_spec k (try_lower busy f) vTxNew vTxDel db Hn Hd (H2 _ _ E) (busy_readable _ _ _ _ _ _ H E)) as (Hok & Hs & He).
  split; [done|by apply map_Forall_insert_2| |..].
  - intros f' db0 Eb. destruct (decide (f' = f)) as [->|Hne]; [|rewrite lookup_insert_ne by done; by apply H3].
    rewrite lookup_insert_eq. intros [= <-]. by apply Hs, (H3 f).
  - intros f'. destruct (decide (f' = f)) as [->|Hne]; [rewrite lookup_insert_eq, lookup_alter_eq, Em; split; by eexists|].
    by rewrite lookup_insert_ne, lookup_alter_ne.
  - intros f' db0 m0 txid E' Em' Htx. destruct (decide (f' = f)) as [->|Hne].
    + rewrite lookup_insert_eq in E'. rewrite lookup_alter_eq, Em in Em'. injection E' as <-. injection Em' as <-.
      rewrite He by done. f_equal. by apply (H5 f).
    + rewrite lookup_insert_ne in E' by done. rewrite lookup_alter_ne in Em' by done. by apply (H5 f').
Qed.

Lemma runs_stands k dbs busy M : runs k dbs busy M -> stands_for k dbs busy M.
Proof.
  induction 1 as [|k dbs busy M f _ IH|k dbs busy M f vTxNew vTxDel _ IH Hn Hd|k dbs M f db can_create txn b db' _ IH Hdb Hv Hk E|k dbs M f db _ IH Hdb].
  - split; [lia|apply map_Forall_empty|done|intros f; by rewrite !lookup_empty|]. intros f db m txid Hf. by rewrite lookup_empty in Hf.
  - by apply load_stands.
  - by apply update_stands.
  - destruct (flush_save_spec C k db can_create txn (sf_forks _ _ _ _ IH _ _ Hdb) Hv Hk) as (b0 & db0 & E0 & Hok & _ & Ht & Hs & _).
    rewrite E in E0. injection E0 as <- <-. eapply stands_for_set; [done|done|lia|done|done|].
    intros f' Hf. destruct b; [|done]. injection Hf as <-. by split; [|apply Hs].
  - destruct (flush_flip_spec C k db (sf_forks _ _ _ _ IH _ _ Hdb) (sf_busy _ _ _ _ IH f db eq_refl Hdb)) as [Hok Ht].
    by eapply stands_for_set; [done|done|lia|done|done|].
Qed.

Lemma find_fork_spec k fLower l txid :
  Forall (fun e => db_ok C k e.2 /\ readable (fLower e.1) e.2) l ->
  exists r, find_fork fLower l txid = Return r /\
    match r with
    | Some (f, x) => exists db, (f, db) ∈ l /\ tx_entry db txid = Some x
    | None => forall f db, (f, db) ∈ l -> tx_entry db txid = None
    end.
Proof.
  induction 1 as [|[f db] l [Hdb Hr] Hl IH]; cbn [find_fork].
  - exists None. split; [done|]. intros f db H. by apply not_elem_of_nil in H.
  - rewrite (Retrieve_spec C k) by done. cbn [mbind outcome_bind]. fold (tx_entry db txid).
    destruct (tx_entry db txid) as [x|] eqn:E.
    + exists (Some (f, x)). split; [done|]. exists db. split; [by left|done].
    + destruct IH as (r & -> & Hr'). exists r. split; [done|]. destruct r as [[f' x]|].
      * destruct Hr' as (db' & Hin & Hx). exists db'. split; [by right|done].
      * intros f' db' [[= -> ->]|Hin]%elem_of_cons; [done|]. by apply (Hr' f').
Qed.

(** C37: the index of transactions implements one map per fork, beside the thread
    that flushes it.  However loads of new forks, updates and the two parts of
    flushes follow each other, also when a flush fails to create a file or to
    commit, a look-up in a fork returns the entry that the updates so far have
    left, a look-up in all forks an entry of some fork that has the transaction,
    or nothing when none has; this holds too between the two parts of a flush,
    when the lower map cannot be read.  If the chunks to be written are values of
    their types that fit a chunk of the files, saving the lower map always ends,
    and it succeeds if files can be created and the table commits. *)
Theorem txindex_refines (k : Z) (dbs : Forks) (busy : option Z) (M : Entries) (Hruns : runs k dbs busy M) :
  (forall hashFork txid, is_uint 256 txid ->
     RetrieveIn dbs (try_lower busy hashFork) hashFork txid = Return (spec_entry M hashFork txid)) /\
  (forall txid, is_uint 256 txid -> exists r, Retrieve dbs (try_lower busy) txid = Return r /\
     match r with
     | Some (f, x) => spec_entry M f txid = Some x
     | None => forall f, spec_entry M f txid = None
     end) /\
  (forall hashFork db can_create txn, dbs !! hashFork = Some db -> lower_valid C db ->
     k + Z.of_nat (size (GetLowerMap (ct_dblMeta db))) < 2 ^ 32 ->
     exists b db', flush_save C db can_create txn = Some (b, db') /\ (can_create = true -> txn = true -> b = true)).
Proof.
  apply runs_stands in Hruns as H. pose proof H as [H1 H2 H3 H4 H5].
  assert (He : forall f db txid, dbs !! f = Some db -> is_uint 256 txid -> tx_entry db txid = spec_entry M f txid).
  { intros f db txid Hdb Htx. destruct (proj1 (H4 f)) as [m Em]; [by rewrite Hdb|]. unfold spec_entry. rewrite Em. by apply (H5 f). }
  split; [|split].
  - intros f txid Htx. unfold RetrieveIn. destruct (dbs !! f) as [db|] eqn:E.
    + rewrite <- (He f db) by done. apply (Retrieve_spec C k); [by apply (H2 f)|]. by eapply busy_readable.
    + unfold spec_entry. destruct (M !! f) as [m|] eqn:Em; [|done]. destruct (proj2 (H4 f)) as [? ?]; [by rewrite Em|congruence].
  - intros txid Htx. unfold Retrieve. destruct (find_fork_spec k (try_lower busy) (map_entries Z.lt dbs) txid) as (r & -> & Hr).
    { apply Forall_forall. intros [f db] Hin. apply CWalleveStreamOk.elem_of_map_entries in Hin. split; [by apply (H2 f)|by eapply busy_readable]. }
    exists r. split; [done|]. destruct r as [[f x]|].
    + destruct Hr as (db & Hin & Hx). apply CWalleveStreamOk.elem_of_map_entries in Hin. by rewrite <- (He f db).
    + intros f. destruct (dbs !! f) as [db|] eqn:E.
      * rewrite <- (He f db) by done. apply (Hr f). by apply CWalleveStreamOk.elem_of_map_entries.
      * unfold spec_entry. destruct (M !! f) as [m|] eqn:Em; [|done]. destruct (proj2 (H4 f)) as [? ?]; [by rewrite Em|congruence].
  - intros f db can_create txn Hdb Hv Hk. destruct (flush_save_spec C k db can_create txn (H2 _ _ Hdb) Hv Hk) as (b & db' & E & _ & _ & _ & _ & Hb).
    by exists b, db'.
Qed.

End txindex.
(** The memory of a [CTxIndex] *)
Definition txindex_memory : codec CTxIndex :=
  object_codec (fun x => (txi_nBlockHeight x, txi_nFile x, txi_nOffset x)) (fun x => mkTxIndex x.1.1 x.1.2 x.2)
    (sint_codec 4 ** uint_codec 4 ** uint_codec 4).

#[export] Instance txindex_memory_ok : CodecOk txindex_memory.
Proof. unfold txindex_memory. apply _. Qed.

(** The chunks of the index of transactions: pairs of 40 bytes *)
Definition txindex_chunk (Compress : list Z -> list Z) (Uncompress : list Z -> option (list Z)) : codec (list (Z * CTxIndex)) :=
  CTSChunk.snappy_codec Compress Uncompress txindex_memory 40.

Lemma snappy_txindex Compress Uncompress :
  (forall s, Uncompress (Compress s) = Some s) -> CTSChunk.SnappyOk Compress Uncompress txindex_memory 40.
Proof. intros H. split; [done| |lia]. intros e _. reflexivity. Qed.

(** ** Two transactions of one second *)

Definition sample_chunk : codec (list (Z * CTxIndex)) := txindex_chunk id Some.

#[local] Instance sample_chunk_ok : CodecOk sample_chunk.
Proof.
  pose proof (snappy_txindex id Some ltac:(reflexivity)). apply CTSChunk.snappy_codec_ok; apply _.
Defined.

Definition sample_txid (n : Z) : Z := Z.shiftl 1546300800 224 + n.

Lemma sample_txid_uint n : 0 <= n < 2 ^ 200 -> is_uint 256 (sample_txid n).
Proof. intros Hn. unfold sample_txid, is_uint. rewrite Z.shiftl_mul_pow2 by lia. lia. Qed.

Definition sample_new : list (Z * CTxIndex) := [(sample_txid 3, mkTxIndex 7 1 100); (sample_txid 4, mkTxIndex 7 1 300)].

(** The database of fork 1 after an update, and when a first flush, which had
    nothing to write, has flipped its maps *)
Definition sample_updated : CCTSDB CTxIndex :=
  foldl (erase_tx sample_chunk true) (foldl (update_tx sample_chunk true) (init ∅ ∅) sample_new) [sample_txid 4].

Definition sample_flipped : CCTSDB CTxIndex := flush_flip sample_updated.

Definition sample_entries : gmap Z (Z -> option CTxIndex) := spec_update 1 sample_new [sample_txid 4] (spec_load 1 ∅).

Lemma sample_runs : runs sample_chunk 1 {[1 := sample_flipped]} None sample_entries.
Proof.
  assert (H1 : runs sample_chunk 1 {[1 := sample_updated]} None sample_entries).
  { assert (E : {[1 := sample_updated]} = (Update sample_chunk (LoadFork ∅ 1 (Some (∅, ∅))).2 (try_lower None 1) 1 sample_new [sample_txid 4]).2).
    { vm_compute. reflexivity. }
    rewrite E. apply runs_update; [apply runs_load, runs_start| |].
    - repeat apply List.Forall_cons; try apply List.Forall_nil; apply sample_txid_uint; lia.
    - apply List.Forall_cons; [apply sample_txid_uint; lia|apply List.Forall_nil]. }
  assert (Hs : runs sample_chunk 1 {[1 := sample_updated]} (Some 1) sample_entries).
  { assert (E : {[1 := sample_updated]} = <[1 := sample_updated]> ({[1 := sample_updated]} : gmap Z _)) by (symmetry; apply insert_singleton_eq).
    rewrite E. apply (runs_save sample_chunk 1 {[1 := sample_updated]} sample_entries 1 sample_updated true true true).
    - exact H1.
    - by rewrite lookup_singleton_eq.
    - intros t m Hm. vm_compute in Hm. discriminate Hm.
    - vm_compute. reflexivity.
    - vm_compute. reflexivity. }
  assert (E : {[1 := sample_flipped]} = <[1 := sample_flipped]> ({[1 := sample_updated]} : gmap Z _)) by (symmetry; apply insert_singleton_eq).
  rewrite E. apply (runs_flip _ _ _ _ _ _ Hs). by rewrite lookup_singleton_eq.
Qed.

Lemma sample_flipped_valid : lower_valid sample_chunk sample_flipped.
Proof.
  intros t m Hm. assert (m = {[3 := mkTxIndex 7 1 100]}) as ->.
  { assert (El : GetLowerMap (ct_dblMeta sample_flipped) = {[1546300800 := {[3 := mkTxIndex 7 1 100]}]}) by (vm_compute; reflexivity).
    rewrite El in Hm. apply lookup_singleton_Some in Hm as [_ <-]. reflexivity. }
  assert (Ee : map_entries Z.lt ({[3 := mkTxIndex 7 1 100]} : gmap Z CTxIndex) = [(3, mkTxIndex 7 1 100)]) by (vm_compute; reflexivity).
  split; [|split; vm_compute; discriminate]. rewrite Ee. split.
  - apply List.Forall_cons; [|apply List.Forall_nil]. split; [split; vm_compute; [discriminate|reflexivity]|].
    split; [|reflexivity]. repeat split; vm_compute; try discriminate; reflexivity.
  - split; [split; vm_compute; [discriminate|reflexivity]|]. vm_compute.
    repeat apply List.Forall_cons; try apply List.Forall_nil; (split; [discriminate|reflexivity]).
Qed.

(** A second flush saves the entry; before it flips the maps, the entry is read
    although the lower map is locked. *)
Lemma txindex_refines_witness : exists db,
  flush_save sample_chunk sample_flipped true true = Some (true, db) /\
  RetrieveIn sample_chunk (<[1 := db]> {[1 := sample_flipped]}) false 1 (sample_txid 3) = Return (Some (mkTxIndex 7 1 100)) /\
  RetrieveIn sample_chunk (<[1 := db]> {[1 := sample_flipped]}) false 1 (sample_txid 4) = Return None.
Proof.
  destruct (txindex_refines sample_chunk 1 _ None sample_entries sample_runs) as (_ & _ & HF).
  destruct (HF 1 sample_flipped true true) as (b & db & E & Hb); [by rewrite lookup_singleton_eq|apply sample_flipped_valid|vm_compute; reflexivity|].
  assert (b = true) as -> by (by apply Hb). exists db. split; [exact E|].
  pose proof (runs_save sample_chunk 1 _ sample_entries 1 sample_flipped true true true db sample_runs ltac:(by rewrite lookup_singleton_eq)
    sample_flipped_valid ltac:(vm_compute; reflexivity) E) as Hruns.
  destruct (txindex_refines sample_chunk _ _ (Some 1) sample_entries Hruns) as (HR & _).
  split; (etrans; [apply (HR 1); apply sample_txid_uint; lia|vm_compute; reflexivity]).
Defined.

(** A flush between writing and reading *)
Definition sample_written : CCTSDB CTxIndex :=
  flush_flip (CTSDB.Update sample_chunk (init ∅ ∅) true 5 3 (mkTxIndex 7 1 100)).

Lemma sample_written_ok : db_ok sample_chunk 1 sample_written.
Proof.
  split.
  - by right.
  - split; [vm_compute; split; discriminate|]. intros n [x Hx]. discriminate Hx.
  - exists ∅. split; [apply map_Forall_empty|]. intros t pos Hp. discriminate Hp.
Defined.

Lemma cts_refines_witness :
  time_map sample_chunk sample_written 5 = {[3 := mkTxIndex 7 1 100]} /\
  exists db', flush_save sample_chunk sample_written true true = Some (true, db') /\
    (forall t, time_map sample_chunk db' t = time_map sample_chunk sample_written t) /\
    CTSDB.Retrieve sample_chunk (flush_flip db') true 5 3 = Return (Some (mkTxIndex 7 1 100)).
Proof.
  assert (E5 : time_map sample_chunk sample_written 5 = {[3 := mkTxIndex 7 1 100]}) by (vm_compute; reflexivity).
  split; [exact E5|].
  destruct (cts_refines sample_chunk 1 sample_written sample_written_ok) as (_ & _ & _ & HF & _).
  destruct (HF true true) as (b & db' & E & Hok' & Ht & Hs & Hb).
  { intros t m Hm.
    assert (m = {[3 := mkTxIndex 7 1 100]}) as ->.
    { assert (El : GetLowerMap (ct_dblMeta sample_written) = {[5 := {[3 := mkTxIndex 7 1 100]}]}) by (vm_compute; reflexivity).
      rewrite El in Hm. apply lookup_singleton_Some in Hm as [_ <-]. reflexivity. }
    split; [|split; vm_compute; discriminate].
    assert (Ee : map_entries Z.lt ({[3 := mkTxIndex 7 1 100]} : gmap Z CTxIndex) = [(3, mkTxIndex 7 1 100)]) by (vm_compute; reflexivity).
    rewrite Ee. split.
    - apply List.Forall_cons; [|apply List.Forall_nil]. split; [split; vm_compute; [discriminate|reflexivity]|].
      split; [|reflexivity]. repeat split; vm_compute; try discriminate; reflexivity.
    - split; [split; vm_compute; [discriminate|reflexivity]|]. vm_compute.
      repeat apply List.Forall_cons; try apply List.Forall_nil; (split; [discriminate|reflexivity]). }
  { vm_compute. reflexivity. }
  assert (b = true) as -> by (by apply Hb). specialize (Hs eq_refl).
  exists db'. split; [exact E|]. split; [exact Ht|].
  destruct (cts_refines sample_chunk _ db' Hok') as (_ & _ & _ & _ & Hflip). destruct (Hflip Hs) as [Hok2 Ht2].
  destruct (cts_refines sample_chunk _ (flush_flip db') Hok2) as (HR & _). rewrite HR by discriminate.
  rewrite Ht2, Ht, E5. vm_compute. reflexivity.
Defined.

End TxIndexDB.
