(* ===== verification/BlockStore.v ===== *)
(** * Blocks in the files

    A stored block can be read at its position, and each of its transactions at
    the position the transaction index computes for it: [block_at] says that the
    objects of the files ([TimeSeries.stored]) contain both.  Writing a block
    establishes it and keeps all objects there were. *)

From S2P Require Import Prelude Stream Destination Transaction Block TimeSeries.

Import CWalleveStream.

Module BlockStore.

Notation Objects := (gmap CDiskPos (list Z)).

(** Transactions stored one after the other, with their positions *)
Fixpoint places (nFile nOffset : Z) (txs : list CTransaction) : list (CDiskPos * CTransaction) :=
  match txs with
  | [] => []
  | tx :: txs => (mkDiskPos nFile nOffset, tx) :: places nFile (nOffset + ser_size Tx.tx_codec tx) txs
  end.

Definition mint_offset (pos : CDiskPos) (b : CBlock) : Z := dp_nOffset pos + Block.GetTxSerializedOffset b.

Definition vtx_offset (pos : CDiskPos) (b : CBlock) : Z :=
  mint_offset pos b + ser_size Tx.tx_codec (b_txMint b) + ser_size CVarInt (Z.of_nat (length (b_vtx b))).

(** The transactions of a block at [pos] *)
Definition tx_places (pos : CDiskPos) (b : CBlock) : list (CDiskPos * CTransaction) :=
  (mkDiskPos (dp_nFile pos) (mint_offset pos b), b_txMint b) :: places (dp_nFile pos) (vtx_offset pos b) (b_vtx b).

(** An object of at most [2 ^ 22] bytes, which can be read and cached *)
Definition object_at {T : Type} (C : codec T) (ty : Objects) (pos : CDiskPos) (t : T) : Prop :=
  ty !! pos = Some (save C t) /\ valid C t /\ Z.of_nat (length (save C t)) < 2 ^ 22.

Record block_at (ty : Objects) (pos : CDiskPos) (b : CBlockEx) : Prop := {
  ba_block : object_at Block.blockex_codec ty pos b;
  ba_offset : 0 <= dp_nOffset pos < TimeSeries.MAX_FILE_SIZE;
  ba_txs : Forall (fun e => object_at Tx.tx_codec ty e.1 e.2) (tx_places pos (bex_block b));
}.

Lemma object_at_weaken {T : Type} (C : codec T) ty ty' pos t : ty ⊆ ty' -> object_at C ty pos t -> object_at C ty' pos t.
Proof. intros Hs (H & H'). split; [by eapply lookup_weaken|done]. Qed.

Lemma block_at_weaken ty ty' pos b : ty ⊆ ty' -> block_at ty pos b -> block_at ty' pos b.
Proof.
  intros Hs [Hb Ho Ht]. split; [by eapply object_at_weaken|done|]. eapply Forall_impl; [exact Ht|].
  intros e. by apply object_at_weaken.
Qed.

(** ** Reading *)

Section read.
Context (ts : CTimeSeriesCached) (ty : Objects) (Hs : TimeSeries.stored ts ty) (Hcap : 2 ^ 22 <= TimeSeries.capacity ts).

Lemma read_object {T : Type} (C : codec T) `{!CodecOk C} pos t left fWriteCache :
  object_at C ty pos t ->
  exists ts', TimeSeries.Read C ts pos left fWriteCache = Some (true, t, ts') /\ TimeSeries.stored ts' ty /\
    tc_base ts' = tc_base ts /\ TimeSeries.capacity ts' = TimeSeries.capacity ts.
Proof.
  intros (Ht & Hv & Hl). apply (TimeSeries.Read_spec C ts ty pos t left []); [done|by rewrite app_nil_r|done|].
  intros _. split; [done|]. split; [split; lia|lia].
Qed.

(** The block at the start of the stored one, read without the cache *)
Lemma read_block_only pos b left :
  block_at ty pos b ->
  exists ts', TimeSeries.Read Block.block_codec ts pos left false = Some (true, bex_block b, ts') /\ TimeSeries.stored ts' ty /\
    tc_base ts' = tc_base ts /\ TimeSeries.capacity ts' = TimeSeries.capacity ts.
Proof.
  intros [(Ht & [[Hv _] _] & _) _ _].
  by apply (TimeSeries.Read_spec Block.block_codec ts ty pos (bex_block b) left (save (vector_codec Tx.contxt_codec) (bex_vTxContxt b))).
Qed.
End read.

(** ** Writing *)

Lemma tx_size_pos tx : valid Tx.tx_codec tx -> 0 < ser_size Tx.tx_codec tx /\ ser_size Tx.tx_codec tx = Z.of_nat (length (save Tx.tx_codec tx)).
Proof.
  intros Hv. pose proof (size_save (c := Tx.tx_codec) tx Hv) as E. split; [|done]. rewrite E.
  cbn [save Tx.tx_codec object_codec pair_codec fst snd Tx.tx_body_codec Tx.tx_body]. rewrite !length_app.
  cbn [save uint_codec]. rewrite length_le_split. lia.
Qed.

(** Nothing is in the file behind the first [n] bytes of [pos]. *)
Definition free_behind (ty : Objects) (pos : CDiskPos) (n : Z) : Prop :=
  forall n', n <= n' -> ty !! mkDiskPos (dp_nFile pos) (dp_nOffset pos + n') = None.

(** The transactions inside an object become objects themselves. *)
Lemma stored_txs ts pos txs a b ty :
  TimeSeries.stored ts ty -> ty !! pos = Some (a ++ flat_map (save Tx.tx_codec) txs ++ b) ->
  Forall (valid Tx.tx_codec) txs -> valid TimeSeries.diskpos_codec pos ->
  dp_nOffset pos + Z.of_nat (length (a ++ flat_map (save Tx.tx_codec) txs)) < 2 ^ 32 ->
  Z.of_nat (length (flat_map (save Tx.tx_codec) txs)) < 2 ^ 22 ->
  free_behind ty pos (Z.of_nat (length a)) ->
  exists ty', TimeSeries.stored ts ty' /\ ty ⊆ ty' /\
    free_behind ty' pos (Z.of_nat (length (a ++ flat_map (save Tx.tx_codec) txs))) /\
    Forall (fun e => object_at Tx.tx_codec ty' e.1 e.2) (places (dp_nFile pos) (dp_nOffset pos + Z.of_nat (length a)) txs).
Proof.
  intros Hs Hty Hv Hp Hlen Hsz Hfree. revert a ty Hs Hty Hlen Hfree.
  induction Hv as [|tx txs Htx Hv IH]; intros a ty Hs Hty Hlen Hfree.
  { exists ty. cbn [flat_map]. rewrite app_nil_r. split; [done|]. split; [done|]. split; [done|]. constructor. }
  cbn [flat_map places] in *. destruct (tx_size_pos tx Htx) as [Hpos Esz].
  set (pos' := mkDiskPos (dp_nFile pos) (dp_nOffset pos + Z.of_nat (length a))).
  rewrite !length_app in Hlen. rewrite !length_app in Hsz. rewrite <- app_assoc in Hty.
  assert (Hnone : ty !! pos' = None) by (apply Hfree; lia).
  assert (Hs' : TimeSeries.stored ts (<[pos' := save Tx.tx_codec tx]> ty)).
  { eapply TimeSeries.stored_inside; [done|done| |done].
    destruct Hp as [[Hpf Hpo] _]. cbn in Hpf, Hpo. split; [|done]. split; cbn; [done|]. destruct Hpo. split; lia. }
  assert (Hne : pos' <> pos).
  { intros E. rewrite E in Hnone. congruence. }
  destruct (IH ltac:(lia) (a ++ save Tx.tx_codec tx) _ Hs') as (ty' & Hst & Hsub & Hfr & Hpl).
  - rewrite lookup_insert_ne by done. by rewrite Hty, <- !app_assoc.
  - rewrite !length_app. lia.
  - intros n Hn. rewrite length_app in Hn. rewrite lookup_insert_ne; [apply Hfree; lia|]. intros [= E]. lia.
  - exists ty'. split; [done|]. rewrite <- app_assoc in Hfr. rewrite length_app, Nat2Z.inj_add, <- Esz, Z.add_assoc in Hpl.
    assert (Hsub' : ty ⊆ ty') by (etrans; [by apply insert_subseteq|done]).
    split; [done|]. split; [done|]. constructor; [|done]. split; [|split; [done|cbn [fst snd]; lia]].
    cbn. eapply lookup_weaken; [apply lookup_insert_eq|done].
Qed.

Notation txs_size := (foldr (fun tx s => ser_size Tx.tx_codec tx + s) 0).

Lemma txs_size_nonneg txs : Forall (valid Tx.tx_codec) txs -> 0 <= txs_size txs.
Proof. induction 1 as [|tx txs Hv _ IH]; cbn [foldr]; [done|]. destruct (tx_size_pos tx Hv). lia. Qed.

Lemma flat_map_size txs :
  Forall (valid Tx.tx_codec) txs -> Z.of_nat (length (flat_map (save Tx.tx_codec) txs)) = txs_size txs.
Proof.
  induction 1 as [|tx txs Hv _ IH]; cbn [flat_map foldr]; [done|]. rewrite length_app, Nat2Z.inj_add, IH.
  by destruct (tx_size_pos tx Hv) as [_ ->].
Qed.

(** The bytes of a stored block, with its transactions *)
Lemma blockex_bytes b :
  save Block.blockex_codec b =
  save Block.header_codec (Block.header (bex_block b)) ++ save Tx.tx_codec (b_txMint (bex_block b)) ++
  save CVarInt (Z.of_nat (length (b_vtx (bex_block b)))) ++ flat_map (save Tx.tx_codec) (b_vtx (bex_block b)) ++
  save string_codec (b_vchSig (bex_block b)) ++ save (vector_codec Tx.contxt_codec) (bex_vTxContxt b).
Proof.
  cbn [save Block.blockex_codec Block.block_codec object_codec pair_codec fst snd].
  cbn [save vector_codec]. by rewrite <- !app_assoc.
Qed.

(** The transactions end before the block does. *)
Lemma vtx_end pos b :
  valid Block.blockex_codec b ->
  dp_nOffset pos <= mint_offset pos (bex_block b) < vtx_offset pos (bex_block b) /\
  vtx_offset pos (bex_block b) + txs_size (b_vtx (bex_block b)) <=
    dp_nOffset pos + Z.of_nat (length (save Block.blockex_codec b)).
Proof.
  intros [[[[[[Hvh Hvm] [Hvn Hvt]] Hvs] _] Hvc] _]. cbn [fst snd] in *.
  destruct (tx_size_pos _ Hvm) as [Hmp Hms]. rewrite blockex_bytes, !length_app, <- flat_map_size by done.
  unfold vtx_offset, mint_offset. rewrite Hms in *.
  assert (Block.GetTxSerializedOffset (bex_block b) = Z.of_nat (length (save Block.header_codec (Block.header (bex_block b))))) as ->.
  { by rewrite <- (size_save (c := Block.header_codec)). }
  assert (ser_size CVarInt (Z.of_nat (length (b_vtx (bex_block b)))) = Z.of_nat (length (save CVarInt (Z.of_nat (length (b_vtx (bex_block b))))))) as ->.
  { by apply (size_save (c := CVarInt)). }
  lia.
Qed.

Lemma vtx_end_small ty pos b :
  block_at ty pos b ->
  0 <= dp_nOffset pos <= mint_offset pos (bex_block b) /\ mint_offset pos (bex_block b) < vtx_offset pos (bex_block b) /\
  vtx_offset pos (bex_block b) + txs_size (b_vtx (bex_block b)) < 2 ^ 32.
Proof.
  intros [(_ & Hv & Hl) Ho _]. destruct (vtx_end pos b Hv) as [? ?]. unfold TimeSeries.MAX_FILE_SIZE in Ho. lia.
Qed.

Section write.
Context (k : Z) (ts : CTimeSeriesCached) (ty : Objects) (Hs : TimeSeries.stored ts ty).
Context (Hf : TimeSeries.files_ok k (tc_base ts)) (Hk : k + 1 < 2 ^ 32) (Hcap : 2 ^ 22 <= TimeSeries.capacity ts).

(** Writing a block: it goes to a new position, and its transactions are found at
    theirs. *)
Lemma write_block (b : CBlockEx) :
  valid Block.blockex_codec b -> Z.of_nat (length (save Block.blockex_codec b)) < 2 ^ 22 ->
  exists pos ts' ty', TimeSeries.Write Block.blockex_codec true ts b true = Some (true, pos, ts') /\
    TimeSeries.stored ts' ty' /\ ty ⊆ ty' /\ TimeSeries.capacity ts' = TimeSeries.capacity ts /\
    TimeSeries.files_ok (k + 1) (tc_base ts') /\ block_at ty' pos b.
Proof.
  intros Hv Hl. destruct (TimeSeries.Write_place Block.blockex_codec k ts ty b true) as (pos & ts' & E & Hfree & Hoff & Hst & Hc & Hf');
    [done|done|done|done|split; lia|lia|].
  pose proof (TimeSeries.free_from_here _ _ Hfree) as Hnew.
  set (ty1 := <[pos := save Block.blockex_codec b]> ty) in *.
  assert (Hpos : valid TimeSeries.diskpos_codec pos).
  { destruct (TimeSeries.st_disk _ _ Hst pos (save Block.blockex_codec b)) as [? _]; [apply lookup_insert_eq|done]. }
  assert (Hob : ty1 !! pos = Some (save Block.blockex_codec b)) by apply lookup_insert_eq.
  pose proof Hv as [[[[[[Hvh Hvm] [Hvn Hvt]] Hvs] _] Hvc] _]. cbn [fst snd] in *.
  set (a := save Block.header_codec (Block.header (bex_block b))) in *.
  assert (Ea : Block.GetTxSerializedOffset (bex_block b) = Z.of_nat (length a)).
  { unfold a. by rewrite <- (size_save (c := Block.header_codec)). }
  destruct (tx_size_pos _ Hvm) as [Hmp Hms].
  rewrite blockex_bytes in Hob, Hl. fold a in Hob, Hl.
  set (n := save CVarInt _) in *. set (vt := flat_map _ _) in *. set (rest := save string_codec _ ++ _) in *.
  rewrite !length_app in Hl. unfold TimeSeries.MAX_FILE_SIZE in Hoff.
  assert (Hfree1 : free_behind ty1 pos (Z.of_nat (length a))).
  { intros n' Hn'. unfold ty1. rewrite lookup_insert_ne; [apply Hfree; lia|]. intros E'.
    apply (f_equal dp_nOffset) in E'. cbn in E'.
    assert (0 < Z.of_nat (length a)); [|lia]. rewrite <- Ea.
    unfold Block.GetTxSerializedOffset. rewrite (size_save (c := string_codec)) by apply Hvh. lia. }
  destruct (stored_txs ts' pos [b_txMint (bex_block b)] a (n ++ vt ++ rest) ty1) as (ty2 & Hst2 & Hsub2 & Hfree2 & Hpl2);
    [done|by cbn [flat_map]; rewrite app_nil_r|by constructor|done| | |done|].
  { cbn [flat_map]. rewrite app_nil_r, length_app. lia. }
  { cbn [flat_map]. rewrite app_nil_r. lia. }
  cbn [flat_map] in *. rewrite app_nil_r in *.
  destruct (stored_txs ts' pos (b_vtx (bex_block b)) (a ++ save Tx.tx_codec (b_txMint (bex_block b)) ++ n) rest ty2)
    as (ty3 & Hst3 & Hsub3 & _ & Hpl3); [done| |done|done| | | |].
  { eapply lookup_weaken; [|done]. rewrite Hob. fold vt. by rewrite <- !app_assoc. }
  { fold vt. rewrite !length_app. lia. }
  { fold vt. lia. }
  { intros n' Hn'. apply Hfree2. rewrite !length_app in *. lia. }
  exists pos, ts', ty3. split; [done|]. split; [done|].
  assert (Hsub1 : ty ⊆ ty1) by (by apply insert_subseteq).
  split; [by do 2 (etrans; [done|])|]. split; [done|]. split; [done|]. split.
  - split; [|split; [done|rewrite blockex_bytes; fold a n vt; fold rest; rewrite !length_app; lia]].
    eapply lookup_weaken; [|done]. eapply lookup_weaken; [|done]. apply lookup_insert_eq.
  - unfold TimeSeries.MAX_FILE_SIZE. lia.
  - unfold tx_places. apply Forall_cons. split.
    + apply Forall_cons in Hpl2 as [H _]. unfold mint_offset. rewrite Ea. by eapply object_at_weaken.
    + unfold vtx_offset, mint_offset. rewrite Ea, Hms.
      assert (ser_size CVarInt (Z.of_nat (length (b_vtx (bex_block b)))) = Z.of_nat (length n)) as ->.
      { unfold n. by apply (size_save (c := CVarInt)). }
      rewrite !length_app, !Nat2Z.inj_add, !Z.add_assoc in Hpl3. done.
Qed.
End write.

End BlockStore.
