(* ===== verification/BlockDB.v ===== *)
(** * The tables of the block database (src/storage/forkdb.cpp,
      blockindexdb.cpp, delegatedb.cpp, blockdb.cpp; src/common/forkcontext.h;
      class CBlockOutline of src/common/block.h)

    [CBlockDB] holds five stores: the contexts and last blocks of the forks, the
    outlines of the blocks, the votes and enrolments of every primary block,
    the index of transactions and the unspent outputs.  The first three are
    tables of the key-value store, here maps of typed values whose serialization
    is given beside them; the delegate table has a bounded cache before it.

    A write of the key-value store can fail; the results are the [DbIO]
    argument of the operations that write.  The theorems show that what the
    tables keep loads back, that the cached delegate table is its map, and what
    the facade's update of a fork does to the stores. *)

From S2P Require Import Prelude RWLock Cache Stream Destination Transaction Block Profile BlockIndex.
From S2P Require Import UnspentDB TimeSeries CTSDB.

Import CWalleveStream.

#[local] Existing Instance Destination.dest_lt_dec.

(** ** Data *)

Record CForkContext : Type := mkForkContext {
  fx_strName : list Z;
  fx_strSymbol : list Z;
  fx_hashFork : Z;
  fx_hashParent : Z;
  fx_hashJoint : Z;
  fx_txidEmbedded : Z;
  fx_nVersion : Z;
  fx_nFlag : Z;
  fx_nMintReward : Z;
  fx_nMinTxFee : Z;
  fx_nJointHeight : Z;
  fx_destOwner : CDestination;
}.

(** The fields of a block index that are stored, with the hashes its pointers
    lead to *)
Record CBlockOutline : Type := mkOutline {
  ol_hashBlock : Z;
  ol_hashPrev : Z;
  ol_hashOrigin : Z;
  ol_txidMint : Z;
  ol_nMintType : Z;
  ol_nVersion : Z;
  ol_nType : Z;
  ol_nTimeStamp : Z;
  ol_nHeight : Z;
  ol_nRandBeacon : Z;
  ol_nChainTrust : Z;
  ol_nMoneySupply : Z;
  ol_nProofAlgo : Z;
  ol_nProofBits : Z;
  ol_nFile : Z;
  ol_nOffset : Z;
}.

Record CDelegateContext : Type := mkDelegateContext {
  dc_mapVote : gmap CDestination Z;
  dc_mapEnrollTx : gmap Z (gmap CDestination CDiskPos);
}.

Record CForkDB : Type := mkForkDB { fk_ctxt : gmap Z CForkContext; fk_active : gmap Z Z }.

Record CDelegateDB : Type := mkDelegateDB {
  dd_kv : gmap Z CDelegateContext;
  dd_cacheDelegate : CWalleveCache Z CDelegateContext;
}.

Record CBlockDB : Type := mkBlockDB {
  db_dbFork : CForkDB;
  db_dbBlockIndex : gmap Z CBlockOutline;
  db_dbTxIndex : gmap Z (CCTSDB CTxIndex);
  db_dbUnspent : gmap Z CForkUnspentDB;
  db_dbDelegate : CDelegateDB;
}.

(** What the disk answers during an operation: the writes of the tables, what is
    found when the databases of a new fork are opened, and whether the lower
    map of the transaction index can be locked *)
Record DbIO : Type := mkDbIO {
  io_ctxt : bool;
  io_active : bool;
  io_erase : bool;
  io_outline : bool;
  io_delegate : bool;
  io_txdb : option (gmap Z CDiskPos * gmap Z (list Z));
  io_unspent : option MapType;
  io_clear : bool;
  io_copy : CTxOutPoint -> bool;
  io_lower : bool;
}.

(** ** CForkContext *)

Module ForkContext.

Definition of_profile (hashFork hashJoint txidEmbedded : Z) (p : CProfile) : CForkContext :=
  mkForkContext (pf_strName p) (pf_strSymbol p) hashFork (pf_hashParent p) hashJoint txidEmbedded (pf_nVersion p)
    (pf_nFlag p) (pf_nMintReward p) (pf_nMinTxFee p) (pf_nJointHeight p) (pf_destOwner p).

Definition SetNull : CForkContext := mkForkContext [] [] 0 0 0 0 1 0 0 0 (-1) Destination.SetNull.

Definition IsNull (c : CForkContext) : bool := bool_decide (fx_strName c = []).

Definition IsIsolated (c : CForkContext) : bool := negb (Z.land (fx_nFlag c) 1 =? 0).

Definition IsPrivate (c : CForkContext) : bool := negb (Z.land (fx_nFlag c) 2 =? 0).

Definition IsEnclosed (c : CForkContext) : bool := negb (Z.land (fx_nFlag c) 4 =? 0).

Definition GetProfile (c : CForkContext) : CProfile :=
  mkProfile (fx_nVersion c) (fx_strName c) (fx_strSymbol c) (fx_nFlag c) (fx_nMinTxFee c) (fx_nMintReward c)
    (fx_destOwner c) (fx_hashParent c) (fx_nJointHeight c).

Definition context_codec : codec CForkContext :=
  object_codec
    (fun c => (fx_strName c, fx_strSymbol c, fx_hashFork c, fx_hashParent c, fx_hashJoint c, fx_txidEmbedded c,
               fx_nVersion c, fx_nFlag c, fx_nMintReward c, fx_nMinTxFee c, fx_nJointHeight c, fx_destOwner c))
    (fun '(nm, sy, hf, hp, hj, tx, v, fl, mr, mf, jh, ow) => mkForkContext nm sy hf hp hj tx v fl mr mf jh ow)
    (string_codec ** string_codec ** uint_codec 32 ** uint_codec 32 ** uint_codec 32 ** uint_codec 32 **
     uint_codec 2 ** uint_codec 2 ** sint_codec 8 ** sint_codec 8 ** sint_codec 4 ** Destination.dest_codec).

#[export] Instance context_codec_ok : CodecOk context_codec.
Proof. unfold context_codec. apply _. Qed.

(** The context of a fork keeps its profile. *)
Lemma GetProfile_of_profile hashFork hashJoint txid p : GetProfile (of_profile hashFork hashJoint txid p) = p.
Proof. by destruct p. Qed.

End ForkContext.

(** ** CBlockOutline *)

Module BlockOutline.

(** A pointer is the hash of its block, so the hashes are the pointers. *)
Definition of_index (i : CBlockIndex) : CBlockOutline :=
  mkOutline (bi_hash i) (default 0 (bi_pPrev i)) (bi_pOrigin i) (bi_txidMint i) (bi_nMintType i) (bi_nVersion i)
    (bi_nType i) (bi_nTimeStamp i) (bi_nHeight i) (bi_nRandBeacon i) (bi_nChainTrust i) (bi_nMoneySupply i)
    (bi_nProofAlgo i) (bi_nProofBits i) (bi_nFile i) (bi_nOffset i).

Definition outline_codec : codec CBlockOutline :=
  object_codec
    (fun o => (ol_hashBlock o, ol_hashPrev o, ol_hashOrigin o, ol_txidMint o, ol_nMintType o, ol_nVersion o, ol_nType o,
               ol_nTimeStamp o, ol_nHeight o, ol_nRandBeacon o, ol_nChainTrust o, ol_nMoneySupply o, ol_nProofAlgo o,
               ol_nProofBits o, ol_nFile o, ol_nOffset o))
    (fun '(hb, hp, ho, tm, mt, v, ty, ts, ht, rb, ct, ms, pa, pb, f, off) =>
       mkOutline hb hp ho tm mt v ty ts ht rb ct ms pa pb f off)
    (uint_codec 32 ** uint_codec 32 ** uint_codec 32 ** uint_codec 32 ** uint_codec 2 ** uint_codec 2 ** uint_codec 2 **
     uint_codec 4 ** sint_codec 4 ** uint_codec 8 ** uint_codec 8 ** sint_codec 8 ** uint_codec 1 ** uint_codec 1 **
     uint_codec 4 ** uint_codec 4).

#[export] Instance outline_codec_ok : CodecOk outline_codec.
Proof. unfold outline_codec. apply _. Qed.

End BlockOutline.

(** ** CForkDB *)

Module ForkDB.

Definition AddNewForkContext (db : CForkDB) (ok : bool) (ctxt : CForkContext) : bool * CForkDB :=
  if ok then (true, mkForkDB (<[fx_hashFork ctxt := ctxt]> (fk_ctxt db)) (fk_active db)) else (false, db).

Definition RemoveForkContext (db : CForkDB) (ok : bool) (hashFork : Z) : bool * CForkDB :=
  if ok then (true, mkForkDB (delete hashFork (fk_ctxt db)) (fk_active db)) else (false, db).

Definition RetrieveForkContext (db : CForkDB) (hashFork : Z) : option CForkContext := fk_ctxt db !! hashFork.

Definition UpdateFork (db : CForkDB) (ok : bool) (hashFork hashLastBlock : Z) : bool * CForkDB :=
  if ok then (true, mkForkDB (fk_ctxt db) (<[hashFork := hashLastBlock]> (fk_active db))) else (false, db).

Definition RemoveFork (db : CForkDB) (ok : bool) (hashFork : Z) : bool * CForkDB :=
  if ok then (true, mkForkDB (fk_ctxt db) (delete hashFork (fk_active db))) else (false, db).

Definition RetrieveFork (db : CForkDB) (hashFork : Z) : option Z := fk_active db !! hashFork.

(** [multimap::insert]: behind the entries of the same key *)
Fixpoint mm_insert {V : Type} (k : Z) (v : V) (l : list (Z * V)) : list (Z * V) :=
  match l with
  | [] => [(k, v)]
  | e :: l => if k <? e.1 then (k, v) :: e :: l else e :: mm_insert k v l
  end.

(** The contexts in the order of the walk through the table, sorted by
    [nJointHeight] *)
Definition by_joint {V : Type} (f : Z * CForkContext -> V) (l : list (Z * CForkContext)) : list V :=
  snd <$> foldl (fun m e => mm_insert (fx_nJointHeight e.2) (f e) m) [] l.

Section walk.
(** The order in which the key-value store walks through the contexts *)
Context (kv_order : gmap Z CForkContext -> list (Z * CForkContext)).

Definition ListForkContext (db : CForkDB) : list CForkContext := by_joint snd (kv_order (fk_ctxt db)).

Definition ListFork (db : CForkDB) : list (Z * Z) :=
  omap (fun hashFork => pair hashFork <$> fk_active db !! hashFork) (by_joint fst (kv_order (fk_ctxt db))).
End walk.

(** *** Listing the forks *)

Lemma mm_insert_Permutation {V : Type} k (v : V) l : mm_insert k v l ≡ₚ (k, v) :: l.
Proof.
  induction l as [|e l IH]; cbn; [done|]. case_match; [done|]. rewrite IH. apply Permutation_swap.
Qed.

Lemma mm_insert_sorted {V : Type} k (v : V) l :
  StronglySorted (fun a b => a.1 <= b.1) l -> StronglySorted (fun a b => a.1 <= b.1) (mm_insert k v l).
Proof.
  induction 1 as [|e l Hs IH He]; cbn; [repeat constructor|]. destruct (Z.ltb_spec k e.1).
  - constructor; [by constructor|]. constructor; [cbn; lia|]. eapply Forall_impl; [exact He|]. cbn. lia.
  - constructor; [done|]. rewrite mm_insert_Permutation. by constructor.
Qed.

Lemma by_joint_fold {V : Type} (f : Z * CForkContext -> V) l m :
  StronglySorted (fun a b : Z * V => a.1 <= b.1) m ->
  let r := foldl (fun m e => mm_insert (fx_nJointHeight e.2) (f e) m) m l in
  StronglySorted (fun a b => a.1 <= b.1) r /\ r ≡ₚ map (fun e => (fx_nJointHeight e.2, f e)) l ++ m.
Proof.
  revert m. induction l as [|e l IH]; intros m Hm; cbn [foldl map app]; [done|].
  destruct (IH (mm_insert (fx_nJointHeight e.2) (f e) m)) as [H1 H2]; [by apply mm_insert_sorted|].
  split; [done|]. rewrite H2, mm_insert_Permutation. cbn. by rewrite Permutation_middle.
Qed.

Section list.
Context (kv_order : gmap Z CForkContext -> list (Z * CForkContext)).
Hypothesis kv_order_perm : forall m, kv_order m ≡ₚ map_to_list m.

(** The sorted walk: heights that do not decrease, and every fork with the
    height of its context *)
Lemma joint_walk (m : gmap Z CForkContext) :
  exists r, by_joint fst (kv_order m) = r.*2 /\ StronglySorted (fun a b => a.1 <= b.1) r /\ NoDup r.*2 /\
    forall h f, (h, f) ∈ r <-> exists c, m !! f = Some c /\ fx_nJointHeight c = h.
Proof.
  destruct (by_joint_fold fst (kv_order m) []) as [Hs Hp]; [constructor|]. rewrite app_nil_r in Hp.
  eexists. split; [done|]. split; [exact Hs|]. split.
  - rewrite Hp. rewrite <- list_fmap_compose. change (NoDup (fst <$> kv_order m)). rewrite kv_order_perm.
    apply NoDup_fst_map_to_list.
  - intros h f. rewrite Hp, list_elem_of_fmap. split.
    + intros ([f' c] & E & Hin). cbn in E. simplify_eq. exists c. split; [|done].
      apply elem_of_map_to_list. by rewrite <- kv_order_perm.
    + intros (c & Hc & <-). exists (f, c). split; [done|]. rewrite kv_order_perm. by apply elem_of_map_to_list.
Qed.

Lemma active_fst (m : gmap Z Z) (l : list Z) :
  (omap (fun f => pair f <$> m !! f) l).*1 `sublist_of` l.
Proof.
  induction l as [|f l IH]; cbn; [done|]. destruct (m !! f); cbn; [by apply sublist_skip|by apply sublist_cons].
Qed.

(** Every active fork with a context is listed once with its last block,
    whatever the order of the store, and a fork that joins another earlier comes
    first. *)
Theorem ListFork_spec (db : CForkDB) :
  NoDup (ListFork kv_order db).*1 /\
  (forall f h, (f, h) ∈ ListFork kv_order db <-> is_Some (fk_ctxt db !! f) /\ fk_active db !! f = Some h) /\
  StronglySorted (fun a b => forall ca cb, fk_ctxt db !! a.1 = Some ca -> fk_ctxt db !! b.1 = Some cb ->
    fx_nJointHeight ca <= fx_nJointHeight cb) (ListFork kv_order db).
Proof.
  unfold ListFork. destruct (joint_walk (fk_ctxt db)) as (r & -> & Hs & Hnd & Hr). split; [|split].
  - eapply sublist_NoDup; [exact Hnd|]. apply active_fst.
  - intros f h. rewrite list_elem_of_omap. split.
    + intros (f' & ([h' f''] & -> & (c & Hc & _)%Hr)%list_elem_of_fmap & E). cbn in *.
      destruct (fk_active db !! f'') eqn:Ea; cbn in E; simplify_eq. by split; [exists c|].
    + intros [[c Hc] Ha]. exists f. rewrite Ha. split; [|done]. apply list_elem_of_fmap.
      exists (fx_nJointHeight c, f). split; [done|]. apply Hr. by exists c.
  - assert (Hall : Forall (fun e => forall c, fk_ctxt db !! e.2 = Some c -> fx_nJointHeight c = e.1) r).
    { apply Forall_forall. intros [h f] (c & Hc & <-)%Hr c' Hc'. cbn in *. by simplify_eq. }
    clear Hr Hnd. induction Hs as [|[h f] r Hs IH Hle]; cbn; [constructor|].
    inversion Hall as [|? ? H1 H2]; subst. specialize (IH H2).
    destruct (fk_active db !! f) eqn:Ea; cbn; [|done]. constructor; [done|].
    apply Forall_forall. intros [f' h'] (f'' & ([h2 f2] & -> & Hin)%list_elem_of_fmap & E)%list_elem_of_omap ca cb Ha Hb.
    cbn in *. destruct (fk_active db !! f2) eqn:E2; cbn in E; simplify_eq. rewrite (H1 _ Ha).
    rewrite Forall_forall in H2, Hle. rewrite (H2 _ Hin cb Hb). exact (Hle _ Hin).
Qed.
End list.

End ForkDB.

(** ** CBlockIndexDB *)

Module BlockIndexDB.

Definition AddNewBlock (db : gmap Z CBlockOutline) (ok : bool) (outline : CBlockOutline) : bool * gmap Z CBlockOutline :=
  if ok then (true, <[ol_hashBlock outline := outline]> db) else (false, db).

Definition RemoveBlock (db : gmap Z CBlockOutline) (ok : bool) (hashBlock : Z) : bool * gmap Z CBlockOutline :=
  if ok then (true, delete hashBlock db) else (false, db).

End BlockIndexDB.

(** ** CDelegateDB *)

Module DelegateDB.

Definition MAX_CACHE_COUNT : nat := 64.

Definition context_codec : codec CDelegateContext :=
  object_codec (fun c => (dc_mapVote c, dc_mapEnrollTx c)) (fun p => mkDelegateContext p.1 p.2)
    (map_codec Destination.dest_lt Destination.dest_codec (sint_codec 8) **
     map_codec Z.lt (uint_codec 32) (map_codec Destination.dest_lt Destination.dest_codec TimeSeries.diskpos_codec)).

Definition init (kv : gmap Z CDelegateContext) : CDelegateDB := mkDelegateDB kv (Cache.init MAX_CACHE_COUNT).

Definition AddNew (db : CDelegateDB) (ok : bool) (hashBlock : Z) (ctxt : CDelegateContext) : bool * CDelegateDB :=
  if ok
  then (true, mkDelegateDB (<[hashBlock := ctxt]> (dd_kv db)) (Cache.AddNew (dd_cacheDelegate db) hashBlock ctxt))
  else (false, db).

Definition Remove (db : CDelegateDB) (ok : bool) (hashBlock : Z) : bool * CDelegateDB :=
  (ok, mkDelegateDB (if ok then delete hashBlock (dd_kv db) else dd_kv db) (Cache.Remove (dd_cacheDelegate db) hashBlock)).

Definition Retrieve (db : CDelegateDB) (hashBlock : Z) : option CDelegateContext * CDelegateDB :=
  match Cache.Retrieve (dd_cacheDelegate db) hashBlock with
  | Some ctxt => (Some ctxt, db)
  | None =>
      match dd_kv db !! hashBlock with
      | None => (None, db)
      | Some ctxt => (Some ctxt, mkDelegateDB (dd_kv db) (Cache.AddNew (dd_cacheDelegate db) hashBlock ctxt))
      end
  end.

Definition RetrieveDelegatedVote (db : CDelegateDB) (hashBlock : Z) : option (gmap CDestination Z) * CDelegateDB :=
  let '(ctxt, db) := Retrieve db hashBlock in (dc_mapVote <$> ctxt, db).

(** The loop over the range, the last block of it first; [map::insert] keeps the
    entries there are. *)
Fixpoint enroll_loop (db : CDelegateDB) (hashAnchor : Z) (range : list Z) (mapEnrollTxPos : gmap CDestination CDiskPos)
    : option (gmap CDestination CDiskPos) * CDelegateDB :=
  match range with
  | [] => (Some mapEnrollTxPos, db)
  | hash :: range =>
      let '(ctxt, db) := Retrieve db hash in
      match ctxt with
      | None => (None, db)
      | Some ctxt =>
          enroll_loop db hashAnchor range (mapEnrollTxPos ∪ default ∅ (dc_mapEnrollTx ctxt !! hashAnchor))
      end
  end.

Definition RetrieveEnrollTx (db : CDelegateDB) (hashAnchor : Z) (vBlockRange : list Z)
    : option (gmap CDestination CDiskPos) * CDelegateDB :=
  enroll_loop db hashAnchor (rev vBlockRange) ∅.

Definition Clear (db : CDelegateDB) : CDelegateDB := mkDelegateDB ∅ (Cache.Clear (dd_cacheDelegate db)).

(** *** Specification: the cache does not show *)

Definition db_ok (db : CDelegateDB) : Prop :=
  Cache.cache_ok (dd_cacheDelegate db) /\ Cache.coherent (dd_cacheDelegate db) (dd_kv db).

(** The position a block's context gives an enrolment *)
Definition enrolled_at (kv : gmap Z CDelegateContext) (hashAnchor : Z) (dest : CDestination) (hash : Z) : option CDiskPos :=
  kv !! hash ≫= fun ctxt => dc_mapEnrollTx ctxt !! hashAnchor ≫= fun m => m !! dest.

(** The first of a list of blocks that enrols the destination *)
Fixpoint first_enrolled (kv : gmap Z CDelegateContext) (hashAnchor : Z) (dest : CDestination) (range : list Z)
    : option CDiskPos :=
  match range with
  | [] => None
  | hash :: range =>
      match enrolled_at kv hashAnchor dest hash with
      | Some pos => Some pos
      | None => first_enrolled kv hashAnchor dest range
      end
  end.

Lemma RetrieveContext_spec db hash :
  db_ok db ->
  (Retrieve db hash).1 = dd_kv db !! hash /\ db_ok (Retrieve db hash).2 /\ dd_kv (Retrieve db hash).2 = dd_kv db.
Proof.
  intros [Ho Hc]. unfold Retrieve. destruct (Cache.Retrieve _ hash) as [ctxt|] eqn:E.
  - cbn. by rewrite (Hc _ _ E).
  - destruct (dd_kv db !! hash) as [ctxt|] eqn:Ek; cbn; [|done]. split; [done|]. split; [|done].
    destruct (Cache.AddNew_coherent _ _ hash ctxt Ho Hc) as [H1 H2]. split; [done|]. cbn. by rewrite insert_id in H2.
Qed.

Lemma enroll_loop_spec hashAnchor range db m :
  db_ok db ->
  let '(r, db') := enroll_loop db hashAnchor range m in
  db_ok db' /\ dd_kv db' = dd_kv db /\
  match r with
  | Some r => Forall (fun hash => is_Some (dd_kv db !! hash)) range /\
      forall dest, r !! dest = match m !! dest with
                               | Some pos => Some pos
                               | None => first_enrolled (dd_kv db) hashAnchor dest range
                               end
  | None => ~ Forall (fun hash => is_Some (dd_kv db !! hash)) range
  end.
Proof.
  revert db m. induction range as [|hash range IH]; intros db m Hok; cbn [enroll_loop first_enrolled].
  { split; [done|]. split; [done|]. split; [constructor|]. intros dest. by destruct (m !! dest). }
  pose proof (RetrieveContext_spec db hash Hok) as (E & Hok1 & Hk). destruct (Retrieve db hash) as [ctxt db1]. cbn in *.
  destruct ctxt as [ctxt|].
  - specialize (IH db1 (m ∪ default ∅ (dc_mapEnrollTx ctxt !! hashAnchor)) Hok1).
    destruct (enroll_loop _ _ _ _) as [r db2]. destruct IH as (Hok2 & Hk2 & Hr). rewrite Hk in *.
    split; [done|]. split; [done|]. destruct r as [r|].
    + destruct Hr as [Hf Hr]. split; [constructor; [by rewrite <- E|done]|]. intros dest. rewrite Hr, lookup_union.
      unfold enrolled_at. rewrite <- E. cbn. destruct (m !! dest) as [pos|]; [by destruct (default _ _ !! dest)|].
      rewrite (left_id_L None _). destruct (dc_mapEnrollTx ctxt !! hashAnchor) as [me|]; cbn; [|by rewrite lookup_empty].
      done.
    + intros Hf. inversion Hf; subst. done.
  - split; [done|]. split; [done|]. intros Hf. inversion Hf as [|? ? [c Hc]]; subst. congruence.
Qed.

(** The delegate table behind its cache is a map from blocks to contexts: reading
    gives the context written last whatever the cache dropped, and the
    enrolments of a range of blocks are those of the oldest block of the range
    that has one, or a failure if a block of the range has no context. *)
Theorem delegatedb_refines (db : CDelegateDB) (Hok : db_ok db) :
  (forall hash, (Retrieve db hash).1 = dd_kv db !! hash /\ db_ok (Retrieve db hash).2 /\
     dd_kv (Retrieve db hash).2 = dd_kv db) /\
  (forall hash ctxt, let '(r, db') := AddNew db true hash ctxt in
     r = true /\ db_ok db' /\ dd_kv db' = <[hash := ctxt]> (dd_kv db)) /\
  (forall hash, let '(r, db') := Remove db true hash in r = true /\ db_ok db' /\ dd_kv db' = delete hash (dd_kv db)) /\
  (forall hashAnchor vBlockRange, let '(r, db') := RetrieveEnrollTx db hashAnchor vBlockRange in
     db_ok db' /\ dd_kv db' = dd_kv db /\
     match r with
     | Some r => Forall (fun hash => is_Some (dd_kv db !! hash)) vBlockRange /\
         forall dest, r !! dest = first_enrolled (dd_kv db) hashAnchor dest (rev vBlockRange)
     | None => ~ Forall (fun hash => is_Some (dd_kv db !! hash)) vBlockRange
     end).
Proof.
  split; [|split; [|split]].
  - intros hash. by apply RetrieveContext_spec.
  - intros hash ctxt. cbn. split; [done|]. split; [|done]. by apply Cache.AddNew_coherent; apply Hok.
  - intros hash. cbn. split; [done|]. split; [|done]. by apply Cache.Remove_coherent; apply Hok.
  - intros hashAnchor range. unfold RetrieveEnrollTx. pose proof (enroll_loop_spec hashAnchor (rev range) db ∅ Hok) as H.
    destruct (enroll_loop _ _ _ _) as [r db']. destruct H as (H1 & H2 & H3). split; [done|]. split; [done|].
    assert (Hrev : forall P : Z -> Prop, Forall P (rev range) <-> Forall P range).
    { intros P. rewrite !Forall_forall. by setoid_rewrite elem_of_rev. }
    destruct r as [r|]; [|by rewrite <- Hrev]. rewrite <- Hrev. destruct H3 as [H3 H4]. split; [done|].
    intros dest. rewrite H4. by rewrite lookup_empty.
Qed.

End DelegateDB.

(** ** CBlockDB *)

Module BlockDB.

(** Assignments of the members *)
Definition set_dbFork (db : CBlockDB) (dbFork : CForkDB) : CBlockDB :=
  mkBlockDB dbFork (db_dbBlockIndex db) (db_dbTxIndex db) (db_dbUnspent db) (db_dbDelegate db).

Definition set_dbBlockIndex (db : CBlockDB) (dbBlockIndex : gmap Z CBlockOutline) : CBlockDB :=
  mkBlockDB (db_dbFork db) dbBlockIndex (db_dbTxIndex db) (db_dbUnspent db) (db_dbDelegate db).

Definition set_dbTxIndex (db : CBlockDB) (dbTxIndex : gmap Z (CCTSDB CTxIndex)) : CBlockDB :=
  mkBlockDB (db_dbFork db) (db_dbBlockIndex db) dbTxIndex (db_dbUnspent db) (db_dbDelegate db).

Definition set_dbUnspent (db : CBlockDB) (dbUnspent : gmap Z CForkUnspentDB) : CBlockDB :=
  mkBlockDB (db_dbFork db) (db_dbBlockIndex db) (db_dbTxIndex db) dbUnspent (db_dbDelegate db).

Definition set_dbDelegate (db : CBlockDB) (dbDelegate : CDelegateDB) : CBlockDB :=
  mkBlockDB (db_dbFork db) (db_dbBlockIndex db) (db_dbTxIndex db) (db_dbUnspent db) dbDelegate.

Definition AddNewForkContext (io : DbIO) (db : CBlockDB) (ctxt : CForkContext) : bool * CBlockDB :=
  let '(r, f) := ForkDB.AddNewForkContext (db_dbFork db) (io_ctxt io) ctxt in (r, set_dbFork db f).

Definition RetrieveForkContext (db : CBlockDB) (hash : Z) : option CForkContext :=
  ForkDB.RetrieveForkContext (db_dbFork db) hash.

(** [dbFork.RemoveFork(hash)], whose result nobody looks at *)
Definition drop_fork (io : DbIO) (db : CBlockDB) (hash : Z) : CBlockDB :=
  set_dbFork db (ForkDB.RemoveFork (db_dbFork db) (io_erase io) hash).2.

Definition AddNewFork (io : DbIO) (db : CBlockDB) (hash : Z) : bool * CBlockDB :=
  let '(r, f) := ForkDB.UpdateFork (db_dbFork db) (io_active io) hash 0 in
  let db := set_dbFork db f in
  if negb r then (false, db)
  else
    let '(r, t) := TxIndexDB.LoadFork (db_dbTxIndex db) hash (io_txdb io) in
    let db := set_dbTxIndex db t in
    if negb r then (false, drop_fork io db hash)
    else
      let '(r, u) := UnspentDB.AddNewFork (db_dbUnspent db) hash (io_unspent io) in
      let db := set_dbUnspent db u in
      if negb r then (false, drop_fork io db hash) else (true, db).

Definition RemoveFork (io : DbIO) (db : CBlockDB) (hash : Z) : bool * CBlockDB :=
  let '(r, u) := UnspentDB.RemoveFork (db_dbUnspent db) hash in
  let db := set_dbUnspent db u in
  if negb r then (false, db)
  else let '(r, f) := ForkDB.RemoveFork (db_dbFork db) (io_erase io) hash in (r, set_dbFork db f).

Section stores.
(** The chunks of the transaction index, and the order in which the key-value
    store walks through unspent outputs *)
Context (C : codec (list (Z * CTxIndex))) (kv_order : MapType -> list (CTxOutPoint * CTxOutput)).

Definition UpdateFork (io : DbIO) (db : CBlockDB) (hash hashRefBlock hashForkBased : Z) (vTxNew : list (Z * CTxIndex))
    (vTxDel : list Z) (vAddNew : list CTxUnspent) (vRemove : list CTxOutPoint) : bool * CBlockDB :=
  if negb (UnspentDB.Exists (db_dbUnspent db) hash) then (false, db)
  else
    let based := negb (hashForkBased =? hash) && negb (hashForkBased =? 0) in
    let '(r, u) :=
      if based then UnspentDB.Copy kv_order (db_dbUnspent db) hashForkBased hash (io_clear io) (io_copy io)
      else (true, db_dbUnspent db) in
    let db := set_dbUnspent db u in
    if negb r then (false, db)
    else
      let fIgnoreTxDel := based in
      let '(r, f) := ForkDB.UpdateFork (db_dbFork db) (io_active io) hash hashRefBlock in
      let db := set_dbFork db f in
      if negb r then (false, db)
      else
        let '(r, t) := TxIndexDB.Update C (db_dbTxIndex db) (io_lower io) hash vTxNew (if fIgnoreTxDel then [] else vTxDel) in
        let db := set_dbTxIndex db t in
        if negb r then (false, db)
        else
          let '(r, u) := UnspentDB.Update (db_dbUnspent db) hash vAddNew vRemove in
          (r, set_dbUnspent db u).

Definition RetrieveTxIndex (io : DbIO) (db : CBlockDB) (txid : Z) : outcome (option (Z * CTxIndex)) :=
  TxIndexDB.Retrieve C (db_dbTxIndex db) (fun _ => io_lower io) txid.

Definition RetrieveTxIndexIn (io : DbIO) (db : CBlockDB) (fork txid : Z) : outcome (option CTxIndex) :=
  TxIndexDB.RetrieveIn C (db_dbTxIndex db) (io_lower io) fork txid.
End stores.

Definition AddNewBlock (io : DbIO) (db : CBlockDB) (outline : CBlockOutline) : bool * CBlockDB :=
  let '(r, b) := BlockIndexDB.AddNewBlock (db_dbBlockIndex db) (io_outline io) outline in (r, set_dbBlockIndex db b).

Definition RemoveBlock (io : DbIO) (db : CBlockDB) (hash : Z) : bool * CBlockDB :=
  let '(r, b) := BlockIndexDB.RemoveBlock (db_dbBlockIndex db) (io_erase io) hash in (r, set_dbBlockIndex db b).

Definition UpdateDelegateContext (io : DbIO) (db : CBlockDB) (hash : Z) (ctxt : CDelegateContext) : bool * CBlockDB :=
  let '(r, d) := DelegateDB.AddNew (db_dbDelegate db) (io_delegate io) hash ctxt in (r, set_dbDelegate db d).

Definition RetrieveTxUnspent (db : CBlockDB) (fork : Z) (out : CTxOutPoint) : option CTxOutput :=
  UnspentDB.Retrieve (db_dbUnspent db) fork out.

Definition RetrieveDelegate (db : CBlockDB) (hash : Z) : option (gmap CDestination Z) * CBlockDB :=
  let '(r, d) := DelegateDB.RetrieveDelegatedVote (db_dbDelegate db) hash in (r, set_dbDelegate db d).

Definition RetrieveEnroll (db : CBlockDB) (hashAnchor : Z) (vBlockRange : list Z)
    : option (gmap CDestination CDiskPos) * CBlockDB :=
  let '(r, d) := DelegateDB.RetrieveEnrollTx (db_dbDelegate db) hashAnchor vBlockRange in (r, set_dbDelegate db d).

Section load.
Context (ctxt_order : gmap Z CForkContext -> list (Z * CForkContext)).

Definition ListFork (db : CBlockDB) : list (Z * Z) := ForkDB.ListFork ctxt_order (db_dbFork db).

(** [LoadFork] opens the databases of every listed fork; [txdb] and [unspent]
    are what is found on the disk. *)
Fixpoint load_forks (txdb : Z -> option (gmap Z CDiskPos * gmap Z (list Z))) (unspent : Z -> option MapType)
    (vFork : list (Z * Z)) (db : CBlockDB) : bool * CBlockDB :=
  match vFork with
  | [] => (true, db)
  | (hash, _) :: vFork =>
      let '(r, t) := TxIndexDB.LoadFork (db_dbTxIndex db) hash (txdb hash) in
      let db := set_dbTxIndex db t in
      if negb r then (false, db)
      else
        let '(r, u) := UnspentDB.AddNewFork (db_dbUnspent db) hash (unspent hash) in
        let db := set_dbUnspent db u in
        if negb r then (false, db) else load_forks txdb unspent vFork db
  end.

Definition LoadFork (txdb : Z -> option (gmap Z CDiskPos * gmap Z (list Z))) (unspent : Z -> option MapType)
    (db : CBlockDB) : bool * CBlockDB :=
  load_forks txdb unspent (ListFork db) db.
End load.

(** [RemoveAll] *)
Definition RemoveAll (db : CBlockDB) : CBlockDB :=
  mkBlockDB (mkForkDB ∅ ∅) ∅ ∅ (UnspentDB.Clear (db_dbUnspent db)) (DelegateDB.Clear (db_dbDelegate db)).

(** An operation during which no write fails, and the databases of a new fork
    are found empty *)
Definition disk_ok (io : DbIO) : Prop :=
  io_ctxt io = true /\ io_active io = true /\ io_outline io = true /\ io_delegate io = true /\
  io_txdb io = Some (∅, ∅) /\ io_unspent io = Some ∅ /\ io_clear io = true /\ (forall o, io_copy io o = true) /\
  io_lower io = true.

(** *** What the stores hold *)

Section spec.
Context (C : codec (list (Z * CTxIndex))) `{!CodecOk C}.
Context (kv_order : MapType -> list (CTxOutPoint * CTxOutput)).
Hypothesis kv_order_perm : forall m, kv_order m ≡ₚ map_to_list m.

(** All stores are well-formed, and the same forks are open in the transaction
    index and the unspent outputs. *)
Record stores_ok (k : Z) (db : CBlockDB) : Prop := {
  so_tx : TxIndexDB.forks_ok C k (db_dbTxIndex db);
  so_unspent : UnspentDB.forks_ok (db_dbUnspent db);
  so_delegate : DelegateDB.db_ok (db_dbDelegate db);
  so_dom : dom (db_dbTxIndex db) = dom (db_dbUnspent db);
}.

Lemma disk_ok_update io : disk_ok io -> io_active io = true /\ io_clear io = true /\ (forall o, io_copy io o = true) /\ io_lower io = true.
Proof. intros (? & ? & ? & ? & ? & ? & ? & ? & ?). done. Qed.

(** The unspent outputs an update of fork [hash] starts from *)
Definition start_content (db : CBlockDB) (hash hashForkBased : Z) : option MapType :=
  UnspentDB.contents (db_dbUnspent db) !! (if hashForkBased =? 0 then hash else hashForkBased).

Lemma contents_dom (u u' : gmap Z CForkUnspentDB) hash m :
  is_Some (u !! hash) -> UnspentDB.contents u' = <[hash := m]> (UnspentDB.contents u) -> dom u' = dom u.
Proof.
  intros Hs E. apply (f_equal dom) in E. unfold UnspentDB.contents in E.
  rewrite dom_insert_L, !dom_fmap_L in E. rewrite E. apply elem_of_dom in Hs. set_solver.
Qed.

(** The copy that precedes an update *)
Lemma copy_start k io db hash hashForkBased m :
  disk_ok io -> stores_ok k db -> is_Some (db_dbUnspent db !! hash) -> start_content db hash hashForkBased = Some m ->
  let based := negb (hashForkBased =? hash) && negb (hashForkBased =? 0) in
  exists u, (if based then UnspentDB.Copy kv_order (db_dbUnspent db) hashForkBased hash (io_clear io) (io_copy io)
             else (true, db_dbUnspent db)) = (true, u) /\
    UnspentDB.forks_ok u /\ UnspentDB.contents u = <[hash := m]> (UnspentDB.contents (db_dbUnspent db)).
Proof.
  intros Hio Hok [b Hb] Hm. destruct (disk_ok_update io Hio) as (_ & -> & Ecp & _). destruct Hok as [_ Hu _ _].
  unfold start_content, UnspentDB.contents in Hm. rewrite lookup_fmap in Hm. cbv zeta.
  destruct (Z.eqb_spec hashForkBased 0) as [->|H0]; [|destruct (Z.eqb_spec hashForkBased hash) as [->|H1]].
  - rewrite andb_false_r. eexists. split; [done|]. split; [done|]. rewrite insert_id; [done|].
    unfold UnspentDB.contents. by rewrite lookup_fmap.
  - eexists. split; [done|]. split; [done|]. rewrite insert_id; [done|]. unfold UnspentDB.contents. by rewrite lookup_fmap.
  - cbn [negb andb]. destruct (db_dbUnspent db !! hashForkBased) as [a|] eqn:Ea; [|done]. cbn in Hm. simplify_eq.
    by eapply UnspentDB.Copy_contents.
Qed.

(** On a disk that does not fail, updating an open fork moves its last block,
    makes its unspent outputs those of the fork it is based on with the changes
    applied, and the entries of its transactions what the lists say; the ids to
    delete count only when the fork is based on itself. *)
Theorem UpdateFork_spec (k : Z) (io : DbIO) (db : CBlockDB) (hash hashRefBlock hashForkBased : Z)
    (vTxNew : list (Z * CTxIndex)) (vTxDel : list Z) (vAddNew : list CTxUnspent) (vRemove : list CTxOutPoint) (m : MapType)
    (Hio : disk_ok io) (Hok : stores_ok k db) (Hopen : is_Some (db_dbUnspent db !! hash))
    (Hm : start_content db hash hashForkBased = Some m)
    (Hn : Forall (fun e => is_uint 256 e.1) vTxNew) (Hd : Forall (is_uint 256) vTxDel) :
  exists db', UpdateFork C kv_order io db hash hashRefBlock hashForkBased vTxNew vTxDel vAddNew vRemove = (true, db') /\
    stores_ok k db' /\
    db_dbFork db' = mkForkDB (fk_ctxt (db_dbFork db)) (<[hash := hashRefBlock]> (fk_active (db_dbFork db))) /\
    db_dbBlockIndex db' = db_dbBlockIndex db /\ db_dbDelegate db' = db_dbDelegate db /\
    dom (db_dbUnspent db') = dom (db_dbUnspent db) /\
    UnspentDB.contents (db_dbUnspent db') =
      <[hash := ForkUnspentDB.apply_changes m vAddNew vRemove]> (UnspentDB.contents (db_dbUnspent db)) /\
    (forall f txid, is_uint 256 txid ->
       TxIndexDB.entry C (db_dbTxIndex db') f txid =
       if f =? hash
       then TxIndexDB.updated vTxNew (if (hashForkBased =? 0) || (hashForkBased =? hash) then vTxDel else [])
              (TxIndexDB.entry C (db_dbTxIndex db) f txid) txid
       else TxIndexDB.entry C (db_dbTxIndex db) f txid).
Proof.
  pose proof (copy_start k io db hash hashForkBased m Hio Hok Hopen Hm) as (u & E & Hu & Hc). cbv zeta in E.
  destruct (disk_ok_update io Hio) as (Eact & _ & _ & Elow). pose proof Hok as [Ht _ Hdel Hdom].
  pose proof (contents_dom _ _ _ _ Hopen Hc) as Hdu.
  assert (Htx : is_Some (db_dbTxIndex db !! hash)) by (apply elem_of_dom; rewrite Hdom; by apply elem_of_dom).
  assert (Hb : negb (negb (hashForkBased =? hash) && negb (hashForkBased =? 0)) = (hashForkBased =? 0) || (hashForkBased =? hash)).
  { rewrite negb_andb, !negb_involutive. apply orb_comm. }
  unfold UpdateFork, UnspentDB.Exists. rewrite bool_decide_true by done. cbn [negb]. rewrite E. cbn [negb].
  unfold ForkDB.UpdateFork. rewrite Eact, Elow. cbn [negb].
  change (db_dbTxIndex (set_dbFork _ _)) with (db_dbTxIndex db).
  destruct (TxIndexDB.Update_entries C k (db_dbTxIndex db) hash vTxNew
    (if (hashForkBased =? 0) || (hashForkBased =? hash) then vTxDel else [])) as (t & Et & Hkt & Hdt & Hent);
    [done|done|done|destruct (_ || _); [done|constructor]|].
  rewrite <- Hb in Et. destruct (negb (hashForkBased =? hash) && negb (hashForkBased =? 0)); cbn [negb] in Et; rewrite Et; cbn [negb].
  all: assert (Ho : is_Some (u !! hash)) by (apply elem_of_dom; rewrite Hdu; by apply elem_of_dom).
  all: destruct Ho as [du Hdu1]; destruct (UnspentDB.Update_contents u hash vAddNew vRemove du) as (u' & Eu & Hu' & Hc'); [done|done|].
  all: change (db_dbUnspent (set_dbTxIndex _ _)) with u; rewrite Eu; eexists; (split; [reflexivity|]).
  all: assert (Hdu' : dom u' = dom (db_dbUnspent db)) by (rewrite (contents_dom u u' hash _ ltac:(eauto) Hc'); done).
  all: split; [split; [done|done|done|cbn; congruence]|]; repeat (split; [done|]); (split; [|done]).
  all: cbn [db_dbUnspent set_dbUnspent]; rewrite Hc', Hc, insert_insert_eq; f_equal; f_equal.
  all: assert (Em : UnspentDB.contents u !! hash = Some m) by (rewrite Hc; apply lookup_insert_eq).
  all: unfold UnspentDB.contents in Em; rewrite lookup_fmap, Hdu1 in Em; by simplify_eq/=.
Qed.

Lemma fresh_txdb_ok k : 1 <= k -> CTSDB.db_ok C k (CTSDB.init ∅ ∅).
Proof.
  intros Hk. split; [by left| |].
  - split; [cbn; lia|]. intros n [x Hx]. discriminate Hx.
  - exists ∅. split; apply map_Forall_empty.
Qed.

Lemma fresh_unspent_ok : ForkUnspentDB.db_ok (mkForkUnspent (Some ∅) DblMap.init).
Proof. split; [by left|by eexists|]. intros o v Hv. cbn in Hv. by rewrite lookup_empty in Hv. Qed.

Lemma fresh_unspent_content : ForkUnspentDB.content (mkForkUnspent (Some ∅) DblMap.init) = ∅.
Proof. apply map_eq. intros o. by rewrite UnspentDB.content_opened, !lookup_empty. Qed.

(** Opening a new fork: its stores are open and empty. *)
Lemma AddNewFork_spec k io db hash :
  disk_ok io -> 1 <= k -> stores_ok k db -> db_dbUnspent db !! hash = None ->
  exists db', AddNewFork io db hash = (true, db') /\ stores_ok k db' /\
    db_dbFork db' = mkForkDB (fk_ctxt (db_dbFork db)) (<[hash := 0]> (fk_active (db_dbFork db))) /\
    db_dbBlockIndex db' = db_dbBlockIndex db /\ db_dbDelegate db' = db_dbDelegate db /\
    UnspentDB.contents (db_dbUnspent db') = <[hash := ∅]> (UnspentDB.contents (db_dbUnspent db)) /\
    (forall f txid, TxIndexDB.entry C (db_dbTxIndex db') f txid = TxIndexDB.entry C (db_dbTxIndex db) f txid).
Proof.
  intros Hio Hk [Ht Hu Hd Hdom] Hnew. destruct Hio as (_ & Eact & _ & _ & Etx & Eun & _).
  assert (Hnt : db_dbTxIndex db !! hash = None).
  { apply not_elem_of_dom. rewrite Hdom. by apply not_elem_of_dom. }
  unfold AddNewFork, ForkDB.UpdateFork. rewrite Eact. cbn [negb]. unfold TxIndexDB.LoadFork. cbn [db_dbTxIndex set_dbFork].
  rewrite Hnt, Etx. cbn [negb]. unfold UnspentDB.AddNewFork. cbn [db_dbUnspent set_dbTxIndex set_dbFork]. rewrite Hnew, Eun.
  eexists. split; [reflexivity|]. cbn. split; [|split; [done|]; split; [done|]; split; [done|]; split].
  - split; cbn; [|by apply map_Forall_insert_2; [apply fresh_unspent_ok|]|done|by rewrite !dom_insert_L, Hdom].
    apply map_Forall_insert_2; [by apply fresh_txdb_ok|done].
  - unfold UnspentDB.contents. by rewrite fmap_insert, fresh_unspent_content.
  - intros f txid. unfold TxIndexDB.entry. destruct (decide (hash = f)) as [<-|Hne]; [|by rewrite lookup_insert_ne].
    rewrite lookup_insert_eq, Hnt. done.
Qed.

End spec.

End BlockDB.
