(* ===== verification/BlockBase.v ===== *)
(** * The block base (class CBlockBase of src/storage/blockbase.h, blockbase.cpp)

    [CBlockBase] holds the index of all blocks, the forks with their last
    blocks, the block files and the block database.  An operation is a program
    on this state ([prog]) that ends with a value or with the return of false;
    reading a block changes the state, since it changes the cache of the files.
    A pointer to an index is the hash of its block, a pointer to a fork the hash
    of its origin.

    A [CBlockView] knows its fork; [View] adds the fork, its hash and whether
    the view may be committed to the changes of [BlockView].  The locks are not
    modelled here: an operation runs alone. *)

From S2P Require Import Prelude RWLock Prog Cache Stream Destination Transaction Block Base.
From S2P Require Import Template Profile BlockIndex UnspentDB BlockView Chain BlockFork TimeSeries CTSDB BlockDB.

Import CWalleveStream.

#[local] Existing Instance Destination.dest_lt_dec.

(** ** The state *)

Record CBlockFork : Type := mkBlockFork { bf_forkProfile : CProfile; bf_pIndexLast : Z; bf_pIndexOrigin : Z }.

Record CBlockBase : Type := mkBlockBase {
  cb_mapIndex : Indexes;
  cb_mapFork : gmap Z CBlockFork;
  cb_tsBlock : CTimeSeriesCached;
  cb_dbBlock : CBlockDB;
}.

Record View : Type := mkView {
  vw_view : CBlockView;
  vw_spFork : option Z;
  vw_hashFork : Z;
  vw_fCommittable : bool;
}.

Module BlockBase.

Notation bprog := (prog CBlockBase unit).

Definition set_mapIndex (st : CBlockBase) (mapIndex : Indexes) : CBlockBase :=
  mkBlockBase mapIndex (cb_mapFork st) (cb_tsBlock st) (cb_dbBlock st).

Definition set_mapFork (st : CBlockBase) (mapFork : gmap Z CBlockFork) : CBlockBase :=
  mkBlockBase (cb_mapIndex st) mapFork (cb_tsBlock st) (cb_dbBlock st).

Definition set_tsBlock (st : CBlockBase) (tsBlock : CTimeSeriesCached) : CBlockBase :=
  mkBlockBase (cb_mapIndex st) (cb_mapFork st) tsBlock (cb_dbBlock st).

Definition set_dbBlock (st : CBlockBase) (dbBlock : CBlockDB) : CBlockBase :=
  mkBlockBase (cb_mapIndex st) (cb_mapFork st) (cb_tsBlock st) dbBlock.

(** [tsBlock.Read(t,nFile,nOffset,fWriteCache)] into [left] *)
Definition ts_read {T : Type} (C : codec T) (pos : CDiskPos) (left : T) (fWriteCache : bool) : bprog T := fun st =>
  match TimeSeries.Read C (cb_tsBlock st) pos left fWriteCache with
  | None => Undefined
  | Some (r, t, ts) => Return (set_tsBlock st ts, if r then inr t else inl tt)
  end.

(** [tsBlock.Write(t,nFile,nOffset)] *)
Definition ts_write {T : Type} (C : codec T) (can_create : bool) (t : T) : bprog CDiskPos := fun st =>
  match TimeSeries.Write C can_create (cb_tsBlock st) t true with
  | None => Undefined
  | Some (r, pos, ts) => Return (set_tsBlock st ts, if r then inr pos else inl tt)
  end.

(** A call of the block database that returns [bool], or fills a reference *)
Definition db_call (f : CBlockDB -> bool * CBlockDB) : bprog unit := fun st =>
  let '(r, db) := f (cb_dbBlock st) in Return (set_dbBlock st db, if r then inr tt else inl tt).

Definition db_read {A : Type} (f : CBlockDB -> option A * CBlockDB) : bprog A := fun st =>
  let '(r, db) := f (cb_dbBlock st) in
  Return (set_dbBlock st db, match r with Some a => inr a | None => inl tt end).

Definition index_pos (i : CBlockIndex) : CDiskPos := mkDiskPos (bi_nFile i) (bi_nOffset i).

Definition blockex_null : CBlockEx := mkBlockEx Block.SetNull [].

(** ** Queries *)

Definition Exists (st : CBlockBase) (hash : Z) : bool := bool_decide (is_Some (cb_mapIndex st !! hash)).

Definition IsEmpty (st : CBlockBase) : bool := bool_decide (cb_mapIndex st = ∅).

Definition GetIndex (hash : Z) : bprog CBlockIndex := fun st =>
  Return (st, match cb_mapIndex st !! hash with Some i => inr i | None => inl tt end).

Definition GetFork (hash : Z) : bprog CBlockFork := fun st =>
  Return (st, match cb_mapFork st !! hash with Some f => inr f | None => inl tt end).

(** [Retrieve(pIndex,block)] for a [CBlock] and for a [CBlockEx] *)
Definition RetrieveBlock (i : CBlockIndex) : bprog CBlock := ts_read Block.block_codec (index_pos i) Block.SetNull false.

Definition RetrieveBlockEx (i : CBlockIndex) : bprog CBlockEx := ts_read Block.blockex_codec (index_pos i) blockex_null true.

Definition Retrieve (hash : Z) : bprog CBlockEx := i ← GetIndex hash; RetrieveBlockEx i.

Definition RetrieveIndex (hash : Z) : bprog CBlockIndex := GetIndex hash.

(** The last block of a fork; the pointer is not null. *)
Definition RetrieveFork (hash : Z) : bprog CBlockIndex :=
  f ← GetFork hash;
  st ← gets id;
  deref (cb_mapIndex st !! bf_pIndexLast f).

(** [GetFork(strName)]: the first in the order of the map *)
Definition find_name (st : CBlockBase) (strName : list Z) : option (Z * CBlockFork) :=
  List.find (fun e => bool_decide (pf_strName (bf_forkProfile e.2) = strName)) (map_entries Z.lt (cb_mapFork st)).

Definition RetrieveForkByName (strName : list Z) : bprog CBlockIndex :=
  e ← (fun st => found (find_name st strName) tt st);
  st ← gets id;
  deref (cb_mapIndex st !! bf_pIndexLast e.2).

Definition RetrieveProfile (hash : Z) : bprog CProfile := f ← GetFork hash; mret (bf_forkProfile f).

Definition RetrieveForkContext (hash : Z) : bprog CForkContext := fun st =>
  found (BlockDB.RetrieveForkContext (cb_dbBlock st) hash) tt st.

Definition GetTxUnspent (st : CBlockBase) (fork : Z) (out : CTxOutPoint) : option CTxOutput :=
  BlockDB.RetrieveTxUnspent (cb_dbBlock st) fork out.

(** [view.RetrieveUnspent(out)] *)
Definition view_RetrieveUnspent (st : CBlockBase) (view : View) (out : CTxOutPoint) : option CTxOutput :=
  BlockView.RetrieveUnspent (GetTxUnspent st (vw_hashFork view)) (vw_view view) out.

(** ** Adding to the index *)

Definition with_place (i : CBlockIndex) (pPrev : option Z) (pOrigin nHeight nRandBeacon nChainTrust nMoneySupply : Z) : CBlockIndex :=
  mkIndex (bi_hash i) pOrigin pPrev (bi_pNext i) (bi_txidMint i) (bi_nMintType i) (bi_nVersion i) (bi_nType i)
    (bi_nTimeStamp i) nHeight nRandBeacon nChainTrust nMoneySupply (bi_nProofAlgo i) (bi_nProofBits i) (bi_nFile i)
    (bi_nOffset i).

Section base.
Context (CryptoHash : list Z -> Z).

(** The new index, placed above its predecessor if that is in the index; the
    new one is already there when the predecessor is looked up. *)
Definition place_index (mapIndex : Indexes) (hash : Z) (block : CBlock) (pos : CDiskPos) : outcome CBlockIndex :=
  let pIndexNew := BlockIndex.of_block CryptoHash hash block (dp_nFile pos) (dp_nOffset pos) in
  let nMoneySupply := Block.GetBlockMint block in
  let nChainTrust := Block.GetBlockTrust block in
  let nRandBeacon := Block.GetBlockBeacon block 0 in
  match <[hash := pIndexNew]> mapIndex !! b_hashPrev block with
  | None => Return (with_place pIndexNew None hash 0 nRandBeacon nChainTrust nMoneySupply)
  | Some pIndexPrev =>
      let nHeight := i32 (bi_nHeight pIndexPrev + (if BlockIndex.IsExtended pIndexNew then 0 else 1)) in
      let nMoneySupply := i64 (nMoneySupply + bi_nMoneySupply pIndexPrev) in
      let nChainTrust := u64 (nChainTrust + bi_nChainTrust pIndexPrev) in
      if BlockIndex.IsOrigin pIndexNew
      then Return (with_place pIndexNew (Some (b_hashPrev block)) hash nHeight nRandBeacon nChainTrust nMoneySupply)
      else
        match <[hash := pIndexNew]> mapIndex !! bi_pOrigin pIndexPrev with
        | None => Undefined
        | Some pOrigin =>
            Return (with_place pIndexNew (Some (b_hashPrev block)) (bi_pOrigin pIndexPrev) nHeight
                      (Z.lxor nRandBeacon (bi_nRandBeacon pOrigin)) nChainTrust nMoneySupply)
        end
  end.

(** [mapIndex.insert], which keeps an entry that is there *)
Definition AddNewIndex (hash : Z) (block : CBlock) (pos : CDiskPos) : bprog CBlockIndex :=
  st ← gets id;
  i ← call (place_index (cb_mapIndex st) hash block pos);
  puts (fun st => set_mapIndex st (map_insert_new (cb_mapIndex st) (hash, i)));;
  mret i.

(** ** Delegates *)

Definition is_delegate (dest : CDestination) : bool :=
  Destination.IsTemplate dest && (CTemplateId_GetType (data dest) =? TEMPLATE_DELEGATE).

(** [mapDelegate[dest] += n] *)
Definition add_vote (m : gmap CDestination Z) (dest : CDestination) (n : Z) : gmap CDestination Z :=
  <[dest := i64 (default 0 (m !! dest) + n)]> m.

(** One transaction of the loop; the offset is that of the transaction. *)
Definition delegate_tx (posBlock : CDiskPos) (s : CDelegateContext * Z) (e : CTransaction * CTxContxt) : CDelegateContext * Z :=
  let '(ctxt, nOffset) := s in
  let '(tx, txContxt) := e in
  let mapDelegate := dc_mapVote ctxt in
  let mapDelegate := if is_delegate (tx_sendTo tx) then add_vote mapDelegate (tx_sendTo tx) (tx_nAmount tx) else mapDelegate in
  let mapDelegate :=
    if is_delegate (ctx_destIn txContxt)
    then add_vote mapDelegate (ctx_destIn txContxt) (- i64 (tx_nAmount tx + tx_nTxFee tx)) else mapDelegate in
  let mapEnrollTx := dc_mapEnrollTx ctxt in
  let mapEnrollTx :=
    if tx_nType tx =? Tx.TX_CERT then
      <[tx_hashAnchor tx := map_insert_new (default ∅ (mapEnrollTx !! tx_hashAnchor tx))
                              (ctx_destIn txContxt, mkDiskPos (dp_nFile posBlock) nOffset)]> mapEnrollTx
    else mapEnrollTx in
  (mkDelegateContext mapDelegate mapEnrollTx, u32 (nOffset + ser_size Tx.tx_codec tx)).

(** The offset of the first transaction of [vtx] *)
Definition vtx_offset (nOffset : Z) (block : CBlock) : Z :=
  u32 (nOffset + Block.GetTxSerializedOffset block + ser_size Tx.tx_codec (b_txMint block) +
       ser_size CVarInt (Z.of_nat (length (b_vtx block)))).

(** A block with fewer contexts than transactions is read past its contexts. *)
Definition UpdateDelegate (io : DbIO) (hash : Z) (block : CBlockEx) (posBlock : CDiskPos) : bprog unit :=
  mapDelegate ← db_read (fun db => BlockDB.RetrieveDelegate db (b_hashPrev (bex_block block)));
  let nOffset := vtx_offset (dp_nOffset posBlock) (bex_block block) in
  call (if (length (b_vtx (bex_block block)) <=? length (bex_vTxContxt block))%nat then Return tt else Undefined);;
  let '(ctxt, _) := foldl (delegate_tx posBlock) (mkDelegateContext mapDelegate ∅, nOffset)
                      (zip (b_vtx (bex_block block)) (bex_vTxContxt block)) in
  db_call (fun db => BlockDB.UpdateDelegateContext io db hash ctxt).

(** [AddNew]; [can_create] says whether a block file can be created. *)
Definition AddNew (io : DbIO) (can_create : bool) (hash : Z) (block : CBlockEx) : bprog CBlockIndex :=
  st ← gets id;
  check (negb (Exists st hash)) tt;;
  pos ← ts_write Block.blockex_codec can_create block;
  i ← AddNewIndex hash (bex_block block) pos;
  st ← gets id;
  let '(r, db) := BlockDB.AddNewBlock io (cb_dbBlock st) (BlockOutline.of_index i) in
  puts (fun st => set_dbBlock st db);;
  if negb r then
    puts (fun st => set_mapIndex st (delete hash (cb_mapIndex st)));;
    fail tt
  else if BlockIndex.IsPrimary i then
    fun st =>
      match UpdateDelegate io hash block pos st with
      | Return (st, inr _) => Return (st, inr i)
      | Return (st, inl _) =>
          let st := set_dbBlock st (BlockDB.RemoveBlock io (cb_dbBlock st) hash).2 in
          Return (set_mapIndex st (delete hash (cb_mapIndex st)), inl tt)
      | Throw x => Throw x
      | Undefined => Undefined
      end
  else mret i.

(** ** Views *)

(** [GetBlockView(view)] and [GetForkBlockView] *)
Definition EmptyView : View := mkView BlockView.empty None 0 false.

Definition GetForkBlockView (hashFork : Z) : bprog View :=
  _ ← GetFork hashFork; mret (mkView BlockView.empty (Some hashFork) hashFork false).

(** [for (p = pForkLast; p != pBranch; p = p->pPrev)]: the blocks the view removes *)
Fixpoint remove_loop (chain pBranch : list CBlockIndex) (view : CBlockView) : bprog CBlockView :=
  if Chain.same_ptr chain pBranch then mret view
  else
    match chain with
    | [] => deref None
    | p :: chain =>
        block ← ts_read Block.blockex_codec (index_pos p) blockex_null true;
        remove_loop chain pBranch (BlockView.remove_block CryptoHash view block)
    end.

(** The blocks the view adds, the oldest first *)
Fixpoint add_loop (path : list CBlockIndex) (view : CBlockView) : bprog CBlockView :=
  match path with
  | [] => mret view
  | p :: path =>
      block ← ts_read Block.blockex_codec (index_pos p) blockex_null true;
      add_loop path (BlockView.add_block CryptoHash view block)
  end.

Definition GetBlockView (hash : Z) (fCommitable : bool) : bprog View :=
  pIndex ← GetIndex hash;
  let hashOrigin := bi_pOrigin pIndex in
  spFork ← GetFork hashOrigin;
  st ← gets id;
  let pForkLast := Chain.ancestry (cb_mapIndex st) (Some (bf_pIndexLast spFork)) in
  branch ← call (Chain.GetBranch pForkLast (Chain.ancestry (cb_mapIndex st) (Some hash)));
  let '(pBranch, vPath) := branch in
  view ← remove_loop pForkLast pBranch BlockView.empty;
  view ← add_loop (rev vPath) view;
  mret (mkView view (Some hashOrigin) hashOrigin fCommitable).

(** ** Committing a view *)

(** The positions of the transactions of [vtx]: the loop of [GetTxNewIndex] *)
Fixpoint vtx_index (nHeight nFile nOffset : Z) (vtx : list CTransaction) : list (Z * CTxIndex) :=
  match vtx with
  | [] => []
  | tx :: vtx =>
      (Tx.GetHash CryptoHash tx, mkTxIndex nHeight nFile nOffset) ::
      vtx_index nHeight nFile (u32 (nOffset + ser_size Tx.tx_codec tx)) vtx
  end.

Definition block_index (pIndex : CBlockIndex) (block : CBlock) : list (Z * CTxIndex) :=
  let nOffset := u32 (bi_nOffset pIndex + Block.GetTxSerializedOffset block) in
  (if Tx.IsNull (b_txMint block) then []
   else [(Tx.GetHash CryptoHash (b_txMint block), mkTxIndex (bi_nHeight pIndex) (bi_nFile pIndex) nOffset)]) ++
  vtx_index (bi_nHeight pIndex) (bi_nFile pIndex) (vtx_offset (bi_nOffset pIndex) block) (b_vtx block).

Fixpoint new_index_loop (path : list CBlockIndex) : bprog (list (Z * CTxIndex)) :=
  match path with
  | [] => mret []
  | pIndex :: path =>
      block ← ts_read Block.blockex_codec (index_pos pIndex) blockex_null true;
      rest ← new_index_loop path;
      mret (block_index pIndex (bex_block block) ++ rest)
  end.

(** The fork of a view has a last block. *)
Definition GetTxNewIndex (view : View) (hashNew : Z) : bprog (list (Z * CTxIndex)) :=
  st ← gets id;
  let pIndexNew := Chain.ancestry (cb_mapIndex st) (Some hashNew) in
  vPath ← match vw_spFork view ≫= fun f => cb_mapFork st !! f with
          | Some f =>
              branch ← call (Chain.GetBranch (Chain.ancestry (cb_mapIndex st) (Some (bf_pIndexLast f))) pIndexNew);
              mret branch.2
          | None => mret (take 1 pIndexNew)
          end;
  new_index_loop (rev vPath).

Definition LoadForkProfile (hashOrigin : Z) : bprog CProfile :=
  i ← (fun st => deref (cb_mapIndex st !! hashOrigin) st);
  block ← RetrieveBlock i;
  profile ← call (Profile.Load (b_vchProof block));
  found profile tt.

(** [UpdateNext] on the index *)
Definition UpdateNext (pIndexLast : Z) : bprog unit :=
  st ← gets id;
  mapIndex ← call (BlockFork.UpdateNext (cb_mapIndex st) pIndexLast);
  puts (fun st => set_mapIndex st mapIndex).

(** [AddNewFork]: the fork is kept under its origin unless there is one. *)
Definition AddNewFork (profile : CProfile) (pIndexLast : CBlockIndex) : bprog CBlockFork :=
  let spFork := mkBlockFork profile (bi_hash pIndexLast) (bi_pOrigin pIndexLast) in
  UpdateNext (bi_hash pIndexLast);;
  puts (fun st => set_mapFork st (map_insert_new (cb_mapFork st) (bi_pOrigin pIndexLast, spFork)));;
  mret spFork.

(** [UpdateLast] of the fork of [hashFork], if [fShared], or of an object only
    the caller knows *)
Definition UpdateLast (hashFork : Z) (fShared : bool) (pIndexLast : Z) : bprog unit :=
  puts (fun st =>
    if fShared
    then set_mapFork st (alter (fun f => mkBlockFork (bf_forkProfile f) pIndexLast (bf_pIndexOrigin f)) hashFork (cb_mapFork st))
    else st);;
  UpdateNext pIndexLast.

Context (C : codec (list (Z * CTxIndex))) (kv_order : MapType -> list (CTxOutPoint * CTxOutput)).

Definition CommitBlockView (io : DbIO) (view : View) (pIndexNew : CBlockIndex) : bprog unit :=
  let hashFork := bi_pOrigin pIndexNew in
  let hashNew := bi_hash pIndexNew in
  fShared ←
    (if hashFork =? vw_hashFork view then check (vw_fCommittable view) tt;; mret true
     else
       profile ← LoadForkProfile hashFork;
       db_call (fun db => BlockDB.AddNewFork io db hashFork);;
       st ← gets id;
       AddNewFork profile pIndexNew;;
       mret (negb (bool_decide (is_Some (cb_mapFork st !! hashFork)))));
  vTxNew ← GetTxNewIndex view hashNew;
  let vTxDel := BlockView.GetTxRemoved (vw_view view) in
  let '(vAddNew, vRemove) := BlockView.GetUnspentChanges (vw_view view) in
  db_call (fun db => BlockDB.UpdateFork C kv_order io db hashFork hashNew (vw_hashFork view) vTxNew vTxDel vAddNew vRemove);;
  UpdateLast hashFork fShared hashNew.

(** ** The genesis block *)

Definition Initiate (io : DbIO) (can_create : bool) (hashGenesis : Z) (blockGenesis : CBlock) : bprog unit :=
  st ← gets id;
  check (IsEmpty st) tt;;
  pos ← ts_write Block.blockex_codec can_create (mkBlockEx blockGenesis []);
  let nTxOffset := u32 (dp_nOffset pos + Block.GetTxSerializedOffset blockGenesis) in
  let txidMintTx := Tx.GetHash CryptoHash (b_txMint blockGenesis) in
  let vTxNew := [(txidMintTx, mkTxIndex 0 (dp_nFile pos) nTxOffset)] in
  let vAddNew := [mkTxUnspent (mkOutPoint txidMintTx 0) (Tx.output_of_tx (b_txMint blockGenesis))] in
  i ← AddNewIndex hashGenesis blockGenesis pos;
  db_call (fun db => BlockDB.AddNewBlock io db (BlockOutline.of_index i));;
  db_call (fun db => BlockDB.UpdateDelegateContext io db hashGenesis (mkDelegateContext ∅ ∅));;
  profile ← call (Profile.Load (b_vchProof blockGenesis));
  profile ← found profile tt;
  db_call (fun db => BlockDB.AddNewForkContext io db (ForkContext.of_profile hashGenesis 0 0 profile));;
  db_call (fun db => BlockDB.AddNewFork io db hashGenesis);;
  st ← gets id;
  AddNewFork profile i;;
  db_call (fun db => BlockDB.UpdateFork C kv_order io db hashGenesis hashGenesis 0 vTxNew [] vAddNew []);;
  UpdateLast (bi_pOrigin i) (negb (bool_decide (is_Some (cb_mapFork st !! bi_pOrigin i)))) hashGenesis.

(** ** Transactions *)

Definition txindex_pos (x : CTxIndex) : CDiskPos := mkDiskPos (txi_nFile x) (txi_nOffset x).

Definition RetrieveTxIndex (io : DbIO) (txid : Z) : bprog (Z * CTxIndex) := fun st =>
  (r ← call (BlockDB.RetrieveTxIndex C io (cb_dbBlock st) txid); found r tt) st.

Definition RetrieveTx (io : DbIO) (txid : Z) : bprog CTransaction :=
  r ← RetrieveTxIndex io txid;
  ts_read Tx.tx_codec (txindex_pos r.2) Tx.SetNull true.

Definition RetrieveTxIn (io : DbIO) (hashFork txid : Z) : bprog CTransaction :=
  x ← (fun st => (r ← call (BlockDB.RetrieveTxIndexIn C io (cb_dbBlock st) hashFork txid); found r tt) st);
  ts_read Tx.tx_codec (txindex_pos x) Tx.SetNull true.

Definition RetrieveTxLocation (io : DbIO) (txid : Z) : bprog (Z * Z) :=
  r ← RetrieveTxIndex io txid; mret (r.1, txi_nBlockHeight r.2).

Definition ExistsTx (io : DbIO) (txid : Z) : bprog unit := _ ← RetrieveTxIndex io txid; mret tt.

End base.

(** ** Reading the best chain *)

(** [filter.FoundTx] is called for the transactions that touch one of the
    destinations, the walker keeps the state [W] and can stop the walk. *)
Section filter.
Context {W : Type} (FoundTx : W -> Z -> CAssembledTx -> bool * W) (setDest : gset CDestination) (hashFork : Z).

Definition visit (w : W) (fMatch : bool) (tx : CAssembledTx) : bool * W :=
  if fMatch then FoundTx w hashFork tx else (true, w).

Fixpoint visit_vtx (nBlockHeight : Z) (w : W) (vtx : list (CTransaction * CTxContxt)) : bool * W :=
  match vtx with
  | [] => (true, w)
  | (tx, ctxt) :: vtx =>
      let fMatch := bool_decide (tx_sendTo tx ∈ setDest) || bool_decide (ctx_destIn ctxt ∈ setDest) in
      let '(r, w) := visit w fMatch (mkAssembledTx tx (ctx_destIn ctxt) (Tx.contxt_GetValueIn ctxt) nBlockHeight) in
      if r then visit_vtx nBlockHeight w vtx else (false, w)
  end.

(** A block: its mint transaction, then the others.  The loop runs over [vtx]
    and reads the context of each. *)
Definition visit_block (i : CBlockIndex) (block : CBlockEx) (w : W) : bool * W :=
  let b := bex_block block in
  let '(r, w) := visit w (bool_decide (tx_sendTo (b_txMint b) ∈ setDest))
                   (mkAssembledTx (b_txMint b) Destination.SetNull 0 (bi_nHeight i)) in
  if r then visit_vtx (bi_nHeight i) w (zip (b_vtx b) (bex_vTxContxt block)) else (false, w).

(** [for (pIndex = GetOrigin(); pIndex != NULL; pIndex = pIndex->pNext)] *)
Fixpoint filter_next (fuel : nat) (p : option Z) (w : W) : prog CBlockBase W W :=
  match p with
  | None => mret w
  | Some h =>
      match fuel with
      | O => deref None
      | S fuel =>
          st ← gets id;
          i ← deref (cb_mapIndex st !! h);
          block ← or_fail (RetrieveBlockEx i) w;
          let '(r, w) := visit_block i block w in
          if r then filter_next fuel (bi_pNext i) w else fail w
      end
  end.

(** [FilterTx(hashFork,filter)]: an error carries what was found before it. *)
Definition FilterTx (w : W) : prog CBlockBase W W :=
  f ← or_fail (GetFork hashFork) w;
  st ← gets id;
  filter_next (size (cb_mapIndex st)) (Some (bf_pIndexOrigin f)) w.

(** [for (pIndex = GetLast(); pIndex != NULL && nCount++ < nDepth; pIndex = pIndex->pPrev)] *)
Fixpoint filter_prev (chain : list CBlockIndex) (w : W) : prog CBlockBase W W :=
  match chain with
  | [] => mret w
  | i :: chain =>
      block ← or_fail (RetrieveBlockEx i) w;
      let '(r, w) := visit_block i block w in
      if r then filter_prev chain w else fail w
  end.

Definition FilterTxDepth (nDepth : Z) (w : W) : prog CBlockBase W W :=
  f ← or_fail (GetFork hashFork) w;
  st ← gets id;
  filter_prev (take (Z.to_nat nDepth) (Chain.ancestry (cb_mapIndex st) (Some (bf_pIndexLast f)))) w.
End filter.

(** ** Delegates of a block *)

(** The loop over the votes: [size_t] of the quotient, a division by zero is
    undefined. *)
Fixpoint avail_loop (nDelegateWeightRatio : Z) (mapEnrollTxPos : gmap CDestination CDiskPos) (votes : list (CDestination * Z))
    (acc : gmap CDestination Z * gmap CDestination (list Z)) : bprog (gmap CDestination Z * gmap CDestination (list Z)) :=
  match votes with
  | [] => mret acc
  | (dest, nVote) :: votes =>
      match mapEnrollTxPos !! dest with
      | Some pos =>
          if nDelegateWeightRatio <=? nVote then
            tx ← ts_read Tx.tx_codec pos Tx.SetNull true;
            deref (if nDelegateWeightRatio =? 0 then None else Some tt);;
            avail_loop nDelegateWeightRatio mapEnrollTxPos votes
              (map_insert_new acc.1 (dest, u64 (nVote ÷ nDelegateWeightRatio)), map_insert_new acc.2 (dest, tx_vchData tx))
          else avail_loop nDelegateWeightRatio mapEnrollTxPos votes acc
      | None => avail_loop nDelegateWeightRatio mapEnrollTxPos votes acc
      end
  end.

Definition RetrieveAvailDelegate (hash hashAnchor : Z) (vBlockRange : list Z) (nDelegateWeightRatio : Z)
    : bprog (gmap CDestination Z * gmap CDestination (list Z)) :=
  mapVote ← db_read (fun db => BlockDB.RetrieveDelegate db hash);
  mapEnrollTxPos ← db_read (fun db => BlockDB.RetrieveEnroll db hashAnchor vBlockRange);
  avail_loop nDelegateWeightRatio mapEnrollTxPos (map_entries Destination.dest_lt mapVote) (∅, ∅).

(** ** Loading *)

(** [new CBlockIndex()] under a hash: its own hash is not set. *)
Definition index_blank (hash : Z) : CBlockIndex := mkIndex (-1) hash None None 0 0 0 0 0 0 0 0 0 0 0 0 0.

Definition GetOrCreateIndex (mapIndex : Indexes) (hash : Z) : Indexes :=
  match mapIndex !! hash with Some _ => mapIndex | None => <[hash := index_blank hash]> mapIndex end.

(** The index an outline describes, with its pointers *)
Definition index_of_outline (o : CBlockOutline) (pPrev : option Z) (pOrigin : Z) : CBlockIndex :=
  mkIndex (ol_hashBlock o) pOrigin pPrev None (ol_txidMint o) (ol_nMintType o) (ol_nVersion o) (ol_nType o) (ol_nTimeStamp o)
    (ol_nHeight o) (ol_nRandBeacon o) (ol_nChainTrust o) (ol_nMoneySupply o) (ol_nProofAlgo o) (ol_nProofBits o)
    (ol_nFile o) (ol_nOffset o).

Definition LoadIndex (mapIndex : Indexes) (outline : CBlockOutline) : Indexes :=
  let hash := ol_hashBlock outline in
  let fOrigin := Block.type_IsOrigin (ol_nType outline) in
  let mapIndex := <[hash := index_of_outline outline None hash]> mapIndex in
  let pPrev := if ol_hashPrev outline =? 0 then None else Some (ol_hashPrev outline) in
  let mapIndex :=
    match pPrev with
    | None => mapIndex
    | Some p => <[hash := index_of_outline outline pPrev hash]> (GetOrCreateIndex mapIndex p)
    end in
  if fOrigin then mapIndex
  else <[hash := index_of_outline outline pPrev (ol_hashOrigin outline)]> (GetOrCreateIndex mapIndex (ol_hashOrigin outline)).

(** The forks of [ListFork] with their last blocks; a fork whose profile does not
    load ends the loading without clearing what was loaded. *)
Fixpoint load_forks (vFork : list (Z * Z)) : bprog unit :=
  match vFork with
  | [] => mret tt
  | (_, hashLast) :: vFork =>
      st ← gets id;
      match cb_mapIndex st !! hashLast with
      | None => puts (fun st => set_mapFork (set_mapIndex st ∅) ∅);; fail tt
      | Some i =>
          profile ← LoadForkProfile (bi_pOrigin i);
          AddNewFork profile i;;
          load_forks vFork
      end
  end.

Section load.
(** The orders in which the key-value store walks through the tables *)
Context (outline_order : gmap Z CBlockOutline -> list (Z * CBlockOutline))
  (ctxt_order : gmap Z CForkContext -> list (Z * CForkContext)).

Definition LoadDB : bprog unit :=
  st ← gets id;
  let mapIndex := foldl (fun m e => LoadIndex m e.2) ∅ (outline_order (db_dbBlockIndex (cb_dbBlock st))) in
  puts (fun st => set_mapFork (set_mapIndex st mapIndex) ∅);;
  load_forks (BlockDB.ListFork ctxt_order (cb_dbBlock st)).
End load.

End BlockBase.
