(* ===== verification/WorldLine.v ===== *)
(** * The world line (src/src/worldline.h, worldline.cpp)

    [CWorldLine] accepts blocks: it asks the core protocol whether a block is
    valid, builds the view of the chain the block continues, checks the
    transactions of the block in that view, stores the block and, if its chain
    is now the best of its fork, commits the view.  [AddNewBlock] and
    [AddNewOrigin] are the only operations that move the last block of a fork.

    The state is the block base with the caches of enrolments and agreements.
    The proof of the delegates ([CMvDelegateVerify::VerifyProof]) and the
    membership in the pool are parameters; the rules are those of [Core]. *)

From S2P Require Import Prelude RWLock Prog Cache Stream Destination Transaction Block Base.
From S2P Require Import Base25519 SC25519 Crypto Template Profile BlockIndex Core UnspentDB BlockView Chain BlockFork.
From S2P Require Import TimeSeries CTSDB BlockDB BlockBase.

Import CWalleveStream.

Record CDelegateEnrolled : Type := mkEnrolled {
  de_mapWeight : gmap CDestination Z;
  de_mapEnrollData : gmap CDestination (list Z);
}.

Record CWorldLine : Type := mkWorldLine {
  wl_cntrBlock : CBlockBase;
  wl_cacheEnrolled : CWalleveCache Z CDelegateEnrolled;
  wl_cacheAgreement : CWalleveCache Z CDelegateAgreement;
}.

(** What the delegated proof of a block says: the agreement, its weight and the
    ballot, if the proof holds for the enrolled delegates *)
Class IDelegateVerify : Type := {
  VerifyProof : CDelegateEnrolled -> list Z -> option (Z * Z * gmap CDestination Z);
}.

Module WorldLine.

Notation wprog := (prog CWorldLine).

Definition MV_CONSENSUS_DISTRIBUTE_INTERVAL : nat := 15.
Definition MV_CONSENSUS_ENROLL_INTERVAL : nat := 30.
Definition MV_CONSENSUS_INTERVAL : nat := MV_CONSENSUS_DISTRIBUTE_INTERVAL + MV_CONSENSUS_ENROLL_INTERVAL + 1.
Definition ENROLLED_CACHE_COUNT : nat := 120.
Definition AGREEMENT_CACHE_COUNT : nat := 16.

Definition init (cntrBlock : CBlockBase) : CWorldLine :=
  mkWorldLine cntrBlock (Cache.init ENROLLED_CACHE_COUNT) (Cache.init AGREEMENT_CACHE_COUNT).

Definition set_cntrBlock (wl : CWorldLine) (cntrBlock : CBlockBase) : CWorldLine :=
  mkWorldLine cntrBlock (wl_cacheEnrolled wl) (wl_cacheAgreement wl).

(** A call of the block base *)
Definition base {E A : Type} (m : prog CBlockBase E A) : wprog E A := fun wl =>
  match m (wl_cntrBlock wl) with
  | Return (st, r) => Return (set_cntrBlock wl st, r)
  | Throw x => Throw x
  | Undefined => Undefined
  end.

Definition getb {E A : Type} (f : CBlockBase -> A) : wprog E A := gets (fun wl => f (wl_cntrBlock wl)).

(** An error code that is the result *)
Definition ok_or {A : Type} (err : MvErr) (a : A) : wprog MvErr A := if bool_decide (err = MV_OK) then mret a else fail err.

Definition enrolled_null : CDelegateEnrolled := mkEnrolled ∅ ∅.

Definition agreement_null : CDelegateAgreement := mkAgreement 0 0 [].

(** [CWorldLineUpdate(pIndex)] with the other fields empty *)
Definition update_of (st : CBlockBase) (i : CBlockIndex) : option CWorldLineUpdate :=
  o ← cb_mapIndex st !! bi_pOrigin i;
  hashParent ← match bi_pPrev o with
               | None => Some 0
               | Some p => bi_pOrigin <$> cb_mapIndex st !! p
               end;
  Some (mkUpdate (bi_pOrigin i) hashParent (i32 (bi_nHeight o - 1)) (bi_hash i) (BlockIndex.GetBlockTime i) (bi_nHeight i)
          (bi_nMoneySupply i) ∅ [] []).

(** ** Delegates *)

Section delegate.
Context `{IDelegateVerify}.

Definition GetBlockDelegateEnrolled (hashBlock : Z) : wprog unit CDelegateEnrolled :=
  wl ← gets id;
  match Cache.Retrieve (wl_cacheEnrolled wl) hashBlock with
  | Some enrolled => mret enrolled
  | None =>
      pIndex ← base (BlockBase.RetrieveIndex hashBlock);
      let nDelegateWeightRatio := i64 (bi_nMoneySupply pIndex + DELEGATE_THRESH - 1) ÷ DELEGATE_THRESH in
      if bi_nHeight pIndex <? Z.of_nat MV_CONSENSUS_ENROLL_INTERVAL then mret enrolled_null
      else
        let chain := Chain.ancestry (cb_mapIndex (wl_cntrBlock wl)) (Some hashBlock) in
        let vBlockRange := map bi_hash (take MV_CONSENSUS_ENROLL_INTERVAL chain) in
        pIndex ← deref (chain !! MV_CONSENSUS_ENROLL_INTERVAL);
        r ← base (BlockBase.RetrieveAvailDelegate hashBlock (bi_hash pIndex) vBlockRange nDelegateWeightRatio);
        let enrolled := mkEnrolled r.1 r.2 in
        puts (fun wl => mkWorldLine (wl_cntrBlock wl) (Cache.AddNew (wl_cacheEnrolled wl) hashBlock enrolled) (wl_cacheAgreement wl));;
        mret enrolled
  end.

(** The agreement of a proof, given the block whose enrolments count *)
Definition proof_agreement (hashBlock : Z) (vchProof : list Z) (pIndex : CBlockIndex) : wprog unit CDelegateAgreement :=
  enrolled ← GetBlockDelegateEnrolled (bi_hash pIndex);
  r ← found (VerifyProof enrolled vchProof) tt;
  let '(nAgreement, nWeight, mapBallot) := r in
  vBallot ← call (Core.GetDelegatedBallot nAgreement nWeight mapBallot);
  let agreement := mkAgreement nAgreement nWeight vBallot in
  puts (fun wl => mkWorldLine (wl_cntrBlock wl) (wl_cacheEnrolled wl) (Cache.AddNew (wl_cacheAgreement wl) hashBlock agreement));;
  mret agreement.

(** [GetBlockDelegateAgreement(hashBlock,agreement)] of a stored block *)
Definition GetBlockDelegateAgreement (hashBlock : Z) : wprog unit CDelegateAgreement :=
  wl ← gets id;
  match Cache.Retrieve (wl_cacheAgreement wl) hashBlock with
  | Some agreement => mret agreement
  | None =>
      pIndex ← base (BlockBase.RetrieveIndex hashBlock);
      if bi_nHeight pIndex <? Z.of_nat MV_CONSENSUS_INTERVAL then mret agreement_null
      else
        block ← base (BlockBase.RetrieveBlock pIndex);
        let chain := Chain.ancestry (cb_mapIndex (wl_cntrBlock wl)) (Some hashBlock) in
        pIndex ← deref (chain !! (MV_CONSENSUS_DISTRIBUTE_INTERVAL + 1)%nat);
        proof_agreement hashBlock (b_vchProof block) pIndex
  end.

(** [GetBlockDelegateAgreement(hashBlock,block,pIndexPrev,agreement)] of a new
    block *)
Definition NewBlockDelegateAgreement (hashBlock : Z) (block : CBlock) (pIndexPrev : CBlockIndex) : wprog unit CDelegateAgreement :=
  if bi_nHeight pIndexPrev <? Z.of_nat MV_CONSENSUS_INTERVAL - 1 then mret agreement_null
  else
    mapIndex ← getb cb_mapIndex;
    pIndex ← deref (Chain.ancestry mapIndex (Some (bi_hash pIndexPrev)) !! MV_CONSENSUS_DISTRIBUTE_INTERVAL);
    proof_agreement hashBlock (b_vchProof block) pIndex.

(** ** Verifying a block *)

Context (CryptoHash : list Z -> Z).

(** [CProofOfPiggyback::Load]: the weight, the agreement and the block it refers
    to; a proof that is too short throws. *)
Definition piggyback_Load (vchProof : list Z) : outcome (Z * Z * Z) :=
  '(proof, _) ← DataStream.get Block.piggyback_dcodec vchProof; Return proof.

(** The reward of the block *)
Definition VerifyBlock (hashBlock : Z) (block : CBlock) (pIndexPrev : CBlockIndex) : wprog MvErr Z :=
  if Block.IsOrigin block then fail MV_ERR_BLOCK_INVALID_FORK
  else if Block.IsPrimary block then
    check (BlockIndex.IsPrimary pIndexPrev) MV_ERR_BLOCK_INVALID_FORK;;
    agreement ← or_fail (NewBlockDelegateAgreement hashBlock block pIndexPrev) MV_ERR_BLOCK_PROOF_OF_STAKE_INVALID;
    mapIndex ← getb cb_mapIndex;
    r ← call (if Core.agreement_IsProofOfWork agreement
              then Core.VerifyProofOfWork CryptoHash block (Chain.ancestry mapIndex (Some (bi_hash pIndexPrev))) 0
              else Core.VerifyDelegatedProofOfStake block pIndexPrev agreement 0);
    ok_or r.1 r.2
  else if negb (Block.IsVacant block) then
    check (negb (BlockIndex.IsPrimary pIndexPrev)) MV_ERR_BLOCK_INVALID_FORK;;
    proof ← call (piggyback_Load (b_vchProof block));
    let '(nWeight, nAgreement, hashRefBlock) := proof in
    agreement ← or_fail (GetBlockDelegateAgreement hashRefBlock) MV_ERR_BLOCK_PROOF_OF_STAKE_INVALID;
    check ((ag_nAgreement agreement =? nAgreement) && (ag_nWeight agreement =? nWeight)
           && negb (Core.agreement_IsProofOfWork agreement)) MV_ERR_BLOCK_PROOF_OF_STAKE_INVALID;;
    pIndexRef ← or_fail (base (BlockBase.RetrieveIndex hashRefBlock)) MV_ERR_BLOCK_PROOF_OF_STAKE_INVALID;
    (if Block.IsExtended block then
       blockPrev ← or_fail (base (BlockBase.RetrieveBlock pIndexPrev)) MV_ERR_MISSING_PREV;
       check (negb (Block.IsVacant blockPrev)) MV_ERR_MISSING_PREV;;
       proofPrev ← call (piggyback_Load (b_vchProof blockPrev));
       let '(nWeightPrev, nAgreementPrev, _) := proofPrev in
       check ((nAgreement =? nAgreementPrev) && (nWeight =? nWeightPrev)) MV_ERR_BLOCK_PROOF_OF_STAKE_INVALID
     else mret tt);;
    let '(err, nReward) := Core.VerifySubsidiary block pIndexPrev pIndexRef agreement 0 in
    ok_or err nReward
  else mret 0.

End delegate.

(** ** Transactions of a block *)

(** [GetTxContxt]: the context of a transaction in a view.  [destIn] is null until
    the first output is found. *)
Fixpoint contxt_loop (retrieve : CTxOutPoint -> option CTxOutput) (vin : list CTxIn) (ctx : CTxContxt) : MvErr + CTxContxt :=
  match vin with
  | [] => inr ctx
  | txin :: vin =>
      match retrieve (prevout txin) with
      | None => inl MV_ERR_MISSING_PREV
      | Some output =>
          if Destination.IsNull (ctx_destIn ctx) then
            contxt_loop retrieve vin (mkTxContxt (out_destTo output) (ctx_vin ctx ++ [Tx.incontxt_of_output output]))
          else if bool_decide (ctx_destIn ctx = out_destTo output) then
            contxt_loop retrieve vin (mkTxContxt (ctx_destIn ctx) (ctx_vin ctx ++ [Tx.incontxt_of_output output]))
          else inl MV_ERR_TRANSACTION_INVALID
      end
  end.

Definition GetTxContxt (retrieve : CTxOutPoint -> option CTxOutput) (tx : CTransaction) : MvErr + CTxContxt :=
  contxt_loop retrieve (tx_vInput tx) BlockView.null_contxt.

Section accept.
Context (CryptoHash : list Z -> Z) (verify_detached : list Z -> list Z -> Z -> bool) `{IEdwards} (size_type : nat).
Context (base64dec : list Z -> option (list Z)) `{IDelegateVerify}.
Context (C : codec (list (Z * CTxIndex))) (kv_order : MapType -> list (CTxOutPoint * CTxOutput)).
(** The pool: [pTxPool->Exists] *)
Context (pool_Exists : Z -> bool).

(** The view with other changes *)
Definition set_view (view : View) (v : CBlockView) : View :=
  mkView v (vw_spFork view) (vw_hashFork view) (vw_fCommittable view).

(** The loop over [vtx] of [AddNewBlock]: the view, the contexts and the fees *)
Fixpoint block_txs (pIndexPrev : CBlockIndex) (vtx : list CTransaction) (view : View) (vTxContxt : list CTxContxt) (nTotalFee : Z)
    : wprog MvErr (View * list CTxContxt * Z) :=
  match vtx with
  | [] => mret (view, vTxContxt, nTotalFee)
  | tx :: vtx =>
      let txid := Tx.GetHash CryptoHash tx in
      st ← getb id;
      match GetTxContxt (BlockBase.view_RetrieveUnspent st view) tx with
      | inl err => fail err
      | inr txContxt =>
          (if pool_Exists txid then mret tt
           else
             err ← call (Core.VerifyBlockTx CryptoHash verify_detached size_type tx txContxt (bi_nHeight pIndexPrev));
             ok_or err tt);;
          block_txs pIndexPrev vtx
            (set_view view (BlockView.AddTx (vw_view view) txid tx (ctx_destIn txContxt) (Tx.contxt_GetValueIn txContxt)))
            (vTxContxt ++ [txContxt]) (i64 (nTotalFee + tx_nTxFee tx))
      end
  end.

(** [GetBlockChanges] reads the blocks while it walks; a fork without blocks has
    the time -1. *)
Fixpoint changes_loop (fuel : nat) (pIndexNew pIndexFork : list CBlockIndex)
    : prog CBlockBase unit (list CBlockEx * list CBlockEx) :=
  if Chain.same_ptr pIndexNew pIndexFork then mret ([], [])
  else
    match fuel with
    | O => deref None
    | S fuel =>
        let nLastBlockTime := match pIndexFork with f :: _ => BlockIndex.GetBlockTime f | [] => -1 end in
        match pIndexNew with
        | [] => deref None
        | n :: pIndexNew' =>
            if nLastBlockTime <=? BlockIndex.GetBlockTime n then
              block ← BlockBase.RetrieveBlockEx n;
              r ← changes_loop fuel pIndexNew' pIndexFork;
              mret (block :: r.1, r.2)
            else
              match pIndexFork with
              | [] => deref None
              | f :: pIndexFork' =>
                  block ← BlockBase.RetrieveBlockEx f;
                  r ← changes_loop fuel pIndexNew pIndexFork';
                  mret (r.1, block :: r.2)
              end
        end
    end.

(** Every turn moves a pointer. *)
Definition GetBlockChanges (hashNew : Z) (hashFork : option Z) : prog CBlockBase unit (list CBlockEx * list CBlockEx) :=
  st ← gets id;
  let pIndexNew := Chain.ancestry (cb_mapIndex st) (Some hashNew) in
  let pIndexFork := Chain.ancestry (cb_mapIndex st) hashFork in
  changes_loop (length pIndexNew + length pIndexFork) pIndexNew pIndexFork.

(** The end of [AddNewBlock]: the block is stored and, unless the last block of
    its fork is better, committed. *)
Definition StoreBlock (io : DbIO) (can_create : bool) (hash : Z) (blockex : CBlockEx) (view : View)
    : wprog MvErr (option CWorldLineUpdate) :=
  pIndexNew ← or_fail (base (BlockBase.AddNew CryptoHash io can_create hash blockex)) MV_ERR_SYS_STORAGE_ERROR;
  st ← getb id;
  pIndexFork ← match cb_mapFork st !! bi_pOrigin pIndexNew with
               | None => mret None
               | Some f => i ← deref (cb_mapIndex st !! bf_pIndexLast f); mret (Some i)
               end;
  let worse :=
    match pIndexFork with
    | None => false
    | Some f =>
        (bi_nChainTrust pIndexNew <? bi_nChainTrust f) ||
        ((bi_nChainTrust f =? bi_nChainTrust pIndexNew) &&
         negb (Chain.IsEquivalent (Chain.ancestry (cb_mapIndex st) (Some hash)) (Some f)))
    end in
  if worse then mret None
  else
    or_fail (base (BlockBase.CommitBlockView CryptoHash C kv_order io view pIndexNew)) MV_ERR_SYS_STORAGE_ERROR;;
    st ← getb id;
    update ← deref (update_of st pIndexNew);
    changes ← or_fail (base (GetBlockChanges hash (bi_hash <$> pIndexFork))) MV_ERR_SYS_STORAGE_ERROR;
    mret (Some (mkUpdate (upd_hashFork update) (upd_hashParent update) (upd_nOriginHeight update) (upd_hashLastBlock update)
                  (upd_nLastBlockTime update) (upd_nLastBlockHeight update) (upd_nMoneySupply update)
                  (BlockView.GetTxUpdated (vw_view view)) changes.1 changes.2)).

(** [AddNewBlock] at the network time [nNetTime]; the update, if the chain of the
    fork changed *)
Definition AddNewBlock (io : DbIO) (can_create : bool) (nNetTime hashGenesisBlock : Z) (block : CBlock)
    : wprog MvErr (option CWorldLineUpdate) :=
  let hash := Block.GetHash CryptoHash block in
  st ← getb id;
  check (negb (BlockBase.Exists st hash)) MV_ERR_ALREADY_HAVE;;
  err ← call (Core.ValidateBlock CryptoHash verify_detached size_type base64dec nNetTime hashGenesisBlock block);
  ok_or err tt;;
  pIndexPrev ← or_fail (base (BlockBase.RetrieveIndex (b_hashPrev block))) MV_ERR_SYS_STORAGE_ERROR;
  nReward ← VerifyBlock CryptoHash hash block pIndexPrev;
  view ← or_fail (base (BlockBase.GetBlockView CryptoHash (b_hashPrev block) (negb (Block.IsOrigin block)))) MV_ERR_SYS_STORAGE_ERROR;
  let mint := b_txMint block in
  let view :=
    if Block.IsVacant block then view
    else set_view view (BlockView.AddTx (vw_view view) (Tx.GetHash CryptoHash mint) mint Destination.SetNull 0) in
  r ← block_txs pIndexPrev (b_vtx block) view [] 0;
  let '(view, vTxContxt, nTotalFee) := r in
  check (tx_nAmount mint <=? i64 (nTotalFee + nReward)) MV_ERR_BLOCK_TRANSACTIONS_INVALID;;
  StoreBlock io can_create hash (mkBlockEx block vTxContxt) view.

(** [AddNewOrigin]: the update *)
Definition AddNewOrigin (io : DbIO) (can_create : bool) (nNetTime hashGenesisBlock : Z) (block : CBlock)
    : wprog MvErr CWorldLineUpdate :=
  let hash := Block.GetHash CryptoHash block in
  st ← getb id;
  check (negb (BlockBase.Exists st hash)) MV_ERR_ALREADY_HAVE;;
  err ← call (Core.ValidateBlock CryptoHash verify_detached size_type base64dec nNetTime hashGenesisBlock block);
  ok_or err tt;;
  pIndexPrev ← or_fail (base (BlockBase.RetrieveIndex (b_hashPrev block))) MV_ERR_SYS_STORAGE_ERROR;
  parent ← or_fail (base (BlockBase.RetrieveProfile (bi_pOrigin pIndexPrev))) MV_ERR_SYS_STORAGE_ERROR;
  r ← call (Core.ValidateOrigin block parent);
  ok_or r.1 tt;;
  let profile := default Profile.SetNull r.2 in
  st ← getb id;
  check (negb (bool_decide (is_Some (BlockBase.find_name st (pf_strName profile))))) MV_ERR_ALREADY_HAVE;;
  view ← (if Profile.IsIsolated profile then mret BlockBase.EmptyView
          else or_fail (base (BlockBase.GetBlockView CryptoHash (b_hashPrev block) false)) MV_ERR_SYS_STORAGE_ERROR);
  let mint := b_txMint block in
  let view :=
    if tx_nAmount mint =? 0 then view
    else set_view view (BlockView.AddTx (vw_view view) (Tx.GetHash CryptoHash mint) mint Destination.SetNull 0) in
  let blockex := mkBlockEx block [] in
  pIndexNew ← or_fail (base (BlockBase.AddNew CryptoHash io can_create hash blockex)) MV_ERR_SYS_STORAGE_ERROR;
  or_fail (base (BlockBase.CommitBlockView CryptoHash C kv_order io view pIndexNew)) MV_ERR_SYS_STORAGE_ERROR;;
  st ← getb id;
  update ← deref (update_of st pIndexNew);
  mret (mkUpdate (upd_hashFork update) (upd_hashParent update) (upd_nOriginHeight update) (upd_hashLastBlock update)
          (upd_nLastBlockTime update) (upd_nLastBlockHeight update) (upd_nMoneySupply update)
          (BlockView.GetTxUpdated (vw_view view)) [blockex] []).

(** [GetTxUnspent]: the entries that are null are looked up in the fork; an
    output that is not found stays null. *)
Definition GetTxUnspent (hashFork : Z) (vInput : list CTxIn) (vOutput : list CTxOutput) : wprog unit (list CTxOutput) :=
  view ← base (BlockBase.GetForkBlockView hashFork);
  st ← getb id;
  let vOutput := take (length vInput) (vOutput ++ replicate (length vInput) Tx.output_null) in
  mret (zip_with (fun txin output =>
          if Tx.output_IsNull output
          then default output (BlockBase.view_RetrieveUnspent st view (prevout txin)) else output) vInput vOutput).
End accept.

End WorldLine.
