(* ===== verification/Agreement.v ===== *)
(** * The agreement of the delegates in the world line
    (src/src/worldline.cpp, src/delegate/mvdelegateverify.cpp)

    The proof that the world line asks for is that of Delegate.v: a fresh
    [CMvDelegateVerify] of the enrolled delegates. *)

From S2P Require Import Prelude Prog Cache Stream Destination Block Base BlockIndex Core TimeSeries BlockDB BlockBase WorldLine.
From S2P Require Import MPBox MPVSS MPVSSOk Delegate DelegateOk.

Module Agreement.
Import Delegate DelegateOk.

(** [CMvDelegateVerify verifier(mapWeight,mapEnrollData)] and
    [verifier.VerifyProof], the results cleared before; a verifier that cannot
    be made gives no agreement *)
Definition verifier (CryptoHash : list Z -> Z) (enrolled : CDelegateEnrolled) (vchProof : list Z)
    : option (Z * Z * gmap CDestination Z) :=
  match verify_init (de_mapWeight enrolled) (de_mapEnrollData enrolled) with
  | Return v =>
      match Delegate.VerifyProof CryptoHash v vchProof (0, 0, ∅) with
      | Return (true, agreement, _) => Some agreement
      | _ => None
      end
  | _ => None
  end.

Section agreement.
Context (CryptoHash : list Z -> Z).

#[local] Instance delegate_verify : IDelegateVerify := {| WorldLine.VerifyProof := verifier CryptoHash |}.

(** C21: the block of a delegate carries its agreement.  When the world line
    finds the enrolment with which a vote began, the agreement it computes from
    the proof of a block made after that vote is the agreement of the vote,
    with the ballot that the core protocol draws from it, if the agreement is not
    zero. *)
Theorem made_block_agreement (wl wl' : CWorldLine) (hashBlock : Z) (pIndex : CBlockIndex)
    (mapWeight : gmap CDestination Z) (mapEnrollData : gmap CDestination (list Z)) (u v0 v : CMvDelegateVote)
    (nAgreement nWeight : Z) (mapBallot : gmap CDestination Z) (vBallot : list CDestination) :
  WorldLine.GetBlockDelegateEnrolled (bi_hash pIndex) wl = Return (wl', inr (mkEnrolled mapWeight mapEnrollData)) ->
  fresh u -> Delegate.Enroll u mapWeight mapEnrollData = Return v0 -> voted CryptoHash v0 v ->
  Delegate.GetAgreement CryptoHash (dv_witness v) = Return (nAgreement, nWeight, mapBallot) ->
  is_uint 256 nAgreement -> nAgreement <> 0 -> is_uint 64 (Z.of_nat (length (dv_vCollected v))) ->
  Core.GetDelegatedBallot nAgreement nWeight mapBallot = Return vBallot ->
  exists wl2, WorldLine.proof_agreement hashBlock (PrepareProof v nAgreement nWeight) pIndex wl =
    Return (wl2, inr (mkAgreement nAgreement nWeight vBallot)) /\ wl_cntrBlock wl2 = wl_cntrBlock wl'.
Proof.
  intros Hen [Hw Hc] HE Hv Ha Hu Hne Hl Hb.
  destruct (proof_accepted CryptoHash u v0 v mapWeight mapEnrollData nAgreement nWeight mapBallot (0, 0, ∅) Hw Hc HE Hv Ha Hu Hne Hl)
    as (vf & vf' & E1 & E2).
  assert (EV : verifier CryptoHash (mkEnrolled mapWeight mapEnrollData) (PrepareProof v nAgreement nWeight) =
    Some (nAgreement, nWeight, mapBallot)).
  { unfold verifier. cbn [de_mapWeight de_mapEnrollData]. by rewrite E1, E2. }
  unfold WorldLine.proof_agreement. rewrite (bind_ok _ _ _ _ _ Hen). cbn [WorldLine.VerifyProof delegate_verify]. rewrite EV.
  cbn [found]. rewrite bind_ret. rewrite Hb. eexists. split; reflexivity.
Qed.

End agreement.

(** The enrolment of DelegateOk's example in the cache of the world line *)
Definition sample_index : CBlockIndex := mkIndex 3 1 None None 0 0 1 Block.BLOCK_PRIMARY 0 100 0 0 0 0 0 0 0.

Definition sample_line : CWorldLine :=
  let wl := WorldLine.init (mkBlockBase ∅ ∅ (TimeSeries.init 0 ∅) (mkBlockDB (mkForkDB ∅ ∅) ∅ ∅ ∅ (DelegateDB.init ∅))) in
  mkWorldLine (wl_cntrBlock wl) (Cache.AddNew (wl_cacheEnrolled wl) 3 (mkEnrolled one_weight one_enroll)) (wl_cacheAgreement wl).

Lemma sample_enrolled :
  WorldLine.GetBlockDelegateEnrolled 3 sample_line = Return (sample_line, inr (mkEnrolled one_weight one_enroll)).
Proof. reflexivity. Qed.

Lemma sample_ballot : Core.GetDelegatedBallot 7 1 {[one_dest := 1]} = Return [].
Proof. reflexivity. Qed.

Lemma made_block_agreement_witness :
  exists v wl2, WorldLine.proof_agreement (H := delegate_verify one_hash) 5 (PrepareProof v 7 1) sample_index sample_line =
    Return (wl2, inr (mkAgreement 7 1 [])).
Proof.
  destruct one_agreement as (v0 & v & HE & Hv & Hl & _ & Ha).
  destruct (made_block_agreement one_hash sample_line sample_line 5 sample_index one_weight one_enroll vote_init v0 v 7 1
    {[one_dest := 1]} []) as (wl2 & E & _).
  - exact sample_enrolled.
  - exact vote_init_fresh.
  - exact HE.
  - exact Hv.
  - exact Ha.
  - split; [discriminate|reflexivity].
  - discriminate.
  - rewrite Hl. split; [discriminate|reflexivity].
  - exact sample_ballot.
  - exists v, wl2. exact E.
Defined.

End Agreement.
