(* ===== verification/Ledger.v ===== *)
(** * The ledger: transactions checked and applied on a map of unspent outputs

    The abstract counterpart of what [CWorldLine::AddNewBlock] does with a view.
    A ledger is the map of unspent outputs at a block with the set of the ids
    of all transactions up to there.  [check_txs] is the loop over the
    transactions of a block on such a map, and [check_block] the decision about
    the block.

    An outpoint names an output only if the id of a transaction determines the
    transaction: [Naming] says this of a set of transactions, all those that
    occur.  Then a transaction whose inputs are unspent is new, so that its own
    outputs are: an output, once spent, never comes back.  For a mint transaction,
    which has no inputs, nothing of the kind holds; that it is new has to be
    assumed, and [mint_twice] shows what happens if it is not. *)

From S2P Require Import Prelude RWLock Prog Cache Stream Destination Transaction Block Base.
From S2P Require Import Base25519 SC25519 Crypto Template Profile BlockIndex Core UnspentDB BlockView Chain BlockFork.
From S2P Require Import TimeSeries CTSDB BlockDB BlockBase WorldLine.

Import CWalleveStream.

Module Ledger.

Import BlockView.

(** ** Specification *)

Section check.
Context (CryptoHash : list Z -> Z) (verify_detached : list Z -> list Z -> Z -> bool) `{IEdwards} (size_type : nat).
Context (pool_Exists : Z -> bool).

Definition link (tx : CTransaction) (c : CTxContxt) : LinkedTx := mkLinked (Tx.GetHash CryptoHash tx) tx c.

(** The context of a transaction in a map *)
Definition contxt_in (m : MapType) (tx : CTransaction) : MvErr + CTxContxt := WorldLine.GetTxContxt (fun o => m !! o) tx.

(** A transaction of the pool was verified when it came. *)
Definition verify_tx (nHeight : Z) (tx : CTransaction) (c : CTxContxt) : outcome MvErr :=
  if pool_Exists (Tx.GetHash CryptoHash tx) then Return MV_OK
  else Core.VerifyBlockTx CryptoHash verify_detached size_type tx c nHeight.

(** The transactions one after the other: the map, the contexts and the fees *)
Fixpoint check_txs (nHeight : Z) (vtx : list CTransaction) (m : MapType) (cs : list CTxContxt) (nTotalFee : Z)
    : outcome (MvErr + MapType * list CTxContxt * Z) :=
  match vtx with
  | [] => Return (inr (m, cs, nTotalFee))
  | tx :: vtx =>
      match contxt_in m tx with
      | inl err => Return (inl err)
      | inr c =>
          err ← verify_tx nHeight tx c;
          if bool_decide (err = MV_OK)
          then check_txs nHeight vtx (apply_tx m (link tx c)) (cs ++ [c]) (i64 (nTotalFee + tx_nTxFee tx))
          else Return (inl err)
      end
  end.

(** The outputs after the mint transaction, which a vacant block does not have *)
Definition after_mint (m : MapType) (block : CBlock) : MapType :=
  if Block.IsVacant block then m else apply_tx m (link (b_txMint block) null_contxt).

(** The decision about a block with reward [nReward] above a block of height
    [nHeight] with the unspent outputs [m]: an error, or the contexts and the
    outputs after the block *)
Definition check_block (nHeight nReward : Z) (m : MapType) (block : CBlock) : outcome (MvErr + MapType * list CTxContxt) :=
  r ← check_txs nHeight (b_vtx block) (after_mint m block) [] 0;
  match r with
  | inl err => Return (inl err)
  | inr (m, cs, nTotalFee) =>
      if tx_nAmount (b_txMint block) <=? i64 (nTotalFee + nReward) then Return (inr (m, cs))
      else Return (inl MV_ERR_BLOCK_TRANSACTIONS_INVALID)
  end.
End check.

(** ** Naming *)

Section ledger.
Context (CryptoHash : list Z -> Z) (universe : CTransaction -> Prop) (output_at : CTxOutPoint -> CTxOutput).

Notation txid := (Tx.GetHash CryptoHash).
Notation link := (link CryptoHash).

(** The transactions of the universe are values of their types, their ids
    determine them, and [output_at] gives their outputs; the change is what the
    outputs they spend leave. *)
Class Naming : Prop := {
  nam_valid : forall tx, universe tx -> valid Tx.tx_codec tx;
  nam_inj : forall tx1 tx2, universe tx1 -> universe tx2 -> txid tx1 = txid tx2 -> tx1 = tx2;
  nam_output : forall o, valid Tx.output_codec (output_at o);
  nam_out0 : forall tx, universe tx -> output_at (mkOutPoint (txid tx) 0) = Tx.output_of_tx tx;
  nam_out1 : forall tx c, universe tx -> WorldLine.GetTxContxt (fun o => Some (output_at o)) tx = inr c ->
    output_at (mkOutPoint (txid tx) 1) = Tx.output_change tx (ctx_destIn c) (Tx.contxt_GetValueIn c);
}.

(** The ledger [m] after the transactions [ids]: their outputs are those of
    [m] that are not spent, and what they spent is gone. *)
Record ledger_ok (m : MapType) (ids : gset Z) : Prop := {
  lg_named : well_named output_at m;
  lg_ids : forall o, is_Some (m !! o) -> op_hash o ∈ ids;
  lg_spent : forall tx o, universe tx -> txid tx ∈ ids -> o ∈ input_outs tx -> m !! o = None /\ op_hash o ∈ ids;
}.

(** A transaction that spends something *)
Definition spending (tx : CTransaction) : Prop := universe tx /\ tx_vInput tx <> [] /\ NoDup (input_outs tx).

Context `{!Naming}.

(** ** Contexts *)

Lemma contxt_output_of o : contxt_output (mkTxContxt (out_destTo o) []) (Tx.incontxt_of_output o) = o.
Proof. by destruct o. Qed.

(** What the loop collects, when no output it finds is null *)
Lemma contxt_loop_spec retrieve vin ctx c :
  (forall o x, retrieve o = Some x -> Tx.output_IsNull x = false) ->
  WorldLine.contxt_loop retrieve vin ctx = inr c ->
  (Destination.IsNull (ctx_destIn ctx) = false -> ctx_destIn c = ctx_destIn ctx) /\
  exists cs, ctx_vin c = ctx_vin ctx ++ cs /\
    Forall2 (fun o i => retrieve o = Some (contxt_output c i)) (map prevout vin) cs.
Proof.
  intros Hnull. revert ctx. induction vin as [|i vin IH]; intros ctx; cbn [WorldLine.contxt_loop map].
  { intros [= ->]. split; [done|]. exists []. by rewrite app_nil_r. }
  destruct (retrieve (prevout i)) as [x|] eqn:Ex; [|done].
  assert (Hx : Destination.IsNull (out_destTo x) = false).
  { apply Hnull in Ex. unfold Tx.output_IsNull in Ex. by apply orb_false_iff in Ex as [? _]. }
  assert (Hstep : forall d, d = out_destTo x ->
    WorldLine.contxt_loop retrieve vin (mkTxContxt d (ctx_vin ctx ++ [Tx.incontxt_of_output x])) = inr c ->
    ctx_destIn c = out_destTo x /\ exists cs, ctx_vin c = ctx_vin ctx ++ cs /\
      Forall2 (fun o i => retrieve o = Some (contxt_output c i)) (prevout i :: map prevout vin) cs).
  { intros d -> [Hd (cs & Ec & Hf)]%IH. specialize (Hd Hx). cbn in Hd. split; [done|].
    exists (Tx.incontxt_of_output x :: cs). cbn in Ec. rewrite <- app_assoc in Ec. split; [done|].
    apply Forall2_cons. split; [|done]. rewrite Ex. f_equal. unfold contxt_output. rewrite Hd. by destruct x. }
  destruct (Destination.IsNull (ctx_destIn ctx)) eqn:En.
  - intros [Hd Hcs]%Hstep; [|done]. by split.
  - case_bool_decide as Ed; [|done]. intros [Hd Hcs]%Hstep; [|done]. split; [by intros _; rewrite Hd|done].
Qed.

(** Two ways of finding outputs that agree where the first finds one *)
Lemma contxt_loop_mono f g vin ctx c :
  (forall o x, f o = Some x -> g o = Some x) ->
  WorldLine.contxt_loop f vin ctx = inr c -> WorldLine.contxt_loop g vin ctx = inr c.
Proof.
  intros Hfg. revert ctx. induction vin as [|i vin IH]; intros ctx; cbn; [done|].
  destruct (f (prevout i)) as [x|] eqn:Ex; [|done]. rewrite (Hfg _ _ Ex). repeat case_match; try done; apply IH.
Qed.

Lemma contxt_loop_ext f g vin ctx :
  (forall o, f o = g o) -> WorldLine.contxt_loop f vin ctx = WorldLine.contxt_loop g vin ctx.
Proof.
  intros Hfg. revert ctx. induction vin as [|i vin IH]; intros ctx; cbn; [done|]. rewrite Hfg.
  repeat case_match; try done; apply IH.
Qed.

Section ledger_tx.
Context (m : MapType) (ids : gset Z) (Hm : ledger_ok m ids).

Lemma contxt_in_spec tx c :
  contxt_in m tx = inr c -> Forall2 (fun o i => m !! o = Some (contxt_output c i)) (input_outs tx) (ctx_vin c).
Proof.
  intros E. apply contxt_loop_spec in E as [_ (cs & -> & Hf)]; [done|].
  intros o x Hx. by apply (lg_named _ _ Hm) in Hx as [_ ?].
Qed.

Lemma contxt_in_named tx c : universe tx -> contxt_in m tx = inr c -> named output_at (link tx c).
Proof.
  intros Hu E. pose proof (contxt_in_spec _ _ E) as Hf.
  assert (Hn : forall o x, m !! o = Some x -> x = output_at o) by (intros o x Hx; by apply (lg_named _ _ Hm) in Hx as [-> _]).
  split; cbn.
  - by apply nam_out0.
  - apply nam_out1; [done|]. apply (contxt_loop_mono (fun o => m !! o)); [|done]. intros o x Hx. by rewrite (Hn _ _ Hx).
  - eapply Forall2_impl; [exact Hf|]. intros o i Ho. symmetry. by apply Hn.
Qed.

(** A transaction whose inputs are there has not been applied before. *)
Lemma contxt_in_new tx c : spending tx -> contxt_in m tx = inr c -> txid tx ∉ ids.
Proof.
  intros (Hu & Hne & _) E Hid. apply contxt_in_spec in E. destruct (tx_vInput tx) as [|i vin] eqn:Ei; [done|].
  unfold input_outs in E. rewrite Ei in E. inversion E as [|o x os xs Ho _]; subst.
  destruct (lg_spent _ _ Hm tx (prevout i) Hu Hid) as [Hnone _]; [unfold input_outs; rewrite Ei; by left|]. congruence.
Qed.

Lemma new_outputs id n : id ∉ ids -> m !! mkOutPoint id n = None.
Proof. intros Hid. destruct (m !! _) as [x|] eqn:E; [|done]. destruct Hid. apply (lg_ids _ _ Hm (mkOutPoint id n)). by rewrite E. Qed.

Lemma spending_applies tx c : spending tx -> contxt_in m tx = inr c -> applies m (link tx c).
Proof.
  intros Hs E. pose proof (contxt_in_new _ _ Hs E) as Hid. split; cbn.
  - apply Hs.
  - by apply contxt_in_spec.
  - by apply new_outputs.
  - by apply new_outputs.
Qed.

(** Applying a new transaction to the ledger *)
Lemma ledger_apply tx c :
  universe tx -> named output_at (link tx c) -> applies m (link tx c) -> txid tx ∉ ids ->
  ledger_ok (apply_tx m (link tx c)) ({[txid tx]} ∪ ids).
Proof.
  intros Hu Hn Ha Hid. split.
  - apply apply_named; [done|apply Hm].
  - intros o. unfold apply_tx. rewrite !lookup_add_out, lookup_spends. cbn [link lt_id].
    case_decide as E1; [subst o; set_solver|]. case_decide as E0; [subst o; set_solver|].
    case_decide; [by intros []|]. intros Ho. apply elem_of_union_r. by apply (lg_ids _ _ Hm).
  - intros tx' o Hu' Hid' Ho. destruct (decide (txid tx' = txid tx)) as [E|E].
    + apply nam_inj in E as ->; [|done..]. assert (Hs : is_Some (m !! o)) by (by eapply ap_present).
      pose proof (lg_ids _ _ Hm _ Hs) as Hop. split; [|set_solver]. unfold apply_tx. cbn [link lt_id lt_tx].
      rewrite !lookup_add_out, !decide_False, lookup_spends, decide_True; [done|done|..]; intros <-; by cbn in Hop.
    + destruct (lg_spent _ _ Hm tx' o Hu') as [Hnone Hop]; [set_solver|done|]. split; [|set_solver].
      unfold apply_tx. cbn [link lt_id lt_tx].
      rewrite !lookup_add_out, !decide_False, lookup_spends by (intros <-; by cbn in Hop). by case_decide.
Qed.

Lemma mint_named tx : universe tx -> tx_vInput tx = [] -> named output_at (link tx null_contxt).
Proof.
  intros Hu Hi. split; cbn; [by apply nam_out0| |unfold input_outs; rewrite Hi; constructor].
  apply (nam_out1 tx null_contxt); [done|]. unfold WorldLine.GetTxContxt. by rewrite Hi.
Qed.

Lemma mint_applies tx : tx_vInput tx = [] -> txid tx ∉ ids -> applies m (link tx null_contxt).
Proof.
  intros Hi Hid. split; cbn; unfold input_outs; rewrite ?Hi; [constructor|constructor|by apply new_outputs..].
Qed.

(** Applied a second time, a mint transaction changes nothing: the block that
    repeats it creates no money, although its index counts the amount again. *)
Lemma mint_twice m' tx c :
  tx_vInput tx = [] -> apply_tx (apply_tx m' (link tx c)) (link tx c) = apply_tx m' (link tx c).
Proof.
  intros Hi. unfold apply_tx, link, input_outs. cbn. rewrite Hi. cbn. unfold add_out.
  apply map_eq. intros o. repeat case_match; rewrite ?lookup_insert_Some, ?lookup_insert; repeat case_decide; done.
Qed.

(** The empty transaction of a vacant block names only null outputs. *)
Lemma null_applies tx : universe tx -> Tx.IsNull tx = true -> applies m (link tx null_contxt).
Proof.
  intros Hu Hn. unfold Tx.IsNull in Hn. apply andb_true_iff in Hn as [Hi Hd].
  assert (Hin : tx_vInput tx = []) by (by destruct (tx_vInput tx)).
  assert (Hnone : forall n, Tx.output_IsNull (output_at (mkOutPoint (txid tx) n)) = true -> m !! mkOutPoint (txid tx) n = None).
  { intros n Hnull. destruct (m !! _) as [x|] eqn:E; [|done]. apply (lg_named _ _ Hm) in E as [-> E]. congruence. }
  split; cbn; unfold input_outs; rewrite ?Hin; [constructor|constructor|..]; apply Hnone.
  - rewrite nam_out0 by done. unfold Tx.output_IsNull. cbn. by rewrite Hd.
  - rewrite (nam_out1 tx null_contxt); [done|done|]. unfold WorldLine.GetTxContxt. by rewrite Hin.
Qed.
End ledger_tx.

(** *** The size of contexts *)

Lemma foldr_size_const {A : Type} (c : codec A) n l :
  (forall a, ser_size c a = n) -> foldr (fun a s => ser_size c a + s) 0 l = n * Z.of_nat (length l).
Proof. intros Hc. induction l as [|a l IH]; cbn [foldr length]; [lia|]. rewrite IH, Hc. lia. Qed.

Lemma CVarInt_size_bounds n : 1 <= CVarInt_size n <= 9.
Proof. unfold CVarInt_size. repeat case_match; lia. Qed.

(** A context is not larger than its transaction. *)
Lemma contxt_size tx c :
  length (ctx_vin c) = length (tx_vInput tx) -> 0 <= ser_size Tx.contxt_codec c <= ser_size Tx.tx_codec tx.
Proof.
  intros Hl. cbn. rewrite Hl, (foldr_size_const Tx.incontxt_codec 16), (foldr_size_const Tx.txin_codec 33) by done.
  rewrite Hl. pose proof (CVarInt_size_bounds (Z.of_nat (length (tx_vInput tx)))).
  pose proof (CVarInt_size_bounds (Z.of_nat (length (tx_vchData tx)))). pose proof (CVarInt_size_bounds (Z.of_nat (length (tx_vchSig tx)))).
  lia.
Qed.

(** A context that can be stored with its transaction *)
Definition contxt_fits (tx : CTransaction) (c : CTxContxt) : Prop :=
  valid Tx.contxt_codec c /\ length (ctx_vin c) = length (tx_vInput tx).

Lemma contxt_in_valid m ids tx c : ledger_ok m ids -> spending tx -> contxt_in m tx = inr c -> contxt_fits tx c.
Proof.
  intros Hm Hs E. pose proof (contxt_in_spec m ids Hm _ _ E) as Hf. destruct Hs as (Hu & Hne & _).
  assert (Hl : length (ctx_vin c) = length (tx_vInput tx)).
  { apply Forall2_length in Hf. unfold input_outs in Hf. by rewrite length_map in Hf. }
  assert (Ho : Forall (fun i => valid Tx.output_codec (contxt_output c i)) (ctx_vin c)).
  { apply Forall_forall. intros i [n Hi]%list_elem_of_lookup. destruct (Forall2_lookup_r _ _ _ _ _ Hf Hi) as (o & _ & Ho).
    apply (lg_named _ _ Hm) in Ho as [-> _]. apply nam_output. }
  split; [|done]. split; [|by destruct c]. split.
  - destruct (ctx_vin c) as [|i vin] eqn:Ei; [destruct (tx_vInput tx); cbn in Hl; [done|lia]|].
    apply Forall_cons in Ho as [[Ho _] _]. apply Ho.
  - split.
    + cbn. rewrite Hl. destruct (nam_valid _ Hu) as [[[[[[[_ Hv] _] _] _] _] _] _]. apply Hv.
    + eapply Forall_impl; [exact Ho|]. intros i [[[[_ ?] ?] ?] _]. split; [|by destruct i]. done.
Qed.

(** ** Blocks *)

Definition block_ids (b : CBlock) : gset Z :=
  (if Tx.IsNull (b_txMint b) then ∅ else {[txid (b_txMint b)]}) ∪ list_to_set (map txid (b_vtx b)).

(** [m'] and [ids'] are the ledger after the block [b] on [m] and [ids]. *)
Record extends (m : MapType) (ids : gset Z) (b : CBlockEx) (m' : MapType) (ids' : gset Z) : Prop := {
  ex_utxo : m' = apply_txs m (linked_txs CryptoHash b);
  ex_apply : all_apply m (linked_txs CryptoHash b);
  ex_named : Forall (named output_at) (linked_txs CryptoHash b);
  ex_ids : ids' = block_ids (bex_block b) ∪ ids;
}.

(** What validation leaves of a block: its transactions spend, and its mint
    transaction has no inputs; that of a vacant block is null *)
Record block_ok (b : CBlock) : Prop := {
  bo_mint : universe (b_txMint b);
  bo_inputs : tx_vInput (b_txMint b) = [];
  bo_vacant : Tx.IsNull (b_txMint b) = Block.IsVacant b;
  bo_vtx : Forall spending (b_vtx b);
}.

Section check_spec.
Context (verify_detached : list Z -> list Z -> Z -> bool) `{IEdwards} (size_type : nat) (pool_Exists : Z -> bool).

Notation check_txs := (check_txs CryptoHash verify_detached size_type pool_Exists).
Notation check_block := (check_block CryptoHash verify_detached size_type pool_Exists).

(** The decision is always taken. *)
Lemma check_txs_returns nHeight vtx m cs nTotalFee : exists r, check_txs nHeight vtx m cs nTotalFee = Return r.
Proof.
  revert m cs nTotalFee. induction vtx as [|tx vtx IH]; intros m cs nTotalFee; cbn [Ledger.check_txs]; [by eexists|].
  destruct (contxt_in m tx) as [err|c]; [by eexists|]. unfold verify_tx. destruct (pool_Exists _); cbn [mbind outcome_bind].
  - rewrite bool_decide_true by done. apply IH.
  - destruct (Core.VerifyBlockTx_returns CryptoHash verify_detached size_type tx c nHeight) as [err ->]. cbn [mbind outcome_bind].
    case_bool_decide; [apply IH|by eexists].
Qed.

Lemma check_block_returns nHeight nReward m block : exists r, check_block nHeight nReward m block = Return r.
Proof.
  unfold Ledger.check_block. edestruct check_txs_returns as [[err|[[m' cs] nFee]] ->]; cbn [mbind outcome_bind]; [by eexists|].
  case_match; by eexists.
Qed.

(** What the loop over the transactions accepts can be applied. *)
Lemma check_txs_spec nHeight vtx m ids cs nTotalFee m' cs' nTotalFee' :
  ledger_ok m ids -> Forall spending vtx -> check_txs nHeight vtx m cs nTotalFee = Return (inr (m', cs', nTotalFee')) ->
  exists new, cs' = cs ++ new /\ length new = length vtx /\
    let l := zip_with link vtx new in
    m' = apply_txs m l /\ all_apply m l /\ Forall (named output_at) l /\ ledger_ok m' (list_to_set (map txid vtx) ∪ ids) /\
    Forall2 contxt_fits vtx new.
Proof.
  intros Hm Hv. revert m ids cs nTotalFee Hm. induction Hv as [|tx vtx Htx Hv IH]; intros m ids cs nTotalFee Hm; cbn [Ledger.check_txs].
  { intros [= <- <- <-]. exists []. rewrite app_nil_r. cbn. rewrite (left_id_L ∅ _). split_and!; try done; constructor. }
  destruct (contxt_in m tx) as [|c] eqn:Ec; [done|]. destruct (verify_tx _ _ _ _ _ _ _) as [err| |]; cbn [mbind outcome_bind]; [|done..].
  case_bool_decide; [|done]. intros E.
  pose proof (contxt_in_new m ids Hm _ _ Htx Ec) as Hid. pose proof (spending_applies m ids Hm _ _ Htx Ec) as Ha.
  pose proof (contxt_in_named m ids Hm _ _ (proj1 Htx) Ec) as Hn.
  pose proof (ledger_apply m ids Hm _ _ (proj1 Htx) Hn Ha Hid) as Hm'.
  destruct (IH _ _ _ _ Hm' E) as (new & -> & Hl & Em & Hal & Hnl & Hok & Hfit).
  exists (c :: new). rewrite <- app_assoc. cbn [length zip_with map list_to_set]. split; [done|]. split; [by rewrite Hl|].
  split; [done|]. split; [by split|]. split; [by constructor|].
  assert (list_to_set (map txid vtx) ∪ ({[txid tx]} ∪ ids) = {[txid tx]} ∪ list_to_set (map txid vtx) ∪ ids) as <- by set_solver.
  split; [done|]. constructor; [|done]. by apply (contxt_in_valid m ids).
Qed.

(** What is accepted extends the ledger. *)
Lemma check_block_spec nHeight nReward m ids block m' cs :
  ledger_ok m ids -> block_ok block -> (Block.IsVacant block = false -> txid (b_txMint block) ∉ ids) ->
  check_block nHeight nReward m block = Return (inr (m', cs)) ->
  Forall2 contxt_fits (b_vtx block) cs /\ extends m ids (mkBlockEx block cs) m' (block_ids block ∪ ids) /\
  ledger_ok m' (block_ids block ∪ ids).
Proof.
  intros Hm [Hu Hi Hvac Hv] Hnew. unfold Ledger.check_block.
  set (m1 := after_mint CryptoHash m block).
  set (ids1 := (if Tx.IsNull (b_txMint block) then ∅ else {[txid (b_txMint block)]}) ∪ ids).
  pose proof (mint_named (b_txMint block) Hu Hi) as Hn.
  assert (H1 : ledger_ok m1 ids1 /\ applies m (link (b_txMint block) null_contxt) /\ m1 = apply_tx m (link (b_txMint block) null_contxt)).
  { subst m1 ids1. unfold after_mint. rewrite Hvac. destruct (Block.IsVacant block) eqn:Ev.
    - rewrite (left_id_L ∅ _). split; [done|]. split; [by apply (null_applies m ids)|].
      symmetry. by apply (apply_null_mint CryptoHash m (mkBlockEx block [])).
    - pose proof (mint_applies m ids Hm _ Hi (Hnew eq_refl)) as Ha. split; [|done]. apply ledger_apply; auto. }
  destruct H1 as (Hm1 & Ha1 & E1). destruct (check_txs nHeight _ _ _ _) as [[err|[[m2 cs2] nFee]]| |] eqn:Ec; cbn [mbind outcome_bind]; try done.
  destruct (_ <=? _); [|done]. intros [= <- <-].
  destruct (check_txs_spec _ _ _ _ _ _ _ _ _ Hm1 Hv Ec) as (new & -> & Hl & Em & Hal & Hnl & Hok & Hfit). cbn [app] in *.
  split; [done|]. unfold block_ids. assert (Eids : list_to_set (map txid (b_vtx block)) ∪ ids1 =
    (if Tx.IsNull (b_txMint block) then ∅ else {[txid (b_txMint block)]}) ∪ list_to_set (map txid (b_vtx block)) ∪ ids).
  { subst ids1. set_solver. }
  rewrite <- Eids. split; [|done]. split; cbn [bex_block].
  - rewrite Em, E1. done.
  - split; [done|]. change (all_apply (apply_tx m (link (b_txMint block) null_contxt)) (zip_with link (b_vtx block) new)).
    by rewrite <- E1.
  - constructor; [done|done].
  - unfold block_ids. by rewrite <- Eids.
Qed.
End check_spec.

(** A validated block *)
Lemma validated_block_ok verify_detached `{IEdwards} size_type base64dec nNetTime hashGenesisBlock block :
  Core.ValidateBlock CryptoHash verify_detached size_type base64dec nNetTime hashGenesisBlock block = Return MV_OK ->
  Forall universe (b_txMint block :: b_vtx block) -> block_ok block.
Proof.
  intros Hv%(proj2 (Core.ValidateBlock_rules CryptoHash verify_detached size_type base64dec nNetTime hashGenesisBlock block)) Hu.
  apply Forall_cons in Hu as [Hm Hu]. change (b_nType block =? Block.BLOCK_VACANT) with (Block.IsVacant block) in Hv.
  destruct (Block.IsVacant block) eqn:Ev.
  - destruct Hv as (_ & _ & E & E' & _). rewrite E in Hm. split; rewrite ?E, ?E', ?Ev; done.
  - destruct (Core.block_mint _ _ _ _ _ _ _ Hv) as [Ht Hmint]. pose proof (proj1 (Core.valid_mint_inputs _ _ Hmint) Ht) as Hi.
    split; [done|done| |].
    + unfold Tx.IsNull. rewrite Hi, Ev. cbn. apply (Core.valid_sendTo _ _ Hmint).
    + pose proof (Core.block_vtx _ _ _ _ _ _ _ Hv) as Hvtx. rewrite Forall_forall in Hvtx, Hu. apply Forall_forall. intros tx Htx.
      destruct (Hvtx tx Htx) as [Hnm Htv]. split; [by apply Hu|]. split; [|apply (Core.valid_distinct _ _ Htv)].
      intros E. apply (Core.valid_mint_inputs _ _ Htv) in E. congruence.
Qed.

(** The stored form of a block within the limit of the protocol; a vacant block
    is small. *)
Lemma blockex_fits block cs :
  valid Block.block_codec block -> ser_size Block.block_codec block <= MAX_BLOCK_SIZE -> Forall2 contxt_fits (b_vtx block) cs ->
  valid Block.blockex_codec (mkBlockEx block cs) /\
  Z.of_nat (length (save Block.blockex_codec (mkBlockEx block cs))) < 2 ^ 22.
Proof.
  intros Hv Hs Hf.
  assert (Hve : valid Block.blockex_codec (mkBlockEx block cs)).
  { split; [|done]. split; [done|]. split.
    - cbn. rewrite <- (Forall2_length _ _ _ Hf). destruct Hv as [[[_ [Hl _]] _] _]. done.
    - cbn. clear -Hf. induction Hf as [|tx c txs cs [? _] _ IH]; by constructor. }
  split; [done|]. rewrite <- (size_save (c := Block.blockex_codec)) by done.
  assert (Hc : foldr (fun c s => ser_size Tx.contxt_codec c + s) 0 cs <= foldr (fun tx s => ser_size Tx.tx_codec tx + s) 0 (b_vtx block)).
  { clear -Hf. induction Hf as [|tx c txs cs [_ Hl] _ IH]; cbn [foldr]; [done|]. pose proof (contxt_size _ _ Hl). lia. }
  assert (Hb : foldr (fun tx s => ser_size Tx.tx_codec tx + s) 0 (b_vtx block) <= ser_size Block.block_codec block).
  { assert (0 <= ser_size Tx.tx_codec (b_txMint block)) by (rewrite (size_save (c := Tx.tx_codec)) by apply Hv; lia).
    cbn [ser_size Block.block_codec object_codec pair_codec fst snd vector_codec string_codec CVarInt].
    assert (0 <= ser_size Block.header_codec (Block.header block)) by (rewrite (size_save (c := Block.header_codec)) by apply Hv; lia).
    pose proof (CVarInt_size_bounds (Z.of_nat (length (b_vtx block)))). pose proof (CVarInt_size_bounds (Z.of_nat (length (b_vchSig block)))).
    lia. }
  cbn [ser_size Block.blockex_codec object_codec pair_codec fst snd vector_codec bex_block bex_vTxContxt].
  change (ser_size CVarInt (Z.of_nat (length cs))) with (CVarInt_size (Z.of_nat (length cs))).
  pose proof (CVarInt_size_bounds (Z.of_nat (length cs))). unfold MAX_BLOCK_SIZE in Hs. lia.
Qed.

Lemma validated_size verify_detached `{IEdwards} size_type base64dec nNetTime hashGenesisBlock block :
  Core.ValidateBlock CryptoHash verify_detached size_type base64dec nNetTime hashGenesisBlock block = Return MV_OK ->
  ser_size Block.block_codec block <= MAX_BLOCK_SIZE.
Proof.
  intros Hv%(proj2 (Core.ValidateBlock_rules CryptoHash verify_detached size_type base64dec nNetTime hashGenesisBlock block)).
  destruct (b_nType block =? Block.BLOCK_VACANT).
  - destruct Hv as (_ & _ & E1 & E2 & E3 & E4). unfold Block.block_codec, Block.header. cbn. rewrite E1, E2, E3, E4. by vm_compute.
  - apply (Core.block_size _ _ _ _ _ _ _ Hv).
Qed.

End ledger.

End Ledger.
