(* ===== verification/BaseInv.v ===== *)
(** * The invariant of the block base

    Every block of the index has a ghost: the block as it was accepted, the
    unspent outputs after it and the ids of all transactions up to it.
    [base_inv] ties the state of the block base to the ghosts: the index is a
    tree whose blocks are in the files, a block that is not an origin extends
    the ledger of its predecessor, the database of every fork holds the unspent
    outputs of the fork's last block, and the next pointers lead along its
    chain.  [best_ok] adds that no block of a fork exceeds the last one in trust,
    and [open_ok] that the fork of every block is open; while a new fork is set up
    its origin is in the index and its databases are not.

    Reading changes only caches ([same_base]) and keeps the invariant; the
    lemmas below say what each read returns. *)

From S2P Require Import Prelude RWLock Prog Cache Stream Destination Transaction Block Base.
From S2P Require Import Base25519 SC25519 Crypto Template Profile BlockIndex Core UnspentDB BlockView Chain BlockFork BlockTree.
From S2P Require Import TimeSeries CTSDB BlockStore BlockDB BlockBase WorldLine Ledger.

Import CWalleveStream.

Record Ghost : Type := mkGhost { gh_block : CBlockEx; gh_utxo : MapType; gh_ids : gset Z }.

Notation Ghosts := (gmap Z Ghost).

Module BaseInv.

Import BlockStore.

(** Only caches differ. *)
Record same_base (st st' : CBlockBase) : Prop := {
  sb_index : cb_mapIndex st' = cb_mapIndex st;
  sb_fork : cb_mapFork st' = cb_mapFork st;
  sb_files : tc_base (cb_tsBlock st') = tc_base (cb_tsBlock st);
  sb_db : db_dbFork (cb_dbBlock st') = db_dbFork (cb_dbBlock st) /\
    db_dbBlockIndex (cb_dbBlock st') = db_dbBlockIndex (cb_dbBlock st) /\
    db_dbTxIndex (cb_dbBlock st') = db_dbTxIndex (cb_dbBlock st) /\
    db_dbUnspent (cb_dbBlock st') = db_dbUnspent (cb_dbBlock st) /\
    dd_kv (db_dbDelegate (cb_dbBlock st')) = dd_kv (db_dbDelegate (cb_dbBlock st));
}.

#[export] Instance same_base_preorder : PreOrder same_base.
Proof.
  split; [by intros st; split|]. intros s1 s2 s3 [] []. split; [congruence..|]. naive_solver congruence.
Qed.

Section inv.
Context (CryptoHash : list Z -> Z) (universe : CTransaction -> Prop) (output_at : CTxOutPoint -> CTxOutput).
Context (C : codec (list (Z * CTxIndex))) (kd : Z).

Notation ledger_ok := (Ledger.ledger_ok CryptoHash universe output_at).

Definition ghost_extends (gp g : Ghost) : Prop :=
  Ledger.extends CryptoHash output_at (gh_utxo gp) (gh_ids gp) (gh_block g) (gh_utxo g) (gh_ids g).

(** The unspent outputs of a fork *)
Definition fork_content (st : CBlockBase) (f : Z) : option MapType := UnspentDB.contents (db_dbUnspent (cb_dbBlock st)) !! f.

(** The fork at its last block [last], whose index is [i] and whose ghost is [g] *)
Record fork_at (G : Ghosts) (st : CBlockBase) (f last : Z) (i : CBlockIndex) (g : Ghost) : Prop := {
  fa_index : cb_mapIndex st !! last = Some i;
  fa_origin : bi_pOrigin i = f;
  fa_ghost : G !! last = Some g;
  fa_content : fork_content st f = Some (gh_utxo g);
  fa_active : fk_active (db_dbFork (cb_dbBlock st)) !! f = Some last;
  fa_next : exists l, BlockFork.fork_chain (cb_mapIndex st) f last l /\ BlockFork.next_is (cb_mapIndex st) f (BlockFork.next_of l);
}.

(** No block of the fork exceeds [last] in trust. *)
Definition best_at (mapIndex : Indexes) (f last : Z) : Prop :=
  forall i h j, mapIndex !! last = Some i -> mapIndex !! h = Some j -> bi_pOrigin j = f -> bi_nChainTrust j <= bi_nChainTrust i.

Definition best_ok (st : CBlockBase) : Prop :=
  forall f F, cb_mapFork st !! f = Some F -> best_at (cb_mapIndex st) f (bf_pIndexLast F).

(** Every block belongs to a fork that is open. *)
Definition open_ok (st : CBlockBase) : Prop :=
  forall h i, cb_mapIndex st !! h = Some i -> is_Some (cb_mapFork st !! bi_pOrigin i).

(** An index and the block it describes *)
Record index_of (ty : Objects) (i : CBlockIndex) (b : CBlockEx) : Prop := {
  io_stored : block_at ty (BlockBase.index_pos i) b;
  io_type : bi_nType i = b_nType (bex_block b);
  io_time : bi_nTimeStamp i = b_nTimeStamp (bex_block b);
}.

(** The enrolments a context lists are transactions in the files. *)
Definition enroll_ok (ty : Objects) (c : CDelegateContext) : Prop :=
  forall a m dest pos, dc_mapEnrollTx c !! a = Some m -> m !! dest = Some pos -> exists tx, object_at Tx.tx_codec ty pos tx.

Record base_inv (k : Z) (ty : Objects) (G : Ghosts) (st : CBlockBase) : Prop := {
  bs_tree : BlockTree.tree_ok (cb_mapIndex st);
  bs_null : cb_mapIndex st !! 0 = None;
  bs_ghost : forall h i, cb_mapIndex st !! h = Some i ->
    exists g, G !! h = Some g /\ index_of ty i (gh_block g) /\ ledger_ok (gh_utxo g) (gh_ids g);
  bs_extends : forall h i q g gp, cb_mapIndex st !! h = Some i -> BlockIndex.IsOrigin i = false -> bi_pPrev i = Some q ->
    G !! h = Some g -> G !! q = Some gp -> ghost_extends gp g;
  bs_stored : TimeSeries.stored (cb_tsBlock st) ty;
  bs_files : TimeSeries.files_ok k (tc_base (cb_tsBlock st));
  bs_cap : 2 ^ 22 <= TimeSeries.capacity (cb_tsBlock st);
  bs_stores : BlockDB.stores_ok C kd (cb_dbBlock st);
  bs_fork : forall f F, cb_mapFork st !! f = Some F ->
    bf_pIndexOrigin F = f /\ exists i g, fork_at G st f (bf_pIndexLast F) i g;
  bs_forks : dom (cb_mapFork st) = dom (db_dbUnspent (cb_dbBlock st));
  bs_outline : db_dbBlockIndex (cb_dbBlock st) = BlockOutline.of_index <$> cb_mapIndex st;
  bs_vote : forall h i, cb_mapIndex st !! h = Some i -> BlockIndex.IsPrimary i = true -> is_Some (dd_kv (db_dbDelegate (cb_dbBlock st)) !! h);
  bs_enroll : forall h c, dd_kv (db_dbDelegate (cb_dbBlock st)) !! h = Some c -> enroll_ok ty c;
}.

(** What a program that only reads does to the state *)
Definition reading (k : Z) (ty : Objects) (G : Ghosts) (st st' : CBlockBase) : Prop :=
  base_inv k ty G st -> base_inv k ty G st' /\ same_base st st'.

#[export] Instance reading_preorder k ty G : PreOrder (reading k ty G).
Proof.
  split; [by intros st H|]. intros s1 s2 s3 H1 H2 H. destruct (H1 H) as [Hi2 Hs2]. destruct (H2 Hi2) as [Hi3 Hs3].
  split; [done|by etrans].
Qed.

(** Changing caches *)
Lemma same_base_inv k ty G st st' :
  same_base st st' -> TimeSeries.stored (cb_tsBlock st') ty -> TimeSeries.capacity (cb_tsBlock st') = TimeSeries.capacity (cb_tsBlock st) ->
  DelegateDB.db_ok (db_dbDelegate (cb_dbBlock st')) -> base_inv k ty G st -> base_inv k ty G st'.
Proof.
  intros [Ei Ef Et (E1 & E2 & E3 & E4 & E5)] Hs Hc Hd [].
  split; rewrite ?Ei, ?Ef, ?Et, ?E2, ?E4, ?E5, ?Hc; try done.
  - destruct bs_stores0. split; [by rewrite E3|by rewrite E4|done|by rewrite E3, E4].
  - intros f F HF. destruct (bs_fork0 f F HF) as (Eo & i & g & []). split; [done|]. exists i, g.
    split; unfold fork_content; rewrite ?Ei, ?E4, ?E1; done.
Qed.

Lemma same_base_best st st' : same_base st st' -> best_ok st -> best_ok st'.
Proof. intros [Ei Ef _ _] Hb. unfold best_ok. rewrite Ei, Ef. exact Hb. Qed.

Lemma same_base_open st st' : same_base st st' -> open_ok st -> open_ok st'.
Proof. intros [Ei Ef _ _] Ho. unfold open_ok. rewrite Ei, Ef. exact Ho. Qed.

Section reads.
Context (k : Z) (ty : Objects) (G : Ghosts).

Notation inv := (base_inv k ty G).
Notation reading := (reading k ty G).

Lemma set_ts_inv st ts' :
  inv st -> TimeSeries.stored ts' ty -> tc_base ts' = tc_base (cb_tsBlock st) ->
  TimeSeries.capacity ts' = TimeSeries.capacity (cb_tsBlock st) ->
  inv (BlockBase.set_tsBlock st ts') /\ same_base st (BlockBase.set_tsBlock st ts').
Proof.
  intros Hi Hs Hb Hc. assert (Hsb : same_base st (BlockBase.set_tsBlock st ts')) by (by split).
  split; [|done]. apply (same_base_inv k ty G st); [done|done|done| |done]. apply Hi.
Qed.

Lemma set_delegate_inv st d' :
  inv st -> DelegateDB.db_ok d' -> dd_kv d' = dd_kv (db_dbDelegate (cb_dbBlock st)) ->
  let st' := BlockBase.set_dbBlock st (BlockDB.set_dbDelegate (cb_dbBlock st) d') in inv st' /\ same_base st st'.
Proof.
  intros Hi Hd Ek st'. assert (Hsb : same_base st st') by (by split). split; [|done].
  apply (same_base_inv k ty G st); [done|apply Hi|done|done|done].
Qed.

(** Reading an object of the files *)
Lemma ts_read_object {T : Type} (Ct : codec T) `{!CodecOk Ct} pos t left fWriteCache st :
  inv st -> object_at Ct ty pos t ->
  exists st', BlockBase.ts_read Ct pos left fWriteCache st = Return (st', inr t) /\ inv st' /\ same_base st st'.
Proof.
  intros Hi Ho. destruct (read_object _ _ (bs_stored _ _ _ _ Hi) (bs_cap _ _ _ _ Hi) Ct pos t left fWriteCache Ho)
    as (ts' & E & Hs & Hb & Hc).
  exists (BlockBase.set_tsBlock st ts'). unfold BlockBase.ts_read. rewrite E. split; [done|]. by apply set_ts_inv.
Qed.

Lemma index_stored st h i g :
  inv st -> cb_mapIndex st !! h = Some i -> G !! h = Some g -> index_of ty i (gh_block g) /\ ledger_ok (gh_utxo g) (gh_ids g).
Proof. intros Hi Hh Hg. destruct (bs_ghost _ _ _ _ Hi h i Hh) as (g' & Hg' & H). by simplify_eq. Qed.

(** Reading the block of an index *)
Lemma RetrieveBlockEx_spec st h i g :
  inv st -> cb_mapIndex st !! h = Some i -> G !! h = Some g ->
  exists st', BlockBase.RetrieveBlockEx i st = Return (st', inr (gh_block g)) /\ inv st' /\ same_base st st'.
Proof.
  intros Hi Hh Hg. destruct (index_stored st h i g Hi Hh Hg) as [[[Ho _ _] _ _] _].
  by apply (ts_read_object Block.blockex_codec).
Qed.

Lemma RetrieveBlock_spec st h i g :
  inv st -> cb_mapIndex st !! h = Some i -> G !! h = Some g ->
  exists st', BlockBase.RetrieveBlock i st = Return (st', inr (bex_block (gh_block g))) /\ inv st' /\ same_base st st'.
Proof.
  intros Hi Hh Hg. destruct (index_stored st h i g Hi Hh Hg) as [[Ho _ _] _].
  destruct (read_block_only _ _ (bs_stored _ _ _ _ Hi) (BlockBase.index_pos i) (gh_block g) Block.SetNull Ho) as (ts' & E & Hs & Hb & Hc).
  exists (BlockBase.set_tsBlock st ts'). unfold BlockBase.RetrieveBlock, BlockBase.ts_read. rewrite E. split; [done|].
  by apply set_ts_inv.
Qed.

End reads.
End inv.

#[global] Arguments bs_tree {CryptoHash universe output_at C kd k ty G st} _.
#[global] Arguments bs_null {CryptoHash universe output_at C kd k ty G st} _.
#[global] Arguments bs_ghost {CryptoHash universe output_at C kd k ty G st} _.
#[global] Arguments bs_extends {CryptoHash universe output_at C kd k ty G st} _.
#[global] Arguments bs_stored {CryptoHash universe output_at C kd k ty G st} _.
#[global] Arguments bs_files {CryptoHash universe output_at C kd k ty G st} _.
#[global] Arguments bs_cap {CryptoHash universe output_at C kd k ty G st} _.
#[global] Arguments bs_stores {CryptoHash universe output_at C kd k ty G st} _.
#[global] Arguments bs_fork {CryptoHash universe output_at C kd k ty G st} _.
#[global] Arguments bs_forks {CryptoHash universe output_at C kd k ty G st} _.
#[global] Arguments bs_outline {CryptoHash universe output_at C kd k ty G st} _.
#[global] Arguments bs_vote {CryptoHash universe output_at C kd k ty G st} _.
#[global] Arguments bs_enroll {CryptoHash universe output_at C kd k ty G st} _.

End BaseInv.
