(* ===== verification/BaseView.v ===== *)
(** * The view of a stored block

    [CBlockBase::GetBlockView] reads the blocks between the last block of a fork
    and a block of the fork, and builds the view at that block.  In a state that
    satisfies [base_inv] it succeeds, and the view stands for the unspent outputs
    of the block over the database of the fork. *)

From S2P Require Import Prelude RWLock Prog Cache Stream Destination Transaction Block Base.
From S2P Require Import Base25519 SC25519 Crypto Template Profile BlockIndex Core UnspentDB BlockView Chain BlockFork BlockTree.
From S2P Require Import TimeSeries CTSDB BlockStore BlockDB BlockBase WorldLine Ledger BaseInv.

Import CWalleveStream.

Module BaseView.

Import BlockStore BaseInv.

(** ** Chains of one fork *)

(** The blocks of a chain before the origin of the fork are in the fork and are
    not origins. *)
Lemma branch_members st p h i b g :
  BlockTree.tree_ok st -> st !! h = Some i -> BlockTree.root_chain st h (p ++ b) -> st !! bi_pOrigin i = Some g -> g ∈ b ->
  Forall (fun x => BlockIndex.IsOrigin x = false /\ bi_pOrigin x = bi_pOrigin i) p.
Proof.
  intros Ht. revert h i. induction p as [|x p IH]; intros h i Hi Hc Hg Hb; [constructor|].
  pose proof (BlockTree.tr_key _ Ht) as Hk. pose proof (BlockTree.root_chain_NoDup _ Hk _ _ Hc) as Hnd.
  destruct (BlockTree.root_chain_head _ _ _ Hc) as (x' & l & [= -> <-] & Hx).
  assert (x' = i) as -> by congruence. clear Hx. cbn in Hnd. apply NoDup_cons in Hnd as [Hnot _]. destruct (BlockIndex.IsOrigin i) eqn:Eo.
  - pose proof (BlockTree.tr_origin _ Ht _ _ Hi Eo) as E. rewrite E in Hg. assert (g = i) as -> by congruence.
    destruct Hnot. apply (list_elem_of_fmap_2 bi_hash), elem_of_app. by right.
  - constructor; [done|]. destruct (BlockTree.tr_prev _ Ht _ _ Hi Eo) as (q & j & Eq & Hj & Ep).
    inversion Hc as [? ? ? Hn El|? ? q' ? Hi' Hq' Hc' El]; subst; [congruence|].
    assert (q' = q) as -> by congruence. rewrite Ep in *. by apply (IH q j).
Qed.

Section view.
Context (CryptoHash : list Z -> Z) (universe : CTransaction -> Prop) (output_at : CTxOutPoint -> CTxOutput).
Context (C : codec (list (Z * CTxIndex))) (kd k : Z) (ty : Objects) (G : Ghosts).

Notation inv := (base_inv CryptoHash universe output_at C kd k ty G).
Notation view_of := (BlockView.view_of output_at).

(** Indexes with their ghosts *)
Definition ghosts_of (st : CBlockBase) : list CBlockIndex -> list Ghost -> Prop :=
  Forall2 (fun i g => cb_mapIndex st !! bi_hash i = Some i /\ G !! bi_hash i = Some g).

Lemma chain_ghosts st h l : inv st -> BlockTree.root_chain (cb_mapIndex st) h l -> exists gs, ghosts_of st l gs.
Proof.
  intros Hi Hc. apply Forall_exists_Forall2_l. apply Forall_forall. intros x Hx.
  pose proof (BlockTree.root_chain_elem _ (BlockTree.tr_key _ (bs_tree Hi)) _ _ _ Hc Hx) as E.
  destruct (bs_ghost Hi _ _ E) as (g & Hg & _). by exists g.
Qed.

(** The blocks of ghosts, in the order of a chain: the last one first *)
Definition blocks (gs : list Ghost) : list CBlockEx := map gh_block gs.

Notation branch_txs := (BlockView.branch_txs CryptoHash).

Lemma branch_txs_snoc bs b : branch_txs (bs ++ [b]) = branch_txs bs ++ BlockView.linked_txs CryptoHash b.
Proof. unfold BlockView.branch_txs. rewrite map_app, concat_app. cbn. by rewrite app_nil_r. Qed.

(** Along a chain of blocks that are not origins the outputs are replayed. *)
Lemma branch_replay st h p gs i0 g0 rest :
  inv st -> BlockTree.root_chain (cb_mapIndex st) h (p ++ i0 :: rest) -> Forall (fun x => BlockIndex.IsOrigin x = false) p ->
  ghosts_of st p gs -> G !! bi_hash i0 = Some g0 ->
  let l := branch_txs (rev (blocks gs)) in
  gh_utxo (hd g0 gs) = BlockView.apply_txs (gh_utxo g0) l /\ BlockView.all_apply (gh_utxo g0) l /\
  Forall (BlockView.named output_at) l.
Proof.
  intros Hi Hc Ho Hg Hg0. revert h Hc Ho. induction Hg as [|x g p gs [Hx Hgx] Hg IH]; intros h Hc Ho; cbn zeta.
  { cbn. split; [done|]. split; [done|constructor]. }
  apply Forall_cons in Ho as [Hox Ho]. pose proof (BlockTree.tr_key _ (bs_tree Hi)) as Hk.
  inversion Hc as [? ? ? ? El|? ? q ? Hxi Hq Hc' El]; subst; [by destruct p|]. clear Hc.
  destruct (IH q Hc' Ho) as (Eu & Ha & Hn).
  assert (Hex : ghost_extends CryptoHash output_at (hd g0 gs) g).
  { apply (bs_extends Hi (bi_hash x) x q); [done|done|done|done|].
    destruct (BlockTree.root_chain_head _ _ _ Hc') as (y & l' & Ey & Hy). rewrite <- (Hk _ _ Hy).
    destruct Hg as [|x' g' p' gs' [_ Hg'] _]; cbn in Ey; injection Ey as <-; done. }
  destruct Hex as [Ex1 Ex2 Ex3 _]. change (rev (blocks (g :: gs))) with (rev (blocks gs) ++ [gh_block g]). cbn [hd].
  rewrite branch_txs_snoc, BlockView.apply_txs_app, <- Eu.
  split; [done|]. rewrite BlockView.all_apply_app, <- Eu. split; [done|]. by apply Forall_app.
Qed.

(** *** The loops *)

Lemma ghosts_of_same st st' l gs : same_base st st' -> ghosts_of st l gs -> ghosts_of st' l gs.
Proof. intros [E _ _ _]. unfold ghosts_of. by rewrite E. Qed.

Lemma view_add_loop_spec l gs st v :
  inv st -> ghosts_of st l gs ->
  exists st', BlockBase.add_loop CryptoHash l v st = Return (st', inr (foldl (BlockView.add_block CryptoHash) v (blocks gs))) /\
    inv st' /\ same_base st st'.
Proof.
  intros Hi Hg. revert st v Hi Hg. revert gs. induction l as [|x l IH]; intros gs st v Hi Hg; inversion Hg as [|? g ? gs' [Hx Hgx] Hg']; subst.
  { by exists st. }
  cbn [BlockBase.add_loop]. destruct (RetrieveBlockEx_spec _ _ _ _ _ k ty G st _ x g Hi Hx Hgx) as (st1 & E1 & Hi1 & Hs1).
  destruct (IH gs' st1 (BlockView.add_block CryptoHash v (gh_block g)) Hi1) as (st2 & E2 & Hi2 & Hs2); [by eapply ghosts_of_same|].
  exists st2. rewrite (bind_ok _ _ _ _ _ E1). split; [done|]. split; [done|]. by etrans.
Qed.

Lemma same_ptr_chain st h x p i0 rest :
  inv st -> BlockTree.root_chain (cb_mapIndex st) h (x :: p ++ i0 :: rest) -> Chain.same_ptr (x :: p ++ i0 :: rest) (i0 :: rest) = false.
Proof.
  intros Hi Hc. pose proof (BlockTree.root_chain_NoDup _ (BlockTree.tr_key _ (bs_tree Hi)) _ _ Hc) as Hnd.
  cbn. apply Z.eqb_neq. intros E. cbn in Hnd. apply NoDup_cons in Hnd as [Hnot _]. apply Hnot. rewrite E.
  apply (list_elem_of_fmap_2 bi_hash), elem_of_app. right. by left.
Qed.

Lemma remove_loop_spec p gs i0 rest h st v :
  inv st -> BlockTree.root_chain (cb_mapIndex st) h (p ++ i0 :: rest) -> ghosts_of st p gs ->
  exists st', BlockBase.remove_loop CryptoHash (p ++ i0 :: rest) (i0 :: rest) v st =
      Return (st', inr (foldl (BlockView.remove_block CryptoHash) v (blocks gs))) /\ inv st' /\ same_base st st'.
Proof.
  revert gs h st v. induction p as [|x p IH]; intros gs h st v Hi Hc Hg; inversion Hg as [|? g ? gs' [Hx Hgx] Hg']; subst.
  { exists st. cbn [app BlockBase.remove_loop Chain.same_ptr]. rewrite Z.eqb_refl. done. }
  cbn [app BlockBase.remove_loop]. rewrite (same_ptr_chain st h) by done.
  destruct (RetrieveBlockEx_spec _ _ _ _ _ k ty G st _ x g Hi Hx Hgx) as (st1 & E1 & Hi1 & Hs1).
  inversion Hc as [? ? ? ? El|? ? q ? Hxi Hq Hc' El]; subst; [by destruct p|].
  destruct (IH gs' q st1 (BlockView.remove_block CryptoHash v (gh_block g)) Hi1) as (st2 & E2 & Hi2 & Hs2).
  { destruct Hs1 as [-> _ _ _]. done. }
  { by eapply ghosts_of_same. }
  exists st2. rewrite (bind_ok _ _ _ _ _ E1). split; [done|]. split; [done|]. by etrans.
Qed.

(** *** The view *)

(** The chains of two blocks of one fork, [last] and [h], part at [i0]. *)
Record branch_at (st : CBlockBase) (last h : Z) (i0 : CBlockIndex) (rest vR vP : list CBlockIndex) (g0 : Ghost) (gsR gsP : list Ghost)
    : Prop := {
  br_last : BlockTree.root_chain (cb_mapIndex st) last (vR ++ i0 :: rest);
  br_new : BlockTree.root_chain (cb_mapIndex st) h (vP ++ i0 :: rest);
  br_lastNo : Forall (fun x => BlockIndex.IsOrigin x = false) vR;
  br_newNo : Forall (fun x => BlockIndex.IsOrigin x = false) vP;
  br_lastGh : ghosts_of st vR gsR;
  br_newGh : ghosts_of st vP gsP;
  br_ghost : G !! bi_hash i0 = Some g0;
}.

Lemma branch_exists st last h il i :
  inv st -> cb_mapIndex st !! last = Some il -> cb_mapIndex st !! h = Some i -> bi_pOrigin il = bi_pOrigin i ->
  exists i0 rest vR vP g0 gsR gsP,
    Chain.GetBranch (Chain.ancestry (cb_mapIndex st) (Some last)) (Chain.ancestry (cb_mapIndex st) (Some h)) = Return (i0 :: rest, vP) /\
    branch_at st last h i0 rest vR vP g0 gsR gsP.
Proof.
  intros Hi Hl Hh Ho. pose proof (bs_tree Hi) as Ht.
  destruct (BlockTree.tree_branch _ Ht _ _ _ _ Hl Hh Ho) as (b & vP & vR & go & rest0 & E & Hgo & (l & Eb & _) & Hc & Hc').
  assert (Hgb : go ∈ b) by (rewrite Eb; apply elem_of_app; right; by left).
  assert (Hb : exists i0 rest, b = i0 :: rest) by (destruct b; [by apply elem_of_nil in Hgb|eauto]).
  destruct Hb as (i0 & rest & ->).
  pose proof (branch_members _ _ _ _ _ _ Ht Hl Hc' Hgo Hgb) as HoR. rewrite Ho in Hgo.
  pose proof (branch_members _ _ _ _ _ _ Ht Hh Hc Hgo Hgb) as HoP.
  destruct (chain_ghosts st _ _ Hi Hc') as [gs Hgs]. apply Forall2_app_inv_l in Hgs as (gsR & gs0 & HgR & Hg0 & ->).
  destruct (chain_ghosts st _ _ Hi Hc) as [gs Hgs]. apply Forall2_app_inv_l in Hgs as (gsP & gs1 & HgP & _ & ->).
  inversion Hg0 as [|? g0 ? ? [_ Hgi0] _]; subst.
  exists i0, rest, vR, vP, g0, gsR, gsP. split; [done|]. split; try done; (eapply Forall_impl; [eassumption|]; by intros x []).
Qed.

Lemma hd_ghost st h p gs i0 rest g0 g :
  inv st -> BlockTree.root_chain (cb_mapIndex st) h (p ++ i0 :: rest) -> ghosts_of st p gs -> G !! bi_hash i0 = Some g0 ->
  G !! h = Some g -> hd g0 gs = g.
Proof.
  intros Hi Hc Hg Hg0 Hh. destruct (BlockTree.root_chain_head _ _ _ Hc) as (y & l' & Ey & Hy).
  pose proof (BlockTree.tr_key _ (bs_tree Hi) _ _ Hy) as Ek.
  destruct Hg as [|x' g' p' gs' [_ Hg'] _]; cbn in Ey; injection Ey as <-; cbn; congruence.
Qed.

Notation reorg gsR gsP := (BlockView.reorg_view CryptoHash (rev (blocks gsR)) (rev (blocks gsP))).

(** The view over two branches stands for the outputs of the new block. *)
Lemma branch_view st last h i0 rest vR vP g0 gsR gsP gl g :
  inv st -> branch_at st last h i0 rest vR vP g0 gsR gsP -> G !! last = Some gl -> G !! h = Some g ->
  view_of (gh_utxo gl) (BlockView.bv_mapUnspent (reorg gsR gsP)) (gh_utxo g).
Proof.
  intros Hi [B1 B2 B3 B4 B5 B6 B7] Hl Hh.
  destruct (branch_replay st last vR gsR i0 g0 rest) as (Eu & Ha & Hn); [done..|].
  destruct (branch_replay st h vP gsP i0 g0 rest) as (Eu' & Ha' & Hn'); [done..|].
  rewrite (hd_ghost st last vR gsR i0 rest g0 gl) in Eu by done. rewrite (hd_ghost st h vP gsP i0 rest g0 g) in Eu' by done.
  assert (Hm : BlockView.well_named output_at (gh_utxo g0)).
  { destruct (bs_ghost Hi (bi_hash i0) i0) as (g0' & E & _ & Hok).
    { apply (BlockTree.root_chain_elem _ (BlockTree.tr_key _ (bs_tree Hi)) _ _ i0 B1). apply elem_of_app. right. by left. }
    simplify_eq. apply Hok. }
  rewrite Eu, Eu'. unfold BlockView.reorg_view. apply BlockView.view_add_branch; [done|done|].
  apply BlockView.view_remove_branch; [done|done|done|]. apply BlockView.view_empty. by apply BlockView.apply_txs_named.
Qed.

Lemma GetBlockView_spec st h i g F il gl fCommitable :
  inv st -> cb_mapIndex st !! h = Some i -> G !! h = Some g -> cb_mapFork st !! bi_pOrigin i = Some F ->
  fork_at G st (bi_pOrigin i) (bf_pIndexLast F) il gl ->
  exists st' i0 rest vR vP g0 gsR gsP,
    BlockBase.GetBlockView CryptoHash h fCommitable st =
      Return (st', inr (mkView (reorg gsR gsP) (Some (bi_pOrigin i)) (bi_pOrigin i) fCommitable)) /\
    inv st' /\ same_base st st' /\ branch_at st (bf_pIndexLast F) h i0 rest vR vP g0 gsR gsP.
Proof.
  intros Hi Hh Hg HF [Hl Ho Hgl _ _ _].
  destruct (branch_exists st (bf_pIndexLast F) h il i) as (i0 & rest & vR & vP & g0 & gsR & gsP & E & Hb); [done..|].
  pose proof Hb as [B1 B2 B3 B4 B5 B6 B7]. pose proof (BlockTree.tr_key _ (bs_tree Hi)) as Hk.
  unfold BlockBase.GetBlockView, BlockBase.GetIndex, BlockBase.GetFork.
  erewrite bind_ok by (by rewrite Hh). erewrite bind_ok by (by rewrite HF). rewrite bind_gets. cbn [id].
  rewrite E. erewrite bind_ok by done. cbv zeta. rewrite (BlockTree.ancestry_chain _ Hk _ _ B1).
  destruct (remove_loop_spec vR gsR i0 rest _ st BlockView.empty Hi B1 B5) as (st1 & E1 & Hi1 & Hs1).
  erewrite bind_ok by exact E1.
  destruct (view_add_loop_spec (rev vP) (rev gsP) st1 (foldl (BlockView.remove_block CryptoHash) BlockView.empty (blocks gsR)) Hi1)
    as (st2 & E2 & Hi2 & Hs2).
  { eapply ghosts_of_same; [done|]. rewrite !rev_alt. by apply Forall2_reverse. }
  erewrite bind_ok by exact E2.
  exists st2, i0, rest, vR, vP, g0, gsR, gsP. split; [|split; [done|]; split; [by etrans|done]].
  unfold BlockView.reorg_view, blocks. rewrite rev_involutive, map_rev. done.
Qed.

End view.

End BaseView.
