(* ===== verification/BaseAdd.v ===== *)
(** * Adding a block to the base

    [CBlockBase::AddNew] writes the block, puts its index above that of its
    predecessor and, on the primary chain, adds up the votes for delegates.  On
    a disk that does not fail it succeeds for every new block above one of the
    index, and the invariant holds with the new block's ghost. *)

From S2P Require Import Prelude RWLock Prog Cache Stream Destination Transaction Block Base.
From S2P Require Import Base25519 SC25519 Crypto Template Profile BlockIndex Core UnspentDB BlockView Chain BlockFork BlockTree.
From S2P Require Import TimeSeries CTSDB BlockStore BlockDB BlockBase WorldLine Ledger BaseInv BaseView.

Import CWalleveStream.

Module BaseAdd.

Import BlockStore BaseInv BaseView.

(** ** The index of a new block *)

Section index.
Context (CryptoHash : list Z -> Z).

Lemma of_block_fields hash block nFile nOffset :
  let i := BlockIndex.of_block CryptoHash hash block nFile nOffset in
  bi_hash i = hash /\ bi_pNext i = None /\ bi_nType i = b_nType block /\ bi_nTimeStamp i = b_nTimeStamp block /\
  bi_nFile i = nFile /\ bi_nOffset i = nOffset.
Proof. unfold BlockIndex.of_block. cbv zeta. by destruct (if (_ && _) then _ else _). Qed.

(** What the index of a block above [ip] is *)
Record above (hash : Z) (block : CBlock) (pos : CDiskPos) (ip i : CBlockIndex) : Prop := {
  av_hash : bi_hash i = hash;
  av_prev : bi_pPrev i = Some (b_hashPrev block);
  av_next : bi_pNext i = None;
  av_origin : bi_pOrigin i = if Block.IsOrigin block then hash else bi_pOrigin ip;
  av_type : bi_nType i = b_nType block;
  av_time : bi_nTimeStamp i = b_nTimeStamp block;
  av_pos : BlockBase.index_pos i = pos;
  av_height : bi_nHeight i = i32 (bi_nHeight ip + (if Block.IsExtended block then 0 else 1));
  av_trust : bi_nChainTrust i = u64 (Block.GetBlockTrust block + bi_nChainTrust ip);
  av_supply : bi_nMoneySupply i = i64 (Block.GetBlockMint block + bi_nMoneySupply ip);
}.

Lemma place_index_spec st hash block pos ip :
  BlockTree.tree_ok st -> st !! hash = None -> st !! b_hashPrev block = Some ip ->
  exists i, BlockBase.place_index CryptoHash st hash block pos = Return i /\ above hash block pos ip i.
Proof.
  intros Ht Hnew Hp. unfold BlockBase.place_index. cbv zeta.
  destruct (of_block_fields hash block (dp_nFile pos) (dp_nOffset pos)) as (F1 & F2 & F3 & F4 & F5 & F6).
  set (i0 := BlockIndex.of_block _ _ _ _ _) in *. rewrite lookup_insert_ne by congruence. rewrite Hp.
  unfold BlockIndex.IsOrigin at 1. rewrite F3. fold (Block.IsOrigin block).
  destruct (BlockTree.fork_root _ Ht _ _ Hp) as (g & Hg & _). rewrite lookup_insert_ne by congruence. rewrite Hg.
  destruct (Block.IsOrigin block) eqn:Ho; eexists; (split; [done|]);
    (split; cbn; try rewrite Ho; try done; [destruct pos; unfold BlockBase.index_pos; cbn in *; by rewrite F5, F6|];
     unfold BlockIndex.IsExtended, Block.IsExtended; by rewrite F3).
Qed.
End index.

(** ** Delegates *)

Section delegate.
Context (ty : Objects) (posBlock : CDiskPos).

(** The positions of the enrolments are those of the transactions. *)
Lemma delegate_loop_ok vtx cs ctxt nOffset :
  0 <= nOffset -> nOffset + txs_size vtx < 2 ^ 32 ->
  Forall (valid Tx.tx_codec) vtx ->
  Forall (fun e => object_at Tx.tx_codec ty e.1 e.2) (places (dp_nFile posBlock) nOffset vtx) -> enroll_ok ty ctxt ->
  enroll_ok ty (foldl (BlockBase.delegate_tx posBlock) (ctxt, nOffset) (zip vtx cs)).1.
Proof.
  revert cs ctxt nOffset. induction vtx as [|tx vtx IH]; intros [|c cs] ctxt nOffset Hn Hb Hv Hp He; try done.
  cbn [zip zip_with foldl foldr places] in *. apply Forall_cons in Hp as [Hp Hps]. apply Forall_cons in Hv as [Hvt Hv].
  destruct (tx_size_pos tx Hvt) as [Hs _].
  pose proof (txs_size_nonneg vtx Hv) as Hge.
  unfold BlockBase.delegate_tx at 2. rewrite wrap_small by (split; lia). apply IH; [lia|lia|done|done|].
  intros a m dest pos Ha Hm. cbn [dc_mapEnrollTx] in Ha. destruct (tx_nType tx =? Tx.TX_CERT); [|by eapply He].
  apply lookup_insert_Some in Ha as [[<- <-]|[_ Ha]]; [|by eapply He].
  unfold map_insert_new in Hm. cbn in Hm. destruct (default ∅ _ !! ctx_destIn c) eqn:Ed.
  - destruct (dc_mapEnrollTx ctxt !! tx_hashAnchor tx) as [m0|] eqn:E0; cbn in Hm; [by eapply He|by rewrite lookup_empty in Hm].
  - apply lookup_insert_Some in Hm as [[_ <-]|[_ Hm]]; [by exists tx|].
    destruct (dc_mapEnrollTx ctxt !! tx_hashAnchor tx) as [m0|] eqn:E0; cbn in Hm; [by eapply He|by rewrite lookup_empty in Hm].
Qed.

Lemma vtx_offset_wrap b : block_at ty posBlock b -> BlockBase.vtx_offset (dp_nOffset posBlock) (bex_block b) = vtx_offset posBlock (bex_block b).
Proof.
  intros Hb. destruct (vtx_end_small _ _ _ Hb) as (H1 & H2 & H3). unfold BlockBase.vtx_offset, vtx_offset, mint_offset in *.
  assert (Hge : 0 <= txs_size (b_vtx (bex_block b))).
  { destruct Hb as [(_ & [[[[[_ [_ Hv]] _] _] _] _] & _) _ _]. by apply txs_size_nonneg. }
  apply wrap_small. split; lia.
Qed.
End delegate.

(** ** The invariant with a new leaf *)

Section leaf.
Context (CryptoHash : list Z -> Z) (universe : CTransaction -> Prop) (output_at : CTxOutPoint -> CTxOutput).
Context (C : codec (list (Z * CTxIndex))) (kd : Z).

Notation base_inv := (base_inv CryptoHash universe output_at C kd).

(** What is new in a state with one more block *)
Record with_leaf (k' : Z) (ty ty' : Objects) (st st' : CBlockBase) (hash : Z) (i : CBlockIndex) : Prop := {
  wl_objects : ty ⊆ ty';
  wl_index : cb_mapIndex st' = <[hash := i]> (cb_mapIndex st);
  wl_fork : cb_mapFork st' = cb_mapFork st;
  wl_stored : TimeSeries.stored (cb_tsBlock st') ty';
  wl_files : TimeSeries.files_ok k' (tc_base (cb_tsBlock st'));
  wl_cap : TimeSeries.capacity (cb_tsBlock st') = TimeSeries.capacity (cb_tsBlock st);
  wl_db : db_dbFork (cb_dbBlock st') = db_dbFork (cb_dbBlock st) /\ db_dbTxIndex (cb_dbBlock st') = db_dbTxIndex (cb_dbBlock st) /\
    db_dbUnspent (cb_dbBlock st') = db_dbUnspent (cb_dbBlock st);
  wl_outline : db_dbBlockIndex (cb_dbBlock st') = <[hash := BlockOutline.of_index i]> (db_dbBlockIndex (cb_dbBlock st));
  wl_delegate : DelegateDB.db_ok (db_dbDelegate (cb_dbBlock st'));
  wl_kv : forall h, h <> hash -> dd_kv (db_dbDelegate (cb_dbBlock st')) !! h = dd_kv (db_dbDelegate (cb_dbBlock st)) !! h;
  wl_vote : BlockIndex.IsPrimary i = true -> is_Some (dd_kv (db_dbDelegate (cb_dbBlock st')) !! hash);
  wl_enroll : forall c, dd_kv (db_dbDelegate (cb_dbBlock st')) !! hash = Some c -> enroll_ok ty' c;
}.

Lemma enroll_ok_weaken ty ty' c : ty ⊆ ty' -> enroll_ok ty c -> enroll_ok ty' c.
Proof. intros Hs H a m dest pos Ha Hm. destruct (H a m dest pos Ha Hm) as [tx Ht]. exists tx. by eapply object_at_weaken. Qed.

Lemma fork_at_leaf G st st' hash i g f last il gl :
  cb_mapIndex st !! hash = None -> bi_pNext i = None ->
  cb_mapIndex st' = <[hash := i]> (cb_mapIndex st) ->
  db_dbFork (cb_dbBlock st') = db_dbFork (cb_dbBlock st) -> db_dbUnspent (cb_dbBlock st') = db_dbUnspent (cb_dbBlock st) ->
  fork_at G st f last il gl -> fork_at (<[hash := g]> G) st' f last il gl.
Proof.
  intros Hnew Hn Ei Ef Eu [Hl Ho Hg Hc Ha (l & Hfc & Hnx)]. assert (Hne : last <> hash) by congruence.
  split; unfold fork_content; rewrite ?Ei, ?Ef, ?Eu, ?lookup_insert_ne by done; try done.
  exists l. split; [by apply BlockTree.fork_chain_leaf|].
  intros h j Hj Hoj. apply lookup_insert_Some in Hj as [[<- <-]|[_ Hj]]; [|by apply Hnx].
  rewrite Hn. symmetry. apply BlockFork.next_of_notin. intros Hin.
  destruct (BlockFork.fork_chain_elem _ _ _ _ hash Hfc) as (x & Hx & _); [|congruence]. destruct l; [done|by right].
Qed.

Lemma leaf_inv k k' ty ty' G st st' hash i g ip gp pos :
  base_inv k ty G st -> with_leaf k' ty ty' st st' hash i ->
  cb_mapIndex st !! hash = None -> hash <> 0 ->
  let block := bex_block (gh_block g) in
  cb_mapIndex st !! b_hashPrev block = Some ip -> G !! b_hashPrev block = Some gp ->
  above hash block pos ip i ->
  (Block.IsOrigin block = false -> ghost_extends CryptoHash output_at gp g /\
     forall o, cb_mapIndex st !! bi_pOrigin ip = Some o -> BlockIndex.GetBlockTime o < b_nTimeStamp block) ->
  block_at ty' pos (gh_block g) -> Ledger.ledger_ok CryptoHash universe output_at (gh_utxo g) (gh_ids g) ->
  base_inv k' ty' (<[hash := g]> G) st'.
Proof.
  intros Hi [Wo Wi Wf Ws Wfi Wc (Wd1 & Wd2 & Wd3) Wol Wd Wk Wv We] Hnew H0 block Hp Hgp [A1 A2 A3 A4 A5 A6 A7 _ _ _] Hy Hb Hl.
  assert (Eo : BlockIndex.IsOrigin i = Block.IsOrigin block) by (unfold BlockIndex.IsOrigin; by rewrite A5).
  assert (Hold : forall h j, cb_mapIndex st' !! h = Some j -> h = hash /\ j = i \/ h <> hash /\ cb_mapIndex st !! h = Some j).
  { intros h j. rewrite Wi. intros [[<- <-]|[? ?]]%lookup_insert_Some; auto. }
  split; rewrite ?Wf, ?Wc.
  - rewrite Wi. apply (BlockTree.tree_leaf _ (bs_tree Hi) _ _ Hnew (b_hashPrev block) ip); [done|done|done|by rewrite Eo, A4; intros ->|].
    rewrite Eo, A4. intros Ho. rewrite Ho. split; [done|]. intros o Hoo. unfold BlockIndex.GetBlockTime at 2. rewrite A6. by apply Hy.
  - rewrite Wi, lookup_insert_ne by done. apply Hi.
  - intros h j [[-> ->]|[Hne Hj]]%Hold.
    + exists g. rewrite lookup_insert_eq. split; [done|]. split; [|done]. split; [by rewrite A7|done|done].
    + destruct (bs_ghost Hi h j Hj) as (g' & Hg' & [I1 I2 I3] & Hl'). exists g'. rewrite lookup_insert_ne by done.
      split; [done|]. split; [|done]. split; [by eapply block_at_weaken|done|done].
  - intros h j q gh gq [[-> ->]|[Hne Hj]]%Hold Hoj Hq Hgh Hgq.
    + rewrite A2 in Hq. injection Hq as <-. rewrite lookup_insert_eq in Hgh. rewrite lookup_insert_ne in Hgq by congruence.
      rewrite Eo in Hoj. destruct (Hy Hoj) as [He _]. congruence.
    + destruct (BlockTree.tr_prev _ (bs_tree Hi) _ _ Hj Hoj) as (q' & jq & Eq & Hjq & _). assert (q' = q) as -> by congruence.
      rewrite lookup_insert_ne in Hgh by done. rewrite lookup_insert_ne in Hgq by congruence. by apply (bs_extends Hi h j q).
  - done.
  - done.
  - apply Hi.
  - destruct (bs_stores Hi). split; [by rewrite Wd2|by rewrite Wd3|done|by rewrite Wd2, Wd3].
  - intros f F HF. destruct (bs_fork Hi f F HF) as (Eo' & il & gl & Hfa). split; [done|]. exists il, gl. by eapply fork_at_leaf.
  - rewrite Wd3. apply Hi.
  - rewrite Wol, Wi, fmap_insert. f_equal. apply Hi.
  - intros h j [[-> ->]|[Hne Hj]]%Hold Hpr; [by apply Wv|]. rewrite Wk by done. by apply (bs_vote Hi h j).
  - intros h c Hc. destruct (decide (h = hash)) as [->|Hne]; [by apply We|]. rewrite Wk in Hc by done.
    eapply enroll_ok_weaken; [done|]. by apply (bs_enroll Hi h).
Qed.
End leaf.

(** ** AddNew *)

Section addnew.
Context (CryptoHash : list Z -> Z) (io : DbIO) (Hio : BlockDB.disk_ok io).

Lemma UpdateDelegate_spec ty st hash (b : CBlockEx) pos cp :
  DelegateDB.db_ok (db_dbDelegate (cb_dbBlock st)) -> block_at ty pos b ->
  dd_kv (db_dbDelegate (cb_dbBlock st)) !! b_hashPrev (bex_block b) = Some cp -> length (bex_vTxContxt b) = length (b_vtx (bex_block b)) ->
  exists d' ctxt,
    BlockBase.UpdateDelegate io hash b pos st = Return (BlockBase.set_dbBlock st (BlockDB.set_dbDelegate (cb_dbBlock st) d'), inr tt) /\
    DelegateDB.db_ok d' /\ dd_kv d' = <[hash := ctxt]> (dd_kv (db_dbDelegate (cb_dbBlock st))) /\ enroll_ok ty ctxt.
Proof.
  intros Hd Hb Hcp Hlen. destruct Hio as (_ & _ & _ & Ed & _).
  unfold BlockBase.UpdateDelegate, BlockBase.db_read, BlockDB.RetrieveDelegate, DelegateDB.RetrieveDelegatedVote.
  destruct (DelegateDB.RetrieveContext_spec _ (b_hashPrev (bex_block b)) Hd) as (E & Hd1 & Ek).
  destruct (DelegateDB.Retrieve _ _) as [r d1] eqn:Er. cbn [fst snd] in *. rewrite Hcp in E. subst r.
  erewrite bind_ok by (cbv beta; rewrite Er; reflexivity). rewrite Hlen, Nat.leb_refl. erewrite bind_ok by reflexivity. rewrite (vtx_offset_wrap ty) by done.
  pose proof (delegate_loop_ok ty pos (b_vtx (bex_block b)) (bex_vTxContxt b) (mkDelegateContext (dc_mapVote cp) ∅) (vtx_offset pos (bex_block b))) as Hloop.
  destruct (foldl _ _ _) as [ctxt off]. cbn [fst] in Hloop. unfold BlockBase.db_call, BlockDB.UpdateDelegateContext. rewrite Ed.
  exists (mkDelegateDB (<[hash := ctxt]> (dd_kv d1)) (Cache.AddNew (dd_cacheDelegate d1) hash ctxt)), ctxt.
  split; [reflexivity|]. cbn [dd_kv]. rewrite Ek. split; [|split; [done|]].
  - rewrite <- Ek. by apply Cache.AddNew_coherent; apply Hd1.
  - destruct (vtx_end_small _ _ _ Hb) as (H1 & H2 & H3). apply Hloop; [lia|done| |apply Forall_inv_tail with (1 := ba_txs _ _ _ Hb)|].
    + destruct Hb as [(_ & [[[[[_ [_ Hv]] _] _] _] _] & _) _ _]. done.
    + intros a m dest p Ha. cbn in Ha. by rewrite lookup_empty in Ha.
Qed.

Context (universe : CTransaction -> Prop) (output_at : CTxOutPoint -> CTxOutput).
Context (C : codec (list (Z * CTxIndex))) (kd : Z).

Notation base_inv := (base_inv CryptoHash universe output_at C kd).

(** The block goes to the files and to the index; nothing else that the
    invariant speaks of changes. *)
Lemma AddNew_leaf k ty G st hash (b : CBlockEx) ip :
  base_inv k ty G st -> k + 1 < 2 ^ 32 -> cb_mapIndex st !! hash = None -> cb_mapIndex st !! b_hashPrev (bex_block b) = Some ip ->
  (Block.IsPrimary (bex_block b) = true -> BlockIndex.IsPrimary ip = true /\ length (bex_vTxContxt b) = length (b_vtx (bex_block b))) ->
  valid Block.blockex_codec b -> Z.of_nat (length (save Block.blockex_codec b)) < 2 ^ 22 ->
  exists i pos ty' st', BlockBase.AddNew CryptoHash io true hash b st = Return (st', inr i) /\
    above hash (bex_block b) pos ip i /\ block_at ty' pos b /\ with_leaf (k + 1) ty ty' st st' hash i.
Proof.
  intros Hi Hk Hnew Hp Hpr Hv Hl. pose proof Hio as (_ & _ & Eout & _).
  destruct (write_block k _ ty (bs_stored Hi) (bs_files Hi) Hk (bs_cap Hi) b Hv Hl) as (pos & ts' & ty' & E & Hs & Hsub & Hc & Hf & Hb).
  destruct (place_index_spec CryptoHash _ hash (bex_block b) pos ip (bs_tree Hi) Hnew Hp) as (i & Ei & Hab).
  pose proof (bs_stores Hi) as [_ _ Hdel _].
  unfold BlockBase.AddNew. rewrite bind_gets. cbn [id]. unfold BlockBase.Exists. rewrite bool_decide_false by (rewrite Hnew; by intros []).
  cbn [negb check]. rewrite bind_ret. erewrite bind_ok by (unfold BlockBase.ts_write; by rewrite E).
  erewrite bind_ok.
  2: { unfold BlockBase.AddNewIndex. rewrite bind_gets. cbn [id cb_mapIndex BlockBase.set_tsBlock]. erewrite bind_ok by (by rewrite Ei).
       reflexivity. }
  rewrite bind_gets. cbn [id]. unfold BlockDB.AddNewBlock. rewrite Eout. cbn [BlockIndexDB.AddNewBlock].
  assert (Eins : map_insert_new (cb_mapIndex st) (hash, i) = <[hash := i]> (cb_mapIndex st)).
  { unfold map_insert_new. cbn. by rewrite Hnew. }
  cbn [cb_mapIndex BlockBase.set_tsBlock]. rewrite Eins. erewrite bind_ok by reflexivity. cbn [negb].
  assert (Hoh : bi_hash i = hash) by apply Hab.
  destruct (BlockIndex.IsPrimary i) eqn:Epr.
  - assert (Hpp : BlockIndex.IsPrimary ip = true /\ length (bex_vTxContxt b) = length (b_vtx (bex_block b))).
    { apply Hpr. unfold BlockIndex.IsPrimary in Epr. by rewrite (av_type _ _ _ _ _ Hab) in Epr. }
    destruct Hpp as [Hpp Hlen]. destruct (bs_vote Hi _ _ Hp Hpp) as [cp Hcp].
    set (st3 := BlockBase.set_dbBlock _ _).
    destruct (UpdateDelegate_spec ty' st3 hash b pos cp) as (d' & ctxt & -> & Hd' & Ekv & Hen); [done|done|done|done|].
    exists i, pos, ty'. eexists. split; [reflexivity|]. split; [done|]. split; [done|].
    split; cbn; try done; try (by rewrite Hoh).
    + by intros h Hh; rewrite Ekv, lookup_insert_ne.
    + intros _. rewrite Ekv, lookup_insert_eq. by eexists.
    + intros c. rewrite Ekv, lookup_insert_eq. by intros [= <-].
  - exists i, pos, ty'. eexists. split; [reflexivity|]. split; [done|]. split; [done|].
    split; cbn; try done; try (by rewrite Hoh); [congruence|].
    intros c Hc'. eapply enroll_ok_weaken; [done|]. by apply (bs_enroll Hi hash).
Qed.

(** With the ghost of the block *)
Lemma AddNew_spec k ty G st hash g ip gp :
  let b := gh_block g in
  base_inv k ty G st -> k + 1 < 2 ^ 32 -> cb_mapIndex st !! hash = None -> hash <> 0 ->
  cb_mapIndex st !! b_hashPrev (bex_block b) = Some ip -> G !! b_hashPrev (bex_block b) = Some gp ->
  (Block.IsPrimary (bex_block b) = true -> BlockIndex.IsPrimary ip = true /\ length (bex_vTxContxt b) = length (b_vtx (bex_block b))) ->
  (Block.IsOrigin (bex_block b) = false -> ghost_extends CryptoHash output_at gp g /\
     forall o, cb_mapIndex st !! bi_pOrigin ip = Some o -> BlockIndex.GetBlockTime o < b_nTimeStamp (bex_block b)) ->
  valid Block.blockex_codec b -> Z.of_nat (length (save Block.blockex_codec b)) < 2 ^ 22 ->
  Ledger.ledger_ok CryptoHash universe output_at (gh_utxo g) (gh_ids g) ->
  exists i pos ty' st', BlockBase.AddNew CryptoHash io true hash b st = Return (st', inr i) /\
    above hash (bex_block b) pos ip i /\ with_leaf (k + 1) ty ty' st st' hash i /\ base_inv (k + 1) ty' (<[hash := g]> G) st'.
Proof.
  intros b Hi Hk Hnew H0 Hp Hgp Hpr Hy Hv Hl Hled.
  destruct (AddNew_leaf k ty G st hash b ip) as (i & pos & ty' & st' & E & Hab & Hb & Hw); [done..|].
  exists i, pos, ty', st'. split; [done|]. split; [done|]. split; [done|]. by eapply leaf_inv.
Qed.
End addnew.

End BaseAdd.
