(* ===== verification/BaseCommit.v ===== *)
(** * Committing a view

    [CBlockBase::CommitBlockView] makes a block the last one of its fork: it
    writes the changes of the view to the database, the positions of the new
    transactions to their index, and moves the next pointers.  On a disk that
    does not fail it succeeds, and the invariant holds with the fork at the
    new block. *)

From S2P Require Import Prelude RWLock Prog Cache Stream Destination Transaction Block Base.
From S2P Require Import Base25519 SC25519 Crypto Template Profile BlockIndex Core UnspentDB BlockView Chain BlockFork BlockTree.
From S2P Require Import TimeSeries CTSDB BlockStore BlockDB BlockBase WorldLine Ledger BaseInv BaseView.

Import CWalleveStream.

Module BaseCommit.

Import BlockStore BaseInv BaseView.

(** ** Ids *)

Section ids.
Context (CryptoHash : list Z -> Z).

Notation txid := (Tx.GetHash CryptoHash).

Lemma txid_uint tx : valid Tx.tx_codec tx -> is_uint 256 (txid tx).
Proof.
  intros [[[[[[[[[[_ Ht] _] _] _] _] _] _] _] _] _]. cbn in Ht. unfold Tx.GetHash.
  pose proof (Z.mod_pos_bound (CryptoHash (save Tx.tx_codec tx)) (2 ^ 224) ltac:(lia)). destruct Ht. split; lia.
Qed.

Lemma linked_ids b :
  Forall (valid Tx.tx_codec) (b_vtx (bex_block b)) -> Forall (fun t => is_uint 256 (BlockView.lt_id t)) (BlockView.linked_vtx CryptoHash b).
Proof.
  intros Hv. unfold BlockView.linked_vtx. eapply Forall_zip_with_fst; [exact Hv|]. apply Forall_true. intros c tx Htx.
  by apply txid_uint.
Qed.

(** The ids a block removes from a view *)
Lemma remove_block_ids v b :
  Forall (valid Tx.tx_codec) (b_txMint (bex_block b) :: b_vtx (bex_block b)) ->
  Forall (is_uint 256) (bv_vTxRemove v) -> Forall (is_uint 256) (bv_vTxRemove (BlockView.remove_block CryptoHash v b)).
Proof.
  intros [Hm Hv]%Forall_cons H0. unfold BlockView.remove_block.
  assert (H1 : Forall (is_uint 256) (bv_vTxRemove (foldl BlockView.remove_linked v (rev (BlockView.linked_vtx CryptoHash b))))).
  { pose proof (Forall_rev (linked_ids b Hv)) as Hl. clear Hm Hv. revert v H0.
    induction Hl as [|t l Ht _ IH]; intros v H0; cbn [foldl]; [done|]. apply IH. cbn. apply Forall_app. split; [done|].
    by constructor. }
  destruct (Tx.IsNull _); [done|]. cbn. apply Forall_app. split; [done|]. constructor; [by apply txid_uint|constructor].
Qed.

Lemma add_linked_removed l v : bv_vTxRemove (foldl BlockView.add_linked v l) = bv_vTxRemove v.
Proof. revert v. induction l as [|t l IH]; intros v; cbn [foldl]; [done|]. by rewrite IH. Qed.

Lemma reorg_ids vR vA :
  Forall (fun b => Forall (valid Tx.tx_codec) (b_txMint (bex_block b) :: b_vtx (bex_block b))) vR ->
  Forall (is_uint 256) (bv_vTxRemove (BlockView.reorg_view CryptoHash vR vA)).
Proof.
  intros Hv. unfold BlockView.reorg_view.
  assert (Ha : forall v, bv_vTxRemove (foldl (BlockView.add_block CryptoHash) v vA) = bv_vTxRemove v).
  { induction vA as [|b vA IH]; intros v; cbn [foldl]; [done|]. rewrite IH. apply add_linked_removed. }
  rewrite Ha. apply Forall_rev in Hv. revert Hv. generalize (rev vR).
  assert (H0 : Forall (is_uint 256) (bv_vTxRemove BlockView.empty)) by constructor. revert H0. generalize BlockView.empty.
  intros v H0 l Hl. revert v H0. induction Hl as [|b l Hb _ IH]; intros v H0; cbn [foldl]; [done|].
  apply IH. by apply remove_block_ids.
Qed.

Lemma vtx_index_ids nHeight nFile nOffset vtx :
  Forall (valid Tx.tx_codec) vtx -> Forall (fun e => is_uint 256 e.1) (BlockBase.vtx_index CryptoHash nHeight nFile nOffset vtx).
Proof.
  intros Hv. revert nOffset. induction Hv as [|tx vtx Ht _ IH]; intros nOffset; cbn; constructor; [by apply txid_uint|done].
Qed.

Lemma block_index_ids i b :
  Forall (valid Tx.tx_codec) (b_txMint b :: b_vtx b) -> Forall (fun e => is_uint 256 e.1) (BlockBase.block_index CryptoHash i b).
Proof.
  intros [Hm Hv]%Forall_cons. apply Forall_app. split; [|by apply vtx_index_ids]. case_match; constructor; [by apply txid_uint|constructor].
Qed.
End ids.

(** ** The fork moves to a block *)

Section moved.
Context (CryptoHash : list Z -> Z) (universe : CTransaction -> Prop) (output_at : CTxOutPoint -> CTxOutput).
Context (C : codec (list (Z * CTxIndex))) (kd k : Z) (ty : Objects) (G : Ghosts).

Notation inv := (base_inv CryptoHash universe output_at C kd k ty G).

Record moved_to (st st' : CBlockBase) (f new : Z) (F : CBlockFork) (g : Ghost) : Prop := {
  mv_index : BlockFork.next_only f (cb_mapIndex st) (cb_mapIndex st');
  mv_next : exists l, BlockFork.fork_chain (cb_mapIndex st') f new l /\ BlockFork.next_is (cb_mapIndex st') f (BlockFork.next_of l);
  mv_fork : cb_mapFork st' = <[f := mkBlockFork (bf_forkProfile F) new f]> (cb_mapFork st);
  mv_stored : TimeSeries.stored (cb_tsBlock st') ty;
  mv_base : tc_base (cb_tsBlock st') = tc_base (cb_tsBlock st);
  mv_cap : 2 ^ 22 <= TimeSeries.capacity (cb_tsBlock st');
  mv_stores : BlockDB.stores_ok C kd (cb_dbBlock st');
  mv_dbFork : db_dbFork (cb_dbBlock st') =
    mkForkDB (fk_ctxt (db_dbFork (cb_dbBlock st))) (<[f := new]> (fk_active (db_dbFork (cb_dbBlock st))));
  mv_outline : db_dbBlockIndex (cb_dbBlock st') = db_dbBlockIndex (cb_dbBlock st);
  mv_delegate : dd_kv (db_dbDelegate (cb_dbBlock st')) = dd_kv (db_dbDelegate (cb_dbBlock st));
  mv_contents : UnspentDB.contents (db_dbUnspent (cb_dbBlock st')) =
    <[f := gh_utxo g]> (UnspentDB.contents (db_dbUnspent (cb_dbBlock st)));
  mv_dom : dom (db_dbUnspent (cb_dbBlock st')) = {[f]} ∪ dom (db_dbUnspent (cb_dbBlock st));
}.

Lemma outline_next i i' : BlockFork.with_next None i' = BlockFork.with_next None i -> BlockOutline.of_index i' = BlockOutline.of_index i.
Proof. destruct i, i'. unfold BlockFork.with_next, BlockOutline.of_index. cbn. intros [=]. by subst. Qed.

Lemma index_of_next i i' b : BlockFork.with_next None i' = BlockFork.with_next None i -> index_of ty i b -> index_of ty i' b.
Proof.
  intros E [I1 I2 I3]. apply BlockTree.with_next_fields_all in E as (_ & _ & _ & Et & Es & _ & _ & _ & Ef & Eo).
  unfold BlockBase.index_pos in I1. split; [|congruence|congruence]. unfold BlockBase.index_pos. by rewrite Ef, Eo.
Qed.

(** Another fork does not notice. *)
Lemma fork_at_moved st st' f new F g f' last i gl :
  moved_to st st' f new F g -> f' <> f -> fork_at G st f' last i gl -> fork_at G st' f' last i gl.
Proof.
  intros [Mi _ _ _ _ _ _ Mf _ _ Mc _] Hne [A1 A2 A3 A4 A5 (l & A6 & A7)].
  assert (Hkeep : forall h j, cb_mapIndex st !! h = Some j -> bi_pOrigin j = f' -> cb_mapIndex st' !! h = Some j).
  { intros h j Hj Hoj. specialize (Mi h). rewrite Hj in Mi. destruct (cb_mapIndex st' !! h) as [j'|]; [|done].
    destruct Mi as [_ ->]; [done|congruence]. }
  split; unfold fork_content; rewrite ?Mf, ?Mc, ?lookup_insert_ne by done; try done; [by apply Hkeep|cbn; by rewrite lookup_insert_ne|].
  exists l. split; [by eapply BlockFork.next_only_chain|]. intros h j' Hj' Hoj.
  destruct (BlockTree.next_only_back _ _ _ Mi _ _ Hj') as (j & Hj & E). apply BlockFork.with_next_fields in E as (_ & Eo & _).
  rewrite Eo in Hoj. pose proof (Hkeep _ _ Hj Hoj) as E'. assert (j' = j) as -> by congruence. by apply A7.
Qed.

(** The fork [f] may have been open or not. *)
Lemma moved_inv st st' f new i F g :
  inv st -> cb_mapIndex st !! new = Some i -> bi_pOrigin i = f -> G !! new = Some g ->
  moved_to st st' f new F g -> inv st'.
Proof.
  intros Hi Hn Ho Hg Hmv. pose proof Hmv as [Mi Mn Mfk Ms Mb Mcap Mst Mf Mol Md Mc Mdom].
  assert (Hback := BlockTree.next_only_back _ _ _ Mi).
  split; rewrite ?Mb, ?Mol, ?Md; try apply Hi; try done.
  - by eapply BlockTree.tree_next, Hi.
  - pose proof (Mi 0) as H0. rewrite (bs_null Hi) in H0. by destruct (cb_mapIndex st' !! 0).
  - intros h j' (j & Hj & E)%Hback. destruct (bs_ghost Hi h j Hj) as (gh & Hgh & Hio & Hl). exists gh. split; [done|].
    split; [|done]. by eapply index_of_next.
  - intros h j' q gh gq (j & Hj & E)%Hback Hoj Hq. apply BlockFork.with_next_fields in E as (_ & _ & Eq & Et).
    apply (bs_extends Hi h j q); [done| |congruence]. unfold BlockIndex.IsOrigin in *. by rewrite <- Et.
  - intros f' F' HF'. rewrite Mfk in HF'. apply lookup_insert_Some in HF' as [[<- <-]|[Hne HF']].
    + cbn. split; [done|]. destruct (BlockFork.next_only_lookup _ _ _ _ _ Mi Hn) as (i' & Hi' & E). exists i', g.
      apply BlockFork.with_next_fields in E as (_ & Eo & _). split; unfold fork_content; try done; [congruence| |].
      * by rewrite Mc, lookup_insert_eq.
      * rewrite Mf. cbn. by rewrite lookup_insert_eq.
    + destruct (bs_fork Hi f' F' HF') as (Eo' & il & gl & Hfa). split; [done|]. exists il, gl. by eapply fork_at_moved.
  - rewrite Mfk, dom_insert_L, Mdom. f_equal. apply Hi.
  - rewrite (bs_outline Hi). apply map_eq. intros h. rewrite !lookup_fmap. specialize (Mi h).
    destruct (cb_mapIndex st !! h) as [j|], (cb_mapIndex st' !! h) as [j'|]; try done. cbn. f_equal. symmetry. apply outline_next, Mi.
  - intros h j' (j & Hj & E)%Hback Hpr. apply BlockFork.with_next_fields in E as (_ & _ & _ & Et).
    apply (bs_vote Hi h j); [done|]. unfold BlockIndex.IsPrimary in *. by rewrite <- Et.
Qed.
Lemma moved_open st st' f new F g :
  (forall h i, cb_mapIndex st !! h = Some i -> bi_pOrigin i <> f -> is_Some (cb_mapFork st !! bi_pOrigin i)) ->
  moved_to st st' f new F g -> open_ok st'.
Proof.
  intros Ho Hmv h j' Hj'. destruct (BlockTree.next_only_back _ _ _ (mv_index _ _ _ _ _ _ Hmv) _ _ Hj') as (j & Hj & E).
  apply BlockFork.with_next_fields in E as (_ & Eo & _). rewrite (mv_fork _ _ _ _ _ _ Hmv), Eo. apply lookup_insert_is_Some.
  destruct (decide (f = bi_pOrigin j)) as [?|Hne]; [by left|right]. split; [done|]. by apply (Ho h).
Qed.
End moved.

(** ** CommitBlockView *)

Section commit.
Context (CryptoHash : list Z -> Z) (universe : CTransaction -> Prop) (output_at : CTxOutPoint -> CTxOutput).
Context (C : codec (list (Z * CTxIndex))) `{!CodecOk C} (kv_order : MapType -> list (CTxOutPoint * CTxOutput)).
Hypothesis kv_order_perm : forall m, kv_order m ≡ₚ map_to_list m.
Context (kd k : Z) (ty : Objects) (G : Ghosts) (io : DbIO) (Hio : BlockDB.disk_ok io).

Notation inv := (base_inv CryptoHash universe output_at C kd k ty G).

(** The entries of the transactions of a chain *)
Definition path_index (l : list CBlockIndex) (gs : list Ghost) : list (Z * CTxIndex) :=
  concat (zip_with (fun i g => BlockBase.block_index CryptoHash i (bex_block (gh_block g))) l gs).

Lemma ghosts_valid st l gs :
  inv st -> ghosts_of G st l gs ->
  Forall (fun b => Forall (valid Tx.tx_codec) (b_txMint (bex_block b) :: b_vtx (bex_block b))) (blocks gs).
Proof.
  intros Hi. unfold ghosts_of. induction 1 as [|i g l gs [Hx Hg] _ IH]; [constructor|]. constructor; [|done].
  destruct (index_stored _ _ _ _ _ _ _ _ _ _ _ _ Hi Hx Hg) as [[[(_ & [[[[[[_ Hm] [_ Hv]] _] _] _] _] & _) _ _] _ _] _].
  by constructor.
Qed.

Lemma path_index_ids st l gs : inv st -> ghosts_of G st l gs -> Forall (fun e => is_uint 256 e.1) (path_index l gs).
Proof.
  intros Hi Hg. pose proof (ghosts_valid _ _ _ Hi Hg) as Hv. unfold path_index. revert Hv.
  induction Hg as [|i g l gs _ _ IH]; intros Hv; [constructor|]. cbn in Hv |- *. apply Forall_cons in Hv as [Hv Hvs].
  apply Forall_app. split; [by apply block_index_ids|by apply IH].
Qed.

(** Whatever the rest of the state is, the loop reads the blocks and changes only
    the cache of the files. *)
Lemma new_index_loop_frame l gs st :
  TimeSeries.stored (cb_tsBlock st) ty -> 2 ^ 22 <= TimeSeries.capacity (cb_tsBlock st) ->
  Forall2 (fun i g => index_of ty i (gh_block g)) l gs ->
  exists ts', BlockBase.new_index_loop CryptoHash l st = Return (BlockBase.set_tsBlock st ts', inr (path_index l gs)) /\
    TimeSeries.stored ts' ty /\ tc_base ts' = tc_base (cb_tsBlock st) /\ TimeSeries.capacity ts' = TimeSeries.capacity (cb_tsBlock st).
Proof.
  intros Hs Hc Hl. revert st Hs Hc. induction Hl as [|i g l gs [[Hb _ _] _ _] _ IH]; intros st Hs Hc.
  { exists (cb_tsBlock st). by destruct st. }
  destruct (read_object _ _ Hs Hc Block.blockex_codec _ _ BlockBase.blockex_null true Hb) as (ts1 & E1 & Hs1 & Hb1 & Hc1).
  destruct (IH (BlockBase.set_tsBlock st ts1)) as (ts' & E & Hs' & Hb' & Hc'); [done|cbn; lia|].
  exists ts'. cbn [BlockBase.new_index_loop]. erewrite bind_ok by (unfold BlockBase.ts_read; by rewrite E1).
  erewrite bind_ok by exact E. cbn in Hb', Hc'. split; [done|]. split; [done|]. split; congruence.
Qed.

Lemma ghosts_index st l gs : inv st -> ghosts_of G st l gs -> Forall2 (fun i g => index_of ty i (gh_block g)) l gs.
Proof.
  intros Hi Hg. eapply Forall2_impl; [exact Hg|]. intros i g [Hx Hgx]. by eapply index_stored.
Qed.

Lemma new_index_loop_spec l gs st :
  inv st -> ghosts_of G st l gs ->
  exists st', BlockBase.new_index_loop CryptoHash l st = Return (st', inr (path_index l gs)) /\ inv st' /\ same_base st st'.
Proof.
  intros Hi Hg. destruct (new_index_loop_frame l gs st) as (ts' & E & Hs & Hb & Hc); [apply Hi|apply Hi|by eapply ghosts_index|].
  exists (BlockBase.set_tsBlock st ts'). split; [done|]. by apply set_ts_inv.
Qed.

Lemma GetTxNewIndex_spec st view new i f F il gl :
  inv st -> cb_mapIndex st !! new = Some i -> bi_pOrigin i = f -> cb_mapFork st !! f = Some F ->
  fork_at G st f (bf_pIndexLast F) il gl -> vw_spFork view = Some f ->
  exists st' i0 rest vR vP g0 gsR gsP,
    BlockBase.GetTxNewIndex CryptoHash view new st = Return (st', inr (path_index (rev vP) (rev gsP))) /\ inv st' /\ same_base st st' /\
    branch_at G st (bf_pIndexLast F) new i0 rest vR vP g0 gsR gsP.
Proof.
  intros Hi Hn Ho HF [Hl Hol Hgl _ _ _] Hv.
  destruct (branch_exists CryptoHash universe output_at C kd k ty G st (bf_pIndexLast F) new il i)
    as (i0 & rest & vR & vP & g0 & gsR & gsP & E & Hb); [done|done|done|congruence|].
  unfold BlockBase.GetTxNewIndex. rewrite bind_gets. cbn [id]. rewrite Hv. cbn [mbind option_bind]. rewrite HF, E.
  erewrite bind_ok by reflexivity. cbn [snd].
  destruct (new_index_loop_spec (rev vP) (rev gsP) st Hi) as (st' & E' & Hi' & Hs').
  { unfold ghosts_of. rewrite !rev_alt. apply Forall2_reverse, Hb. }
  by exists st', i0, rest, vR, vP, g0, gsR, gsP.
Qed.

(** No block is above [new]. *)
Definition is_leaf (st : CBlockBase) (new : Z) : Prop := forall h i, cb_mapIndex st !! h = Some i -> bi_pPrev i <> Some new.

Lemma fork_chain_tail st o h l x :
  BlockFork.fork_chain st o h l -> x ∈ tail l -> exists y i, st !! y = Some i /\ bi_pPrev i = Some x.
Proof.
  induction 1 as [i|h i q l Hi Ho Hp Hq Hc IH]; cbn [tail]; [by intros ?%elem_of_nil|]. intros Hx.
  destruct (BlockFork.fork_chain_head _ _ _ _ Hc) as [l' ->]. apply elem_of_cons in Hx as [->|Hx]; [by eauto|]. by apply IH.
Qed.

(** The view of a fork is committed at a new block of the fork. *)
Lemma CommitBlockView_spec st view new i g F il gl :
  let f := bi_pOrigin i in
  inv st -> cb_mapIndex st !! new = Some i -> G !! new = Some g -> is_leaf st new ->
  cb_mapFork st !! f = Some F -> fork_at G st f (bf_pIndexLast F) il gl ->
  vw_hashFork view = f -> vw_spFork view = Some f -> vw_fCommittable view = true ->
  BlockView.view_of output_at (gh_utxo gl) (bv_mapUnspent (vw_view view)) (gh_utxo g) ->
  Forall (is_uint 256) (bv_vTxRemove (vw_view view)) ->
  exists st', BlockBase.CommitBlockView CryptoHash C kv_order io view i st = Return (st', inr tt) /\
    inv st' /\ moved_to C kd ty st st' f new F g.
Proof.
  intros f Hi Hn Hg Hleaf HF Hfa Hvf Hvs Hvc Hview Hids. pose proof Hfa as [Hl Hol Hgl Hcon Hact (lo & Hfc & Hnx)].
  pose proof (BlockTree.tr_key _ (bs_tree Hi) _ _ Hn) as Ek.
  destruct (GetTxNewIndex_spec st view new i f F il gl) as (st1 & i0 & rest & vR & vP & g0 & gsR & gsP & E1 & Hi1 & Hs1 & Hb); [done..|].
  pose proof Hs1 as [Sx Sf St (S1 & S2 & S3 & S4 & S5)].
  unfold BlockBase.CommitBlockView. fold f. rewrite Ek, Hvf, Z.eqb_refl, Hvc.
  erewrite bind_ok by reflexivity.
  erewrite bind_ok by exact E1. pose proof (BlockView.view_commit _ _ _ _ Hview) as Hcm.
  destruct (BlockView.GetUnspentChanges (vw_view view)) as [vAddNew vRemove]. cbn [fst snd] in Hcm.
  destruct (BlockDB.UpdateFork_spec C kv_order kv_order_perm kd io (cb_dbBlock st1) f new f (path_index (rev vP) (rev gsP))
    (BlockView.GetTxRemoved (vw_view view)) vAddNew vRemove (gh_utxo gl)) as (db' & E2 & Hok & D1 & D2 & D3 & D4 & D5 & D6).
  { done. }
  { apply Hi1. }
  { rewrite S4. apply elem_of_dom. rewrite <- (bs_forks Hi). by apply elem_of_dom. }
  { unfold BlockDB.start_content. rewrite S4. unfold fork_content in Hcon. by destruct (f =? 0). }
  { eapply path_index_ids; [exact Hi|]. unfold ghosts_of. rewrite !rev_alt. apply Forall2_reverse, Hb. }
  { unfold BlockView.GetTxRemoved. apply Forall_forall. intros x [? ?]%elem_of_List_filter. rewrite Forall_forall in Hids. by apply Hids. }
  erewrite bind_ok by (unfold BlockBase.db_call; rewrite E2; reflexivity).
  unfold BlockBase.UpdateLast. erewrite bind_ok by reflexivity. unfold BlockBase.UpdateNext. rewrite bind_gets. cbn [id cb_mapIndex BlockBase.set_mapFork BlockBase.set_dbBlock].
  destruct (BlockTree.tree_fork_chain _ (bs_tree Hi) _ _ Hn) as [ln Hln].
  destruct (BlockFork.UpdateNext_links (cb_mapIndex st) f (bf_pIndexLast F) new lo ln) as (mapIndex' & E3 & Hno & Hni); [done|done|done| |].
  { intros Hin. destruct (fork_chain_tail _ _ _ _ _ Hfc Hin) as (y & j & Hy & Hp). by apply (Hleaf y j). }
  rewrite Sx, E3. erewrite bind_ok by reflexivity. eexists. split; [reflexivity|].
  set (st' := BlockBase.set_mapIndex _ _).
  assert (Hmv : moved_to C kd ty st st' f new F g).
  { destruct (bs_fork Hi f F HF) as [Eo _].
    split; cbn; try done; try (rewrite ?D1, ?D2, ?D3; congruence).
    - exists ln. split; [|done]. by eapply BlockFork.next_only_chain.
    - rewrite Sf. apply map_eq. intros x. destruct (decide (x = f)) as [->|Hne].
      + by rewrite lookup_alter_eq, lookup_insert_eq, HF, <- Eo.
      + by rewrite lookup_alter_ne, lookup_insert_ne.
    - apply Hi1.
    - apply Hi1.
    - rewrite D4, S4, <- (bs_forks Hi). apply elem_of_dom_2 in HF. set_solver. }
  split; [|done]. by apply (moved_inv _ _ _ C kd k ty G st st' f new i F g).
Qed.
End commit.

End BaseCommit.
