(* ===== verification/BlockVerify.v ===== *)
(** * Verifying a block changes only caches

    [CWorldLine::VerifyBlock] reads indexes, blocks, votes and enrolments and
    fills the caches of the files, of the delegate table and of the world line.
    Whatever it returns, the invariant of the block base still holds and nothing
    but caches has changed. *)

From S2P Require Import Prelude RWLock Prog Cache Stream Destination Transaction Block Base.
From S2P Require Import Base25519 SC25519 Crypto Template Profile BlockIndex Core UnspentDB BlockView Chain BlockFork BlockTree.
From S2P Require Import TimeSeries CTSDB BlockStore BlockDB BlockBase WorldLine Ledger BaseInv.

Import CWalleveStream.

Module BlockVerify.

Import BlockStore BaseInv.

#[local] Existing Instance Destination.dest_lt_dec.

Section verify.
Context (CryptoHash : list Z -> Z) (universe : CTransaction -> Prop) (output_at : CTxOutPoint -> CTxOutput).
Context (C : codec (list (Z * CTxIndex))) (kd k : Z) (ty : Objects) (G : Ghosts).

Notation inv := (base_inv CryptoHash universe output_at C kd k ty G).
Notation reading := (reading CryptoHash universe output_at C kd k ty G).

(** ** The block base *)

Lemma keeps_read {A : Type} (m : prog CBlockBase unit A) st st' r :
  m st = Return (st', r) -> inv st' -> same_base st st' -> keeps reading st m.
Proof. intros E Hi Hs. eapply keeps_run; [done|]. by intros _. Qed.

Lemma GetIndex_keeps st h : keeps reading st (BlockBase.GetIndex h).
Proof. eapply keeps_run; [done|]. by intros ?. Qed.

(** A read of the delegate table *)
Lemma db_read_keeps {A : Type} st (f : CDelegateDB -> option A * CDelegateDB) :
  (forall d, DelegateDB.db_ok d -> DelegateDB.db_ok (f d).2 /\ dd_kv (f d).2 = dd_kv d) ->
  inv st ->
  exists st' r, BlockBase.db_read (fun db => let '(r, d) := f (db_dbDelegate db) in (r, BlockDB.set_dbDelegate db d)) st = Return (st', r) /\
    r = (match (f (db_dbDelegate (cb_dbBlock st))).1 with Some a => inr a | None => inl tt end) /\ inv st' /\ same_base st st'.
Proof.
  intros Hf Hi. destruct (bs_stores Hi) as [_ _ Hd _]. destruct (Hf _ Hd) as [Hd' Hk]. unfold BlockBase.db_read.
  destruct (f (db_dbDelegate (cb_dbBlock st))) as [r d'] eqn:E. cbn [fst snd] in *.
  eexists _, _. split; [reflexivity|]. split; [by destruct r|]. by apply set_delegate_inv.
Qed.

Lemma RetrieveVote_ok d h : DelegateDB.db_ok d ->
  DelegateDB.db_ok (DelegateDB.RetrieveDelegatedVote d h).2 /\ dd_kv (DelegateDB.RetrieveDelegatedVote d h).2 = dd_kv d.
Proof.
  intros Hd. unfold DelegateDB.RetrieveDelegatedVote. destruct (DelegateDB.RetrieveContext_spec d h Hd) as (_ & H1 & H2).
  by destruct (DelegateDB.Retrieve d h).
Qed.

Lemma RetrieveEnroll_ok d a range : DelegateDB.db_ok d ->
  (DelegateDB.db_ok (DelegateDB.RetrieveEnrollTx d a range).2 /\ dd_kv (DelegateDB.RetrieveEnrollTx d a range).2 = dd_kv d) /\
  forall m dest pos, (DelegateDB.RetrieveEnrollTx d a range).1 = Some m -> m !! dest = Some pos ->
    DelegateDB.first_enrolled (dd_kv d) a dest (rev range) = Some pos.
Proof.
  intros Hd. unfold DelegateDB.RetrieveEnrollTx. pose proof (DelegateDB.enroll_loop_spec a (rev range) d ∅ Hd) as H.
  destruct (DelegateDB.enroll_loop _ _ _ _) as [r d']. destruct H as (H1 & H2 & H3). split; [done|].
  cbn. intros m dest pos -> Hm. destruct H3 as [_ H3]. by rewrite H3, lookup_empty in Hm.
Qed.

Lemma first_enrolled_ok st a dest range pos :
  inv st -> DelegateDB.first_enrolled (dd_kv (db_dbDelegate (cb_dbBlock st))) a dest range = Some pos ->
  exists tx, object_at Tx.tx_codec ty pos tx.
Proof.
  intros Hi. induction range as [|h range IH]; cbn; [done|]. unfold DelegateDB.enrolled_at.
  destruct (dd_kv _ !! h) as [c|] eqn:Ec; cbn; [|done]. destruct (dc_mapEnrollTx c !! a) as [m|] eqn:Em; cbn; [|done].
  destruct (m !! dest) as [p|] eqn:Ep; [|done]. intros [= <-]. by apply (bs_enroll Hi h c Ec a m dest).
Qed.

Lemma avail_loop_keeps nRatio (m : gmap CDestination CDiskPos) votes acc st :
  inv st -> (forall dest pos, m !! dest = Some pos -> exists tx, object_at Tx.tx_codec ty pos tx) ->
  keeps reading st (BlockBase.avail_loop nRatio m votes acc).
Proof.
  intros Hi Hm. revert acc st Hi. induction votes as [|[dest nVote] votes IH]; intros acc st Hi; cbn [BlockBase.avail_loop].
  { apply keeps_ret, _. }
  destruct (m !! dest) as [pos|] eqn:Ep; [|by apply IH]. destruct (_ <=? _); [|by apply IH].
  destruct (Hm _ _ Ep) as [tx Htx].
  destruct (ts_read_object _ _ _ _ _ k ty G Tx.tx_codec pos tx Tx.SetNull true st Hi Htx) as (st1 & E1 & Hi1 & Hs1).
  apply keeps_bind; [apply _|by eapply keeps_read|]. intros s' a _ HR. destruct (HR Hi) as [Hi' _].
  apply keeps_bind; [apply _|auto with keeps typeclass_instances|]. intros s2 u _ HR2. destruct (HR2 Hi') as [Hi2 _]. by apply IH.
Qed.

Lemma RetrieveAvailDelegate_keeps st hash hashAnchor range nRatio :
  inv st -> keeps reading st (BlockBase.RetrieveAvailDelegate hash hashAnchor range nRatio).
Proof.
  intros Hi. unfold BlockBase.RetrieveAvailDelegate. apply keeps_bind; [apply _| |].
  { destruct (db_read_keeps st (fun d => DelegateDB.RetrieveDelegatedVote d hash)) as (st1 & r & E & _ & Hi1 & Hs1);
      [intros d; apply RetrieveVote_ok|done|]. by eapply keeps_read. }
  intros s1 mapVote _ HR1. destruct (HR1 Hi) as [Hi1 Hs1].
  destruct (db_read_keeps s1 (fun d => DelegateDB.RetrieveEnrollTx d hashAnchor range)) as (st2 & r & E & Er & Hi2 & Hs2);
    [intros d Hd; by apply RetrieveEnroll_ok|done|].
  apply keeps_bind; [apply _|by eapply keeps_read|]. intros s2 m Em HR2. destruct (HR2 Hi1) as [Hi2' _].
  apply avail_loop_keeps; [done|]. intros dest pos Hp. unfold BlockDB.RetrieveEnroll in Em. rewrite E in Em. injection Em as -> Em.
  destruct (bs_stores Hi1) as [_ _ Hd _]. destruct (RetrieveEnroll_ok _ hashAnchor range Hd) as [_ Hfe].
  rewrite Er in Em. destruct (DelegateDB.RetrieveEnrollTx _ _ _).1 as [m'|] eqn:Em'; [|done]. injection Em as ->.
  eapply first_enrolled_ok; [exact Hi1|]. by eapply Hfe.
Qed.

(** ** The world line *)

Definition wreading (wl wl' : CWorldLine) : Prop := reading (wl_cntrBlock wl) (wl_cntrBlock wl').

#[local] Instance wreading_preorder : PreOrder wreading.
Proof. split; [by intros wl H|]. intros w1 w2 w3 H1 H2. unfold wreading in *. by etrans. Qed.

Lemma base_keeps {E A : Type} (m : prog CBlockBase E A) wl :
  keeps reading (wl_cntrBlock wl) m -> keeps wreading wl (WorldLine.base m).
Proof.
  intros Hm wl' r. unfold WorldLine.base. destruct (m (wl_cntrBlock wl)) as [[st r0]| |] eqn:E0; [|done..].
  intros [= <- <-]. by apply (Hm _ _ E0).
Qed.

(** Assigning a cache *)
Lemma puts_keeps {E : Type} wl (f : CWorldLine -> CWorldLine) :
  wl_cntrBlock (f wl) = wl_cntrBlock wl -> keeps wreading wl (puts f : prog CWorldLine E unit).
Proof. intros Ef wl' r [= <- <-]. unfold wreading. by rewrite Ef. Qed.

Ltac step_keeps :=
  first [apply keeps_ret, _ | apply keeps_fail, _ | apply keeps_gets, _ | apply keeps_call, _ | apply keeps_check, _
        | apply keeps_deref, _ | apply keeps_found, _
        | apply keeps_bind; [apply _| |let s := fresh "s" in let a := fresh "a" in let H := fresh "Hrun" in let HR := fresh "HR" in
                                       intros s a H HR] ].

Context `{IDelegateVerify}.

Lemma GetBlockDelegateEnrolled_keeps wl hash : inv (wl_cntrBlock wl) -> keeps wreading wl (WorldLine.GetBlockDelegateEnrolled hash).
Proof.
  intros Hi. unfold WorldLine.GetBlockDelegateEnrolled. step_keeps; [step_keeps|].
  destruct (Cache.Retrieve _ _) as [e|]; [step_keeps|]. destruct (HR Hi) as [Hi1 _].
  step_keeps; [apply base_keeps, GetIndex_keeps|]. destruct (HR0 Hi1) as [Hi2 _]. cbv zeta.
  destruct (_ <? _); [step_keeps|]. step_keeps; [step_keeps|]. destruct (HR1 Hi2) as [Hi3 _].
  step_keeps; [by apply base_keeps, RetrieveAvailDelegate_keeps|]. step_keeps; [by apply puts_keeps|step_keeps].
Qed.

Lemma proof_agreement_keeps wl hash vchProof i : inv (wl_cntrBlock wl) -> keeps wreading wl (WorldLine.proof_agreement hash vchProof i).
Proof.
  intros Hi. unfold WorldLine.proof_agreement. step_keeps; [by apply GetBlockDelegateEnrolled_keeps|].
  step_keeps; [step_keeps|]. destruct a0 as [[nA nW] mB]. step_keeps; [step_keeps|]. cbv zeta.
  step_keeps; [by apply puts_keeps|step_keeps].
Qed.

(** A block whose index is there *)
Lemma RetrieveBlock_keeps st h i : inv st -> cb_mapIndex st !! h = Some i -> keeps reading st (BlockBase.RetrieveBlock i).
Proof.
  intros Hi Hh. destruct (bs_ghost Hi h i Hh) as (g & Hg & _).
  destruct (RetrieveBlock_spec _ _ _ _ _ k ty G st h i g Hi Hh Hg) as (st' & E & Hi' & Hs'). by eapply keeps_read.
Qed.

Lemma RetrieveIndex_found {E : Type} wl wl' h i (e : E) :
  or_fail (WorldLine.base (BlockBase.RetrieveIndex h)) e wl = Return (wl', inr i) \/
  WorldLine.base (BlockBase.RetrieveIndex h) wl = Return (wl', inr i) ->
  wl' = wl /\ cb_mapIndex (wl_cntrBlock wl) !! h = Some i.
Proof.
  unfold or_fail, WorldLine.base, BlockBase.RetrieveIndex, BlockBase.GetIndex.
  destruct (cb_mapIndex (wl_cntrBlock wl) !! h) as [j|]; intros [E0|E0]; try discriminate; injection E0 as <- <-; by destruct wl.
Qed.

Lemma GetBlockDelegateAgreement_keeps wl hash : inv (wl_cntrBlock wl) -> keeps wreading wl (WorldLine.GetBlockDelegateAgreement hash).
Proof.
  intros Hi. unfold WorldLine.GetBlockDelegateAgreement. step_keeps; [step_keeps|].
  destruct (Cache.Retrieve _ _) as [e|]; [step_keeps|]. destruct (HR Hi) as [Hi1 _].
  step_keeps; [apply base_keeps, GetIndex_keeps|]. destruct (HR0 Hi1) as [Hi2 _].
  destruct (RetrieveIndex_found _ _ _ _ tt (or_intror Hrun0)) as [-> Hidx].
  destruct (_ <? _); [step_keeps|]. step_keeps; [by eapply base_keeps, RetrieveBlock_keeps|]. destruct (HR1 Hi2) as [Hi3 _]. cbv zeta.
  step_keeps; [step_keeps|]. by apply proof_agreement_keeps, HR2.
Qed.

Lemma NewBlockDelegateAgreement_keeps wl hash block i :
  inv (wl_cntrBlock wl) -> keeps wreading wl (WorldLine.NewBlockDelegateAgreement hash block i).
Proof.
  intros Hi. unfold WorldLine.NewBlockDelegateAgreement. destruct (_ <? _); [step_keeps|].
  step_keeps; [step_keeps|]. destruct (HR Hi) as [Hi1 _]. step_keeps; [step_keeps|]. by apply proof_agreement_keeps, HR0.
Qed.

Lemma ok_or_keeps {A : Type} wl err (a : A) : keeps wreading wl (WorldLine.ok_or err a).
Proof. unfold WorldLine.ok_or. case_bool_decide; step_keeps. Qed.

Lemma VerifyBlock_keeps wl hash block h i :
  inv (wl_cntrBlock wl) -> cb_mapIndex (wl_cntrBlock wl) !! h = Some i ->
  keeps wreading wl (WorldLine.VerifyBlock CryptoHash hash block i).
Proof.
  intros Hi Hh. unfold WorldLine.VerifyBlock. destruct (Block.IsOrigin block); [step_keeps|].
  destruct (Block.IsPrimary block).
  { step_keeps; [step_keeps|]. step_keeps; [apply keeps_or_fail, NewBlockDelegateAgreement_keeps, HR, Hi|].
    step_keeps; [step_keeps|]. step_keeps; [step_keeps|]. apply ok_or_keeps. }
  destruct (negb (Block.IsVacant block)); [|step_keeps].
  step_keeps; [step_keeps|]. destruct (HR Hi) as [Hi1 Hs1]. step_keeps; [step_keeps|]. destruct a0 as [[nW nA] hashRef].
  destruct (HR0 Hi1) as [Hi2 Hs2]. step_keeps; [by apply keeps_or_fail, GetBlockDelegateAgreement_keeps|]. destruct (HR1 Hi2) as [Hi3 Hs3].
  step_keeps; [step_keeps|]. destruct (HR2 Hi3) as [Hi4 Hs4]. step_keeps; [apply keeps_or_fail, base_keeps, GetIndex_keeps|].
  destruct (HR3 Hi4) as [Hi5 Hs5]. step_keeps; [|destruct (Core.VerifySubsidiary _ _ _ _ _); apply ok_or_keeps].
  destruct (Block.IsExtended block); [|step_keeps].
  assert (Hh5 : cb_mapIndex (wl_cntrBlock s3) !! h = Some i).
  { rewrite (sb_index _ _ Hs5), (sb_index _ _ Hs4), (sb_index _ _ Hs3), (sb_index _ _ Hs2), (sb_index _ _ Hs1). done. }
  step_keeps; [by eapply keeps_or_fail, base_keeps, RetrieveBlock_keeps|]. step_keeps; [step_keeps|]. step_keeps; [step_keeps|].
  repeat case_match. step_keeps.
Qed.
End verify.

End BlockVerify.
