(* ===== verification/Accept.v ===== *)
(** * Accepting a block

    [CWorldLine::AddNewBlock] against its specification.  [decide_block] is the abstract
    decision about a block: it looks at the index, at the rules of the core
    protocol and at the ledger of the predecessor, and gives an error or the ghost
    of the block.  In a state that satisfies the invariant, on a disk that does
    not fail, [AddNewBlock] returns exactly what [decide_block] says; an error leaves all
    but caches as it was, and an accepted block extends the invariant and becomes
    the last of its fork if and only if it wins against the last one. *)

From S2P Require Import Prelude RWLock Prog Cache Stream Destination Transaction Block Base.
From S2P Require Import Base25519 SC25519 Crypto Template Profile BlockIndex Core UnspentDB BlockView Chain BlockFork BlockTree.
From S2P Require Import TimeSeries CTSDB BlockStore BlockDB BlockBase WorldLine Ledger BaseInv BaseView BaseAdd BaseCommit BlockVerify.

Import CWalleveStream.

Module Accept.

Import BlockStore BaseInv BaseView BaseAdd BaseCommit BlockVerify.

(** ** The blocks of an update *)

Section changes.
Context (CryptoHash : list Z -> Z) (universe : CTransaction -> Prop) (output_at : CTxOutPoint -> CTxOutput).
Context (C : codec (list (Z * CTxIndex))) (kd k : Z) (ty : Objects) (G : Ghosts).

Notation inv := (base_inv CryptoHash universe output_at C kd k ty G).

Lemma changes_loop_spec n new fork st va vr gsn gsf :
  inv st -> Chain.block_changes n new fork = Return (va, vr) -> ghosts_of G st new gsn -> ghosts_of G st fork gsf ->
  exists st' gsa gsr, WorldLine.changes_loop n new fork st = Return (st', inr (blocks gsa, blocks gsr)) /\
    ghosts_of G st va gsa /\ ghosts_of G st vr gsr /\ inv st' /\ same_base st st'.
Proof.
  revert new fork st va vr gsn gsf. induction n as [|n IH]; intros new fork st va vr gsn gsf Hi E Hn Hf;
    cbn [Chain.block_changes WorldLine.changes_loop] in *; (destruct (Chain.same_ptr new fork);
    [injection E as <- <-; exists st, [], []; split; [done|]; split; [constructor|]; split; [constructor|done]|]); [done|].
  destruct new as [|i new]; [done|]. inversion Hn as [|? g ? gsn' [Hx Hg] Hn']; subst. cbv zeta in *.
  destruct (_ <=? _).
  - destruct (Chain.block_changes n new fork) as [[va' vr']| |] eqn:E'; cbn in E; [|done..]. injection E as <- <-.
    destruct (RetrieveBlockEx_spec _ _ _ _ _ k ty G st _ i g Hi Hx Hg) as (st1 & E1 & Hi1 & Hs1).
    destruct (IH new fork st1 va' vr' gsn' gsf Hi1 E') as (st2 & gsa & gsr & E2 & Ha & Hr & Hi2 & Hs2); [by eapply ghosts_of_same..|].
    exists st2, (g :: gsa), gsr. erewrite bind_ok by exact E1. erewrite bind_ok by exact E2. split; [done|].
    assert (Es : forall l gs, ghosts_of G st1 l gs -> ghosts_of G st l gs) by (destruct Hs1 as [Es _ _ _]; intros l gs; unfold ghosts_of; by rewrite Es).
    split; [constructor; [done|by apply Es]|]. split; [by apply Es|]. split; [done|by etrans].
  - destruct fork as [|j fork]; [done|]. inversion Hf as [|? gj ? gsf' [Hxj Hgj] Hf']; subst.
    destruct (Chain.block_changes n (i :: new) fork) as [[va' vr']| |] eqn:E'; cbn in E; [|done..]. injection E as <- <-.
    destruct (RetrieveBlockEx_spec _ _ _ _ _ k ty G st _ j gj Hi Hxj Hgj) as (st1 & E1 & Hi1 & Hs1).
    destruct (IH (i :: new) fork st1 va' vr' (g :: gsn') gsf' Hi1 E') as (st2 & gsa & gsr & E2 & Ha & Hr & Hi2 & Hs2); [by eapply ghosts_of_same..|].
    exists st2, gsa, (gj :: gsr). erewrite bind_ok by exact E1. erewrite bind_ok by exact E2. split; [done|].
    assert (Es : forall l gs, ghosts_of G st1 l gs -> ghosts_of G st l gs) by (destruct Hs1 as [Es _ _ _]; intros l gs; unfold ghosts_of; by rewrite Es).
    split; [by apply Es|]. split; [constructor; [done|by apply Es]|]. split; [done|by etrans].
Qed.

(** The chains of two blocks of a fork from where they part, the last block first *)
Lemma GetBlockChanges_spec st new last i il :
  inv st -> cb_mapIndex st !! new = Some i -> cb_mapIndex st !! last = Some il -> bi_pOrigin i = bi_pOrigin il ->
  exists st' b va vr gsa gsr, WorldLine.GetBlockChanges new (Some last) st = Return (st', inr (blocks gsa, blocks gsr)) /\
    inv st' /\ same_base st st' /\
    BlockTree.root_chain (cb_mapIndex st) new (va ++ b) /\ BlockTree.root_chain (cb_mapIndex st) last (vr ++ b) /\
    ghosts_of G st va gsa /\ ghosts_of G st vr gsr.
Proof.
  intros Hi Hn Hl Ho. destruct (BlockTree.tree_changes _ (bs_tree Hi) _ _ _ _ Hn Hl Ho) as (b & va & vr & E & Hc & Hc').
  destruct (chain_ghosts _ _ _ _ _ _ _ _ st _ _ Hi Hc) as [gsn Hgn]. destruct (chain_ghosts _ _ _ _ _ _ _ _ st _ _ Hi Hc') as [gsf Hgf].
  pose proof (BlockTree.tr_key _ (bs_tree Hi)) as Hk. unfold Chain.GetBlockChanges in E.
  rewrite (BlockTree.ancestry_chain _ Hk _ _ Hc), (BlockTree.ancestry_chain _ Hk _ _ Hc') in E.
  destruct (changes_loop_spec _ _ _ st _ _ gsn gsf Hi E Hgn Hgf) as (st' & gsa & gsr & E' & Ha & Hr & Hi' & Hs').
  exists st', b, va, vr, gsa, gsr. unfold WorldLine.GetBlockChanges. rewrite bind_gets. cbn [id]. cbv zeta.
  rewrite (BlockTree.ancestry_chain _ Hk _ _ Hc), (BlockTree.ancestry_chain _ Hk _ _ Hc'). done.
Qed.

Lemma update_of_spec st h i i' :
  inv st -> cb_mapIndex st !! h = Some i' -> BlockFork.with_next None i' = BlockFork.with_next None i ->
  exists u, WorldLine.update_of st i = Some u /\ upd_hashFork u = bi_pOrigin i /\ upd_hashLastBlock u = bi_hash i /\
    upd_nLastBlockTime u = bi_nTimeStamp i /\ upd_nLastBlockHeight u = bi_nHeight i /\ upd_nMoneySupply u = bi_nMoneySupply i.
Proof.
  intros Hi Hh E. destruct (BlockTree.fork_root _ (bs_tree Hi) _ _ Hh) as (o & Ho & _). unfold WorldLine.update_of.
  apply BlockFork.with_next_fields in E as (_ & Eo & _). rewrite <- Eo, Ho.
  cbn [mbind option_bind]. destruct (bi_pPrev o) as [p|] eqn:Ep.
  - destruct (BlockTree.tr_chain _ (bs_tree Hi) _ _ Ho) as [l Hl]. inversion Hl as [? ? Hx Hnone|? ? q ? Hx Hq Hc]; subst; [congruence|].
    assert (p = q) as -> by congruence. destruct (BlockTree.root_chain_head _ _ _ Hc) as (j & l' & _ & Hj). rewrite Hj. cbn. by eexists.
  - by eexists.
Qed.
End changes.

(** ** The best block *)

Lemma best_leaf (mapIndex : Indexes) hash i f last il :
  mapIndex !! hash = None -> mapIndex !! last = Some il -> (bi_pOrigin i = f -> bi_nChainTrust i <= bi_nChainTrust il) ->
  best_at mapIndex f last -> best_at (<[hash := i]> mapIndex) f last.
Proof.
  intros Hnew Hl Hi Hb i' h j. rewrite lookup_insert_ne by congruence. intros Hi' Hj Ho. assert (i' = il) as -> by congruence.
  apply lookup_insert_Some in Hj as [[<- <-]|[_ Hj]]; [by apply Hi|]. by eapply Hb.
Qed.

Lemma best_new (mapIndex : Indexes) hash i f last il :
  mapIndex !! last = Some il -> bi_nChainTrust il <= bi_nChainTrust i ->
  best_at mapIndex f last -> best_at (<[hash := i]> mapIndex) f hash.
Proof.
  intros Hl Hi Hb i' h j. rewrite lookup_insert_eq. intros [= <-] Hj Ho.
  apply lookup_insert_Some in Hj as [[<- <-]|[_ Hj]]; [done|]. specialize (Hb il h j Hl Hj Ho). lia.
Qed.

Lemma best_next (st st' : Indexes) o f last : BlockFork.next_only o st st' -> best_at st f last -> best_at st' f last.
Proof.
  intros Hn Hb i' h j' Hi' Hj' Ho. destruct (BlockTree.next_only_back _ _ _ Hn _ _ Hi') as (i & Hi & Ei).
  destruct (BlockTree.next_only_back _ _ _ Hn _ _ Hj') as (j & Hj & Ej).
  apply BlockTree.with_next_fields_all in Ei as (_ & _ & _ & _ & _ & _ & Eti & _), Ej as (_ & Eo & _ & _ & _ & _ & Etj & _).
  rewrite Eti, Etj. apply (Hb i h j); congruence.
Qed.

(** ** The specification *)

Section accept.
Context (CryptoHash : list Z -> Z) (verify_detached : list Z -> list Z -> Z -> bool) `{IEdwards} (size_type : nat).
Context (base64dec : list Z -> option (list Z)) `{IDelegateVerify}.
Context (C : codec (list (Z * CTxIndex))) (kv_order : MapType -> list (CTxOutPoint * CTxOutput)) (pool_Exists : Z -> bool).
Context (nNetTime hashGenesisBlock : Z).

Notation txid := (Tx.GetHash CryptoHash).
Notation AddNewBlock io := (WorldLine.AddNewBlock CryptoHash verify_detached size_type base64dec C kv_order pool_Exists io true nNetTime hashGenesisBlock).

(** The decision about a block: an error, or the index of the predecessor and the
    ghost of the block *)
Definition decide_block (G : Ghosts) (wl : CWorldLine) (block : CBlock) : outcome (MvErr + CBlockIndex * Ghost) :=
  let hash := Block.GetHash CryptoHash block in
  let mapIndex := cb_mapIndex (wl_cntrBlock wl) in
  if BlockBase.Exists (wl_cntrBlock wl) hash then Return (inl MV_ERR_ALREADY_HAVE)
  else
    err ← Core.ValidateBlock CryptoHash verify_detached size_type base64dec nNetTime hashGenesisBlock block;
    if negb (bool_decide (err = MV_OK)) then Return (inl err)
    else
      match mapIndex !! b_hashPrev block, G !! b_hashPrev block with
      | Some p, Some gp =>
          r ← WorldLine.VerifyBlock CryptoHash hash block p wl;
          match r.2 with
          | inl err => Return (inl err)
          | inr nReward =>
              c ← Ledger.check_block CryptoHash verify_detached size_type pool_Exists (bi_nHeight p) nReward (gh_utxo gp) block;
              match c with
              | inl err => Return (inl err)
              | inr (m, cs) => Return (inr (p, mkGhost (mkBlockEx block cs) m (Ledger.block_ids CryptoHash block ∪ gh_ids gp)))
              end
          end
      | _, _ => Return (inl MV_ERR_SYS_STORAGE_ERROR)
      end.

(** A new block [i], with the chain [chain], against the last block of its fork *)
Definition wins (i il : CBlockIndex) (chain : list CBlockIndex) : bool :=
  (bi_nChainTrust il <? bi_nChainTrust i) || ((bi_nChainTrust il =? bi_nChainTrust i) && Chain.IsEquivalent chain (Some il)).

Context (universe : CTransaction -> Prop) (output_at : CTxOutPoint -> CTxOutput) (kd : Z).

Definition wl_inv (k : Z) (ty : Objects) (G : Ghosts) (wl : CWorldLine) : Prop :=
  base_inv CryptoHash universe output_at C kd k ty G (wl_cntrBlock wl) /\ best_ok (wl_cntrBlock wl) /\ open_ok (wl_cntrBlock wl).

(** Any block that can arrive: a value of its type, made of transactions that
    occur, with a hash that is not zero *)
Record offered (block : CBlock) : Prop := {
  of_valid : valid Block.block_codec block;
  of_universe : Forall universe (b_txMint block :: b_vtx block);
  of_hash : Block.GetHash CryptoHash block <> 0;
}.

(** Two conditions that the code relies on and does not check: the block is
    younger than the origin of its fork, and its mint transaction is new to its
    branch.  Without the first, the search for the common block of two branches
    runs past the origin ([Chain.branch_past_root]); without the second, one
    output stands for two mints ([Ledger.mint_twice]). *)
Record regular (G : Ghosts) (wl : CWorldLine) (block : CBlock) : Prop := {
  rg_time : forall p o, cb_mapIndex (wl_cntrBlock wl) !! b_hashPrev block = Some p ->
    cb_mapIndex (wl_cntrBlock wl) !! bi_pOrigin p = Some o -> BlockIndex.GetBlockTime o < b_nTimeStamp block;
  rg_mint : forall gp, G !! b_hashPrev block = Some gp -> Block.IsVacant block = false -> txid (b_txMint block) ∉ gh_ids gp;
}.

(** The block passes the checks that [AddNewBlock] makes before it looks at the
    transactions. *)
Definition checked (wl : CWorldLine) (block : CBlock) : Prop :=
  let hash := Block.GetHash CryptoHash block in
  cb_mapIndex (wl_cntrBlock wl) !! hash = None /\
  Core.ValidateBlock CryptoHash verify_detached size_type base64dec nNetTime hashGenesisBlock block = Return MV_OK /\
  exists p wl1 nReward, cb_mapIndex (wl_cntrBlock wl) !! b_hashPrev block = Some p /\
    WorldLine.VerifyBlock CryptoHash hash block p wl = Return (wl1, inr nReward).

(** The update for a fork that moved from [last] to the block of [i]: the blocks
    of the two chains down to where they part *)
Record update_ok (G : Ghosts) (st : CBlockBase) (i : CBlockIndex) (last : Z) (u : CWorldLineUpdate) : Prop := {
  uo_fork : upd_hashFork u = bi_pOrigin i;
  uo_last : upd_hashLastBlock u = bi_hash i;
  uo_time : upd_nLastBlockTime u = bi_nTimeStamp i;
  uo_height : upd_nLastBlockHeight u = bi_nHeight i;
  uo_supply : upd_nMoneySupply u = bi_nMoneySupply i;
  uo_blocks : exists b va vr gsa gsr,
    BlockTree.root_chain (cb_mapIndex st) (bi_hash i) (va ++ b) /\ BlockTree.root_chain (cb_mapIndex st) last (vr ++ b) /\
    ghosts_of G st va gsa /\ ghosts_of G st vr gsr /\ upd_vBlockAddNew u = blocks gsa /\ upd_vBlockRemove u = blocks gsr;
}.

(** What accepting the block above [p] does: the block is in the index, where
    otherwise only the next pointers of its fork change, and the fork moves to it
    if it wins. *)
Definition accepted (G : Ghosts) (wl wl' : CWorldLine) (block : CBlock) (p : CBlockIndex) (upd : option CWorldLineUpdate) : Prop :=
  let hash := Block.GetHash CryptoHash block in
  let st := wl_cntrBlock wl in let st' := wl_cntrBlock wl' in
  exists pos i F il,
    above hash block pos p i /\ BlockFork.next_only (bi_pOrigin p) (<[hash := i]> (cb_mapIndex st)) (cb_mapIndex st') /\
    cb_mapFork st !! bi_pOrigin p = Some F /\ cb_mapIndex st !! bf_pIndexLast F = Some il /\
    if wins i il (i :: Chain.ancestry (cb_mapIndex st) (Some (b_hashPrev block))) then
      cb_mapFork st' = <[bi_pOrigin p := mkBlockFork (bf_forkProfile F) hash (bi_pOrigin p)]> (cb_mapFork st) /\
      exists u, upd = Some u /\ update_ok G st' i (bf_pIndexLast F) u
    else cb_mapFork st' = cb_mapFork st /\ upd = None.

(** ** Transactions in the view *)

Context `{!Ledger.Naming CryptoHash universe output_at}.

Notation ledger_ok := (Ledger.ledger_ok CryptoHash universe output_at).
Notation view_of := (BlockView.view_of output_at).
Notation check_txs := (Ledger.check_txs CryptoHash verify_detached size_type pool_Exists).

(** The loop over the transactions of a block does on the view what [check_txs]
    does on the outputs the view stands for. *)
Lemma block_txs_spec p vtx view wl m0 m ids cs nTotalFee :
  (forall o, BlockBase.GetTxUnspent (wl_cntrBlock wl) (vw_hashFork view) o = m0 !! o) ->
  view_of m0 (bv_mapUnspent (vw_view view)) m -> ledger_ok m ids -> Forall (Ledger.spending universe) vtx ->
  let run := WorldLine.block_txs CryptoHash verify_detached size_type pool_Exists p vtx view cs nTotalFee wl in
  match check_txs (bi_nHeight p) vtx m cs nTotalFee with
  | Return (inl err) => run = Return (wl, inl err)
  | Return (inr (m', cs', nTotalFee')) => exists v', run = Return (wl, inr (WorldLine.set_view view v', cs', nTotalFee')) /\
      view_of m0 (bv_mapUnspent v') m' /\ bv_vTxRemove v' = bv_vTxRemove (vw_view view)
  | Throw x => run = Throw x
  | Undefined => run = Undefined
  end.
Proof.
  intros Hm0. revert view m ids cs nTotalFee Hm0. induction vtx as [|tx vtx IH]; intros view m ids cs nTotalFee Hm0 Hv Hl Hs; cbv zeta;
    cbn [Ledger.check_txs WorldLine.block_txs].
  { exists (vw_view view). split; [by destruct view|done]. }
  apply Forall_cons in Hs as [Htx Hs]. unfold WorldLine.getb. rewrite bind_gets.
  assert (Ec : WorldLine.GetTxContxt (BlockBase.view_RetrieveUnspent (wl_cntrBlock wl) view) tx = Ledger.contxt_in m tx).
  { apply Ledger.contxt_loop_ext. intros o. unfold BlockBase.view_RetrieveUnspent.
    rewrite <- (BlockView.view_Retrieve output_at m0 (vw_view view) m o Hv). unfold BlockView.RetrieveUnspent.
    destruct (bv_mapUnspent (vw_view view) !! o); [done|]. apply Hm0. }
  cbn [id]. rewrite Ec. destruct (Ledger.contxt_in m tx) as [err|c] eqn:Ecm; [done|].
  pose proof (Ledger.contxt_in_new CryptoHash universe output_at m ids Hl tx c Htx Ecm) as Hid.
  pose proof (Ledger.spending_applies CryptoHash universe output_at m ids Hl tx c Htx Ecm) as Ha.
  pose proof (Ledger.contxt_in_named CryptoHash universe output_at m ids Hl tx c (proj1 Htx) Ecm) as Hn.
  pose proof (BlockView.view_add output_at m0 (vw_view view) m _ Hn Ha Hv) as Hv'.
  pose proof (Ledger.ledger_apply CryptoHash universe output_at m ids Hl tx c (proj1 Htx) Hn Ha Hid) as Hl'.
  set (view' := WorldLine.set_view view (BlockView.AddTx (vw_view view) (txid tx) tx (ctx_destIn c) (Tx.contxt_GetValueIn c))).
  specialize (IH view' _ _ (cs ++ [c]) (i64 (nTotalFee + tx_nTxFee tx)) Hm0 Hv' Hl' Hs). cbv zeta in IH.
  unfold Ledger.verify_tx. destruct (pool_Exists (txid tx)); cbn [mbind outcome_bind].
  - rewrite bool_decide_true by done. exact IH.
  - destruct (Core.VerifyBlockTx _ _ _ _ _ _) as [err|x|]; cbn [mbind outcome_bind]; [|done..].
    assert (Eok : forall a, (err0 ← call (Return err); WorldLine.ok_or err0 tt) a = WorldLine.ok_or err tt a) by done.
    unfold WorldLine.ok_or in Eok. case_bool_decide as Ee.
    + by erewrite bind_ok by exact (Eok wl).
    + by erewrite bind_err by exact (Eok wl).
Qed.

(** ** Storing an accepted block *)

Context `{!CodecOk C} (kv_order_perm : forall m, kv_order m ≡ₚ map_to_list m) (io : DbIO) (Hio : BlockDB.disk_ok io).

Lemma base_ok {A : Type} (m : prog CBlockBase unit A) wl st' a (e : MvErr) :
  m (wl_cntrBlock wl) = Return (st', inr a) -> or_fail (WorldLine.base m) e wl = Return (WorldLine.set_cntrBlock wl st', inr a).
Proof. intros E. apply or_fail_ok. unfold WorldLine.base. by rewrite E. Qed.

Lemma worse_wins i il chain :
  (bi_nChainTrust i <? bi_nChainTrust il) || ((bi_nChainTrust il =? bi_nChainTrust i) && negb (Chain.IsEquivalent chain (Some il))) =
  negb (wins i il chain).
Proof.
  unfold wins. destruct (Chain.IsEquivalent chain (Some il)); cbn [negb]; rewrite ?andb_false_r, ?andb_true_r, ?orb_false_r;
    destruct (Z.ltb_spec (bi_nChainTrust i) (bi_nChainTrust il)), (Z.ltb_spec (bi_nChainTrust il) (bi_nChainTrust i)),
      (Z.eqb_spec (bi_nChainTrust il) (bi_nChainTrust i)); cbn; lia || done.
Qed.

(** A leaf above a block *)
Lemma ancestry_leaf st st' k ty G hash i q :
  base_inv CryptoHash universe output_at C kd k ty G st -> cb_mapIndex st' = <[hash := i]> (cb_mapIndex st) ->
  BlockTree.tree_ok (cb_mapIndex st') -> cb_mapIndex st !! hash = None -> bi_pPrev i = Some q -> is_Some (cb_mapIndex st !! q) ->
  Chain.ancestry (cb_mapIndex st') (Some hash) = i :: Chain.ancestry (cb_mapIndex st) (Some q).
Proof.
  intros Hi Ei Ht' Hnew Hq [j Hj]. destruct (BlockTree.tr_chain _ (bs_tree Hi) _ _ Hj) as [l Hl].
  rewrite (BlockTree.ancestry_chain _ (BlockTree.tr_key _ (bs_tree Hi)) _ _ Hl).
  apply (BlockTree.ancestry_chain _ (BlockTree.tr_key _ Ht')). rewrite Ei. eapply BlockTree.rc_prev; [apply lookup_insert_eq|done|].
  by apply BlockTree.root_chain_leaf.
Qed.

Section store.
Context (k : Z) (ty : Objects) (G : Ghosts) (wl : CWorldLine) (hash : Z) (g gp : Ghost) (p : CBlockIndex) (view : View).

Notation st := (wl_cntrBlock wl).
Notation block := (bex_block (gh_block g)).

(** The block, its predecessor and the view at the block *)
Record storable : Prop := {
  so_new : cb_mapIndex st !! hash = None;
  so_hash : hash <> 0;
  so_prev : cb_mapIndex st !! b_hashPrev block = Some p;
  so_ghost : G !! b_hashPrev block = Some gp;
  so_origin : Block.IsOrigin block = false;
  so_primary : Block.IsPrimary block = true -> BlockIndex.IsPrimary p = true /\ length (bex_vTxContxt (gh_block g)) = length (b_vtx block);
  so_time : forall o, cb_mapIndex st !! bi_pOrigin p = Some o -> BlockIndex.GetBlockTime o < b_nTimeStamp block;
  so_valid : valid Block.blockex_codec (gh_block g);
  so_size : Z.of_nat (length (save Block.blockex_codec (gh_block g))) < 2 ^ 22;
  so_ledger : ledger_ok (gh_utxo g) (gh_ids g);
  so_extends : ghost_extends CryptoHash output_at gp g;
  so_view : vw_hashFork view = bi_pOrigin p /\ vw_spFork view = Some (bi_pOrigin p) /\ vw_fCommittable view = true;
  so_ids : Forall (is_uint 256) (bv_vTxRemove (vw_view view));
  so_outputs : forall F il gl, cb_mapFork st !! bi_pOrigin p = Some F -> fork_at G st (bi_pOrigin p) (bf_pIndexLast F) il gl ->
    view_of (gh_utxo gl) (bv_mapUnspent (vw_view view)) (gh_utxo g);
}.

(** The new block has no successor. *)
Lemma leaf_is_leaf st' i :
  base_inv CryptoHash universe output_at C kd k ty G st -> storable -> cb_mapIndex st' = <[hash := i]> (cb_mapIndex st) ->
  bi_pPrev i = Some (b_hashPrev block) -> is_leaf st' hash.
Proof.
  intros Hi Hs Ei Hp h j. rewrite Ei. intros [[<- <-]|[_ Hj]]%lookup_insert_Some.
  - rewrite Hp. intros [= E]. pose proof (so_prev Hs) as Hp1. pose proof (so_new Hs) as Hp2. rewrite E in Hp1. congruence.
  - intros E. destruct (BlockTree.tr_chain _ (bs_tree Hi) _ _ Hj) as [l Hl]. inversion Hl as [? ? Hx Hn|? ? q ? Hx Hq Hc]; subst; [congruence|].
    destruct (BlockTree.root_chain_head _ _ _ Hc) as (y & ? & _ & Hy). pose proof (so_new Hs). congruence.
Qed.

Lemma open_leaf st1 ty' i :
  open_ok st -> storable -> with_leaf (k + 1) ty ty' st st1 hash i -> bi_pOrigin i = bi_pOrigin p -> open_ok st1.
Proof.
  intros Ho Hs Hw Eo h j. rewrite (wl_index _ _ _ _ _ _ _ Hw), (wl_fork _ _ _ _ _ _ _ Hw).
  intros [[<- <-]|[_ Hj]]%lookup_insert_Some; [rewrite Eo|]; eapply Ho; [apply Hs|exact Hj].
Qed.

(** The view is committed at the new block. *)
Lemma commit_new st1 ty' i pos F il gl :
  base_inv CryptoHash universe output_at C kd k ty G st -> storable -> with_leaf (k + 1) ty ty' st st1 hash i ->
  base_inv CryptoHash universe output_at C kd (k + 1) ty' (<[hash := g]> G) st1 -> above hash block pos p i ->
  cb_mapFork st !! bi_pOrigin p = Some F -> fork_at G st (bi_pOrigin p) (bf_pIndexLast F) il gl ->
  exists st2, BlockBase.CommitBlockView CryptoHash C kv_order io view i st1 = Return (st2, inr tt) /\
    base_inv CryptoHash universe output_at C kd (k + 1) ty' (<[hash := g]> G) st2 /\ moved_to C kd ty' st1 st2 (bi_pOrigin i) hash F g.
Proof.
  intros Hi Hs Hw Hi1 Hab HF Hfa. pose proof Hs as [S1 S2 S3 S4 S5 S6 S7 S8 S9 S10 S11 (S12 & S13 & S14) S15 S16].
  pose proof (wl_index _ _ _ _ _ _ _ Hw) as Ei. pose proof (wl_fork _ _ _ _ _ _ _ Hw) as Ef.
  assert (Hio1 : bi_pOrigin i = bi_pOrigin p) by (by rewrite (av_origin _ _ _ _ _ Hab), S5).
  apply (CommitBlockView_spec CryptoHash universe output_at C kv_order kv_order_perm kd (k + 1) ty' (<[hash := g]> G) io Hio st1 view hash i g F il gl).
  - done.
  - by rewrite Ei, lookup_insert_eq.
  - by rewrite lookup_insert_eq.
  - apply (leaf_is_leaf st1 i); [done|done|done|apply Hab].
  - by rewrite Hio1, Ef.
  - rewrite Hio1. destruct Hw as [_ _ _ _ _ _ (D1 & _ & D3) _ _ _ _ _]. eapply fork_at_leaf; [exact S1|apply Hab|done|done|done|done].
  - by rewrite Hio1.
  - by rewrite Hio1.
  - done.
  - by eapply S16.
  - done.
Qed.

Lemma best_moved st1 st2 ty' i F il gl :
  wl_inv k ty G wl -> storable -> with_leaf (k + 1) ty ty' st st1 hash i -> bi_pOrigin i = bi_pOrigin p ->
  cb_mapFork st !! bi_pOrigin p = Some F -> fork_at G st (bi_pOrigin p) (bf_pIndexLast F) il gl ->
  bi_nChainTrust il <= bi_nChainTrust i -> moved_to C kd ty' st1 st2 (bi_pOrigin i) hash F g -> best_ok st2.
Proof.
  intros (Hi & Hbest & _) Hs Hw Ho HF Hfa Hle Hmv f F' HF'. pose proof (so_new Hs) as Hnew.
  pose proof (wl_index _ _ _ _ _ _ _ Hw) as Ei. pose proof (wl_fork _ _ _ _ _ _ _ Hw) as Ef.
  rewrite (mv_fork _ _ _ _ _ _ _ _ _ Hmv) in HF'. eapply best_next; [by apply (mv_index _ _ _ _ _ _ _ _ _ Hmv)|]. rewrite Ei.
  apply lookup_insert_Some in HF' as [[<- <-]|[Hne HF']].
  - cbn. rewrite Ho. eapply best_new; [by apply Hfa|done|by apply Hbest].
  - rewrite Ef in HF'. destruct (bs_fork Hi _ _ HF') as (_ & il' & gl' & Hfa').
    eapply best_leaf; [done|by apply Hfa'|done|by apply Hbest].
Qed.

Lemma StoreBlock_spec :
  wl_inv k ty G wl -> k + 1 < 2 ^ 32 -> storable -> Block.GetHash CryptoHash block = hash ->
  exists wl' upd ty',
    WorldLine.StoreBlock CryptoHash C kv_order io true hash (gh_block g) view wl = Return (wl', inr upd) /\
    wl_inv (k + 1) ty' (<[hash := g]> G) wl' /\ accepted (<[hash := g]> G) wl wl' block p upd.
Proof.
  intros (Hi & Hbest & Hopen) Hk Hs Ehash. pose proof Hs as [S1 S2 S3 S4 S5 S6 S7 S8 S9 S10 S11 (S12 & S13 & S14) S15 S16].
  destruct (AddNew_spec CryptoHash io Hio universe output_at C kd k ty G st hash g p gp) as (i & pos & ty' & st1 & E1 & Hab & Hw & Hi1); [done..|].
  pose proof (wl_index _ _ _ _ _ _ _ Hw) as Ei. pose proof (wl_fork _ _ _ _ _ _ _ Hw) as Ef.
  destruct (Hopen _ _ S3) as [F HF]. destruct (bs_fork Hi _ _ HF) as (Eo & il & gl & Hfa).
  assert (Hio1 : bi_pOrigin i = bi_pOrigin p) by (by rewrite (av_origin _ _ _ _ _ Hab), S5). pose proof (fa_index _ _ _ _ _ _ Hfa) as Hil.
  assert (Hne : bf_pIndexLast F <> hash) by congruence.
  assert (Hil1 : cb_mapIndex st1 !! bf_pIndexLast F = Some il) by (by rewrite Ei, lookup_insert_ne).
  assert (Hn1 : cb_mapIndex st1 !! hash = Some i) by (by rewrite Ei, lookup_insert_eq).
  unfold WorldLine.StoreBlock. erewrite bind_ok by (by apply base_ok, E1). erewrite bind_ok by reflexivity. cbn [id wl_cntrBlock WorldLine.set_cntrBlock].
  rewrite Ef, Hio1, HF. erewrite bind_ok by (erewrite bind_ok by (by rewrite Hil1); reflexivity). cbv zeta beta.
  rewrite (ancestry_leaf st st1 k ty G hash i (b_hashPrev block)); [|done|done|apply Hi1|done|apply Hab|by eexists].
  rewrite worse_wins. destruct (wins i il _) eqn:Ewin; cbn [negb].
  - destruct (commit_new st1 ty' i pos F il gl Hi Hs Hw Hi1 Hab HF Hfa) as (st2 & E2 & Hi2 & Hmv).
    destruct (BlockFork.next_only_lookup _ _ _ _ _ (mv_index _ _ _ _ _ _ _ _ _ Hmv) Hn1) as (i' & Hi' & En).
    destruct (BlockFork.next_only_lookup _ _ _ _ _ (mv_index _ _ _ _ _ _ _ _ _ Hmv) Hil1) as (il' & Hil' & Enl).
    destruct (update_of_spec _ _ _ _ _ _ _ _ st2 hash i i' Hi2 Hi' En) as (u & Eu & U1 & U2 & U3 & U4 & U5).
    pose proof (BlockTree.tr_key _ (bs_tree Hi) _ _ Hil) as Ekl.
    destruct (GetBlockChanges_spec _ _ _ _ _ _ _ _ st2 hash (bf_pIndexLast F) i' il' Hi2 Hi' Hil') as (st3 & b & va & vr & gsa & gsr & E3 & Hi3 & Hs3 & Hc & Hc' & Hga & Hgr).
    { apply BlockFork.with_next_fields in En as (_ & -> & _), Enl as (_ & -> & _). rewrite Hio1. symmetry. apply Hfa. }
    erewrite bind_ok by (by apply base_ok, E2). erewrite bind_ok by reflexivity. cbn [id wl_cntrBlock WorldLine.set_cntrBlock].
    rewrite Eu. erewrite bind_ok by reflexivity. cbn [fmap option_fmap option_map]. rewrite Ekl.
    erewrite bind_ok by (by apply base_ok, E3). eexists _, _, ty'. split; [reflexivity|]. split.
    + split; [done|]. split; [|apply (same_base_open st2); [done|eapply moved_open; [|exact Hmv]; intros h j Hj _; by eapply (open_leaf st1 ty' i)]].
      apply (same_base_best st2); [done|]. apply (best_moved st1 st2 ty' i F il gl); [by split|done|done|done|done|done| |done]. unfold wins in Ewin. apply orb_true_iff in Ewin as [Ew%Z.ltb_lt|[Ew%Z.eqb_eq _]%andb_true_iff]; lia.
    + exists pos, i, F, il. rewrite Ehash, Ewin. cbn [wl_cntrBlock WorldLine.set_cntrBlock]. destruct Hs3 as [X1 X2 _ _]. rewrite X1, X2.
      split; [done|]. split; [rewrite <- Ei, <- Hio1; apply Hmv|]. split; [done|]. split; [done|]. split; [by rewrite (mv_fork _ _ _ _ _ _ _ _ _ Hmv), Ef, Hio1|].
      eexists. split; [reflexivity|]. assert (Ehi : bi_hash i = hash) by apply Hab.
      split; cbn; [done..|]. exists b, va, vr, gsa, gsr. rewrite X1, Ehi. unfold ghosts_of in *. rewrite X1. done.
  - eexists _, None, ty'. split; [reflexivity|]. split.
    + split; [done|]. split; [|by eapply open_leaf]. cbn. intros f F' HF'. rewrite Ef in HF'. rewrite Ei. destruct (bs_fork Hi _ _ HF') as (_ & il' & gl' & Hfa').
      eapply best_leaf; [done|by apply Hfa'| |by apply Hbest]. intros E. rewrite Hio1 in E. subst f.
      assert (F' = F) as -> by congruence. pose proof (fa_index _ _ _ _ _ _ Hfa'). assert (il' = il) as -> by congruence.
      unfold wins in Ewin. apply orb_false_iff in Ewin as [Ew _]. apply Z.ltb_ge in Ew. done.
    + exists pos, i, F, il. rewrite Ehash, Ewin. split; [done|]. cbn. rewrite Ei. split; [apply BlockFork.next_only_refl|]. done.
Qed.
End store.

(** ** The whole of AddNewBlock *)

(** What [VerifyBlock] lets through *)
Lemma VerifyBlock_kind hash block p wl wl1 nReward :
  WorldLine.VerifyBlock CryptoHash hash block p wl = Return (wl1, inr nReward) ->
  Block.IsOrigin block = false /\ (Block.IsPrimary block = true -> BlockIndex.IsPrimary p = true).
Proof.
  unfold WorldLine.VerifyBlock. destruct (Block.IsOrigin block); [done|]. destruct (Block.IsPrimary block); [|done].
  destruct (BlockIndex.IsPrimary p); done.
Qed.

(** The view after the transactions of the block *)
Lemma block_view_spec k ty G wl block p gp F il gl :
  base_inv CryptoHash universe output_at C kd k ty G (wl_cntrBlock wl) ->
  cb_mapIndex (wl_cntrBlock wl) !! b_hashPrev block = Some p -> G !! b_hashPrev block = Some gp ->
  cb_mapFork (wl_cntrBlock wl) !! bi_pOrigin p = Some F -> fork_at G (wl_cntrBlock wl) (bi_pOrigin p) (bf_pIndexLast F) il gl ->
  Ledger.block_ok universe block -> Block.IsOrigin block = false ->
  (Block.IsVacant block = false -> txid (b_txMint block) ∉ gh_ids gp) ->
  exists st' view,
    let m := Ledger.after_mint CryptoHash (gh_utxo gp) block in
    BlockBase.GetBlockView CryptoHash (b_hashPrev block) (negb (Block.IsOrigin block)) (wl_cntrBlock wl) = Return (st', inr view) /\
    base_inv CryptoHash universe output_at C kd k ty G st' /\ same_base (wl_cntrBlock wl) st' /\
    vw_hashFork view = bi_pOrigin p /\ vw_spFork view = Some (bi_pOrigin p) /\ vw_fCommittable view = true /\
    Forall (is_uint 256) (bv_vTxRemove (vw_view view)) /\
    view_of (gh_utxo gl) (bv_mapUnspent (vw_view (if Block.IsVacant block then view
      else WorldLine.set_view view (BlockView.AddTx (vw_view view) (txid (b_txMint block)) (b_txMint block) Destination.SetNull 0)))) m /\
    exists ids, ledger_ok m ids.
Proof.
  intros Hi Hp Hgp HF Hfa [O1 O2 O3 O4] Ho Hmint.
  destruct (GetBlockView_spec CryptoHash universe output_at C kd k ty G (wl_cntrBlock wl) (b_hashPrev block) p gp F il gl true)
    as (st' & i0 & rest & vR & vP & g0 & gsR & gsP & E & Hi' & Hs' & Hb); [done..|].
  destruct (index_stored _ _ _ _ _ _ _ _ _ _ _ _ Hi Hp Hgp) as [_ Hl].
  pose proof (branch_view _ _ _ _ _ _ _ _ _ _ _ _ _ _ _ _ _ _ _ _ Hi Hb (fa_ghost _ _ _ _ _ _ Hfa) Hgp) as Hv.
  exists st'. eexists. rewrite Ho. split; [exact E|]. split; [done|]. split; [done|]. cbn [vw_hashFork vw_spFork vw_fCommittable vw_view].
  split; [done|]. split; [done|]. split; [done|]. split.
  { apply reorg_ids. apply Forall_rev. eapply ghosts_valid; [exact Hi|apply Hb]. }
  unfold Ledger.after_mint. destruct (Block.IsVacant block) eqn:Ev; [by eauto|]. cbn [vw_view WorldLine.set_view].
  pose proof (Ledger.mint_applies CryptoHash universe output_at _ _ Hl _ O2 (Hmint eq_refl)) as Ha.
  pose proof (Ledger.mint_named CryptoHash universe output_at _ O1 O2) as Hn.
  split; [exact (BlockView.view_add output_at _ _ _ _ Hn Ha Hv)|]. exists ({[txid (b_txMint block)]} ∪ gh_ids gp). apply Ledger.ledger_apply; [done..|by apply Hmint].
Qed.

(** Everything after [VerifyBlock] *)
Lemma accept_rest k ty G wl0 wl block p gp nReward :
  let hash := Block.GetHash CryptoHash block in
  let run := (view ← or_fail (WorldLine.base (BlockBase.GetBlockView CryptoHash (b_hashPrev block) (negb (Block.IsOrigin block)))) MV_ERR_SYS_STORAGE_ERROR;
    let mint := b_txMint block in
    let view := if Block.IsVacant block then view
      else WorldLine.set_view view (BlockView.AddTx (vw_view view) (txid mint) mint Destination.SetNull 0) in
    r ← WorldLine.block_txs CryptoHash verify_detached size_type pool_Exists p (b_vtx block) view [] 0;
    let '(view, vTxContxt, nTotalFee) := r in
    check (tx_nAmount mint <=? i64 (nTotalFee + nReward)) MV_ERR_BLOCK_TRANSACTIONS_INVALID;;
    WorldLine.StoreBlock CryptoHash C kv_order io true hash (mkBlockEx block vTxContxt) view) wl in
  wl_inv k ty G wl -> k + 1 < 2 ^ 32 -> offered block -> regular G wl block -> cb_mapIndex (wl_cntrBlock wl) !! hash = None ->
  Core.ValidateBlock CryptoHash verify_detached size_type base64dec nNetTime hashGenesisBlock block = Return MV_OK ->
  cb_mapIndex (wl_cntrBlock wl) !! b_hashPrev block = Some p -> G !! b_hashPrev block = Some gp ->
  WorldLine.VerifyBlock CryptoHash hash block p wl0 = Return (wl, inr nReward) ->
  match Ledger.check_block CryptoHash verify_detached size_type pool_Exists (bi_nHeight p) nReward (gh_utxo gp) block with
  | Return (inl err) => exists wl', run = Return (wl', inl err) /\ wl_inv k ty G wl' /\ same_base (wl_cntrBlock wl) (wl_cntrBlock wl')
  | Return (inr (m, cs)) => exists wl' upd ty',
      let g := mkGhost (mkBlockEx block cs) m (Ledger.block_ids CryptoHash block ∪ gh_ids gp) in
      run = Return (wl', inr upd) /\ wl_inv (k + 1) ty' (<[hash := g]> G) wl' /\ accepted (<[hash := g]> G) wl wl' block p upd
  | _ => False
  end.
Proof.
  intros hash run (Hi & Hbest & Hopen) Hk [A1 A2 A3] [A4 A5] Hnew Hval Hp Hgp Hver. subst run.
  destruct (VerifyBlock_kind _ _ _ _ _ _ Hver) as [Ho Hpr].
  pose proof (Ledger.validated_block_ok CryptoHash universe verify_detached size_type base64dec nNetTime hashGenesisBlock block Hval A2) as Hbo.
  destruct (Hopen _ _ Hp) as [F HF]. destruct (bs_fork Hi _ _ HF) as (_ & il & gl & Hfa).
  destruct (block_view_spec k ty G wl block p gp F il gl) as (st1 & view & E1 & Hi1 & Hs1 & V1 & V2 & V3 & V4 & V5 & ids & Hl); [done..|by apply A5|].
  erewrite bind_ok by (by apply base_ok, E1). cbv zeta. unfold Ledger.check_block.
  set (m1 := Ledger.after_mint _ _ _) in *. set (wl1 := WorldLine.set_cntrBlock wl st1). set (view1 := if Block.IsVacant block then view else _) in *.
  assert (HV : vw_hashFork view1 = bi_pOrigin p /\ vw_spFork view1 = Some (bi_pOrigin p) /\ vw_fCommittable view1 = true /\
    bv_vTxRemove (vw_view view1) = bv_vTxRemove (vw_view view)) by (subst view1; by destruct (Block.IsVacant block)).
  destruct HV as (W1 & W2 & W3 & W4). assert (Hwl1 : wl_inv k ty G wl1) by (split; [done|split; [by apply (same_base_best (wl_cntrBlock wl))|by apply (same_base_open (wl_cntrBlock wl))]]).
  pose proof (block_txs_spec p (b_vtx block) view1 wl1 (gh_utxo gl) m1 ids [] 0) as Hbt.
  destruct (Ledger.check_txs_returns CryptoHash verify_detached size_type pool_Exists (bi_nHeight p) (b_vtx block) m1 [] 0) as [r Er].
  rewrite Er in Hbt |- *. cbn [mbind outcome_bind].
  assert (Hun : forall o, BlockBase.GetTxUnspent (wl_cntrBlock wl1) (vw_hashFork view1) o = gh_utxo gl !! o).
  { intros o. rewrite W1. unfold BlockBase.GetTxUnspent, BlockDB.RetrieveTxUnspent. rewrite UnspentDB.Retrieve_contents by apply (bs_stores Hi1).
    cbn [wl_cntrBlock wl1 WorldLine.set_cntrBlock]. destruct Hs1 as [_ _ _ (_ & _ & _ & -> & _)].
    pose proof (fa_content _ _ _ _ _ _ Hfa) as Hc. unfold fork_content in Hc. by rewrite Hc. }
  specialize (Hbt Hun V5 Hl (Ledger.bo_vtx _ _ Hbo)). cbv zeta in Hbt. destruct r as [err|[[m cs] nFee]].
  { exists wl1. erewrite bind_err by exact Hbt. done. }
  destruct Hbt as (v' & Ebt & Hv' & Hrem). erewrite bind_ok by exact Ebt. cbv beta iota.
  destruct (tx_nAmount (b_txMint block) <=? i64 (nFee + nReward)) eqn:Efee; cbn [check].
  2: { exists wl1. erewrite bind_err by reflexivity. done. }
  erewrite bind_ok by reflexivity.
  destruct (Ledger.check_block_spec CryptoHash universe output_at verify_detached size_type pool_Exists (bi_nHeight p) nReward (gh_utxo gp) (gh_ids gp) block m cs)
    as (Hfit & Hex & Hl'); [by destruct (index_stored _ _ _ _ _ _ _ _ _ _ _ _ Hi Hp Hgp)|done|by apply A5| |].
  { unfold Ledger.check_block. fold m1. rewrite Er. cbn [mbind outcome_bind]. by rewrite Efee. }
  destruct (Ledger.blockex_fits block cs A1) as [Hvx Hsz]; [by apply (Ledger.validated_size CryptoHash verify_detached size_type base64dec nNetTime hashGenesisBlock)|done|].
  set (g := mkGhost (mkBlockEx block cs) m (Ledger.block_ids CryptoHash block ∪ gh_ids gp)).
  destruct (StoreBlock_spec k ty G wl1 hash g gp p (WorldLine.set_view view1 v')) as (wl' & upd & ty' & E & Hinv & Hacc); [done|done| |done|].
  - destruct Hs1 as [X1 X2 _ (X3 & _ & _ & X4 & _)]. split; cbn; rewrite ?X1; try done.
    + intros Hprim. split; [by apply Hpr|]. symmetry. by eapply Forall2_length.
    + intros o. by apply A4.
    + by rewrite Hrem, W4.
    + intros F' il' gl' HF' Hfa'. rewrite X2 in HF'. assert (F' = F) as -> by congruence.
      pose proof (fa_ghost _ _ _ _ _ _ Hfa'). pose proof (fa_ghost _ _ _ _ _ _ Hfa). assert (gl' = gl) as -> by congruence. done.
  - exists wl', upd, ty'. split; [done|]. split; [done|]. destruct Hs1 as [X1 X2 _ _]. unfold accepted in *. cbn in Hacc |- *.
    by rewrite X1, X2 in Hacc.
Qed.

Lemma RetrieveIndex_run h wl (e : MvErr) :
  or_fail (WorldLine.base (BlockBase.RetrieveIndex h)) e wl =
  Return (wl, match cb_mapIndex (wl_cntrBlock wl) !! h with Some i => inr i | None => inl e end).
Proof.
  unfold or_fail, WorldLine.base, BlockBase.RetrieveIndex, BlockBase.GetIndex. destruct wl as [st ce ca]. cbn.
  by destruct (cb_mapIndex st !! h).
Qed.

(** What [AddNewBlock] returns from [wl], given the decision *)
Definition block_result (k : Z) (ty : Objects) (G : Ghosts) (wl : CWorldLine) (block : CBlock)
    (run : outcome (CWorldLine * (MvErr + option CWorldLineUpdate))) : Prop :=
  match decide_block G wl block with
  | Return (inl err) => exists wl', run = Return (wl', inl err) /\ wl_inv k ty G wl' /\ same_base (wl_cntrBlock wl) (wl_cntrBlock wl')
  | Return (inr (p, g)) => exists wl' upd ty', let G' := <[Block.GetHash CryptoHash block := g]> G in
      run = Return (wl', inr upd) /\ wl_inv (k + 1) ty' G' wl' /\ accepted G' wl wl' block p upd
  | Throw x => run = Throw x
  | Undefined => run = Undefined
  end.

Lemma AddNewBlock_result (k : Z) (ty : Objects) (G : Ghosts) (wl : CWorldLine) (block : CBlock) :
  wl_inv k ty G wl -> k + 1 < 2 ^ 32 -> offered block -> (checked wl block -> regular G wl block) ->
  block_result k ty G wl block (AddNewBlock io block wl).
Proof.
  intros Hwl Hk Hoff Hreg. pose proof Hwl as (Hi & Hbest & Hopen). unfold block_result, decide_block, WorldLine.AddNewBlock. cbv zeta. set (hash := Block.GetHash CryptoHash block).
  erewrite bind_ok by reflexivity. cbn [id]. destruct (BlockBase.Exists (wl_cntrBlock wl) hash) eqn:Ex; cbn [negb check].
  { exists wl. by erewrite bind_err by reflexivity. }
  unfold BlockBase.Exists in Ex. apply bool_decide_eq_false in Ex. apply eq_None_not_Some in Ex. erewrite bind_ok by reflexivity.
  destruct (Core.ValidateBlock_rules CryptoHash verify_detached size_type base64dec nNetTime hashGenesisBlock block) as [[err Ev] _].
  rewrite Ev. erewrite bind_ok by reflexivity. cbn [mbind outcome_bind]. unfold WorldLine.ok_or. case_bool_decide as Ee; cbn [negb].
  2: { exists wl. by erewrite bind_err by reflexivity. }
  subst err. erewrite bind_ok by reflexivity.
  pose proof (RetrieveIndex_run (b_hashPrev block) wl MV_ERR_SYS_STORAGE_ERROR) as Eri.
  destruct (cb_mapIndex (wl_cntrBlock wl) !! b_hashPrev block) as [p|] eqn:Ep.
  2: { exists wl. by erewrite bind_err by exact Eri. }
  destruct (bs_ghost Hi _ _ Ep) as (gp & Hgp & _). rewrite Hgp.
  erewrite bind_ok by exact Eri. pose proof (VerifyBlock_keeps CryptoHash universe output_at C kd k ty G wl hash block _ p Hi Ep) as Hkeep.
  destruct (WorldLine.VerifyBlock CryptoHash hash block p wl) as [[wl1 r]|x|] eqn:Ever; cbn [mbind outcome_bind].
  2: { by erewrite bind_throw by exact Ever. }
  2: { by erewrite bind_stuck by exact Ever. }
  destruct (Hkeep _ _ Ever Hi) as [Hi1 Hs1].
  assert (Hwl1 : wl_inv k ty G wl1) by (split; [done|split; [by apply (same_base_best (wl_cntrBlock wl))|by apply (same_base_open (wl_cntrBlock wl))]]).
  destruct r as [err|nReward]; cbn [snd]; [exists wl1; by erewrite bind_err by exact Ever|]. erewrite bind_ok by exact Ever.
  destruct Hs1 as [X1 X2 X3 X4]. pose proof (accept_rest k ty G wl wl1 block p gp nReward) as Hrest. cbv zeta in Hrest.
  rewrite X1 in Hrest. specialize (Hrest Hwl1 Hk Hoff). destruct Hreg as [A4 A5]; [split; [done|]; split; [done|]; by exists p, wl1, nReward|].
  specialize (Hrest ltac:(split; rewrite ?X1; done) Ex Ev Ep Hgp Ever).
  destruct (Ledger.check_block _ _ _ _ _ _ _ _) as [[err|[m cs]]| |]; [| |done..]; cbn [mbind outcome_bind].
  - destruct Hrest as (wl' & E & Hinv & Hs). exists wl'. split; [exact E|]. split; [done|]. etrans; [|done]. by split.
  - destruct Hrest as (wl' & upd & ty' & E & Hinv & Hacc). exists wl', upd, ty'. split; [exact E|]. split; [done|].
    unfold accepted in *. by rewrite X1, X2 in Hacc.
Qed.
End accept.

End Accept.
