(* ===== verification/BaseFork.v ===== *)
(** * Opening a fork

    A fork begins with its origin: the block is put in the index, its databases
    are opened, filled with the outputs the fork starts from and its own, and the
    fork object appears.  [CommitBlockView] does this for an origin above a block
    of another fork, and [Initiate] for the genesis block.  In between the
    invariant holds without the fork; [pending] says which fork is missing. *)

From S2P Require Import Prelude RWLock Prog Cache Stream Destination Transaction Block Base.
From S2P Require Import Base25519 SC25519 Crypto Template Profile BlockIndex Core UnspentDB BlockView Chain BlockFork BlockTree.
From S2P Require Import TimeSeries CTSDB BlockStore BlockDB BlockBase WorldLine Ledger BaseInv BaseView BaseAdd BaseCommit.

Import CWalleveStream.

Module BaseFork.

Import BlockStore BaseInv BaseView BaseAdd BaseCommit.

Lemma UpdateNext_origin (st : Indexes) h i :
  st !! h = Some i -> BlockIndex.IsOrigin i = true -> bi_pNext i = None -> BlockFork.UpdateNext st h = Return st.
Proof.
  intros Hi Ho Hn. unfold BlockFork.UpdateNext, BlockFork.set_next.
  assert (E : alter (BlockFork.with_next None) h st = st).
  { apply map_eq. intros x. destruct (decide (h = x)) as [<-|?]; [|by rewrite lookup_alter_ne].
    rewrite lookup_alter_eq, Hi. cbn. f_equal. destruct i. cbn in *. by subst. }
  rewrite E. destruct (size st) eqn:Es; [apply map_size_empty_inv in Es; subst; done|]. cbn. by rewrite Hi, Ho.
Qed.

Section fork.
Context (CryptoHash : list Z -> Z) (universe : CTransaction -> Prop) (output_at : CTxOutPoint -> CTxOutput).
Context (C : codec (list (Z * CTxIndex))) `{!CodecOk C} (kv_order : MapType -> list (CTxOutPoint * CTxOutput)).
Hypothesis kv_order_perm : forall m, kv_order m ≡ₚ map_to_list m.
Context (kd k : Z) (Hkd : 1 <= kd) (ty : Objects) (G : Ghosts) (io : DbIO) (Hio : BlockDB.disk_ok io).

Notation inv := (base_inv CryptoHash universe output_at C kd k ty G).

(** The origin of a fork is in the index, and its fork is not open. *)
Record pending (st : CBlockBase) (hash : Z) (i : CBlockIndex) (g : Ghost) : Prop := {
  pd_index : cb_mapIndex st !! hash = Some i;
  pd_origin : BlockIndex.IsOrigin i = true;
  pd_next : bi_pNext i = None;
  pd_ghost : G !! hash = Some g;
  pd_closed : cb_mapFork st !! hash = None;
  pd_alone : forall h j, cb_mapIndex st !! h = Some j -> bi_pOrigin j = hash -> h = hash;
}.

(** The state with the databases [db] of the fork open, the fork object [F] and
    the cache of the files [ts] *)
Definition opened (st : CBlockBase) (hash : Z) (F : CBlockFork) (db : CBlockDB) (ts : CTimeSeriesCached) : CBlockBase :=
  mkBlockBase (cb_mapIndex st) (<[hash := F]> (cb_mapFork st)) ts db.

(** The databases of a new fork, which are empty *)
Record opens (st : CBlockBase) (hash : Z) (db : CBlockDB) : Prop := {
  op_call : BlockDB.AddNewFork io (cb_dbBlock st) hash = (true, db);
  op_stores : BlockDB.stores_ok C kd db;
  op_fork : db_dbFork db = mkForkDB (fk_ctxt (db_dbFork (cb_dbBlock st))) (<[hash := 0]> (fk_active (db_dbFork (cb_dbBlock st))));
  op_outline : db_dbBlockIndex db = db_dbBlockIndex (cb_dbBlock st);
  op_delegate : db_dbDelegate db = db_dbDelegate (cb_dbBlock st);
  op_contents : UnspentDB.contents (db_dbUnspent db) = <[hash := ∅]> (UnspentDB.contents (db_dbUnspent (cb_dbBlock st)));
}.

Lemma pending_opens st hash i g : inv st -> pending st hash i g -> exists db, opens st hash db.
Proof.
  intros Hi [_ _ _ _ Hc _]. destruct (BlockDB.AddNewFork_spec C kd io (cb_dbBlock st) hash) as (db & E & Hs & D1 & D2 & D3 & D4 & _).
  - done.
  - done.
  - apply Hi.
  - apply not_elem_of_dom. rewrite <- (bs_forks Hi). by apply not_elem_of_dom.
  - by exists db.
Qed.

(** The fork object of a new fork *)
Lemma AddNewFork_origin st hash i g profile db :
  inv st -> pending st hash i g ->
  BlockBase.AddNewFork profile i (BlockBase.set_dbBlock st db) =
    Return (opened st hash (mkBlockFork profile hash hash) db (cb_tsBlock st), inr (mkBlockFork profile hash hash)).
Proof.
  intros Hi [P1 P2 P3 P4 P5 P6]. pose proof (BlockTree.tr_key _ (bs_tree Hi) _ _ P1) as Ek.
  pose proof (BlockTree.tr_origin _ (bs_tree Hi) _ _ P1 P2) as Eo.
  unfold BlockBase.AddNewFork, BlockBase.UpdateNext. rewrite Ek, Eo.
  erewrite bind_ok.
  2: { rewrite bind_gets. cbn [id cb_mapIndex BlockBase.set_dbBlock]. rewrite (UpdateNext_origin _ _ _ P1 P2 P3).
       erewrite bind_ok by reflexivity. reflexivity. }
  erewrite bind_ok by reflexivity. unfold opened, map_insert_new. cbn. by rewrite P5.
Qed.

(** The outputs a fork based on the fork [based] starts from; [0] is no fork *)
Definition base_content (st : CBlockBase) (based : Z) : option MapType :=
  if based =? 0 then Some ∅ else fork_content st based.

(** Filling the databases of an open fork *)
Lemma fill_fork st hash i g profile db ts based vTxNew vTxDel vAddNew vRemove m :
  inv st -> pending st hash i g -> hash <> 0 -> opens st hash db ->
  TimeSeries.stored ts ty -> tc_base ts = tc_base (cb_tsBlock st) -> 2 ^ 22 <= TimeSeries.capacity ts ->
  based <> hash -> base_content st based = Some m -> ForkUnspentDB.apply_changes m vAddNew vRemove = gh_utxo g ->
  Forall (fun e => is_uint 256 e.1) vTxNew -> Forall (is_uint 256) vTxDel ->
  let F := mkBlockFork profile hash hash in
  exists st',
    (BlockBase.db_call (fun db => BlockDB.UpdateFork C kv_order io db hash hash based vTxNew vTxDel vAddNew vRemove);;
     BlockBase.UpdateLast hash true hash) (opened st hash F db ts) = Return (st', inr tt) /\
    inv st' /\ moved_to C kd ty st st' hash hash F g /\ cb_mapIndex st' = cb_mapIndex st.
Proof.
  intros Hi [P1 P2 P3 P4 P5 P6] H0 [O1 O2 O3 O4 O5 O6] Hs Hb Hc Hne Hm Happ Hn Hd F.
  pose proof (BlockTree.tr_origin _ (bs_tree Hi) _ _ P1 P2) as Eo.
  assert (Hdom : dom (db_dbUnspent db) = {[hash]} ∪ dom (db_dbUnspent (cb_dbBlock st))).
  { pose proof (f_equal dom O6) as E. unfold UnspentDB.contents in E. by rewrite dom_insert_L, !dom_fmap_L in E. }
  destruct (BlockDB.UpdateFork_spec C kv_order kv_order_perm kd io db hash hash based vTxNew vTxDel vAddNew vRemove m)
    as (db' & E & Hok & D1 & D2 & D3 & D4 & D5 & _); [done|done| | |done|done|].
  { apply elem_of_dom. rewrite Hdom. set_solver. }
  { unfold BlockDB.start_content. rewrite O6. unfold base_content, fork_content in Hm.
    destruct (Z.eqb_spec based 0) as [->|]; [by rewrite lookup_insert_eq|by rewrite lookup_insert_ne]. }
  erewrite bind_ok by (unfold BlockBase.db_call; cbn [cb_dbBlock opened]; rewrite E; reflexivity).
  unfold BlockBase.UpdateLast. erewrite bind_ok by reflexivity. unfold BlockBase.UpdateNext. rewrite bind_gets.
  cbn [id cb_mapIndex BlockBase.set_mapFork BlockBase.set_dbBlock opened]. rewrite (UpdateNext_origin _ _ _ P1 P2 P3).
  erewrite bind_ok by reflexivity. eexists. split; [reflexivity|]. set (st' := BlockBase.set_mapIndex _ _).
  assert (Hmv : moved_to C kd ty st st' hash hash F g).
  { split; cbn; try done; try (rewrite ?D1, ?D2, ?D3, ?O4, ?O5; done).
    - intros h. by destruct (cb_mapIndex st !! h).
    - exists [hash]. split; [by eapply BlockFork.fc_origin|]. intros h j Hj Hoj. assert (h = hash) as -> by (by eapply P6).
      assert (j = i) as -> by congruence. by rewrite P3.
    - apply map_eq. intros x. destruct (decide (x = hash)) as [->|Hx].
      + by rewrite lookup_alter_eq, !lookup_insert_eq.
      + by rewrite lookup_alter_ne, !lookup_insert_ne.
    - rewrite D1, O3. cbn. by rewrite insert_insert_eq.
    - by rewrite D5, O6, insert_insert_eq, Happ.
    - by rewrite D4. }
  split; [|done]. by apply (moved_inv _ _ _ C kd k ty G st st' hash hash i F g).
Qed.

(** *** The view of another fork is committed at an origin *)

Lemma pending_same st st1 hash i g : same_base st st1 -> pending st hash i g -> pending st1 hash i g.
Proof. intros [Ei Ef _ _] []. split; rewrite ?Ei, ?Ef; done. Qed.

Lemma moved_same st st1 st' f new F g : same_base st st1 -> moved_to C kd ty st1 st' f new F g -> moved_to C kd ty st st' f new F g.
Proof.
  intros [Ei Ef Et (E1 & E2 & E3 & E4 & E5)] [].
  split; rewrite <- ?Ei, <- ?Ef, <- ?Et, <- ?E1, <- ?E2, <- ?E4, <- ?E5; done.
Qed.

(** The blocks whose transactions the index of the new fork gets: those above
    the last common block with the fork the view is of *)
Definition path_known (st : CBlockBase) (view : View) (hash : Z) : Prop :=
  match vw_spFork view with
  | None => True
  | Some f => f <> hash /\ exists F b vP, cb_mapFork st !! f = Some F /\
      Chain.GetBranch (Chain.ancestry (cb_mapIndex st) (Some (bf_pIndexLast F))) (Chain.ancestry (cb_mapIndex st) (Some hash)) = Return (b, vP) /\
      Forall (fun x => cb_mapIndex st !! bi_hash x = Some x) vP
  end.

Lemma members_ghosts st l : inv st -> Forall (fun x => cb_mapIndex st !! bi_hash x = Some x) l -> exists gs, ghosts_of G st l gs.
Proof.
  intros Hi Hl. apply Forall_exists_Forall2_l. eapply Forall_impl; [exact Hl|]. intros x Hx.
  destruct (bs_ghost Hi _ _ Hx) as (g & Hg & _). by exists g.
Qed.

Lemma GetTxNewIndex_new st view hash i g F db :
  inv st -> pending st hash i g -> path_known st view hash ->
  exists ts vTxNew,
    BlockBase.GetTxNewIndex CryptoHash view hash (opened st hash F db (cb_tsBlock st)) = Return (opened st hash F db ts, inr vTxNew) /\
    Forall (fun e => is_uint 256 e.1) vTxNew /\ TimeSeries.stored ts ty /\ tc_base ts = tc_base (cb_tsBlock st) /\
    TimeSeries.capacity ts = TimeSeries.capacity (cb_tsBlock st).
Proof.
  intros Hi [P1 _ _ _ _ _] Hp. set (st1 := opened st hash F db (cb_tsBlock st)).
  assert (Htail : forall l, Forall (fun x => cb_mapIndex st !! bi_hash x = Some x) l -> exists ts vTxNew,
    BlockBase.new_index_loop CryptoHash (rev l) st1 = Return (opened st hash F db ts, inr vTxNew) /\
    Forall (fun e => is_uint 256 e.1) vTxNew /\ TimeSeries.stored ts ty /\ tc_base ts = tc_base (cb_tsBlock st) /\
    TimeSeries.capacity ts = TimeSeries.capacity (cb_tsBlock st)).
  { intros l Hl%Forall_rev. destruct (members_ghosts st _ Hi Hl) as [gs Hgs].
    destruct (new_index_loop_frame CryptoHash ty (rev l) gs st1) as (ts & E & H1 & H2 & H3); [apply Hi|apply Hi|by eapply ghosts_index|].
    exists ts, (path_index CryptoHash (rev l) gs). split; [done|]. split; [by eapply path_index_ids|done]. }
  unfold BlockBase.GetTxNewIndex, path_known in *. rewrite bind_gets. cbn [id cb_mapIndex cb_mapFork st1 opened].
  destruct (vw_spFork view) as [f|]; cbn [mbind option_bind].
  - destruct Hp as (Hne & F0 & b & vP & HF & E & Hl). rewrite lookup_insert_ne, HF, E by done. erewrite bind_ok by reflexivity. by apply Htail.
  - erewrite bind_ok by reflexivity. apply Htail.
    destruct (BlockTree.tr_chain _ (bs_tree Hi) _ _ P1) as [l Hl]. rewrite (BlockTree.ancestry_chain _ (BlockTree.tr_key _ (bs_tree Hi)) _ _ Hl).
    destruct (BlockTree.root_chain_head _ _ _ Hl) as (x & l' & -> & Hx). constructor; [|constructor].
    by rewrite (BlockTree.tr_key _ (bs_tree Hi) _ _ Hx).
Qed.

Lemma CommitBlockView_new st view hash i g profile m :
  inv st -> pending st hash i g -> hash <> 0 -> Profile.Load (b_vchProof (bex_block (gh_block g))) = Return (Some profile) ->
  vw_hashFork view <> hash -> base_content st (vw_hashFork view) = Some m ->
  BlockView.view_of output_at m (bv_mapUnspent (vw_view view)) (gh_utxo g) ->
  Forall (is_uint 256) (bv_vTxRemove (vw_view view)) -> path_known st view hash ->
  exists st', BlockBase.CommitBlockView CryptoHash C kv_order io view i st = Return (st', inr tt) /\
    inv st' /\ moved_to C kd ty st st' hash hash (mkBlockFork profile hash hash) g /\ cb_mapIndex st' = cb_mapIndex st.
Proof.
  intros Hi Hpd H0 Hpf Hne Hm Hv Hids Hpath. pose proof Hpd as [P1 P2 P3 P4 P5 P6].
  pose proof (BlockTree.tr_key _ (bs_tree Hi) _ _ P1) as Ek. pose proof (BlockTree.tr_origin _ (bs_tree Hi) _ _ P1 P2) as Eo.
  destruct (RetrieveBlock_spec _ _ _ _ _ _ _ _ st hash i g Hi P1 P4) as (st1 & E1 & Hi1 & Hs1).
  pose proof (pending_same _ _ _ _ _ Hs1 Hpd) as Hpd1. destruct (pending_opens st1 hash i g Hi1 Hpd1) as [db Hop].
  set (F := mkBlockFork profile hash hash).
  destruct (GetTxNewIndex_new st1 view hash i g F db) as (ts & vTxNew & E2 & Hn & Hs & Hb & Hc); [done|done| |].
  { unfold path_known in *. destruct Hs1 as [-> -> _ _]. done. }
  pose proof (BlockView.view_commit _ _ _ _ Hv) as Hcm. destruct (BlockView.GetUnspentChanges (vw_view view)) as [vAddNew vRemove] eqn:Eg. cbn [fst snd] in Hcm.
  destruct (fill_fork st1 hash i g profile db ts (vw_hashFork view) vTxNew (BlockView.GetTxRemoved (vw_view view)) vAddNew vRemove m)
    as (st' & E3 & Hi' & Hmv & Ei); try done.
  { rewrite Hc. apply Hi1. }
  { unfold base_content, fork_content in *. destruct Hs1 as [_ _ _ (_ & _ & _ & -> & _)]. done. }
  { unfold BlockView.GetTxRemoved. apply Forall_forall. intros x [? ?]%elem_of_List_filter. rewrite Forall_forall in Hids. by apply Hids. }
  exists st'. split; [|split; [done|split; [by eapply moved_same|destruct Hs1 as [<- _ _ _]; done]]].
  unfold BlockBase.CommitBlockView. rewrite Eo, Ek. destruct (Z.eqb_spec hash (vw_hashFork view)) as [E|_]; [congruence|].
  erewrite bind_ok.
  2: { unfold BlockBase.LoadForkProfile. erewrite bind_ok.
       2: { erewrite bind_ok by (by rewrite P1). erewrite bind_ok by exact E1. rewrite Hpf. erewrite bind_ok by reflexivity. reflexivity. }
       erewrite bind_ok by (unfold BlockBase.db_call; rewrite (op_call _ _ _ Hop); reflexivity). rewrite bind_gets. cbn [id].
       erewrite bind_ok by (by apply (AddNewFork_origin st1 hash i g)). reflexivity. }
  erewrite bind_ok by exact E2. rewrite Eg. cbn [cb_mapFork BlockBase.set_dbBlock].
  rewrite bool_decide_false by (rewrite (pd_closed _ _ _ _ Hpd1); by intros []). exact E3.
Qed.

End fork.

(** ** The genesis block *)

Section genesis.
Context (CryptoHash : list Z -> Z) (universe : CTransaction -> Prop) (output_at : CTxOutPoint -> CTxOutput).
Context (C : codec (list (Z * CTxIndex))) `{!CodecOk C} (kv_order : MapType -> list (CTxOutPoint * CTxOutput)).
Hypothesis kv_order_perm : forall m, kv_order m ≡ₚ map_to_list m.
Context (kd k : Z) (Hkd : 1 <= kd) (ty : Objects) (io : DbIO) (Hio : BlockDB.disk_ok io).
Context `{!Ledger.Naming CryptoHash universe output_at}.

Notation txid := (Tx.GetHash CryptoHash).
Notation base_inv := (base_inv CryptoHash universe output_at C kd).

(** A block base without blocks *)
Record fresh (st : CBlockBase) : Prop := {
  fr_index : cb_mapIndex st = ∅;
  fr_fork : cb_mapFork st = ∅;
  fr_stored : TimeSeries.stored (cb_tsBlock st) ty;
  fr_files : TimeSeries.files_ok k (tc_base (cb_tsBlock st));
  fr_cap : 2 ^ 22 <= TimeSeries.capacity (cb_tsBlock st);
  fr_stores : BlockDB.stores_ok C kd (cb_dbBlock st);
  fr_unspent : db_dbUnspent (cb_dbBlock st) = ∅;
  fr_outline : db_dbBlockIndex (cb_dbBlock st) = ∅;
  fr_votes : dd_kv (db_dbDelegate (cb_dbBlock st)) = ∅;
}.

(** A genesis block: an origin with a profile, whose mint transaction pays an
    output *)
Record genesis_ok (hash : Z) (block : CBlock) (profile : CProfile) : Prop := {
  gn_valid : valid Block.blockex_codec (mkBlockEx block []);
  gn_size : Z.of_nat (length (save Block.blockex_codec (mkBlockEx block []))) < 2 ^ 22;
  gn_origin : Block.IsOrigin block = true;
  gn_hash : hash <> 0;
  gn_prev : b_hashPrev block <> hash;
  gn_profile : Profile.Load (b_vchProof block) = Return (Some profile);
  gn_mint : universe (b_txMint block);
  gn_inputs : tx_vInput (b_txMint block) = [];
  gn_output : Tx.output_IsNull (Tx.output_of_tx (b_txMint block)) = false;
}.

Definition genesis_ghost (block : CBlock) : Ghost :=
  mkGhost (mkBlockEx block []) {[mkOutPoint (txid (b_txMint block)) 0 := Tx.output_of_tx (b_txMint block)]} {[txid (b_txMint block)]}.

Definition genesis_index (hash : Z) (block : CBlock) (pos : CDiskPos) : CBlockIndex :=
  BlockBase.with_place (BlockIndex.of_block CryptoHash hash block (dp_nFile pos) (dp_nOffset pos)) None hash 0
    (Block.GetBlockBeacon block 0) (Block.GetBlockTrust block) (Block.GetBlockMint block).

Lemma genesis_ledger hash block profile :
  genesis_ok hash block profile ->
  Ledger.ledger_ok CryptoHash universe output_at (gh_utxo (genesis_ghost block)) (gh_ids (genesis_ghost block)).
Proof.
  intros [_ _ _ _ _ _ Hu Hin Hnull]. split; cbn.
  - intros o x. rewrite lookup_singleton_Some. intros [<- <-]. by rewrite (Ledger.nam_out0 CryptoHash universe output_at).
  - intros o [x Hx]. rewrite lookup_singleton_Some in Hx. destruct Hx as [<- _]. cbn. set_solver.
  - intros tx o Hutx Hid%elem_of_singleton Ho. assert (tx = b_txMint block) as -> by (by apply (Ledger.nam_inj CryptoHash universe output_at)).
    unfold BlockView.input_outs in Ho. rewrite Hin in Ho. by apply elem_of_nil in Ho.
Qed.

Lemma place_genesis hash block pos :
  b_hashPrev block <> hash -> BlockBase.place_index CryptoHash ∅ hash block pos = Return (genesis_index hash block pos).
Proof. intros Hp. unfold BlockBase.place_index. cbv zeta. by rewrite lookup_insert_ne, lookup_empty by done. Qed.

(** The state with the genesis block in the index satisfies the invariant; its
    fork is pending. *)
Lemma genesis_pending hash block profile pos st ts ty' ctxt :
  let i := genesis_index hash block pos in
  fresh st -> genesis_ok hash block profile -> TimeSeries.stored ts ty' -> TimeSeries.capacity ts = TimeSeries.capacity (cb_tsBlock st) ->
  TimeSeries.files_ok (k + 1) (tc_base ts) -> block_at ty' pos (mkBlockEx block []) ->
  let db := cb_dbBlock st in
  let st1 := mkBlockBase {[hash := i]} ∅ ts (mkBlockDB ctxt {[hash := BlockOutline.of_index i]} (db_dbTxIndex db) (db_dbUnspent db)
    (mkDelegateDB {[hash := mkDelegateContext ∅ ∅]} (Cache.AddNew (dd_cacheDelegate (db_dbDelegate db)) hash (mkDelegateContext ∅ ∅)))) in
  let g := genesis_ghost block in
  base_inv (k + 1) ty' {[hash := g]} st1 /\ pending {[hash := g]} st1 hash i g.
Proof.
  intros i [R1 R2 R3 R4 R5 R6 R7 R8 R9] Hgn Hs Hc Hf Hb db st1 g. pose proof Hgn as [N1 N2 N3 N4 N5 N6 N7 N8 N9].
  destruct (of_block_fields CryptoHash hash block (dp_nFile pos) (dp_nOffset pos)) as (F1 & F2 & F3 & F4 & F5 & F6).
  assert (Ho : BlockIndex.IsOrigin i = true).
  { unfold i, genesis_index, BlockIndex.IsOrigin. cbn. by rewrite F3. }
  assert (Hone : forall h j, cb_mapIndex st1 !! h = Some j -> h = hash /\ j = i).
  { intros h j. cbn. rewrite lookup_singleton_Some. by intros [<- <-]. }
  assert (Hi : cb_mapIndex st1 !! hash = Some i) by (cbn; apply lookup_singleton_eq).
  split; [|split; try done; [apply lookup_singleton_eq|by intros h j [-> _]%Hone]].
  split; cbn [cb_mapFork cb_tsBlock cb_dbBlock st1 db_dbUnspent db_dbBlockIndex db_dbDelegate dd_kv].
  - split.
    + by intros h j [-> ->]%Hone.
    + intros h j [-> ->]%Hone. exists [i]. by apply BlockTree.rc_root.
    + by intros h j [-> ->]%Hone.
    + intros h j [-> ->]%Hone E. congruence.
    + intros h j o [-> ->]%Hone E. congruence.
  - cbn. by apply lookup_singleton_ne.
  - intros h j [-> ->]%Hone. exists g. split; [apply lookup_singleton_eq|]. split; [|by eapply genesis_ledger].
    split; cbn; [|done..]. unfold BlockBase.index_pos. cbn. rewrite F5, F6. by destruct pos.
  - intros h j q gh gp [-> ->]%Hone E. congruence.
  - done.
  - done.
  - by rewrite Hc.
  - destruct R6 as [S1 S2 S3 S4]. split; try done. cbn. rewrite <- insert_empty, <- R9. apply Cache.AddNew_coherent; apply S3.
  - intros f F HF. by rewrite lookup_empty in HF.
  - subst db. rewrite R7. by rewrite !dom_empty_L.
  - cbn. by rewrite map_fmap_singleton.
  - intros h j [-> ->]%Hone _. rewrite lookup_singleton_eq. by eexists.
  - intros h c. rewrite lookup_singleton_Some. intros [_ <-] a m dest p Ha. cbn in Ha. by rewrite lookup_empty in Ha.
Qed.

(** On a disk that does not fail, initiating an empty block base with a genesis
    block succeeds, and the base then has this block, one fork and the output of
    the mint transaction. *)
Lemma Initiate_result (st : CBlockBase) (hash : Z) (block : CBlock) (profile : CProfile) :
  fresh st -> k + 1 < 2 ^ 32 -> genesis_ok hash block profile ->
  exists st' ty' pos,
    BlockBase.Initiate CryptoHash C kv_order io true hash block st = Return (st', inr tt) /\
    base_inv (k + 1) ty' {[hash := genesis_ghost block]} st' /\ best_ok st' /\ open_ok st' /\
    cb_mapIndex st' = {[hash := genesis_index hash block pos]} /\
    cb_mapFork st' = {[hash := mkBlockFork profile hash hash]}.
Proof.
  intros Hfr Hk Hgn. pose proof Hgn as [N1 N2 N3 N4 N5 N6 N7 N8 N9]. pose proof Hio as (Ic & _ & Iout & Idel & _).
  destruct (write_block k _ ty (fr_stored _ Hfr) (fr_files _ Hfr) Hk (fr_cap _ Hfr) (mkBlockEx block []) N1 N2)
    as (pos & ts & ty' & Ew & Hs & _ & Hc & Hf & Hb).
  set (i := genesis_index hash block pos). set (g := genesis_ghost block).
  set (fdb := mkForkDB (<[hash := ForkContext.of_profile hash 0 0 profile]> (fk_ctxt (db_dbFork (cb_dbBlock st)))) (fk_active (db_dbFork (cb_dbBlock st)))).
  destruct (genesis_pending hash block profile pos st ts ty' fdb) as [Hinv Hpd]; [done..|]. fold i g in Hinv, Hpd.
  set (st1 := mkBlockBase _ _ _ _) in Hinv, Hpd.
  destruct (pending_opens CryptoHash universe output_at C kd (k + 1) Hkd ty' _ io Hio st1 hash i g Hinv Hpd) as [db Hop].
  destruct (fill_fork CryptoHash universe output_at C kv_order kv_order_perm kd (k + 1) Hkd ty' {[hash := g]} io Hio st1 hash i g profile db ts 0
    [(txid (b_txMint block), mkTxIndex 0 (dp_nFile pos) (u32 (dp_nOffset pos + Block.GetTxSerializedOffset block)))] []
    [mkTxUnspent (mkOutPoint (txid (b_txMint block)) 0) (Tx.output_of_tx (b_txMint block))] [] ∅) as (st' & Efill & Hinv' & Hmv & Eidx);
    [done|done|done|done|done|done|rewrite Hc; apply Hfr|congruence|done| | |done|].
  { unfold ForkUnspentDB.apply_changes. cbn. by rewrite N9. }
  { constructor; [|done]. apply txid_uint. by apply (Ledger.nam_valid CryptoHash universe output_at). }
  exists st', ty', pos. split.
  { unfold BlockBase.Initiate. rewrite bind_gets. cbn [id]. unfold BlockBase.IsEmpty. rewrite bool_decide_true by apply Hfr. cbn [check].
    rewrite bind_ret. erewrite bind_ok by (unfold BlockBase.ts_write; by rewrite Ew). cbv zeta.
    erewrite bind_ok.
    2: { unfold BlockBase.AddNewIndex. rewrite bind_gets. cbn [id cb_mapIndex BlockBase.set_tsBlock]. rewrite (fr_index _ Hfr), place_genesis by done.
         erewrite bind_ok by reflexivity. erewrite bind_ok by reflexivity. reflexivity. }
    unfold BlockBase.db_call at 1 2 3, BlockDB.AddNewBlock, BlockDB.UpdateDelegateContext, BlockDB.AddNewForkContext. rewrite Iout, Idel, Ic.
    erewrite bind_ok by reflexivity. erewrite bind_ok by reflexivity. rewrite N6. erewrite bind_ok by reflexivity. erewrite bind_ok by reflexivity. erewrite bind_ok by reflexivity.
    match goal with |- context [mbind _ _ ?s] => assert (s = st1) as -> end.
    { unfold st1. destruct Hfr as [R1 R2 _ _ _ _ R7 R8 R9]. destruct (of_block_fields CryptoHash hash block (dp_nFile pos) (dp_nOffset pos)) as [F1 _].
      cbn. rewrite F1. unfold BlockBase.set_dbBlock, BlockBase.set_mapIndex, BlockBase.set_tsBlock. cbn. by rewrite R1, R2, R8, R9. }
    erewrite bind_ok by (unfold BlockBase.db_call; rewrite (op_call _ _ _ _ _ _ Hop); reflexivity).
    rewrite bind_gets. cbn [id]. erewrite bind_ok by (by apply (AddNewFork_origin CryptoHash universe output_at C kd (k + 1) ty' {[hash := g]} st1 hash i g)).
    fold i. replace (bi_pOrigin i) with hash by done. cbn. exact Efill. }
  pose proof (mv_fork _ _ _ _ _ _ _ _ _ Hmv) as Efk. cbn [cb_mapFork bf_forkProfile st1] in Efk. rewrite insert_empty in Efk.
  split; [done|]. split; [|split; [|done]].
  - intros f F HF i1 h j. rewrite Efk in HF. rewrite Eidx. cbn [cb_mapIndex st1]. apply lookup_singleton_Some in HF as [<- <-].
    intros [_ <-]%lookup_singleton_Some [_ <-]%lookup_singleton_Some _. done.
  - eapply moved_open; [|exact Hmv]. cbn [cb_mapIndex st1]. intros h j [<- <-]%lookup_singleton_Some Hne. done.
Qed.

End genesis.

End BaseFork.
