(* ===== verification/Origin.v ===== *)
(** * Acceptance of a new fork

    [CWorldLine::AddNewOrigin] starts a fork: its origin is validated, its profile
    loaded and checked against that of the parent fork, and the fork is opened with
    the unspent outputs of the block it leaves, or with none if it is isolated,
    and what its mint transaction pays.  [origin_result] states what the function
    returns on every branch and that the invariant holds afterwards. *)

From S2P Require Import Prelude RWLock Prog Cache Stream Destination Transaction Block Base.
From S2P Require Import Base25519 SC25519 Crypto Template Profile BlockIndex Core UnspentDB BlockView Chain BlockFork BlockTree.
From S2P Require Import TimeSeries CTSDB BlockStore BlockDB BlockBase WorldLine Ledger BaseInv BaseView BaseAdd BaseCommit BaseFork.
From S2P Require Import BlockVerify Accept.

Import CWalleveStream.

Module Origin.

Import BlockStore BaseInv BaseView BaseAdd BaseCommit BaseFork Accept.

(** The chain of an origin and that of the last block of the fork it leaves *)
Lemma origin_branch (st : Indexes) last il h i q j :
  BlockTree.tree_ok st -> st !! last = Some il -> st !! h = Some i -> bi_pPrev i = Some q -> st !! q = Some j ->
  bi_pOrigin il = bi_pOrigin j -> (forall o, st !! bi_pOrigin j = Some o -> BlockIndex.GetBlockTime o < BlockIndex.GetBlockTime i) ->
  exists b vP, Chain.GetBranch (Chain.ancestry st (Some last)) (Chain.ancestry st (Some h)) = Return (b, vP) /\
    Forall (fun x => st !! bi_hash x = Some x) vP.
Proof.
  intros Ht Hl Hh Hp Hq Ho Hy. pose proof (BlockTree.tr_key _ Ht) as Hk.
  destruct (BlockTree.tr_chain _ Ht _ _ Hl) as [l1 Hl1]. destruct (BlockTree.tr_chain _ Ht _ _ Hq) as [l2 Hl2].
  destruct (BlockTree.tree_rooted _ Ht _ _ _ Hl Hl1) as (g & rest & Hg & Hlg & Hr1).
  destruct (BlockTree.tree_rooted _ Ht _ _ _ Hq Hl2) as (g' & rest' & Hg' & Hlg' & (p & -> & Hyp)).
  rewrite Ho in *. assert (g' = g) as -> by congruence.
  assert (rest' = rest) as -> by (pose proof (BlockTree.root_chain_det _ _ _ _ Hlg Hlg'); congruence).
  pose proof (BlockTree.rc_prev _ _ _ _ _ Hh Hp Hl2) as Hc.
  rewrite (BlockTree.ancestry_chain _ Hk _ _ Hl1), (BlockTree.ancestry_chain _ Hk _ _ Hc).
  destruct (Chain.GetBranch_paths g rest l1 (i :: p ++ g :: rest)) as (b & vP & r & E & _ & Ep & _).
  - by eapply BlockTree.root_chain_joined.
  - done.
  - exists (i :: p). split; [done|]. constructor; [by apply Hy|done].
  - exists b, vP. split; [done|]. apply Forall_forall. intros x Hx. eapply BlockTree.root_chain_elem; [done|exact Hc|].
    rewrite Ep. apply elem_of_app. by left.
Qed.

Section origin.
Context (CryptoHash : list Z -> Z) (verify_detached : list Z -> list Z -> Z -> bool) `{IEdwards} (size_type : nat).
Context (base64dec : list Z -> option (list Z)) `{IDelegateVerify}.
Context (C : codec (list (Z * CTxIndex))) (kv_order : MapType -> list (CTxOutPoint * CTxOutput)) (pool_Exists : Z -> bool).
Context (nNetTime hashGenesisBlock : Z).

Notation txid := (Tx.GetHash CryptoHash).
Notation AddNewOrigin io := (WorldLine.AddNewOrigin CryptoHash verify_detached size_type base64dec C kv_order io true nNetTime hashGenesisBlock).

(** The ledger a fork starts with *)
Definition origin_ghost (profile : CProfile) (gp : Ghost) (block : CBlock) : Ghost :=
  let m := if Profile.IsIsolated profile then ∅ else gh_utxo gp in
  let ids := if Profile.IsIsolated profile then ∅ else gh_ids gp in
  if tx_nAmount (b_txMint block) =? 0 then mkGhost (mkBlockEx block []) m ids
  else mkGhost (mkBlockEx block []) (BlockView.apply_tx m (Ledger.link CryptoHash (b_txMint block) BlockView.null_contxt))
         ({[txid (b_txMint block)]} ∪ ids).

(** The decision about an origin: an error, or the index of the block it leaves,
    its profile and its ghost *)
Definition decide_origin (G : Ghosts) (wl : CWorldLine) (block : CBlock) : outcome (MvErr + CBlockIndex * CProfile * Ghost) :=
  let st := wl_cntrBlock wl in
  if BlockBase.Exists st (Block.GetHash CryptoHash block) then Return (inl MV_ERR_ALREADY_HAVE)
  else
    err ← Core.ValidateBlock CryptoHash verify_detached size_type base64dec nNetTime hashGenesisBlock block;
    if negb (bool_decide (err = MV_OK)) then Return (inl err)
    else
      match cb_mapIndex st !! b_hashPrev block, G !! b_hashPrev block with
      | Some p, Some gp =>
          match cb_mapFork st !! bi_pOrigin p with
          | None => Return (inl MV_ERR_SYS_STORAGE_ERROR)
          | Some F =>
              r ← Core.ValidateOrigin block (bf_forkProfile F);
              let profile := default Profile.SetNull r.2 in
              if negb (bool_decide (r.1 = MV_OK)) then Return (inl r.1)
              else if bool_decide (is_Some (BlockBase.find_name st (pf_strName profile))) then Return (inl MV_ERR_ALREADY_HAVE)
              else Return (inr (p, profile, origin_ghost profile gp block))
          end
      | _, _ => Return (inl MV_ERR_SYS_STORAGE_ERROR)
      end.

Context (universe : CTransaction -> Prop) (output_at : CTxOutPoint -> CTxOutput) (kd : Z).

Notation wl_inv := (wl_inv CryptoHash C universe output_at kd).
Notation ledger_ok := (Ledger.ledger_ok CryptoHash universe output_at).
Notation view_of := (BlockView.view_of output_at).

(** The block passes the checks of [AddNewOrigin]. *)
Definition origin_checked (wl : CWorldLine) (block : CBlock) : Prop :=
  let st := wl_cntrBlock wl in
  cb_mapIndex st !! Block.GetHash CryptoHash block = None /\
  Core.ValidateBlock CryptoHash verify_detached size_type base64dec nNetTime hashGenesisBlock block = Return MV_OK /\
  exists p F profile, cb_mapIndex st !! b_hashPrev block = Some p /\ cb_mapFork st !! bi_pOrigin p = Some F /\
    Core.ValidateOrigin block (bf_forkProfile F) = Return (MV_OK, Some profile) /\
    ~ is_Some (BlockBase.find_name st (pf_strName profile)).

(** What the code relies on and does not check: beside the two conditions of every
    block, that the block is of the type of an origin.  [AddNewOrigin] does not look
    at the type; its caller sends it every block with the top bit of the type set,
    and only for [BLOCK_ORIGIN] have the transactions been found absent. *)
Record origin_regular (G : Ghosts) (wl : CWorldLine) (block : CBlock) : Prop := {
  or_type : b_nType block = Block.BLOCK_ORIGIN;
  or_block : regular CryptoHash G wl block;
}.

(** The new fork after [p], at its origin *)
Definition started (wl wl' : CWorldLine) (block : CBlock) (p : CBlockIndex) (profile : CProfile) (u : CWorldLineUpdate) : Prop :=
  let hash := Block.GetHash CryptoHash block in
  let st := wl_cntrBlock wl in let st' := wl_cntrBlock wl' in
  exists pos i,
    above hash block pos p i /\ cb_mapIndex st' = <[hash := i]> (cb_mapIndex st) /\
    cb_mapFork st' = <[hash := mkBlockFork profile hash hash]> (cb_mapFork st) /\
    upd_hashFork u = hash /\ upd_hashLastBlock u = hash /\ upd_nLastBlockTime u = b_nTimeStamp block /\
    upd_nLastBlockHeight u = bi_nHeight i /\ upd_nMoneySupply u = bi_nMoneySupply i /\
    upd_vBlockAddNew u = [mkBlockEx block []] /\ upd_vBlockRemove u = [].

Context `{!Ledger.Naming CryptoHash universe output_at}.

(** The mint transaction on the outputs a fork starts from *)
Lemma mint_view m0 m ids v block :
  ledger_ok m ids -> view_of m0 (bv_mapUnspent v) m -> Ledger.block_ok universe block -> txid (b_txMint block) ∉ ids ->
  let mint := b_txMint block in
  view_of m0 (bv_mapUnspent (BlockView.AddTx v (txid mint) mint Destination.SetNull 0))
    (BlockView.apply_tx m (Ledger.link CryptoHash mint BlockView.null_contxt)) /\
  ledger_ok (BlockView.apply_tx m (Ledger.link CryptoHash mint BlockView.null_contxt)) ({[txid mint]} ∪ ids).
Proof.
  intros Hl Hv [O1 O2 _ _] Hid mint.
  pose proof (Ledger.mint_applies CryptoHash universe output_at _ _ Hl _ O2 Hid) as Ha.
  pose proof (Ledger.mint_named CryptoHash universe output_at _ O1 O2) as Hn.
  split; [exact (BlockView.view_add output_at _ _ _ _ Hn Ha Hv)|]. by apply Ledger.ledger_apply.
Qed.

Lemma empty_ledger : ledger_ok ∅ ∅.
Proof.
  split; [intros o x Hx; by rewrite lookup_empty in Hx|intros o [x Hx]; by rewrite lookup_empty in Hx|intros tx o _ Hx; set_solver].
Qed.

(** The view an origin is committed with *)
Record origin_view (st : CBlockBase) (p : CBlockIndex) (profile : CProfile) (g : Ghost) (view : View) : Prop := {
  ov_fork : vw_hashFork view = if Profile.IsIsolated profile then 0 else bi_pOrigin p;
  ov_shared : vw_spFork view = if Profile.IsIsolated profile then None else Some (bi_pOrigin p);
  ov_ids : Forall (is_uint 256) (bv_vTxRemove (vw_view view));
  ov_outputs : exists m, base_content st (vw_hashFork view) = Some m /\ view_of m (bv_mapUnspent (vw_view view)) (gh_utxo g);
  ov_ledger : ledger_ok (gh_utxo g) (gh_ids g);
}.

Lemma origin_view_spec k ty G wl block p gp F il gl profile (e : MvErr) :
  let st := wl_cntrBlock wl in
  base_inv CryptoHash universe output_at C kd k ty G st ->
  cb_mapIndex st !! b_hashPrev block = Some p -> G !! b_hashPrev block = Some gp ->
  cb_mapFork st !! bi_pOrigin p = Some F -> fork_at G st (bi_pOrigin p) (bf_pIndexLast F) il gl ->
  Ledger.block_ok universe block -> txid (b_txMint block) ∉ gh_ids gp ->
  exists st1 view,
    (if Profile.IsIsolated profile then mret BlockBase.EmptyView
     else or_fail (WorldLine.base (BlockBase.GetBlockView CryptoHash (b_hashPrev block) false)) e) wl =
      Return (WorldLine.set_cntrBlock wl st1, inr view) /\
    base_inv CryptoHash universe output_at C kd k ty G st1 /\ same_base st st1 /\
    origin_view st p profile (origin_ghost profile gp block)
      (if tx_nAmount (b_txMint block) =? 0 then view
       else WorldLine.set_view view (BlockView.AddTx (vw_view view) (txid (b_txMint block)) (b_txMint block) Destination.SetNull 0)).
Proof.
  intros st Hi Hp Hgp HF Hfa Hbo Hmint.
  assert (Hstep : forall m0 m ids view, ledger_ok m ids -> view_of m0 (bv_mapUnspent (vw_view view)) m -> txid (b_txMint block) ∉ ids ->
    base_content st (vw_hashFork view) = Some m0 -> vw_hashFork view = (if Profile.IsIsolated profile then 0 else bi_pOrigin p) ->
    vw_spFork view = (if Profile.IsIsolated profile then None else Some (bi_pOrigin p)) -> Forall (is_uint 256) (bv_vTxRemove (vw_view view)) ->
    m = (if Profile.IsIsolated profile then ∅ else gh_utxo gp) -> ids = (if Profile.IsIsolated profile then ∅ else gh_ids gp) ->
    origin_view st p profile (origin_ghost profile gp block)
      (if tx_nAmount (b_txMint block) =? 0 then view
       else WorldLine.set_view view (BlockView.AddTx (vw_view view) (txid (b_txMint block)) (b_txMint block) Destination.SetNull 0))).
  { intros m0 m ids view Hl Hv Hid Hc X1 X2 X3 -> ->. unfold origin_ghost. destruct (tx_nAmount _ =? 0); [by split; eauto|].
    destruct (mint_view m0 _ _ _ block Hl Hv Hbo Hid) as [Hv' Hl']. split; try done. by exists m0. }
  destruct (Profile.IsIsolated profile) eqn:Eiso.
  - exists st. eexists. split; [by destruct wl|]. split; [done|]. split; [done|].
    apply (Hstep ∅ ∅ ∅); rewrite ?Eiso; try done. apply empty_ledger.
  - destruct (GetBlockView_spec CryptoHash universe output_at C kd k ty G st (b_hashPrev block) p gp F il gl false)
      as (st' & i0 & rest & vR & vP & g0 & gsR & gsP & E & Hi' & Hs' & Hb); [done..|].
    destruct (index_stored _ _ _ _ _ _ _ _ _ _ _ _ Hi Hp Hgp) as [_ Hl].
    pose proof (branch_view _ _ _ _ _ _ _ _ _ _ _ _ _ _ _ _ _ _ _ _ Hi Hb (fa_ghost _ _ _ _ _ _ Hfa) Hgp) as Hv.
    exists st'. eexists. split; [by apply base_ok, E|]. split; [done|]. split; [done|].
    destruct (BlockTree.fork_root _ (bs_tree Hi) _ _ Hp) as (o & Ho & _).
    apply (Hstep (gh_utxo gl) (gh_utxo gp) (gh_ids gp)); rewrite ?Eiso; try done.
    + unfold base_content. cbn [vw_hashFork]. destruct (Z.eqb_spec (bi_pOrigin p) 0) as [E0|_]; [|apply Hfa].
      rewrite E0, (bs_null Hi) in Ho. done.
    + apply reorg_ids. apply Forall_rev. eapply ghosts_valid; [exact Hi|apply Hb].
Qed.

(** ** Storing an origin *)

Context `{!CodecOk C} (kv_order_perm : forall m, kv_order m ≡ₚ map_to_list m) (io : DbIO) (Hio : BlockDB.disk_ok io) (Hkd : 1 <= kd).

(** The index with the new origin *)
Lemma origin_pending k ty ty' G st st1 hash block pos p i g :
  base_inv CryptoHash universe output_at C kd k ty G st -> with_leaf (k + 1) ty ty' st st1 hash i -> cb_mapIndex st !! hash = None ->
  above hash block pos p i -> Block.IsOrigin block = true -> pending (<[hash := g]> G) st1 hash i g.
Proof.
  intros Hi Hw Hnew Hab Ho. pose proof (wl_index _ _ _ _ _ _ _ Hw) as Ei. pose proof (wl_fork _ _ _ _ _ _ _ Hw) as Ef.
  split.
  - by rewrite Ei, lookup_insert_eq.
  - unfold BlockIndex.IsOrigin. by rewrite (av_type _ _ _ _ _ Hab).
  - apply Hab.
  - apply lookup_insert_eq.
  - rewrite Ef. destruct (cb_mapFork st !! hash) as [F|] eqn:EF; [|done].
    destruct (bs_fork Hi _ _ EF) as (_ & il & gl & [Hl Hoi _ _ _ _]).
    destruct (BlockTree.fork_root _ (bs_tree Hi) _ _ Hl) as (o & Hoo & _). congruence.
  - intros h j. rewrite Ei. intros [[<- <-]|[_ Hj]]%lookup_insert_Some E; [done|].
    destruct (BlockTree.fork_root _ (bs_tree Hi) _ _ Hj) as (o & Hoo & _). congruence.
Qed.

Lemma origin_path k ty G G0 st st1 hash i p q F il gl view profile :
  base_inv CryptoHash universe output_at C kd k ty G st1 -> cb_mapIndex st1 = <[hash := i]> (cb_mapIndex st) -> cb_mapFork st1 = cb_mapFork st ->
  cb_mapIndex st !! hash = None -> bi_pPrev i = Some q -> cb_mapIndex st !! q = Some p -> cb_mapFork st !! bi_pOrigin p = Some F ->
  fork_at G0 st (bi_pOrigin p) (bf_pIndexLast F) il gl -> bi_pOrigin p <> hash ->
  (forall o, cb_mapIndex st !! bi_pOrigin p = Some o -> BlockIndex.GetBlockTime o < BlockIndex.GetBlockTime i) ->
  vw_spFork view = (if Profile.IsIsolated profile then None else Some (bi_pOrigin p)) -> path_known st1 view hash.
Proof.
  intros Hi1 Ei Ef Hnew Hp Hq HF Hfa Hne Hy Hv. unfold path_known. rewrite Hv. destruct (Profile.IsIsolated profile); [done|].
  split; [done|]. exists F. rewrite Ef.
  destruct (origin_branch (cb_mapIndex st1) (bf_pIndexLast F) il hash i q p) as (b & vP & E & Hl).
  - apply Hi1.
  - rewrite Ei, lookup_insert_ne by (intros E; pose proof (fa_index _ _ _ _ _ _ Hfa); congruence). apply Hfa.
  - by rewrite Ei, lookup_insert_eq.
  - done.
  - rewrite Ei, lookup_insert_ne by congruence. done.
  - apply Hfa.
  - intros o. rewrite Ei, lookup_insert_ne by done. apply Hy.
  - by exists b, vP.
Qed.

(** A fork with one block is at its best block. *)
Lemma best_started ty' st st1 st2 hash i g F :
  best_ok st -> cb_mapIndex st !! hash = None -> cb_mapIndex st1 = <[hash := i]> (cb_mapIndex st) -> cb_mapFork st1 = cb_mapFork st ->
  (forall f F, cb_mapFork st !! f = Some F -> is_Some (cb_mapIndex st !! bf_pIndexLast F)) ->
  (forall h j, cb_mapIndex st !! h = Some j -> bi_pOrigin j <> hash) -> cb_mapFork st !! hash = None -> bi_pOrigin i = hash ->
  moved_to C kd ty' st1 st2 hash hash F g -> best_ok st2.
Proof.
  intros Hb Hnew Ei Ef Hl Ha Hc Ho Hmv f F' HF'. rewrite (mv_fork _ _ _ _ _ _ _ _ _ Hmv) in HF'.
  eapply best_next; [apply Hmv|]. rewrite Ei. apply lookup_insert_Some in HF' as [[<- <-]|[Hne HF']].
  - cbn. intros i' h j. rewrite lookup_insert_eq. intros [= <-] [[<- <-]|[_ Hj]]%lookup_insert_Some Hoj; [done|]. by apply Ha in Hj.
  - rewrite Ef in HF'. destruct (Hl _ _ HF') as [il Hil]. eapply best_leaf; [done|exact Hil|congruence|by apply Hb].
Qed.

Notation run_store hash block view := (
  pIndexNew ← or_fail (WorldLine.base (BlockBase.AddNew CryptoHash io true hash (mkBlockEx block []))) MV_ERR_SYS_STORAGE_ERROR;
  or_fail (WorldLine.base (BlockBase.CommitBlockView CryptoHash C kv_order io view pIndexNew)) MV_ERR_SYS_STORAGE_ERROR;;
  st ← WorldLine.getb id;
  update ← deref (WorldLine.update_of st pIndexNew);
  mret (mkUpdate (upd_hashFork update) (upd_hashParent update) (upd_nOriginHeight update) (upd_hashLastBlock update)
          (upd_nLastBlockTime update) (upd_nLastBlockHeight update) (upd_nMoneySupply update)
          (BlockView.GetTxUpdated (vw_view view)) [mkBlockEx block []] [])).

Lemma store_origin k ty G wl block p gp F il gl profile g view :
  let hash := Block.GetHash CryptoHash block in let st := wl_cntrBlock wl in
  wl_inv k ty G wl -> k + 1 < 2 ^ 32 -> cb_mapIndex st !! hash = None -> hash <> 0 ->
  cb_mapIndex st !! b_hashPrev block = Some p -> G !! b_hashPrev block = Some gp ->
  cb_mapFork st !! bi_pOrigin p = Some F -> fork_at G st (bi_pOrigin p) (bf_pIndexLast F) il gl ->
  Block.IsOrigin block = true -> Block.IsPrimary block = false ->
  (forall o, cb_mapIndex st !! bi_pOrigin p = Some o -> BlockIndex.GetBlockTime o < b_nTimeStamp block) ->
  valid Block.blockex_codec (mkBlockEx block []) -> Z.of_nat (length (save Block.blockex_codec (mkBlockEx block []))) < 2 ^ 22 ->
  gh_block g = mkBlockEx block [] -> Profile.Load (b_vchProof block) = Return (Some profile) -> origin_view st p profile g view ->
  exists wl' u ty', run_store hash block view wl = Return (wl', inr u) /\
    wl_inv (k + 1) ty' (<[hash := g]> G) wl' /\ started wl wl' block p profile u.
Proof.
  intros hash st (Hi & Hbest & Hopen) Hk Hnew H00 Hp Hgp HF Hfa Ho Hpr Hy Hv Hsz Eg Hpf [V1 V2 V3 (m & Hm & Hvm) V5]. fold st in Hi, Hbest, Hopen.
  destruct (AddNew_spec CryptoHash io Hio universe output_at C kd k ty G st hash g p gp) as (i & pos & ty' & st1 & E1 & Hab & Hw & Hi1);
    rewrite ?Eg; cbn [bex_block]; [done..|by rewrite Hpr|by rewrite Ho|done|done|done|]. rewrite Eg in E1, Hab. cbn [bex_block] in Hab.
  pose proof (origin_pending _ _ _ _ _ _ _ _ _ _ _ g Hi Hw Hnew Hab Ho) as Hpd.
  pose proof (wl_index _ _ _ _ _ _ _ Hw) as Ei. pose proof (wl_fork _ _ _ _ _ _ _ Hw) as Ef.
  destruct (BlockTree.fork_root _ (bs_tree Hi) _ _ Hp) as (o & Hoo & _).
  assert (Hpo : bi_pOrigin p <> hash) by (intros E; rewrite E in Hoo; congruence).
  assert (Hio1 : bi_pOrigin i = hash) by (by rewrite (av_origin _ _ _ _ _ Hab), Ho).
  destruct (CommitBlockView_new CryptoHash universe output_at C kv_order kv_order_perm kd (k + 1) Hkd ty' (<[hash := g]> G) io Hio st1 view hash i g profile m)
    as (st2 & E2 & Hi2 & Hmv & Ei2); [done|done|done|by rewrite Eg| | |done|done| |].
  { rewrite V1. destruct (Profile.IsIsolated profile); congruence. }
  { unfold base_content, fork_content in *. destruct Hw as [_ _ _ _ _ _ (_ & _ & ->) _ _ _ _ _]. done. }
  { eapply (origin_path _ _ _ _ st st1 hash i p); [exact Hi1|done|done|done|apply Hab|done|done|exact Hfa|done| |exact V2].
    intros o'. unfold BlockIndex.GetBlockTime at 2. rewrite (av_time _ _ _ _ _ Hab). apply Hy. }
  destruct (BlockFork.next_only_lookup _ _ _ _ _ (mv_index _ _ _ _ _ _ _ _ _ Hmv) (pd_index _ _ _ _ _ Hpd)) as (i' & Hi' & En).
  destruct (update_of_spec _ _ _ _ _ _ _ _ st2 hash i i' Hi2 Hi' En) as (u & Eu & U1 & U2 & U3 & U4 & U5).
  erewrite bind_ok by (by apply base_ok, E1). erewrite bind_ok by (by apply base_ok, E2).
  erewrite bind_ok by reflexivity. cbn [id wl_cntrBlock WorldLine.set_cntrBlock]. rewrite Eu. erewrite bind_ok by reflexivity.
  eexists _, _, ty'. split; [reflexivity|]. split.
  - split; [done|]. cbn [wl_cntrBlock WorldLine.set_cntrBlock]. split.
    + eapply (best_started ty' st st1 st2 hash i g); [done|done|done|done| | | |done|exact Hmv].
      * intros f F' HF'. destruct (bs_fork Hi _ _ HF') as (_ & il' & gl' & [Hl _ _ _ _ _]). by eexists.
      * intros h j Hj E. destruct (BlockTree.fork_root _ (bs_tree Hi) _ _ Hj) as (o' & Ho' & _). congruence.
      * rewrite <- Ef. apply Hpd.
    + eapply moved_open; [|exact Hmv]. intros h j. rewrite Ei, Ef. intros [[<- <-]|[_ Hj]]%lookup_insert_Some E; [done|]. by eapply Hopen.
  - exists pos, i. split; [done|]. cbn. split; [by rewrite Ei2, Ei|].
    split; [by rewrite (mv_fork _ _ _ _ _ _ _ _ _ Hmv), Ef|]. rewrite U1, U2, U3, U4, U5, Hio1. rewrite (av_hash _ _ _ _ _ Hab), (av_time _ _ _ _ _ Hab). done.
Qed.

(** Everything after the checks *)
Lemma finish_origin k ty G wl block p gp F il gl profile :
  let hash := Block.GetHash CryptoHash block in
  wl_inv k ty G wl -> k + 1 < 2 ^ 32 -> offered CryptoHash universe block -> origin_regular G wl block ->
  cb_mapIndex (wl_cntrBlock wl) !! hash = None ->
  Core.ValidateBlock CryptoHash verify_detached size_type base64dec nNetTime hashGenesisBlock block = Return MV_OK ->
  cb_mapIndex (wl_cntrBlock wl) !! b_hashPrev block = Some p -> G !! b_hashPrev block = Some gp ->
  cb_mapFork (wl_cntrBlock wl) !! bi_pOrigin p = Some F -> fork_at G (wl_cntrBlock wl) (bi_pOrigin p) (bf_pIndexLast F) il gl ->
  Profile.Load (b_vchProof block) = Return (Some profile) ->
  exists wl' u ty',
    (view ← (if Profile.IsIsolated profile then mret BlockBase.EmptyView
             else or_fail (WorldLine.base (BlockBase.GetBlockView CryptoHash (b_hashPrev block) false)) MV_ERR_SYS_STORAGE_ERROR);
     let mint := b_txMint block in
     let view := if tx_nAmount mint =? 0 then view
       else WorldLine.set_view view (BlockView.AddTx (vw_view view) (txid mint) mint Destination.SetNull 0) in
     run_store hash block view) wl = Return (wl', inr u) /\
    wl_inv (k + 1) ty' (<[hash := origin_ghost profile gp block]> G) wl' /\ started wl wl' block p profile u.
Proof.
  intros hash Hwl Hk [A1 A2 A3] [Hty [A4 A5]] Hnew Hval Hp Hgp HF Hfa Hpf. pose proof Hwl as (Hi & Hbest & Hopen).
  pose proof (Ledger.validated_block_ok CryptoHash universe verify_detached size_type base64dec nNetTime hashGenesisBlock block Hval A2) as Hbo.
  assert (Hvac : Block.IsVacant block = false) by (unfold Block.IsVacant; by rewrite Hty).
  destruct (origin_view_spec k ty G wl block p gp F il gl profile MV_ERR_SYS_STORAGE_ERROR) as (st1 & view & E1 & Hi1 & Hs1 & Hov); [done..|by apply A5|].
  erewrite bind_ok by exact E1. cbv zeta. set (view1 := if tx_nAmount _ =? 0 then _ else _) in *.
  set (wl1 := WorldLine.set_cntrBlock wl st1).
  pose proof (proj1 (proj2 (Core.ValidateBlock_rules CryptoHash verify_detached size_type base64dec nNetTime hashGenesisBlock block)) Hval) as Hrules.
  rewrite Hty in Hrules. cbn in Hrules. pose proof (Core.block_origin _ _ _ _ _ _ _ Hrules Hty) as Hvtx.
  destruct (Ledger.blockex_fits block [] A1) as [Hvx Hsz];
    [by apply (Ledger.validated_size CryptoHash verify_detached size_type base64dec nNetTime hashGenesisBlock)|by rewrite Hvtx|].
  pose proof Hs1 as [X1 X2 _ (X3 & _ & _ & X4 & _)].
  assert (HF1 : cb_mapFork st1 !! bi_pOrigin p = Some F) by (by rewrite X2). destruct (bs_fork Hi1 _ _ HF1) as (_ & il1 & gl1 & Hfa1).
  destruct (store_origin k ty G wl1 block p gp F il1 gl1 profile (origin_ghost profile gp block) view1) as (wl' & u & ty' & E & Hinv & Hst); cbn; rewrite ?X1; try done.
  - split; [done|]. split; [by apply (same_base_best (wl_cntrBlock wl))|by apply (same_base_open (wl_cntrBlock wl))].
  - unfold Block.IsOrigin. by rewrite Hty.
  - unfold Block.IsPrimary. by rewrite Hty.
  - intros o. by apply A4.
  - unfold origin_ghost. by destruct (tx_nAmount _ =? 0).
  - destruct Hov as [V1 V2 V3 V4 V5]. split; try done. unfold base_content, fork_content in *. by rewrite X4.
  - exists wl', u, ty'. split; [exact E|]. split; [done|]. unfold started in *. cbn in Hst. by rewrite X1, X2 in Hst.
Qed.

(** ** The whole of AddNewOrigin *)

(** What [AddNewOrigin] returns from [wl], given the decision *)
Definition origin_result (k : Z) (ty : Objects) (G : Ghosts) (wl : CWorldLine) (block : CBlock)
    (run : outcome (CWorldLine * (MvErr + CWorldLineUpdate))) : Prop :=
  match decide_origin G wl block with
  | Return (inl err) => run = Return (wl, inl err)
  | Return (inr (p, profile, g)) => exists wl' u ty', let G' := <[Block.GetHash CryptoHash block := g]> G in
      run = Return (wl', inr u) /\ wl_inv (k + 1) ty' G' wl' /\ started wl wl' block p profile u
  | Throw x => run = Throw x
  | Undefined => run = Undefined
  end.

Lemma ValidateOrigin_profile block parent profile :
  Core.ValidateOrigin block parent = Return (MV_OK, profile) -> exists pf, profile = Some pf /\ Profile.Load (b_vchProof block) = Return (Some pf).
Proof.
  unfold Core.ValidateOrigin. destruct (Profile.Load (b_vchProof block)) as [[pf|]| |]; cbn [mbind outcome_bind]; try done.
  destruct (Profile.IsNull pf); [done|]. destruct (_ && _); [done|]. intros [= <-]. by exists pf.
Qed.

Lemma AddNewOrigin_result (k : Z) (ty : Objects) (G : Ghosts) (wl : CWorldLine) (block : CBlock) :
  wl_inv k ty G wl -> k + 1 < 2 ^ 32 -> offered CryptoHash universe block -> (origin_checked wl block -> origin_regular G wl block) ->
  origin_result k ty G wl block (AddNewOrigin io block wl).
Proof.
  intros Hwl Hk Hoff Hreg. pose proof Hwl as (Hi & Hbest & Hopen).
  unfold origin_result, decide_origin, WorldLine.AddNewOrigin. cbv zeta. set (hash := Block.GetHash CryptoHash block) in *.
  erewrite bind_ok by reflexivity. cbn [id]. destruct (BlockBase.Exists (wl_cntrBlock wl) hash) eqn:Ex; cbn [negb check].
  { by erewrite bind_err by reflexivity. }
  unfold BlockBase.Exists in Ex. apply bool_decide_eq_false in Ex. apply eq_None_not_Some in Ex. erewrite bind_ok by reflexivity.
  destruct (Core.ValidateBlock_rules CryptoHash verify_detached size_type base64dec nNetTime hashGenesisBlock block) as [[err Ev] Hrules].
  rewrite Ev. erewrite bind_ok by reflexivity. cbn [mbind outcome_bind]. unfold WorldLine.ok_or. case_bool_decide as Ee; cbn [negb].
  2: { by erewrite bind_err by reflexivity. }
  subst err. erewrite bind_ok by reflexivity.
  pose proof (RetrieveIndex_run (b_hashPrev block) wl MV_ERR_SYS_STORAGE_ERROR) as Eri.
  destruct (cb_mapIndex (wl_cntrBlock wl) !! b_hashPrev block) as [p|] eqn:Ep.
  2: { by erewrite bind_err by exact Eri. }
  destruct (bs_ghost Hi _ _ Ep) as (gp & Hgp & _). rewrite Hgp. erewrite bind_ok by exact Eri.
  destruct (Hopen _ _ Ep) as [F HF]. destruct (bs_fork Hi _ _ HF) as (_ & il & gl & Hfa). rewrite HF.
  erewrite bind_ok.
  2: { apply base_ok. unfold BlockBase.RetrieveProfile, BlockBase.GetFork. erewrite bind_ok by (by rewrite HF). reflexivity. }
  destruct (Core.ValidateOrigin block (bf_forkProfile F)) as [[err pf]|x|] eqn:Evo; cbn [mbind outcome_bind fst snd].
  2: { by erewrite bind_throw by reflexivity. }
  2: { by erewrite bind_stuck by reflexivity. }
  erewrite bind_ok by reflexivity. cbn [fst snd]. case_bool_decide as Ee; cbn [negb].
  2: { erewrite bind_err by reflexivity. by destruct wl. }
  subst err. destruct (ValidateOrigin_profile _ _ _ Evo) as (profile & -> & Hpf). cbn [default].
  erewrite bind_ok by reflexivity. erewrite bind_ok by reflexivity. cbn [id wl_cntrBlock WorldLine.set_cntrBlock].
  case_bool_decide as En; cbn [negb check].
  { erewrite bind_err by reflexivity. by destruct wl. }
  erewrite bind_ok by reflexivity. replace (WorldLine.set_cntrBlock wl (wl_cntrBlock wl)) with wl by (by destruct wl).
  assert (Hr : origin_regular G wl block) by (apply Hreg; split; [done|]; split; [done|]; by exists p, F, profile).
  exact (finish_origin k ty G wl block p gp F il gl profile Hwl Hk Hoff Hr Ex Ev Ep Hgp HF Hfa Hpf).
Qed.

End origin.

End Origin.
