(* ===== verification/World.v ===== *)
(** * The world line from the genesis block on

    A node starts with an empty block base, initiates it with the genesis block
    and from then on receives blocks and origins of forks.  [reached] are the
    states this leads to on a disk that does not fail, as long as the blocks that
    pass the checks are regular ([Accept.regular], [Origin.origin_regular]): the
    code relies on that and does not check it.  What fails a check can be any
    block.  The network time, the pool and the disk can be different at each
    call.

    The abstract counterpart of a state is a tree of ledgers ([ledger_tree]): for
    every block accepted, the unspent outputs after it, which are those before
    it with its transactions applied; an origin starts from the outputs of the
    block it leaves or from none.  [world_inv] ties both together. *)

From S2P Require Import Prelude RWLock Prog Cache Stream Destination Transaction Block Base.
From S2P Require Import Base25519 SC25519 Crypto Template Profile BlockIndex Core UnspentDB BlockView Chain BlockFork BlockTree.
From S2P Require Import TimeSeries CTSDB BlockStore BlockDB BlockBase WorldLine Ledger BaseInv BaseView BaseAdd BaseCommit BaseFork.
From S2P Require Import BlockVerify Accept Origin.

Import CWalleveStream.

Module World.

Import BlockStore BaseInv BaseView BaseAdd BaseCommit BaseFork Accept Origin.

(** ** The empty node *)

Definition FILE_CACHE_SIZE : Z := 0x2000000.

Definition start : CBlockBase :=
  mkBlockBase ∅ ∅ (TimeSeries.init FILE_CACHE_SIZE ∅) (mkBlockDB (mkForkDB ∅ ∅) ∅ ∅ ∅ (DelegateDB.init ∅)).

Lemma start_fresh (C : codec (list (Z * CTxIndex))) kd : fresh C kd 1 ∅ start.
Proof.
  destruct (TimeSeries.init_stored FILE_CACHE_SIZE) as [Hs Hc]; [unfold FILE_CACHE_SIZE; lia|].
  split; cbn [start cb_mapIndex cb_mapFork cb_tsBlock cb_dbBlock db_dbUnspent db_dbBlockIndex db_dbDelegate]; try done.
  - apply TimeSeries.init_files.
  - split; cbn; try done. split; [split; cbn; [constructor|lia]|]. intros x v Hx. done.
Qed.

Section world.
Context (CryptoHash : list Z -> Z) (verify_detached : list Z -> list Z -> Z -> bool) `{IEdwards} (size_type : nat).
Context (base64dec : list Z -> option (list Z)) `{IDelegateVerify}.
Context (C : codec (list (Z * CTxIndex))) (kv_order : MapType -> list (CTxOutPoint * CTxOutput)).
Context (universe : CTransaction -> Prop) (output_at : CTxOutPoint -> CTxOutput) (kd : Z).

Notation AddNewBlock pool_Exists io nNetTime hashGenesisBlock :=
  (WorldLine.AddNewBlock CryptoHash verify_detached size_type base64dec C kv_order pool_Exists io true nNetTime hashGenesisBlock).
Notation AddNewOrigin io nNetTime hashGenesisBlock :=
  (WorldLine.AddNewOrigin CryptoHash verify_detached size_type base64dec C kv_order io true nNetTime hashGenesisBlock).
Notation decide_block pool_Exists nNetTime hashGenesisBlock :=
  (decide_block CryptoHash verify_detached size_type base64dec pool_Exists nNetTime hashGenesisBlock).
Notation decide_origin nNetTime hashGenesisBlock :=
  (decide_origin CryptoHash verify_detached size_type base64dec nNetTime hashGenesisBlock).
Notation block_hash := (Block.GetHash CryptoHash).
Notation wl_inv := (wl_inv CryptoHash C universe output_at kd).

(** ** The tree of ledgers *)

(** The ledger of every block follows from that of its predecessor. *)
Definition ledger_tree (hashGenesis : Z) (G : Ghosts) : Prop :=
  forall h g, G !! h = Some g ->
    let b := bex_block (gh_block g) in
    h = block_hash b /\
    if h =? hashGenesis then g = genesis_ghost CryptoHash b
    else exists gp, G !! b_hashPrev b = Some gp /\
      if Block.IsOrigin b
      then exists profile, Profile.Load (b_vchProof b) = Return (Some profile) /\ g = origin_ghost CryptoHash profile gp b
      else ghost_extends CryptoHash output_at gp g.

Record world_inv (hashGenesis k : Z) (ty : Objects) (G : Ghosts) (wl : CWorldLine) : Prop := {
  wi_base : wl_inv k ty G wl;
  wi_tree : ledger_tree hashGenesis G;
  wi_dom : dom G = dom (cb_mapIndex (wl_cntrBlock wl));
  wi_genesis : is_Some (G !! hashGenesis);
}.

Definition after_block (G : Ghosts) (hash : Z) {A : Type} (r : outcome (MvErr + A * Ghost)) : Ghosts :=
  match r with Return (inr (_, g)) => <[hash := g]> G | _ => G end.

(** What is assumed of the pool that [AddNewBlock] asks *)
Context (pool_ok : (Z -> bool) -> Prop).

Notation checked nNetTime hashGenesisBlock := (checked CryptoHash verify_detached size_type base64dec nNetTime hashGenesisBlock).
Notation origin_checked nNetTime hashGenesisBlock :=
  (origin_checked CryptoHash verify_detached size_type base64dec nNetTime hashGenesisBlock).

(** The states a node reaches from its genesis block, by blocks and origins that
    are regular if they pass the checks *)
Inductive reached (hashGenesis : Z) : Z -> Ghosts -> CWorldLine -> Prop :=
  | re_init io block profile st :
      BlockDB.disk_ok io -> genesis_ok universe hashGenesis block profile -> hashGenesis = block_hash block ->
      BlockBase.Initiate CryptoHash C kv_order io true hashGenesis block start = Return (st, inr tt) ->
      reached hashGenesis 2 {[hashGenesis := genesis_ghost CryptoHash block]} (WorldLine.init st)
  | re_block k G wl io pool_Exists nNetTime block wl' r :
      reached hashGenesis k G wl -> k + 1 < 2 ^ 32 -> BlockDB.disk_ok io -> pool_ok pool_Exists ->
      offered CryptoHash universe block -> (checked nNetTime hashGenesis wl block -> regular CryptoHash G wl block) ->
      AddNewBlock pool_Exists io nNetTime hashGenesis block wl = Return (wl', r) ->
      reached hashGenesis (k + 1) (after_block G (block_hash block) (decide_block pool_Exists nNetTime hashGenesis G wl block)) wl'
  | re_origin k G wl io nNetTime block wl' r :
      reached hashGenesis k G wl -> k + 1 < 2 ^ 32 -> BlockDB.disk_ok io ->
      offered CryptoHash universe block -> (origin_checked nNetTime hashGenesis wl block -> origin_regular CryptoHash G wl block) ->
      AddNewOrigin io nNetTime hashGenesis block wl = Return (wl', r) ->
      reached hashGenesis (k + 1) (after_block G (block_hash block) (decide_origin nNetTime hashGenesis G wl block)) wl'.

Context `{!Ledger.Naming CryptoHash universe output_at} `{!CodecOk C} (kv_order_perm : forall m, kv_order m ≡ₚ map_to_list m) (Hkd : 1 <= kd).

Lemma wl_inv_mono k k' ty G wl : k <= k' -> wl_inv k ty G wl -> wl_inv k' ty G wl.
Proof.
  intros Hk [[] Ho]. split; [|done]. split; try done. destruct bs_files0 as [? Hf]. split; [lia|]. intros n Hn%Hf. lia.
Qed.

(** A block added to the tree *)
Lemma ledger_tree_insert hashGenesis G g gp :
  let b := bex_block (gh_block g) in
  ledger_tree hashGenesis G -> G !! block_hash b = None -> block_hash b <> hashGenesis -> G !! b_hashPrev b = Some gp ->
  (if Block.IsOrigin b
   then exists profile, Profile.Load (b_vchProof b) = Return (Some profile) /\ g = origin_ghost CryptoHash profile gp b
   else ghost_extends CryptoHash output_at gp g) ->
  ledger_tree hashGenesis (<[block_hash b := g]> G).
Proof.
  intros b Ht Hnew Hne Hp Hg h g' [[<- <-]|[Hh Hg']]%lookup_insert_Some; cbv zeta.
  - split; [reflexivity|]. fold b. rewrite (proj2 (Z.eqb_neq _ _) Hne).
    exists gp. rewrite lookup_insert_ne by congruence. split; [exact Hp|exact Hg].
  - destruct (Ht h g' Hg') as [E Hh']. split; [exact E|]. destruct (h =? hashGenesis); [exact Hh'|].
    destruct Hh' as (gp' & Hp' & Hg''). exists gp'. rewrite lookup_insert_ne by congruence. split; [exact Hp'|exact Hg''].
Qed.

(** ** Steps *)

Lemma decide_block_inr pool_Exists nNetTime hashGenesis G wl block p g :
  decide_block pool_Exists nNetTime hashGenesis G wl block = Return (inr (p, g)) ->
  checked nNetTime hashGenesis wl block /\ bex_block (gh_block g) = block /\ Block.IsOrigin block = false /\
  cb_mapIndex (wl_cntrBlock wl) !! b_hashPrev block = Some p /\
  exists gp nReward cs, G !! b_hashPrev block = Some gp /\
    Ledger.check_block CryptoHash verify_detached size_type pool_Exists (bi_nHeight p) nReward (gh_utxo gp) block = Return (inr (gh_utxo g, cs)).
Proof.
  unfold Accept.decide_block. cbv zeta. unfold BlockBase.Exists. case_bool_decide as Ex; [done|]. apply eq_None_not_Some in Ex.
  destruct (Core.ValidateBlock _ _ _ _ _ _ _) as [err| |] eqn:Eb; cbn [mbind outcome_bind]; try done.
  case_bool_decide as Ee; cbn [negb]; [|done]. subst err.
  destruct (cb_mapIndex _ !! b_hashPrev block) as [p'|] eqn:Ep; [|done]. destruct (G !! b_hashPrev block) as [gp|]; [|done].
  destruct (WorldLine.VerifyBlock _ _ _ _ _) as [[wl1 [err'|nReward]]| |] eqn:Ev; cbn [mbind outcome_bind snd]; try done.
  destruct (Ledger.check_block _ _ _ _ _ _ _ _) as [[err'|[m cs]]| |] eqn:Ec; cbn [mbind outcome_bind]; try done. intros [= <- <-].
  split; [split; [done|]; split; [done|]; by exists p', wl1, nReward|]. split; [done|]. split; [by eapply VerifyBlock_kind|].
  split; [done|]. by exists gp, nReward, cs.
Qed.

Lemma decide_origin_inr nNetTime hashGenesis G wl block p profile g :
  decide_origin nNetTime hashGenesis G wl block = Return (inr (p, profile, g)) ->
  origin_checked nNetTime hashGenesis wl block /\ bex_block (gh_block g) = block /\
  Profile.Load (b_vchProof block) = Return (Some profile) /\ cb_mapIndex (wl_cntrBlock wl) !! b_hashPrev block = Some p /\
  exists gp, G !! b_hashPrev block = Some gp /\ g = origin_ghost CryptoHash profile gp block.
Proof.
  unfold Origin.decide_origin. cbv zeta. unfold BlockBase.Exists. case_bool_decide as Ex; [done|]. apply eq_None_not_Some in Ex.
  destruct (Core.ValidateBlock _ _ _ _ _ _ _) as [err| |] eqn:Eb; cbn [mbind outcome_bind]; try done.
  case_bool_decide as Eo; cbn [negb]; [|done]. subst err.
  destruct (cb_mapIndex _ !! b_hashPrev block) as [p'|] eqn:Ep; [|done]. destruct (G !! b_hashPrev block) as [gp|]; [|done].
  destruct (cb_mapFork _ !! _) as [F|] eqn:EF; [|done].
  destruct (Core.ValidateOrigin _ _) as [[err1 pf]| |] eqn:Ev; cbn [mbind outcome_bind fst snd]; try done. case_bool_decide as Ee; [|done]. cbn [negb].
  subst err1. destruct (ValidateOrigin_profile _ _ _ Ev) as (pf' & -> & Hpf). cbn [default]. case_bool_decide; [done|].
  intros [= <- <- <-]. split; [split; [done|]; split; [done|]; by exists p', F, pf'|].
  split; [unfold origin_ghost; by destruct (tx_nAmount _ =? 0)|]. split; [done|]. split; [done|]. by exists gp.
Qed.

Lemma world_init io block profile st hashGenesis :
  BlockDB.disk_ok io -> genesis_ok universe hashGenesis block profile -> hashGenesis = block_hash block ->
  BlockBase.Initiate CryptoHash C kv_order io true hashGenesis block start = Return (st, inr tt) ->
  exists ty, world_inv hashGenesis 2 ty {[hashGenesis := genesis_ghost CryptoHash block]} (WorldLine.init st).
Proof.
  intros Hio Hgn -> E. destruct (Initiate_result CryptoHash universe output_at C kv_order kv_order_perm kd 1 Hkd ∅ io Hio start (block_hash block) block profile (start_fresh C kd))
    as (st' & ty & pos & E' & Hi & Hb & Ho & Ei & _); [lia|done|].
  assert (st' = st) as -> by congruence. exists ty. split; cbn.
  - done.
  - intros h g [<- <-]%lookup_singleton_Some. cbv zeta. cbn. split; [done|]. by rewrite Z.eqb_refl.
  - by rewrite Ei, !dom_singleton_L.
  - rewrite lookup_singleton_eq. by eexists.
Qed.

Lemma next_only_dom o (st st' : Indexes) : BlockFork.next_only o st st' -> dom st' = dom st.
Proof.
  intros Hn. apply set_eq. intros h. rewrite !elem_of_dom. specialize (Hn h).
  destruct (st !! h), (st' !! h); try done; split; intros []; done.
Qed.

Lemma world_block hashGenesis k ty G wl io pool_Exists nNetTime block wl' r :
  world_inv hashGenesis k ty G wl -> k + 1 < 2 ^ 32 -> BlockDB.disk_ok io -> offered CryptoHash universe block ->
  (checked nNetTime hashGenesis wl block -> regular CryptoHash G wl block) ->
  AddNewBlock pool_Exists io nNetTime hashGenesis block wl = Return (wl', r) ->
  exists ty', world_inv hashGenesis (k + 1) ty' (after_block G (block_hash block) (decide_block pool_Exists nNetTime hashGenesis G wl block)) wl'.
Proof.
  intros [Hwl Ht Hdom Hgen] Hk Hio Hoff Hreg E.
  pose proof (AddNewBlock_result CryptoHash verify_detached size_type base64dec C kv_order pool_Exists nNetTime hashGenesis universe output_at kd kv_order_perm io Hio k ty G wl block Hwl Hk Hoff Hreg) as Hr.
  unfold block_result in Hr. destruct (decide_block _ _ _ G wl block) as [[err|[p g]]|x|] eqn:Ed; cbn [after_block]; [| |congruence..].
  - destruct Hr as (wl1 & E1 & Hi1 & Hs1). assert (wl1 = wl') as -> by congruence. exists ty. destruct Hs1 as [Ei _ _ _].
    split; [by apply (wl_inv_mono k); [lia|]|done|by rewrite Ei|done].
  - destruct Hr as (wl1 & upd & ty' & E1 & Hi1 & Hacc). assert (wl1 = wl') as -> by congruence. exists ty'.
    destruct (decide_block_inr _ _ _ _ _ _ _ _ Ed) as ((Hnew & _) & Eb & Ho & _ & gp & _ & _ & Hgp & _). destruct Hacc as (pos & i & F & il & Hab & Hno & _).
    assert (HG : G !! block_hash block = None) by (apply not_elem_of_dom; rewrite Hdom; by apply not_elem_of_dom).
    split; [done| | |].
    + rewrite <- Eb in HG, Hgp, Ho |- *. eapply ledger_tree_insert; [done|done|intros E0; rewrite E0 in HG; destruct Hgen as [? Hgen]; congruence|done|]. rewrite Ho.
      destruct (BlockFork.next_only_lookup _ _ _ _ _ Hno (lookup_insert_eq _ _ _)) as (i' & Hi' & En).
      apply BlockFork.with_next_fields in En as (_ & _ & Ep & Et).
      apply (bs_extends (proj1 Hi1) (block_hash block) i' (b_hashPrev block)); [done| | |by rewrite lookup_insert_eq|].
      * unfold BlockIndex.IsOrigin. rewrite Et, (av_type _ _ _ _ _ Hab). by rewrite Eb in Ho.
      * by rewrite Ep, (av_prev _ _ _ _ _ Hab).
      * rewrite Eb in HG, Hgp. rewrite lookup_insert_ne by congruence. done.
    + rewrite (next_only_dom _ _ _ Hno), !dom_insert_L. by rewrite Hdom.
    + apply lookup_insert_is_Some'. by right.
Qed.

Lemma world_origin hashGenesis k ty G wl io nNetTime block wl' r :
  world_inv hashGenesis k ty G wl -> k + 1 < 2 ^ 32 -> BlockDB.disk_ok io -> offered CryptoHash universe block ->
  (origin_checked nNetTime hashGenesis wl block -> origin_regular CryptoHash G wl block) ->
  AddNewOrigin io nNetTime hashGenesis block wl = Return (wl', r) ->
  exists ty', world_inv hashGenesis (k + 1) ty' (after_block G (block_hash block) (decide_origin nNetTime hashGenesis G wl block)) wl'.
Proof.
  intros [Hwl Ht Hdom Hgen] Hk Hio Hoff Hreg E.
  pose proof (AddNewOrigin_result CryptoHash verify_detached size_type base64dec C kv_order nNetTime hashGenesis universe output_at kd kv_order_perm io Hio Hkd k ty G wl block Hwl Hk Hoff Hreg) as Hr.
  unfold origin_result in Hr. destruct (decide_origin _ _ G wl block) as [[err|[[p profile] g]]|x|] eqn:Ed; cbn [after_block]; [| |congruence..].
  - assert (wl' = wl) as -> by congruence. exists ty. split; [by apply (wl_inv_mono k); [lia|]|done..].
  - destruct Hr as (wl1 & upd & ty' & E1 & Hi1 & Hst). assert (wl1 = wl') as -> by congruence. exists ty'.
    destruct (decide_origin_inr _ _ _ _ _ _ _ _ Ed) as (Hch & Eb & Hpf & _ & gp & Hgp & Eg). pose proof Hch as (Hnew & _).
    destruct (Hreg Hch) as [Hty _]. destruct Hst as (pos & i & Hab & Ei & _).
    assert (HG : G !! block_hash block = None) by (apply not_elem_of_dom; rewrite Hdom; by apply not_elem_of_dom).
    split; [done| | |].
    + assert (Ho : Block.IsOrigin block = true) by (unfold Block.IsOrigin; by rewrite Hty).
      rewrite <- Eb in HG, Hgp, Ho, Hpf |- *. eapply ledger_tree_insert; [done|done|intros E0; rewrite E0 in HG; destruct Hgen as [? Hgen]; congruence|done|]. rewrite Ho.
      exists profile. split; [done|]. by rewrite Eb.
    + by rewrite Ei, !dom_insert_L, Hdom.
    + apply lookup_insert_is_Some'. by right.
Qed.

Lemma reached_inv hashGenesis k G wl : reached hashGenesis k G wl -> exists ty, world_inv hashGenesis k ty G wl.
Proof.
  induction 1 as [io block profile st Hio Hgn Eh E|k G wl io pool_Exists nNetTime block wl' r _ [ty IH] Hk Hio _ Hoff Hreg E|k G wl io nNetTime block wl' r _ [ty IH] Hk Hio Hoff Hreg E].
  - by eapply world_init.
  - by eapply world_block.
  - by eapply world_origin.
Qed.

(** ** What a reached state holds *)

(** The fork [f] at the chain [p] of its blocks above its origin [o]: the blocks
    can be read back, the unspent outputs are those of replaying them on what the
    fork started with, and no block of the fork has more trust than the last. *)
Record replayed (G : Ghosts) (st : CBlockBase) (f : Z) (F : CBlockFork) (p : list CBlockIndex) (o : CBlockIndex)
    (gs : list Ghost) (g0 : Ghost) : Prop := {
  rp_chain : exists rest, BlockTree.root_chain (cb_mapIndex st) (bf_pIndexLast F) (p ++ o :: rest);
  rp_origin : bi_hash o = f /\ BlockIndex.IsOrigin o = true;
  rp_members : Forall (fun i => BlockIndex.IsOrigin i = false /\ bi_pOrigin i = f) p;
  rp_blocks : Forall2 (fun i g => exists st', BlockBase.RetrieveBlockEx i st = Return (st', inr (gh_block g))) (p ++ [o]) (gs ++ [g0]);
  rp_ghost : G !! f = Some g0;
  rp_unspent : forall out, BlockBase.GetTxUnspent st f out =
    BlockView.apply_txs (gh_utxo g0) (BlockView.branch_txs CryptoHash (rev (blocks gs))) !! out;
  rp_best : forall h j, cb_mapIndex st !! h = Some j -> bi_pOrigin j = f -> bi_nChainTrust j <= bi_nChainTrust (hd o p);
}.

Lemma fork_replayed k ty G wl f F :
  wl_inv k ty G wl -> cb_mapFork (wl_cntrBlock wl) !! f = Some F -> exists p o gs g0, replayed G (wl_cntrBlock wl) f F p o gs g0.
Proof.
  set (st := wl_cntrBlock wl). intros (Hi & Hb & _) HF. fold st in Hi, Hb. destruct (bs_fork Hi _ _ HF) as (_ & i & g & [Hl Ho Hg Hc _ _]).
  pose proof (bs_tree Hi) as Ht. destruct (BlockTree.tr_chain _ Ht _ _ Hl) as [l Hcl].
  destruct (BlockTree.tree_rooted _ Ht _ _ _ Hl Hcl) as (o & rest & Hoo & _ & (p & -> & _)).
  destruct (BlockTree.fork_root _ Ht _ _ Hl) as (o' & Ho' & Hor & _). assert (o' = o) as -> by congruence. rewrite Ho in Hoo.
  pose proof (branch_members _ p _ _ (o :: rest) o Ht Hl Hcl ltac:(congruence) ltac:(by left)) as Hm. rewrite Ho in Hm.
  pose proof (BlockTree.tr_key _ Ht _ _ Hoo) as Ek. destruct (bs_ghost Hi _ _ Hoo) as (g0 & Hg0 & _).
  destruct (chain_ghosts _ _ _ _ _ _ _ _ st _ _ Hi Hcl) as [gs' Hgs]. apply Forall2_app_inv_l in Hgs as (gs & gsr & Hgs & Hgr & ->).
  assert (HgS : ghosts_of G st (p ++ [o]) (gs ++ [g0])).
  { apply Forall2_app; [done|]. constructor; [by rewrite Ek|constructor]. }
  exists p, o, gs, g0. split; [by exists rest|done|done| |done| |].
  - eapply Forall2_impl; [exact HgS|]. intros x gx [Hx Hgx].
    destruct (RetrieveBlockEx_spec _ _ _ _ _ _ _ _ st (bi_hash x) x gx Hi Hx Hgx) as (st' & E & _). by exists st'.
  - intros out. unfold BlockBase.GetTxUnspent, BlockDB.RetrieveTxUnspent. rewrite UnspentDB.Retrieve_contents by apply (bs_stores Hi).
    unfold fork_content in Hc. rewrite Hc. cbn. destruct (branch_replay _ _ _ _ _ _ _ _ st _ p gs o g0 rest Hi Hcl) as (Eu & _ & _).
    + eapply Forall_impl; [exact Hm|]. by intros x [].
    + done.
    + by rewrite Ek.
    + rewrite (hd_ghost CryptoHash universe output_at C kd k ty G st (bf_pIndexLast F) p gs o rest g0 g) in Eu; [by rewrite Eu|done|done|done|by rewrite Ek|done].
  - intros h j Hj Hoj. assert (hd o p = i) as ->; [|by apply (Hb f F HF i h)].
    destruct (BlockTree.root_chain_head _ _ _ Hcl) as (x & l' & Ex & Hx). assert (x = i) as -> by congruence. destruct p; cbn in *; congruence.
Qed.

End world.

End World.
