(* ===== verification/Money.v ===== *)
(** * Money

    The index of a block records the money supply: the sum of what the blocks up
    to it mint ([CBlock::GetBlockMint]), as an [int64].  This file compares it
    with the outputs that can be spent: in every state that [reached] describes,
    the recorded supply of the last block of a fork is the sum of the unspent
    outputs of the fork, and of what the parent chain held where an isolated fork
    left it, which the record counts although the fork does not have it.

    [AddNewBlock] checks the amounts of the transactions that are not in the pool;
    of those in the pool it has to be assumed that they were checked when they
    came ([pool_verified], what [Dispatcher.AddNewTx_accepts] says of them). *)

From S2P Require Import Prelude RWLock Prog Cache Stream Destination Transaction Block Base.
From S2P Require Import Base25519 SC25519 Crypto Template Profile BlockIndex Core UnspentDB BlockView Chain BlockFork BlockTree.
From S2P Require Import TimeSeries CTSDB BlockStore BlockDB BlockBase WorldLine Ledger BaseInv BaseView BaseAdd BaseCommit BaseFork.
From S2P Require Import BlockVerify Accept Origin World.

Import CWalleveStream.

Module Money.

Import BlockView BlockStore BaseInv BaseAdd BaseFork Accept Origin World.

(** ** Transactions *)

Lemma GetValueIn_sum c : eqm64 (Tx.contxt_GetValueIn c) (sum_in c).
Proof.
  unfold Tx.contxt_GetValueIn, sum_in. enough (G : forall l s, eqm64 (foldl (fun n i => i64 (n + inc_nAmount i)) s l)
    (s + foldr (fun i s => inc_nAmount i + s) 0 l)) by apply (G _ 0).
  induction l as [|i l IH]; intros s; cbn [foldl foldr]; [by rewrite Z.add_0_r|]. rewrite IH, eqm64_wrap.
  by rewrite Z.add_assoc.
Qed.

(** The amounts of a transaction, in range and covered by the value of its inputs *)
Record amounts_ok (tx : CTransaction) (nValueIn : Z) : Prop := {
  am_amount : 0 <= tx_nAmount tx <= MAX_MONEY;
  am_fee : 0 <= tx_nTxFee tx <= MAX_MONEY;
  am_sendTo : Destination.IsNull (tx_sendTo tx) = false;
  am_covered : tx_nAmount tx + tx_nTxFee tx <= nValueIn < 2 ^ 63;
}.

(** A transaction destroys its fee. *)
Lemma total_spend m t :
  applies m t -> amounts_ok (lt_tx t) (Tx.contxt_GetValueIn (lt_contxt t)) -> Destination.IsNull (ctx_destIn (lt_contxt t)) = false ->
  eqm64 (total (apply_tx m t) + tx_nTxFee (lt_tx t)) (total m).
Proof.
  intros Ha [A1 A2 A3 A4] Hd. rewrite total_apply; [|done|].
  2: { unfold Tx.output_IsNull. cbn [out_destTo out_nAmount Tx.output_of_tx]. rewrite A3. cbn [orb]. intros. bool_to_prop. lia. }
  set (v := Tx.contxt_GetValueIn (lt_contxt t)) in *. assert (Hv : eqm64 v (sum_in (lt_contxt t))) by apply GetValueIn_sum.
  assert (Hc : out_nAmount (change_of t) = v - tx_nAmount (lt_tx t) - tx_nTxFee (lt_tx t)).
  { unfold change_of, Tx.output_change, Tx.GetChange. cbn [out_nAmount]. fold v. apply swrap_small; lia. }
  assert (Hn : (if Tx.output_IsNull (change_of t) then 0 else out_nAmount (change_of t)) = v - tx_nAmount (lt_tx t) - tx_nTxFee (lt_tx t)).
  { unfold Tx.output_IsNull. change (out_destTo (change_of t)) with (ctx_destIn (lt_contxt t)). rewrite Hd, Hc. cbn [orb].
    destruct (Z.leb_spec (v - tx_nAmount (lt_tx t) - tx_nTxFee (lt_tx t)) 0); lia. }
  rewrite Hn, <- Hv. by replace (total m - v + tx_nAmount (lt_tx t) + (v - tx_nAmount (lt_tx t) - tx_nTxFee (lt_tx t)) + tx_nTxFee (lt_tx t))
    with (total m) by lia.
Qed.

(** A mint transaction creates its amount. *)
Lemma total_mint CryptoHash m tx :
  applies m (Ledger.link CryptoHash tx null_contxt) -> 0 <= tx_nAmount tx ->
  (Destination.IsNull (tx_sendTo tx) = true -> tx_nAmount tx = 0) ->
  total (apply_tx m (Ledger.link CryptoHash tx null_contxt)) = total m + tx_nAmount tx.
Proof.
  intros Ha H0 Hd. rewrite total_apply; [|done|].
  - cbn [lt_contxt lt_tx Ledger.link sum_in null_contxt ctx_vin foldr].
    assert (Tx.output_IsNull (change_of (Ledger.link CryptoHash tx null_contxt)) = true) as -> by done. lia.
  - unfold Tx.output_IsNull. cbn [lt_tx Ledger.link Tx.output_of_tx out_destTo out_nAmount]. intros [E|E]%orb_true_iff; [auto|]. bool_to_prop. lia.
Qed.

Section money.
Context (CryptoHash : list Z -> Z) (verify_detached : list Z -> list Z -> Z -> bool) `{IEdwards} (size_type : nat).
Context (base64dec : list Z -> option (list Z)) `{IDelegateVerify}.
Context (C : codec (list (Z * CTxIndex))) (kv_order : MapType -> list (CTxOutPoint * CTxOutput)).
Context (universe : CTransaction -> Prop) (output_at : CTxOutPoint -> CTxOutput) (kd : Z).

Notation txid := (Tx.GetHash CryptoHash).
Notation ledger_ok := (Ledger.ledger_ok CryptoHash universe output_at).
Notation spending := (Ledger.spending universe).

(** The transactions of the pool were checked when they came: their inputs cover
    amount and fee. *)
Definition pool_verified (pool_Exists : Z -> bool) : Prop :=
  forall tx c, universe tx -> pool_Exists (txid tx) = true -> WorldLine.GetTxContxt (fun o => Some (output_at o)) tx = inr c ->
    tx_nAmount tx + tx_nTxFee tx <= Tx.contxt_GetValueIn c.

(** What validation says of a transaction that is not a mint *)
Definition tx_checked (tx : CTransaction) : Prop := spending tx /\ Core.tx_valid base64dec tx.

Context `{!Ledger.Naming CryptoHash universe output_at}.

Lemma contxt_named m ids tx c :
  ledger_ok m ids -> Ledger.contxt_in m tx = inr c -> WorldLine.GetTxContxt (fun o => Some (output_at o)) tx = inr c.
Proof.
  intros Hm. apply Ledger.contxt_loop_mono. intros o x Hx. by apply (Ledger.lg_named _ _ _ _ _ Hm) in Hx as [-> _].
Qed.

Lemma contxt_dest m ids tx c :
  ledger_ok m ids -> spending tx -> Ledger.contxt_in m tx = inr c -> Destination.IsNull (ctx_destIn c) = false.
Proof.
  intros Hm (_ & Hne & _) E. apply (Ledger.contxt_in_spec CryptoHash universe output_at m ids Hm) in E. unfold input_outs in E.
  destruct (tx_vInput tx) as [|i vin]; [done|]. cbn in E. inversion E as [|o x os xs Ho _]; subst.
  apply (Ledger.lg_named _ _ _ _ _ Hm) in Ho as [_ Hn]. unfold Tx.output_IsNull in Hn. by apply orb_false_iff in Hn as [? _].
Qed.

Lemma GetValueIn_range c : Tx.contxt_GetValueIn c < 2 ^ 63.
Proof.
  unfold Tx.contxt_GetValueIn. enough (G : forall l s, s < 2 ^ 63 -> foldl (fun n i => i64 (n + inc_nAmount i)) s l < 2 ^ 63) by (apply G; lia).
  induction l as [|i l IH]; intros s Hs; cbn [foldl]; [done|]. apply IH. unfold swrap.
  pose proof (Z.mod_pos_bound (s + inc_nAmount i + 2 ^ (64 - 1)) (2 ^ 64) ltac:(lia)). lia.
Qed.

(** What the check of a transaction leaves of its amounts *)
Lemma verified_amounts pool_Exists nHeight m ids tx c :
  pool_verified pool_Exists -> ledger_ok m ids -> tx_checked tx -> Ledger.contxt_in m tx = inr c ->
  Ledger.verify_tx CryptoHash verify_detached size_type pool_Exists nHeight tx c = Return MV_OK ->
  amounts_ok tx (Tx.contxt_GetValueIn c).
Proof.
  intros Hp Hm [Hs Hv] Ec Ever. pose proof (Core.valid_amount _ _ Hv) as Ha. pose proof (Core.valid_fee _ _ Hv) as Hf.
  split; [done|done|apply (Core.valid_sendTo _ _ Hv)|]. split; [|apply GetValueIn_range]. unfold Ledger.verify_tx in Ever.
  destruct (pool_Exists (txid tx)) eqn:Ep.
  - apply (Hp tx c); [apply Hs|done|]. by apply (contxt_named m ids).
  - unfold Core.VerifyBlockTx in Ever. destruct (Core.contxt_value _ _ _ _) as [v|] eqn:Ev; [|done].
    apply Core.contxt_value_total in Ev. fold (Tx.contxt_GetValueIn c) in Ev. subst v. destruct (negb _); [done|].
    destruct (Z.ltb_spec (Tx.contxt_GetValueIn c) (i64 (tx_nAmount tx + tx_nTxFee tx))) as [|Hle]; [done|].
    rewrite swrap_small in Hle; [done|lia|]. unfold MAX_MONEY, COIN in *. lia.
Qed.

(** ** Blocks *)

Lemma check_txs_total pool_Exists nHeight vtx m ids cs nFee m' cs' nFee' :
  pool_verified pool_Exists -> ledger_ok m ids -> Forall tx_checked vtx ->
  Ledger.check_txs CryptoHash verify_detached size_type pool_Exists nHeight vtx m cs nFee = Return (inr (m', cs', nFee')) ->
  eqm64 (total m' + nFee') (total m + nFee) /\
  nFee' = foldl (fun nTotalTxFee tx => i64 (nTotalTxFee + tx_nTxFee tx)) nFee vtx.
Proof.
  intros Hp Hm Hv. revert m ids cs nFee Hm. induction Hv as [|tx vtx Htx Hv IH]; intros m ids cs nFee Hm; cbn [Ledger.check_txs].
  { by intros [= <- <- <-]. }
  destruct (Ledger.contxt_in m tx) as [|c] eqn:Ec; [done|].
  destruct (Ledger.verify_tx _ _ _ _ _ _ _) as [err| |] eqn:Ever; cbn [mbind outcome_bind]; [|done..]. case_bool_decide as Ee; [|done]. subst err.
  intros E. pose proof (proj1 Htx) as Hs.
  pose proof (Ledger.contxt_in_new CryptoHash universe output_at m ids Hm _ _ Hs Ec) as Hid.
  pose proof (Ledger.spending_applies CryptoHash universe output_at m ids Hm _ _ Hs Ec) as Ha.
  pose proof (Ledger.contxt_in_named CryptoHash universe output_at m ids Hm _ _ (proj1 Hs) Ec) as Hn.
  pose proof (Ledger.ledger_apply CryptoHash universe output_at m ids Hm _ _ (proj1 Hs) Hn Ha Hid) as Hm'.
  destruct (IH _ _ _ _ Hm' E) as [Et Ef]. split; [|exact Ef]. rewrite Et, eqm64_wrap.
  pose proof (total_spend m _ Ha (verified_amounts _ _ _ _ _ _ Hp Hm Htx Ec Ever) (contxt_dest m ids tx c Hm Hs Ec)) as Hsp.
  cbn [lt_tx Ledger.link] in Hsp. by rewrite (Z.add_comm nFee), Z.add_assoc, Hsp.
Qed.

(** The transactions of a validated block *)
Lemma validated_txs nNetTime hashGenesisBlock block :
  Core.ValidateBlock CryptoHash verify_detached size_type base64dec nNetTime hashGenesisBlock block = Return MV_OK ->
  Forall universe (b_txMint block :: b_vtx block) ->
  Forall tx_checked (b_vtx block) /\ 0 <= tx_nAmount (b_txMint block) /\
  (Destination.IsNull (tx_sendTo (b_txMint block)) = true -> tx_nAmount (b_txMint block) = 0).
Proof.
  intros Hv Hu. pose proof (Ledger.validated_block_ok CryptoHash universe verify_detached size_type base64dec nNetTime hashGenesisBlock block Hv Hu) as Hbo.
  apply (proj2 (Core.ValidateBlock_rules CryptoHash verify_detached size_type base64dec nNetTime hashGenesisBlock block)) in Hv.
  destruct (b_nType block =? Block.BLOCK_VACANT).
  - destruct Hv as (_ & _ & -> & -> & _). split; [constructor|]. split; [done|]. by intros _.
  - destruct (Core.block_mint _ _ _ _ _ _ _ Hv) as [_ Hmint]. pose proof (Core.valid_amount _ _ Hmint). split; [|split; [lia|]].
    + pose proof (Core.block_vtx _ _ _ _ _ _ _ Hv) as Hvtx. pose proof (Ledger.bo_vtx _ _ Hbo) as Hs. rewrite Forall_forall in Hvtx, Hs.
      apply Forall_forall. intros tx Htx. split; [by apply Hs|by apply Hvtx].
    + rewrite (Core.valid_sendTo _ _ Hmint). done.
Qed.

Lemma check_block_total pool_Exists nHeight nReward nNetTime hashGenesisBlock m ids block m' cs :
  pool_verified pool_Exists -> ledger_ok m ids ->
  Core.ValidateBlock CryptoHash verify_detached size_type base64dec nNetTime hashGenesisBlock block = Return MV_OK ->
  Forall universe (b_txMint block :: b_vtx block) -> (Block.IsVacant block = false -> txid (b_txMint block) ∉ ids) ->
  Ledger.check_block CryptoHash verify_detached size_type pool_Exists nHeight nReward m block = Return (inr (m', cs)) ->
  eqm64 (total m') (total m + Block.GetBlockMint block).
Proof.
  intros Hp Hm Hv Hu Hnew. pose proof (Ledger.validated_block_ok CryptoHash universe verify_detached size_type base64dec nNetTime hashGenesisBlock block Hv Hu) as [O1 O2 O3 O4].
  destruct (validated_txs _ _ _ Hv Hu) as (Htx & Hamt & Hd). unfold Ledger.check_block.
  set (m1 := Ledger.after_mint CryptoHash m block).
  assert (Hmint : exists ids1, ledger_ok m1 ids1 /\ total m1 = total m + tx_nAmount (b_txMint block)).
  { subst m1. unfold Ledger.after_mint. destruct (Block.IsVacant block) eqn:Ev.
    - exists ids. split; [done|]. rewrite Hd; [lia|]. unfold Tx.IsNull in O3. by apply andb_true_iff in O3 as [_ ?].
    - pose proof (Ledger.mint_applies CryptoHash universe output_at m ids Hm _ O2 (Hnew eq_refl)) as Ha. eexists. split.
      + exact (Ledger.ledger_apply CryptoHash universe output_at m ids Hm _ _ O1 (Ledger.mint_named CryptoHash universe output_at _ O1 O2) Ha (Hnew eq_refl)).
      + by apply total_mint. }
  destruct Hmint as (ids1 & Hm1 & Et1). destruct (Ledger.check_txs _ _ _ _ _ _ _ _ _) as [[err|[[m2 cs2] nFee]]| |] eqn:Ec; cbn [mbind outcome_bind]; try done.
  destruct (_ <=? _); [|done]. intros [= <- <-]. destruct (check_txs_total _ _ _ _ _ _ _ _ _ _ Hp Hm1 Htx Ec) as [Et Ef].
  unfold Block.GetBlockMint, Block.GetBlockMintOf. rewrite <- Ef. rewrite eqm64_wrap.
  assert (E2 : eqm64 (total m2 + nFee - nFee) (total m1 + 0 - nFee)) by (by rewrite Et). rewrite Et1 in E2.
  replace (total m2 + nFee - nFee) with (total m2) in E2 by lia. rewrite E2.
  by replace (total m + tx_nAmount (b_txMint block) + 0 - nFee) with (total m + (tx_nAmount (b_txMint block) - nFee)) by lia.
Qed.

(** An origin that takes the outputs of the block it leaves, or none *)
Lemma origin_total nNetTime hashGenesisBlock profile gp block :
  ledger_ok (gh_utxo gp) (gh_ids gp) -> b_nType block = Block.BLOCK_ORIGIN ->
  Core.ValidateBlock CryptoHash verify_detached size_type base64dec nNetTime hashGenesisBlock block = Return MV_OK ->
  Forall universe (b_txMint block :: b_vtx block) -> (Block.IsVacant block = false -> txid (b_txMint block) ∉ gh_ids gp) ->
  eqm64 (total (gh_utxo (origin_ghost CryptoHash profile gp block)))
    ((if Profile.IsIsolated profile then 0 else total (gh_utxo gp)) + Block.GetBlockMint block).
Proof.
  intros Hm Hty Hv Hu Hnew. pose proof (Ledger.validated_block_ok CryptoHash universe verify_detached size_type base64dec nNetTime hashGenesisBlock block Hv Hu) as [O1 O2 O3 O4].
  destruct (validated_txs _ _ _ Hv Hu) as (_ & Hamt & Hd).
  assert (Hvac : Block.IsVacant block = false) by (unfold Block.IsVacant; by rewrite Hty).
  assert (Ev : b_vtx block = []).
  { apply (proj2 (Core.ValidateBlock_rules CryptoHash verify_detached size_type base64dec nNetTime hashGenesisBlock block)) in Hv.
    change (b_nType block =? Block.BLOCK_VACANT) with (Block.IsVacant block) in Hv. rewrite Hvac in Hv. by apply (Core.block_origin _ _ _ _ _ _ _ Hv). }
  unfold Block.GetBlockMint, Block.GetBlockMintOf. rewrite Ev. cbn [foldl]. rewrite Z.sub_0_r, eqm64_wrap. unfold origin_ghost.
  destruct (Z.eqb_spec (tx_nAmount (b_txMint block)) 0) as [->|Hne]; cbn [gh_utxo].
  { rewrite Z.add_0_r. by destruct (Profile.IsIsolated profile). }
  rewrite total_mint; [by destruct (Profile.IsIsolated profile)| |done|done]. destruct (Profile.IsIsolated profile).
  - apply (Ledger.mint_applies CryptoHash universe output_at ∅ ∅ (empty_ledger CryptoHash universe output_at)); [done|set_solver].
  - apply (Ledger.mint_applies CryptoHash universe output_at _ _ Hm); [done|auto].
Qed.

(** ** The recorded supply *)

(** The origin of an isolated fork *)
Definition starts_empty (b : CBlock) : bool :=
  Block.IsOrigin b && match Profile.Load (b_vchProof b) with Return (Some profile) => Profile.IsIsolated profile | _ => false end.

(** [left_behind h z]: [z] is what the isolated forks on the way to the block [h]
    left with the chains they parted from. *)
Inductive left_behind (hashGenesis : Z) (G : Ghosts) : Z -> Z -> Prop :=
  | lb_genesis : left_behind hashGenesis G hashGenesis 0
  | lb_above h g gp z :
      let b := bex_block (gh_block g) in
      h <> hashGenesis -> G !! h = Some g -> G !! b_hashPrev b = Some gp -> left_behind hashGenesis G (b_hashPrev b) z ->
      left_behind hashGenesis G h (if starts_empty b then z + total (gh_utxo gp) else z).

Definition supply_ok (hashGenesis : Z) (G : Ghosts) (st : CBlockBase) : Prop :=
  forall h i g, cb_mapIndex st !! h = Some i -> G !! h = Some g ->
    exists z, left_behind hashGenesis G h z /\ bi_nMoneySupply i = i64 (total (gh_utxo g) + z).

Lemma left_behind_mono hashGenesis (G G' : Ghosts) h z : G ⊆ G' -> left_behind hashGenesis G h z -> left_behind hashGenesis G' h z.
Proof.
  intros HG. induction 1 as [|h g gp z b Hne Hg Hgp _ IH]; [constructor|].
  eapply lb_above; [done|by eapply lookup_weaken|by eapply lookup_weaken|done].
Qed.

(** A block above [p] added to index and tree *)
Lemma supply_step hashGenesis G st st' g gp p i :
  let block := bex_block (gh_block g) in let hash := Block.GetHash CryptoHash block in
  supply_ok hashGenesis G st -> G !! hash = None -> hash <> hashGenesis -> cb_mapIndex st !! b_hashPrev block = Some p ->
  G !! b_hashPrev block = Some gp -> bi_nMoneySupply i = i64 (Block.GetBlockMint block + bi_nMoneySupply p) ->
  eqm64 (total (gh_utxo g)) ((if starts_empty block then 0 else total (gh_utxo gp)) + Block.GetBlockMint block) ->
  (forall h j, cb_mapIndex st' !! h = Some j -> exists j0, <[hash := i]> (cb_mapIndex st) !! h = Some j0 /\ bi_nMoneySupply j = bi_nMoneySupply j0) ->
  supply_ok hashGenesis (<[hash := g]> G) st'.
Proof.
  intros block hash Hs Hnew Hne Hp Hgp Ei Et Hst h j g' Hj Hg'. destruct (Hst h j Hj) as (j0 & Hj0 & ->).
  assert (HG : G ⊆ <[hash := g]> G) by by apply insert_subseteq.
  apply lookup_insert_Some in Hj0 as [[<- <-]|[Hh Hj0]].
  - rewrite lookup_insert_eq in Hg'. injection Hg' as <-. destruct (Hs _ _ _ Hp Hgp) as (z & Hz & Ep).
    eexists. split; [eapply (lb_above _ _ _ g gp z); [done|by rewrite lookup_insert_eq|by eapply lookup_weaken|by eapply left_behind_mono]|].
    rewrite Ei, Ep. change (eqm64 (Block.GetBlockMint block + i64 (total (gh_utxo gp) + z))
      (total (gh_utxo g) + (if starts_empty block then z + total (gh_utxo gp) else z))).
    rewrite eqm64_wrap, Et. destruct (starts_empty block); apply eq_subrelation; try apply _; lia.
  - rewrite lookup_insert_ne in Hg' by done. destruct (Hs _ _ _ Hj0 Hg') as (z & Hz & E). exists z. split; [by eapply left_behind_mono|done].
Qed.

Lemma next_only_supply o (st st' : Indexes) h j :
  BlockFork.next_only o st st' -> st' !! h = Some j -> exists j0, st !! h = Some j0 /\ bi_nMoneySupply j = bi_nMoneySupply j0.
Proof.
  intros Hn Hj. specialize (Hn h). rewrite Hj in Hn. destruct (st !! h) as [j0|]; [|done]. exists j0. split; [done|].
  destruct Hn as [E _]. by apply (f_equal bi_nMoneySupply) in E.
Qed.

Context `{!CodecOk C} (kv_order_perm : forall m, kv_order m ≡ₚ map_to_list m) (Hkd : 1 <= kd).

Notation reached := (reached CryptoHash verify_detached size_type base64dec C kv_order universe pool_verified).
Notation world_inv := (world_inv CryptoHash C universe output_at kd).

Lemma supply_block hashGenesis k ty G wl io pool_Exists nNetTime block wl' r :
  world_inv hashGenesis k ty G wl -> supply_ok hashGenesis G (wl_cntrBlock wl) -> k + 1 < 2 ^ 32 -> BlockDB.disk_ok io ->
  pool_verified pool_Exists -> offered CryptoHash universe block ->
  (checked CryptoHash verify_detached size_type base64dec nNetTime hashGenesis wl block -> regular CryptoHash G wl block) ->
  WorldLine.AddNewBlock CryptoHash verify_detached size_type base64dec C kv_order pool_Exists io true nNetTime hashGenesis block wl = Return (wl', r) ->
  supply_ok hashGenesis (after_block G (Block.GetHash CryptoHash block)
    (decide_block CryptoHash verify_detached size_type base64dec pool_Exists nNetTime hashGenesis G wl block)) (wl_cntrBlock wl').
Proof.
  intros [Hwl Ht Hdom Hgen] Hs Hk Hio Hpool Hoff Hreg E.
  pose proof (AddNewBlock_result CryptoHash verify_detached size_type base64dec C kv_order pool_Exists nNetTime hashGenesis universe output_at kd kv_order_perm io Hio k ty G wl block Hwl Hk Hoff Hreg) as Hr.
  unfold block_result in Hr. destruct (decide_block _ _ _ _ _ _ _ G wl block) as [[err|[p g]]|x|] eqn:Ed; cbn [after_block]; [| |congruence..].
  - destruct Hr as (wl1 & E1 & _ & [Ei _ _ _]). assert (wl1 = wl') as -> by congruence. intros h i g. rewrite Ei. apply Hs.
  - destruct Hr as (wl1 & upd & ty' & E1 & _ & Hacc). assert (wl1 = wl') as -> by congruence.
    destruct (decide_block_inr _ _ _ _ _ _ _ _ _ _ _ _ Ed) as (Hch & Eb & Ho & Hp & gp & nReward & cs & Hgp & Ec).
    destruct Hacc as (pos & i & F & il & Hab & Hno & _). destruct (bs_ghost (proj1 Hwl) _ _ Hp) as (gp' & Hgp' & _ & Hl).
    assert (gp' = gp) as -> by congruence. pose proof Hch as (Hnew & Hv & _).
    assert (HG : G !! Block.GetHash CryptoHash block = None) by (apply not_elem_of_dom; rewrite Hdom; by apply not_elem_of_dom).
    subst block. eapply supply_step; [exact Hs|exact HG| |exact Hp|exact Hgp|apply (av_supply _ _ _ _ _ Hab)| |].
    + intros E0. rewrite E0 in HG. destruct Hgen as [? Hgen]. congruence.
    + unfold starts_empty. rewrite Ho. cbn [andb].
      eapply check_block_total; [exact Hpool|exact Hl|exact Hv|apply Hoff|by apply (Hreg Hch)|exact Ec].
    + intros h j. by apply next_only_supply with (1 := Hno).
Qed.

Lemma supply_origin hashGenesis k ty G wl io nNetTime block wl' r :
  world_inv hashGenesis k ty G wl -> supply_ok hashGenesis G (wl_cntrBlock wl) -> k + 1 < 2 ^ 32 -> BlockDB.disk_ok io ->
  offered CryptoHash universe block ->
  (origin_checked CryptoHash verify_detached size_type base64dec nNetTime hashGenesis wl block -> origin_regular CryptoHash G wl block) ->
  WorldLine.AddNewOrigin CryptoHash verify_detached size_type base64dec C kv_order io true nNetTime hashGenesis block wl = Return (wl', r) ->
  supply_ok hashGenesis (after_block G (Block.GetHash CryptoHash block)
    (decide_origin CryptoHash verify_detached size_type base64dec nNetTime hashGenesis G wl block)) (wl_cntrBlock wl').
Proof.
  intros [Hwl Ht Hdom Hgen] Hs Hk Hio Hoff Hreg E.
  pose proof (AddNewOrigin_result CryptoHash verify_detached size_type base64dec C kv_order nNetTime hashGenesis universe output_at kd kv_order_perm io Hio Hkd k ty G wl block Hwl Hk Hoff Hreg) as Hr.
  unfold origin_result in Hr. destruct (decide_origin _ _ _ _ _ _ G wl block) as [[err|[[p profile] g]]|x|] eqn:Ed; cbn [after_block]; [| |congruence..].
  - by assert (wl' = wl) as -> by congruence.
  - destruct Hr as (wl1 & upd & ty' & E1 & _ & Hst). assert (wl1 = wl') as -> by congruence.
    destruct (decide_origin_inr _ _ _ _ _ _ _ _ _ _ _ _ Ed) as (Hch & Eb & Hpf & Hp & gp & Hgp & Eg).
    destruct Hst as (pos & i & Hab & Ei & _). destruct (bs_ghost (proj1 Hwl) _ _ Hp) as (gp' & Hgp' & _ & Hl).
    assert (gp' = gp) as -> by congruence. pose proof Hch as (Hnew & Hv & _). destruct (Hreg Hch) as [Hty Hrg].
    assert (HG : G !! Block.GetHash CryptoHash block = None) by (apply not_elem_of_dom; rewrite Hdom; by apply not_elem_of_dom).
    assert (Hse : starts_empty block = Profile.IsIsolated profile) by (unfold starts_empty, Block.IsOrigin; by rewrite Hty, Hpf).
    pose proof (origin_total nNetTime hashGenesis profile gp block Hl Hty Hv (of_universe _ _ _ Hoff) (rg_mint _ _ _ _ Hrg gp Hgp)) as Et.
    rewrite <- Hse, <- Eg in Et. clear Eg. subst block.
    eapply supply_step; [exact Hs|exact HG| |exact Hp|exact Hgp|apply (av_supply _ _ _ _ _ Hab)|exact Et|].
    + intros E0. rewrite E0 in HG. destruct Hgen as [? Hgen]. congruence.
    + intros h j. rewrite Ei. by exists j.
Qed.

Lemma supply_genesis io block profile st hashGenesis :
  BlockDB.disk_ok io -> genesis_ok universe hashGenesis block profile -> b_vtx block = [] ->
  BlockBase.Initiate CryptoHash C kv_order io true hashGenesis block start = Return (st, inr tt) ->
  supply_ok hashGenesis {[hashGenesis := genesis_ghost CryptoHash block]} st.
Proof.
  intros Hio Hgn Hv E. destruct (Initiate_result CryptoHash universe output_at C kv_order kv_order_perm kd 1 Hkd ∅ io Hio start hashGenesis block profile (start_fresh C kd))
    as (st' & ty & pos & E' & _ & _ & _ & Ei & _); [lia|done|].
  assert (st' = st) as -> by congruence. intros h i g. rewrite Ei. intros [<- <-]%lookup_singleton_Some [_ <-]%lookup_singleton_Some.
  exists 0. split; [constructor|]. cbn [genesis_ghost gh_utxo]. rewrite <- insert_empty, total_insert by done.
  change (bi_nMoneySupply (genesis_index CryptoHash hashGenesis block pos)) with (Block.GetBlockMint block).
  unfold Block.GetBlockMint, Block.GetBlockMintOf. rewrite Hv. cbn. f_equal. unfold total. rewrite map_fold_empty. lia.
Qed.

Lemma after_block_mono {A} hashGenesis k ty G wl hash (r : outcome (MvErr + A * Ghost)) :
  world_inv hashGenesis k ty G wl ->
  (forall a g, r = Return (inr (a, g)) -> cb_mapIndex (wl_cntrBlock wl) !! hash = None) -> G ⊆ after_block G hash r.
Proof.
  intros [_ _ Hdom _] Hr. destruct r as [[|[a g]]| |]; cbn [after_block]; try done. apply insert_subseteq, not_elem_of_dom.
  rewrite Hdom. apply not_elem_of_dom. by eapply Hr.
Qed.

Lemma reached_supply hashGenesis k G wl :
  reached hashGenesis k G wl -> (forall g, G !! hashGenesis = Some g -> b_vtx (bex_block (gh_block g)) = []) ->
  supply_ok hashGenesis G (wl_cntrBlock wl).
Proof.
  induction 1 as [io block profile st Hio Hgn Eh E|k G wl io pool_Exists nNetTime block wl' r Hr IH Hk Hio Hp Hoff Hreg E|k G wl io nNetTime block wl' r Hr IH Hk Hio Hoff Hreg E];
    intros Hvtx; [|destruct (reached_inv CryptoHash verify_detached size_type base64dec C kv_order universe output_at kd pool_verified kv_order_perm Hkd _ _ _ _ Hr) as [ty Hinv]..].
  - eapply supply_genesis; [done|done|apply (Hvtx (genesis_ghost CryptoHash block)), lookup_singleton_eq|done].
  - eapply supply_block; [exact Hinv| |exact Hk|exact Hio|exact Hp|exact Hoff|exact Hreg|exact E].
    apply IH. intros g Hg. apply Hvtx. eapply lookup_weaken; [exact Hg|]. eapply after_block_mono; [exact Hinv|]. intros a g' Ed.
    by apply decide_block_inr in Ed as [[? _] _].
  - eapply supply_origin; [exact Hinv| |exact Hk|exact Hio|exact Hoff|exact Hreg|exact E].
    apply IH. intros g Hg. apply Hvtx. eapply lookup_weaken; [exact Hg|]. eapply after_block_mono; [exact Hinv|]. intros [a profile] g' Ed.
    by apply decide_origin_inr in Ed as [[? _] _].
Qed.

(** The fork [f]: what it has unspent and what its last block records *)
Lemma fork_supply hashGenesis k (G : Ghosts) wl (f : Z) F :
  reached hashGenesis k G wl -> (forall g, G !! hashGenesis = Some g -> b_vtx (bex_block (gh_block g)) = []) ->
  cb_mapFork (wl_cntrBlock wl) !! f = Some F ->
  exists (i : CBlockIndex) (m : MapType) z, cb_mapIndex (wl_cntrBlock wl) !! bf_pIndexLast F = Some i /\
    (forall out, BlockBase.GetTxUnspent (wl_cntrBlock wl) f out = m !! out) /\
    left_behind hashGenesis G (bf_pIndexLast F) z /\ bi_nMoneySupply i = i64 (total m + z).
Proof.
  intros Hr Hvtx HF.
  destruct (reached_inv CryptoHash verify_detached size_type base64dec C kv_order universe output_at kd pool_verified kv_order_perm Hkd _ _ _ _ Hr) as [ty [[Hi _] _ _ _]].
  destruct (bs_fork Hi _ _ HF) as (_ & i & g & [Hl _ Hg Hc _ _]). destruct (reached_supply _ _ _ _ Hr Hvtx _ _ _ Hl Hg) as (z & Hz & E).
  exists i, (gh_utxo g), z. split; [done|]. split; [|done]. intros out.
  unfold BlockBase.GetTxUnspent, BlockDB.RetrieveTxUnspent. rewrite UnspentDB.Retrieve_contents by apply (bs_stores Hi).
  unfold fork_content in Hc. by rewrite Hc.
Qed.

End money.

End Money.
