(* ===== verification/Node.v ===== *)
(** * A node: the main theorems about the block base and the world line

    The results of the files before, for the states a node reaches from its
    genesis block by blocks that are regular if they pass the checks
    ([World.reached]), and an example: the genesis block of the main network, a
    block with proof of work that spends its output, and a fork. *)

From S2P Require Import Prelude RWLock Prog Cache Stream Destination Transaction Block Base.
From S2P Require Import Base25519 SC25519 Crypto Template Profile BlockIndex Core UnspentDB BlockView Chain BlockFork BlockTree.
From S2P Require Import TimeSeries CTSDB BlockStore BlockDB BlockBase WorldLine Ledger BaseInv BaseView BaseAdd BaseCommit BaseFork.
From S2P Require Import BlockVerify Accept Origin World Money.

Import CWalleveStream.

Module Node.

Import BlockStore BaseInv BaseFork Accept Origin World.

(** ** Theorems *)

Section node.
Context (CryptoHash : list Z -> Z) (verify_detached : list Z -> list Z -> Z -> bool) `{IEdwards} (size_type : nat).
Context (base64dec : list Z -> option (list Z)) `{IDelegateVerify}.
Context (C : codec (list (Z * CTxIndex))) `{!CodecOk C} (kv_order : MapType -> list (CTxOutPoint * CTxOutput)).
Hypothesis kv_order_perm : forall m, kv_order m ≡ₚ map_to_list m.
Context (universe : CTransaction -> Prop) (output_at : CTxOutPoint -> CTxOutput) (kd : Z) (Hkd : 1 <= kd).
Context `{!Ledger.Naming CryptoHash universe output_at}.

(** [Initiate] on an empty block base and a genesis block whose profile loads
    succeeds on a disk that does not fail.  Afterwards the invariant of the block
    base holds, the index and the forks have just this block, and the unspent
    outputs are the one of its mint transaction. *)
Theorem Initiate_spec (k : Z) (ty : Objects) (io : DbIO) (st : CBlockBase) (hash : Z) (block : CBlock) (profile : CProfile)
    (Hio : BlockDB.disk_ok io) (Hfresh : fresh C kd k ty st) (Hk : k + 1 < 2 ^ 32) (Hgenesis : genesis_ok universe hash block profile) :
  exists st' ty' pos,
    BlockBase.Initiate CryptoHash C kv_order io true hash block st = Return (st', inr tt) /\
    base_inv CryptoHash universe output_at C kd (k + 1) ty' {[hash := genesis_ghost CryptoHash block]} st' /\ best_ok st' /\ open_ok st' /\
    cb_mapIndex st' = {[hash := genesis_index CryptoHash hash block pos]} /\
    cb_mapFork st' = {[hash := mkBlockFork profile hash hash]}.
Proof. by apply (Initiate_result CryptoHash universe output_at C kv_order kv_order_perm kd k Hkd ty io). Qed.


(** C11: On a disk that does not fail, [AddNewOrigin] takes the decision
    [decide_origin] about the first block of a fork offered to it: an error is
    returned and nothing changes, or the fork is opened at this block with the
    outputs of the block it leaves (none if it is isolated) and that of its mint
    transaction, and the invariant holds.  Three conditions are assumed of a block
    that passes the checks, because the code makes no check: its type is exactly
    [BLOCK_ORIGIN], it is younger than the origin of the fork it leaves, and its
    mint transaction is new to the branch it leaves. *)
Theorem AddNewOrigin_spec (nNetTime hashGenesisBlock k : Z) (ty : Objects) (G : Ghosts) (io : DbIO) (wl : CWorldLine) (block : CBlock)
    (Hio : BlockDB.disk_ok io) (Hinv : wl_inv CryptoHash C universe output_at kd k ty G wl) (Hk : k + 1 < 2 ^ 32)
    (Hoffered : offered CryptoHash universe block)
    (Hregular : origin_checked CryptoHash verify_detached size_type base64dec nNetTime hashGenesisBlock wl block ->
      origin_regular CryptoHash G wl block) :
  origin_result CryptoHash verify_detached size_type base64dec C nNetTime hashGenesisBlock universe output_at kd k ty G wl block
    (WorldLine.AddNewOrigin CryptoHash verify_detached size_type base64dec C kv_order io true nNetTime hashGenesisBlock block wl).
Proof. by apply AddNewOrigin_result. Qed.

(** C12: A state reached from the genesis block by accepting and rejecting blocks and
    origins is well formed: the index is a tree of chains, every block of it has a
    ledger that follows from that of its predecessor, the files hold the blocks and
    their transactions where the index says, and every store has its own invariant.
    It is assumed of the way to the state that the disk did not fail, that ids
    determine transactions, and that the blocks that passed the checks were regular:
    younger than the origin of their fork, with a mint transaction new to their
    branch, and origins of the type [BLOCK_ORIGIN].  The code checks none of these
    three. *)
Theorem world_wellformed (pool_ok : (Z -> bool) -> Prop) (hashGenesis k : Z) (G : Ghosts) (wl : CWorldLine)
    (Hreached : reached CryptoHash verify_detached size_type base64dec C kv_order universe pool_ok hashGenesis k G wl) :
  exists ty, world_inv CryptoHash C universe output_at kd hashGenesis k ty G wl.
Proof. by eapply reached_inv. Qed.

(** C1: In a state reached from the genesis block, the unspent outputs of a fork are
    those of replaying the blocks of its chain, read back from the files, on the
    outputs the fork started with; and no block of the fork has more trust than the
    last of that chain.  It is assumed of the way to the state that the disk did not
    fail, that ids determine transactions, and that the blocks that passed the
    checks were regular: younger than the origin of their fork, with a mint
    transaction new to their branch, and origins of the type [BLOCK_ORIGIN].  The
    code checks none of these three. *)
Theorem unspent_is_replay (pool_ok : (Z -> bool) -> Prop) (hashGenesis k : Z) (G : Ghosts) (wl : CWorldLine) (f : Z) (F : CBlockFork)
    (Hreached : reached CryptoHash verify_detached size_type base64dec C kv_order universe pool_ok hashGenesis k G wl)
    (Hfork : cb_mapFork (wl_cntrBlock wl) !! f = Some F) :
  exists p o gs g0, replayed CryptoHash G (wl_cntrBlock wl) f F p o gs g0.
Proof.
  destruct (reached_inv CryptoHash verify_detached size_type base64dec C kv_order universe output_at kd pool_ok kv_order_perm Hkd _ _ _ _ Hreached) as [ty [Hwl _ _ _]].
  by eapply fork_replayed.
Qed.

(** C8: In a state reached from the genesis block, the money supply that the last
    block of a fork records is, as an [int64], the sum of the unspent outputs of the
    fork and of what its chain left behind: an isolated fork starts without outputs,
    but its record goes on from that of the block it leaves.  No bound on amounts or
    fees is assumed beyond what the node checks.  It is assumed that the genesis
    block has no transaction beside its mint, that the pool has only transactions
    whose inputs cover amount and fee, that the disk did not fail, that ids
    determine transactions, and that the blocks that passed the checks were regular:
    younger than the origin of their fork, with a mint transaction new to their
    branch, and origins of the type [BLOCK_ORIGIN]. *)
Theorem money_conserved (hashGenesis k : Z) (G : Ghosts) (wl : CWorldLine) (f : Z) (F : CBlockFork)
    (Hreached : reached CryptoHash verify_detached size_type base64dec C kv_order universe
      (Money.pool_verified CryptoHash universe output_at) hashGenesis k G wl)
    (Hgenesis : forall g, G !! hashGenesis = Some g -> b_vtx (bex_block (gh_block g)) = [])
    (Hfork : cb_mapFork (wl_cntrBlock wl) !! f = Some F) :
  exists (i : CBlockIndex) (m : MapType) (z : Z),
    cb_mapIndex (wl_cntrBlock wl) !! bf_pIndexLast F = Some i /\
    (forall out, BlockBase.GetTxUnspent (wl_cntrBlock wl) f out = m !! out) /\
    Money.left_behind hashGenesis G (bf_pIndexLast F) z /\ bi_nMoneySupply i = i64 (BlockView.total m + z).
Proof. by eapply Money.fork_supply. Qed.
End node.

(** ** An example *)

Definition sample_hash (l : list Z) : Z := foldl (fun a b => (a * 31 + b + 1) mod 2 ^ 61) 7 l.

Definition genesis : CBlock := Core.GetGenesisBlock.

Definition genesis_hash : Z := Eval vm_compute in Block.GetHash sample_hash genesis.

Definition genesis_profile : CProfile :=
  Eval vm_compute in match Profile.Load (b_vchProof genesis) with Return (Some p) => p | _ => Profile.SetNull end.

Definition genesis_txid : Z := Eval vm_compute in Tx.GetHash sample_hash (b_txMint genesis).

(** A transaction that spends the output of the genesis block *)
Definition spend : CTransaction :=
  mkTx 1 Tx.TX_TOKEN 1515745200 0 genesis_hash [mkTxIn (mkOutPoint genesis_txid 0)]
    (Destination.of_pubkey 5) (100 * COIN) MIN_TX_FEE [] (le_split 8 64 0x575f2041770496489120bb102d9dd55f5e75b0c4aa528d5762b92b59acd6d939).

Definition spend_txid : Z := Eval vm_compute in Tx.GetHash sample_hash spend.

Definition work_mint : CTransaction :=
  mkTx 1 Tx.TX_WORK 1515745216 0 genesis_hash [] (Destination.of_pubkey 5) (15 * COIN) 0 [] [].

(** The first block *)
Definition work : CBlock :=
  mkBlock 1 Block.BLOCK_PRIMARY 1515745216 genesis_hash spend_txid
    (CM_BLAKE512 :: Core.nProofOfWorkInit :: replicate 32 0) work_mint [spend] (le_split 8 64 5).

Definition fork_mint : CTransaction :=
  mkTx 1 Tx.TX_GENESIS 1515745300 0 genesis_hash [] (Destination.of_pubkey 6) (1000 * COIN) 0 [] [].

Definition fork_profile : CProfile :=
  mkProfile 1 [70; 111; 114; 107] [70] 0 MIN_TX_FEE (15 * COIN) (Destination.of_pubkey 6) genesis_hash 0.

Definition fork_proof : list Z := Eval vm_compute in (Profile.Save fork_profile []).2.

(** A fork that leaves the genesis block *)
Definition fork_origin : CBlock :=
  mkBlock 1 Block.BLOCK_ORIGIN 1515745300 genesis_hash 0 fork_proof fork_mint [] (le_split 8 64 6).

(** The transactions with the owner and the value of their inputs *)
Definition sample_txs : list (CTransaction * CDestination * Z) :=
  [(b_txMint genesis, Destination.SetNull, 0); (spend, tx_sendTo (b_txMint genesis), 745000000 * COIN);
   (work_mint, Destination.SetNull, 0); (fork_mint, Destination.SetNull, 0)].

Definition sample_universe (tx : CTransaction) : Prop := tx ∈ sample_txs.*1.*1.

Fixpoint output_of (l : list (CTransaction * CDestination * Z)) (o : CTxOutPoint) : CTxOutput :=
  match l with
  | [] => Tx.output_null
  | (tx, dest, nValueIn) :: l =>
      if bool_decide (o = mkOutPoint (Tx.GetHash sample_hash tx) 0) then Tx.output_of_tx tx
      else if bool_decide (o = mkOutPoint (Tx.GetHash sample_hash tx) 1) then Tx.output_change tx dest nValueIn
      else output_of l o
  end.

Definition sample_output : CTxOutPoint -> CTxOutput := output_of sample_txs.

Definition sample_io : DbIO := mkDbIO true true true true true (Some (∅, ∅)) (Some ∅) true (fun _ => true) true.

#[local] Existing Instance Crypto.toy_curve.

#[local] Instance no_agreement : IDelegateVerify := {| VerifyProof := fun _ _ => None |}.

#[local] Existing Instance TxIndexDB.sample_chunk_ok.

Notation sample_chunk := TxIndexDB.sample_chunk.

Lemma output_of_valid l o :
  Forall (fun e => valid Tx.output_codec (Tx.output_of_tx e.1.1) /\ valid Tx.output_codec (Tx.output_change e.1.1 e.1.2 e.2)) l ->
  valid Tx.output_codec (output_of l o).
Proof.
  induction 1 as [|[[tx dest] v] l [H0 H1] _ IH]; cbn [output_of]; [apply (bool_decide_unpack _); vm_compute; exact I|].
  repeat case_bool_decide; done.
Qed.

Lemma sample_naming : Ledger.Naming sample_hash sample_universe sample_output.
Proof.
  split.
  - intros tx Htx. unfold sample_universe in Htx. cbn [sample_txs fmap list_fmap fst] in Htx.
    repeat (apply elem_of_cons in Htx as [->|Htx]; [apply (bool_decide_unpack _); vm_compute; exact I|]). by apply elem_of_nil in Htx.
  - intros tx1 tx2 H1 H2. unfold sample_universe in H1, H2. apply list_elem_of_In in H1, H2.
    assert (E : forallb (fun a => forallb (fun b => negb (Tx.GetHash sample_hash a =? Tx.GetHash sample_hash b) || bool_decide (a = b))
      sample_txs.*1.*1) sample_txs.*1.*1 = true) by (vm_compute; reflexivity).
    rewrite forallb_forall in E. specialize (E _ H1). rewrite forallb_forall in E. specialize (E _ H2). intros Eid.
    rewrite Eid, Z.eqb_refl in E. by apply bool_decide_eq_true in E.
  - intros o. apply output_of_valid. repeat apply Forall_cons_2; try apply Forall_nil_2; (split; apply (bool_decide_unpack _); vm_compute; exact I).
  - intros tx Htx. unfold sample_universe in Htx. cbn [sample_txs fmap list_fmap fst] in Htx.
    repeat (apply elem_of_cons in Htx as [->|Htx]; [vm_compute; reflexivity|]). by apply elem_of_nil in Htx.
  - intros tx c Htx. unfold sample_universe in Htx. cbn [sample_txs fmap list_fmap fst] in Htx.
    repeat (apply elem_of_cons in Htx as [->|Htx]; [intros E; vm_compute in E; injection E as <-; vm_compute; reflexivity|]). by apply elem_of_nil in Htx.
Qed.

Lemma sample_disk : BlockDB.disk_ok sample_io.
Proof. repeat split. Qed.

Lemma genesis_valid_bytes : valid Block.blockex_codec (mkBlockEx genesis []).
Proof.
  split; [|done]. apply pair_valid; [|split; [split; [done|reflexivity]|constructor]].
  split; [|done]. repeat apply pair_valid; try (apply (bool_decide_unpack _); vm_compute; exact I).
Qed.

Lemma sample_genesis : genesis_ok sample_universe genesis_hash genesis genesis_profile.
Proof.
  split; [apply genesis_valid_bytes|vm_compute; reflexivity|vm_compute; reflexivity|discriminate
    |apply (bool_decide_unpack _); vm_compute; exact I|vm_compute; reflexivity|apply list_elem_of_here|reflexivity|vm_compute; reflexivity].
Qed.

Notation sample_ghosts := ({[genesis_hash := genesis_ghost sample_hash genesis]} : Ghosts).
Notation sample_inv := (wl_inv sample_hash sample_chunk sample_universe sample_output 1).

Lemma sample_state : exists st ty pos,
  BlockBase.Initiate sample_hash sample_chunk map_to_list sample_io true genesis_hash genesis start = Return (st, inr tt) /\
  sample_inv 2 ty sample_ghosts (WorldLine.init st) /\
  cb_mapIndex st = {[genesis_hash := genesis_index sample_hash genesis_hash genesis pos]} /\
  cb_mapFork st = {[genesis_hash := mkBlockFork genesis_profile genesis_hash genesis_hash]}.
Proof.
  destruct (@Initiate_result sample_hash sample_universe sample_output sample_chunk _ map_to_list ltac:(done) 1 1 ltac:(done) ∅ sample_io sample_disk
    sample_naming start genesis_hash genesis genesis_profile (start_fresh _ _)) as (st & ty & pos & E & Hi & Hb & Ho & Ei & Ef); [lia|apply sample_genesis|].
  exists st, ty, pos. split; [exact E|]. split; [split; [exact Hi|split; [exact Hb|exact Ho]]|]. split; [exact Ei|exact Ef].
Qed.

(** A block above the genesis block is regular if it is younger and its mint
    transaction another one. *)
Lemma sample_regular st pos block :
  cb_mapIndex st = {[genesis_hash := genesis_index sample_hash genesis_hash genesis pos]} ->
  b_hashPrev block = genesis_hash -> b_nTimeStamp genesis < b_nTimeStamp block ->
  Tx.GetHash sample_hash (b_txMint block) <> Tx.GetHash sample_hash (b_txMint genesis) ->
  regular sample_hash sample_ghosts (WorldLine.init st) block.
Proof.
  intros Ei Hp Ht Hm. split.
  - intros p o. cbn. rewrite Ei, Hp. intros [_ <-]%lookup_singleton_Some [_ <-]%lookup_singleton_Some. exact Ht.
  - intros gp. rewrite Hp. intros [_ <-]%lookup_singleton_Some _. cbn. by rewrite elem_of_singleton.
Qed.

Lemma work_valid : valid Block.block_codec work.
Proof. split; [|done]. repeat apply pair_valid; try (apply (bool_decide_unpack _); vm_compute; exact I). Qed.

Lemma origin_valid : valid Block.block_codec fork_origin.
Proof. split; [|done]. repeat apply pair_valid; try (apply (bool_decide_unpack _); vm_compute; exact I). Qed.

Lemma work_offered : offered sample_hash sample_universe work.
Proof. split; [exact work_valid|apply (bool_decide_unpack _); vm_compute; exact I..]. Qed.

Lemma origin_offered : offered sample_hash sample_universe fork_origin.
Proof. split; [exact origin_valid|apply (bool_decide_unpack _); vm_compute; exact I..]. Qed.

Lemma work_regular st pos :
  cb_mapIndex st = {[genesis_hash := genesis_index sample_hash genesis_hash genesis pos]} ->
  regular sample_hash sample_ghosts (WorldLine.init st) work.
Proof. intros Ei. apply (sample_regular st pos work Ei); apply (bool_decide_unpack _); vm_compute; exact I. Qed.

Lemma fork_regular st pos :
  cb_mapIndex st = {[genesis_hash := genesis_index sample_hash genesis_hash genesis pos]} ->
  origin_regular sample_hash sample_ghosts (WorldLine.init st) fork_origin.
Proof.
  intros Ei. split; [reflexivity|]. apply (sample_regular st pos fork_origin Ei); apply (bool_decide_unpack _); vm_compute; exact I.
Qed.

Lemma work_decided st pos :
  cb_mapIndex st = {[genesis_hash := genesis_index sample_hash genesis_hash genesis pos]} ->
  exists p g, decide_block sample_hash Template.sample_verify 8 Some (fun _ => false) 1600000000 genesis_hash sample_ghosts (WorldLine.init st) work =
    Return (inr (p, g)).
Proof.
  intros Ei. destruct st as [mapIndex mapFork ts db]. cbn in Ei. subst mapIndex. destruct pos as [nFile nOffset].
  eexists _, _. vm_compute. reflexivity.
Qed.

Lemma origin_decided st pos :
  cb_mapIndex st = {[genesis_hash := genesis_index sample_hash genesis_hash genesis pos]} ->
  cb_mapFork st = {[genesis_hash := mkBlockFork genesis_profile genesis_hash genesis_hash]} ->
  exists p g, decide_origin sample_hash Template.sample_verify 8 Some 1600000000 genesis_hash sample_ghosts (WorldLine.init st) fork_origin =
    Return (inr (p, fork_profile, g)).
Proof.
  intros Ei Ef. destruct st as [mapIndex mapFork ts db]. cbn in Ei, Ef. subst mapIndex mapFork. destruct pos as [nFile nOffset].
  eexists _, _. vm_compute. reflexivity.
Qed.

Lemma Initiate_spec_witness : exists st' pos,
  BlockBase.Initiate sample_hash sample_chunk map_to_list sample_io true genesis_hash genesis start = Return (st', inr tt) /\
  cb_mapIndex st' = {[genesis_hash := genesis_index sample_hash genesis_hash genesis pos]}.
Proof.
  destruct (@Initiate_spec sample_hash sample_chunk _ map_to_list (fun m => Permutation_refl _) sample_universe sample_output 1 (Z.le_refl 1)
    sample_naming 1 ∅ sample_io start genesis_hash genesis genesis_profile sample_disk (start_fresh _ _) eq_refl sample_genesis)
    as (st & ty & pos & E & _ & _ & _ & Ei & _).
  exists st, pos. split; [exact E|exact Ei].
Defined.


Lemma AddNewOrigin_spec_witness : exists wl wl' upd ty G,
  WorldLine.AddNewOrigin sample_hash Template.sample_verify 8 Some sample_chunk map_to_list sample_io true 1600000000
    genesis_hash fork_origin wl = Return (wl', inr upd) /\ sample_inv 3 ty G wl'.
Proof.
  destruct sample_state as (st & ty & pos & _ & Hinv & Ei & Ef).
  pose proof (@AddNewOrigin_spec sample_hash Template.sample_verify _ 8 Some sample_chunk _ map_to_list (fun m => Permutation_refl _) sample_universe
    sample_output 1 (Z.le_refl 1) sample_naming 1600000000 genesis_hash 2 ty _ sample_io (WorldLine.init st) fork_origin sample_disk Hinv eq_refl
    origin_offered (fun _ => fork_regular st pos Ei)) as H.
  destruct (origin_decided st pos Ei Ef) as (p & g & Ed). unfold origin_result in H. rewrite Ed in H.
  destruct H as (wl' & upd & ty' & E & Hinv' & _). exists (WorldLine.init st), wl', upd, ty'. eexists. split; [exact E|exact Hinv'].
Defined.

Notation sample_pool_ok := (Money.pool_verified sample_hash sample_universe sample_output).
Notation sample_reached := (reached sample_hash Template.sample_verify 8 Some sample_chunk map_to_list sample_universe sample_pool_ok genesis_hash).

Lemma empty_pool_ok : sample_pool_ok (fun _ => false).
Proof. by intros tx c _ [=]. Qed.

(** The genesis block and the first block above it *)
Lemma sample_reaches : exists wl (G : Ghosts), sample_reached 3 G wl /\ is_Some (cb_mapFork (wl_cntrBlock wl) !! genesis_hash) /\
  G !! genesis_hash = Some (genesis_ghost sample_hash genesis).
Proof.
  destruct sample_state as (st & ty & pos & Ei & Hinv & Em & Ef).
  pose proof (re_init sample_hash Template.sample_verify 8 Some sample_chunk map_to_list sample_universe sample_pool_ok genesis_hash sample_io genesis
    genesis_profile st sample_disk sample_genesis ltac:(vm_compute; reflexivity) Ei) as H0.
  pose proof (@AddNewBlock_result sample_hash Template.sample_verify _ 8 Some _ sample_chunk map_to_list (fun _ => false) 1600000000 genesis_hash
    sample_universe sample_output 1 sample_naming _ (fun m => Permutation_refl _) sample_io sample_disk 2 ty _ (WorldLine.init st) work Hinv eq_refl
    work_offered (fun _ => work_regular st pos Em)) as H.
  destruct (work_decided st pos Em) as (p & g & Ed). unfold block_result in H. rewrite Ed in H.
  destruct H as (wl' & upd & ty' & E & _ & (pos' & i & F & il & _ & _ & HF & _ & Hw)).
  pose proof (re_block _ _ _ _ _ _ _ _ _ 2 _ _ sample_io (fun _ => false) 1600000000 work wl' _ H0 eq_refl sample_disk empty_pool_ok work_offered
    (fun _ => work_regular st pos Em) E) as H1. rewrite Ed in H1. exists wl'. eexists. split; [exact H1|]. split.
  2: { cbn [after_block]. rewrite lookup_insert_ne; [apply lookup_singleton_eq|]. apply (bool_decide_unpack _). vm_compute. exact I. }
  assert (Ep : cb_mapFork (wl_cntrBlock (WorldLine.init st)) !! bi_pOrigin p = Some F) by exact HF.
  cbn [wl_cntrBlock WorldLine.init] in Ep. rewrite Ef in Ep. apply lookup_singleton_Some in Ep as [Ep _].
  destruct (wins _ _ _).
  - destruct Hw as [-> _]. rewrite <- Ep. rewrite lookup_insert_eq. by eexists.
  - destruct Hw as [-> _]. cbn [wl_cntrBlock WorldLine.init]. rewrite Ef, lookup_singleton_eq. by eexists.
Qed.

Lemma world_wellformed_witness : exists wl G ty, world_inv sample_hash sample_chunk sample_universe sample_output 1 genesis_hash 3 ty G wl.
Proof.
  destruct sample_reaches as (wl & G & Hr & _ & _). exists wl, G.
  exact (@world_wellformed sample_hash Template.sample_verify _ 8 Some _ sample_chunk _ map_to_list (fun m => Permutation_refl _) sample_universe
    sample_output 1 (Z.le_refl 1) sample_naming sample_pool_ok genesis_hash 3 G wl Hr).
Defined.

Lemma unspent_is_replay_witness : exists wl G F p o gs g0, replayed sample_hash G (wl_cntrBlock wl) genesis_hash F p o gs g0.
Proof.
  destruct sample_reaches as (wl & G & Hr & [F HF] & _). exists wl, G, F.
  exact (@unspent_is_replay sample_hash Template.sample_verify _ 8 Some _ sample_chunk _ map_to_list (fun m => Permutation_refl _) sample_universe
    sample_output 1 (Z.le_refl 1) sample_naming sample_pool_ok genesis_hash 3 G wl genesis_hash F Hr HF).
Defined.

Lemma money_conserved_witness : exists wl (G : Ghosts) F (i : CBlockIndex) (m : MapType) z,
  cb_mapIndex (wl_cntrBlock wl) !! bf_pIndexLast F = Some i /\
  (forall out, BlockBase.GetTxUnspent (wl_cntrBlock wl) genesis_hash out = m !! out) /\
  Money.left_behind genesis_hash G (bf_pIndexLast F) z /\ bi_nMoneySupply i = i64 (BlockView.total m + z).
Proof.
  destruct sample_reaches as (wl & G & Hr & [F HF] & Hg). exists wl, G, F.
  apply (@money_conserved sample_hash Template.sample_verify _ 8 Some _ sample_chunk _ map_to_list (fun m => Permutation_refl _) sample_universe
    sample_output 1 (Z.le_refl 1) sample_naming genesis_hash 3 G wl genesis_hash F Hr); [|exact HF].
  intros g. rewrite Hg. intros [= <-]. reflexivity.
Defined.

End Node.
